(* ===== verification/_CoqProject ===== *)
-Q . S2P
Prelude.v
Like.v
PathUtil.v
JsNum.v
Shard.v
Ttid.v
JsValue.v
Lexer.v
Parser.v
Builder.v
Plan.v
Utf8.v
Base64.v
Cipher.v
Codec.v
Filesystem.v
Lanes.v
MemFs.v
MemFsLaws.v
Json.v
NodeClient.v
Mobile.v
PrefixIndex.v
IndexSearch.v
IndexComplete.v
IndexKeys.v
IndexStore.v
IndexQuery.v
Query.v
Documents.v
Buckets.v
Metadata.v
Events.v
Engine.v
Lifecycle.v
Protocol.v
Worker.v
Hosted.v
Client.v
Browser.v
Direct.v
Containment.v
Isolation.v
Overlay.v
Opfs.v
Bridge.v
BridgeFs.v
Kernel.v
Scanner.v
HostVfs.v
Find.v
Worm.v
Explorer.v
