(* ===== verification/Prelude.v ===== *)
(** * FYLO: a verification library for its JavaScript core

    FYLO is a document store.  A collection is a directory: one JSON file per document,
    sharded by the document's time-based identifier, a prefix index beside them, an event
    journal, tombstones and metadata sidecars.  Its engine for browsers is written in
    JavaScript and runs over any filesystem that offers the operations of
    [src/browser/core/filesystem.js]: memory, the origin private file system (OPFS), a picked
    directory, or a copy-on-write overlay of one.  A page uses the engine directly or through
    a worker; a native application uses it through a bridge in its web view; programs for Node
    talk to the compiled binary over its standard streams; and the full engine, compiled to
    WebAssembly, reaches OPFS through a table of host functions and a second worker.  This
    library models these parts and how they compose.  A path [x] below is [src/x] here.

    ** How the model reads

    A string is the list of its UTF-16 code units ([jstr], below), a value of the language is a
    [JsValue.value], a number is a binary64 ([JsNum]), an object keeps the language's property
    order, and [undefined] is a value apart from [null].  A function that may throw and changes
    state is a [M S A]: it takes the state and gives an [outcome], the value or the error,
    and the state after; [try_catch] and [finally] keep the state of the failed part, as the
    language does, so a theorem about a failure says what the failed call has already done.
    [await] changes nothing where one operation is followed to its end; where the
    interleaving matters ([Lanes], [Worker], [Client], [Bridge], [NodeClient],
    [Mobile]) a handler is cut at its awaits, or events are a list in any order, and theorems
    quantify over the runs.  What is not source of this repository is a [Context] of a section
    or a class: the filesystem ([FyloFilesystem], with its laws [FilesystemLaws]), the clock,
    SHA-256, Web Crypto, the File System API, the allocator of a WebAssembly module, the child
    process.  Wherever a law is assumed, a concrete implementation of it is given ([MemFs] for
    the filesystem, [Opfs.Disk] for the File System API, [Scanner.Bump] for the allocator, [Toy]
    modules elsewhere), and the witnesses run the theorems on it.

    ** The files

    Text and values.
    - [Prelude] (this file): strings, the monad and its reasoning lemmas, the tactics
      [run_pure] and [keep], the hint database [fylo], association lists as ordered objects.
    - [JsNum], [JsValue], [Utf8], [Base64], [Json]: numbers and their text, values and their
      coercions with [src/query/safe-record.js], [TextEncoder] and [TextDecoder],
      [encodeURIComponent], [btoa] and [atob], [JSON.stringify] and [JSON.parse].
    - [Like]: [src/query/like.js].  The greedy loop agrees with a declarative reading of LIKE
      on values without a percent sign; the exception is a finding.
    - [PathUtil], [Shard], [Ttid]: [src/browser/core/path.js], [src/core/shard.js],
      [src/core/collection.js], [src/browser/vendor/ttid.mjs].

    Queries as text.
    - [Lexer], [Parser], [Builder]: [src/query/parser.js].  What the parser returns has the
      shape its callers rely on; the text a builder makes parses back to the query it was built
      from; a value interpolated by the SQL tag of [src/browser/fylo.js] stays one literal.
    - [Plan]: [src/query/planner.js], [src/query/postgrest.js].
    - [Cipher]: [src/security/cipher.js], [src/query/operators.js].  Encryption is undone by
      decryption; index expressions over encrypted fields hold blind tokens only.

    The index.
    - [Codec]: the codec of [src/browser/core/prefix-index.js]: the order of binary64 numbers
      is the order of their keys.  [IndexComplete], [IndexKeys]: every document that satisfies
      an operand has a key under each planned prefix.
    - [PrefixIndex], [IndexSearch], [IndexStore], [IndexQuery]: the persistent index, its files
      as text, its binary search, and the refinement: any allowed sequence of puts, removals,
      queries, compactions and reopenings behaves as a map from identifiers to documents.
    - [Kernel], [Scanner]: [crates/fylo-query/src/lib.rs] (the scan), and
      [src/browser/wasm/src/lib.rs] with [src/browser/wasm/index-scanner.js] over a linear
      memory: the scan in WebAssembly answers as the scan in JavaScript.

    The engine in the browser.
    - [Filesystem], [MemFs], [MemFsLaws]: the contract, and the memory filesystem, which is a
      tree and keeps the contract.  [Lanes]: the write lanes of [src/browser/core/filesystem.js]
      over the language's promises and their reactions.  [Opfs], [Overlay]: the
      implementations over the File System API and the overlay ([src/browser/opfs-filesystem.js],
      [src/browser/fsa-filesystem.js]).
    - [Query], [Documents], [Buckets], [Metadata], [Events]: the modules of [src/browser/core/]
      of these names, [Buckets] being what the three stores of one file per record share.
    - [Engine]: class [BrowserCore].  [Lifecycle]: on documents the index can encode,
      under identifiers given with them, the core refines a store of active and deleted
      documents, errors included.  [Find]: a search through planner, index and evaluator
      answers with the matching documents, for queries the index serves whole.  [Worm]: a
      collection written once keeps its documents whatever is asked of it, batches, writes by
      query, SQL and its removal included.
    - [Containment], [Isolation]: a request changes nothing outside its collection.

    Reaching the engine.
    - [Protocol], [Worker], [Hosted], [Client], [Browser]: [src/browser/core/protocol.js],
      [src/browser/storage.js], [src/browser/worker/], [src/browser/fylo.js].  Every request is
      answered once; refused requests change nothing; a request through a worker is the request
      on a core of the page's own; ports hear what they subscribe to.
    - [Direct], [Mobile]: [src/browser/client.js] and [clients/mobile/bridge.js]; [Direct]
      composes them: the bridge over the client over the runtime over the core.
    - [NodeClient]: [clients/node/fylo.mjs], the frames of the machine protocol, the queue
      helper and environment files.
    - [Explorer]: [explorer/client/components/explorer/app/]: where it looks for records, the
      version list, which is the document's history, and the field editor.

    The full engine's host.
    - [Bridge], [BridgeFs]: [src/browser/opfs-bridge.mjs] and [src/browser/opfs-bridge-worker.mjs]:
      the two threads' shared buffer, whose calls end and refine direct calls, and the file
      operations behind it.  [HostVfs]: [src/browser/host-vfs.mjs] with the loops of
      [crates/fylo-vfs/src/host.rs] that call it.

    ** What the groups of theorems show

    Refinements of an abstract store: [Lifecycle.core_refines_store], [Answers.index_refines_map],
    [Client.request_through_worker], [Bridge.bridge_refines_direct_calls],
    [BridgeFs.attributes_refine_a_map].  Each goes from the empty or agreed state through
    any sequence of the operations it allows, and says which those are.  Safety: nothing outside a root, a collection or a layer is
    written; operands are validated or blinded; statements are not injected into.
    Equivalences with a reference: LIKE, the binary search, the handle cache, the scanner in
    WebAssembly, a facade's call.  Round trips: statements, the index's log, ciphertexts,
    JSON, UTF-8, environment files.  Totality and liveness: every request, message, frame and
    promise gets one answer, lanes make progress, and so does the bridge where its Worker can
    be woken ([Atomics.waitAsync]).  Errors: what a failed operation
    leaves behind.  Where the code does less than it means to, the theorem states what it does
    and the manifest's findings name the line.

    ** Fuel and bounds

    Recursion that is not structural takes fuel that the caller computes from the input, and
    lemmas show it to be enough: the lexer's, the parser's and the JSON reader's from the length
    of what is left ([Json.parse_fuel]), the matcher's from both texts ([Like.fuel_bound]), the
    binary searches' and scans' from the file's length, the cipher's and the numbers' from the
    bytes and digits; [HostVfs.read_loop] needs two turns, and [Explorer.walk] has the two
    thousand of its source.  Machine integers are binary64, except the 32-bit and 64-bit words
    of the bridge's header and of WebAssembly, which keep their wrap-around ([Scanner.i32],
    [HostVfs.number_of]); statements with sizes say below which bound they hold.

    ** Not modelled, and why

    The engine for servers ([crates/], but for the scan, the host loops and the exported
    functions named above) is Rust and not this library's subject; [clients/] in other languages
    likewise.  [explorer/] and [website/] are interfaces built of components of a framework that
    is not here; of the explorer the modules without a component are modelled.  Its [assets/] and
    the vendored [chex.mjs] are generated.  [scripts/], [tests/], [fuzz/] and [ops/] build,
    check and release.  [src/browser/fylo-wasm-worker.mjs] and the loading of WebAssembly
    modules wire objects of the platform together.  [src/browser/index.js], [src/index.js] and
    [types.js] export and declare. *)

From Stdlib Require Export ZArith NArith Lia ZifyBool.
From Stdlib Require Import Ascii String.
From stdpp Require Export prelude list strings gmap sorting.

#[global] Arguments N.eqb : simpl never.
#[global] Arguments N.ltb : simpl never.
#[global] Arguments N.leb : simpl never.
#[global] Arguments N.add : simpl never.
#[global] Arguments N.sub : simpl never.

(** * JavaScript strings

    A JavaScript string is a sequence of UTF-16 code units.  [js] turns a
    literal into one. *)

Abbreviation jstr := (list N).

Fixpoint js (s : string) : jstr :=
  match s with
  | EmptyString => []
  | String a r => N_of_ascii a :: js r
  end.

(** ** Character classes used by the sources' regular expressions *)

Definition in_range (lo hi c : N) : bool := (lo <=? c)%N && (c <=? hi)%N.

Definition is_digit (c : N) : bool := in_range 48 57 c.
Definition is_upper (c : N) : bool := in_range 65 90 c.
Definition is_lower (c : N) : bool := in_range 97 122 c.
Definition is_alpha (c : N) : bool := is_upper c || is_lower c.
Definition is_alnum (c : N) : bool := is_alpha c || is_digit c.

(** The class [\s], which is also what [trim] removes. *)
Definition is_space (c : N) : bool :=
  in_range 9 13 c || (c =? 32)%N || (c =? 160)%N || (c =? 5760)%N ||
  in_range 8192 8202 c || (c =? 8232)%N || (c =? 8233)%N || (c =? 8239)%N ||
  (c =? 8287)%N || (c =? 12288)%N || (c =? 65279)%N.

(** Case mapping, on the letters the sources apply it to. *)
Definition upper_char (c : N) : N := if is_lower c then (c - 32)%N else c.
Definition lower_char (c : N) : N := if is_upper c then (c + 32)%N else c.
Definition to_upper (s : jstr) : jstr := map upper_char s.
Definition to_lower (s : jstr) : jstr := map lower_char s.

(** ** Operations of [String.prototype] *)

Fixpoint starts_with (p s : jstr) : bool :=
  match p, s with
  | [], _ => true
  | _ :: _, [] => false
  | x :: p', y :: s' => (x =? y)%N && starts_with p' s'
  end.

Definition ends_with (p s : jstr) : bool := starts_with (rev p) (rev s).

Definition includes_char (c : N) (s : jstr) : bool := existsb (N.eqb c) s.

Definition jeqb (a b : jstr) : bool := bool_decide (a = b).

(** [s.split(sep)] for a separator of one code unit: never empty. *)
Fixpoint split_on (c : N) (s : jstr) : list jstr :=
  match s with
  | [] => [[]]
  | x :: r =>
      if (x =? c)%N then [] :: split_on c r
      else match split_on c r with
           | [] => [[x]]
           | h :: t => (x :: h) :: t
           end
  end.

(** [parts.join(sep)] *)
Fixpoint join_with (sep : jstr) (l : list jstr) : jstr :=
  match l with
  | [] => []
  | [a] => a
  | a :: r => a ++ sep ++ join_with sep r
  end.

(** [s.replaceAll(c, by)] for a one-unit pattern. *)
Definition replace_char (c : N) (by_ : jstr) (s : jstr) : jstr :=
  flat_map (fun x => if (x =? c)%N then by_ else [x]) s.

Fixpoint drop_while (f : N -> bool) (s : jstr) : jstr :=
  match s with
  | [] => []
  | x :: r => if f x then drop_while f r else s
  end.

Fixpoint take_while (f : N -> bool) (s : jstr) : jstr :=
  match s with
  | [] => []
  | x :: r => if f x then x :: take_while f r else []
  end.

Definition trim (s : jstr) : jstr :=
  rev (drop_while is_space (rev (drop_while is_space s))).

(** [s.slice(0, -k)] *)
Definition drop_last (k : nat) (s : jstr) : jstr := take (length s - k) s.

(** [s.slice(-k)] for [k > 0] *)
Definition last_n (k : nat) (s : jstr) : jstr := drop (length s - k) s.

(** [s.padStart(k, c)] *)
Definition pad_start (k : nat) (c : N) (s : jstr) : jstr :=
  replicate (k - length s) c ++ s.

(** [s.indexOf(c)], [None] for [-1]. *)
Fixpoint index_of (c : N) (s : jstr) : option nat :=
  match s with
  | [] => None
  | x :: r => if (x =? c)%N then Some 0 else S <$> index_of c r
  end.

(** [s.lastIndexOf(c)], [None] for [-1]. *)
Fixpoint last_index_of (c : N) (s : jstr) : option nat :=
  match s with
  | [] => None
  | x :: r =>
      match last_index_of c r with
      | Some i => Some (S i)
      | None => if (x =? c)%N then Some 0 else None
      end
  end.

(** The order [<=] on strings: lexicographic on code units. *)
Fixpoint jleb (a b : jstr) : bool :=
  match a, b with
  | [], _ => true
  | _ :: _, [] => false
  | x :: a', y :: b' =>
      if (x <? y)%N then true else if (y <? x)%N then false else jleb a' b'
  end.
Definition jltb (a b : jstr) : bool := negb (jleb b a).
Definition jle (a b : jstr) : Prop := jleb a b = true.

#[export] Instance jle_dec : RelDecision jle.
Proof. intros a b. unfold jle. apply _. Defined.

(** * Errors and the state-and-exception monad

    The asynchronous methods of the sources run to completion inside their
    write lane, so one method is a function from the state before to an
    outcome and the state after.  A thrown error keeps the effects made
    before the throw, as in the sources. *)

Record js_error := JsError {
  err_name : jstr;
  err_message : jstr;
  err_code : option jstr
}.

(** [new Error(message)] *)
Definition Error (message : jstr) : js_error :=
  {| err_name := js "Error"; err_message := message; err_code := None |}.

Inductive outcome (A : Type) :=
| Ok (a : A)
| Throw (e : js_error).
Arguments Ok {A} a.
Arguments Throw {A} e.

#[export] Instance Ok_inj {A} : Inj (=) (=) (@Ok A).
Proof. by intros a b [= ->]. Qed.

Definition is_ok {A} (o : outcome A) : bool :=
  match o with Ok _ => true | Throw _ => false end.

#[export] Instance outcome_ret : MRet outcome := fun A a => Ok a.
#[export] Instance outcome_bind : MBind outcome := fun A B f o =>
  match o with Ok a => f a | Throw e => Throw e end.

#[export] Instance outcome_fmap : FMap outcome := fun A B f o =>
  match o with Ok a => Ok (f a) | Throw e => Throw e end.

Definition M (S A : Type) : Type := S -> outcome A * S.

#[export] Instance M_ret {S} : MRet (M S) := fun A a s => (Ok a, s).
#[export] Instance M_bind {S} : MBind (M S) := fun A B f m s =>
  match m s with
  | (Ok a, s') => f a s'
  | (Throw e, s') => (Throw e, s')
  end.

#[export] Instance M_fmap {S} : FMap (M S) := fun A B f m s =>
  match m s with
  | (Ok a, s') => (Ok (f a), s')
  | (Throw e, s') => (Throw e, s')
  end.

Definition throw {S A} (e : js_error) : M S A := fun s => (Throw e, s).
Definition get {S} : M S S := fun s => (Ok s, s).
Definition put {S} (s : S) : M S () := fun _ => (Ok (), s).
Definition gets {S A} (f : S -> A) : M S A := fun s => (Ok (f s), s).
Definition modify {S} (f : S -> S) : M S () := fun s => (Ok (), f s).
Definition lift {S A} (o : outcome A) : M S A := fun s => (o, s).
(** [if (b) throw e] *)
Definition throw_if {S} (b : bool) (e : js_error) : M S () :=
  if b then throw e else mret ().
(** [if (b) await m] *)
Definition when {S} (b : bool) (m : M S ()) : M S () :=
  if b then m else mret ().
(** [try { m } catch (error) { h }] *)
Definition try_catch {S A} (m : M S A) (h : js_error -> M S A) : M S A := fun s =>
  match m s with
  | (Ok a, s') => (Ok a, s')
  | (Throw e, s') => h e s'
  end.

(** [try { m } finally { cleanup }] *)
Definition finally {S A} (m : M S A) (cleanup : M S ()) : M S A := fun s =>
  let '(r, s1) := m s in
  match cleanup s1 with
  | (Ok _, s2) => (r, s2)
  | (Throw e, s2) => (Throw e, s2)
  end.

(** [for (const x of l) await f(x)] *)
Fixpoint for_each {S A} (l : list A) (f : A -> M S ()) : M S () :=
  match l with
  | [] => mret ()
  | x :: r => _ ← f x; for_each r f
  end.

(** [for (const x of l) acc = await f(acc, x)] *)
Fixpoint fold_m {S A B} (f : B -> A -> M S B) (l : list A) (acc : B) : M S B :=
  match l with
  | [] => mret acc
  | x :: r => acc' ← f acc x; fold_m f r acc'
  end.

Lemma M_bind_ret_l {S A B} (a : A) (f : A -> M S B) s : (mret a ≫= f) s = f a s.
Proof. reflexivity. Qed.

Lemma M_bind_ok {S A B} (m : M S A) (f : A -> M S B) s s' a :
  m s = (Ok a, s') -> (m ≫= f) s = f a s'.
Proof. intros H. unfold mbind, M_bind. by rewrite H. Qed.

Lemma M_bind_throw {S A B} (m : M S A) (f : A -> M S B) s s' e :
  m s = (Throw e, s') -> (m ≫= f) s = (Throw e, s').
Proof. intros H. unfold mbind, M_bind. by rewrite H. Qed.

Lemma M_bind_inv_ok {S A B} (m : M S A) (f : A -> M S B) s s' b :
  (m ≫= f) s = (Ok b, s') -> exists a s1, m s = (Ok a, s1) /\ f a s1 = (Ok b, s').
Proof.
  unfold mbind, M_bind. destruct (m s) as [[a|e] s1] eqn:E; intros H; [eauto|done].
Qed.

Lemma lift_bind {S A B} (a : A) (f : A -> M S B) s : (lift (Ok a) ≫= f) s = f a s.
Proof. done. Qed.
Lemma get_bind {S B} (f : S -> M S B) s : (get ≫= f) s = f s s.
Proof. done. Qed.
Lemma gets_bind {S A B} (g : S -> A) (f : A -> M S B) s : (gets g ≫= f) s = f (g s) s.
Proof. done. Qed.
Lemma modify_bind {S B} (g : S -> S) (f : () -> M S B) s : (modify g ≫= f) s = f () (g s).
Proof. done. Qed.

(** Run the first step of a monadic program, given the equation of a call. *)
Tactic Notation "run" uconstr(H) := rewrite (M_bind_ok _ _ _ _ _ H).
(** Run the steps that need no equation. *)
Ltac run_pure := repeat first [rewrite lift_bind | rewrite get_bind | rewrite gets_bind | rewrite modify_bind | rewrite M_bind_ret_l].

(** A computation that preserves a predicate on the state, however it ends. *)
Definition preserves {S A} (I : S -> Prop) (m : M S A) : Prop :=
  forall s, I s -> I (snd (m s)).

(** A computation that leaves the state alone, however it ends. *)
Definition pure_state {S A} (m : M S A) : Prop := forall s, snd (m s) = s.

Lemma preserves_ret {S A} (I : S -> Prop) (a : A) : preserves I (mret a).
Proof. intros s Hs. exact Hs. Qed.
Lemma preserves_throw {S A} (I : S -> Prop) e : preserves I (throw (A:=A) e).
Proof. intros s Hs. exact Hs. Qed.
Lemma preserves_lift {S A} (I : S -> Prop) (o : outcome A) : preserves I (lift o).
Proof. intros s Hs. exact Hs. Qed.
Lemma preserves_gets {S A} (I : S -> Prop) (f : S -> A) : preserves I (gets f).
Proof. intros s Hs. exact Hs. Qed.
Lemma preserves_throw_if {S} (I : S -> Prop) b e : preserves I (throw_if b e).
Proof. intros s Hs. by destruct b. Qed.
Lemma preserves_modify {S} (I : S -> Prop) f :
  (forall s, I s -> I (f s)) -> preserves I (modify f).
Proof. intros H s Hs. by apply H. Qed.
Lemma preserves_bind {S A B} (I : S -> Prop) (m : M S A) (f : A -> M S B) :
  preserves I m -> (forall a, preserves I (f a)) -> preserves I (m ≫= f).
Proof.
  intros Hm Hf s Hs. specialize (Hm s Hs). unfold mbind, M_bind.
  destruct (m s) as [[a|e] s']; [by apply Hf | exact Hm].
Qed.
Lemma preserves_when {S} (I : S -> Prop) b (m : M S ()) :
  preserves I m -> preserves I (when b m).
Proof. intros H. destruct b; [exact H | apply preserves_ret]. Qed.
Lemma preserves_try {S A} (I : S -> Prop) (m : M S A) h :
  preserves I m -> (forall e, preserves I (h e)) -> preserves I (try_catch m h).
Proof.
  intros Hm Hh s Hs. specialize (Hm s Hs). unfold try_catch.
  destruct (m s) as [[a|e] s']; [exact Hm | by apply Hh].
Qed.
Lemma preserves_for_each {S A} (I : S -> Prop) (l : list A) f :
  (forall x, x ∈ l -> preserves I (f x)) -> preserves I (for_each l f).
Proof.
  induction l as [|x l IH]; intros H; simpl; [apply preserves_ret|].
  apply preserves_bind; [apply H; set_solver | intros _; apply IH; set_solver].
Qed.
Lemma preserves_fold_m {S A B} (I : S -> Prop) (f : B -> A -> M S B) l acc :
  (forall a x, preserves I (f a x)) -> preserves I (fold_m f l acc).
Proof.
  intros H. revert acc. induction l as [|x l IH]; intros acc; simpl; [apply preserves_ret|].
  apply preserves_bind; [apply H | intros a; apply IH].
Qed.

Create HintDb fylo discriminated.
#[export] Hint Resolve preserves_ret preserves_throw preserves_lift preserves_gets
  preserves_throw_if preserves_when preserves_fold_m : fylo.

(** Step through a monadic program from the front. *)
Ltac step_m :=
  repeat first
    [ progress intros
    | apply preserves_bind
    | apply preserves_try
    | apply preserves_when
    | solve [eauto with fylo] ].

(** * Lemmas on strings *)

Lemma jeqb_true a b : jeqb a b = true <-> a = b.
Proof. apply bool_decide_eq_true. Qed.
Lemma jeqb_neq a b : a <> b -> jeqb a b = false.
Proof. intros H. unfold jeqb. by apply bool_decide_eq_false. Qed.

Lemma starts_with_app p s : starts_with p (p ++ s) = true.
Proof. induction p; simpl; [done|]. by rewrite N.eqb_refl. Qed.

Lemma starts_with_spec p s : starts_with p s = true <-> exists r, s = p ++ r.
Proof.
  split; [|intros [r ->]; apply starts_with_app].
  revert s. induction p as [|x p IH]; intros s H; [by exists s|].
  destruct s as [|y s]; [done|]. simpl in H.
  apply andb_true_iff in H as [->%N.eqb_eq H]. destruct (IH _ H) as [r ->]. by exists r.
Qed.

Lemma app_not_self {A} (p r : list A) : p = p ++ r -> r = [].
Proof. intros H. rewrite <- (app_nil_r p) in H at 1. by apply app_inv_head in H. Qed.

Lemma starts_with_refl s : starts_with s s = true.
Proof. rewrite <- (app_nil_r s) at 2. apply starts_with_app. Qed.

Lemma starts_with_app_r p s t : starts_with p s = true -> starts_with p (s ++ t) = true.
Proof.
  rewrite !starts_with_spec. intros [r ->]. exists (r ++ t). by rewrite app_assoc.
Qed.

Lemma starts_with_shared p q s : starts_with (p ++ q) (p ++ s) = starts_with q s.
Proof. induction p; simpl; [done|]. by rewrite N.eqb_refl. Qed.

Lemma starts_with_length p s : starts_with p s = true -> length p <= length s.
Proof. rewrite starts_with_spec. intros [r ->]. rewrite length_app. lia. Qed.

Lemma ends_with_app s t : ends_with t (s ++ t) = true.
Proof. unfold ends_with. rewrite rev_app_distr. apply starts_with_app. Qed.

Lemma ends_with_spec p s : ends_with p s = true <-> exists r, s = r ++ p.
Proof.
  unfold ends_with. rewrite starts_with_spec. split; intros [r H].
  - exists (rev r). rewrite <- (rev_involutive s), H, rev_app_distr, rev_involutive. done.
  - exists (rev r). by rewrite H, rev_app_distr.
Qed.

Lemma includes_char_false c s : includes_char c s = false <-> c ∉ s.
Proof.
  unfold includes_char. induction s as [|x s IH]; simpl; [set_solver|].
  rewrite orb_false_iff, IH, N.eqb_neq. set_solver.
Qed.

Lemma includes_char_true c s : includes_char c s = true <-> c ∈ s.
Proof.
  rewrite <- (not_false_iff_true), includes_char_false. destruct (decide (c ∈ s)); tauto.
Qed.

Lemma split_on_nonempty c s : split_on c s <> [].
Proof. destruct s; simpl; [done|]. destruct (_ =? _)%N; [done|]. by destruct split_on. Qed.

Lemma join_with_cons sep a l :
  l <> [] -> join_with sep (a :: l) = a ++ sep ++ join_with sep l.
Proof. by destruct l. Qed.

Lemma join_split c s : join_with [c] (split_on c s) = s.
Proof.
  induction s as [|x s IH]; simpl; [done|].
  pose proof (split_on_nonempty c s).
  destruct (N.eqb_spec x c) as [->|Hne].
  - rewrite join_with_cons by done. by rewrite IH.
  - destruct (split_on c s) as [|h [|h' t]]; [done| |];
      simpl in IH |- *; by rewrite IH.
Qed.

Lemma split_on_app c a s :
  c ∉ a -> split_on c (a ++ c :: s) = a :: split_on c s.
Proof.
  induction a as [|x a IH]; intros H; simpl; [by rewrite N.eqb_refl|].
  destruct (N.eqb_spec x c); [set_solver|]. rewrite IH by set_solver. done.
Qed.

Lemma split_on_id c a : c ∉ a -> split_on c a = [a].
Proof.
  induction a as [|x a IH]; intros H; simpl; [done|].
  destruct (N.eqb_spec x c); [set_solver|]. rewrite IH by set_solver. done.
Qed.

Lemma split_join c l :
  l <> [] -> Forall (fun a => c ∉ a) l -> split_on c (join_with [c] l) = l.
Proof.
  induction l as [|a l IH]; intros Hne Hf; [done|]. inversion_clear Hf.
  destruct l as [|b l]; [by apply split_on_id|].
  rewrite join_with_cons by done. cbn [app]. rewrite split_on_app by done.
  f_equal. by apply IH.
Qed.

Lemma split_on_elem c s a : a ∈ split_on c s -> c ∉ a.
Proof.
  revert a. induction s as [|x s IH]; intros a; simpl.
  - intros ->%list_elem_of_singleton. apply not_elem_of_nil.
  - destruct (N.eqb_spec x c) as [->|Hne].
    + intros [->|H]%elem_of_cons; [apply not_elem_of_nil | by apply IH].
    + destruct (split_on c s) as [|h t] eqn:E.
      { intros ->%list_elem_of_singleton. by rewrite list_elem_of_singleton. }
      intros [->|H]%elem_of_cons; [|apply IH; by right].
      apply not_elem_of_cons. split; [done|]. apply IH. by left.
Qed.

Lemma last_index_of_none c s : last_index_of c s = None <-> c ∉ s.
Proof.
  induction s as [|x s IH]; simpl; [set_solver|].
  destruct (last_index_of c s).
  - split; [done|]. intros H. exfalso.
    assert (c ∉ s) by set_solver. apply IH in H0. done.
  - assert (c ∉ s) by (by apply IH). destruct (N.eqb_spec x c); set_solver.
Qed.

Lemma last_index_of_app c a s :
  c ∉ s -> last_index_of c (a ++ c :: s) = Some (length a).
Proof.
  intros H. induction a as [|x a IH]; simpl.
  - assert (last_index_of c s = None) as -> by (by apply last_index_of_none).
    by rewrite N.eqb_refl.
  - by rewrite IH.
Qed.

(** ** [trim] *)

Definition solid_end (s : jstr) : bool :=
  match last s with Some c => negb (is_space c) | None => false end.

Lemma solid_end_app a b : solid_end b = true -> solid_end (a ++ b) = true.
Proof. unfold solid_end. rewrite last_app. by destruct (last b). Qed.

Lemma trim_solid c s :
  is_space c = false -> solid_end (c :: s) = true -> trim (c :: s) = c :: s.
Proof.
  intros Hc Hs. unfold trim. cbn [drop_while]. rewrite Hc.
  unfold solid_end in Hs. destruct (last (c :: s)) as [d|] eqn:E; [|done].
  apply last_Some in E as [r ->]. rewrite rev_app_distr. cbn [rev app drop_while].
  apply negb_true_iff in Hs. rewrite Hs. cbn [rev]. by rewrite rev_involutive.
Qed.

Lemma drop_while_head f s c r : drop_while f s = c :: r -> f c = false.
Proof.
  induction s as [|x s IH]; cbn [drop_while]; [done|]. destruct (f x) eqn:E; [done|].
  by intros [= <- <-].
Qed.

Lemma drop_while_suffix f s : exists p, s = p ++ drop_while f s.
Proof.
  induction s as [|x s [p IH]]; [by exists []|]. cbn [drop_while].
  destruct (f x); [|by exists []]. exists (x :: p). cbn. by f_equal.
Qed.

Lemma drop_while_length f s : length (drop_while f s) <= length s.
Proof. destruct (drop_while_suffix f s) as [p Hp]. rewrite Hp at 2. rewrite length_app. lia. Qed.

(** A trimmed string is empty, or starts and ends with something else than a space. *)
Lemma trim_cases s :
  trim s = [] \/ exists c r, trim s = c :: r /\ is_space c = false /\ solid_end (trim s) = true.
Proof.
  unfold trim. destruct (drop_while is_space (rev (drop_while is_space s))) as [|d r] eqn:E; [by left|].
  right. pose proof (drop_while_head _ _ _ _ E) as Hd.
  destruct (drop_while_suffix is_space (rev (drop_while is_space s))) as [p Hp].
  rewrite E in Hp. apply (f_equal (@rev N)) in Hp. rewrite rev_involutive, rev_app_distr in Hp.
  cbn [rev] in Hp |- *. destruct (rev r) as [|c q] eqn:Er; cbn [app] in *.
  - exists d, []. split_and!; [done|done|]. unfold solid_end. cbn. by rewrite Hd.
  - exists c, (q ++ [d]). split_and!; [done|by eapply drop_while_head|].
    rewrite app_comm_cons. apply solid_end_app. unfold solid_end. cbn. by rewrite Hd.
Qed.

Lemma trim_idem s : trim (trim s) = trim s.
Proof.
  destruct (trim_cases s) as [->|(c & r & Ht & Hc & Hs)]; [done|].
  rewrite Ht in *. by apply trim_solid.
Qed.

(** ** The string order *)

Lemma jleb_refl a : jleb a a = true.
Proof. induction a; simpl; [done|]. by rewrite N.ltb_irrefl. Qed.

Lemma jleb_cons x a y b :
  jleb (x :: a) (y :: b) = true <-> (x < y)%N \/ (x = y /\ jleb a b = true).
Proof.
  simpl. destruct (N.ltb_spec x y); [intuition|].
  destruct (N.ltb_spec y x); [intuition (try lia; done)|].
  assert (x = y) as -> by lia. intuition lia.
Qed.

Lemma jleb_trans a b c : jleb a b = true -> jleb b c = true -> jleb a c = true.
Proof.
  revert b c. induction a as [|x a IH]; intros b c Hab Hbc; [done|].
  destruct b as [|y b]; [done|]. destruct c as [|z c]; [done|].
  apply jleb_cons in Hab. apply jleb_cons in Hbc. apply jleb_cons.
  destruct Hab as [?|[-> ?]], Hbc as [?|[-> ?]]; try (left; lia). right. eauto.
Qed.

Lemma jleb_total a b : jleb a b = true \/ jleb b a = true.
Proof.
  revert b. induction a as [|x a IH]; intros b; [by left|].
  destruct b as [|y b]; [by right|]. rewrite !jleb_cons.
  destruct (N.lt_trichotomy x y) as [?|[->|?]]; [tauto| |tauto].
  destruct (IH b); tauto.
Qed.

Lemma jleb_antisym a b : jleb a b = true -> jleb b a = true -> a = b.
Proof.
  revert b. induction a as [|x a IH]; intros [|y b] Hab Hba; try done.
  apply jleb_cons in Hab. apply jleb_cons in Hba.
  destruct Hab as [?|[-> ?]], Hba as [?|[? ?]]; try lia. f_equal. eauto.
Qed.

Lemma jltb_jleb a b : jltb a b = true -> jleb a b = true.
Proof. unfold jltb. destruct (jleb_total a b) as [H|H]; rewrite H; done. Qed.

Lemma jltb_leb_trans a b c : jltb a b = true -> jleb b c = true -> jltb a c = true.
Proof.
  unfold jltb. rewrite !negb_true_iff. intros Hab Hbc.
  destruct (jleb c a) eqn:E; [|done]. by rewrite (jleb_trans _ _ _ Hbc E) in Hab.
Qed.

Lemma jleb_ltb_trans a b c : jleb a b = true -> jltb b c = true -> jltb a c = true.
Proof.
  unfold jltb. rewrite !negb_true_iff. intros Hab Hbc.
  destruct (jleb c a) eqn:E; [|done]. by rewrite (jleb_trans _ _ _ E Hab) in Hbc.
Qed.

Lemma jleb_app p s : jleb p (p ++ s) = true.
Proof. induction p; simpl; [done|]. by rewrite N.ltb_irrefl. Qed.

Lemma jleb_prefix p s : starts_with p s = true -> jleb p s = true.
Proof. rewrite starts_with_spec. intros [r ->]. apply jleb_app. Qed.

(** In a sorted list the strings with a given prefix are contiguous. *)
Lemma prefix_convex p a b :
  jleb p a = true -> jleb a b = true -> starts_with p b = true ->
  starts_with p a = true.
Proof.
  revert a b. induction p as [|x p IH]; intros a b Hpa Hab Hb; [done|].
  destruct b as [|z b]; [done|]. destruct a as [|y a]; [done|].
  simpl in Hb. apply andb_true_iff in Hb as [->%N.eqb_eq Hb].
  apply jleb_cons in Hpa. apply jleb_cons in Hab. simpl.
  destruct Hpa as [?|[-> Hpa]]; destruct Hab as [?|[? Hab]]; try lia.
  by rewrite N.eqb_refl, (IH _ _ Hpa Hab Hb).
Qed.

#[export] Instance jle_preorder : PreOrder jle.
Proof. split; [exact jleb_refl | exact jleb_trans]. Qed.
#[export] Instance jle_total : Total jle.
Proof. exact jleb_total. Qed.
#[export] Instance jle_antisymm : AntiSymm (=) jle.
Proof. exact jleb_antisym. Qed.

(** [[...set].sort()] *)
Definition sort_strings (l : list jstr) : list jstr := merge_sort jle l.

Lemma sort_strings_sorted l : Sorted jle (sort_strings l).
Proof. apply Sorted_merge_sort, _. Qed.
Lemma sort_strings_perm l : sort_strings l ≡ₚ l.
Proof. apply merge_sort_Permutation. Qed.

(** ** Generic list facts *)

Lemma filter_keeps {A} (P : A -> Prop) `{forall x, Decision (P x)} (l : list A) :
  Forall P l -> filter P l = l.
Proof.
  induction 1 as [|x l Hx _ IH]; [done|]. rewrite filter_cons_True by done. by rewrite IH.
Qed.

Lemma filter_drops {A} (P : A -> Prop) `{forall x, Decision (P x)} (l : list A) :
  Forall (fun x => ~ P x) l -> filter P l = [].
Proof.
  induction 1 as [|x l Hx _ IH]; [done|]. by rewrite filter_cons_False.
Qed.

Lemma NoDup_omap {A B} (f : A -> option B) (l : list A) :
  (forall x y z, x ∈ l -> y ∈ l -> f x = Some z -> f y = Some z -> x = y) -> NoDup l -> NoDup (omap f l).
Proof.
  intros Hf Hnd. induction Hnd as [|x l Hx _ IH]; [constructor|]. cbn [omap list_omap].
  assert (NoDup (omap f l)) as Hl by (apply IH; intros a b z Ha Hb; apply Hf; by right).
  destruct (f x) as [z|] eqn:E; [|done]. constructor; [|done].
  intros (y & Hy & Hz)%list_elem_of_omap. apply Hx. by rewrite (Hf x y z); [|left|right|..].
Qed.

(** ** Association lists kept in insertion order *)

Fixpoint alist_get {A} (k : jstr) (l : list (jstr * A)) : option A :=
  match l with
  | [] => None
  | (k', v) :: r => if decide (k = k') then Some v else alist_get k r
  end.

Fixpoint alist_remove {A} (k : jstr) (l : list (jstr * A)) : list (jstr * A) :=
  match l with
  | [] => []
  | (k', v) :: r => if decide (k = k') then r else (k', v) :: alist_remove k r
  end.
