(* ===== verification/Like.v ===== *)
(** The LIKE matcher of [src/query/like.js]: the greedy loop of the source over
    indices, a declarative reading of LIKE, and the proof that they agree on
    every value that has no percent sign of its own. *)

From S2P Require Import Prelude.

Definition c_percent : N := 37.
Definition c_underscore : N := 95.

Module Like.

(** The four [let] variables of the loop; [wildcardIndex = -1] is [None]. *)
Record state := State {
  valueIndex : nat;
  patternIndex : nat;
  wildcardIndex : option nat;
  wildcardValueIndex : nat
}.

Section Loop.
  Context (singleCharacterWildcard : bool) (value pattern : jstr).

  (** [(singleCharacterWildcard && token === '_') || token === value[valueIndex]],
      where [token] is [undefined] past the end of the pattern. *)
Definition token_matches (token : option N) (c : N) : bool :=
    match token with
    | Some t => (singleCharacterWildcard && (t =? c_underscore)%N) || (t =? c)%N
    | None => false
    end.

  (** One turn of the [while] loop: [inl] the next state, [inr] a return. *)
Definition step (st : state) (c : N) : state + bool :=
    let token := pattern !! patternIndex st in
    if token_matches token c then
      inl (State (S (valueIndex st)) (S (patternIndex st))
                 (wildcardIndex st) (wildcardValueIndex st))
    else if bool_decide (token = Some c_percent) then
      inl (State (valueIndex st) (S (patternIndex st))
                 (Some (patternIndex st)) (valueIndex st))
    else
      match wildcardIndex st with
      | Some w =>
          inl (State (S (wildcardValueIndex st)) (S w) (Some w)
                     (S (wildcardValueIndex st)))
      | None => inr false
      end.

  (** [while (pattern[patternIndex] === '%') patternIndex++;
      return patternIndex === pattern.length] *)
Definition finish (st : state) : bool :=
    forallb (N.eqb c_percent) (drop (patternIndex st) pattern).

  (** The loop, counting its turns down; [None] is out of fuel. *)
Fixpoint loop (fuel : nat) (st : state) : option bool :=
    match value !! valueIndex st with
    | None => Some (finish st)
    | Some c =>
        match fuel with
        | O => None
        | S fuel' =>
            match step st c with
            | inl st' => loop fuel' st'
            | inr b => Some b
            end
        end
    end.

  (** The number of turns the loop makes before it ends. *)
Fixpoint turns (fuel : nat) (st : state) : nat :=
    match value !! valueIndex st, fuel with
    | Some c, S fuel' =>
        match step st c with
        | inl st' => S (turns fuel' st')
        | inr _ => 1
        end
    | _, _ => 0
    end.

Definition start : state := State 0 0 None 0.
Definition fuel_bound : nat := S (length value) * S (length pattern).
Definition run : option bool := loop fuel_bound start.
End Loop.

(** [matchesLike(value, pattern, options)] *)
Definition matchesLike (singleCharacterWildcard : bool) (value pattern : jstr) : bool :=
  default false (run singleCharacterWildcard value pattern).

(** ** What LIKE means: [%] stands for any run of code units, [_] for one. *)
Inductive like (scw : bool) : jstr -> jstr -> Prop :=
| like_nil : like scw [] []
| like_char c t v p :
    t <> c_percent -> token_matches scw (Some t) c = true ->
    like scw v p -> like scw (c :: v) (t :: p)
| like_skip v p : like scw v p -> like scw v (c_percent :: p)
| like_more c v p : like scw v (c_percent :: p) -> like scw (c :: v) (c_percent :: p).

(** ** Facts about the relation *)

Lemma like_percent_app scw u v p :
  like scw v (c_percent :: p) -> like scw (u ++ v) (c_percent :: p).
Proof. intros H. induction u as [|c u IH]; simpl; [done|]. by apply like_more. Qed.

Lemma like_percent_inv scw v p :
  like scw v (c_percent :: p) -> exists u w, v = u ++ w /\ like scw w p.
Proof.
  remember (c_percent :: p) as q eqn:Hq. intros H. revert p Hq.
  induction H as [|c t v q' Hne Hm H IH|v q' H IH|c v q' H IH]; intros p Hq; simplify_eq.
  - exists [], v. done.
  - destruct (IH p eq_refl) as (u & w & -> & Hw). by exists (c :: u), w.
Qed.

Lemma like_char_iff scw c t v p :
  t <> c_percent -> token_matches scw (Some t) c = true ->
  like scw (c :: v) (t :: p) <-> like scw v p.
Proof.
  intros Hne Hm. split; [|by apply like_char].
  intros H. inversion H; subst; done.
Qed.

Lemma like_char_false scw c t v p :
  t <> c_percent -> token_matches scw (Some t) c = false -> ~ like scw (c :: v) (t :: p).
Proof. intros Hne Hm H. inversion H; subst; [congruence|done|done]. Qed.

Lemma like_end_false scw c v : ~ like scw (c :: v) [].
Proof. inversion 1. Qed.

Lemma like_nil_l scw p : like scw [] p <-> forallb (N.eqb c_percent) p = true.
Proof.
  split.
  - remember [] as v eqn:Hv. induction 1; simplify_eq; [done|]. cbn [forallb]. rewrite N.eqb_refl. auto.
  - induction p as [|t p IH]; cbn [forallb]; intros H; [constructor|].
    apply andb_true_iff in H as [<-%N.eqb_eq H]. constructor. auto.
Qed.

(** A literal block (no percent sign) matched piece by piece. *)
Definition block (scw : bool) (u seg : jstr) : Prop :=
  Forall2 (fun c t => t <> c_percent /\ token_matches scw (Some t) c = true) u seg.

Lemma block_like scw u seg v p :
  block scw u seg -> like scw (u ++ v) (seg ++ p) <-> like scw v p.
Proof.
  induction 1 as [|c t u seg [Hne Hm] Hb IH]; simpl; [done|].
  by rewrite like_char_iff.
Qed.

Lemma block_like_inv scw seg v p :
  Forall (fun t => t <> c_percent) seg -> like scw v (seg ++ p) ->
  exists u w, v = u ++ w /\ length u = length seg /\ like scw w p.
Proof.
  intros Hs. revert v. induction Hs as [|t seg Ht Hs IH]; intros v H; simpl in H.
  - by exists [], v.
  - inversion H as [|c t' v' p' Hne Hm Hv| |]; subst; try done.
    destruct (IH v' Hv) as (u & w & -> & Hlen & Hw).
    exists (c :: u), w. simpl. auto.
Qed.

Lemma block_no_percent scw u seg : block scw u seg -> Forall (fun t => t <> c_percent) seg.
Proof. induction 1 as [|c t u seg [? ?] ? ?]; constructor; auto. Qed.

(** The greedy step at a second percent sign: the earliest match of the block
    between the two loses nothing. *)
Lemma like_next_percent scw u seg v p :
  block scw u seg ->
  like scw (u ++ v) (c_percent :: seg ++ c_percent :: p) <-> like scw v (c_percent :: p).
Proof.
  intros Hb. split.
  - intros (a & w & Heq & Hw)%like_percent_inv.
    apply block_like_inv in Hw as (b & w' & -> & Hlen & Hw'); [|by eapply block_no_percent].
    assert (length u = length seg) as Hu by (by eapply Forall2_length).
    assert (v = drop (length u) (a ++ b) ++ w') as ->; [|by apply like_percent_app].
    rewrite <- drop_app_le by (rewrite length_app; lia).
    rewrite <- app_assoc, <- Heq. by rewrite drop_app_length.
  - intros H. apply like_skip. by apply block_like.
Qed.

Section Correct.
  Context (scw : bool) (value pattern : jstr).

  (** The loop invariant. *)
Definition inv (st : state) : Prop :=
    match wildcardIndex st with
    | None =>
        wildcardValueIndex st = 0 /\
        (like scw value pattern <->
         like scw (drop (valueIndex st) value) (drop (patternIndex st) pattern))
    | Some w =>
        exists u seg,
          drop (wildcardValueIndex st) value = u ++ drop (valueIndex st) value /\
          drop w pattern = c_percent :: seg ++ drop (patternIndex st) pattern /\
          S w + length seg = patternIndex st /\
          block scw u seg /\
          (like scw value pattern <->
           like scw (drop (wildcardValueIndex st) value) (drop w pattern))
    end /\ wildcardValueIndex st <= valueIndex st <= length value
        /\ patternIndex st <= length pattern.

Definition measure (st : state) : nat :=
    (length value - wildcardValueIndex st) * S (length pattern)
    + (length pattern - patternIndex st).

  (** The answer the invariant gives once the value is used up. *)
Lemma inv_finish st :
    inv st -> value !! valueIndex st = None ->
    finish pattern st = true <-> like scw value pattern.
  Proof.
    intros (Hinv & Hb & Hp) Hend. apply lookup_ge_None in Hend.
    assert (drop (valueIndex st) value = []) as Hnil by (apply drop_ge; lia).
    unfold finish. rewrite <- (like_nil_l scw).
    destruct (wildcardIndex st) as [w|].
    - destruct Hinv as (u & seg & Hu & Hw & _ & Hblk & ->).
      rewrite Hu, Hw, Hnil, app_nil_r. split.
      + intros H. apply like_skip. rewrite <- (app_nil_r u). by apply block_like.
      + intros (a & b & Heq & H)%like_percent_inv.
        apply block_like_inv in H as (b1 & b2 & -> & Hlen & H); [|by eapply block_no_percent].
        assert (b2 = []) as ->; [|done].
        apply (f_equal length) in Heq. rewrite !length_app in Heq.
        apply Forall2_length in Hblk. apply length_zero_iff_nil. lia.
    - destruct Hinv as [_ ->]. by rewrite Hnil.
  Qed.

Lemma drop_lookup (l : jstr) i x : l !! i = Some x -> drop i l = x :: drop (S i) l.
  Proof. intros H. by apply drop_S. Qed.

  (** A token that matches consumes one code unit on each side. *)
Lemma inv_char st c t :
    inv st -> value !! valueIndex st = Some c -> pattern !! patternIndex st = Some t ->
    t <> c_percent -> token_matches scw (Some t) c = true ->
    inv (State (S (valueIndex st)) (S (patternIndex st))
               (wildcardIndex st) (wildcardValueIndex st)).
  Proof.
    intros (Hinv & Hb & Hp) Hc Ht Hne Hm.
    assert (valueIndex st < length value) by (by eapply lookup_lt_Some).
    assert (patternIndex st < length pattern) by (by eapply lookup_lt_Some).
    apply drop_lookup in Hc. apply drop_lookup in Ht.
    split; [|simpl; lia]. simpl. destruct (wildcardIndex st) as [w|].
    - destruct Hinv as (u & seg & Hu & Hw & Hlen & Hblk & Hiff).
      exists (u ++ [c]), (seg ++ [t]).
      rewrite Hu, Hw, Hc, Ht, <- !app_assoc. rewrite length_app. simpl.
      split_and!; [done|done|lia| |by rewrite Hiff, Hu, Hw, Hc, Ht].
      apply Forall2_app; [done|]. by repeat constructor.
    - destruct Hinv as [Hz ->]. split; [done|]. rewrite Hc, Ht. by apply like_char_iff.
  Qed.

  (** A percent sign becomes the new point to resume from. *)
Lemma inv_percent st :
    inv st -> pattern !! patternIndex st = Some c_percent ->
    inv (State (valueIndex st) (S (patternIndex st)) (Some (patternIndex st)) (valueIndex st)).
  Proof.
    intros (Hinv & Hb & Hp) Ht.
    assert (patternIndex st < length pattern) by (by eapply lookup_lt_Some).
    apply drop_lookup in Ht. split; [|simpl; lia]. simpl.
    exists [], []. simpl. split_and!; [done|done|lia|by constructor|].
    destruct (wildcardIndex st) as [w|].
    - destruct Hinv as (u & seg & Hu & Hw & _ & Hblk & ->).
      rewrite Hu, Hw, Ht. by apply like_next_percent.
    - by destruct Hinv as [_ ->].
  Qed.

  (** A mismatch after a percent sign gives up on its current position only. *)
Lemma inv_resume st c w :
    inv st -> value !! valueIndex st = Some c -> wildcardIndex st = Some w ->
    token_matches scw (pattern !! patternIndex st) c = false ->
    pattern !! patternIndex st <> Some c_percent ->
    inv (State (S (wildcardValueIndex st)) (S w) (Some w) (S (wildcardValueIndex st))).
  Proof.
    intros (Hinv & Hb & Hp) Hc Hw Hm Hne. rewrite Hw in Hinv.
    assert (valueIndex st < length value) by (by eapply lookup_lt_Some).
    apply drop_lookup in Hc.
    destruct Hinv as (u & seg & Hu & Hdrop & Hlen & Hblk & Hiff).
    split; [|simpl; lia]. simpl. exists [], []. simpl.
    assert (drop (S w) pattern = seg ++ drop (patternIndex st) pattern) as HSw.
    { replace (S w) with (w + 1) by lia. rewrite <- drop_drop, Hdrop. done. }
    split_and!; [done|by rewrite HSw|lia|by constructor|].
    rewrite Hiff. destruct (value !! wildcardValueIndex st) as [c'|] eqn:Hc'.
    2:{ apply lookup_ge_None in Hc'. lia. }
    rewrite (drop_lookup _ _ _ Hc'), Hdrop.
    split; [|apply like_more].
    intros Hl. inversion Hl as [|? ? ? ? Hn|v' p' Hskip|c1 v1 p1 Hmore]; subst; [done| |done].
    exfalso. rewrite <- (drop_lookup _ _ _ Hc'), Hu, Hc in Hskip.
    apply block_like in Hskip; [|done].
    destruct (pattern !! patternIndex st) as [t|] eqn:Et.
    - rewrite (drop_lookup _ _ _ Et) in Hskip.
      revert Hskip. apply like_char_false; congruence.
    - rewrite (drop_ge pattern) in Hskip by (by apply lookup_ge_None). by apply like_end_false in Hskip.
  Qed.

  (** One turn: the invariant is kept and the measure goes down. *)
Lemma step_inv st c st' :
    inv st -> value !! valueIndex st = Some c -> c <> c_percent ->
    step scw pattern st c = inl st' -> inv st' /\ measure st' < measure st.
  Proof.
    intros Hinv Hc Hne. unfold step.
    assert (valueIndex st < length value) by (by eapply lookup_lt_Some).
    pose proof Hinv as (_ & Hb & Hp).
    destruct (token_matches scw _ c) eqn:Hm.
    - destruct (pattern !! patternIndex st) as [t|] eqn:Et; [|done].
      assert (patternIndex st < length pattern) by (by eapply lookup_lt_Some).
      intros [= <-]. split; [|unfold measure; simpl; lia].
      eapply inv_char; eauto. intros ->. unfold token_matches in Hm.
      rewrite andb_false_r, orb_false_l, N.eqb_eq in Hm. congruence.
    - case_bool_decide as Hpc.
      + assert (patternIndex st < length pattern) by (by eapply lookup_lt_Some).
        intros [= <-]. split; [by apply inv_percent|]. unfold measure; simpl.
        apply Nat.add_le_lt_mono; [apply Nat.mul_le_mono_r|]; lia.
      + destruct (wildcardIndex st) as [w|] eqn:Hw; [|done].
        intros [= <-]. split; [by eapply inv_resume|]. unfold measure; simpl.
        nia.
  Qed.

Lemma step_return st c b :
    inv st -> value !! valueIndex st = Some c ->
    step scw pattern st c = inr b -> b = false /\ ~ like scw value pattern.
  Proof.
    intros (Hinv & Hb & Hp) Hc. unfold step.
    destruct (token_matches scw _ c) eqn:Hm; [done|].
    case_bool_decide as Hpc; [done|].
    destruct (wildcardIndex st) as [w|] eqn:Hw; [done|]. intros [= <-].
    split; [done|]. destruct Hinv as [_ ->]. rewrite (drop_lookup _ _ _ Hc).
    destruct (pattern !! patternIndex st) as [t|] eqn:Et.
    - rewrite (drop_lookup _ _ _ Et). apply like_char_false; congruence.
    - rewrite (drop_ge pattern) by (by apply lookup_ge_None). apply like_end_false.
  Qed.

Lemma loop_correct fuel st :
    Forall (fun c => c <> c_percent) value -> inv st -> measure st < fuel ->
    exists b, loop scw value pattern fuel st = Some b /\ (b = true <-> like scw value pattern).
  Proof.
    intros Hv. revert st. induction fuel as [|fuel IH]; intros st Hinv Hlt; [lia|].
    simpl. destruct (value !! valueIndex st) as [c|] eqn:Hc.
    - destruct (step scw pattern st c) as [st'|b] eqn:Hs.
      + assert (c <> c_percent) by (rewrite Forall_lookup in Hv; eauto).
        destruct (step_inv st c st' Hinv Hc) as [Hinv' Hlt']; [done..|].
        apply IH; [done|lia].
      + destruct (step_return st c b Hinv Hc Hs) as [-> Hno]. exists false. split; [done|].
        split; [done|by intros].
    - exists (finish pattern st). split; [done|]. by apply inv_finish.
  Qed.

Lemma inv_start : inv start.
  Proof. unfold inv, start; simpl. rewrite !drop_0. split_and!; [done|done|lia..]. Qed.
End Correct.

(** ** The loop stops, whatever the value holds *)

Section Termination.
  Context (scw : bool) (value pattern : jstr).

Definition tinv (st : state) : Prop :=
    wildcardValueIndex st <= valueIndex st <= length value /\
    patternIndex st <= length pattern /\
    (forall w, wildcardIndex st = Some w -> w < patternIndex st).

Lemma step_tinv st c st' :
    tinv st -> value !! valueIndex st = Some c ->
    step scw pattern st c = inl st' ->
    tinv st' /\ measure value pattern st' < measure value pattern st.
  Proof.
    intros (Hb & Hp & Hw) Hc. unfold step.
    assert (valueIndex st < length value) by (by eapply lookup_lt_Some).
    destruct (token_matches scw _ c) eqn:Hm; [|case_bool_decide as Hpc].
    - destruct (pattern !! patternIndex st) as [t|] eqn:Et; [|done].
      assert (patternIndex st < length pattern) by (by eapply lookup_lt_Some).
      intros [= <-]. unfold tinv, measure; simpl.
      split; [|lia]. split_and!; [lia..|]. intros w Hw'. specialize (Hw w Hw'). lia.
    - assert (patternIndex st < length pattern) by (by eapply lookup_lt_Some).
      intros [= <-]. unfold tinv, measure; simpl. split.
      + split_and!; [lia..|]. intros w [= <-]. lia.
      + apply Nat.add_le_lt_mono; [apply Nat.mul_le_mono_r|]; lia.
    - destruct (wildcardIndex st) as [w|] eqn:Hw'; [|done].
      specialize (Hw w eq_refl). intros [= <-]. unfold tinv, measure; simpl. split.
      + split_and!; [lia..|]. intros w' [= <-]. lia.
      + nia.
  Qed.

Lemma loop_stops fuel st :
    tinv st -> measure value pattern st < fuel ->
    is_Some (loop scw value pattern fuel st) /\
    turns scw value pattern fuel st <= S (measure value pattern st).
  Proof.
    revert st. induction fuel as [|fuel IH]; intros st Hinv Hlt; [lia|].
    simpl. destruct (value !! valueIndex st) as [c|] eqn:Hc; [|split; [done|lia]].
    destruct (step scw pattern st c) as [st'|b] eqn:Hs; [|split; [done|lia]].
    destruct (step_tinv st c st' Hinv Hc Hs) as [Hinv' Hlt'].
    destruct (IH st' Hinv') as [H1 H2]; [lia|]. split; [done|lia].
  Qed.

Lemma tinv_start : tinv start.
  Proof. unfold tinv, start; simpl. split_and!; [lia..|done]. Qed.

Lemma measure_start : measure value pattern start < fuel_bound value pattern.
  Proof. unfold measure, fuel_bound, start; simpl. lia. Qed.
End Termination.

(** ** Properties *)

(** The matcher and the relation agree on values without a percent sign. *)
Lemma matchesLike_like scw value pattern :
  Forall (fun c => c <> c_percent) value ->
  matchesLike scw value pattern = true <-> like scw value pattern.
Proof.
  intros Hv. unfold matchesLike, run.
  destruct (loop_correct scw value pattern (fuel_bound value pattern) start Hv)
    as (b & -> & Hb); [apply inv_start | apply measure_start | done].
Qed.

(** C36: on every value without a percent sign of its own, [matchesLike] returns
    [true] exactly when the value matches the pattern, [%] standing for any run of
    code units and [_] (when enabled) for one; the loop ends within the fuel the
    model gives it. *)
Theorem matchesLike_correct scw value pattern :
  Forall (fun c => c <> c_percent) value ->
  matchesLike scw value pattern = true <-> like scw value pattern.
Proof. apply matchesLike_like. Qed.

Lemma matchesLike_correct_witness :
  matchesLike true (js "banana bread") (js "b_n%n% b%d") = true <->
  like true (js "banana bread") (js "b_n%n% b%d").
Proof.
  apply (matchesLike_correct true (js "banana bread") (js "b_n%n% b%d")).
  vm_compute. repeat constructor; discriminate.
Defined.

(** The loop returns for every value and pattern, percent signs in the value
    included, after at most [(length value + 1) * (length pattern + 1)] turns. *)
Theorem matchesLike_terminates scw value pattern :
  (exists b, run scw value pattern = Some b) /\
  turns scw value pattern (fuel_bound value pattern) start
    <= S (length value) * S (length pattern).
Proof.
  destruct (loop_stops scw value pattern (fuel_bound value pattern) start)
    as [[b Hb] Hturns]; [apply tinv_start | apply measure_start |].
  split; [by exists b|]. etransitivity; [exact Hturns|].
  pose proof (measure_start value pattern) as Hlt. unfold fuel_bound in Hlt. lia.
Qed.

(** A percent sign in the value is taken for a literal match of the pattern's
    percent sign before the wildcard is tried, so [LIKE '%c'] misses ["%abc"],
    which the pattern describes. *)
Theorem matchesLike_percent_in_value_missed :
  matchesLike true (js "%abc") (js "%c") = false /\ like true (js "%abc") (js "%c").
Proof.
  split; [by vm_compute|].
  apply like_more, like_more, like_more, like_skip.
  apply like_char; [done|done|constructor].
Qed.

(** The turns made on ["aaa...a"] against ["%aaa...ab"] exceed twelve times the sum of
    the lengths, so the loop is not linear in that sum. *)
Example turns_not_linear :
  let value := replicate 120 97%N in
  let pattern := c_percent :: replicate 40 97%N ++ [98%N] in
  12 * (length value + length pattern) <
  turns true value pattern (fuel_bound value pattern) start.
Proof. vm_compute. lia. Qed.

End Like.
