(* ===== verification/PathUtil.v ===== *)
(** The POSIX path helpers of [src/browser/core/path.js]: normalisation, joining,
    and the guard that keeps document paths inside their root. *)

From S2P Require Import Prelude.

Definition c_slash : N := 47.
Definition dot : jstr := js ".".
Definition dotdot : jstr := js "..".

Module Path.

Definition SEPARATOR : jstr := [c_slash].

Definition isMeaningful (segment : jstr) : bool :=
  negb (bool_decide (segment = [])) && negb (bool_decide (segment = dot)).

Definition isAbsolute (value : jstr) : bool := starts_with SEPARATOR value.

(** One turn of the loop over the segments; [out] is the array built so far. *)
Definition push_segment (absolute : bool) (out : list jstr) (segment : jstr) : list jstr :=
  if negb (isMeaningful segment) then out
  else if bool_decide (segment = dotdot) then
    match last out with
    | Some l =>
        if bool_decide (l <> dotdot) then removelast out
        else if negb absolute then out ++ [dotdot] else out
    | None => if negb absolute then out ++ [dotdot] else out
    end
  else out ++ [segment].

Definition normalized_segments (value : jstr) : list jstr :=
  fold_left (push_segment (isAbsolute value)) (split_on c_slash value) [].

Definition normalize (value : jstr) : jstr :=
  let joined := join_with SEPARATOR (normalized_segments value) in
  if isAbsolute value then SEPARATOR ++ joined
  else if bool_decide (joined = []) then dot else joined.

(** [join(...segments)]; [None] is an argument that is not a string. *)
Definition join (segments : list (option jstr)) : jstr :=
  let parts := filter (fun s => s <> []) (omap (fun s => s) segments) in
  match parts with
  | [] => dot
  | _ => normalize (join_with SEPARATOR parts)
  end.

Definition join_strings (segments : list jstr) : jstr := join (map Some segments).

Definition dirname (value : jstr) : jstr :=
  let normalised := normalize value in
  if bool_decide (normalised = SEPARATOR) then SEPARATOR
  else match last_index_of c_slash normalised with
       | None => dot
       | Some 0 => SEPARATOR
       | Some i => take i normalised
       end.

Definition basename (value : jstr) : jstr :=
  let normalised := normalize value in
  if bool_decide (normalised = SEPARATOR) then []
  else match last_index_of c_slash normalised with
       | None => normalised
       | Some i => drop (S i) normalised
       end.

(** [resolve(from, value)] for a string [value]. *)
Definition resolve (from value : jstr) : jstr :=
  if isAbsolute value then normalize value
  else normalize (from ++ SEPARATOR ++ value).

Definition segments_of (value : jstr) : list jstr :=
  filter (fun s => s <> []) (split_on c_slash (normalize value)).

(** The [while] loop that counts the shared leading segments. *)
Fixpoint common (a b : list jstr) : nat :=
  match a, b with
  | x :: a', y :: b' => if bool_decide (x = y) then S (common a' b') else 0
  | _, _ => 0
  end.

Definition relative (from to : jstr) : jstr :=
  let fromSegments := segments_of from in
  let toSegments := segments_of to in
  let shared := common fromSegments toSegments in
  join_with SEPARATOR
    (replicate (length fromSegments - shared) dotdot ++ drop shared toSegments).

Definition assertPathInside (parent target : jstr) : outcome () :=
  let resolvedParent := normalize parent in
  let resolvedTarget := normalize target in
  if bool_decide (resolvedTarget = resolvedParent) then Ok ()
  else
    let offset := relative resolvedParent resolvedTarget in
    if starts_with dotdot offset || starts_with SEPARATOR offset
    then Throw (Error (js "Unsafe document path: " ++ target))
    else Ok ().

(** ** Normal forms *)

(** A segment that survives normalisation as itself. *)
Definition clean (s : jstr) : Prop :=
  s <> [] /\ s <> dot /\ s <> dotdot /\ c_slash ∉ s.

#[export] Instance clean_dec s : Decision (clean s).
Proof. unfold clean. apply _. Defined.

(** The segments of a normal path: clean ones, after a run of [..] that only a
    relative path can have. *)
Definition normal (absolute : bool) (out : list jstr) : Prop :=
  exists ups rest, out = replicate ups dotdot ++ rest /\ Forall clean rest /\
                   (absolute = true -> ups = 0).

Lemma isMeaningful_true s : isMeaningful s = true <-> s <> [] /\ s <> dot.
Proof.
  unfold isMeaningful. rewrite andb_true_iff, !negb_true_iff, !bool_decide_eq_false. done.
Qed.

Lemma push_clean absolute out s :
  clean s -> push_segment absolute out s = out ++ [s].
Proof.
  intros (H1 & H2 & H3 & _). unfold push_segment.
  assert (isMeaningful s = true) as -> by (by apply isMeaningful_true). simpl.
  by rewrite bool_decide_false.
Qed.

Lemma push_normal absolute out s :
  normal absolute out -> c_slash ∉ s -> normal absolute (push_segment absolute out s).
Proof.
  intros (ups & rest & -> & Hrest & Habs) Hs. unfold push_segment.
  destruct (isMeaningful s) eqn:Hm; simpl; [|by exists ups, rest].
  apply isMeaningful_true in Hm as [Hne Hnd].
  case_bool_decide as Hdd; subst.
  - destruct (decide (rest = [])) as [->|Hr].
    + rewrite app_nil_r. assert (forall b : bool, normal absolute
        (if negb absolute then replicate ups dotdot ++ [dotdot] else replicate ups dotdot)) as Hk.
      { intros _. destruct absolute; simpl; [exists ups, []; by rewrite app_nil_r|].
        exists (S ups), []. rewrite app_nil_r, replicate_S_end. done. }
      destruct (last (replicate ups dotdot)) as [l|] eqn:Hl; [|by apply Hk].
      rewrite bool_decide_false; [by apply Hk|].
      apply last_Some_elem_of in Hl. apply elem_of_replicate in Hl as [-> _]. by auto.
    + destruct (exists_last Hr) as (r & x & ->).
      rewrite app_assoc, last_snoc. apply Forall_app in Hrest as [Hr' Hx].
      inversion_clear Hx as [|? ? Hcl _]. rewrite bool_decide_true by apply Hcl.
      rewrite removelast_last. by exists ups, r.
  - exists ups, (rest ++ [s]). rewrite app_assoc. split_and!; [done| |done].
    apply Forall_app. split; [done|]. by repeat constructor.
Qed.

Lemma fold_push_normal absolute segs out :
  normal absolute out -> Forall (fun s => c_slash ∉ s) segs ->
  normal absolute (fold_left (push_segment absolute) segs out).
Proof.
  intros Hn Hs. revert out Hn. induction Hs as [|s segs Hs Hss IH]; intros out Hn; simpl; [done|].
  apply IH. by apply push_normal.
Qed.

Lemma split_no_slash value : Forall (fun s => c_slash ∉ s) (split_on c_slash value).
Proof. apply Forall_forall. intros s. apply split_on_elem. Qed.

Lemma normalized_normal value : normal (isAbsolute value) (normalized_segments value).
Proof.
  apply fold_push_normal; [by exists 0, []|]. apply split_no_slash.
Qed.

Lemma fold_push_clean absolute out segs :
  Forall clean segs -> fold_left (push_segment absolute) segs out = out ++ segs.
Proof.
  intros H. revert out. induction H as [|s segs Hs _ IH]; intros out; simpl.
  - by rewrite app_nil_r.
  - rewrite push_clean by done. by rewrite IH, <- app_assoc.
Qed.

Lemma fold_push_ups ups k :
  fold_left (push_segment false) (replicate ups dotdot) (replicate k dotdot)
  = replicate (k + ups) dotdot.
Proof.
  revert k. induction ups as [|ups IH]; intros k; simpl; [by rewrite Nat.add_0_r|].
  assert (push_segment false (replicate k dotdot) dotdot = replicate (S k) dotdot) as ->.
  { unfold push_segment. assert (isMeaningful dotdot = true) as -> by done. simpl.
    assert (replicate k dotdot ++ [dotdot] = dotdot :: replicate k dotdot) as Hend.
    { by rewrite <- replicate_S_end. }
    destruct (last (replicate k dotdot)) as [l|] eqn:Hl; [|done].
    rewrite bool_decide_false; [done|].
    apply last_Some_elem_of in Hl. apply elem_of_replicate in Hl as [-> _]. by auto. }
  rewrite IH. f_equal. lia.
Qed.

(** Pushing a normal list of segments one by one rebuilds it. *)
Lemma fold_push_id absolute segs :
  normal absolute segs -> fold_left (push_segment absolute) segs [] = segs.
Proof.
  intros (ups & rest & -> & Hrest & Habs). rewrite fold_left_app.
  destruct absolute.
  - rewrite (Habs eq_refl). simpl. by apply fold_push_clean.
  - pose proof (fold_push_ups ups 0) as H0. simpl in H0. rewrite H0.
    by apply fold_push_clean.
Qed.

Lemma normal_no_slash absolute segs :
  normal absolute segs -> Forall (fun s => c_slash ∉ s /\ s <> []) segs.
Proof.
  intros (ups & rest & -> & Hrest & _). apply Forall_app. split.
  - apply Forall_replicate. split; [|done]. by apply includes_char_false.
  - eapply Forall_impl; [exact Hrest|]. intros s (H1 & _ & _ & H4). done.
Qed.

Lemma join_no_slash_start l :
  Forall (fun s => c_slash ∉ s /\ s <> []) l -> starts_with SEPARATOR (join_with SEPARATOR l) = false.
Proof.
  intros H. destruct H as [|s l [Hs Hne] Hl]; [done|].
  destruct s as [|c s]; [done|].
  assert (c <> c_slash) as Hc by set_solver.
  assert (exists r, join_with SEPARATOR ((c :: s) :: l) = c :: r) as [r ->].
  { destruct l; simpl; eauto. }
  unfold SEPARATOR. cbn [starts_with]. rewrite andb_true_r. by apply N.eqb_neq.
Qed.

(** Segments as [normalize] sees them in its own output. *)
Lemma split_normal absolute segs :
  normal absolute segs -> segs <> [] ->
  split_on c_slash (join_with SEPARATOR segs) = segs.
Proof.
  intros Hn Hne. apply split_join; [done|].
  eapply Forall_impl; [by eapply normal_no_slash|]. intros s [? _]. done.
Qed.

Lemma normalize_absolute_segments segs :
  normal true segs ->
  normalized_segments (SEPARATOR ++ join_with SEPARATOR segs) = segs.
Proof.
  intros Hn. unfold normalized_segments.
  assert (isAbsolute (SEPARATOR ++ join_with SEPARATOR segs) = true) as ->
    by apply starts_with_app.
  change (SEPARATOR ++ ?x) with (c_slash :: x).
  destruct (decide (segs = [])) as [->|Hne]; [done|].
  cbn [split_on]. rewrite N.eqb_refl. rewrite (split_normal true) by done.
  simpl. by apply fold_push_id.
Qed.

Lemma normalize_absolute value :
  isAbsolute value = true ->
  normalize value = SEPARATOR ++ join_with SEPARATOR (normalized_segments value).
Proof. intros H. unfold normalize. by rewrite H. Qed.

Lemma normalize_isAbsolute value : isAbsolute (normalize value) = isAbsolute value.
Proof.
  unfold normalize. destruct (isAbsolute value) eqn:E; [apply starts_with_app|].
  case_bool_decide; [done|]. apply join_no_slash_start.
  eapply normal_no_slash, normalized_normal.
Qed.

Lemma join_nonempty segs :
  Forall (fun s => c_slash ∉ s /\ s <> []) segs -> segs <> [] ->
  join_with SEPARATOR segs <> [].
Proof.
  intros H Hne. destruct H as [|s l [Hs Hn] Hl]; [done|].
  destruct s; [done|]. by destruct l.
Qed.

Lemma normalized_segments_normalize value :
  normalized_segments (normalize value) = normalized_segments value.
Proof.
  pose proof (normalized_normal value) as Hn.
  destruct (isAbsolute value) eqn:E.
  - rewrite (normalize_absolute value E). by apply normalize_absolute_segments.
  - unfold normalize. rewrite E. case_bool_decide as Hj.
    + destruct (decide (normalized_segments value = [])) as [->|Hne]; [done|].
      exfalso. revert Hj. apply join_nonempty; [by eapply normal_no_slash|done].
    + assert (normalized_segments value <> []) as Hne by (intros Hz; by rewrite Hz in Hj).
      unfold normalized_segments at 1.
      assert (isAbsolute (join_with SEPARATOR (normalized_segments value)) = false) as ->.
      { apply join_no_slash_start. by eapply normal_no_slash. }
      rewrite (split_normal false) by done. by apply fold_push_id.
Qed.

Lemma segments_of_spec value :
  isAbsolute value = true -> segments_of value = normalized_segments value.
Proof.
  intros E. unfold segments_of. rewrite (normalize_absolute value E).
  pose proof (normalized_normal value) as Hn. rewrite E in Hn.
  change (SEPARATOR ++ ?x) with (c_slash :: x). cbn [split_on]. rewrite N.eqb_refl.
  rewrite filter_cons_False by auto.
  destruct (decide (normalized_segments value = [])) as [->|Hne]; [done|].
  rewrite (split_normal true) by done.
  apply filter_keeps. eapply Forall_impl; [by eapply normal_no_slash|].
  by intros s [_ ?].
Qed.

Lemma common_prefix a b : common a b = length a <-> a `prefix_of` b.
Proof.
  revert b. induction a as [|x a IH]; intros b; simpl; [split; [|done]; intros _; apply prefix_nil|].
  destruct b as [|y b]; [split; [done|]; by intros ?%prefix_nil_inv|].
  case_bool_decide as Hxy; subst.
  - rewrite Nat.succ_inj_wd, IH. split; [apply prefix_cons|apply prefix_cons_inv_2].
  - split; [done|]. intros H. by apply prefix_cons_inv_1 in H.
Qed.

Lemma common_le a b : common a b <= length a.
Proof.
  revert b. induction a as [|x a IH]; intros [|y b]; simpl; try lia.
  case_bool_decide; [|lia]. specialize (IH b). lia.
Qed.

(** ** Normalised absolute paths as segment lists *)

(** [/a/b/c] from its segments. *)
Definition abs_path (segs : list jstr) : jstr := SEPARATOR ++ join_with SEPARATOR segs.

Lemma isAbsolute_abs_path segs : isAbsolute (abs_path segs) = true.
Proof. apply starts_with_app. Qed.

Lemma clean_normal segs : Forall clean segs -> normal true segs.
Proof. intros H. by exists 0, segs. Qed.

Lemma normal_clean segs : normal true segs -> Forall clean segs.
Proof. intros (ups & rest & -> & H & Hz). by rewrite (Hz eq_refl). Qed.

Lemma normalized_clean value :
  isAbsolute value = true -> Forall clean (normalized_segments value).
Proof. intros E. apply normal_clean. rewrite <- E. apply normalized_normal. Qed.

Lemma normalized_abs_path segs :
  Forall clean segs -> normalized_segments (abs_path segs) = segs.
Proof. intros H. by apply normalize_absolute_segments, clean_normal. Qed.

Lemma normalize_abs_path segs : Forall clean segs -> normalize (abs_path segs) = abs_path segs.
Proof.
  intros H. rewrite normalize_absolute by apply isAbsolute_abs_path.
  by rewrite normalized_abs_path.
Qed.

Lemma segments_abs_path segs : Forall clean segs -> segments_of (abs_path segs) = segs.
Proof.
  intros H. rewrite segments_of_spec by apply isAbsolute_abs_path. by apply normalized_abs_path.
Qed.

Lemma abs_path_inj a b :
  Forall clean a -> Forall clean b -> abs_path a = abs_path b -> a = b.
Proof. intros Ha Hb H. by rewrite <- (normalized_abs_path a), H, normalized_abs_path. Qed.

Lemma split_clean s : clean s -> split_on c_slash s = [s].
Proof. intros (_ & _ & _ & H). by apply split_on_id. Qed.

Lemma fold_push_join absolute out segs :
  Forall clean segs -> segs <> [] ->
  fold_left (push_segment absolute) (split_on c_slash (join_with SEPARATOR segs)) out
  = out ++ segs.
Proof.
  intros H Hne. rewrite (split_normal true) by (done || by apply clean_normal).
  by apply fold_push_clean.
Qed.

Lemma split_on_sep_app a b :
  split_on c_slash (a ++ c_slash :: b) = split_on c_slash a ++ split_on c_slash b.
Proof.
  induction a as [|x a IH]; cbn [split_on app].
  - by rewrite N.eqb_refl.
  - rewrite IH. destruct (x =? c_slash)%N; [done|].
    pose proof (split_on_nonempty c_slash a).
    by destruct (split_on c_slash a).
Qed.

(** [join] on an absolute base and clean segments appends the segments. *)
Lemma join_abs_clean base segs :
  isAbsolute base = true -> Forall clean segs ->
  join_strings (base :: segs) = abs_path (normalized_segments base ++ segs).
Proof.
  intros Habs Hsegs. unfold join_strings, join.
  assert (base <> []) as Hb by (intros ->; done).
  assert (filter (fun s => s <> []) (omap (fun s : option jstr => s) (map Some (base :: segs)))
          = base :: segs) as ->.
  { assert (forall l, omap (fun s : option jstr => s) (map Some l) = l) as ->.
    { intros l. induction l as [|x l IH]; [done|]. simpl. f_equal. exact IH. }
    apply filter_keeps. constructor; [done|].
    eapply Forall_impl; [exact Hsegs|]. by intros s [? _]. }
  destruct (decide (segs = [])) as [->|Hne].
  { simpl. rewrite app_nil_r. by apply normalize_absolute. }
  assert (isAbsolute (join_with SEPARATOR (base :: segs)) = true) as Habs'.
  { rewrite join_with_cons by done. by apply starts_with_app_r. }
  rewrite normalize_absolute by done. unfold abs_path. do 2 f_equal.
  unfold normalized_segments at 1. rewrite Habs'.
  rewrite join_with_cons by done. change (SEPARATOR ++ ?x) with (c_slash :: x).
  rewrite split_on_sep_app, fold_left_app. rewrite fold_push_join by done.
  unfold normalized_segments. by rewrite Habs.
Qed.

Lemma relative_abs a b :
  isAbsolute a = true -> isAbsolute b = true ->
  relative (normalize a) (normalize b) =
  join_with SEPARATOR
    (replicate (length (normalized_segments a) -
                common (normalized_segments a) (normalized_segments b)) dotdot ++
     drop (common (normalized_segments a) (normalized_segments b)) (normalized_segments b)).
Proof.
  intros Ha Hb. unfold relative.
  rewrite !segments_of_spec, !normalized_segments_normalize by (by rewrite normalize_isAbsolute).
  done.
Qed.

Lemma normalize_eq_iff a b :
  isAbsolute a = true -> isAbsolute b = true ->
  normalize a = normalize b <-> normalized_segments a = normalized_segments b.
Proof.
  intros Ha Hb. rewrite !normalize_absolute by done. split; [|by intros ->].
  intros H. apply abs_path_inj; [by apply normalized_clean..|done].
Qed.

(** Where the guard accepts: the target's segments extend the parent's and the
    first further one does not begin with two dots. *)
Definition inside (parent target : jstr) : Prop :=
  exists rest, normalized_segments target = normalized_segments parent ++ rest /\
    match rest with s :: _ => starts_with dotdot s = false | [] => True end.

Lemma starts_with_join_head s l :
  s <> [] -> starts_with dotdot (join_with SEPARATOR (s :: l)) = true ->
  c_slash ∉ s -> starts_with dotdot s = true.
Proof.
  intros Hne H Hs. destruct l as [|b l]; [done|]. rewrite join_with_cons in H by done.
  destruct s as [|x [|y s]]; [done| |]; simpl in H |- *; [|done].
  destruct x; simpl in H; [done|]. by repeat (destruct p; simpl in H; try done).
Qed.

Lemma assertPathInside_abs parent target :
  isAbsolute parent = true -> isAbsolute target = true ->
  assertPathInside parent target = Ok () <-> inside parent target.
Proof.
  intros Hp Ht. unfold assertPathInside, inside.
  rewrite relative_abs by done.
  pose proof (normalized_clean parent Hp) as Hcp.
  pose proof (normalized_clean target Ht) as Hct.
  set (sp := normalized_segments parent) in *. set (st := normalized_segments target) in *.
  case_bool_decide as Heq.
  { apply (normalize_eq_iff target parent Ht Hp) in Heq. fold sp st in Heq.
    split; [intros _; exists []; by rewrite Heq, app_nil_r | done]. }
  assert (st <> sp) as Hne.
  { intros H. apply Heq. by apply normalize_eq_iff. }
  destruct (decide (sp `prefix_of` st)) as [[rest Hrest]|Hno].
  - assert (common sp st = length sp) as -> by (apply common_prefix; by exists rest).
    rewrite Nat.sub_diag, Hrest, drop_app_length. cbn [replicate app].
    destruct rest as [|s rest]; [by rewrite app_nil_r in Hrest|].
    rewrite Hrest in Hct. apply Forall_app in Hct as [_ Hct].
    inversion Hct as [|? ? Hs Hr]; subst.
    assert (starts_with SEPARATOR (join_with SEPARATOR (s :: rest)) = false) as ->.
    { apply join_no_slash_start. eapply Forall_impl; [exact Hct|]. by intros ? (? & _ & _ & ?). }
    rewrite orb_false_r. split.
    + destruct (starts_with dotdot _) eqn:E; [done|]. intros _. exists (s :: rest).
      split; [done|]. destruct (starts_with dotdot s) eqn:E'; [|done].
      rewrite <- E. destruct rest; [done|]. rewrite join_with_cons by done.
      symmetry. by apply starts_with_app_r.
    + intros (rest' & Hrest' & Hok). apply app_inv_head in Hrest'. subst rest'.
      destruct (starts_with dotdot (join_with SEPARATOR (s :: rest))) eqn:E; [|done].
      apply starts_with_join_head in E; [congruence|apply Hs..].
  - assert (common sp st < length sp) as Hlt.
    { pose proof (common_le sp st). destruct (decide (common sp st = length sp)) as [H'|]; [|lia].
      apply common_prefix in H'. done. }
    split.
    + destruct (length sp - common sp st) as [|k] eqn:Ek; [lia|].
      assert (starts_with dotdot (join_with SEPARATOR
        (replicate (S k) dotdot ++ drop (common sp st) st)) = true) as ->; [|done].
      simpl replicate. cbn [app]. destruct (replicate k dotdot ++ _); [done|].
      rewrite join_with_cons by done. apply starts_with_app.
    + intros (rest & Hrest & _). exfalso. apply Hno. by exists rest.
Qed.

Lemma join_clean base segs : Forall clean base -> Forall clean segs ->
  join_strings (abs_path base :: segs) = abs_path (base ++ segs).
Proof.
  intros Hb Hs. rewrite join_abs_clean by (done || apply isAbsolute_abs_path). by rewrite normalized_abs_path.
Qed.

Lemma inside_clean base rest : Forall clean (base ++ rest) ->
  match rest with s :: _ => starts_with dotdot s = false | [] => True end ->
  assertPathInside (abs_path base) (abs_path (base ++ rest)) = Ok ().
Proof.
  intros Hc Hr. apply assertPathInside_abs; [apply isAbsolute_abs_path..|]. exists rest.
  rewrite !normalized_abs_path by (done || by apply Forall_app in Hc as [? _]). done.
Qed.

Lemma basename_clean s : clean s -> basename s = s.
Proof.
  intros (Hne & Hd & Hdd & Hs). unfold basename.
  assert (isAbsolute s = false) as Ha.
  { unfold isAbsolute. destruct s as [|c s]; [done|]. cbn [starts_with SEPARATOR]. rewrite andb_true_r.
    apply N.eqb_neq. intros E. apply Hs. rewrite E. by left. }
  assert (normalize s = s) as ->.
  { unfold normalize, normalized_segments. rewrite Ha, split_on_id by done. cbn [fold_left]. unfold push_segment, isMeaningful.
    rewrite (bool_decide_false _ Hne), (bool_decide_false _ Hd), (bool_decide_false _ Hdd). cbn [negb andb app join_with]. by rewrite (bool_decide_false _ Hne). }
  rewrite bool_decide_false by (intros E; apply Hs; rewrite E; by left).
  change (match last_index_of c_slash s with None => s | Some i => drop (S i) s end = s).
  by rewrite (proj2 (last_index_of_none c_slash s)).
Qed.

(** ** Properties *)

(** Normalising a path twice gives what normalising it once gives. *)
Theorem normalize_idempotent value : normalize (normalize value) = normalize value.
Proof.
  unfold normalize at 1. rewrite normalized_segments_normalize, normalize_isAbsolute.
  reflexivity.
Qed.

(** An absolute path normalises to a slash and segments none of which is empty,
    a dot, a double dot or holds a slash: no path climbs above the root. *)
Theorem normalize_stays_rooted value :
  isAbsolute value = true ->
  exists segs, normalize value = abs_path segs /\ Forall clean segs.
Proof.
  intros H. exists (normalized_segments value). split; [by apply normalize_absolute|].
  by apply normalized_clean.
Qed.

Lemma normalize_stays_rooted_witness :
  exists segs, normalize (js "/a/../../b//./c/") = abs_path segs /\ Forall clean segs.
Proof. apply (normalize_stays_rooted (js "/a/../../b//./c/")). reflexivity. Defined.

(** On absolute paths [assertPathInside] returns exactly when the target's
    segments extend the parent's by segments of which the first does not begin with
    two dots; every other target, a traversal above all, is refused. *)
Theorem assertPathInside_guards parent target :
  isAbsolute parent = true -> isAbsolute target = true ->
  (assertPathInside parent target = Ok () <-> inside parent target) /\
  (~ inside parent target ->
   assertPathInside parent target = Throw (Error (js "Unsafe document path: " ++ target))).
Proof.
  intros Hp Ht. pose proof (assertPathInside_abs parent target Hp Ht) as Hiff.
  split; [exact Hiff|]. intros Hno. revert Hiff. unfold assertPathInside.
  case_bool_decide; [intros Hiff; by destruct (Hno (proj1 Hiff eq_refl))|].
  destruct (_ || _); [done|]. intros Hiff. by destruct (Hno (proj1 Hiff eq_refl)).
Qed.

Lemma assertPathInside_guards_witness :
  (assertPathInside (js "/r/docs") (js "/r/docs/../x.json") = Ok () <->
     inside (js "/r/docs") (js "/r/docs/../x.json")) /\
  (~ inside (js "/r/docs") (js "/r/docs/../x.json") ->
   assertPathInside (js "/r/docs") (js "/r/docs/../x.json") =
   Throw (Error (js "Unsafe document path: /r/docs/../x.json"))).
Proof. apply (assertPathInside_guards (js "/r/docs") (js "/r/docs/../x.json")); reflexivity. Defined.

Example dirname_basename :
  dirname (js "/a//b/./c.json") = js "/a/b" /\ basename (js "/a//b/./c.json") = js "c.json".
Proof. by vm_compute. Qed.

End Path.
