(* ===== verification/JsNum.v ===== *)
(** JavaScript numbers: IEEE 754 binary64 as Stdlib's [spec_float], the conversions
    between numbers and strings that the sources rely on, and digit strings in a
    base.  All of it computes. *)

From Stdlib Require Import SpecFloat.
From S2P Require Import Prelude.

Module Num.

Abbreviation num := spec_float.

Definition prec : Z := 53.
Definition emax : Z := 1024.

Definition zero : num := S754_zero false.
Definition nan : num := S754_nan.

(** The nearest number, ties to even. *)
Definition of_Z (z : Z) : num := binary_normalize prec emax z 0 false.
Definition div : num -> num -> num := SFdiv prec emax.
Definition add : num -> num -> num := SFadd prec emax.
Definition sub : num -> num -> num := SFsub prec emax.

(** The nearest number to the quotient [a / b]. *)
Definition of_ratio (neg : bool) (a b : positive) : num :=
  let '(m, e, l) := SFdiv_core_binary prec emax (Zpos a) 0 (Zpos b) 0 in
  binary_round_aux prec emax neg m e l.

(** Numbers that [setFloat64] can be given: the mantissa and exponent are canonical. *)
Definition valid (x : num) : Prop := valid_binary prec emax x = true.

Definition is_finite (x : num) : bool :=
  match x with S754_zero _ | S754_finite _ _ _ => true | _ => false end.

Definition lt : num -> num -> bool := SFltb.
Definition le : num -> num -> bool := SFleb.
Definition gt (a b : num) : bool := SFltb b a.
Definition ge (a b : num) : bool := SFleb b a.
(** [===] on numbers: NaN equals nothing, the two zeros are equal. *)
Definition eq : num -> num -> bool := SFeqb.

#[global] Instance num_eq_dec : EqDecision num.
Proof. solve_decision. Defined.

(** The integer value of a number without a fraction. *)
Definition to_Z (x : num) : option Z :=
  match x with
  | S754_zero _ => Some 0%Z
  | S754_finite s m e =>
      let v := if (0 <=? e)%Z then Some (Zpos m * 2 ^ e)%Z
               else if (Zpos m mod 2 ^ (- e) =? 0)%Z then Some (Zpos m / 2 ^ (- e))%Z
               else None in
      if s then Z.opp <$> v else v
  | _ => None
  end.

(** [Number.isInteger] *)
Definition is_integer (x : num) : bool := bool_decide (is_Some (to_Z x)).

(** The integer that [x.toFixed(0)] prints, for [0 <= x < 10^21]: the nearest one,
    the larger of two. *)
Definition to_fixed0 (x : num) : option Z :=
  match x with
  | S754_zero _ => Some 0%Z
  | S754_finite false m e =>
      Some (if (0 <=? e)%Z then Zpos m * 2 ^ e
            else (2 * Zpos m + 2 ^ (- e)) / 2 ^ (1 - e))%Z
  | _ => None
  end.

(** ** Digits in a base, most significant first *)

Definition digit_char (d : N) : N := if (d <? 10)%N then (48 + d)%N else (87 + d)%N.

Definition char_digit (c : N) : option N :=
  if is_digit c then Some (c - 48)%N
  else if is_lower c then Some (c - 87)%N
  else if is_upper c then Some (c - 55)%N
  else None.

Fixpoint digits_acc (fuel : nat) (base n : N) (acc : jstr) : jstr :=
  match fuel with
  | O => acc
  | S f =>
      let acc' := digit_char (n mod base) :: acc in
      if (n / base =? 0)%N then acc' else digits_acc f base (n / base) acc'
  end.

(** [n.toString(base)] for a natural number. *)
Definition digits (base n : N) : jstr := digits_acc (S (N.size_nat n)) base n [].

Definition dec (n : N) : jstr := digits 10 n.
Definition dec_Z (z : Z) : jstr :=
  if (z <? 0)%Z then 45%N :: dec (Z.to_N (- z)) else dec (Z.to_N z).
Definition dec_nat (n : nat) : jstr := dec (N.of_nat n).

(** The number written by a run of digits of the base. *)
Definition parse_digits (base : N) (s : jstr) : option N :=
  fold_left (fun acc c =>
    a ← acc; d ← char_digit c;
    if (d <? base)%N then Some (a * base + d)%N else None) s (Some 0%N).

Lemma char_digit_digit_char d : (d < 36)%N -> char_digit (digit_char d) = Some d.
Proof.
  intros H. unfold digit_char, char_digit, is_digit, is_lower, is_upper, in_range.
  destruct (N.ltb_spec d 10).
  - replace ((48 <=? 48 + d)%N && (48 + d <=? 57)%N) with true by lia. f_equal. lia.
  - replace ((48 <=? 87 + d)%N && (87 + d <=? 57)%N) with false by lia.
    replace ((97 <=? 87 + d)%N && (87 + d <=? 122)%N) with true by lia. f_equal. lia.
Qed.

(** ** From a string to a number *)

(** [d * 10^e], rounded; the clamps answer what the exact value would round to. *)
Definition of_decimal (neg : bool) (d : N) (e : Z) : num :=
  match d with
  | N0 => S754_zero neg
  | Npos p =>
      if (400 <? e)%Z then S754_infinity neg
      else if (e + Z.of_nat (length (dec d)) <? -400)%Z then S754_zero neg
      else if (0 <=? e)%Z then of_ratio neg (p * Z.to_pos (10 ^ e)) 1
      else of_ratio neg p (Z.to_pos (10 ^ (- e)))
  end.

(** [[eE][+-]?\d+] at the front of a string: the exponent and the rest. *)
Definition parse_exponent (s : jstr) : option (Z * jstr) :=
  match s with
  | c :: r =>
      if (c =? 101)%N || (c =? 69)%N then
        let '(neg, r') :=
          match r with
          | d :: r' => if (d =? 45)%N then (true, r') else if (d =? 43)%N then (false, r') else (false, r)
          | [] => (false, r)
          end in
        let ds := take_while is_digit r' in
        match ds, parse_digits 10 ds with
        | _ :: _, Some n => Some ((if neg then - Z.of_N n else Z.of_N n)%Z, drop_while is_digit r')
        | _, _ => None
        end
      else None
  | [] => None
  end.

(** The longest prefix of the form [\d+(\.\d* )?] or [\.\d+], then an exponent. *)
Definition parse_decimal_prefix (neg : bool) (s : jstr) : option (num * jstr) :=
  let ip := take_while is_digit s in
  let r1 := drop_while is_digit s in
  let '(fp, r2) :=
    match r1 with
    | c :: r =>
        if (c =? 46)%N then
          let f := take_while is_digit r in
          match ip, f with
          | [], [] => ([], r1)
          | _, _ => (f, drop_while is_digit r)
          end
        else ([], r1)
    | [] => ([], r1)
    end in
  match ip ++ fp with
  | [] => None
  | ds =>
      d ← parse_digits 10 ds;
      let '(e, r3) := default (0%Z, r2) (parse_exponent r2) in
      Some (of_decimal neg d (e - Z.of_nat (length fp)), r3)
  end.

Definition split_sign (s : jstr) : bool * jstr :=
  match s with
  | c :: r => if (c =? 45)%N then (true, r) else if (c =? 43)%N then (false, r) else (false, s)
  | [] => (false, s)
  end.

(** A literal [0x...], [0o...] or [0b...]. *)
Definition parse_radix (s : jstr) : option num :=
  match s with
  | z :: x :: ds =>
      if (z =? 48)%N then
        base ← (if (x =? 120)%N || (x =? 88)%N then Some 16%N
                else if (x =? 111)%N || (x =? 79)%N then Some 8%N
                else if (x =? 98)%N || (x =? 66)%N then Some 2%N else None);
        match ds with
        | [] => None
        | _ => n ← parse_digits base ds; Some (of_Z (Z.of_N n))
        end
      else None
  | _ => None
  end.

(** [Number(s)] for a string [s]. *)
Definition of_string (s : jstr) : num :=
  match trim s with
  | [] => zero
  | t =>
      match parse_radix t with
      | Some n => n
      | None =>
          let '(neg, r) := split_sign t in
          if bool_decide (r = js "Infinity") then S754_infinity neg
          else match parse_decimal_prefix neg r with
               | Some (n, []) => n
               | _ => nan
               end
      end
  end.

(** [parseFloat(s)] *)
Definition parseFloat (s : jstr) : num :=
  let '(neg, r) := split_sign (drop_while is_space s) in
  if starts_with (js "Infinity") r then S754_infinity neg
  else match parse_decimal_prefix neg r with
       | Some (n, _) => n
       | None => nan
       end.

(** [parseInt(s)] on a string that does not begin with [0x]. *)
Definition parseInt (s : jstr) : num :=
  let '(neg, r) := split_sign (drop_while is_space s) in
  match take_while is_digit r with
  | [] => nan
  | ds => match parse_digits 10 ds with
          | Some n => let v := of_Z (Z.of_N n) in if neg then SFopp v else v
          | None => nan
          end
  end.

(** ** From a number to a string *)

(** The least [n] with [a / b < 10^n]; [j] counts how many tens to multiply by. *)
Fixpoint decimal_point (fuel : nat) (a b : Z) (j : Z) : Z :=
  match fuel with
  | O => (1 - j)%Z
  | S f => if (b <=? a)%Z then (Z.of_nat (length (dec (Z.to_N (a / b)))) - j)%Z
           else decimal_point f (10 * a)%Z b (j + 1)%Z
  end.

(** A [k]-digit decimal that reads back as [x = a / b], the closer of two. *)
Definition shortest_at (x : num) (a b : Z) (n : Z) (k : nat) : option (N * Z) :=
  let e := (n - Z.of_nat k)%Z in
  let '(p, q) := if (0 <=? e)%Z then (a, (b * 10 ^ e)%Z) else ((a * 10 ^ (- e))%Z, b) in
  let lo := (p / q)%Z in
  let back s := bool_decide (of_decimal false (Z.to_N s) e = x) in
  let good_lo := back lo in
  let good_hi := back (lo + 1)%Z in
  if good_lo && good_hi then
    let d := (2 * (p - lo * q) ?= q)%Z in
    let hi := match d with Lt => false | Gt => true | Datatypes.Eq => Z.odd lo end in
    Some (Z.to_N (if hi then lo + 1 else lo)%Z, e)
  else if good_lo then Some (Z.to_N lo, e)
  else if good_hi then Some (Z.to_N (lo + 1)%Z, e)
  else None.

Fixpoint shortest (fuel k : nat) (x : num) (a b n : Z) : N * Z :=
  match fuel with
  | O => (Z.to_N (a / b), 0%Z)
  | S f => match shortest_at x a b n k with
           | Some r => r
           | None => shortest f (S k) x a b n
           end
  end.

Fixpoint strip_zeros (rs : jstr) : jstr :=
  match rs with
  | c :: r => if (c =? 48)%N then strip_zeros r else rs
  | [] => []
  end.

(** The layout of [Number::toString]: digits [ds] with the point after [n] of them. *)
Definition layout (ds : jstr) (n : Z) : jstr :=
  let k := Z.of_nat (length ds) in
  if (k <=? n)%Z && (n <=? 21)%Z then ds ++ replicate (Z.to_nat (n - k)) 48%N
  else if (0 <? n)%Z && (n <=? 21)%Z then
    take (Z.to_nat n) ds ++ [46%N] ++ drop (Z.to_nat n) ds
  else if (-6 <? n)%Z && (n <=? 0)%Z then
    js "0." ++ replicate (Z.to_nat (- n)) 48%N ++ ds
  else
    let e := (n - 1)%Z in
    let sign := if (e <? 0)%Z then [45%N] else [43%N] in
    let exp := [101%N] ++ sign ++ dec (Z.to_N (Z.abs e)) in
    match ds with
    | [d] => d :: exp
    | d :: r => d :: 46%N :: r ++ exp
    | [] => exp
    end.

(** [String(x)] *)
Definition to_string (x : num) : jstr :=
  match x with
  | S754_nan => js "NaN"
  | S754_infinity s => (if s then [45%N] else []) ++ js "Infinity"
  | S754_zero _ => js "0"
  | S754_finite s m e =>
      let '(a, b) := if (0 <=? e)%Z then ((Zpos m * 2 ^ e)%Z, 1%Z)
                     else (Zpos m, (2 ^ (- e))%Z) in
      let n := decimal_point 400 a b 0 in
      let '(d, e10) := shortest 17 1 (S754_finite false m e) a b n in
      let raw := dec d in
      let ds := rev (strip_zeros (rev raw)) in
      (if s then [45%N] else []) ++ layout ds (Z.of_nat (length raw) + e10)
  end.

Example to_string_samples :
  map to_string [of_Z 0; of_Z 30; of_Z (-12345); of_decimal false 1 (-1); of_decimal false 15 (-7);
                 of_decimal false 123456 (-3); of_Z (10 ^ 21); of_Z 1700000000000; of_decimal false 5 (-324)]
  = [js "0"; js "30"; js "-12345"; js "0.1"; js "0.0000015"; js "123.456"; js "1e+21";
     js "1700000000000"; js "5e-324"].
Proof. by vm_compute. Qed.

Example of_string_samples :
  map of_string [js ""; js " 42 "; js "-1.5e2"; js "0x1f"; js "1.2.3"; js ".5"; js "abc"]
  = [of_Z 0; of_Z 42; of_Z (-150); of_Z 31; nan; of_decimal false 5 (-1); nan].
Proof. by vm_compute. Qed.

(** ** Ordering of digit strings *)

Definition fixed_digits (base : N) : nat -> N -> jstr :=
  fix go k n := match k with
                | O => []
                | S k' => go k' (n / base)%N ++ [digit_char (n mod base)]
                end.

Lemma digit_char_lt a b : (a < 16)%N -> (b < 16)%N -> (a < b)%N -> (digit_char a < digit_char b)%N.
Proof.
  intros Ha Hb H. unfold digit_char.
  destruct (N.ltb_spec a 10), (N.ltb_spec b 10); lia.
Qed.

Lemma fixed_digits_length base k n : length (fixed_digits base k n) = k.
Proof.
  revert n. induction k as [|k IH]; intros n; simpl; [done|].
  rewrite length_app, IH. simpl. lia.
Qed.

Lemma jltb_irrefl a : jltb a a = false.
Proof. unfold jltb. by rewrite jleb_refl. Qed.

Lemma jltb_snoc a b x y :
  length a = length b ->
  jltb (a ++ [x]) (b ++ [y]) = true <-> jltb a b = true \/ (a = b /\ (x < y)%N).
Proof.
  unfold jltb. revert b. induction a as [|u a IH]; intros [|v b] Hlen; [| done | done |]; simpl.
  - destruct (N.ltb_spec y x), (N.ltb_spec x y); simpl; intuition (try lia; try done).
  - injection Hlen as Hlen. specialize (IH b Hlen).
    destruct (N.ltb_spec v u), (N.ltb_spec u v); simpl; try lia.
    { split; [intros ?; done|]. intros [H'|[[= -> _] _]]; [done|lia]. }
    assert (u = v) as -> by lia. rewrite IH. split.
    + intros [?|[-> ?]]; auto.
    + intros [?|[? ?]]; [by left|right; simplify_eq; auto].
Qed.

(** Strings of the same number of digits are ordered as the numbers they write. *)
Lemma fixed_digits_lt base k a b :
  (1 < base <= 16)%N -> (a < base ^ N.of_nat k)%N -> (b < base ^ N.of_nat k)%N ->
  jltb (fixed_digits base k a) (fixed_digits base k b) = true <-> (a < b)%N.
Proof.
  intros Hb. revert a b. induction k as [|k IH]; intros x y Hx Hy.
  - simpl in Hx, Hy |- *. rewrite jltb_irrefl. split; [done|lia].
  - rewrite Nat2N.inj_succ, N.pow_succ_r' in Hx, Hy. simpl.
    assert (x / base < base ^ N.of_nat k)%N by (apply N.Div0.div_lt_upper_bound; lia).
    assert (y / base < base ^ N.of_nat k)%N by (apply N.Div0.div_lt_upper_bound; lia).
    rewrite jltb_snoc by (by rewrite !fixed_digits_length). rewrite IH by done.
    pose proof (N.Div0.div_mod x base) as Hdx. pose proof (N.Div0.div_mod y base) as Hdy.
    pose proof (N.mod_lt x base ltac:(lia)) as Hmx.
    pose proof (N.mod_lt y base ltac:(lia)) as Hmy.
    assert (fixed_digits base k (x / base) = fixed_digits base k (y / base)
            <-> (x / base = y / base)%N) as ->.
    { split; [|by intros ->]. intros Heq.
      destruct (N.lt_trichotomy (x / base) (y / base)) as [Hl|[He|Hl]]; [|done|];
        apply IH in Hl; try done; rewrite Heq, jltb_irrefl in Hl; done. }
    assert ((digit_char (x mod base) < digit_char (y mod base))%N <-> (x mod base < y mod base)%N) as ->.
    { split; [|apply digit_char_lt; lia]. intros Hd.
      destruct (N.lt_trichotomy (x mod base) (y mod base)) as [Hl|[He|Hl]]; [done|rewrite He in Hd; lia|].
      apply digit_char_lt in Hl; lia. }
    clear IH Hx Hy H H0.
    set (p := (x / base)%N) in *. set (q := (y / base)%N) in *.
    set (r := (x mod base)%N) in *. set (t := (y mod base)%N) in *.
    clearbody p q r t. subst x y. split; [|nia].
    intros [Hl|[-> Hl]]; nia.
Qed.

(** [n.toString(base).padStart(k, '0')] is the [k]-digit string of [n]. *)
Lemma digits_acc_app fuel base n acc :
  digits_acc fuel base n acc = digits_acc fuel base n [] ++ acc.
Proof.
  revert n acc. induction fuel as [|f IH]; intros n acc; simpl; [done|].
  destruct (_ =? 0)%N; [done|]. rewrite IH, (IH _ [_]), <- app_assoc. done.
Qed.

Lemma fixed_digits_zero base k : (1 < base)%N -> fixed_digits base k 0 = replicate k 48%N.
Proof.
  intros Hb. induction k as [|k IH]; simpl; [done|].
  rewrite N.Div0.div_0_l, N.Div0.mod_0_l, IH. by rewrite <- replicate_S_end.
Qed.

Lemma pad_digits_acc base k fuel n :
  (1 < base)%N -> (n < base ^ N.of_nat k)%N -> (n < 2 ^ N.of_nat fuel)%N -> fuel <> 0 -> k <> 0 ->
  pad_start k 48 (digits_acc fuel base n []) = fixed_digits base k n /\
  length (digits_acc fuel base n []) <= k.
Proof.
  intros Hb. revert k n. induction fuel as [|f IH]; intros k n Hn Hf Hfz Hkz; [done|].
  destruct k as [|k]; [done|]. cbn [digits_acc fixed_digits].
  rewrite Nat2N.inj_succ, N.pow_succ_r' in Hn, Hf.
  pose proof (N.div_mod n base ltac:(lia)) as Hdm.
  destruct (N.eqb_spec (n / base) 0) as [Hz|Hnz].
  - rewrite Hz, fixed_digits_zero by done. unfold pad_start. simpl.
    rewrite Nat.sub_0_r. split; [done|lia].
  - assert (n / base < base ^ N.of_nat k)%N by (apply N.Div0.div_lt_upper_bound; lia).
    assert (n / base < 2 ^ N.of_nat f)%N by (apply N.Div0.div_lt_upper_bound; nia).
    assert (k <> 0) by (intros ->; apply Hnz, N.div_small; simpl in Hn; lia).
    assert (f <> 0) by (intros ->; apply Hnz, N.div_small; simpl in Hf; lia).
    destruct (IH k (n / base)%N) as [Hp Hl]; [done..|].
    rewrite digits_acc_app. unfold pad_start in *. rewrite length_app. simpl length.
    split; [|lia]. rewrite <- Hp, <- app_assoc. do 2 f_equal. lia.
Qed.

Lemma size_nat_pos p : N.of_nat (Pos.size_nat p) = N.pos (Pos.size p).
Proof.
  induction p as [p IH|p IH|]; cbn [Pos.size_nat Pos.size]; [..|done];
    rewrite Nat2N.inj_succ, IH; done.
Qed.

Lemma size_nat_bound n : (n < 2 ^ N.of_nat (S (N.size_nat n)))%N.
Proof.
  destruct n as [|p]; [done|]. simpl N.size_nat.
  rewrite Nat2N.inj_succ, N.pow_succ_r', size_nat_pos.
  pose proof (N.size_gt (N.pos p)) as H. simpl N.size in H. lia.
Qed.

Lemma pad_digits base k n :
  (1 < base)%N -> (n < base ^ N.of_nat k)%N -> k <> 0 ->
  pad_start k 48 (digits base n) = fixed_digits base k n.
Proof. intros Hb Hn Hk. apply pad_digits_acc; [done|done|apply size_nat_bound|done|done]. Qed.

(** A decimal numeral names one number. *)
Lemma dec_inj a b : dec a = dec b -> a = b.
Proof.
  intros E. set (k := S (N.to_nat (N.max a b))).
  assert (forall n, (n <= N.max a b)%N -> (n < 10 ^ N.of_nat k)%N) as Hk.
  { intros n Hn. unfold k. rewrite Nat2N.inj_succ, N2Nat.id, N.pow_succ_r'.
    pose proof (N.pow_gt_lin_r 10 (N.max a b) ltac:(lia)). lia. }
  assert (fixed_digits 10 k a = fixed_digits 10 k b) as Ef.
  { rewrite <- !pad_digits by (try lia; apply Hk; lia). unfold dec in E. by rewrite E. }
  destruct (N.lt_trichotomy a b) as [Hlt|[->|Hlt]]; [exfalso|done|exfalso];
    apply (fixed_digits_lt 10 k) in Hlt; try lia; try (apply Hk; lia);
    rewrite Ef in Hlt; unfold jltb in Hlt; by rewrite jleb_refl in Hlt.
Qed.

End Num.
