(* ===== verification/Shard.v ===== *)
(** Shard directories ([src/core/shard.js]) and collection names
    ([src/core/collection.js]). *)

From S2P Require Import Prelude PathUtil JsNum.

Definition c_dash : N := 45.

Module Shard.

Definition DEFAULT_SHARD_WIDTH : nat := 1.
Definition MIN_SHARD_WIDTH : nat := 1.
Definition MAX_SHARD_WIDTH : nat := 4.

(** The creation segment, refused when it is not alphanumeric. *)
Definition creationSegment (id : jstr) : outcome jstr :=
  let created := hd [] (split_on c_dash id) in
  if bool_decide (created = []) || negb (forallb is_alnum created)
  then Throw (Error (js "Cannot shard a non-identifier: " ++ id))
  else Ok created.

Definition assertShardWidth (width : Num.num) : outcome nat :=
  match Num.to_Z width with
  | Some w =>
      if (w <? Z.of_nat MIN_SHARD_WIDTH)%Z || (Z.of_nat MAX_SHARD_WIDTH <? w)%Z
      then Throw (Error (js "Shard width must be an integer from 1 to 4: " ++ Num.to_string width))
      else Ok (Z.to_nat w)
  | None => Throw (Error (js "Shard width must be an integer from 1 to 4: " ++ Num.to_string width))
  end.

Definition shardOf (id : jstr) (width : Num.num) : outcome jstr :=
  shard ← assertShardWidth width;
  created ← creationSegment id;
  mret (pad_start shard 48 (last_n shard created)).

(** [shardOf(id)] with the default width. *)
Definition defaultShardOf (id : jstr) : outcome jstr :=
  shardOf id (Num.of_Z (Z.of_nat DEFAULT_SHARD_WIDTH)).

Definition legacyShardOf (id : jstr) : outcome jstr :=
  created ← creationSegment id; mret (take 2 created).

Fixpoint shards_for (id : jstr) (widths : list Num.num) (candidates : list jstr)
    : outcome (list jstr) :=
  match widths with
  | [] => Ok candidates
  | w :: r =>
      shard ← shardOf id w;
      shards_for id r
        (if bool_decide (shard ∈ candidates) then candidates else candidates ++ [shard])
  end.

Definition shardCandidates (id : jstr) (width : Num.num) (previousWidths : list Num.num)
    : outcome (list jstr) :=
  candidates ← shards_for id (width :: previousWidths) [];
  legacy ← legacyShardOf id;
  mret (if bool_decide (legacy ∈ candidates) then candidates else candidates ++ [legacy]).

(** ** Facts *)

(** An identifier: its first dash-free run is alphanumeric and at least four long. *)
Definition identifier (id : jstr) : Prop :=
  exists created, creationSegment id = Ok created /\ MAX_SHARD_WIDTH <= length created.

Lemma creationSegment_ok id created :
  creationSegment id = Ok created ->
  created = hd [] (split_on c_dash id) /\ created <> [] /\ forallb is_alnum created = true.
Proof.
  unfold creationSegment. set (c := hd [] (split_on c_dash id)).
  case_bool_decide as H1; [done|]. destruct (forallb is_alnum c) eqn:H2; [|done].
  simpl. intros [= <-]. done.
Qed.

Lemma is_alnum_bounds c : is_alnum c = true -> (48 <= c <= 57 \/ 65 <= c <= 90 \/ 97 <= c <= 122)%N.
Proof.
  unfold is_alnum, is_alpha, is_digit, is_upper, is_lower, in_range.
  rewrite !orb_true_iff, !andb_true_iff, !N.leb_le. lia.
Qed.

(** A run of letters and digits is a path segment normalisation keeps. *)
Lemma alnum_clean s : s <> [] -> forallb is_alnum s = true -> Path.clean s.
Proof.
  intros Hne Hs. rewrite forallb_forall in Hs.
  assert (forall c, c ∈ s -> is_alnum c = true) as Ha by (intros c Hc; apply Hs; by apply list_elem_of_In).
  assert (forall c, (c < 48)%N -> c ∉ s) as Hno.
  { intros c Hc Hin. specialize (Ha c Hin). apply is_alnum_bounds in Ha. lia. }
  split_and!; [done| | |by apply Hno].
  - intros ->. apply (Hno 46%N); [lia|]. by left.
  - intros ->. apply (Hno 46%N); [lia|]. by left.
Qed.

Lemma forallb_take {A} (f : A -> bool) n l : forallb f l = true -> forallb f (take n l) = true.
Proof.
  revert n. induction l as [|x l IH]; intros [|n]; simpl; try done.
  rewrite !andb_true_iff. intros [? ?]. auto.
Qed.

Lemma forallb_drop {A} (f : A -> bool) n l : forallb f l = true -> forallb f (drop n l) = true.
Proof.
  revert n. induction l as [|x l IH]; intros [|n]; simpl; try done.
  rewrite !andb_true_iff. intros [? ?]. auto.
Qed.

Lemma legacyShardOf_clean id s : legacyShardOf id = Ok s -> Path.clean s.
Proof.
  unfold legacyShardOf. destruct (creationSegment id) as [created|] eqn:E; [|done].
  intros [= <-]. apply creationSegment_ok in E as (_ & Hne & Ha).
  apply alnum_clean; [by destruct created as [|? [|]]|by apply forallb_take].
Qed.

Lemma assertShardWidth_ok w n :
  assertShardWidth w = Ok n ->
  Num.to_Z w = Some (Z.of_nat n) /\ MIN_SHARD_WIDTH <= n <= MAX_SHARD_WIDTH.
Proof.
  unfold assertShardWidth. destruct (Num.to_Z w) as [z|]; [|done].
  destruct (Z.ltb_spec z (Z.of_nat MIN_SHARD_WIDTH)); [done|].
  destruct (Z.ltb_spec (Z.of_nat MAX_SHARD_WIDTH) z); [done|]. simpl. intros [= <-].
  unfold MIN_SHARD_WIDTH, MAX_SHARD_WIDTH in *. split; [f_equal|]; lia.
Qed.

Lemma shardOf_clean id w s : shardOf id w = Ok s -> Path.clean s.
Proof.
  unfold shardOf. destruct (assertShardWidth w) as [n|] eqn:Ew; [|done].
  destruct (creationSegment id) as [created|] eqn:E; [|done]. intros [= <-].
  apply creationSegment_ok in E as (_ & Hne & Ha).
  apply assertShardWidth_ok in Ew as [_ [Hn _]]. unfold MIN_SHARD_WIDTH in Hn.
  apply alnum_clean.
  - unfold pad_start, last_n. intros Hz%(f_equal length).
    rewrite length_app, length_replicate, length_drop in Hz. simpl in Hz.
    destruct created; [done|simpl in *; lia].
  - unfold pad_start, last_n. rewrite forallb_app. apply andb_true_iff. split.
    + apply forallb_forall. intros x Hx.
      apply list_elem_of_In, elem_of_replicate in Hx as [-> _]. done.
    + by apply forallb_drop.
Qed.

Lemma shards_for_spec id widths candidates out :
  shards_for id widths candidates = Ok out -> NoDup candidates ->
  NoDup out /\ candidates `prefix_of` out /\
  (forall w, w ∈ widths -> exists s, shardOf id w = Ok s /\ s ∈ out) /\
  (forall s, s ∈ out -> s ∈ candidates \/ exists w, w ∈ widths /\ shardOf id w = Ok s).
Proof.
  revert candidates. induction widths as [|w widths IH]; intros candidates; simpl.
  - intros [= <-] Hnd. split_and!; [done|done|set_solver|set_solver].
  - destruct (shardOf id w) as [s|] eqn:Es; [|done]. simpl. intros H Hnd.
    case_bool_decide as Hin.
    + destruct (IH _ H Hnd) as (H1 & H2 & H3 & H4). split_and!; [done|done| |].
      * intros w' [->|Hw']%elem_of_cons; [|eauto]. exists s. split; [done|].
        destruct H2 as [k ->]. set_solver.
      * intros s' [?|(w' & ? & ?)]%H4; [by left|]. right. exists w'. set_solver.
    + assert (NoDup (candidates ++ [s])) as Hnd'.
      { apply NoDup_app. split_and!; [done|set_solver|apply NoDup_singleton]. }
      destruct (IH _ H Hnd') as (H1 & H2 & H3 & H4). split_and!; [done| | |].
      * etransitivity; [|exact H2]. by exists [s].
      * intros w' [->|Hw']%elem_of_cons; [|eauto]. exists s. split; [done|].
        destruct H2 as [k ->]. set_solver.
      * intros s' [Hs'|(w' & ? & ?)]%H4.
        -- apply elem_of_app in Hs' as [?|Hs']; [by left|].
           apply list_elem_of_singleton in Hs' as ->. right. exists w. set_solver.
        -- right. exists w'. set_solver.
Qed.

(** ** Properties *)

(** [shardOf] returns exactly when the width is an integer from one to four and the
    identifier's creation segment is a non-empty alphanumeric run; the shard has then
    [width] characters, the last ones of the creation segment padded with zeros on
    the left. *)
Theorem shardOf_spec id w s :
  shardOf id w = Ok s <->
  exists n, Num.to_Z w = Some (Z.of_nat n) /\ 1 <= n <= 4 /\
    let created := hd [] (split_on c_dash id) in
    created <> [] /\ forallb is_alnum created = true /\
    s = replicate (n - length created) 48%N ++ drop (length created - n) created /\
    length s = n.
Proof.
  unfold shardOf. split.
  - destruct (assertShardWidth w) as [n|] eqn:Ew; [|done].
    destruct (creationSegment id) as [created|] eqn:E; [|done]. intros [= <-].
    apply creationSegment_ok in E as (-> & Hne & Ha).
    apply assertShardWidth_ok in Ew as [Hw Hn].
    set (created := hd [] (split_on c_dash id)) in *.
    assert (pad_start n 48 (last_n n created) =
            replicate (n - length created) 48%N ++ drop (length created - n) created) as Heq.
    { unfold pad_start, last_n. do 2 f_equal. rewrite length_drop. lia. }
    exists n. split_and!; [done|apply Hn|apply Hn|done|done|done|].
    rewrite Heq, length_app, length_replicate, length_drop. lia.
  - intros (n & Hw & Hn & Hne & Ha & -> & _).
    set (created := hd [] (split_on c_dash id)) in *.
    unfold assertShardWidth. rewrite Hw.
    destruct (Z.ltb_spec (Z.of_nat n) (Z.of_nat MIN_SHARD_WIDTH)) as [Hlt|_];
      [unfold MIN_SHARD_WIDTH in Hlt; lia|].
    destruct (Z.ltb_spec (Z.of_nat MAX_SHARD_WIDTH) (Z.of_nat n)) as [Hlt|_];
      [unfold MAX_SHARD_WIDTH in Hlt; lia|]. simpl.
    unfold creationSegment. fold created. rewrite bool_decide_false by done.
    rewrite Ha. cbv [orb negb mbind outcome_bind mret outcome_ret].
    rewrite Nat2Z.id. do 2 f_equal. unfold pad_start, last_n. do 2 f_equal.
    rewrite length_drop. lia.
Qed.

(** Adding lifecycle segments to an identifier leaves its shard alone, for every
    width: an update or a deletion never moves a record to another directory. *)
Theorem shardOf_lifecycle created rest w s :
  c_dash ∉ created ->
  shardOf (created ++ c_dash :: rest) w = Ok s <-> shardOf created w = Ok s.
Proof.
  intros H. unfold shardOf. destruct (assertShardWidth w) as [n|]; [|done].
  unfold creationSegment. rewrite split_on_app, (split_on_id _ created) by done. simpl.
  by destruct (_ || _).
Qed.

Lemma shardOf_lifecycle_witness :
  shardOf (js "4VLN5QUCDP0-4VLN5QUCDP9") (Num.of_Z 2) = Ok (js "P0") <->
  shardOf (js "4VLN5QUCDP0") (Num.of_Z 2) = Ok (js "P0").
Proof.
  apply (shardOf_lifecycle (js "4VLN5QUCDP0") (js "4VLN5QUCDP9") (Num.of_Z 2) (js "P0")).
  by apply includes_char_false.
Defined.

(** The candidates a reader tries hold no directory twice, begin with the shard of
    the current width, hold the shard of every previous width and the two-character
    legacy shard, and nothing else. *)
Theorem shardCandidates_complete id w previous out :
  shardCandidates id w previous = Ok out ->
  NoDup out /\
  (exists s, shardOf id w = Ok s /\ head out = Some s) /\
  (forall w', w' ∈ previous -> exists s, shardOf id w' = Ok s /\ s ∈ out) /\
  (exists l, legacyShardOf id = Ok l /\ l ∈ out) /\
  (forall s, s ∈ out ->
     legacyShardOf id = Ok s \/ exists w', w' ∈ w :: previous /\ shardOf id w' = Ok s).
Proof.
  unfold shardCandidates. simpl. destruct (shardOf id w) as [s|] eqn:Es; [|done]. simpl.
  destruct (shards_for id previous [s]) as [c|] eqn:Ec; [|done]. simpl.
  destruct (legacyShardOf id) as [l|] eqn:El; [|done]. simpl. intros [= <-].
  destruct (shards_for_spec _ _ _ _ Ec) as (H1 & [k Hk] & H3 & H4); [apply NoDup_singleton|].
  assert (forall s', s' ∈ c -> exists w', w' ∈ w :: previous /\ shardOf id w' = Ok s') as Hc.
  { intros s' [Hs|(w' & ? & ?)]%H4.
    - apply list_elem_of_singleton in Hs as ->. exists w. set_solver.
    - exists w'. set_solver. }
  case_bool_decide as Hin.
  - split_and!; [done|exists s; by rewrite Hk|done|by exists l|by right; apply Hc].
  - split_and!.
    + apply NoDup_app. split_and!; [done|set_solver|apply NoDup_singleton].
    + exists s. by rewrite Hk.
    + intros w' (s' & ? & ?)%H3. exists s'. set_solver.
    + exists l. set_solver.
    + intros s' [?|Hs]%elem_of_app; [right; by apply Hc|].
      apply list_elem_of_singleton in Hs as ->. by left.
Qed.

Lemma shardCandidates_complete_witness :
  shardCandidates (js "4VLN5QUCDP0") (Num.of_Z 1) [Num.of_Z 2; Num.of_Z 1] =
    Ok [js "0"; js "P0"; js "4V"] /\ NoDup [js "0"; js "P0"; js "4V"].
Proof.
  split; [by vm_compute|].
  apply (shardCandidates_complete (js "4VLN5QUCDP0") (Num.of_Z 1) [Num.of_Z 2; Num.of_Z 1]).
  by vm_compute.
Defined.

End Shard.

Module Collection.

Definition RESERVED_NAMES : list jstr :=
  map js ["sql"; "as"; "then"; "db"; "engine"; "cache"; "queue"; "startup";
          "importBulkData"; "join"; "ready"; "close"; "_sql"]%string.

Definition CollectionNotFoundError (collection : jstr) : js_error :=
  {| err_name := js "CollectionNotFoundError";
     err_message := js "Collection not found: " ++ collection;
     err_code := Some (js "FYLO_COLLECTION_NOT_FOUND") |}.

(** [/^[a-z0-9][a-z0-9\-]*[a-z0-9]$/] *)
Definition name_char (c : N) : bool := is_lower c || is_digit c.
Definition name_pattern (s : jstr) : bool :=
  match s, last s with
  | c :: _ :: _, Some l =>
      name_char c && name_char l && forallb (fun x => name_char x || (x =? c_dash)%N) s
  | _, _ => false
  end.

Definition validateCollectionName (collection : jstr) : outcome () :=
  if negb (name_pattern collection) then Throw (Error (js "Invalid collection name"))
  else if bool_decide (collection ∈ RESERVED_NAMES) then
    Throw (Error ([39%N] ++ collection ++
      js "' is a reserved name and cannot be used as a collection name. Choose a different name."))
  else Ok ().

Definition valid_name (collection : jstr) : Prop := validateCollectionName collection = Ok ().

#[export] Instance valid_name_dec c : Decision (valid_name c).
Proof. unfold valid_name. destruct (validateCollectionName c) as [[]|]; [by left|by right]. Defined.

Lemma name_pattern_chars s c :
  name_pattern s = true -> c ∈ s -> (c = 45 \/ 48 <= c <= 57 \/ 97 <= c <= 122)%N.
Proof.
  unfold name_pattern. destruct s as [|x [|y s]]; [done|done|].
  destruct (last _); [|done]. rewrite !andb_true_iff. intros [_ H] Hin.
  rewrite forallb_forall in H. specialize (H c). rewrite <- list_elem_of_In in H.
  specialize (H Hin). revert H. unfold name_char, is_lower, is_digit, in_range, c_dash.
  rewrite !orb_true_iff, !andb_true_iff, !N.leb_le, N.eqb_eq. lia.
Qed.

Lemma valid_name_pattern c : valid_name c -> name_pattern c = true.
Proof. unfold valid_name, validateCollectionName. by destruct (name_pattern c). Qed.

Lemma valid_name_clean c : valid_name c -> Path.clean c.
Proof.
  intros Hv. apply valid_name_pattern in Hv.
  assert (forall x, (x = 46 \/ x = 47)%N -> x ∉ c) as Hno.
  { intros x Hx Hin. apply (name_pattern_chars _ _ Hv) in Hin. lia. }
  split_and!; [by intros ->| | |by apply Hno; right].
  - by intros ->.
  - intros ->. apply (Hno 46%N); [by left|by left].
Qed.

(** An accepted collection name is two or more lower-case letters, digits and
    dashes, is none of the reserved names, and is a single path segment that
    normalisation keeps, so no name reaches outside [.collections]. *)
Theorem validateCollectionName_safe collection :
  validateCollectionName collection = Ok () ->
  Path.clean collection /\ collection ∉ RESERVED_NAMES /\ 2 <= length collection /\
  forallb (fun x => name_char x || (x =? c_dash)%N) collection = true.
Proof.
  intros Hv. split; [by apply valid_name_clean|].
  pose proof (valid_name_pattern _ Hv) as Hp. revert Hv. unfold validateCollectionName.
  rewrite Hp. simpl. case_bool_decide as Hr; [done|]. intros _. split; [done|].
  unfold name_pattern in Hp. destruct collection as [|x [|y s]]; [done|done|].
  split; [simpl; lia|]. destruct (last _); [|done]. by apply andb_true_iff in Hp as [_ ?].
Qed.

Lemma validateCollectionName_safe_witness :
  validateCollectionName (js "my-users2") = Ok () /\ Path.clean (js "my-users2").
Proof.
  split; [by vm_compute|]. apply (validateCollectionName_safe (js "my-users2")). by vm_compute.
Defined.

End Collection.
