(* ===== verification/Ttid.v ===== *)
(** Time-based document identifiers: [src/browser/vendor/ttid.mjs]. *)

From S2P Require Import Prelude PathUtil JsNum Shard.

Module TTID.

Definition PRECISION : Z := 10000.
Definition BASE : N := 36.
Definition PLACEHOLDER : jstr := js "X".
Definition MIN_TIMESTAMP_MS : Z := 1577836800000.
Definition MAX_TIMESTAMP_MS : Z := 7258118400000.

(** [/^[A-Z0-9]{11}(-[A-Z0-9]{1,11}){0,2}$/i] *)
Definition TTID_PATTERN (id : jstr) : bool :=
  match split_on c_dash id with
  | created :: rest =>
      (length created =? 11) && forallb is_alnum created &&
      (length rest <=? 2) &&
      forallb (fun s => (1 <=? length s) && (length s <=? 11) && forallb is_alnum s) rest
  | [] => false
  end.

Record timestamps := Timestamps {
  createdAt : Z;
  updatedAt : option Z;
  deletedAt : option Z
}.

(** [Number((parseInt(timeCode, BASE) / PRECISION).toFixed(0))], range-checked. *)
Definition convertToMilliseconds (timeCode : jstr) : outcome Z :=
  let ms := n ← Num.parse_digits BASE timeCode;
            Num.to_fixed0 (Num.div (Num.of_Z (Z.of_N n)) (Num.of_Z PRECISION)) in
  match ms with
  | Some ms =>
      if (ms <? MIN_TIMESTAMP_MS)%Z || (MAX_TIMESTAMP_MS <? ms)%Z
      then Throw (Error (js "Invalid timestamp encoding")) else Ok ms
  | None => Throw (Error (js "Invalid timestamp encoding"))
  end.

Definition decodeTime (id : jstr) : outcome timestamps :=
  if negb (TTID_PATTERN id) then Throw (Error (js "Invalid Format!"))
  else
    let segments := split_on c_dash id in
    createdAt ← convertToMilliseconds (hd [] segments);
    updatedAt ← (match segments !! 1 with
                 | Some updated =>
                     if negb (jeqb updated []) && negb (jeqb updated PLACEHOLDER)
                     then Some <$> convertToMilliseconds updated else Ok None
                 | None => Ok None
                 end : outcome (option Z));
    deletedAt ← (match segments !! 2 with
                 | Some deleted =>
                     if negb (jeqb deleted []) then Some <$> convertToMilliseconds deleted
                     else Ok None
                 | None => Ok None
                 end : outcome (option Z));
    mret {| createdAt := createdAt; updatedAt := updatedAt; deletedAt := deletedAt |}.

(** [isTTID(id)]: the creation date in milliseconds, [None] for [null]. *)
Definition isTTID (id : jstr) : option Z :=
  if bool_decide (id = []) || (36 <? length id) then None
  else if negb (TTID_PATTERN id) then None
  else match decodeTime id with
       | Ok ts => Some (createdAt ts)
       | Throw _ => None
       end.

Definition is_ttid (id : jstr) : bool := bool_decide (is_Some (isTTID id)).

(** [generate(id, del)]; [time] is [timeNow().toString(BASE)], the host clock's reading as the
    host writes it (the reading is above 2^53, where the digits are the host's choice), and
    [None] stands for an omitted or empty [id]. *)
Definition generate (time : jstr) (id : option jstr) (del : bool) : outcome jstr :=
  match id with
  | Some id =>
      if is_ttid id then
        let segments := split_on c_dash id in
        let created := hd [] segments in
        if (length segments =? 3) then
          Throw (Error (js "This identifier can no longer be modified"))
        else if del then
          let updated := default PLACEHOLDER (segments !! 1) in
          Ok (to_upper (join_with [c_dash] [created; updated; time]))
        else Ok (to_upper (join_with [c_dash] [created; time]))
      else Throw (Error (js "Invalid TTID!"))
  | None => Ok (to_upper time)
  end.

(** [/^[0-9a-f]{8}-[0-9a-f]{4}-[0-9a-f]{4}-[0-9a-f]{4}-[0-9a-f]{12}$/i] *)
Definition UUID_PATTERN (id : jstr) : bool :=
  let segments := split_on c_dash id in
  bool_decide (map length segments = [8; 4; 4; 4; 12]) &&
  forallb (forallb (fun c => is_digit c || in_range 65 70 c || in_range 97 102 c)) segments.

(** [isUUID(id)]: the match, which is the whole text, and [None] for [null]. *)
Definition isUUID (id : jstr) : option jstr := if UUID_PATTERN id then Some id else None.

(** ** Facts *)

Definition is_id_char (c : N) : bool := is_alnum c || (c =? c_dash)%N.

Lemma join_chars l :
  Forall (fun s => forallb is_alnum s = true) l ->
  forallb is_id_char (join_with [c_dash] l) = true.
Proof.
  assert (forall s, forallb is_alnum s = true -> forallb is_id_char s = true) as Hs.
  { intros s. rewrite !forallb_forall. intros H x Hx. unfold is_id_char. by rewrite H. }
  induction 1 as [|a l Ha Hl IH]; [done|]. destruct l as [|b l]; [by apply Hs|].
  rewrite join_with_cons by done. rewrite !forallb_app, IH, (Hs a Ha). done.
Qed.

Lemma pattern_segments id :
  TTID_PATTERN id = true ->
  exists created rest, split_on c_dash id = created :: rest /\ length created = 11 /\
    length rest <= 2 /\ Forall (fun s => s <> [] /\ forallb is_alnum s = true) (created :: rest).
Proof.
  unfold TTID_PATTERN. destruct (split_on c_dash id) as [|created rest]; [done|].
  rewrite !andb_true_iff, Nat.eqb_eq, Nat.leb_le. intros [[[Hl Ha] Hr] Hall].
  exists created, rest. split_and!; [done|done|done|]. constructor.
  { split; [by destruct created|done]. }
  apply Forall_forall. intros s Hs. rewrite forallb_forall in Hall.
  apply list_elem_of_In, Hall in Hs. rewrite !andb_true_iff, Nat.leb_le in Hs.
  destruct Hs as [[H1 _] H2]. split; [|done]. destruct s; [simpl in *; lia|done].
Qed.

Lemma isTTID_pattern id t : isTTID id = Some t -> TTID_PATTERN id = true.
Proof. unfold isTTID. destruct (_ || _); [done|]. by destruct (TTID_PATTERN id). Qed.

Lemma isTTID_chars id t : isTTID id = Some t -> forallb is_id_char id = true.
Proof.
  intros H%isTTID_pattern. apply pattern_segments in H as (c & r & Hs & _ & _ & Hf).
  rewrite <- (join_split c_dash id), Hs. apply join_chars.
  eapply Forall_impl; [exact Hf|]. by intros ? [_ ?].
Qed.

Lemma is_id_char_bounds c :
  is_id_char c = true -> (c = 45 \/ 48 <= c <= 57 \/ 65 <= c <= 90 \/ 97 <= c <= 122)%N.
Proof.
  unfold is_id_char. rewrite orb_true_iff, N.eqb_eq. intros [H| ->]; [|by left].
  right. by apply Shard.is_alnum_bounds.
Qed.

Lemma isTTID_creationSegment id t :
  isTTID id = Some t ->
  exists created, Shard.creationSegment id = Ok created /\ length created = 11.
Proof.
  intros H%isTTID_pattern. apply pattern_segments in H as (c & r & Hs & Hl & _ & Hf).
  inversion_clear Hf as [|? ? [Hne Ha] _]. exists c. split; [|done].
  unfold Shard.creationSegment. rewrite Hs. simpl. rewrite bool_decide_false by done.
  by rewrite Ha.
Qed.

Lemma isTTID_createdAt id t :
  isTTID id = Some t -> exists ts, decodeTime id = Ok ts /\ createdAt ts = t.
Proof.
  unfold isTTID. destruct (_ || _); [done|]. destruct (negb _); [done|].
  destruct (decodeTime id) as [ts|]; [|done]. intros [= <-]. eauto.
Qed.

Lemma convert_range code ms :
  convertToMilliseconds code = Ok ms -> (MIN_TIMESTAMP_MS <= ms <= MAX_TIMESTAMP_MS)%Z.
Proof.
  unfold convertToMilliseconds. destruct (_ ≫= _) as [z|]; [|done].
  destruct (Z.ltb_spec z MIN_TIMESTAMP_MS); [done|].
  destruct (Z.ltb_spec MAX_TIMESTAMP_MS z); [done|]. simpl. intros [= <-]. lia.
Qed.

Lemma isTTID_range id t :
  isTTID id = Some t -> (MIN_TIMESTAMP_MS <= t <= MAX_TIMESTAMP_MS)%Z.
Proof.
  intros (ts & Hts & <-)%isTTID_createdAt. unfold decodeTime in Hts.
  destruct (negb _); [done|].
  destruct (convertToMilliseconds (hd [] _)) as [ms|] eqn:Hms; [|done].
  apply convert_range in Hms. simpl in Hts.
  destruct (match split_on c_dash id !! 1 with Some _ => _ | None => _ end); [|done].
  simpl in Hts.
  destruct (match split_on c_dash id !! 2 with Some _ => _ | None => _ end); [|done].
  simpl in Hts. by injection Hts as <-.
Qed.

Lemma isTTID_length id t : isTTID id = Some t -> 0 < length id <= 36.
Proof.
  unfold isTTID. case_bool_decide as Hid; [done|].
  destruct (Nat.ltb_spec 36 (length id)); [done|]. intros _.
  destruct id; [done|simpl in *; lia].
Qed.

Lemma json_name_clean id t : isTTID id = Some t -> Path.clean (id ++ js ".json").
Proof.
  intros H. pose proof (isTTID_chars id t H) as Hc. rewrite forallb_forall in Hc.
  assert (id <> []) as Hne by (intros ->; done).
  split_and!.
  - by destruct id.
  - intros Hd. destruct id as [|c id]; [done|]. simpl in Hd. injection Hd. by destruct id.
  - intros Hd. destruct id as [|c id]; [done|]. injection Hd as -> Hd.
    destruct id as [|c' id]; [done|]. injection Hd. by destruct id.
  - intros [Hin|Hin]%elem_of_app.
    + apply list_elem_of_In, Hc, is_id_char_bounds in Hin. unfold c_slash in Hin. lia.
    + revert Hin. change (c_slash ∉ js ".json"). by apply includes_char_false.
Qed.

Lemma to_upper_no_dash s : c_dash ∉ s -> c_dash ∉ to_upper s.
Proof.
  intros Hin (x & Hx & Hxs)%list_elem_of_fmap. unfold upper_char in Hx.
  destruct (is_lower x) eqn:El; [|congruence].
  unfold is_lower, in_range, c_dash in *. apply andb_true_iff in El as [?%N.leb_le ?%N.leb_le]. lia.
Qed.

Lemma digits_acc_elem base n acc m x :
  (base <> 0)%N -> x ∈ Num.digits_acc n base m acc ->
  x ∈ acc \/ exists d, (d < base)%N /\ x = Num.digit_char d.
Proof.
  intros Hb. revert acc m. induction n as [|n IH]; intros acc m Hin; simpl in Hin; [by left|].
  assert (x ∈ Num.digit_char (m mod base) :: acc ->
          x ∈ acc \/ exists d, (d < base)%N /\ x = Num.digit_char d) as Hc.
  { intros [->|?]%elem_of_cons; [|by left]. right. exists (m mod base)%N.
    split; [by apply N.mod_lt|done]. }
  destruct (_ =? 0)%N; [by apply Hc|]. apply IH in Hin as [?|?]; [by apply Hc|by right].
Qed.

Lemma digit_char_not_dash d : Num.digit_char d <> c_dash.
Proof. unfold Num.digit_char, c_dash. destruct (N.ltb_spec d 10); lia. Qed.

Lemma split_upper_joined a rest :
  Forall (fun s => c_dash ∉ s) (a :: rest) ->
  split_on c_dash (to_upper (join_with [c_dash] (a :: rest))) = map to_upper (a :: rest).
Proof.
  intros H. assert (forall l, to_upper (join_with [c_dash] l) = join_with [c_dash] (map to_upper l)) as ->.
  { induction l as [|x l IH]; [done|]. destruct l as [|y l]; [done|].
    rewrite join_with_cons by done. unfold to_upper at 1. rewrite !map_app.
    fold (to_upper (join_with [c_dash] (y :: l))). by rewrite IH. }
  apply split_join; [done|]. apply Forall_map. eapply Forall_impl; [exact H|].
  intros s. apply to_upper_no_dash.
Qed.

(** ** Properties *)

(** What [isTTID] accepts is one to three dash-separated alphanumeric runs, the first
    of eleven characters, at most 36 characters in all, holding no path separator or
    dot, and its creation time lies between 2020 and 2200. *)
Theorem isTTID_sound id t :
  isTTID id = Some t ->
  (MIN_TIMESTAMP_MS <= t <= MAX_TIMESTAMP_MS)%Z /\
  0 < length id <= 36 /\ TTID_PATTERN id = true /\
  (forall c, c ∈ id -> is_alnum c = true \/ c = c_dash) /\
  exists ts, decodeTime id = Ok ts /\ createdAt ts = t.
Proof.
  intros H. split; [by apply isTTID_range with id|].
  split; [by eapply isTTID_length|]. split; [by eapply isTTID_pattern|].
  split; [|by apply isTTID_createdAt].
  intros c Hc. pose proof (isTTID_chars id t H) as Hall. rewrite forallb_forall in Hall.
  apply list_elem_of_In, Hall in Hc. unfold is_id_char in Hc.
  apply orb_true_iff in Hc as [?|?%N.eqb_eq]; auto.
Qed.

Lemma isTTID_sound_witness :
  exists t, isTTID (js "4VLN5QUCDP0-X-4VLN5QUCDP9") = Some t /\
    (MIN_TIMESTAMP_MS <= t <= MAX_TIMESTAMP_MS)%Z.
Proof.
  eexists. split; [vm_compute; reflexivity|].
  apply (isTTID_sound (js "4VLN5QUCDP0-X-4VLN5QUCDP9")). vm_compute. reflexivity.
Defined.

(** Advancing or deleting an identifier keeps its creation segment (in capitals) as
    the first segment, and an identifier that already carries three segments is
    refused. *)
Theorem generate_lifecycle time id del out :
  c_dash ∉ time -> generate time (Some id) del = Ok out ->
  is_ttid id = true /\ length (split_on c_dash id) <> 3 /\
  exists rest, split_on c_dash out = to_upper (hd [] (split_on c_dash id)) :: rest /\
    length rest = if del then 2 else 1.
Proof.
  intros Hdig. unfold generate. destruct (is_ttid id) eqn:Hid; [|done].
  destruct (Nat.eqb_spec (length (split_on c_dash id)) 3) as [|Hn]; [done|].
  intros Hgen. split_and!; [done|done|].
  unfold is_ttid in Hid. apply bool_decide_eq_true in Hid as [t Ht].
  apply isTTID_pattern, pattern_segments in Ht as (created & rest & Hs & _ & _ & Hf).
  assert (Forall (fun s => c_dash ∉ s) (created :: rest)) as Hd.
  { rewrite <- Hs. apply Forall_forall. intros s. apply split_on_elem. }
  inversion Hd as [|? ? Hc Hr]; subst.
  rewrite Hs in Hgen |- *. cbn [hd]. destruct del; apply (inj Ok) in Hgen as <-;
    rewrite split_upper_joined; [by eexists| |by eexists|by repeat constructor].
  repeat constructor; try done. destruct rest as [|u rest]; simpl.
  - by apply includes_char_false.
  - by inversion_clear Hr.
Qed.

Lemma generate_lifecycle_witness :
  exists out, generate (js "4ndzw6p09a8") (Some (js "4VLN5QUCDP0")) true = Ok out /\
    length (split_on c_dash (js "4VLN5QUCDP0")) <> 3.
Proof.
  eexists. split; [vm_compute; reflexivity|].
  apply (generate_lifecycle (js "4ndzw6p09a8") (js "4VLN5QUCDP0") true
           (js "4VLN5QUCDP0-X-4NDZW6P09A8")); [by apply (bool_decide_unpack _); vm_compute|].
  vm_compute. reflexivity.
Defined.

Example generate_isTTID :
  fmap isTTID (generate (js "4ndzw6p09a8") None false) = Ok (Some 1700000000000%Z).
Proof. by vm_compute. Qed.

End TTID.
