(* ===== verification/JsValue.v ===== *)
(** JavaScript values of the shapes documents and queries hold, ordinary objects with
    their property order, the coercions of the language the sources use, and the
    null-prototype records of [src/query/safe-record.js]. *)

From Stdlib Require Import SpecFloat.
From S2P Require Import Prelude JsNum.

(** Plain data: what [structuredClone] and JSON carry.  An object is its own properties
    in the order [Object.keys] gives them. *)
Inductive value :=
| VUndef
| VNull
| VBool (b : bool)
| VNum (n : Num.num)
| VStr (s : jstr)
| VArr (l : list value)
| VObj (fields : list (jstr * value)).

Abbreviation object := (list (jstr * value)).

(** Induction that reaches through arrays and objects. *)
Section ValueInd.
  Context (P : value -> Prop).
  Hypothesis HUndef : P VUndef.
  Hypothesis HNull : P VNull.
  Hypothesis HBool : forall b, P (VBool b).
  Hypothesis HNum : forall n, P (VNum n).
  Hypothesis HStr : forall s, P (VStr s).
  Hypothesis HArr : forall l, Forall P l -> P (VArr l).
  Hypothesis HObj : forall o, Forall (fun kv => P (snd kv)) o -> P (VObj o).

Fixpoint value_rect' (v : value) : P v :=
    match v with
    | VUndef => HUndef
    | VNull => HNull
    | VBool b => HBool b
    | VNum n => HNum n
    | VStr s => HStr s
    | VArr l =>
        HArr l ((fix go (l : list value) : Forall P l :=
                   match l with
                   | [] => List.Forall_nil _
                   | x :: r => List.Forall_cons _ _ _ (value_rect' x) (go r)
                   end) l)
    | VObj o =>
        HObj o ((fix go (o : object) : Forall (fun kv => P (snd kv)) o :=
                   match o with
                   | [] => List.Forall_nil _
                   | kv :: r => List.Forall_cons _ _ _ (value_rect' (snd kv)) (go r)
                   end) o)
    end.
End ValueInd.

Fixpoint value_eqb (a b : value) {struct a} : bool :=
  match a, b with
  | VUndef, VUndef | VNull, VNull => true
  | VBool x, VBool y => Bool.eqb x y
  | VNum x, VNum y => bool_decide (x = y)
  | VStr x, VStr y => bool_decide (x = y)
  | VArr x, VArr y =>
      (fix go (x y : list value) :=
         match x, y with
         | [], [] => true
         | u :: x', v :: y' => value_eqb u v && go x' y'
         | _, _ => false
         end) x y
  | VObj x, VObj y =>
      (fix go (x y : object) :=
         match x, y with
         | [], [] => true
         | (k, u) :: x', (k', v) :: y' => bool_decide (k = k') && value_eqb u v && go x' y'
         | _, _ => false
         end) x y
  | _, _ => false
  end.

Lemma value_eqb_eq a b : value_eqb a b = true <-> a = b.
Proof.
  revert b. induction a as [| |x|x|x|l IH|o IH] using value_rect'; intros b;
    destruct b as [| |y|y|y|l'|o']; simpl; try done.
  - rewrite Bool.eqb_true_iff. split; congruence.
  - rewrite bool_decide_eq_true. split; congruence.
  - rewrite bool_decide_eq_true. split; congruence.
  - revert l'. induction IH as [|x l Hx Hl IHl]; intros [|y l']; try done.
    rewrite andb_true_iff, Hx, IHl. split; [intros [-> [= ->]]; done | by intros [= -> ->]].
  - revert o'. induction IH as [|[k x] l Hx Hl IHl]; intros [|[k' y] l']; try done.
    rewrite !andb_true_iff, Hx, IHl, bool_decide_eq_true.
    split; [intros [[-> Hy] [= ->]]; simpl in Hy; by subst | by intros [= -> -> ->]].
Qed.

#[export] Instance value_eq_dec : EqDecision value.
Proof.
  intros a b. destruct (value_eqb a b) eqn:E.
  - left. by apply value_eqb_eq.
  - right. intros H%value_eqb_eq. congruence.
Defined.

(** ** Property order *)

(** An integer index: a canonical decimal below [2^32 - 1]. *)
Definition array_index (k : jstr) : option N :=
  n ← Num.parse_digits 10 k;
  if bool_decide (Num.dec n = k) && (n <? 4294967295)%N then Some n else None.

(** Integer indices come first in ascending order, other keys in insertion order. *)
Definition key_before (k k' : jstr) : bool :=
  match array_index k, array_index k' with
  | Some a, Some b => (a <? b)%N
  | Some _, None => true
  | None, _ => false
  end.

Fixpoint insert_key {A} (k : jstr) (v : A) (o : list (jstr * A)) : list (jstr * A) :=
  match o with
  | [] => [(k, v)]
  | (k', v') :: r => if key_before k k' then (k, v) :: o else (k', v') :: insert_key k v r
  end.

(** [o[k] = v] on a record: in place when the key is there, else in key order. *)
Fixpoint replace_key {A} (k : jstr) (v : A) (o : list (jstr * A)) : list (jstr * A) :=
  match o with
  | [] => []
  | (k', v') :: r => if decide (k = k') then (k, v) :: r else (k', v') :: replace_key k v r
  end.

Definition obj_set {A} (k : jstr) (v : A) (o : list (jstr * A)) : list (jstr * A) :=
  match alist_get k o with
  | Some _ => replace_key k v o
  | None => insert_key k v o
  end.

(** [delete o[k]] *)
Definition obj_delete {A} (k : jstr) (o : list (jstr * A)) : list (jstr * A) := alist_remove k o.

(** [Object.hasOwn(o, k)] *)
Definition has_own {A} (k : jstr) (o : list (jstr * A)) : bool :=
  match alist_get k o with Some _ => true | None => false end.

(** [v[k]] on plain data; [undefined] where there is no such own property. *)
Definition prop (v : value) (k : jstr) : value :=
  match v with
  | VObj o => default VUndef (alist_get k o)
  | _ => VUndef
  end.

Definition keys {A} (o : list (jstr * A)) : list jstr := map fst o.

(** [{ ...a, ...b }], and [Object.assign(a, b)] *)
Definition obj_assign {A} (a b : list (jstr * A)) : list (jstr * A) :=
  fold_left (fun acc kv => obj_set (fst kv) (snd kv) acc) b a.

(** A property list an object can have: no key twice, keys in property order. *)
Fixpoint ordered_keys (ks : list jstr) : bool :=
  match ks with
  | [] => true
  | k :: r => forallb (fun k' => negb (jeqb k k') && negb (key_before k' k)) r && ordered_keys r
  end.

Module SafeRecord.

(** [safeRecord()] *)
Definition safeRecord {A} : list (jstr * A) := [].

(** [copySafeRecord(source)] *)
Definition copySafeRecord {A} (source : list (jstr * A)) : list (jstr * A) :=
  fold_left (fun target kv => obj_set (fst kv) (snd kv) target) source safeRecord.

(** [copySafeJson(value)] *)
Fixpoint copySafeJson (v : value) : value :=
  match v with
  | VArr l => VArr (map copySafeJson l)
  | VObj o =>
      VObj (fold_left (fun target kv => obj_set (fst kv) (snd kv) target)
              (map (fun kv => (fst kv, copySafeJson (snd kv))) o) safeRecord)
  | _ => v
  end.

End SafeRecord.

Export SafeRecord.

(** ** Coercions *)

(** [Boolean(v)] *)
Definition truthy (v : value) : bool :=
  match v with
  | VUndef | VNull => false
  | VBool b => b
  | VNum n => match n with S754_zero _ | S754_nan => false | _ => true end
  | VStr s => negb (jeqb s [])
  | VArr _ | VObj _ => true
  end.

Definition is_undef (v : value) : bool := match v with VUndef => true | _ => false end.
Definition is_nullish (v : value) : bool := match v with VUndef | VNull => true | _ => false end.
(** [typeof v === 'object' && v !== null] *)
Definition is_objectlike (v : value) : bool := match v with VArr _ | VObj _ => true | _ => false end.

(** [String(v)] *)
Fixpoint to_str (v : value) : jstr :=
  match v with
  | VUndef => js "undefined"
  | VNull => js "null"
  | VBool b => if b then js "true" else js "false"
  | VNum n => Num.to_string n
  | VStr s => s
  | VArr l => join_with (js ",") (map (fun x => if is_nullish x then [] else to_str x) l)
  | VObj _ => js "[object Object]"
  end.

(** [l.join(sep)] *)
Definition join_values (sep : jstr) (l : list value) : jstr :=
  join_with sep (map (fun x => if is_nullish x then [] else to_str x) l).

(** [Object.entries(v)]; the callers have excluded [undefined] and [null]. *)
Definition entries (v : value) : object :=
  match v with
  | VObj o => o
  | VArr l => imap (fun i x => (Num.dec_nat i, x)) l
  | VStr s => imap (fun i c => (Num.dec_nat i, VStr [c])) s
  | _ => []
  end.

(** [Array.isArray(v)] *)
Definition is_array (v : value) : bool := match v with VArr _ => true | _ => false end.

(** [Number(v)] *)
Definition to_num (v : value) : Num.num :=
  match v with
  | VUndef => Num.nan
  | VNull => Num.zero
  | VBool b => if b then Num.of_Z 1 else Num.zero
  | VNum n => n
  | VStr s => Num.of_string s
  | VArr _ | VObj _ => Num.of_string (to_str v)
  end.

(** [a === b] between a stored value and one that is never the same object. *)
Definition strict_eq (a b : value) : bool :=
  match a, b with
  | VUndef, VUndef | VNull, VNull => true
  | VBool x, VBool y => Bool.eqb x y
  | VNum x, VNum y => Num.eq x y
  | VStr x, VStr y => jeqb x y
  | _, _ => false
  end.

(** [a == b] on primitives. *)
Definition loose_prim (a b : value) : bool :=
  match a, b with
  | (VUndef | VNull), (VUndef | VNull) => true
  | (VUndef | VNull), _ | _, (VUndef | VNull) => false
  | VStr x, VStr y => jeqb x y
  | _, _ => Num.eq (to_num a) (to_num b)
  end.

(** [a == b]: an array or object meets a primitive through its string. *)
Definition loose_eq (a b : value) : bool :=
  match is_objectlike a, is_objectlike b with
  | true, true => false
  | true, false => if is_nullish b then false else loose_prim (VStr (to_str a)) b
  | false, true => if is_nullish a then false else loose_prim a (VStr (to_str b))
  | false, false => loose_prim a b
  end.

(** [a < b] and its kin, for two values of which one is a number. *)
Definition num_lt (a b : value) : bool := Num.lt (to_num a) (to_num b).
Definition num_le (a b : value) : bool := Num.le (to_num a) (to_num b).

Definition type_error (message : jstr) : js_error :=
  {| err_name := js "TypeError"; err_message := message; err_code := None |}.

(** ** Lemmas on objects *)

Lemma alist_get_Some {A} k (o : list (jstr * A)) v :
  alist_get k o = Some v -> (k, v) ∈ o.
Proof.
  induction o as [|[k' v'] o IH]; simpl; [done|].
  destruct (decide (k = k')) as [->|]; [intros [= ->]; by left|]. intros H. right. auto.
Qed.

Lemma alist_get_None {A} k (o : list (jstr * A)) : alist_get k o = None <-> k ∉ keys o.
Proof.
  induction o as [|[k' v'] o IH]; simpl; [split; [intros _; apply not_elem_of_nil|done]|].
  destruct (decide (k = k')) as [->|Hne].
  - split; [done|]. intros H. exfalso. apply H. by left.
  - rewrite IH, not_elem_of_cons. tauto.
Qed.

Lemma alist_get_insert_key {A} k k' (v : A) o :
  alist_get k' (insert_key k v o) =
    if decide (k' = k) then match alist_get k o with
                            | Some w => alist_get k (insert_key k v o)
                            | None => Some v
                            end
    else alist_get k' o.
Proof.
  induction o as [|[k1 v1] o IH]; simpl.
  - by destruct (decide (k' = k)) as [->|].
  - destruct (key_before k k1); simpl.
    + destruct (decide (k' = k)) as [->|]; [|done].
      destruct (decide (k = k)); [|done].
      destruct (decide (k = k1)); [done|]. by destruct (alist_get k o).
    + rewrite IH. destruct (decide (k' = k)) as [->|]; [|done].
      by destruct (decide (k = k1)).
Qed.

Lemma alist_get_replace_key {A} k k' (v : A) o :
  alist_get k' (replace_key k v o) =
    if decide (k' = k) then (fun _ => v) <$> alist_get k o else alist_get k' o.
Proof.
  induction o as [|[k1 v1] o IH]; simpl.
  - by destruct (decide (k' = k)).
  - destruct (decide (k = k1)) as [->|Hne]; simpl.
    + by destruct (decide (k' = k1)).
    + rewrite IH. destruct (decide (k' = k1)) as [->|].
      * destruct (decide (k1 = k)); [congruence|done].
      * done.
Qed.

Lemma alist_get_obj_set {A} k k' (v : A) o :
  alist_get k' (obj_set k v o) = if decide (k' = k) then Some v else alist_get k' o.
Proof.
  unfold obj_set. destruct (alist_get k o) eqn:E.
  - rewrite alist_get_replace_key. by rewrite E.
  - rewrite alist_get_insert_key. by rewrite E.
Qed.

Lemma alist_get_delete_ne {A} k k' (o : list (jstr * A)) :
  k <> k' -> alist_get k' (obj_delete k o) = alist_get k' o.
Proof.
  intros Hne. unfold obj_delete. induction o as [|[k1 v1] o IH]; simpl; [done|].
  destruct (decide (k = k1)) as [->|]; simpl.
  - by rewrite decide_False.
  - by rewrite IH.
Qed.

Lemma alist_get_delete_eq {A} k (o : list (jstr * A)) :
  NoDup (keys o) -> alist_get k (obj_delete k o) = None.
Proof.
  unfold obj_delete. induction o as [|[k1 v1] o IH]; simpl; [done|].
  intros [Hni Hnd]%NoDup_cons. destruct (decide (k = k1)) as [->|]; simpl.
  - by apply alist_get_None.
  - rewrite decide_False by done. auto.
Qed.

Lemma elem_of_keys_insert {A} k (v : A) o x : x ∈ keys (insert_key k v o) <-> x = k \/ x ∈ keys o.
Proof.
  induction o as [|[k1 v1] o IH]; simpl.
  - rewrite list_elem_of_singleton, elem_of_nil. tauto.
  - destruct (key_before k k1); simpl; rewrite !elem_of_cons; [tauto|]. rewrite IH. tauto.
Qed.

Lemma keys_replace {A} k (v : A) o : keys (replace_key k v o) = keys o.
Proof.
  induction o as [|[k1 v1] o IH]; simpl; [done|].
  destruct (decide (k = k1)) as [->|]; simpl; [done|]. by rewrite IH.
Qed.

Lemma NoDup_insert_key {A} k (v : A) o : k ∉ keys o -> NoDup (keys o) -> NoDup (keys (insert_key k v o)).
Proof.
  induction o as [|[k1 v1] o IH]; simpl; intros Hk Hnd; [apply NoDup_singleton|].
  apply not_elem_of_cons in Hk as [Hne Hk]. apply NoDup_cons in Hnd as [H1 H2].
  destruct (key_before k k1); simpl; apply NoDup_cons.
  - split; [by apply not_elem_of_cons|by apply NoDup_cons].
  - split; [|auto]. rewrite elem_of_keys_insert. intros [->|?]; done.
Qed.

Lemma NoDup_obj_set {A} k (v : A) o : NoDup (keys o) -> NoDup (keys (obj_set k v o)).
Proof.
  unfold obj_set. destruct (alist_get k o) eqn:E; intros H.
  - by rewrite keys_replace.
  - apply NoDup_insert_key; [|done]. by apply alist_get_None.
Qed.

Lemma ordered_keys_NoDup ks : ordered_keys ks = true -> NoDup ks.
Proof.
  induction ks as [|k ks IH]; simpl; [intros _; apply NoDup_nil_2|].
  intros [H1 H2]%andb_true_iff. apply NoDup_cons. split; [|auto].
  intros Hin. rewrite forallb_forall in H1. apply list_elem_of_In, H1 in Hin.
  apply andb_true_iff in Hin as [Hin _]. unfold jeqb in Hin. by rewrite bool_decide_true in Hin.
Qed.

Lemma ordered_keys_app_l ks ks' : ordered_keys (ks ++ ks') = true -> ordered_keys ks = true.
Proof.
  induction ks as [|k ks IH]; cbn [app ordered_keys]; [done|]. rewrite forallb_app, !andb_true_iff.
  intros [[Hk _] Ho]. split; [done|by apply IH].
Qed.

(** Appending a key that belongs last. *)
Lemma insert_key_last {A} k (v : A) o :
  forallb (fun k' => negb (key_before k k')) (keys o) = true -> insert_key k v o = o ++ [(k, v)].
Proof.
  induction o as [|[k1 v1] o IH]; simpl; [done|]. intros [H1 H2]%andb_true_iff.
  apply negb_true_iff in H1. rewrite H1. by rewrite IH.
Qed.

(** A key between the keys before it and the keys after it. *)
Lemma ordered_keys_mid ks k r :
  ordered_keys (ks ++ k :: r) = true ->
  k ∉ ks /\ forallb (fun k' => negb (key_before k k')) ks = true.
Proof.
  induction ks as [|k' ks IH]; simpl; [split; [apply not_elem_of_nil|done]|].
  intros [Ha Hb]%andb_true_iff. destruct (IH Hb) as [Hc Hd].
  rewrite forallb_app in Ha. simpl in Ha. rewrite !andb_true_iff in Ha.
  destruct Ha as [_ [[Hne Hbef] _]]. rewrite Hbef, Hd. split; [|done].
  apply not_elem_of_cons. split; [|done]. intros ->. unfold jeqb in Hne.
  by rewrite bool_decide_true in Hne.
Qed.

(** Setting the key that comes next in property order appends it. *)
Lemma obj_set_last {A} k (v : A) (acc r : list (jstr * A)) :
  ordered_keys (keys acc ++ k :: keys r) = true -> obj_set k v acc = acc ++ [(k, v)].
Proof.
  intros [Hni Hb]%ordered_keys_mid. unfold obj_set.
  assert (alist_get k acc = None) as -> by (by apply alist_get_None).
  by apply insert_key_last.
Qed.

(** Re-inserting an ordered object's properties one by one rebuilds it. *)
Lemma fold_obj_set_append {A} (o acc : list (jstr * A)) :
  ordered_keys (keys (acc ++ o)) = true ->
  fold_left (fun t kv => obj_set (fst kv) (snd kv) t) o acc = acc ++ o.
Proof.
  revert acc. induction o as [|[k v] o IH]; intros acc H; simpl; [by rewrite app_nil_r|].
  assert (obj_set k v acc = acc ++ [(k, v)]) as ->.
  { apply (obj_set_last k v acc o). unfold keys in *. by rewrite map_app in H. }
  rewrite IH; rewrite <- app_assoc; done.
Qed.

Lemma copySafeRecord_id {A} (o : list (jstr * A)) :
  ordered_keys (keys o) = true -> copySafeRecord o = o.
Proof. intros H. unfold copySafeRecord, safeRecord. by apply (fold_obj_set_append o []). Qed.

(** ** Setting a property keeps the property order *)

Lemma key_before_asym k k' : key_before k k' = true -> key_before k' k = false.
Proof.
  unfold key_before. destruct (array_index k) as [a|], (array_index k') as [b|]; try done. lia.
Qed.

Lemma key_before_trans a b c : key_before a b = true -> key_before b c = true -> key_before a c = true.
Proof.
  unfold key_before.
  destruct (array_index a) as [x|], (array_index b) as [y|], (array_index c) as [z|]; try done. lia.
Qed.


Lemma ordered_insert_key {A} k (v : A) o :
  k ∉ keys o -> ordered_keys (keys o) = true -> ordered_keys (keys (insert_key k v o)) = true.
Proof.
  induction o as [|[k1 v1] o IH]; intros Hk H; [done|]. cbn [keys map fst] in Hk.
  apply not_elem_of_cons in Hk as [Hne Hk].
  cbn [insert_key]. pose proof H as H0. cbn in H. apply andb_true_iff in H as [H1 H2].
  destruct (key_before k k1) eqn:Eb.
  - change (keys ((k, v) :: (k1, v1) :: o)) with (k :: keys ((k1, v1) :: o)).
    cbn [ordered_keys]. rewrite H0, andb_true_r. apply forallb_forall.
    intros x [<-|Hx].
    + cbn. rewrite (key_before_asym _ _ Eb), jeqb_neq; done.
    + rewrite forallb_forall in H1. pose proof (H1 x Hx) as Hx'.
      apply andb_true_iff in Hx' as [_ Hx']. apply negb_true_iff in Hx'.
      rewrite jeqb_neq; [|intros ->; apply Hk; by apply list_elem_of_In].
      destruct (key_before x k) eqn:E; [|done].
      by rewrite (key_before_trans _ _ _ E Eb) in Hx'.
  - change (keys ((k1, v1) :: insert_key k v o)) with (k1 :: keys (insert_key k v o)).
    cbn [ordered_keys]. rewrite IH by done. rewrite andb_true_r. apply forallb_forall.
    intros x Hx%list_elem_of_In. apply elem_of_keys_insert in Hx as [->|Hx].
    + rewrite Eb, jeqb_neq; done.
    + rewrite forallb_forall in H1. apply H1. by apply list_elem_of_In.
Qed.

Lemma ordered_obj_set {A} k (v : A) o :
  ordered_keys (keys o) = true -> ordered_keys (keys (obj_set k v o)) = true.
Proof.
  unfold obj_set. destruct (alist_get k o) eqn:E; [by rewrite keys_replace|].
  apply ordered_insert_key. by apply alist_get_None.
Qed.

Lemma replace_insert_key {A} k (v w : A) o :
  k ∉ keys o -> replace_key k v (insert_key k w o) = insert_key k v o.
Proof.
  induction o as [|[k1 v1] o IH]; intros Hk; cbn [insert_key replace_key].
  - by rewrite decide_True.
  - cbn [keys map fst] in Hk. apply not_elem_of_cons in Hk as [Hne Hk].
    destruct (key_before k k1); cbn [replace_key].
    + by rewrite decide_True.
    + rewrite decide_False by done. by rewrite IH.
Qed.

Lemma replace_replace_key {A} k (v w : A) o : replace_key k v (replace_key k w o) = replace_key k v o.
Proof.
  induction o as [|[k1 v1] o IH]; cbn [replace_key]; [done|].
  destruct (decide (k = k1)) as [->|]; cbn [replace_key].
  - by rewrite decide_True.
  - rewrite decide_False by done. by rewrite IH.
Qed.

Lemma obj_set_set {A} k (v w : A) o : obj_set k v (obj_set k w o) = obj_set k v o.
Proof.
  unfold obj_set at 1. rewrite alist_get_obj_set, decide_True by done.
  unfold obj_set. destruct (alist_get k o) eqn:E.
  - apply replace_replace_key.
  - apply replace_insert_key. by apply alist_get_None.
Qed.

(** A predicate on properties that holds of the old ones and the new one. *)
Lemma Forall_obj_set {A} (T : jstr * A -> Prop) k v o :
  T (k, v) -> Forall T o -> Forall T (obj_set k v o).
Proof.
  intros Hk Ho. unfold obj_set. destruct (alist_get k o) as [w|]; clear w || idtac.
  - induction Ho as [|[k1 v1] o H1 Ho IH]; simpl; [constructor|].
    destruct (decide (k = k1)) as [->|]; by constructor.
  - induction Ho as [|[k1 v1] o H1 Ho IH]; simpl; [by repeat constructor|].
    destruct (key_before k k1); repeat constructor; done.
Qed.

Lemma has_own_keys {A} k (o : list (jstr * A)) : has_own k o = true <-> k ∈ keys o.
Proof.
  unfold has_own. destruct (alist_get k o) eqn:E.
  - split; [|done]. intros _. destruct (decide (k ∈ keys o)) as [|Hn]; [done|].
    apply alist_get_None in Hn. congruence.
  - split; [done|]. intros H. by apply alist_get_None in E.
Qed.

Lemma has_own_obj_set {A} k k' (v : A) o :
  has_own k' (obj_set k v o) = bool_decide (k' = k) || has_own k' o.
Proof.
  unfold has_own. rewrite alist_get_obj_set. by destruct (decide (k' = k)); case_bool_decide.
Qed.

(** ** Well-formed values *)

(** Every object inside has an ordered property list. *)
Fixpoint wf_value (v : value) : bool :=
  match v with
  | VArr l => forallb wf_value l
  | VObj o => ordered_keys (keys o) && forallb (fun kv => wf_value (snd kv)) o
  | _ => true
  end.

Lemma copySafeJson_wf v : wf_value v = true -> copySafeJson v = v.
Proof.
  induction v as [| |b|n|s|l IH|o IH] using value_rect'; simpl; try done.
  - intros H. f_equal. induction IH as [|x l Hx _ IHl]; simpl in *; [done|].
    apply andb_true_iff in H as [H1 H2]. by rewrite Hx, IHl.
  - intros [H1 H2]%andb_true_iff. f_equal.
    assert (map (fun kv => (fst kv, copySafeJson (snd kv))) o = o) as ->.
    { clear H1. induction IH as [|[k x] l Hx _ IHl]; simpl in *; [done|].
      apply andb_true_iff in H2 as [Ha Hb]. by rewrite Hx, IHl. }
    by apply (fold_obj_set_append o []).
Qed.

(** Copying a well-formed value into null-prototype records changes no data. *)
Theorem copySafeJson_id v : wf_value v = true -> copySafeJson v = v.
Proof. apply copySafeJson_wf. Qed.

Lemma copySafeJson_id_witness :
  let v := VObj [(js "7", VArr [VNull; VObj [(js "__proto__", VBool true)]]); (js "a", VStr (js "x"))] in
  wf_value v = true /\ copySafeJson v = v.
Proof.
  split; [by vm_compute|].
  apply (copySafeJson_id (VObj [(js "7", VArr [VNull; VObj [(js "__proto__", VBool true)]]);
                                (js "a", VStr (js "x"))])). by vm_compute.
Defined.
