(* ===== verification/Lexer.v ===== *)
(** The SQL lexer of [src/query/parser.js] (class [SQLLexer]): input characters to
    tokens.  The lexer's [input]/[position]/[current] are the unread suffix of the
    input and its offset. *)

From S2P Require Import Prelude.

Module Lexer.

Inductive TokenType :=
| CREATE | DROP | SELECT | FROM | WHERE | INSERT | INTO | VALUES | UPDATE | SET
| DELETE | JOIN | INNER | LEFT | RIGHT | OUTER | ON | GROUP | BY | ORDER | LIMIT
| AS | AND | OR | EQUALS | NOT_EQUALS | GREATER_THAN | LESS_THAN | GREATER_EQUAL
| LESS_EQUAL | LIKE | IDENTIFIER | STRING | NUMBER | BOOLEAN | NULL | COMMA
| SEMICOLON | LPAREN | RPAREN | ASTERISK | EOF.

#[export] Instance TokenType_eq_dec : EqDecision TokenType.
Proof. solve_decision. Defined.

(** The string each member of the enumeration stands for. *)
Definition type_text (t : TokenType) : jstr :=
  js match t with
  | CREATE => "CREATE" | DROP => "DROP" | SELECT => "SELECT" | FROM => "FROM"
  | WHERE => "WHERE" | INSERT => "INSERT" | INTO => "INTO" | VALUES => "VALUES"
  | UPDATE => "UPDATE" | SET => "SET" | DELETE => "DELETE" | JOIN => "JOIN"
  | INNER => "INNER" | LEFT => "LEFT" | RIGHT => "RIGHT" | OUTER => "OUTER"
  | ON => "ON" | GROUP => "GROUP" | BY => "BY" | ORDER => "ORDER" | LIMIT => "LIMIT"
  | AS => "AS" | AND => "AND" | OR => "OR" | EQUALS => "=" | NOT_EQUALS => "!="
  | GREATER_THAN => ">" | LESS_THAN => "<" | GREATER_EQUAL => ">=" | LESS_EQUAL => "<="
  | LIKE => "LIKE" | IDENTIFIER => "IDENTIFIER" | STRING => "STRING"
  | NUMBER => "NUMBER" | BOOLEAN => "BOOLEAN" | NULL => "NULL" | COMMA => ","
  | SEMICOLON => ";" | LPAREN => "(" | RPAREN => ")" | ASTERISK => "*" | EOF => "EOF"
  end.

Record Token := mkToken { type : TokenType; text : jstr; position : Z }.

Definition SINGLE_CHARACTER_TOKENS (c : N) : option TokenType :=
  match c with
  | 61 => Some EQUALS
  | 44 => Some COMMA
  | 59 => Some SEMICOLON
  | 40 => Some LPAREN
  | 41 => Some RPAREN
  | 42 => Some ASTERISK
  | _ => None
  end%N.

(** [(withEquals, alone)] *)
Definition COMPARISON_TOKENS (c : N) : option (TokenType * option TokenType) :=
  match c with
  | 62 => Some (GREATER_EQUAL, Some GREATER_THAN)
  | 60 => Some (LESS_EQUAL, Some LESS_THAN)
  | 33 => Some (NOT_EQUALS, None)
  | _ => None
  end%N.

(** The unread input and the offset of its first character. *)
Record state := State { rest : jstr; offset : Z }.

Definition init (input : jstr) : state := {| rest := trim input; offset := 0 |}.

Definition current (st : state) : option N := head (rest st).

(** Consuming the first [n] characters. *)
Definition advance (n : nat) (st : state) : state :=
  {| rest := drop n (rest st); offset := offset st + Z.of_nat n |}.

(** Consuming everything but [r], a suffix of the unread input. *)
Definition advance_to (r : jstr) (st : state) : state :=
  {| rest := r; offset := offset st + Z.of_nat (length (rest st) - length r) |}.

Definition skipWhitespace (st : state) : state :=
  advance_to (drop_while is_space (rest st)) st.

(** After the opening quote: the characters up to the closing one, a doubled quote
    standing for one, and what follows the closing quote (nothing, when the string
    is not closed). *)
Fixpoint read_quoted (quote : N) (s : jstr) : jstr * jstr :=
  match s with
  | [] => ([], [])
  | c :: r =>
      if (c =? quote)%N then
        match r with
        | c' :: r' =>
            if (c' =? quote)%N
            then let '(value, after) := read_quoted quote r' in (quote :: value, after)
            else ([], r)
        | [] => ([], r)
        end
      else let '(value, after) := read_quoted quote r in (c :: value, after)
  end.

Definition readString (quote : N) (st : state) : jstr * state :=
  let '(value, after) := read_quoted quote (tail (rest st)) in
  (value, advance_to after st).

Definition is_number_char (c : N) : bool := is_digit c || (c =? 46)%N.
Definition is_word_start (c : N) : bool := is_alpha c || (c =? 95)%N.
Definition is_word_char (c : N) : bool := is_alnum c || (c =? 95)%N || (c =? 45)%N.

Definition readNumber (st : state) : jstr * state :=
  (take_while is_number_char (rest st), advance_to (drop_while is_number_char (rest st)) st).

Definition readIdentifier (st : state) : jstr * state :=
  (take_while is_word_char (rest st), advance_to (drop_while is_word_char (rest st)) st).

Definition keywords : list (jstr * TokenType) :=
  map (fun t => (type_text t, t))
    [SELECT; FROM; WHERE; INSERT; INTO; VALUES; UPDATE; SET; DELETE; JOIN; INNER; LEFT;
     RIGHT; OUTER; ON; GROUP; BY; ORDER; LIMIT; AS; AND; OR; LIKE] ++
  [(js "TRUE", BOOLEAN); (js "FALSE", BOOLEAN); (js "NULL", NULL)].

Definition getKeywordType (word : jstr) : TokenType :=
  default IDENTIFIER (alist_get (to_upper word) keywords).

(** The [while] loop that folds [.name] into [/name]. *)
Fixpoint fold_dots (fuel : nat) (value : jstr) (st : state) : jstr * state :=
  match fuel, rest st with
  | S f, d :: c :: _ =>
      if (d =? 46)%N && is_word_start c then
        let '(name, st') := readIdentifier (advance 1 st) in
        fold_dots f (value ++ 47%N :: name) st'
      else (value, st)
  | _, _ => (value, st)
  end.

Definition readIdentifierToken (position : Z) (st : state) : Token * state :=
  let '(value, st1) := readIdentifier st in
  let '(value', st2) := fold_dots (length (rest st1)) value st1 in
  (mkToken (getKeywordType value') value' position, st2).

Definition readOperatorToken (position : Z) (character : N) (st : state)
    : option Token * state :=
  match COMPARISON_TOKENS character with
  | Some (withEquals, alone) =>
      if bool_decide (rest st !! 1 = Some 61%N)
      then (Some (mkToken withEquals [character; 61%N] position), advance 2 st)
      else ((fun t => mkToken t [character] position) <$> alone, advance 1 st)
  | None =>
      ((fun t => mkToken t [character] position) <$> SINGLE_CHARACTER_TOKENS character,
       advance 1 st)
  end.

(** One turn of [tokenize] at a character that is not white space. *)
Definition next_token (c : N) (st : state) : option Token * state :=
  let position := offset st in
  if (c =? 39)%N || (c =? 34)%N then
    let '(value, st') := readString c st in (Some (mkToken STRING value position), st')
  else if is_digit c then
    let '(value, st') := readNumber st in (Some (mkToken NUMBER value position), st')
  else if is_word_start c then
    let '(t, st') := readIdentifierToken position st in (Some t, st')
  else readOperatorToken position c st.

(** The loop of [tokenize]; [None] is out of fuel. *)
Fixpoint tokenize_loop (fuel : nat) (st : state) : option (list Token) :=
  let st := skipWhitespace st in
  match current st with
  | None => Some [mkToken EOF [] (offset st)]
  | Some c =>
      match fuel with
      | O => None
      | S f =>
          let '(t, st') := next_token c st in
          ts ← tokenize_loop f st';
          Some (option_list t ++ ts)
      end
  end.

Definition tokenize_from (st : state) : option (list Token) :=
  tokenize_loop (length (rest st)) st.

(** [new SQLLexer(sql).tokenize()] *)
Definition tokenize (sql : jstr) : list Token := default [] (tokenize_from (init sql)).

(** ** Every turn consumes input *)

Lemma read_quoted_length quote s : length (read_quoted quote s).2 <= length s.
Proof.
  assert (forall n s, length s <= n -> length (read_quoted quote s).2 <= length s) as H.
  { induction n as [|n IH]; intros [|c r] Hn; simpl in *; try lia.
    destruct (c =? quote)%N.
    - destruct r as [|c' r']; simpl; [lia|]. destruct (c' =? quote)%N; simpl; [|lia].
      specialize (IH r'). destruct (read_quoted quote r'). simpl in *. lia.
    - specialize (IH r). destruct (read_quoted quote r). simpl in *. lia. }
  by eapply H.
Qed.

Lemma fold_dots_length f value st : length (rest (fold_dots f value st).2) <= length (rest st).
Proof.
  revert value st. induction f as [|f IH]; intros value [s p]; simpl; [done|].
  destruct s as [|d [|c r]]; simpl; [done..|].
  destruct (_ && _); simpl; [|done].
  etransitivity; [apply IH|]. simpl.
  destruct (is_word_char c); simpl; [|lia].
  pose proof (drop_while_length is_word_char r). lia.
Qed.

Lemma next_token_consumes c st r :
  rest st = c :: r -> length (rest (next_token c st).2) < length (rest st).
Proof.
  intros E. unfold next_token. rewrite E. simpl length.
  destruct ((c =? 39)%N || (c =? 34)%N).
  { unfold readString. rewrite E. simpl. pose proof (read_quoted_length c r).
    destruct (read_quoted c r). simpl in *. lia. }
  destruct (is_digit c) eqn:Hd.
  { unfold readNumber. simpl. rewrite E. simpl. unfold is_number_char at 1. rewrite Hd. simpl.
    pose proof (drop_while_length is_number_char r). lia. }
  destruct (is_word_start c) eqn:Hw.
  { unfold readIdentifierToken, readIdentifier. simpl. rewrite E.
    assert (is_word_char c = true) as Hc.
    { unfold is_word_char, is_word_start, is_alnum in *.
      apply orb_true_iff in Hw as [->| ->]; by rewrite ?orb_true_r. }
    simpl. rewrite Hc.
    match goal with |- context [fold_dots ?f ?v ?s] =>
      pose proof (fold_dots_length f v s) as Hl; destruct (fold_dots f v s) end.
    simpl in *. pose proof (drop_while_length is_word_char r). lia. }
  unfold readOperatorToken. destruct (COMPARISON_TOKENS c) as [[w a]|].
  - case_bool_decide; simpl; rewrite E, length_drop; simpl; lia.
  - simpl. rewrite E, length_drop; simpl; lia.
Qed.

Arguments skipWhitespace : simpl never.
Arguments next_token : simpl never.

Lemma skipWhitespace_length st : length (rest (skipWhitespace st)) <= length (rest st).
Proof. apply drop_while_length. Qed.

Lemma next_token_not_eof c st t : (next_token c st).1 = Some t -> type t <> EOF.
Proof.
  unfold next_token.
  destruct (_ || _); [destruct (readString _ _); by intros [= <-]|].
  destruct (is_digit c); [by intros [= <-]|].
  destruct (is_word_start c).
  - unfold readIdentifierToken, readIdentifier.
    destruct (fold_dots _ _ _) as [v s]. intros [= <-]. simpl. unfold getKeywordType.
    destruct (alist_get _ keywords) as [k|] eqn:Ek; simpl; [|done].
    intros ->. revert Ek. unfold keywords. simpl.
    repeat (destruct (decide _); [done|]). done.
  - unfold readOperatorToken, COMPARISON_TOKENS, SINGLE_CHARACTER_TOKENS.
    repeat case_match; simplify_eq/=; try done; by intros [= <-].
Qed.

Lemma tokenize_loop_eq fuel st :
  tokenize_loop fuel st =
    match rest (skipWhitespace st), fuel with
    | [], _ => Some [mkToken EOF [] (offset (skipWhitespace st))]
    | _ :: _, O => None
    | c :: _, S f =>
        let '(t, st') := next_token c (skipWhitespace st) in
        ts ← tokenize_loop f st'; Some (option_list t ++ ts)
    end.
Proof.
  destruct fuel; cbn [tokenize_loop]; unfold current;
    by destruct (rest (skipWhitespace st)).
Qed.

Lemma tokenize_loop_total fuel st :
  length (rest st) <= fuel ->
  exists ts eof, tokenize_loop fuel st = Some (ts ++ [eof]) /\ type eof = EOF /\
    length ts <= length (rest st) /\ Forall (fun t => type t <> EOF) ts.
Proof.
  revert st. induction fuel as [|f IH]; intros st Hf; rewrite tokenize_loop_eq;
    pose proof (skipWhitespace_length st) as Hs;
    destruct (rest (skipWhitespace st)) as [|c r] eqn:E; cbn [length] in Hs.
  1, 3: exists [], (mkToken EOF [] (offset (skipWhitespace st))); split_and!;
    [done|done|simpl; lia|constructor].
  - lia.
  - pose proof (next_token_consumes c (skipWhitespace st) r E) as Hc. rewrite E in Hc.
    cbn [length] in Hc.
    pose proof (next_token_not_eof c (skipWhitespace st)) as Ht.
    destruct (next_token c (skipWhitespace st)) as [t st'] eqn:En. cbn [fst snd] in *.
    destruct (IH st') as (ts & eof & -> & Heof & Hlen & Hall); [lia|].
    exists (option_list t ++ ts), eof. cbn. rewrite app_assoc. split_and!; [done|done| |].
    + rewrite length_app. destruct t; simpl; lia.
    + apply Forall_app. split; [|done]. destruct t as [t|]; simpl; [|constructor].
      constructor; [by apply Ht|constructor].
Qed.

(** ** Lexing as an equation on the unread input *)

(** The tokens of the unread input, the loop given the fuel it needs. *)
Definition lex (st : state) : list Token := default [] (tokenize_from st).

Lemma tokenize_loop_fuel f f' st ts :
  tokenize_loop f st = Some ts -> f <= f' -> tokenize_loop f' st = Some ts.
Proof.
  revert f' st ts. induction f as [|f IH]; intros f' st ts; rewrite !tokenize_loop_eq;
    destruct (rest (skipWhitespace st)) as [|c r]; try done.
  destruct f' as [|f']; [lia|]. destruct (next_token _ _) as [t st'].
  destruct (tokenize_loop f st') as [ts'|] eqn:E; [|done]. intros H Hle.
  rewrite (IH f' st' ts') by (done || lia). done.
Qed.

Lemma lex_some f st : length (rest st) <= f -> tokenize_loop f st = Some (lex st).
Proof.
  intros Hf. unfold lex, tokenize_from.
  destruct (tokenize_loop_total (length (rest st)) st) as (ts & eof & H & _); [done|].
  rewrite H. by apply (tokenize_loop_fuel _ _ _ _ H).
Qed.

Lemma lex_eq st :
  lex st =
    match rest (skipWhitespace st) with
    | [] => [mkToken EOF [] (offset (skipWhitespace st))]
    | c :: _ => option_list (next_token c (skipWhitespace st)).1 ++
                lex (next_token c (skipWhitespace st)).2
    end.
Proof.
  pose proof (lex_some (S (length (rest st))) st ltac:(lia)) as H.
  rewrite tokenize_loop_eq in H. pose proof (skipWhitespace_length st) as Hs.
  destruct (rest (skipWhitespace st)) as [|c r] eqn:E; [by injection H|].
  pose proof (next_token_consumes c _ r E) as Hc. rewrite E in Hc. cbn [length] in Hc, Hs.
  destruct (next_token c (skipWhitespace st)) as [t st']. cbn [fst snd] in *.
  rewrite lex_some in H by lia. by injection H.
Qed.

Lemma tokenize_lex sql : tokenize sql = lex (init sql).
Proof. reflexivity. Qed.

(** A token without its position. *)
Definition shape (ts : list Token) : list (TokenType * jstr) :=
  map (fun t => (type t, text t)) ts.

(** One turn, positions forgotten. *)
Definition turn (s : jstr) : option (TokenType * jstr) * jstr :=
  match s with
  | [] => (None, [])
  | c :: _ =>
      let '(t, st) := next_token c (State s 0) in
      ((fun t => (type t, text t)) <$> t, rest st)
  end.

Lemma fold_dots_offset f v s p q :
  (fold_dots f v (State s p)).1 = (fold_dots f v (State s q)).1 /\
  rest (fold_dots f v (State s p)).2 = rest (fold_dots f v (State s q)).2.
Proof.
  revert v s p q. induction f as [|f IH]; intros v s p q; simpl; [done|].
  destruct s as [|d [|c r]]; simpl; [done..|]. destruct (_ && _); [|done]. apply IH.
Qed.

Lemma next_token_offset c s p :
  ((fun t => (type t, text t)) <$> (next_token c (State s p)).1, rest (next_token c (State s p)).2)
  = ((fun t => (type t, text t)) <$> (next_token c (State s 0)).1, rest (next_token c (State s 0)).2).
Proof.
  unfold next_token.
  destruct (_ || _).
  { unfold readString. simpl. by destruct (read_quoted c (tail s)). }
  destruct (is_digit c); [done|].
  destruct (is_word_start c).
  - unfold readIdentifierToken, readIdentifier. simpl.
    match goal with |- context [fold_dots ?f ?v (advance_to ?r (State _ p))] =>
      destruct (fold_dots_offset f v r (offset (advance_to r (State s p)))
                  (offset (advance_to r (State s 0)))) as [H1 H2] end.
    unfold advance_to in *. simpl in *. 
    repeat match goal with |- context [fold_dots ?f ?v ?s] => destruct (fold_dots f v s) end.
    cbn in *. by rewrite H1, H2.
  - unfold readOperatorToken. simpl. destruct (COMPARISON_TOKENS c) as [[w a]|]; simpl.
    + case_bool_decide; [done|]. by destruct a.
    + by destruct (SINGLE_CHARACTER_TOKENS c).
Qed.

Lemma step_offset c s p q :
  (forall p' q', shape (lex (State (rest (next_token c (State s 0)).2) p')) =
            shape (lex (State (rest (next_token c (State s 0)).2) q'))) ->
  shape (option_list (next_token c (State s p)).1 ++ lex (next_token c (State s p)).2) =
  shape (option_list (next_token c (State s q)).1 ++ lex (next_token c (State s q)).2).
Proof.
  intros IH. pose proof (next_token_offset c s p) as Ha. pose proof (next_token_offset c s q) as Hb.
  destruct (next_token c (State s p)) as [ta [sa pa]], (next_token c (State s q)) as [tb [sb pb]],
    (next_token c (State s 0)) as [t0 [s0 p0]].
  cbn [fst snd rest] in *. injection Ha as Ha ->. injection Hb as Hb ->.
  unfold shape in *. rewrite !map_app. f_equal; [|apply IH].
  destruct ta, tb, t0; simpl in *; congruence.
Qed.

Lemma lex_offset s p q : shape (lex (State s p)) = shape (lex (State s q)).
Proof.
  assert (forall n s p q, length s <= n ->
    shape (lex (State s p)) = shape (lex (State s q))) as H; [|by eapply H].
  clear. induction n as [|n IH]; intros s p q Hn;
    rewrite (lex_eq (State s p)), (lex_eq (State s q)); unfold skipWhitespace, advance_to;
    cbn [rest offset]; pose proof (drop_while_length is_space s) as Hs;
    destruct (drop_while is_space s) as [|c r] eqn:E; try done; cbn [length] in Hs; [lia|].
  apply step_offset. intros p' q'. apply IH.
  pose proof (next_token_consumes c (State (c :: r) 0) r eq_refl) as Hc.
  cbn [length rest] in *. lia.
Qed.

(** The tokens of a text, positions forgotten. *)
Definition lexed (s : jstr) : list (TokenType * jstr) := shape (lex (State s 0)).

Lemma lexed_nil : lexed [] = [(EOF, [])].
Proof. reflexivity. Qed.

Lemma lexed_space c s : is_space c = true -> lexed (c :: s) = lexed s.
Proof.
  intros Hc. unfold lexed. rewrite (lex_eq (State (c :: s) 0)), (lex_eq (State s 0)).
  unfold skipWhitespace, advance_to. cbn [rest offset drop_while]. rewrite Hc.
  destruct (drop_while is_space s) as [|d r]; [done|].
  apply step_offset. intros p' q'. apply lex_offset.
Qed.

(** One turn on a text that starts with a token. *)
Lemma lexed_turn c s t s' :
  is_space c = false -> turn (c :: s) = (t, s') -> lexed (c :: s) = option_list t ++ lexed s'.
Proof.
  intros Hc Ht. unfold lexed. rewrite (lex_eq (State (c :: s) 0)).
  unfold skipWhitespace, advance_to. cbn [rest drop_while]. rewrite Hc. cbn [offset].
  rewrite Nat.sub_diag. change (0 + Z.of_nat 0)%Z with 0%Z.
  unfold turn in Ht. destruct (next_token c (State (c :: s) 0)) as [tk [r p]].
  injection Ht as <- <-. cbn [fst snd rest]. unfold shape. rewrite map_app.
  f_equal; [by destruct tk|]. apply lex_offset.
Qed.

(** ** The tokens of a text, piece by piece *)

Lemma read_quoted_escaped q v s :
  head s <> Some q -> read_quoted q (replace_char q [q; q] v ++ q :: s) = (v, s).
Proof.
  intros Hs. induction v as [|x v IH]; cbn [replace_char flat_map app].
  - cbn [read_quoted]. rewrite N.eqb_refl. destruct s as [|y s]; [done|].
    destruct (N.eqb_spec y q) as [->|]; [done|reflexivity].
  - fold (replace_char q [q; q] v). destruct (N.eqb_spec x q) as [->|Hne]; cbn [app read_quoted].
    + rewrite N.eqb_refl, IH. reflexivity.
    + rewrite IH. by rewrite (proj2 (N.eqb_neq x q) Hne).
Qed.

Lemma lexed_quoted v s :
  head s <> Some 39%N ->
  lexed (39%N :: replace_char 39 [39; 39]%N v ++ 39%N :: s) = (STRING, v) :: lexed s.
Proof.
  intros Hs. rewrite (lexed_turn _ _ (Some (STRING, v)) s); [done|done|].
  unfold turn, next_token, readString. cbn [rest tail]. by rewrite (read_quoted_escaped 39%N v s Hs).
Qed.

Lemma take_drop_while_app f (a s : jstr) :
  forallb f a = true -> match s with c :: _ => f c = false | [] => True end ->
  take_while f (a ++ s) = a /\ drop_while f (a ++ s) = s.
Proof.
  intros Ha Hs. induction a as [|x a IH]; simpl in *.
  - destruct s as [|c s]; simpl; [done|]. by rewrite Hs.
  - apply andb_true_iff in Ha as [-> Ha]. by destruct (IH Ha) as [-> ->].
Qed.

(** A word and what may follow it for the word to end there. *)
Definition word (w : jstr) : bool :=
  match w with c :: _ => is_word_start c && forallb is_word_char w | [] => false end.
Definition word_end (s : jstr) : bool :=
  match s with c :: _ => negb (is_word_char c || (c =? 46)%N) | [] => true end.

Lemma word_start_class c :
  is_word_start c = true ->
  is_space c = false /\ ((c =? 39)%N || (c =? 34)%N = false) /\ is_digit c = false.
Proof.
  unfold is_word_start, is_alpha, is_upper, is_lower, is_space, is_digit, in_range.
  intros H. assert (65 <= c <= 122)%N as Hc by lia.
  split_and!; lia.
Qed.

Lemma lexed_word w s :
  word w = true -> word_end s = true -> lexed (w ++ s) = (getKeywordType w, w) :: lexed s.
Proof.
  intros Hw Hs. destruct w as [|c w]; [done|]. simpl in Hw.
  apply andb_true_iff in Hw as [Hc Hw].
  destruct (word_start_class c Hc) as (Hsp & Hq & Hd).
  destruct (take_drop_while_app is_word_char (c :: w) s) as [Ht Hr]; [done| |].
  { destruct s; simpl in *; [done|]. by apply negb_true_iff, orb_false_iff in Hs as [-> _]. }
  cbn [app]. rewrite (lexed_turn _ _ (Some (getKeywordType (c :: w), c :: w)) s); [done|done|].
  unfold turn, next_token. rewrite Hq, Hd, Hc. unfold readIdentifierToken, readIdentifier, advance_to.
  cbn [rest offset]. cbn [app] in Ht, Hr. rewrite Ht, Hr.
  assert (forall f v p, fold_dots f v (State s p) = (v, State s p)) as ->; [|done].
  intros f v p. destruct f as [|f]; [done|]. simpl. destruct s as [|d [|e s]]; try done.
  simpl in Hs. apply negb_true_iff, orb_false_iff in Hs as [_ ->]. done.
Qed.

Lemma lexed_number n s :
  n <> [] -> forallb is_digit n = true ->
  match s with c :: _ => is_number_char c = false | [] => True end ->
  lexed (n ++ s) = (NUMBER, n) :: lexed s.
Proof.
  intros Hne Hn Hs. destruct n as [|c n]; [done|].
  assert (is_digit c = true) as Hc by (simpl in Hn; by apply andb_true_iff in Hn as [-> _]).
  destruct (take_drop_while_app is_number_char (c :: n) s) as [Ht Hr]; [|done|].
  { apply forallb_forall. intros x Hx. unfold is_number_char.
    by rewrite (proj1 (forallb_forall _ _) Hn x Hx). }
  cbn [app]. rewrite (lexed_turn _ _ (Some (NUMBER, c :: n)) s); [done| |].
  { revert Hc. unfold is_digit, is_space, in_range. lia. }
  unfold turn, next_token. rewrite Hc.
  replace ((c =? 39)%N || (c =? 34)%N) with false
    by (revert Hc; unfold is_digit, in_range; lia).
  unfold readNumber, advance_to. cbn [rest offset]. cbn [app] in Ht, Hr. by rewrite Ht, Hr.
Qed.

(** ** The tokens of a piece of a text that goes on *)

(** Tokens of one character that do not look further. *)
Definition simple (c : N) : bool := bool_decide (is_Some (SINGLE_CHARACTER_TOKENS c)).

(** The tokens of a piece when the last of them has ended before the piece does, so that they
    are the same whatever comes after it: nothing is left open, neither a string nor a word nor
    an operator, nor a dot that could go on with a name. *)
Fixpoint piece_tokens (fuel : nat) (p : jstr) : option (list (TokenType * jstr)) :=
  match p, fuel with
  | [], _ => Some []
  | _, O => None
  | c :: r, S f =>
      if is_space c then piece_tokens f r
      else
        let '(t, s) := turn p in
        if simple c || negb (jeqb s [] || jeqb s [46%N]) then app (option_list t) <$> piece_tokens f s else None
  end.

Lemma read_quoted_app q s x v after : read_quoted q s = (v, after) -> after <> [] -> read_quoted q (s ++ x) = (v, after ++ x).
Proof.
  assert (forall n s v after, length s <= n -> read_quoted q s = (v, after) -> after <> [] -> read_quoted q (s ++ x) = (v, after ++ x)) as H; [|by eapply H].
  clear. induction n as [|n IH]; intros [|c s] v after Hn Hr Ha; cbn [length read_quoted app] in *; try (injection Hr as <- <-; done); [lia|].
  destruct (c =? q)%N.
  - destruct s as [|d s]; [injection Hr as <- <-; done|]. cbn [app length] in *. destruct (d =? q)%N; [|by injection Hr as <- <-].
    destruct (read_quoted q s) as [w a] eqn:E. injection Hr as <- <-. by rewrite (IH s w a) by (done || lia).
  - destruct (read_quoted q s) as [w a] eqn:E. injection Hr as <- <-. by rewrite (IH s w a) by (done || lia).
Qed.

Lemma take_drop_while_more f (s x : jstr) : drop_while f s <> [] -> take_while f (s ++ x) = take_while f s /\ drop_while f (s ++ x) = drop_while f s ++ x.
Proof. induction s as [|c s IH]; [done|]. cbn. destruct (f c); [|done]. intros Hd. by destruct (IH Hd) as [-> ->]. Qed.

Lemma fold_dots_app f f' v s x p q : length s <= f -> length s <= f' -> let r := fold_dots f v (State s p) in
  rest r.2 <> [] -> rest r.2 <> [46%N] ->
  (fold_dots f' v (State (s ++ x) q)).1 = r.1 /\ rest (fold_dots f' v (State (s ++ x) q)).2 = rest r.2 ++ x.
Proof.
  revert f' v s p q. induction f as [|f IH]; intros f' v s p q Hf Hf'; cbn zeta.
  { destruct s; [done|cbn in Hf; lia]. }
  destruct s as [|d [|c s]]; [done| |]; (destruct f' as [|f']; [cbn in Hf'; lia|]); cbn [fold_dots rest app].
  - cbn [snd rest]. intros _ Hd. destruct x as [|y x]; [done|]. destruct (N.eqb_spec d 46) as [->|]; [done|]. done.
  - destruct (_ && _) eqn:E; [|done]. unfold readIdentifier, advance, advance_to. cbn [rest drop offset].
    intros H1 H2. assert (drop_while is_word_char (c :: s) <> []) as Hd.
    { intros Hd. rewrite Hd in H1. cbn [rest] in H1. by destruct f. }
    destruct (take_drop_while_more is_word_char (c :: s) x Hd) as [Ht Hr]. cbn [app] in Ht, Hr. rewrite Ht, Hr.
    pose proof (drop_while_length is_word_char (c :: s)) as Hl. cbn [length] in *.
    eapply IH; [lia|lia|exact H1|exact H2].
Qed.

(** A turn that leaves something other than a dot is the same when the text goes on. *)
Lemma turn_app c r x t s : turn (c :: r) = (t, s) -> simple c || negb (jeqb s [] || jeqb s [46%N]) = true -> turn ((c :: r) ++ x) = (t, s ++ x).
Proof.
  cbn [app]. unfold turn, next_token. intros Ht Hc.
  destruct (simple c) eqn:Hs.
  { unfold simple in Hs. apply bool_decide_eq_true in Hs. unfold SINGLE_CHARACTER_TOKENS in Hs.
    assert (c = 61 \/ c = 44 \/ c = 59 \/ c = 40 \/ c = 41 \/ c = 42)%N as Hcs by (repeat case_match; destruct Hs; naive_solver).
    repeat (destruct Hcs as [->|Hcs]; [cbn in Ht |- *; by injection Ht as <- <-|]). subst c. cbn in Ht |- *. by injection Ht as <- <-. }
  cbn [orb] in Hc. apply negb_true_iff, orb_false_iff in Hc as [Hne Hnd].
  assert (s <> []) as Hne' by (intros ->; by vm_compute in Hne). assert (s <> [46%N]) as Hnd' by (intros ->; by vm_compute in Hnd).
  destruct (_ || _).
  { unfold readString, advance_to in *. cbn [rest tail] in *. destruct (read_quoted c r) as [v a] eqn:E. injection Ht as <- <-.
    cbn [rest] in Hne'. by rewrite (read_quoted_app _ _ x _ _ E Hne'). }
  destruct (is_digit c).
  { unfold readNumber, advance_to in *. cbn [rest] in *. injection Ht as <- <-. cbn [rest] in *.
    destruct (take_drop_while_more is_number_char (c :: r) x Hne') as [Ht Hr]. cbn [app] in Ht, Hr. by rewrite Ht, Hr. }
  destruct (is_word_start c).
  { unfold readIdentifierToken, readIdentifier, advance_to in *. cbn [rest offset] in *.
    destruct (fold_dots _ _ _) as [v st] eqn:E in Ht. injection Ht as <- <-.
    assert (drop_while is_word_char (c :: r) <> []) as Hd.
    { intros Hd. rewrite Hd in E. cbn in E. injection E as <- <-. done. }
    destruct (take_drop_while_more is_word_char (c :: r) x Hd) as [Ht Hr]. cbn [app] in Ht, Hr. rewrite Ht, Hr.
    match type of E with fold_dots ?f ?v0 (State ?s0 ?p0) = _ => match goal with |- context [fold_dots ?f' v0 (State (s0 ++ x) ?q0)] =>
      destruct (fold_dots_app f f' v0 s0 x p0 q0) as [H1 H2]; [done|rewrite length_app; lia|by rewrite E|by rewrite E|];
      destruct (fold_dots f' v0 (State (s0 ++ x) q0)) as [v' st'] end end.
    rewrite E in H1, H2. cbn [fst snd] in H1, H2. subst v'. cbn. by rewrite H2. }
  unfold readOperatorToken in *. cbn [rest] in *. destruct (COMPARISON_TOKENS c) as [[w a]|].
  - destruct r as [|d r].
    + case_bool_decide; [done|]. cbn in Ht. by injection Ht as <- <-.
    + cbn [lookup list_lookup app] in *. case_bool_decide; unfold advance in *; cbn in *; by injection Ht as <- <-.
  - unfold advance in *. cbn in *. by injection Ht as <- <-.
Qed.

(** The tokens of a piece, then those of what follows. *)
Lemma lexed_piece fuel p ts x : piece_tokens fuel p = Some ts -> lexed (p ++ x) = ts ++ lexed x.
Proof.
  revert p ts. induction fuel as [|f IH]; intros [|c r] ts Hp; cbn [piece_tokens] in Hp; try done; try (injection Hp as <-; done).
  destruct (is_space c) eqn:Hc; [cbn [app]; rewrite lexed_space by done; by apply IH|].
  destruct (turn (c :: r)) as [t s] eqn:Ht. destruct (simple c || _) eqn:Hs; [|done].
  destruct (piece_tokens f s) as [ts'|] eqn:E; [|done]. injection Hp as <-.
  pose proof (turn_app c r x t s Ht Hs) as Hx. cbn [app] in Hx |- *. rewrite (lexed_turn _ _ _ _ Hc Hx). rewrite (IH s ts' E). by rewrite <- app_assoc.
Qed.

(** White space around a text makes no difference when the text ends in something else. *)
Lemma lexed_trim s : s = [] \/ solid_end s = true -> lexed (trim s) = lexed s.
Proof.
  intros [->|Hs]; [done|]. assert (lexed (drop_while is_space s) = lexed s) as <-.
  { clear. induction s as [|c s IH]; [done|]. cbn [drop_while]. destruct (is_space c) eqn:E; [|done]. by rewrite IH, lexed_space. }
  f_equal. destruct (drop_while_suffix is_space s) as [pre Hpre]. destruct (drop_while is_space s) as [|c r] eqn:E.
  - rewrite app_nil_r in Hpre. unfold trim. by rewrite E.
  - assert (trim s = trim (c :: r)) as ->. { unfold trim. rewrite E. cbn [drop_while]. by rewrite (drop_while_head _ _ _ _ E). }
    apply trim_solid; [by eapply drop_while_head|]. unfold solid_end in *. rewrite Hpre, last_app in Hs. by destruct (last (c :: r)) eqn:El; [|apply last_None in El].
Qed.

(** ** Correctness *)

(** Lexing always ends: whatever the text, the tokens are finitely many (no more
    than the text has characters), with one EOF, at the end. *)
Theorem tokenize_total sql :
  exists ts eof, tokenize_from (init sql) = Some (ts ++ [eof]) /\ tokenize sql = ts ++ [eof] /\
    type eof = EOF /\ length ts <= length sql /\ Forall (fun t => type t <> EOF) ts.
Proof.
  destruct (tokenize_loop_total (length (rest (init sql))) (init sql)) as (ts & eof & H & He & Hl & Hf);
    [done|].
  exists ts, eof. unfold tokenize, tokenize_from. rewrite H. split_and!; try done.
  etransitivity; [exact Hl|]. simpl. unfold trim. rewrite length_rev.
  etransitivity; [apply drop_while_length|]. rewrite length_rev. apply drop_while_length.
Qed.

End Lexer.
