(* ===== verification/Parser.v ===== *)
(** The recursive-descent parser of [src/query/parser.js] (class [SQLParser], [Parser.parse]):
    tokens to the structured query objects the engine executes.  The parser's state is
    the tokens not yet consumed. *)

From S2P Require Import Prelude JsNum JsValue Lexer.

Module Parser.
Import Lexer.

Abbreviation P := (M (list Token)).

(** [this.current] *)
Definition end_token : Token := mkToken EOF [] (-1).
Definition current_of (ts : list Token) : Token := default end_token (head ts).
Definition current : P Token := gets current_of.
Definition advance : P () := modify tail.

Definition syntax_error : js_error := Error (js "Invalid SQL syntax").

(** No run of the parser raises this one: see [parse_never_out_of_fuel]. *)
Definition out_of_fuel : js_error :=
  {| err_name := js "OutOfFuel"; err_message := []; err_code := None |}.

Definition expect (t : TokenType) : P Token :=
  c ← current;
  if decide (type c = t) then (_ ← advance; mret c) else throw syntax_error.

(** [this.expect(type).value] *)
Definition expect_text (t : TokenType) : P jstr := text <$> expect t.

(** [this.match(...types)] *)
Definition match_ (types : list TokenType) : P bool :=
  gets (fun ts => bool_decide (type (current_of ts) ∈ types)).

(** [this.current.type === type] *)
Definition at_ (t : TokenType) : P bool := match_ [t].

Definition parseValue : P value :=
  c ← current;
  match type c with
  | STRING => _ ← advance; mret (VStr (text c))
  | NUMBER => _ ← advance; mret (VNum (Num.parseFloat (text c)))
  | BOOLEAN => _ ← advance; mret (VBool (jeqb (to_lower (text c)) (js "true")))
  | NULL => _ ← advance; mret VNull
  | t => throw (Error (js "Unexpected value type: " ++ type_text t))
  end.

Definition operatorMap (t : TokenType) : option jstr :=
  match t with
  | EQUALS => Some (js "$eq") | NOT_EQUALS => Some (js "$ne")
  | GREATER_THAN => Some (js "$gt") | LESS_THAN => Some (js "$lt")
  | GREATER_EQUAL => Some (js "$gte") | LESS_EQUAL => Some (js "$lte")
  | LIKE => Some (js "$like")
  | _ => None
  end.

Definition parseOperator : P jstr :=
  c ← current;
  match operatorMap (type c) with
  | Some operator => _ ← advance; mret operator
  | None => throw (Error (js "Unknown operator: " ++ type_text (type c)))
  end.

Record SqlCondition := { column : jstr; operator : jstr; operand : value }.

Definition parseCondition : P SqlCondition :=
  c ← expect_text IDENTIFIER;
  o ← parseOperator;
  v ← parseValue;
  mret {| column := c; operator := o; operand := v |}.

(** The properties of an object the parser has just made. *)
Definition fields_of (v : value) : object := match v with VObj o => o | _ => [] end.

(** [operand[operator] = value; conjunction[column] = operand], on the operand there or
    a fresh one. *)
Definition add_condition (c : SqlCondition) (conjunction : object) : object :=
  let operand_ := default safeRecord (fields_of <$> alist_get (column c) conjunction) in
  obj_set (column c) (VObj (obj_set (operator c) (operand c) operand_)) conjunction.

(** The [while (true)] of [parseWhereClause]. *)
Fixpoint where_loop (fuel : nat) (conditions : list value) (conjunction : object)
    : P (list value) :=
  match fuel with
  | O => throw out_of_fuel
  | S f =>
      condition ← parseCondition;
      let conjunction := add_condition condition conjunction in
      is_and ← at_ AND;
      if (is_and : bool) then _ ← advance; where_loop f conditions conjunction
      else
        is_or ← at_ OR;
        if (is_or : bool) then _ ← advance; where_loop f (conditions ++ [VObj conjunction]) safeRecord
        else mret (conditions ++ [VObj conjunction])
  end.

(** Enough turns for the tokens that are left. *)
Definition turns_left : P nat := gets (fun ts => S (length ts)).

Definition parseWhereClause : P value :=
  _ ← expect WHERE;
  fuel ← turns_left;
  VArr <$> where_loop fuel [] safeRecord.

(** [do { item } while (comma)] *)
Fixpoint comma_loop {A} (item : A -> P A) (fuel : nat) (acc : A) : P A :=
  match fuel with
  | O => throw out_of_fuel
  | S f =>
      acc' ← item acc;
      comma ← at_ COMMA;
      if (comma : bool) then _ ← advance; comma_loop item f acc' else mret acc'
  end.

Definition push_column (columns : list jstr) : P (list jstr) :=
  c ← expect_text IDENTIFIER; mret (columns ++ [c]).

Definition parse_columns : P (list jstr) :=
  fuel ← turns_left; comma_loop push_column fuel [].

Definition parseSelectClause : P (list jstr) :=
  _ ← expect SELECT;
  star ← at_ ASTERISK;
  if (star : bool) then _ ← advance; mret [js "*"] else parse_columns.

(** [select.includes('*') ? undefined : select] *)
Definition select_value (select : list jstr) : value :=
  if bool_decide (js "*" ∈ select) then VUndef else VArr (map VStr select).

Definition set_field (k : jstr) (v : value) (o : object) : object := obj_set k v o.

(** [if (match(t)) target[k] = p] *)
Definition optional (t : TokenType) (k : jstr) (p : P value) (target : object) : P object :=
  here ← at_ t;
  if (here : bool) then (v ← p; mret (set_field k v target)) else mret target.

(** [GROUP BY column] and [LIMIT n] *)
Definition parse_group : P value :=
  _ ← advance; _ ← expect BY; VStr <$> expect_text IDENTIFIER.
Definition parse_limit : P value :=
  _ ← advance; (fun n => VNum (Num.parseInt n)) <$> expect_text NUMBER.

Definition parseJoinColumn : P jstr := expect_text IDENTIFIER.

Definition joinOperatorMap (t : TokenType) : option jstr :=
  match t with LIKE => None | _ => operatorMap t end.

Definition parseJoinOperator : P jstr :=
  c ← current;
  match joinOperatorMap (type c) with
  | Some operator => _ ← advance; mret operator
  | None => throw (Error (js "Unknown join operator: " ++ type_text (type c)))
  end.

Fixpoint join_conditions_loop (fuel : nat) (conditions : object) : P object :=
  match fuel with
  | O => throw out_of_fuel
  | S f =>
      leftColumn ← parseJoinColumn;
      operator ← parseJoinOperator;
      rightColumn ← parseJoinColumn;
      let conditions := if has_own leftColumn conditions then conditions
                        else obj_set leftColumn (VObj safeRecord) conditions in
      let operand := default safeRecord (fields_of <$> alist_get leftColumn conditions) in
      let conditions :=
        obj_set leftColumn (VObj (obj_set operator (VStr rightColumn) operand)) conditions in
      is_and ← at_ AND;
      if (is_and : bool) then _ ← advance; join_conditions_loop f conditions else mret conditions
  end.

Definition parseJoinConditions : P value :=
  fuel ← turns_left; VObj <$> join_conditions_loop fuel safeRecord.

Definition parse_join_mode : P jstr :=
  c ← current;
  match type c with
  | INNER => _ ← advance; mret (js "inner")
  | LEFT => _ ← advance; mret (js "left")
  | RIGHT => _ ← advance; mret (js "right")
  | OUTER => _ ← advance; mret (js "outer")
  | _ => mret (js "inner")
  end.

Definition parseJoinQuery (select : list jstr) (leftCollection : jstr) : P value :=
  joinMode ← parse_join_mode;
  _ ← expect JOIN;
  rightCollection ← expect_text IDENTIFIER;
  _ ← expect ON;
  onConditions ← parseJoinConditions;
  let joinQuery := [(js "$leftCollection", VStr leftCollection);
                    (js "$rightCollection", VStr rightCollection);
                    (js "$mode", VStr joinMode); (js "$on", onConditions);
                    (js "$select", select_value select)] in
  where_ ← at_ WHERE;
  _ ← (if (where_ : bool) then (fun _ => ()) <$> parseWhereClause else mret ());
  joinQuery ← optional GROUP (js "$groupby") parse_group joinQuery;
  VObj <$> optional LIMIT (js "$limit") parse_limit joinQuery.

Definition parseSelect : P value :=
  select ← parseSelectClause;
  _ ← expect FROM;
  collection ← expect_text IDENTIFIER;
  is_join ← match_ [JOIN; INNER; LEFT; RIGHT; OUTER];
  if (is_join : bool) then parseJoinQuery select collection
  else
    let query := [(js "$collection", VStr collection); (js "$select", select_value select);
                  (js "$onlyIds", VBool (bool_decide (js "_id" ∈ select)))] in
    query ← optional WHERE (js "$ops") parseWhereClause query;
    query ← optional GROUP (js "$groupby") parse_group query;
    VObj <$> optional LIMIT (js "$limit") parse_limit query.

(** [columns[valueIndex] || `col${valueIndex}`] *)
Definition value_column (columns : list jstr) (i : nat) : jstr :=
  match columns !! i with
  | Some c => if bool_decide (c = []) then js "col" ++ Num.dec_nat i else c
  | None => js "col" ++ Num.dec_nat i
  end.

(** One turn of the loop over [VALUES]: the record so far and [valueIndex]. *)
Definition push_value (columns : list jstr) (acc : object * nat) : P (object * nat) :=
  v ← parseValue;
  mret (obj_set (value_column columns (snd acc)) v (fst acc), S (snd acc)).

Definition parseInsert : P value :=
  _ ← expect INSERT; _ ← expect INTO;
  collection ← expect_text IDENTIFIER;
  open_ ← at_ LPAREN;
  columns ← (if (open_ : bool)
             then _ ← advance; columns ← parse_columns; _ ← expect RPAREN; mret columns
             else mret []);
  _ ← expect VALUES; _ ← expect LPAREN;
  fuel ← turns_left;
  values ← comma_loop (push_value columns) fuel (safeRecord, 0);
  _ ← expect RPAREN;
  mret (VObj [(js "$collection", VStr collection); (js "$values", VObj (fst values))]).

Definition push_assignment (set : object) : P object :=
  c ← expect_text IDENTIFIER;
  _ ← expect EQUALS;
  v ← parseValue;
  mret (obj_set c v set).

Definition parseUpdate : P value :=
  _ ← expect UPDATE;
  collection ← expect_text IDENTIFIER;
  _ ← expect SET;
  fuel ← turns_left;
  set ← comma_loop push_assignment fuel safeRecord;
  let where_ := ops ← parseWhereClause;
                mret (VObj [(js "$collection", VStr collection); (js "$ops", ops)]) in
  VObj <$> optional WHERE (js "$where") where_
             [(js "$collection", VStr collection); (js "$set", VObj set)].

Definition parseDelete : P value :=
  _ ← expect DELETE; _ ← expect FROM;
  collection ← expect_text IDENTIFIER;
  VObj <$> optional WHERE (js "$ops") parseWhereClause [(js "$collection", VStr collection)].

(** [{ $collection: tokens[2].value }] *)
Definition third_token (tokens : list Token) : outcome value :=
  match tokens !! 2 with
  | Some t => Ok (VObj [(js "$collection", VStr (text t))])
  | None => Throw (type_error (js "Cannot read properties of undefined (reading 'value')"))
  end.

(** The [switch] of [Parser.parse]. *)
Definition parse_tokens (tokens : list Token) : outcome value :=
  let first := text (current_of tokens) in
  if jeqb first (js "CREATE") then third_token tokens
  else if jeqb first (js "SELECT") then fst (parseSelect tokens)
  else if jeqb first (js "INSERT") then fst (parseInsert tokens)
  else if jeqb first (js "UPDATE") then fst (parseUpdate tokens)
  else if jeqb first (js "DELETE") then fst (parseDelete tokens)
  else if jeqb first (js "DROP") then third_token tokens
  else Throw (Error (js "Unsupported SQL statement type: " ++ first)).

(** [Parser.parse(sql)] *)
Definition parse (sql : jstr) : outcome value := parse_tokens (tokenize sql).

(** ** The errors and the results of the parser *)

(** What a failed parse can raise. *)
Definition parse_error (e : js_error) : Prop :=
  e = syntax_error \/
  (exists t, e = Error (js "Unexpected value type: " ++ type_text t)) \/
  (exists t, e = Error (js "Unknown operator: " ++ type_text t)) \/
  (exists t, e = Error (js "Unknown join operator: " ++ type_text t)).

(** [m] fails with a parser error, or gives a [Q] after consuming [k] tokens at least. *)
Definition post {A} (k : nat) (Q : A -> Prop) (m : P A) (ts : list Token) : Prop :=
  match m ts with
  | (Ok a, ts') => Q a /\ length ts' + k <= length ts
  | (Throw e, _) => parse_error e
  end.
Definition spec {A} (k : nat) (Q : A -> Prop) (m : P A) : Prop := forall ts, post k Q m ts.

Lemma spec_ret {A} (Q : A -> Prop) a : Q a -> spec 0 Q (mret a).
Proof. intros H ts. split; [done|]. simpl. lia. Qed.

Lemma spec_weaken {A} k k' (Q Q' : A -> Prop) m :
  spec k Q m -> k' <= k -> (forall a, Q a -> Q' a) -> spec k' Q' m.
Proof.
  intros H Hk HQ ts. specialize (H ts). unfold post in *.
  destruct (m ts) as [[a|e] ts']; [|done]. destruct H. split; [auto|lia].
Qed.

Lemma spec_bind {A B} k1 k2 (Q1 : A -> Prop) (Q2 : B -> Prop) (m : P A) f :
  spec k1 Q1 m -> (forall a, Q1 a -> spec k2 Q2 (f a)) -> spec (k1 + k2) Q2 (m ≫= f).
Proof.
  intros Hm Hf ts. specialize (Hm ts). unfold post, mbind, M_bind in *.
  destruct (m ts) as [[a|e] ts']; [|done]. destruct Hm as [Ha Hl].
  specialize (Hf a Ha ts'). unfold post in Hf.
  destruct (f a ts') as [[b|e] ts'']; [|done]. destruct Hf. split; [done|lia].
Qed.

Lemma spec_fmap {A B} k (Q1 : A -> Prop) (Q2 : B -> Prop) (m : P A) (f : A -> B) :
  spec k Q1 m -> (forall a, Q1 a -> Q2 (f a)) -> spec k Q2 (f <$> m).
Proof.
  intros Hm Hf ts. specialize (Hm ts). unfold post, fmap, M_fmap in *.
  destruct (m ts) as [[a|e] ts']; [|done]. destruct Hm. split; [by apply Hf|lia].
Qed.

Lemma spec_current : spec 0 (fun _ => True) current.
Proof. intros ts. split; [done|]. simpl. lia. Qed.
Lemma spec_match l : spec 0 (fun _ => True) (match_ l).
Proof. intros ts. split; [done|]. simpl. lia. Qed.
Lemma spec_at t : spec 0 (fun _ => True) (at_ t).
Proof. apply spec_match. Qed.
Lemma spec_advance : spec 0 (fun _ => True) advance.
Proof. intros [|t ts]; split; simpl; (done || lia). Qed.

Lemma current_of_cons c ts : current_of (c :: ts) = c.
Proof. reflexivity. Qed.

Lemma spec_expect t : t <> EOF -> spec 1 (fun c => type c = t) (expect t).
Proof.
  intros Ht [|c ts]; unfold post, expect, current, gets, mbind, M_bind; simpl.
  - rewrite decide_False by done. by left.
  - rewrite current_of_cons. destruct (decide (type c = t)); simpl; [|by left]. split; [done|lia].
Qed.

Lemma spec_expect_text t : t <> EOF -> spec 1 (fun _ => True) (expect_text t).
Proof. intros Ht. eapply spec_fmap; [by apply spec_expect|done]. Qed.

(** The values the grammar has. *)
Definition scalar (v : value) : Prop :=
  match v with VNull | VBool _ | VNum _ | VStr _ => True | _ => False end.

Lemma spec_parseValue : spec 1 scalar parseValue.
Proof.
  intros [|c ts]; unfold post, parseValue, current, gets, mbind, M_bind; simpl.
  - right. left. by exists EOF.
  - rewrite current_of_cons. destruct (type c) eqn:E; simpl; try (split; [done|lia]); right; left; by eexists.
Qed.

Definition sql_operators : list jstr :=
  [js "$eq"; js "$ne"; js "$gt"; js "$lt"; js "$gte"; js "$lte"; js "$like"].
Definition join_operators : list jstr :=
  [js "$eq"; js "$ne"; js "$gt"; js "$lt"; js "$gte"; js "$lte"].

Lemma operatorMap_known t o : operatorMap t = Some o -> o ∈ sql_operators.
Proof.
  intros H. apply (bool_decide_unpack _).
  destruct t; try done; injection H as <-; by vm_compute.
Qed.
Lemma joinOperatorMap_known t o : joinOperatorMap t = Some o -> o ∈ join_operators.
Proof.
  intros H. apply (bool_decide_unpack _).
  destruct t; try done; injection H as <-; by vm_compute.
Qed.

Lemma spec_parseOperator : spec 1 (fun o => o ∈ sql_operators) parseOperator.
Proof.
  intros [|c ts]; unfold post, parseOperator, current, gets, mbind, M_bind; simpl.
  - right; right; left. by exists EOF.
  - rewrite current_of_cons. destruct (operatorMap (type c)) eqn:E; simpl; [|right; right; left; by eexists].
    split; [by eapply operatorMap_known|lia].
Qed.
Lemma spec_parseJoinOperator : spec 1 (fun o => o ∈ join_operators) parseJoinOperator.
Proof.
  intros [|c ts]; unfold post, parseJoinOperator, current, gets, mbind, M_bind; simpl.
  - right; right; right. by exists EOF.
  - rewrite current_of_cons. destruct (joinOperatorMap (type c)) eqn:E; simpl; [|right; right; right; by eexists].
    split; [by eapply joinOperatorMap_known|lia].
Qed.

#[local] Hint Resolve spec_ret spec_current spec_match spec_at spec_advance spec_expect
  spec_expect_text spec_parseValue spec_parseOperator spec_parseJoinOperator : fylo.
#[local] Hint Opaque spec post : fylo.
#[local] Hint Extern 1 (_ <> EOF) => discriminate : fylo.

(** ** The shapes of the objects the parser builds *)

(** An object with ordered properties, each of them allowed by [T]. *)
Definition typed (T : jstr * value -> Prop) (o : object) : Prop :=
  ordered_keys (keys o) = true /\ Forall T o.

Lemma typed_nil T : typed T [].
Proof. split; [done|constructor]. Qed.
Lemma typed_set T k v o : T (k, v) -> typed T o -> typed T (obj_set k v o).
Proof. intros Hk [H1 H2]. split; [by apply ordered_obj_set|by apply Forall_obj_set]. Qed.
Lemma typed_get T k v o : typed T o -> alist_get k o = Some v -> T (k, v).
Proof. intros [_ H] Hk%alist_get_Some. by rewrite Forall_forall in H; apply H. Qed.

(** Operators over scalars: [{ $gte: 18 }]; over column names in a join. *)
Definition operand_ok (ops : list jstr) (arg : value -> Prop) (v : value) : Prop :=
  exists o, v = VObj o /\ o <> [] /\ typed (fun kv => kv.1 ∈ ops /\ arg kv.2) o.
Definition conditions_ok (ops : list jstr) (arg : value -> Prop) (v : value) : Prop :=
  exists o, v = VObj o /\ o <> [] /\ typed (fun kv => operand_ok ops arg kv.2) o.
(** [$ops]: a disjunction of at least one conjunction of at least one condition. *)
Definition where_ok (v : value) : Prop :=
  exists l, v = VArr l /\ l <> [] /\ Forall (conditions_ok sql_operators scalar) l.

Definition is_str (v : value) : Prop := exists s, v = VStr s.
Definition is_num (v : value) : Prop := exists n, v = VNum n.
Definition is_bool (v : value) : Prop := exists b, v = VBool b.
Definition columns_ok (v : value) : Prop := v = VUndef \/ exists l, v = VArr (map VStr l).

(** The properties of a kind of object. *)
Definition field_of (table : list (jstr * (value -> Prop))) (kv : jstr * value) : Prop :=
  Exists (fun f => fst f = fst kv /\ snd f (snd kv)) table.
Definition shaped (table : list (jstr * (value -> Prop))) (required : list jstr) (v : value) : Prop :=
  exists o, v = VObj o /\ typed (field_of table) o /\ forallb (fun k => has_own k o) required = true.

Definition select_query : value -> Prop :=
  shaped [(js "$collection", is_str); (js "$select", columns_ok); (js "$onlyIds", is_bool);
          (js "$ops", where_ok); (js "$groupby", is_str); (js "$limit", is_num)]
         [js "$collection"; js "$select"; js "$onlyIds"].
Definition join_query : value -> Prop :=
  shaped [(js "$leftCollection", is_str); (js "$rightCollection", is_str); (js "$mode", is_str);
          (js "$on", conditions_ok join_operators is_str); (js "$select", columns_ok);
          (js "$groupby", is_str); (js "$limit", is_num)]
         [js "$leftCollection"; js "$rightCollection"; js "$mode"; js "$on"; js "$select"].
Definition values_ok (v : value) : Prop :=
  exists o, v = VObj o /\ o <> [] /\ typed (fun kv => scalar kv.2) o.
Definition insert_query : value -> Prop :=
  shaped [(js "$collection", is_str); (js "$values", values_ok)] [js "$collection"; js "$values"].
Definition where_query : value -> Prop :=
  shaped [(js "$collection", is_str); (js "$ops", where_ok)] [js "$collection"; js "$ops"].
Definition update_query : value -> Prop :=
  shaped [(js "$collection", is_str); (js "$set", values_ok); (js "$where", where_query)]
         [js "$collection"; js "$set"].
Definition delete_query : value -> Prop :=
  shaped [(js "$collection", is_str); (js "$ops", where_ok)] [js "$collection"].
Definition ddl_query : value -> Prop := shaped [(js "$collection", is_str)] [js "$collection"].

Lemma shaped_set table required k v o :
  field_of table (k, v) ->
  shaped table required (VObj o) -> shaped table required (VObj (obj_set k v o)).
Proof.
  intros Hk (o' & [= <-] & Ht & Hr). exists (obj_set k v o). split_and!; [done|by apply typed_set|].
  rewrite forallb_forall in Hr |- *. intros x Hx. rewrite has_own_obj_set, Hr by done.
  by rewrite orb_true_r.
Qed.

Lemma obj_set_nonempty {A} k (v : A) o : obj_set k v o <> [].
Proof.
  intros H. pose proof (alist_get_obj_set k k v o) as Hg.
  rewrite H, decide_True in Hg by done. done.
Qed.

(** ** Every parser function gives its shape *)

Lemma post_bind {A B} k1 k2 (Q1 : A -> Prop) (Q2 : B -> Prop) (m : P A) f ts :
  post k1 Q1 m ts ->
  (forall a ts', Q1 a -> length ts' + k1 <= length ts -> post k2 Q2 (f a) ts') ->
  post (k1 + k2) Q2 (m ≫= f) ts.
Proof.
  unfold post, mbind, M_bind. destruct (m ts) as [[a|e] ts']; [|done]. intros [Ha Hl] Hf.
  specialize (Hf a ts' Ha Hl). destruct (f a ts') as [[b|e] ts'']; [|done].
  destruct Hf. split; [done|lia].
Qed.

Lemma post_weaken {A} k k' (Q : A -> Prop) m ts : post k Q m ts -> k' <= k -> post k' Q m ts.
Proof.
  unfold post. destruct (m ts) as [[a|e] ts']; [|done]. intros [? ?] ?. split; [done|lia].
Qed.

(** A loop that is given one turn more than there are tokens. *)
Lemma spec_loop {A} k (Q : A -> Prop) (loop : nat -> P A) :
  (forall f ts, length ts < f -> post k Q (loop f) ts) -> spec k Q (turns_left ≫= loop).
Proof. intros H ts. unfold post, turns_left, gets, mbind, M_bind. apply H. lia. Qed.

Lemma spec_parseCondition :
  spec 1 (fun c => operator c ∈ sql_operators /\ scalar (operand c)) parseCondition.
Proof.
  unfold parseCondition.
  apply (spec_weaken 3 1 (fun c => operator c ∈ sql_operators /\ scalar (operand c))); [|lia|done].
  eapply (spec_bind 1 2); [by eauto with fylo|]. intros c _.
  eapply (spec_bind 1 1); [by eauto with fylo|]. intros o Ho.
  eapply (spec_bind 1 0); [by eauto with fylo|]. intros v Hv. by apply spec_ret.
Qed.

(** The conditions gathered so far: each column has its operators. *)
Definition partial (ops : list jstr) (arg : value -> Prop) (o : object) : Prop :=
  typed (fun kv => operand_ok ops arg kv.2) o.

Lemma partial_set ops arg col op v o :
  partial ops arg o -> op ∈ ops -> arg v ->
  conditions_ok ops arg
    (VObj (obj_set col (VObj (obj_set op v (default [] (fields_of <$> alist_get col o)))) o)).
Proof.
  intros Ho Hop Hv. eexists. split_and!; [done|apply obj_set_nonempty|].
  apply typed_set; [|done]. eexists. split_and!; [done|apply obj_set_nonempty|].
  apply typed_set; [done|].
  destruct (alist_get col o) as [w|] eqn:E; simpl; [|apply typed_nil].
  pose proof (typed_get _ _ _ _ Ho E) as Hw. cbn in Hw.
  destruct Hw as (p & -> & _ & Hp). exact Hp.
Qed.

Lemma conditions_partial ops arg o : conditions_ok ops arg (VObj o) -> partial ops arg o.
Proof. by intros (o' & [= <-] & _ & H). Qed.

Lemma post_where_loop f conds conj ts :
  length ts < f -> Forall (conditions_ok sql_operators scalar) conds ->
  partial sql_operators scalar conj ->
  post 1 (fun l => l <> [] /\ Forall (conditions_ok sql_operators scalar) l)
    (where_loop f conds conj) ts.
Proof.
  revert conds conj ts. induction f as [|f IH]; intros conds conj ts Hf Hc Hp; [lia|].
  cbn [where_loop]. apply (post_bind 1 0 _ _ _ _ _ (spec_parseCondition ts)).
  intros c ts1 [Ho Hs] H1.
  pose proof (partial_set _ _ (column c) (operator c) (operand c) conj Hp Ho Hs) as Hnew.
  fold (add_condition c conj) in Hnew.
  apply (post_bind 0 0 _ _ _ _ _ (spec_at AND ts1)). intros is_and ts2 _ H2.
  assert (Forall (conditions_ok sql_operators scalar) (conds ++ [VObj (add_condition c conj)])) as Hall.
  { apply Forall_app. split; [done|]. by repeat constructor. }
  destruct is_and.
  { apply (post_bind 0 0 _ _ _ _ _ (spec_advance ts2)). intros _ ts3 _ H3.
    eapply post_weaken; [apply IH; [lia|done|by apply conditions_partial]|lia]. }
  apply (post_bind 0 0 _ _ _ _ _ (spec_at OR ts2)). intros is_or ts3 _ H3.
  destruct is_or.
  { apply (post_bind 0 0 _ _ _ _ _ (spec_advance ts3)). intros _ ts4 _ H4.
    eapply post_weaken; [apply IH; [lia|done|apply typed_nil]|lia]. }
  apply spec_ret. split; [|done]. by intros []%app_nil.
Qed.

Lemma spec_bind0 {A B} k (Q1 : A -> Prop) (Q2 : B -> Prop) (m : P A) f :
  spec k Q1 m -> (forall a, Q1 a -> spec 0 Q2 (f a)) -> spec 0 Q2 (m ≫= f).
Proof.
  intros Hm Hf. apply (spec_weaken (k + 0) 0 Q2); [|lia|done]. by eapply spec_bind.
Qed.

Lemma spec_fmap0 {A B} k (Q1 : A -> Prop) (Q2 : B -> Prop) (m : P A) (f : A -> B) :
  spec k Q1 m -> (forall a, Q1 a -> Q2 (f a)) -> spec 0 Q2 (f <$> m).
Proof. intros Hm Hf. apply (spec_weaken k 0 Q2); [|lia|done]. by eapply spec_fmap. Qed.

Lemma spec_throw {A} (Q : A -> Prop) e : parse_error e -> spec 0 Q (throw e).
Proof. intros He ts. exact He. Qed.

(** Step over the next call, its result known by the lemma of its name. *)
Ltac step := first
  [ eapply spec_bind0; [by eauto with fylo|]; intros ? ?; cbn beta in *
  | apply spec_ret ].

Lemma post_comma_loop {A} (item : A -> P A) (I Q : A -> Prop) f acc ts :
  (forall a, I a -> spec 1 Q (item a)) -> (forall a, Q a -> I a) ->
  length ts < f -> I acc -> post 1 Q (comma_loop item f acc) ts.
Proof.
  intros Hitem HQI. revert acc ts. induction f as [|f IH]; intros acc ts Hf Hacc; [lia|].
  cbn [comma_loop]. apply (post_bind 1 0 _ _ _ _ _ (Hitem acc Hacc ts)). intros a ts1 Ha H1.
  apply (post_bind 0 0 _ _ _ _ _ (spec_at COMMA ts1)). intros comma ts2 _ H2.
  destruct comma; [|by apply spec_ret].
  apply (post_bind 0 0 _ _ _ _ _ (spec_advance ts2)). intros _ ts3 _ H3.
  eapply post_weaken; [apply IH; [lia|by apply HQI]|lia].
Qed.

Lemma spec_comma_loop {A} (item : A -> P A) (I Q : A -> Prop) acc :
  (forall a, I a -> spec 1 Q (item a)) -> (forall a, Q a -> I a) -> I acc ->
  spec 0 Q (fuel ← turns_left; comma_loop item fuel acc).
Proof.
  intros Hitem HQI Hacc. apply (spec_weaken 1 0 Q); [|lia|done]. apply spec_loop.
  intros f ts Hf. by eapply post_comma_loop.
Qed.

Lemma post_fmap {A B} k (Q1 : A -> Prop) (Q2 : B -> Prop) (m : P A) (f : A -> B) ts :
  post k Q1 m ts -> (forall a, Q1 a -> Q2 (f a)) -> post k Q2 (f <$> m) ts.
Proof.
  unfold post, fmap, M_fmap. destruct (m ts) as [[a|e] ts']; [|done].
  intros [Ha Hl] H. split; [by apply H|done].
Qed.

Lemma spec_parseWhereClause : spec 0 where_ok parseWhereClause.
Proof.
  unfold parseWhereClause. step.
  apply (spec_weaken 1 0 where_ok); [|lia|done]. apply spec_loop. intros f ts Hf.
  eapply post_fmap; [apply post_where_loop; [done|constructor|apply typed_nil]|].
  intros l [Hne Hl]. by exists l.
Qed.

Lemma spec_parse_columns : spec 0 (fun _ => True) parse_columns.
Proof.
  apply (spec_comma_loop push_column (fun _ => True) (fun _ => True)); try done.
  intros a _. unfold push_column. eapply (spec_bind 1 0); [by eauto with fylo|].
  intros c _. by apply spec_ret.
Qed.
#[local] Hint Resolve spec_parseWhereClause spec_parse_columns : fylo.

Lemma spec_parseSelectClause : spec 0 (fun _ => True) parseSelectClause.
Proof. unfold parseSelectClause. step. step. destruct a0; [step; by step|eauto with fylo]. Qed.

Lemma spec_parse_group : spec 0 is_str parse_group.
Proof.
  unfold parse_group. do 2 step. eapply spec_fmap0; [by eauto with fylo|]. intros s _. by exists s.
Qed.
Lemma spec_parse_limit : spec 0 is_num parse_limit.
Proof.
  unfold parse_limit. step. eapply spec_fmap0; [by eauto with fylo|]. intros s _. by eexists.
Qed.

Lemma spec_optional table required t k p o (Q : value -> Prop) :
  spec 0 Q p -> (k, Q) ∈ table ->
  shaped table required (VObj o) ->
  spec 0 (fun o' => shaped table required (VObj o')) (optional t k p o).
Proof.
  intros Hp Hk Ho. unfold optional. step. destruct a; [|by step].
  eapply spec_bind0; [exact Hp|]. intros v Hv. apply spec_ret. apply shaped_set; [|done].
  unfold field_of. rewrite Exists_exists. by exists (k, Q).
Qed.

Lemma select_value_ok l : columns_ok (select_value l).
Proof. unfold select_value. case_bool_decide; [by left|]. right. by exists l. Qed.

Lemma spec_parse_join_mode : spec 0 (fun _ => True) parse_join_mode.
Proof. unfold parse_join_mode. step. destruct (type a); repeat step; done. Qed.

Lemma post_join_loop f conditions ts :
  length ts < f -> partial join_operators is_str conditions ->
  post 1 (fun o => conditions_ok join_operators is_str (VObj o))
    (join_conditions_loop f conditions) ts.
Proof.
  revert conditions ts. induction f as [|f IH]; intros conditions ts Hf Hp; [lia|].
  cbn [join_conditions_loop].
  apply (post_bind 1 0 _ _ _ _ _ (spec_expect_text IDENTIFIER ltac:(done) ts)). intros l ts1 _ H1.
  apply (post_bind 0 0 _ _ _ _ _ (post_weaken 1 0 _ _ _ (spec_parseJoinOperator ts1) ltac:(lia))).
  intros op ts2 Hop H2.
  apply (post_bind 0 0 _ _ _ _ _
    (post_weaken 1 0 _ _ _ (spec_expect_text IDENTIFIER ltac:(done) ts2) ltac:(lia))).
  intros r ts3 _ H3.
  match goal with |- context [at_ AND ≫= ?k] => set (kont := k) end.
  set (cond := if has_own l conditions then conditions else obj_set l (VObj safeRecord) conditions) in *.
  assert (conditions_ok join_operators is_str
    (VObj (obj_set l (VObj (obj_set op (VStr r)
       (default safeRecord (fields_of <$> alist_get l cond)))) cond))) as Hnew.
  { assert (default safeRecord (fields_of <$> alist_get l cond) =
            default [] (fields_of <$> alist_get l conditions)) as ->.
    { unfold cond, has_own. destruct (alist_get l conditions) as [w|] eqn:E.
      - by rewrite E.
      - by rewrite alist_get_obj_set, decide_True. }
    unfold cond. unfold has_own. destruct (alist_get l conditions) as [w|] eqn:E.
    - rewrite <- E. apply partial_set; [done|done|by eexists].
    - assert (obj_set l (VObj (obj_set op (VStr r) [])) (obj_set l (VObj safeRecord) conditions) =
              obj_set l (VObj (obj_set op (VStr r) [])) conditions) as Heq by apply obj_set_set.
      simpl. rewrite Heq. pose proof (partial_set join_operators is_str l op (VStr r) conditions Hp Hop) as Hs.
      rewrite E in Hs. apply Hs. by eexists. }
  unfold kont. apply (post_bind 0 0 _ _ _ _ _ (spec_at AND ts3)). intros is_and ts4 _ H4.
  destruct is_and; [|by apply spec_ret].
  apply (post_bind 0 0 _ _ _ _ _ (spec_advance ts4)). intros _ ts5 _ H5.
  eapply post_weaken; [apply IH; [lia|by apply conditions_partial]|lia].
Qed.

Lemma spec_parseJoinConditions : spec 0 (conditions_ok join_operators is_str) parseJoinConditions.
Proof.
  unfold parseJoinConditions.
  apply (spec_weaken 1 0 (conditions_ok join_operators is_str)); [|lia|done].
  apply spec_loop. intros f ts Hf.
  eapply post_fmap; [apply post_join_loop; [done|apply typed_nil]|]. done.
Qed.
#[local] Hint Resolve spec_parseSelectClause spec_parse_join_mode spec_parseJoinConditions : fylo.

(** Membership of a literal in a literal table, by position. *)
Ltac in_table := repeat first [apply list_elem_of_here | apply list_elem_of_further].

(** The next optional clause. *)
Ltac step_optional :=
  eapply spec_bind0;
    [eapply spec_optional;
       [first [apply spec_parse_group | apply spec_parse_limit | apply spec_parseWhereClause]
       | |eassumption]; in_table
    |cbn beta; intros ? ?].

(** A literal object has the shape of its table. *)
Ltac literal_shape :=
  eexists; split_and!;
    [reflexivity
    |split; [by vm_compute|repeat (apply List.Forall_cons; [unfold field_of|]); try apply List.Forall_nil;
             repeat first [apply Exists_cons_hd; split; [reflexivity|cbn] | apply Exists_cons_tl];
             try done; try by eexists]
    |by vm_compute].

Lemma spec_parseJoinQuery select left : spec 0 join_query (parseJoinQuery select left).
Proof.
  unfold parseJoinQuery. do 5 step.
  match goal with H : conditions_ok _ _ ?on |- _ => rename on into onc; rename H into Hon end.
  step.
  eapply (spec_bind0 0 (fun _ => True)).
  { destruct a3; [eapply spec_fmap0; [apply spec_parseWhereClause|done]|by apply spec_ret]. }
  intros _ _.
  match goal with |- context [optional GROUP _ _ ?o] => assert (join_query (VObj o)) as Hj end.
  { pose proof (select_value_ok select). unfold join_query. literal_shape. }
  unfold join_query in *. step_optional.
  eapply spec_fmap0; [eapply spec_optional; [apply spec_parse_limit| |eassumption]; in_table|].
  done.
Qed.

(** What a SELECT parses to. *)
Definition select_statement (v : value) : Prop := select_query v \/ join_query v.

Lemma spec_parseSelect : spec 0 select_statement parseSelect.
Proof.
  unfold parseSelect. do 4 step.
  match goal with |- context [if ?b then _ else _] => destruct b end.
  { eapply spec_weaken; [apply spec_parseJoinQuery|done|]. by right. }
  match goal with |- context [optional WHERE _ _ ?o] => assert (select_query (VObj o)) as Hj end.
  { pose proof (select_value_ok a). unfold select_query. literal_shape. }
  unfold select_query in *. do 2 step_optional.
  eapply spec_fmap0; [eapply spec_optional; [apply spec_parse_limit| |eassumption]; in_table|].
  intros o Ho. by left.
Qed.

Lemma spec_push_value columns acc :
  typed (fun kv => scalar kv.2) (fst acc) ->
  spec 1 (fun acc' => typed (fun kv => scalar kv.2) (fst acc') /\ fst acc' <> [])
    (push_value columns acc).
Proof.
  intros Ha. unfold push_value. eapply (spec_bind 1 0); [by eauto with fylo|]. intros v Hv.
  apply spec_ret. split; [by apply typed_set|apply obj_set_nonempty].
Qed.

Lemma spec_push_assignment set :
  typed (fun kv => scalar kv.2) set ->
  spec 1 (fun set' => typed (fun kv => scalar kv.2) set' /\ set' <> []) (push_assignment set).
Proof.
  intros Ha. unfold push_assignment.
  eapply (spec_weaken 3 1); [|lia|by intros ? H; exact H].
  eapply (spec_bind 1 2); [by eauto with fylo|]. intros c _.
  eapply (spec_bind 1 1); [by eauto with fylo|]. intros _ _.
  eapply (spec_bind 1 0); [by eauto with fylo|]. intros v Hv.
  apply spec_ret. split; [by apply typed_set|apply obj_set_nonempty].
Qed.

Lemma spec_bind_loop {A B} (item : A -> P A) (I Q : A -> Prop) acc (R : B -> Prop) (k : A -> P B) :
  (forall a, I a -> spec 1 Q (item a)) -> (forall a, Q a -> I a) -> I acc ->
  (forall a, Q a -> spec 0 R (k a)) ->
  spec 0 R (fuel ← turns_left; a ← comma_loop item fuel acc; k a).
Proof.
  intros Hitem HQI Hacc Hk. apply (spec_weaken 1 0 R); [|lia|done]. apply spec_loop. intros f ts Hf.
  apply (post_bind 1 0 _ _ _ _ _ (post_comma_loop item I Q f acc ts Hitem HQI Hf Hacc)).
  intros a ts' Ha _. by apply Hk.
Qed.

Lemma spec_parseInsert : spec 0 insert_query parseInsert.
Proof.
  unfold parseInsert. do 4 step.
  eapply (spec_bind0 0 (fun _ => True)).
  { destruct a2; [|by apply spec_ret]. do 3 step. by apply spec_ret. }
  intros columns _. do 2 step.
  eapply (spec_bind_loop _ (fun acc => typed (fun kv => scalar kv.2) (fst acc))).
  - intros acc Hacc. by apply spec_push_value.
  - by intros acc [Ha _].
  - apply typed_nil.
  - intros [values n] [Hv Hne]. step. apply spec_ret. unfold insert_query.
    assert (values_ok (VObj values)) by (by exists values). literal_shape.
Qed.

Lemma spec_parseUpdate : spec 0 update_query parseUpdate.
Proof.
  unfold parseUpdate. do 3 step.
  eapply (spec_bind_loop _ (typed (fun kv => scalar kv.2))).
  - intros acc Hacc. by apply spec_push_assignment.
  - by intros acc [Ha _].
  - apply typed_nil.
  - intros set [Hs Hne]. cbn zeta.
    assert (values_ok (VObj set)) as Hset by (by exists set).
    eapply spec_fmap0; [eapply (spec_optional
      [(js "$collection", is_str); (js "$set", values_ok); (js "$where", where_query)]
      [js "$collection"; js "$set"] WHERE _ _ _ where_query); [|in_table|]|].
    + step. apply spec_ret. unfold where_query. literal_shape.
    + literal_shape.
    + done.
Qed.

Lemma spec_parseDelete : spec 0 delete_query parseDelete.
Proof.
  unfold parseDelete. do 3 step.
  eapply spec_fmap0; [eapply (spec_optional
      [(js "$collection", is_str); (js "$ops", where_ok)] [js "$collection"] WHERE _ _ _ where_ok);
      [apply spec_parseWhereClause|in_table|]|].
  - literal_shape.
  - done.
Qed.

(** ** Correctness *)

(** The object a statement with this first token parses to. *)
Definition statement (first : jstr) (v : value) : Prop :=
  (first = js "SELECT" /\ select_statement v) \/ (first = js "INSERT" /\ insert_query v) \/
  (first = js "UPDATE" /\ update_query v) \/ (first = js "DELETE" /\ delete_query v) \/
  ((first = js "CREATE" \/ first = js "DROP") /\ ddl_query v).

(** The failures of [Parser.parse]. *)
Definition statement_error (first : jstr) (e : js_error) : Prop :=
  parse_error e \/
  e = Error (js "Unsupported SQL statement type: " ++ first) \/
  ((first = js "CREATE" \/ first = js "DROP") /\
   e = type_error (js "Cannot read properties of undefined (reading 'value')")).

Lemma spec_result {A} (Q : A -> Prop) (m : P A) ts :
  spec 0 Q m -> match fst (m ts) with Ok v => Q v | Throw e => parse_error e end.
Proof. intros H. specialize (H ts). unfold post in H. destruct (m ts) as [[a|e] ts']; tauto. Qed.

Lemma third_token_ok first ts :
  first = js "CREATE" \/ first = js "DROP" ->
  match third_token ts with Ok v => statement first v | Throw e => statement_error first e end.
Proof.
  intros Hf. unfold third_token. destruct (ts !! 2) as [t|].
  - do 4 right. split; [done|]. unfold ddl_query. literal_shape.
  - right. right. by split.
Qed.

Lemma statement_errors_not_fuel first : ~ statement_error first out_of_fuel.
Proof.
  unfold statement_error, parse_error, out_of_fuel, syntax_error, Error, type_error.
  intros [[?|[[]|[[]|[]]]]|[?|[_ ?]]]; discriminate.
Qed.

Lemma parse_statement sql :
  let first := text (current_of (tokenize sql)) in
  match parse sql with Ok v => statement first v | Throw e => statement_error first e end.
Proof.
  cbn zeta. set (first := text (current_of (tokenize sql))).
  unfold parse, parse_tokens, jeqb. fold first.
  repeat case_bool_decide; try (apply third_token_ok; tauto).
  - pose proof (spec_result _ _ (tokenize sql) spec_parseSelect) as Hs.
    destruct (fst (parseSelect _)); [left; done|by left].
  - pose proof (spec_result _ _ (tokenize sql) spec_parseInsert) as Hs.
    destruct (fst (parseInsert _)); [right; left; done|by left].
  - pose proof (spec_result _ _ (tokenize sql) spec_parseUpdate) as Hs.
    destruct (fst (parseUpdate _)); [right; right; left; done|by left].
  - pose proof (spec_result _ _ (tokenize sql) spec_parseDelete) as Hs.
    destruct (fst (parseDelete _)); [do 3 right; left; done|by left].
  - right. by left.
Qed.

(** C34: parsing ends with a result for every text: a statement object of the shape its
    keyword calls for, or one of the parser's own errors.  A WHERE clause is a
    disjunction of conjunctions of known operators over scalars, never empty at any
    level, in objects whose properties are in order. *)
Theorem parse_shape sql :
  let first := text (current_of (tokenize sql)) in
  match parse sql with
  | Ok v => statement first v
  | Throw e => statement_error first e /\ e <> out_of_fuel
  end.
Proof.
  cbn zeta. pose proof (parse_statement sql) as H. cbn zeta in H.
  destruct (parse sql) as [v|e]; [done|]. split; [done|]. intros ->.
  by eapply statement_errors_not_fuel.
Qed.

(** The lexer has no sign: a minus before a number is dropped, so a condition over a
    negative number is read as the condition over its absolute value. *)
Theorem parse_drops_minus :
  parse (js "SELECT * FROM t WHERE x > -5") = parse (js "SELECT * FROM t WHERE x > 5") /\
  parse (js "INSERT INTO t (x) VALUES (-5)") = parse (js "INSERT INTO t (x) VALUES (5)").
Proof. by split; vm_compute. Qed.

End Parser.
