(* ===== verification/Builder.v ===== *)
(** From query objects back to SQL text: the fluent builders of [src/query/parser.js]
    ([QueryBuilder], [JoinBuilder]) and the parameters of the browser client's SQL tag
    ([sqlValue] of [src/browser/fylo.js]). *)

From S2P Require Import Prelude JsNum JsValue Lexer Parser.

Module Builder.
Import Lexer Parser.

(** [operatorToSQL]; the operators of a condition, not names every object inherits. *)
Definition operatorToSQL (operator : jstr) : jstr :=
  default (js "=") (alist_get operator
    [(js "$eq", js "="); (js "$ne", js "!="); (js "$gt", js ">"); (js "$lt", js "<");
     (js "$gte", js ">="); (js "$lte", js "<="); (js "$like", js "LIKE")]).
Definition joinOperatorToSQL (operator : jstr) : jstr :=
  default (js "=") (alist_get operator
    [(js "$eq", js "="); (js "$ne", js "!="); (js "$gt", js ">"); (js "$lt", js "<");
     (js "$gte", js ">="); (js "$lte", js "<=")]).

(** A [QueryBuilder]: its collection and the query object under construction. *)
Record QueryBuilder := { collection : jstr; queryAst : object }.

Definition query (name : jstr) : QueryBuilder :=
  {| collection := name; queryAst := [(js "$collection", VStr name)] |}.
Definition set (k : jstr) (v : value) (b : QueryBuilder) : QueryBuilder :=
  {| collection := collection b; queryAst := obj_set k v (queryAst b) |}.
Definition select (columns : list jstr) := set (js "$select") (VArr (map VStr columns)).
Definition where_ (conditions : list value) := set (js "$ops") (VArr conditions).
Definition limit (count : value) := set (js "$limit") count.
Definition groupBy (column : jstr) := set (js "$groupby") (VStr column).
Definition onlyIds := set (js "$onlyIds") (VBool true).
Definition build (b : QueryBuilder) : value := VObj (queryAst b).

Definition quote (v : jstr) : jstr := js "'" ++ v ++ js "'".

(** [typeof value === 'string' ? `'${value}'` : value] in a template. *)
Definition condition_value (v : value) : jstr :=
  match v with VStr s => quote s | _ => to_str v end.

Definition condition_sql (column : jstr) (entry : jstr * value) : jstr :=
  column ++ js " " ++ operatorToSQL (fst entry) ++ js " " ++ condition_value (snd entry).

(** [Object.entries(operand ?? {})] *)
Definition operand_entries (operand : value) : object :=
  if is_nullish operand then [] else entries operand.

Definition column_sql (entry : jstr * value) : jstr :=
  join_with (js " AND ") (map (condition_sql (fst entry)) (operand_entries (snd entry))).
Definition operation_sql (op : value) : jstr :=
  join_with (js " AND ") (map column_sql (entries op)).

(** [' GROUP BY ...'] and [' LIMIT ...'], on the value there. *)
Definition group_sql (groupby : value) : jstr :=
  if truthy groupby then js " GROUP BY " ++ to_str groupby else [].
Definition limit_sql (limit : value) : jstr :=
  if truthy limit then js " LIMIT " ++ to_str limit else [].
Definition select_sql (select : value) : jstr :=
  match select with
  | VArr l => join_values (js ", ") l
  | _ => js "*"
  end.

(** [toSQL]: [$select] and [$ops] are absent or arrays, as their setters make them. *)
Definition toSQL (b : QueryBuilder) : jstr :=
  let ast := VObj (queryAst b) in
  js "SELECT " ++ select_sql (prop ast (js "$select")) ++ js " FROM " ++ collection b ++
  match prop ast (js "$ops") with
  | VArr (op :: ops) => js " WHERE " ++ join_with (js " AND ") (map operation_sql (op :: ops))
  | _ => []
  end ++
  group_sql (prop ast (js "$groupby")) ++ limit_sql (prop ast (js "$limit")).

(** A [JoinBuilder]. *)
Definition JoinBuilder : Type := object.

Definition join (left right : jstr) : JoinBuilder :=
  [(js "$leftCollection", VStr left); (js "$rightCollection", VStr right);
   (js "$mode", VStr (js "inner"))].
Definition join_select (columns : list jstr) : JoinBuilder -> JoinBuilder :=
  obj_set (js "$select") (VArr (map VStr columns)).
(** [innerJoin], [leftJoin], [rightJoin], [outerJoin]: the mode's name. *)
Definition join_mode (mode : jstr) : JoinBuilder -> JoinBuilder := obj_set (js "$mode") (VStr mode).
Definition on (conditions : value) : JoinBuilder -> JoinBuilder := obj_set (js "$on") conditions.
Definition join_limit (count : value) : JoinBuilder -> JoinBuilder := obj_set (js "$limit") count.
Definition join_groupBy (column : jstr) : JoinBuilder -> JoinBuilder :=
  obj_set (js "$groupby") (VStr column).
Definition join_onlyIds : JoinBuilder -> JoinBuilder := obj_set (js "$onlyIds") (VBool true).
Definition rename (mapping : object) : JoinBuilder -> JoinBuilder := obj_set (js "$rename") (VObj mapping).
Definition join_build (b : JoinBuilder) : outcome value :=
  if truthy (prop (VObj b) (js "$on")) then Ok (VObj b)
  else Throw (Error (js "JOIN query must have ON conditions")).

Definition join_condition_sql (left right leftCol : jstr) (entry : jstr * value) : jstr :=
  left ++ js "." ++ leftCol ++ js " " ++ joinOperatorToSQL (fst entry) ++ js " " ++
  right ++ js "." ++ to_str (snd entry).

Definition join_toSQL (b : JoinBuilder) : jstr :=
  let ast := VObj b in
  let left := to_str (prop ast (js "$leftCollection")) in
  let right := to_str (prop ast (js "$rightCollection")) in
  let mode := match prop ast (js "$mode") with
              | VStr m => if bool_decide (m = []) then js "INNER" else to_upper m
              | _ => js "INNER"
              end in
  js "SELECT " ++ select_sql (prop ast (js "$select")) ++ js " FROM " ++ left ++
  js " " ++ mode ++ js " JOIN " ++ right ++
  (if truthy (prop ast (js "$on"))
   then js " ON " ++ join_with (js " AND ")
          (map (fun entry => join_with (js " AND ")
                  (map (join_condition_sql left right (fst entry)) (operand_entries (snd entry))))
             (entries (prop ast (js "$on"))))
   else []) ++
  group_sql (prop ast (js "$groupby")) ++ limit_sql (prop ast (js "$limit")).

(** [FyloBrowser.sqlValue(value)] on the values of the model. *)
Definition sqlValue (v : value) : outcome jstr :=
  match v with
  | VUndef | VNull => Ok (js "NULL")
  | VNum n => if Num.is_finite n then Ok (Num.to_string n)
              else Throw (Error (js "SQL parameter must be a finite number"))
  | VBool b => Ok (if b then js "true" else js "false")
  | VStr s => Ok (quote (replace_char 39 (js "''") s))
  | VArr _ | VObj _ => Throw (Error (js "SQL parameters must be scalar values"))
  end.

(** The statement the SQL tag makes of a template's [strings] and [values]. *)
Fixpoint sql_rest (strings : list jstr) (values : list value) : outcome jstr :=
  match values with
  | [] => Ok []
  | v :: values' =>
      text ← sqlValue v;
      rest ← sql_rest (tail strings) values';
      Ok (text ++ default [] (head strings) ++ rest)
  end.
Definition sql_statement (strings : list jstr) (values : list value) : outcome jstr :=
  rest ← sql_rest (tail strings) values; Ok (default [] (head strings) ++ rest).


(** ** Conditions as a flat list *)

Definition flatten (conj : object) : list SqlCondition :=
  flat_map (fun kv => map (fun e => {| column := fst kv; operator := fst e; operand := snd e |})
                        (operand_entries (snd kv))) conj.

Definition cond_sql (c : SqlCondition) : jstr := condition_sql (column c) (operator c, operand c).

(** An operand object: not empty, its operators in order. *)
Definition operand_shape (v : value) : Prop :=
  exists o, v = VObj o /\ o <> [] /\ ordered_keys (keys o) = true.

Lemma join_with_app sep (l1 l2 : list jstr) :
  l1 <> [] -> l2 <> [] -> join_with sep (l1 ++ l2) = join_with sep l1 ++ sep ++ join_with sep l2.
Proof.
  induction l1 as [|a l1 IH]; intros H1 H2; [done|]. destruct l1 as [|b l1].
  - simpl. by destruct l2.
  - cbn [app]. rewrite join_with_cons by done. rewrite (join_with_cons sep a (b :: l1)) by done.
    cbn [app] in IH. rewrite IH by done. by rewrite <- !app_assoc.
Qed.

Lemma operation_sql_flatten conj :
  Forall (fun kv => operand_shape (snd kv)) conj -> conj <> [] ->
  operation_sql (VObj conj) = join_with (js " AND ") (map cond_sql (flatten conj)).
Proof.
  unfold operation_sql. cbn [entries]. intros H Hne.
  induction H as [|[c v] conj (o & Hv & Ho & _) Hconj IH]; [done|]. cbn [snd] in Hv. subst v.
  assert (column_sql (c, VObj o) = join_with (js " AND ")
    (map cond_sql (map (fun e => {| column := c; operator := fst e; operand := snd e |}) o))) as Hcol.
  { unfold column_sql. cbn [snd fst operand_entries is_nullish entries]. f_equal. rewrite map_map.
    apply map_ext. by intros []. }
  destruct conj as [|kv conj].
  - cbn [map flatten flat_map join_with]. rewrite app_nil_r. exact Hcol.
  - cbn [map]. rewrite join_with_cons by done. cbn [map] in IH. rewrite IH by done. rewrite Hcol.
    change (flatten ((c, VObj o) :: kv :: conj)) with
      (map (fun e => {| column := c; operator := fst e; operand := snd e |}) o ++ flatten (kv :: conj)).
    rewrite map_app, join_with_app; [done| |].
    + by destruct o.
    + inversion_clear Hconj as [|? ? (o' & Hv' & Ho' & _) _].
      destruct kv as [c' v']. cbn [snd] in Hv'. subst v'. by destruct o'.
Qed.

(** Adding the conditions of an ordered conjunction one by one rebuilds it. *)
Lemma fold_add_block c p o acc r :
  ordered_keys (keys acc ++ c :: r) = true -> ordered_keys (keys (p ++ o)) = true ->
  fold_left (fun t e => add_condition e t)
    (map (fun e => {| column := c; operator := fst e; operand := snd e |}) o)
    (acc ++ [(c, VObj p)]) = acc ++ [(c, VObj (p ++ o))].
Proof.
  intros Hc. revert p. induction o as [|[k v] o IH]; intros p Hp; simpl; [by rewrite app_nil_r|].
  apply ordered_keys_mid in Hc as Hmid. destruct Hmid as [Hni _].
  assert (alist_get c (acc ++ [(c, VObj p)]) = Some (VObj p)) as Hget.
  { clear -Hni. induction acc as [|[k' v'] acc IHacc]; simpl; [by rewrite decide_True|].
    cbn in Hni. apply not_elem_of_cons in Hni as [? ?]. rewrite decide_False by done. auto. }
  assert (add_condition {| column := c; operator := k; operand := v |} (acc ++ [(c, VObj p)]) =
          acc ++ [(c, VObj (p ++ [(k, v)]))]) as ->.
  { unfold add_condition. cbn [column operator operand]. rewrite Hget.
    change (default safeRecord (fields_of <$> Some (VObj p))) with p.
    rewrite (obj_set_last k v p o) by (unfold keys in *; by rewrite map_app in Hp).
    unfold obj_set. rewrite Hget. clear -Hni.
    induction acc as [|[k' v'] acc IHacc]; simpl; [by rewrite decide_True|].
    cbn in Hni. apply not_elem_of_cons in Hni as [? ?]. rewrite decide_False by done. f_equal. auto. }
  rewrite IH; rewrite <- app_assoc; done.
Qed.

Lemma fold_add_conditions conj acc :
  Forall (fun kv => operand_shape (snd kv)) conj -> ordered_keys (keys (acc ++ conj)) = true ->
  fold_left (fun t e => add_condition e t) (flatten conj) acc = acc ++ conj.
Proof.
  intros H. revert acc. induction H as [|[c v] conj (o & Hv & Ho & Hk) Hconj IH]; intros acc Hacc.
  { simpl. by rewrite app_nil_r. }
  cbn [snd] in Hv. subst v. destruct o as [|[k w] o]; [done|].
  change (flatten ((c, VObj ((k, w) :: o)) :: conj)) with
    ({| column := c; operator := k; operand := w |} ::
     map (fun e => {| column := c; operator := fst e; operand := snd e |}) o ++ flatten conj).
  cbn [fold_left]. rewrite fold_left_app.
  assert (ordered_keys (keys acc ++ c :: keys conj) = true) as Hmid.
  { unfold keys in *. by rewrite map_app in Hacc. }
  assert (add_condition {| column := c; operator := k; operand := w |} acc = acc ++ [(c, VObj [(k, w)])]) as ->.
  { unfold add_condition. cbn [column operator operand].
    pose proof (ordered_keys_mid _ _ _ Hmid) as [Hni _]. apply alist_get_None in Hni. rewrite Hni.
    cbn. by apply (obj_set_last c (VObj [(k, w)]) acc conj). }
  rewrite (fold_add_block c [(k, w)] o acc (keys conj)) by done.
  rewrite IH; rewrite <- app_assoc; done.
Qed.

(** ** The tokens of the printed text *)

(** A word that is not a keyword. *)
Definition plain_word (w : jstr) : bool := word w && bool_decide (getKeywordType w = IDENTIFIER).

(** A value whose text reads back: no apostrophe in a string, a number printed as
    digits that stand for it. *)
Definition printable (v : value) : bool :=
  match v with
  | VNull | VBool _ => true
  | VStr s => negb (includes_char 39 s)
  | VNum n =>
      let t := Num.to_string n in
      negb (bool_decide (t = [])) && forallb is_digit t && bool_decide (Num.parseFloat t = n)
  | _ => false
  end.

Definition value_token (v : value) : TokenType * jstr :=
  match v with
  | VStr s => (STRING, s)
  | VBool b => (BOOLEAN, to_str v)
  | VNull => (NULL, to_str v)
  | _ => (NUMBER, to_str v)
  end.
Definition operator_type (o : jstr) : TokenType :=
  default EQUALS (alist_get o
    [(js "$eq", EQUALS); (js "$ne", NOT_EQUALS); (js "$gt", GREATER_THAN); (js "$lt", LESS_THAN);
     (js "$gte", GREATER_EQUAL); (js "$lte", LESS_EQUAL); (js "$like", LIKE)]).
Definition cond_tokens (c : SqlCondition) : list (TokenType * jstr) :=
  [(IDENTIFIER, column c); (operator_type (operator c), operatorToSQL (operator c));
   value_token (operand c)].
Definition cond_ok (c : SqlCondition) : Prop :=
  plain_word (column c) = true /\ operator c ∈ sql_operators /\ printable (operand c) = true.

(** A continuation at which the last token ends. *)
Definition at_space (s : jstr) : Prop := s = [] \/ exists r, s = 32%N :: r.

Lemma lexed_plain_word w s :
  plain_word w = true -> at_space s -> lexed (w ++ s) = (IDENTIFIER, w) :: lexed s.
Proof.
  intros [Hw Hk%bool_decide_eq_true]%andb_true_iff Hs. rewrite lexed_word; [by rewrite Hk|done|].
  by destruct Hs as [->|[r ->]].
Qed.

Lemma lexed_keyword w t s :
  word w = true -> getKeywordType w = t -> at_space s -> lexed (w ++ s) = (t, w) :: lexed s.
Proof. intros Hw <- Hs. apply lexed_word; [done|]. by destruct Hs as [->|[r ->]]. Qed.

Lemma lexed_operator o s :
  o ∈ sql_operators ->
  lexed (operatorToSQL o ++ 32%N :: s) = (operator_type o, operatorToSQL o) :: lexed s.
Proof.
  intros Ho. repeat (apply elem_of_cons in Ho as [->|Ho]); [..|by apply elem_of_nil in Ho].
  all: match goal with
       | |- lexed (operatorToSQL (js "$like") ++ _) = _ =>
           rewrite (lexed_keyword (operatorToSQL (js "$like")) LIKE);
             [by rewrite lexed_space|by vm_compute|by vm_compute|right; by eexists]
       | _ => idtac
       end.
  all: match goal with
       | |- lexed (operatorToSQL ?o ++ _) = _ =>
           let t := eval vm_compute in (operatorToSQL o) in
           change (operatorToSQL o) with t; let ty := eval vm_compute in (operator_type o) in
           change (operator_type o) with ty
       end.
  all: cbn [app];
       match goal with |- lexed (?c :: ?s') = ?t :: _ =>
         rewrite (lexed_turn c s' (Some t) (32%N :: s)); [|done|reflexivity] end;
       cbn [option_list app]; by rewrite lexed_space.
Qed.

Lemma replace_char_id q by_ s : q ∉ s -> replace_char q by_ s = s.
Proof.
  intros H. induction s as [|x s IH]; cbn; [done|].
  apply not_elem_of_cons in H as [Hne H]. rewrite (proj2 (N.eqb_neq x q)) by congruence.
  cbn. f_equal. by apply IH.
Qed.

Lemma lexed_value v s :
  printable v = true -> at_space s -> lexed (condition_value v ++ s) = value_token v :: lexed s.
Proof.
  intros Hv Hs. destruct v as [| |b|n|t| |]; try done; cbn [condition_value value_token].
  - by apply lexed_keyword.
  - destruct b; by apply lexed_keyword.
  - cbn [printable] in Hv. rewrite !andb_true_iff in Hv. destruct Hv as [[Hne Hd] _].
    apply lexed_number; [|done|].
    + intros H. by rewrite bool_decide_true in Hne.
    + by destruct Hs as [->|[r ->]].
  - cbn [printable] in Hv. apply negb_true_iff, includes_char_false in Hv.
    unfold quote. rewrite <- !app_assoc. cbn [js app].
    rewrite <- (replace_char_id 39 [39; 39]%N t Hv) at 1.
    apply lexed_quoted. by destruct Hs as [->|[r ->]].
Qed.

Lemma lexed_condition c s :
  cond_ok c -> at_space s -> lexed (cond_sql c ++ s) = cond_tokens c ++ lexed s.
Proof.
  intros (Hc & Ho & Hv) Hs. unfold cond_sql, condition_sql, cond_tokens. cbn [fst snd].
  rewrite <- !app_assoc. change (js " ") with [32%N]. cbn [app].
  rewrite lexed_plain_word by (done || (right; by eexists)).
  rewrite lexed_space by done. rewrite lexed_operator by done. by rewrite lexed_value.
Qed.

(** Lists printed with a separator. *)
Lemma lexed_separated {A} (text : A -> jstr) (toks : A -> list (TokenType * jstr)) sep septoks
    (ok : A -> Prop) (after : jstr -> Prop) (l : list A) s :
  (forall a s, ok a -> after s -> lexed (text a ++ s) = toks a ++ lexed s) ->
  (forall s, lexed (sep ++ s) = septoks ++ lexed s) -> (forall s, after (sep ++ s)) ->
  l <> [] -> Forall ok l -> after s ->
  lexed (join_with sep (map text l) ++ s) =
    concat (map toks (take 1 l)) ++ concat (map (fun a => septoks ++ toks a) (drop 1 l)) ++ lexed s.
Proof.
  intros Htext Hsep Hafter Hne Hall Hs. destruct l as [|a l]; [done|].
  cbn [take drop map concat]. rewrite take_0, drop_0. cbn [map concat]. rewrite app_nil_r. clear Hne.
  revert a Hall. induction l as [|b l IH]; intros a Hall; inversion_clear Hall as [|? ? Ha Hl].
  - cbn [map join_with concat app]. by apply Htext.
  - cbn [map]. rewrite join_with_cons by done. rewrite <- !app_assoc, Htext by done.
    rewrite Hsep. cbn [map] in IH. rewrite IH by done. cbn [map concat]. by rewrite <- !app_assoc.
Qed.


(** ** The parser on tokens of known shape *)

(** On any tokens of shape [l], [m] gives [a] and leaves tokens of shape [l']. *)
Definition reads {A} (m : P A) (l : list (TokenType * jstr)) (a : A)
    (l' : list (TokenType * jstr)) : Prop :=
  forall ts, shape ts = l -> exists ts', m ts = (Ok a, ts') /\ shape ts' = l'.

Lemma reads_ret {A} (a : A) l : reads (mret a) l a l.
Proof. intros ts H. by exists ts. Qed.

Lemma reads_bind {A B} (m : P A) (f : A -> P B) l l1 l2 a b :
  reads m l a l1 -> reads (f a) l1 b l2 -> reads (m ≫= f) l b l2.
Proof.
  intros Hm Hf ts Hts. destruct (Hm ts Hts) as (ts1 & H1 & Hs1).
  destruct (Hf ts1 Hs1) as (ts2 & H2 & Hs2). exists ts2. split; [|done].
  unfold mbind, M_bind. by rewrite H1.
Qed.

Lemma reads_fmap {A B} (m : P A) (f : A -> B) l l1 a :
  reads m l a l1 -> reads (f <$> m) l (f a) l1.
Proof.
  intros Hm ts Hts. destruct (Hm ts Hts) as (ts1 & H1 & Hs1). exists ts1. split; [|done].
  unfold fmap, M_fmap. by rewrite H1.
Qed.

Lemma reads_advance t l : reads advance (t :: l) () l.
Proof. intros [|c ts] H; [done|]. injection H as _ H. by exists ts. Qed.

(** [expect] then the rest, whatever the token's position. *)
Lemma reads_expect {B} (f : Token -> P B) t x l b l' :
  (forall c, text c = x -> reads (f c) l b l') -> reads (expect t ≫= f) ((t, x) :: l) b l'.
Proof.
  intros Hf [|c ts] H; [done|]. cbn in H. injection H as Ht Hx Hl.
  destruct (Hf c Hx ts Hl) as (ts' & H' & Hs). exists ts'. split; [|done].
  unfold expect, current, gets, mbind, M_bind. cbn. rewrite decide_True by done. cbn. exact H'.
Qed.

Lemma reads_expect_text t x l : reads (expect_text t) ((t, x) :: l) x l.
Proof.
  intros [|c ts] H; [done|]. cbn in H. injection H as Ht Hx Hl. exists ts. split; [|done].
  unfold expect_text, expect, current, gets, mbind, M_bind, fmap, M_fmap. cbn.
  rewrite decide_True by done. cbn. by rewrite Hx.
Qed.

Lemma reads_match types t x l :
  reads (match_ types) ((t, x) :: l) (bool_decide (t ∈ types)) ((t, x) :: l).
Proof.
  intros [|c ts] H; [done|]. cbn in H. injection H as Ht Hx Hl. exists (c :: ts).
  split; [|cbn; by rewrite Ht, Hx, Hl]. unfold match_, gets. cbn. by rewrite Ht.
Qed.

Lemma reads_at t t' x l :
  reads (at_ t) ((t', x) :: l) (bool_decide (t' = t)) ((t', x) :: l).
Proof.
  pose proof (reads_match [t] t' x l) as H. unfold at_.
  replace (bool_decide (t' = t)) with (bool_decide (t' ∈ [t])); [done|].
  apply bool_decide_ext. apply list_elem_of_singleton.
Qed.

Lemma reads_current {B} (f : Token -> P B) t x l b l' :
  (forall c, type c = t -> text c = x -> reads (f c) ((t, x) :: l) b l') ->
  reads (current ≫= f) ((t, x) :: l) b l'.
Proof.
  intros Hf [|c ts] H; [done|]. pose proof H as H0. cbn in H. injection H as Ht Hx Hl.
  exact (Hf c Ht Hx (c :: ts) H0).
Qed.

Lemma reads_turns {B} (f : nat -> P B) l b l' :
  reads (f (S (length l))) l b l' -> reads (turns_left ≫= f) l b l'.
Proof.
  intros Hf ts H. unfold turns_left, gets, mbind, M_bind. cbn.
  replace (length ts) with (length l) by (rewrite <- H; unfold shape; apply length_map).
  by apply Hf.
Qed.

(** The value a printed value's token stands for. *)
Lemma reads_value v l : printable v = true -> reads parseValue (value_token v :: l) v l.
Proof.
  intros Hv. unfold parseValue. destruct v as [| |b|n|t| |]; try done; cbn [value_token];
    apply reads_current; intros c Ht Hx; rewrite Ht; cbn match;
    eapply reads_bind; try apply reads_advance.
  - apply reads_ret.
  - rewrite Hx. replace (jeqb (to_lower (to_str (VBool b))) (js "true")) with b by (by destruct b).
    apply reads_ret.
  - rewrite Hx. cbn [printable] in Hv. rewrite !andb_true_iff in Hv. destruct Hv as [_ Hp].
    apply bool_decide_eq_true in Hp. cbn [to_str]. rewrite Hp. apply reads_ret.
  - rewrite Hx. apply reads_ret.
Qed.

Lemma reads_operator o x l :
  o ∈ sql_operators -> reads parseOperator ((operator_type o, x) :: l) o l.
Proof.
  intros Ho. unfold parseOperator. apply reads_current. intros c Ht _. rewrite Ht.
  assert (operatorMap (operator_type o) = Some o) as ->.
  { repeat (apply elem_of_cons in Ho as [->|Ho]); [..|by apply elem_of_nil in Ho]; by vm_compute. }
  eapply reads_bind; [apply reads_advance|apply reads_ret].
Qed.

Lemma reads_condition c l : cond_ok c -> reads parseCondition (cond_tokens c ++ l) c l.
Proof.
  intros (Hc & Ho & Hv). unfold parseCondition, cond_tokens. cbn [app].
  eapply reads_bind; [apply reads_expect_text|].
  eapply reads_bind; [by apply reads_operator|].
  eapply reads_bind; [by apply reads_value|]. destruct c. apply reads_ret.
Qed.

(** A token at which a WHERE clause, a column list and every optional clause end. *)
Definition ends_where (l : list (TokenType * jstr)) : Prop :=
  exists t x r, l = (t, x) :: r /\ t <> AND /\ t <> OR /\ t <> COMMA.

Lemma reads_where_loop cs c f conj l :
  Forall cond_ok (c :: cs) -> length cs < f -> ends_where l ->
  reads (where_loop f [] conj)
    (cond_tokens c ++ concat (map (fun c => (AND, js "AND") :: cond_tokens c) cs) ++ l)
    [VObj (fold_left (fun t e => add_condition e t) (c :: cs) conj)] l.
Proof.
  intros Hall Hf (t & x & r & Hl & Hna & Hno & _). subst l. revert c f conj Hall Hf.
  induction cs as [|c' cs IH]; intros c f conj Hall Hf; destruct f as [|f]; try (simpl in Hf; lia);
    inversion_clear Hall as [|? ? Hc Hcs]; cbn [where_loop fold_left map concat];
    (eapply reads_bind; [by apply reads_condition|]).
  - cbn [app]. eapply reads_bind; [apply reads_at|]. rewrite bool_decide_false by done. cbn match.
    eapply reads_bind; [apply reads_at|]. rewrite bool_decide_false by done. apply reads_ret.
  - cbn [app]. eapply reads_bind; [apply reads_at|]. rewrite bool_decide_true by done. cbn match.
    eapply reads_bind; [apply reads_advance|]. rewrite <- app_assoc. apply IH; [done|simpl in Hf; lia].
Qed.

Lemma reads_columns cs c f acc l :
  length cs < f -> ends_where l ->
  reads (comma_loop push_column f acc)
    ((IDENTIFIER, c) :: concat (map (fun c => [(COMMA, js ","); (IDENTIFIER, c)]) cs) ++ l)
    (acc ++ c :: cs) l.
Proof.
  intros Hf (t & x & r & Hl & _ & _ & Hc). subst l. revert c f acc Hf.
  induction cs as [|c' cs IH]; intros c f acc Hf; destruct f as [|f]; try (simpl in Hf; lia);
    cbn [comma_loop map concat app]; unfold push_column at 1;
    (eapply reads_bind; [eapply reads_bind; [apply reads_expect_text|apply reads_ret]|]).
  - eapply reads_bind; [apply reads_at|]. rewrite bool_decide_false by done. apply reads_ret.
  - eapply reads_bind; [apply reads_at|]. rewrite bool_decide_true by done. cbn match.
    eapply reads_bind; [apply reads_advance|]. cbn [app].
    replace (acc ++ c :: c' :: cs) with ((acc ++ [c]) ++ c' :: cs) by by rewrite <- app_assoc.
    apply IH. simpl in Hf; lia.
Qed.


(** ** No white space to trim *)

Lemma forallb_solid f s :
  s <> [] -> forallb f s = true -> (forall c, f c = true -> is_space c = false) -> solid_end s = true.
Proof.
  intros Hne Hf Hsp. unfold solid_end. destruct (last s) as [c|] eqn:E.
  - apply last_Some in E as [r ->]. rewrite forallb_app in Hf. cbn in Hf.
    rewrite !andb_true_iff in Hf. destruct Hf as (_ & Hc & _). by rewrite (Hsp c Hc).
  - by apply last_None in E.
Qed.

Lemma word_char_not_space c : is_word_char c = true -> is_space c = false.
Proof.
  unfold is_word_char, is_alnum, is_alpha, is_upper, is_lower, is_digit, is_space, in_range. lia.
Qed.

Lemma plain_word_solid w : plain_word w = true -> solid_end w = true.
Proof.
  intros [Hw _]%andb_true_iff. destruct w as [|c w]; [done|]. cbn [word] in Hw.
  apply andb_true_iff in Hw as [_ Hw]. by apply (forallb_solid is_word_char); [| |apply word_char_not_space].
Qed.

Lemma digits_solid t : t <> [] -> forallb is_digit t = true -> solid_end t = true.
Proof.
  intros Hne Ht. apply (forallb_solid is_digit); [done|done|].
  intros c. unfold is_digit, is_space, in_range. lia.
Qed.

Lemma printable_solid v : printable v = true -> solid_end (condition_value v) = true.
Proof.
  destruct v as [| |b|n|t| |]; cbn [printable condition_value]; try done.
  - by destruct b.
  - rewrite !andb_true_iff. intros [[Hne Hd] _]. apply digits_solid; [|done].
    intros H. cbn [to_str] in H. by rewrite bool_decide_true in Hne.
  - intros _. unfold quote. by repeat apply solid_end_app.
Qed.

Lemma conditions_solid cs :
  cs <> [] -> Forall cond_ok cs -> solid_end (join_with (js " AND ") (map cond_sql cs)) = true.
Proof.
  intros Hne Hall. induction Hall as [|c cs Hc Hall IH]; [done|].
  destruct Hc as (_ & _ & Hv). destruct cs as [|c' cs].
  - cbn. unfold cond_sql, condition_sql. do 4 apply solid_end_app. by apply printable_solid.
  - cbn [map]. rewrite join_with_cons by done. do 2 apply solid_end_app. by apply IH.
Qed.

(** ** The round trip *)

(** The clauses after the conditions. *)
Definition with_group (g : option jstr) (b : QueryBuilder) : QueryBuilder :=
  match g with Some c => groupBy c b | None => b end.
Definition with_limit (l : option value) (b : QueryBuilder) : QueryBuilder :=
  match l with Some n => limit n b | None => b end.

(** A limit that prints as the digits it is read from. *)
Definition limit_ok (v : value) : bool :=
  match v with
  | VNum n => truthy v && printable v && bool_decide (Num.parseInt (Num.to_string n) = n)
  | _ => false
  end.

Definition tail_sql (g : option jstr) (l : option value) : jstr :=
  match g with Some c => js " GROUP BY " ++ c | None => [] end ++
  match l with Some n => js " LIMIT " ++ to_str n | None => [] end.
Definition tail_tokens (g : option jstr) (l : option value) : list (TokenType * jstr) :=
  match g with Some c => [(GROUP, js "GROUP"); (BY, js "BY"); (IDENTIFIER, c)] | None => [] end ++
  match l with Some n => [(LIMIT, js "LIMIT"); (NUMBER, to_str n)] | None => [] end ++ [(EOF, [])].

Lemma lexed_tail g l :
  match g with Some c => plain_word c = true | None => True end ->
  match l with Some n => limit_ok n = true | None => True end ->
  lexed (tail_sql g l) = tail_tokens g l /\ at_space (tail_sql g l) /\
  (tail_sql g l = [] \/ solid_end (tail_sql g l) = true).
Proof.
  intros Hg Hl.
  assert (forall n, limit_ok n = true ->
    lexed (js " LIMIT " ++ to_str n) = [(LIMIT, js "LIMIT"); (NUMBER, to_str n); (EOF, [])] /\
    solid_end (to_str n) = true) as Hlimit.
  { intros n Hn. destruct n as [| | |n| | |]; try done. cbn [limit_ok] in Hn.
    rewrite !andb_true_iff in Hn. destruct Hn as [[_ Hp] _].
    split; [|by apply (printable_solid (VNum n))].
    change (js " LIMIT ") with (32%N :: js "LIMIT" ++ [32%N]). cbn [app].
    rewrite <- app_assoc, lexed_space by done. cbn [app].
    rewrite (lexed_keyword (js "LIMIT") LIMIT) by (done || (right; by eexists)).
    rewrite lexed_space by done. f_equal.
    rewrite <- (app_nil_r (to_str (VNum n))) at 1.
    apply (lexed_value (VNum n) []); [done|by left]. }
  unfold tail_sql, tail_tokens. destruct g as [c|].
  - assert (forall s, at_space s -> lexed ((js " GROUP BY " ++ c) ++ s) =
      [(GROUP, js "GROUP"); (BY, js "BY"); (IDENTIFIER, c)] ++ lexed s) as Hgroup.
    { intros s Hs. change (js " GROUP BY ") with (32%N :: js "GROUP" ++ 32%N :: js "BY" ++ [32%N]).
      cbn [app]. rewrite lexed_space by done. rewrite <- !app_assoc. cbn [app]. rewrite <- ?app_assoc. cbn [app].
      rewrite (lexed_keyword (js "GROUP") GROUP) by (done || (right; by eexists)).
      rewrite lexed_space by done.
      rewrite (lexed_keyword (js "BY") BY) by (done || (right; by eexists)).
      rewrite lexed_space by done. by rewrite lexed_plain_word. }
    destruct l as [n|].
    + destruct (Hlimit n Hl) as [H1 H2]. split_and!.
      * rewrite Hgroup by (right; by eexists). by rewrite H1.
      * right. by eexists.
      * right. by do 2 apply solid_end_app.
    + rewrite Hgroup by (by left). rewrite !app_nil_r. split_and!; [done|right; by eexists|].
      right. apply solid_end_app. by apply plain_word_solid.
  - destruct l as [n|]; cbn [app].
    + destruct (Hlimit n Hl) as [H1 H2]. split_and!; [by rewrite H1|right; by eexists|].
      right. by apply solid_end_app.
    + split_and!; [done|by left|by left].
Qed.


Lemma reads_optional_absent t k p o t' x l :
  t' <> t -> reads (optional t k p o) ((t', x) :: l) o ((t', x) :: l).
Proof.
  intros Hne. unfold optional. eapply reads_bind; [apply reads_at|].
  rewrite bool_decide_false by done. apply reads_ret.
Qed.

Lemma reads_optional_present t k p o x l v l' :
  reads p ((t, x) :: l) v l' -> reads (optional t k p o) ((t, x) :: l) (set_field k v o) l'.
Proof.
  intros Hp. unfold optional. eapply reads_bind; [apply reads_at|].
  rewrite bool_decide_true by done. eapply reads_bind; [exact Hp|]. apply reads_ret.
Qed.

Lemma reads_tail g l o :
  match l with Some n => limit_ok n = true | None => True end ->
  exists rest,
  reads (o ← optional GROUP (js "$groupby") parse_group o;
         VObj <$> optional LIMIT (js "$limit") parse_limit o) (tail_tokens g l)
    (VObj (match l with Some n => set_field (js "$limit") n | None => id end
             (match g with Some c => set_field (js "$groupby") (VStr c) | None => id end o))) rest.
Proof.
  intros Hl. unfold tail_tokens.
  assert (forall o' n, limit_ok n = true ->
    reads (VObj <$> optional LIMIT (js "$limit") parse_limit o') [(LIMIT, js "LIMIT"); (NUMBER, to_str n); (EOF, [])]
      (VObj (set_field (js "$limit") n o')) [(EOF, [])]) as Hlimit.
  { intros o' n Hn. destruct n as [| | |n| | |]; try done. cbn [limit_ok] in Hn.
    rewrite !andb_true_iff, bool_decide_eq_true in Hn. destruct Hn as [_ Hn].
    eapply reads_fmap. apply reads_optional_present. unfold parse_limit.
    eapply reads_bind; [apply reads_advance|]. rewrite <- Hn at 2.
    apply (reads_fmap _ (fun t => VNum (Num.parseInt t))). apply reads_expect_text. }
  assert (forall o' l', reads (optional GROUP (js "$groupby") parse_group o')
      ([(GROUP, js "GROUP"); (BY, js "BY"); (IDENTIFIER, default [] g)] ++ l')
      (set_field (js "$groupby") (VStr (default [] g)) o') l') as Hgroup.
  { intros o' l'. apply reads_optional_present. unfold parse_group.
    eapply reads_bind; [apply reads_advance|]. apply reads_expect. intros _ _.
    eapply reads_fmap, reads_expect_text. }
  exists [(EOF, [])]. destruct g as [c|], l as [n|]; cbn [app].
  - eapply reads_bind; [apply (Hgroup o _)|]. by apply Hlimit.
  - eapply reads_bind; [apply (Hgroup o _)|]. eapply reads_fmap.
    by apply reads_optional_absent.
  - eapply reads_bind; [by apply reads_optional_absent|]. by apply Hlimit.
  - eapply reads_bind; [by apply reads_optional_absent|]. eapply reads_fmap.
    by apply reads_optional_absent.
Qed.

Lemma tail_ends g l : ends_where (tail_tokens g l).
Proof. unfold tail_tokens, ends_where. destruct g, l; cbn [app]; by repeat eexists. Qed.

(** A conjunction whose text reads back. *)
Definition conj_ok (conj : object) : Prop :=
  conj <> [] /\ ordered_keys (keys conj) = true /\
  Forall (fun kv => operand_shape (snd kv)) conj /\ Forall cond_ok (flatten conj).

Lemma flatten_nonempty conj :
  conj <> [] -> Forall (fun kv => operand_shape (snd kv)) conj -> flatten conj <> [].
Proof.
  intros Hne H. destruct H as [|[c v] conj (o & Hv & Ho & _) _]; [done|].
  cbn [snd] in Hv. subst v. by destruct o.
Qed.

Lemma reads_where conj l :
  conj_ok conj -> ends_where l ->
  reads parseWhereClause
    ((WHERE, js "WHERE") :: concat (map cond_tokens (take 1 (flatten conj))) ++
     concat (map (fun c => [(AND, js "AND")] ++ cond_tokens c) (drop 1 (flatten conj))) ++ l)
    (VArr [VObj conj]) l.
Proof.
  intros (Hne & Hk & Hs & Hall) Hl. unfold parseWhereClause. apply reads_expect. intros _ _.
  apply reads_turns. eapply reads_fmap.
  pose proof (fold_add_conditions conj [] Hs Hk) as Hfold. cbn [app] in Hfold.
  pose proof (flatten_nonempty conj Hne Hs) as Hf.
  destruct (flatten conj) as [|c cs]; [done|]. rewrite <- Hfold.
  cbn [take drop map concat]. rewrite take_0, drop_0. cbn [map concat]. rewrite app_nil_r.
  apply reads_where_loop; [done| |done].
  rewrite !length_app. assert (length cs <= length (concat (map (fun c => [(AND, js "AND")] ++ cond_tokens c) cs))).
  { clear. induction cs as [|c cs IH]; cbn [map concat]; [done|].
    rewrite !length_app. cbn [length]. lia. }
  lia.
Qed.

(** The builder calls of the round trip, and the object parsing should give. *)
Definition built (name : jstr) (columns : list jstr) (conj : object) (g : option jstr)
    (l : option value) : QueryBuilder :=
  with_limit l (with_group g (where_ [VObj conj] (select columns (query name)))).
Definition expected (name : jstr) (columns : list jstr) (conj : object) (g : option jstr)
    (l : option value) : value :=
  VObj ([(js "$collection", VStr name); (js "$select", VArr (map VStr columns));
         (js "$onlyIds", VBool (bool_decide (js "_id" ∈ columns))); (js "$ops", VArr [VObj conj])] ++
        match g with Some c => [(js "$groupby", VStr c)] | None => [] end ++
        match l with Some n => [(js "$limit", n)] | None => [] end).

Lemma toSQL_built name columns conj g l :
  match g with Some c => plain_word c = true | None => True end ->
  match l with Some n => limit_ok n = true | None => True end ->
  conj_ok conj ->
  toSQL (built name columns conj g l) =
    js "SELECT " ++ join_with (js ", ") columns ++ js " FROM " ++ name ++ js " WHERE " ++
    join_with (js " AND ") (map cond_sql (flatten conj)) ++ tail_sql g l.
Proof.
  intros Hg Hl (Hne & _ & Hs & _). rewrite <- operation_sql_flatten by done.
  assert (group_sql (match g with Some c => VStr c | None => VUndef end) =
          match g with Some c => js " GROUP BY " ++ c | None => [] end) as Hgs.
  { destruct g as [c|]; [|done]. unfold group_sql. by destruct c. }
  assert (limit_sql (match l with Some n => n | None => VUndef end) =
          match l with Some n => js " LIMIT " ++ to_str n | None => [] end) as Hls.
  { destruct l as [n|]; [|done]. unfold limit_sql. destruct n; try done. cbn [limit_ok] in Hl.
    rewrite !andb_true_iff in Hl. by destruct Hl as [[-> _] _]. }
  assert (join_values (js ", ") (map VStr columns) = join_with (js ", ") columns) as Hcols.
  { unfold join_values. f_equal. rewrite map_map. apply map_id. }
  unfold tail_sql. rewrite <- Hgs, <- Hls, <- Hcols. unfold toSQL.
  destruct g as [c|], l as [n|]; cbn -[js join_values operation_sql group_sql limit_sql]; try reflexivity.
Qed.


Lemma lexed_columns columns s :
  columns <> [] -> Forall (fun c => plain_word c = true) columns -> at_space s ->
  lexed (join_with (js ", ") columns ++ s) =
    map (fun c => (IDENTIFIER, c)) (take 1 columns) ++
    concat (map (fun c => [(COMMA, js ","); (IDENTIFIER, c)]) (drop 1 columns)) ++ lexed s.
Proof.
  intros Hne Hall Hs. rewrite <- (map_id columns) at 1.
  rewrite (lexed_separated (fun c => c) (fun c => [(IDENTIFIER, c)]) (js ", ") [(COMMA, js ",")]
             (fun c => plain_word c = true) (fun s => word_end s = true)).
  - f_equal. by destruct columns.
  - intros c s' [Hw Hk%bool_decide_eq_true]%andb_true_iff Hs'. by rewrite lexed_word, Hk.
  - intros s'. change (js ", ") with [44; 32]%N. cbn [app].
    rewrite (lexed_turn 44 (32%N :: s') (Some (COMMA, js ",")) (32%N :: s')) by done.
    cbn [option_list app]. by rewrite lexed_space.
  - done.
  - done.
  - done.
  - by destruct Hs as [->|[r ->]].
Qed.

Lemma lexed_conditions cs s :
  cs <> [] -> Forall cond_ok cs -> at_space s ->
  lexed (join_with (js " AND ") (map cond_sql cs) ++ s) =
    concat (map cond_tokens (take 1 cs)) ++
    concat (map (fun c => [(AND, js "AND")] ++ cond_tokens c) (drop 1 cs)) ++ lexed s.
Proof.
  intros Hne Hall Hs.
  apply (lexed_separated cond_sql cond_tokens (js " AND ") [(AND, js "AND")] cond_ok at_space); try done.
  - intros c s' Hc Hs'. by apply lexed_condition.
  - intros s'. change (js " AND ") with (32%N :: js "AND" ++ [32%N]). cbn [app].
    rewrite lexed_space by done. rewrite <- app_assoc. cbn [app].
    rewrite (lexed_keyword (js "AND") AND) by (done || (right; by eexists)). by rewrite lexed_space.
  - intros s'. right. by eexists.
Qed.

(** The whole statement as tokens. *)
Lemma lexed_built name columns conj g l :
  plain_word name = true -> columns <> [] -> Forall (fun c => plain_word c = true) columns ->
  conj_ok conj ->
  match g with Some c => plain_word c = true | None => True end ->
  match l with Some n => limit_ok n = true | None => True end ->
  shape (tokenize (toSQL (built name columns conj g l))) =
    (SELECT, js "SELECT") :: map (fun c => (IDENTIFIER, c)) (take 1 columns) ++
    concat (map (fun c => [(COMMA, js ","); (IDENTIFIER, c)]) (drop 1 columns)) ++
    (FROM, js "FROM") :: (IDENTIFIER, name) :: (WHERE, js "WHERE") ::
    concat (map cond_tokens (take 1 (flatten conj))) ++
    concat (map (fun c => [(AND, js "AND")] ++ cond_tokens c) (drop 1 (flatten conj))) ++
    tail_tokens g l.
Proof.
  intros Hn Hne Hcols Hconj Hg Hl. rewrite toSQL_built by done.
  pose proof (lexed_tail g l Hg Hl) as (Htail & Hsp & Hsolid).
  pose proof Hconj as (Hcne & _ & Hs & Hall). pose proof (flatten_nonempty _ Hcne Hs) as Hfne.
  rewrite tokenize_lex. unfold init.
  match goal with |- context [trim ?t] => assert (trim t = t) as -> end.
  { change (js "SELECT ") with (83%N :: js "ELECT "). cbn [app]. apply trim_solid; [done|].
    rewrite app_comm_cons. do 5 apply solid_end_app.
    destruct Hsolid as [->|Ht]; [|by apply solid_end_app]. rewrite app_nil_r.
    by apply conditions_solid. }
  change (lexed (js "SELECT " ++ join_with (js ", ") columns ++ js " FROM " ++ name ++ js " WHERE " ++
    join_with (js " AND ") (map cond_sql (flatten conj)) ++ tail_sql g l) = 
    (SELECT, js "SELECT") :: map (fun c => (IDENTIFIER, c)) (take 1 columns) ++
    concat (map (fun c => [(COMMA, js ","); (IDENTIFIER, c)]) (drop 1 columns)) ++
    (FROM, js "FROM") :: (IDENTIFIER, name) :: (WHERE, js "WHERE") ::
    concat (map cond_tokens (take 1 (flatten conj))) ++
    concat (map (fun c => [(AND, js "AND")] ++ cond_tokens c) (drop 1 (flatten conj))) ++
    tail_tokens g l).
  change (js "SELECT ") with (js "SELECT" ++ [32%N]). rewrite <- (app_assoc (js "SELECT")).
  rewrite (lexed_keyword (js "SELECT") SELECT) by (done || (right; by eexists)).
  cbn [app]. rewrite lexed_space by done. f_equal.
  rewrite lexed_columns by (done || (right; by eexists)). do 2 f_equal.
  change (js " FROM ") with (32%N :: js "FROM" ++ [32%N]). cbn [app].
  rewrite lexed_space by done. rewrite <- (app_assoc (js "FROM")).
  rewrite (lexed_keyword (js "FROM") FROM) by (done || (right; by eexists)).
  cbn [app]. rewrite lexed_space by done. f_equal.
  rewrite lexed_plain_word by (done || (right; by eexists)). f_equal.
  change (js " WHERE ") with (32%N :: js "WHERE" ++ [32%N]). cbn [app].
  rewrite lexed_space by done. rewrite <- (app_assoc (js "WHERE")).
  rewrite (lexed_keyword (js "WHERE") WHERE) by (done || (right; by eexists)).
  cbn [app]. rewrite lexed_space by done. f_equal.
  rewrite lexed_conditions by done. by rewrite Htail.
Qed.

Lemma plain_word_not c w : plain_word w = true -> is_word_start c = false -> head w = Some c -> False.
Proof.
  intros [Hw _]%andb_true_iff Hc Hh. destruct w as [|c' w]; [done|]. injection Hh as ->.
  cbn [word] in Hw. by rewrite Hc in Hw.
Qed.

Lemma reads_built name columns conj g l :
  columns <> [] -> Forall (fun c => plain_word c = true) columns -> conj_ok conj ->
  match l with Some n => limit_ok n = true | None => True end ->
  exists rest,
  reads parseSelect
    ((SELECT, js "SELECT") :: map (fun c => (IDENTIFIER, c)) (take 1 columns) ++
    concat (map (fun c => [(COMMA, js ","); (IDENTIFIER, c)]) (drop 1 columns)) ++
    (FROM, js "FROM") :: (IDENTIFIER, name) :: (WHERE, js "WHERE") ::
    concat (map cond_tokens (take 1 (flatten conj))) ++
    concat (map (fun c => [(AND, js "AND")] ++ cond_tokens c) (drop 1 (flatten conj))) ++
    tail_tokens g l)
    (expected name columns conj g l) rest.
Proof.
  intros Hne Hcols Hconj Hl.
  destruct (reads_tail g l [(js "$collection", VStr name); (js "$select", VArr (map VStr columns));
     (js "$onlyIds", VBool (bool_decide (js "_id" ∈ columns))); (js "$ops", VArr [VObj conj])] Hl)
    as [rest Htail].
  exists rest. unfold parseSelect.
  eapply reads_bind.
  { unfold parseSelectClause. apply reads_expect. intros _ _.
    destruct columns as [|c cs]; [done|]. cbn [take drop map app]. rewrite take_0, drop_0. cbn [map app].
    eapply reads_bind; [apply reads_at|]. rewrite bool_decide_false by done. cbn match.
    unfold parse_columns. apply reads_turns. apply (reads_columns cs c _ []).
    - cbn [length]. rewrite length_app.
      assert (length cs <= length (concat (map (fun c => [(COMMA, js ","); (IDENTIFIER, c)]) cs))).
      { clear. induction cs as [|c cs IH]; cbn [map concat]; [done|].
        rewrite length_app. cbn [length]. lia. }
      lia.
    - by repeat eexists. }
  destruct columns as [|c cs]; [done|]. cbn [app].
  apply reads_expect. intros _ _.
  eapply reads_bind; [apply reads_expect_text|].
  eapply reads_bind; [apply reads_match|]. rewrite bool_decide_false by (by vm_compute; set_solver).
  assert (select_value (c :: cs) = VArr (map VStr (c :: cs))) as ->.
  { unfold select_value. rewrite bool_decide_false; [done|]. intros Hin.
    rewrite Forall_forall in Hcols. specialize (Hcols _ Hin).
    by apply (plain_word_not 42 _ Hcols). }
  eapply reads_bind.
  { apply reads_optional_present. by apply reads_where, tail_ends. }
  unfold expected. destruct g as [gc|], l as [n|]; exact Htail.
Qed.

(** C6: the SQL a query builder prints for a selection of one or more columns under one
    conjunction of conditions, with or without GROUP BY and LIMIT, parses back to the query
    object the builder holds ([$onlyIds] computed from the columns), as long as names are plain
    identifiers, strings hold no apostrophe and numbers print as digits.  Alternatives are not
    among these queries: [toSQL_loses_alternatives]. *)
Theorem toSQL_parses_back name columns conj g l :
  plain_word name = true -> columns <> [] -> Forall (fun c => plain_word c = true) columns ->
  conj_ok conj ->
  match g with Some c => plain_word c = true | None => True end ->
  match l with Some n => limit_ok n = true | None => True end ->
  parse (toSQL (built name columns conj g l)) = Ok (expected name columns conj g l).
Proof.
  intros Hn Hne Hcols Hconj Hg Hl.
  pose proof (lexed_built name columns conj g l Hn Hne Hcols Hconj Hg Hl) as Hshape.
  destruct (reads_built name columns conj g l Hne Hcols Hconj Hl) as [rest Hr].
  destruct (Hr _ Hshape) as (ts' & Hts & _).
  unfold parse, parse_tokens. destruct (tokenize _) as [|t ts] eqn:E; [done|].
  injection Hshape as _ Ht _. rewrite current_of_cons, Ht. cbn -[parseSelect]. by rewrite Hts.
Qed.


Definition sample_conj : object :=
  [(js "age", VObj [(js "$gte", VNum (Num.of_Z 18)); (js "$lt", VNum (Num.of_Z 30))]);
   (js "name", VObj [(js "$like", VStr (js "%a_"))])].

Lemma sample_conj_ok : conj_ok sample_conj.
Proof.
  split_and!; [done|by vm_compute| |].
  - repeat constructor; eexists; split_and!; done.
  - repeat constructor; try (by vm_compute); by apply (bool_decide_unpack _).
Qed.

Lemma toSQL_parses_back_witness :
  parse (toSQL (built (js "users") [js "_id"; js "name"] sample_conj (Some (js "city")) (Some (VNum (Num.of_Z 7))))) =
  Ok (expected (js "users") [js "_id"; js "name"] sample_conj (Some (js "city")) (Some (VNum (Num.of_Z 7)))).
Proof.
  apply (toSQL_parses_back (js "users") [js "_id"; js "name"] sample_conj (Some (js "city"))
           (Some (VNum (Num.of_Z 7)))).
  - vm_compute. reflexivity.
  - discriminate.
  - repeat constructor; vm_compute; reflexivity.
  - exact sample_conj_ok.
  - vm_compute. reflexivity.
  - vm_compute. reflexivity.
Defined.

(** A value interpolated by the SQL tag lexes to one token, the value itself, whatever
    characters it has and whatever follows that is not an apostrophe or a word: no text
    inside it can end the string early.  Numbers apart, which are printed bare. *)
Theorem sqlValue_is_one_token v t next :
  sqlValue v = Ok t -> (forall n, v <> VNum n) -> word_end next = true -> head next <> Some 39%N ->
  lexed (t ++ next) = (match v with VUndef => (NULL, js "NULL") | VNull => (NULL, js "NULL")
                              | _ => value_token v end) :: lexed next.
Proof.
  intros Hv Hn Hw Hq.
  destruct v as [| |b|n|s| |]; [| | |by destruct (Hn n)| |discriminate|discriminate];
    injection Hv as <-.
  - by rewrite lexed_word.
  - by rewrite lexed_word.
  - destruct b; by rewrite lexed_word.
  - unfold quote. rewrite <- !app_assoc. cbn [js app]. by apply lexed_quoted.
Qed.

Lemma sqlValue_is_one_token_witness :
  lexed (js "'x'' OR ''1'' = ''1'" ++ js ")") = (STRING, js "x' OR '1' = '1") :: lexed (js ")").
Proof.
  apply (sqlValue_is_one_token (VStr (js "x' OR '1' = '1"))); [by vm_compute|done|done|done].
Defined.

(** A word and the space after it. *)
Lemma lexed_word_space w t s :
  word w = true -> getKeywordType w = t -> lexed (w ++ 32%N :: s) = (t, w) :: lexed s.
Proof.
  intros Hw Ht. rewrite (lexed_keyword w t) by (done || (right; by eexists)). by rewrite lexed_space.
Qed.

Lemma lexed_star s : lexed (42%N :: s) = (ASTERISK, js "*") :: lexed s.
Proof. by apply (lexed_turn 42 s (Some (ASTERISK, js "*")) s). Qed.
Lemma lexed_equals s : lexed (61%N :: s) = (EQUALS, js "=") :: lexed s.
Proof. by apply (lexed_turn 61 s (Some (EQUALS, js "=")) s). Qed.

(** The text before the parameter of [sql_tag_injection_safe]. *)
Lemma lexed_where_name s :
  lexed (js "SELECT * FROM users WHERE name = " ++ s) =
    [(SELECT, js "SELECT"); (ASTERISK, js "*"); (FROM, js "FROM"); (IDENTIFIER, js "users");
     (WHERE, js "WHERE"); (IDENTIFIER, js "name"); (EQUALS, js "=")] ++ lexed s.
Proof.
  change (js "SELECT * FROM users WHERE name = " ++ s) with
    (js "SELECT" ++ 32%N :: 42%N :: 32%N :: (js "FROM" ++ 32%N :: (js "users" ++ 32%N ::
     (js "WHERE" ++ 32%N :: (js "name" ++ 32%N :: 61%N :: 32%N :: s))))).
  rewrite (lexed_word_space _ SELECT) by done.
  rewrite lexed_star, lexed_space by done.
  rewrite (lexed_word_space _ FROM) by done. rewrite (lexed_word_space _ IDENTIFIER) by done.
  rewrite (lexed_word_space _ WHERE) by done. rewrite (lexed_word_space _ IDENTIFIER) by done.
  by rewrite lexed_equals, lexed_space.
Qed.

(** End to end: whatever the string, this tagged statement asks for exactly the rows whose
    field equals it. *)
Lemma tagged_name_is_compared s :
  sql_statement [js "SELECT * FROM users WHERE name = "; []] [VStr s] ≫= parse =
    Ok (VObj [(js "$collection", VStr (js "users")); (js "$select", VUndef);
              (js "$onlyIds", VBool false);
              (js "$ops", VArr [VObj [(js "name", VObj [(js "$eq", VStr s)])]])]).
Proof.
  set (body := replace_char 39 (js "''") s).
  set (sql := js "SELECT * FROM users WHERE name = " ++ js "'" ++ body ++ js "'").
  assert (sql_statement [js "SELECT * FROM users WHERE name = "; []] [VStr s] = Ok sql) as ->.
  { unfold sql, body. cbn. unfold quote. by rewrite app_nil_r. }
  assert (shape (tokenize sql) =
    [(SELECT, js "SELECT"); (ASTERISK, js "*"); (FROM, js "FROM"); (IDENTIFIER, js "users");
     (WHERE, js "WHERE"); (IDENTIFIER, js "name"); (EQUALS, js "="); (STRING, s); (EOF, [])]) as Hshape.
  { rewrite tokenize_lex. unfold init.
    assert (trim sql = sql) as ->.
    { unfold sql. change (js "SELECT * FROM users WHERE name = ") with (83%N :: js "ELECT * FROM users WHERE name = ").
      cbn [app]. apply trim_solid; [done|]. rewrite app_comm_cons. by do 3 apply solid_end_app. }
    change (lexed sql = [(SELECT, js "SELECT"); (ASTERISK, js "*"); (FROM, js "FROM"); (IDENTIFIER, js "users");
     (WHERE, js "WHERE"); (IDENTIFIER, js "name"); (EQUALS, js "="); (STRING, s); (EOF, [])]).
    unfold sql. rewrite lexed_where_name. cbn [app]. do 7 f_equal. by apply (lexed_quoted s []). }
  clearbody sql. cbn [mbind outcome_bind]. unfold parse.
  destruct (tokenize sql) as [|[] [|[] [|[] [|[] [|[] [|[] [|[] [|[] [|[] []]]]]]]]]]; try discriminate.
  injection Hshape as -> -> -> -> -> -> -> -> -> -> -> -> -> -> -> -> -> ->. reflexivity.
Qed.

(** *** Any template *)

(** A value the tag prints as one token: text, a truth value, nothing, or a number whose text
    is digits.  (A minus sign is skipped by the lexer.) *)
Definition literal (v : value) : bool :=
  match v with
  | VUndef | VNull | VBool _ | VStr _ => true
  | VNum n => negb (jeqb (Num.to_string n) []) && forallb is_digit (Num.to_string n)
  | _ => false
  end.
Definition literal_token (v : value) : TokenType * jstr := match v with VUndef => (NULL, js "NULL") | VNull => (NULL, js "NULL") | _ => value_token v end.

(** What stands between two parameters, or after the last one, ends the token before it. *)
Definition follows (p : jstr) (is_last : bool) : bool :=
  match p with [] => is_last | c :: _ => word_end p && negb (c =? 39)%N end.

(** A template: in each piece but the last every token has ended before the parameter, so no
    parameter stands inside quotes or in the middle of a word, and each parameter is followed
    by something that is no part of it. *)
Fixpoint fits (p : jstr) (ps : list jstr) : bool :=
  match ps with
  | [] => bool_decide (p = []) || solid_end p
  | q :: ps' => bool_decide (is_Some (piece_tokens (length p) p)) && follows q (bool_decide (ps' = [])) && fits q ps'
  end.

(** The tokens of the pieces with one token for each parameter. *)
Fixpoint woven (p : jstr) (ps : list jstr) (tokens : list (TokenType * jstr)) : list (TokenType * jstr) :=
  match ps, tokens with
  | q :: ps', t :: tokens' => default [] (piece_tokens (length p) p) ++ t :: woven q ps' tokens'
  | _, _ => lexed p
  end.

Lemma literal_is_one_token v t next : sqlValue v = Ok t -> literal v = true -> word_end next = true -> head next <> Some 39%N ->
  lexed (t ++ next) = literal_token v :: lexed next /\ solid_end t = true.
Proof.
  intros Hv Hl Hw Hq. destruct v as [| |b|n|s| |]; cbn [sqlValue literal literal_token] in *; try done.
  - injection Hv as <-. split; [by rewrite lexed_word|done].
  - injection Hv as <-. split; [by rewrite lexed_word|done].
  - injection Hv as <-. split; [destruct b; by rewrite lexed_word|by destruct b].
  - destruct (Num.is_finite n); [|done]. injection Hv as <-. apply andb_true_iff in Hl as [Hne Hd].
    assert (Num.to_string n <> []) as Hne' by (intros E; rewrite E in Hne; by vm_compute in Hne).
    split; [|by apply digits_solid]. cbn [value_token to_str]. rewrite lexed_number; [done|done|done|].
    destruct next as [|c next]; [done|]. cbn [word_end] in Hw. unfold is_word_char, is_alnum, is_number_char in *.
    destruct (is_digit c), (c =? 46)%N; rewrite ?orb_true_r in Hw; done.
  - injection Hv as <-. unfold quote. rewrite <- !app_assoc. split; [cbn [js app]; by apply lexed_quoted|]. by repeat apply solid_end_app.
Qed.

Lemma woven_lexed ps : forall p values text, fits p ps = true -> length values = length ps -> forallb literal values = true ->
  sql_rest ps values = Ok text ->
  lexed (p ++ text) = woven p ps (map literal_token values) /\ (p ++ text = [] \/ solid_end (p ++ text) = true).
Proof.
  induction ps as [|q ps IH]; intros p [|v values] text Hf Hlen Hl Hr; try done; cbn [fits sql_rest map woven tail head default length] in *.
  - injection Hr as <-. rewrite app_nil_r. split; [done|]. apply orb_true_iff in Hf as [Hf%bool_decide_eq_true|Hf]; auto.
  - rewrite !andb_true_iff, bool_decide_eq_true in Hf. destruct Hf as [[[ts Hts] Hfol] Hfit]. cbn [forallb] in Hl. apply andb_true_iff in Hl as [Hv Hvs].
    destruct (sqlValue v) as [t|e] eqn:Et; [|done]. cbn [mbind outcome_bind] in Hr. destruct (sql_rest ps values) as [r|e] eqn:Er; [|done].
    injection Hr as <-. destruct (IH q values r Hfit ltac:(lia) Hvs Er) as [Hlex Hsolid].
    assert (word_end (q ++ r) = true /\ head (q ++ r) <> Some 39%N) as [Hw Hq].
    { unfold follows in Hfol. destruct q as [|c q].
      - apply bool_decide_eq_true in Hfol as ->. destruct values; [|done]. cbn in Er. injection Er as <-. done.
      - apply andb_true_iff in Hfol as [Hw Hc]. split; [exact Hw|]. cbn. intros [= ->]. done. }
    destruct (literal_is_one_token v t (q ++ r) Et Hv Hw Hq) as [Hone Hend].
    rewrite (lexed_piece _ _ _ _ Hts), Hts, Hone, Hlex. split; [done|]. right. destruct Hsolid as [Hn|Hsolid].
    + rewrite Hn, app_nil_r. by apply solid_end_app.
    + by do 2 apply solid_end_app.
Qed.


Definition tag_pieces : list jstr := [js " AND age >= "; js " AND city.name != "; js ";"].
Definition tag_values : list value := [VStr (js "x' OR '1' = '1"); VNum (Num.of_Z 42); VStr (js "O'Hara; DROP COLLECTION users")].


(** Printing does not survive every query: alternatives of [$ops] are joined with AND,
    and an apostrophe in a string is printed as it is. *)
Theorem toSQL_loses_alternatives :
  let one := VObj [(js "a", VObj [(js "$eq", VStr (js "x"))])] in
  let two := VObj [(js "b", VObj [(js "$eq", VStr (js "y"))])] in
  toSQL (where_ [one; two] (query (js "t"))) = js "SELECT * FROM t WHERE a = 'x' AND b = 'y'" /\
  toSQL (where_ [VObj [(js "a", VObj [(js "$eq", VStr (js "x' OR b = 'y"))])]] (query (js "t"))) =
    js "SELECT * FROM t WHERE a = 'x' OR b = 'y'".
Proof. by split; vm_compute. Qed.

End Builder.
