(* ===== verification/Plan.v ===== *)
(** SQL plans ([src/query/planner.js]) and the PostgREST-style filter grammar
    ([src/query/postgrest.js]): the two other ways a text becomes a query object. *)

From S2P Require Import Prelude JsNum JsValue Lexer Parser.

Module Plan.
Import Lexer Parser.

(** ** [accessPaths] *)

Definition document_scan : value := VObj [(js "kind", VStr (js "document-scan"))].

Definition indexable_operators : list jstr :=
  [js "$eq"; js "$gt"; js "$gte"; js "$lt"; js "$lte"; js "$like"; js "$contains"].

(** The step of one field, none for an operand that is not an object. *)
Definition access_step (entry : jstr * value) : option value :=
  if is_objectlike (snd entry) then
    let operators := keys (entries (snd entry)) in
    let indexable := existsb (fun o => bool_decide (o ∈ indexable_operators)) operators in
    Some (VObj [(js "kind", VStr (js (if indexable then "prefix-index" else "document-filter")));
                (js "field", VStr (fst entry)); (js "operators", VArr (map VStr operators))])
  else None.

Definition accessPaths (query : value) : list value :=
  match prop query (js "$ops") with
  | VArr (op :: ops) =>
      match flat_map (fun operation => omap access_step (entries operation)) (op :: ops) with
      | [] => [document_scan]
      | access => access
      end
  | _ => [document_scan]
  end.

(** ** [FyloQueryPlanner.prepare] *)

Record plan := Plan {
  plan_sql : jstr;
  plan_operation : jstr;
  plan_collection : jstr;
  plan_ast : value;
  plan_explain : bool;
  plan_analyze : bool;
  plan_access : list value
}.

(** A literal of a regular expression with the [i] flag: what follows it. *)
Fixpoint match_word (w s : jstr) : option jstr :=
  match w, s with
  | [], _ => Some s
  | x :: w', y :: s' => if (x =? upper_char y)%N then match_word w' s' else None
  | _ :: _, [] => None
  end.

(** [\s+], which takes all the white space there is. *)
Definition match_spaces (s : jstr) : option jstr :=
  match s with
  | c :: _ => if is_space c then Some (drop_while is_space s) else None
  | [] => None
  end.

(** [/^EXPLAIN(?:\s+(ANALYZE))?\s+/i]: whether the group took part, and what follows. *)
Definition match_explain (s : jstr) : option (bool * jstr) :=
  r ← match_word (js "EXPLAIN") s;
  r1 ← match_spaces r;
  match match_word (js "ANALYZE") r1 ≫= match_spaces with
  | Some r2 => Some (true, r2)
  | None => Some (false, r1)
  end.

(** [\b] after a letter. *)
Definition at_boundary (s : jstr) : bool :=
  match s with c :: _ => negb (is_alnum c || (c =? 95)%N) | [] => true end.

Definition OPERATIONS : list jstr :=
  [js "SELECT"; js "INSERT"; js "UPDATE"; js "DELETE"; js "CREATE"; js "DROP"].

(** [sql.match(/^(SELECT|INSERT|...)\b/i)?.[1]], in capitals. *)
Definition match_operation (s : jstr) : option jstr :=
  find (fun w => match match_word w s with Some r => at_boundary r | None => false end) OPERATIONS.

Definition split_explain (sql : jstr) : jstr * bool * bool :=
  match match_explain sql with
  | Some (analyze, r) => (trim r, true, analyze)
  | None => (sql, false, false)
  end.

(** [ast.$collection ?? ast.$leftCollection ?? ''] *)
Definition nullish (a b : value) : value := if is_nullish a then b else a.

Definition prepare (input : value) : outcome plan :=
  match input with
  | VStr text =>
      if bool_decide (trim text = []) then Throw (Error (js "SQL statement must be a non-empty string"))
      else
        let '(sql, explain, analyze) := split_explain (trim text) in
        match match_operation sql with
        | None => Throw (Error (js "Missing SQL Operation"))
        | Some operation =>
            ast ← parse sql;
            let collection :=
              to_str (nullish (prop ast (js "$collection"))
                        (nullish (prop ast (js "$leftCollection")) (VStr []))) in
            let query := if jeqb operation (js "UPDATE") then prop ast (js "$where") else ast in
            Ok {| plan_sql := sql; plan_operation := operation; plan_collection := collection;
                  plan_ast := ast; plan_explain := explain; plan_analyze := analyze;
                  plan_access := accessPaths query |}
        end
  | _ => Throw (Error (js "SQL statement must be a non-empty string"))
  end.

Definition describe (p : plan) : value :=
  VObj [(js "operation", VStr (plan_operation p)); (js "collection", VStr (plan_collection p));
        (js "access", VArr (plan_access p)); (js "executed", VBool false)].

(** ** The filter grammar *)

(** [/^-?\d+(\.\d+)?$/] *)
Definition is_numeral (s : jstr) : bool :=
  let unsigned := match s with c :: r => if (c =? 45)%N then r else s | [] => s end in
  let '(whole, r) := (take_while is_digit unsigned, drop_while is_digit unsigned) in
  negb (bool_decide (whole = [])) &&
  match r with
  | [] => true
  | c :: fraction => (c =? 46)%N && negb (bool_decide (fraction = [])) && forallb is_digit fraction
  end.

Definition coerceValue (s : jstr) : value :=
  if jeqb s (js "true") then VBool true
  else if jeqb s (js "false") then VBool false
  else if jeqb s (js "null") then VNull
  else if is_numeral s then VNum (Num.of_string s)
  else VStr s.

Definition filter_operators : list (jstr * jstr) :=
  map (fun o => (o, 36%N :: o))
    [js "eq"; js "ne"; js "gt"; js "gte"; js "lt"; js "lte"; js "like"; js "contains"].

(** Names the lookup object inherits, for which [map[op]] is a function or an object:
    the operator it becomes is that value's text, taken as an argument. *)
Definition parseFilterOperand (inherited : jstr -> option jstr) (s : jstr) : object :=
  match index_of 46 s with
  | None => [(js "$eq", coerceValue s)]
  | Some dot =>
      let op := take dot s in
      let raw := drop (S dot) s in
      match alist_get op filter_operators with
      | Some mapped => [(mapped, if jeqb mapped (js "$like") then VStr raw else coerceValue raw)]
      | None =>
          match inherited op with
          | Some mapped => [(mapped, coerceValue raw)]
          | None => [(js "$eq", coerceValue s)]
          end
      end
  end.

(** [value.split(',').map(trim).filter(Boolean)] *)
Definition split_select (s : jstr) : list jstr :=
  List.filter (fun item => negb (bool_decide (item = []))) (map trim (split_on 44 s)).

(** One parameter of the search string, on the query, the filters and [hasFilters]. *)
Definition search_step (inherited : jstr -> option jstr) (acc : object * object * bool)
    (param : jstr * jstr) : outcome (object * object * bool) :=
  let '(query, filters, hasFilters) := acc in
  let '(key, v) := param in
  if jeqb key (js "limit") then
    let limit := Num.of_string v in
    if negb (Num.is_integer limit) || Num.lt limit Num.zero then Throw (Error (js "Invalid limit"))
    else Ok (obj_set (js "$limit") (VNum limit) query, filters, hasFilters)
  else if jeqb key (js "select") then
    Ok (obj_set (js "$select") (VArr (map VStr (split_select v))) query, filters, hasFilters)
  else if jeqb key (js "onlyIds") then
    Ok (obj_set (js "$onlyIds") (VBool (jeqb v (js "true"))) query, filters, hasFilters)
  else
    let operand := parseFilterOperand inherited v in
    let current := match alist_get key filters with Some w => fields_of w | None => safeRecord end in
    Ok (query, obj_set key (VObj (obj_assign current operand)) filters, true).

(** [queryFromSearch(search)] on the pairs [new URLSearchParams(search)] gives. *)
Definition queryFromSearch (inherited : jstr -> option jstr) (params : list (jstr * jstr))
    : outcome value :=
  acc ← foldr (fun param k acc => search_step inherited acc param ≫= k) (fun acc => Ok acc) params
          ([], safeRecord, false);
  let '(query, filters, hasFilters) := acc in
  Ok (VObj (if hasFilters : bool then obj_set (js "$ops") (VArr [VObj filters]) query else query)).


(** ** The plan's operation is the statement's *)

Lemma match_word_upper w s r : match_word w s = Some r -> starts_with w (to_upper s) = true.
Proof.
  revert s. induction w as [|x w IH]; intros s H; [done|]. destruct s as [|y s]; [done|].
  cbn in *. destruct (x =? upper_char y)%N; [|done]. cbn. by apply IH.
Qed.

Lemma starts_with_common w w' u :
  starts_with w u = true -> starts_with w' u = true -> starts_with w w' || starts_with w' w = true.
Proof.
  revert w' u. induction w as [|x w IH]; intros w' u H H'; [done|].
  destruct w' as [|y w']; [by rewrite orb_true_r|]. destruct u as [|z u]; [done|].
  cbn in *. apply andb_true_iff in H as [->%N.eqb_eq H], H' as [->%N.eqb_eq H'].
  rewrite N.eqb_refl. cbn. by apply (IH w' u).
Qed.

Lemma operations_apart w w' :
  w ∈ OPERATIONS -> w' ∈ OPERATIONS -> starts_with w w' || starts_with w' w = true -> w = w'.
Proof.
  intros Hw Hw' H.
  assert (forallb (fun w => forallb (fun w' =>
    negb (starts_with w w' || starts_with w' w) || jeqb w w') OPERATIONS) OPERATIONS = true) as Hall
    by (by vm_compute).
  rewrite forallb_forall in Hall. apply list_elem_of_In in Hw, Hw'. specialize (Hall w Hw). cbn beta in Hall.
  rewrite forallb_forall in Hall. specialize (Hall w' Hw'). rewrite H in Hall. by apply jeqb_true.
Qed.

Lemma match_operation_spec s w :
  match_operation s = Some w -> w ∈ OPERATIONS /\ starts_with w (to_upper s) = true.
Proof.
  intros H. unfold match_operation in H. apply find_some in H as [Hin Hm]. split; [by apply list_elem_of_In|].
  destruct (match_word w s) eqn:E; [|done]. by eapply match_word_upper.
Qed.

Lemma fold_dots_text f v st :
  (fold_dots f v st).1 = v \/ 47%N ∈ (fold_dots f v st).1.
Proof.
  assert (forall f v st, 47%N ∈ v -> 47%N ∈ (fold_dots f v st).1) as Hkeep.
  { clear. induction f as [|f IH]; intros v [s p] Hv; simpl; [done|].
    destruct s as [|d [|c r]]; simpl; [done..|]. destruct (_ && _); [|done].
    apply IH. by apply elem_of_app; left. }
  destruct f as [|f]; [by left|]. destruct st as [s p]. simpl.
  destruct s as [|d [|c r]]; simpl; [by left..|]. destruct (_ && _); [|by left].
  right. apply Hkeep. apply elem_of_app. right. by left.
Qed.

(** The first token of a text that starts with a letter. *)
Lemma first_token_word c s :
  is_word_start c = true -> trim (c :: s) = c :: s ->
  let first := text (current_of (tokenize (c :: s))) in
  first = take_while is_word_char (c :: s) \/ 47%N ∈ first.
Proof.
  intros Hc Ht. cbn zeta. rewrite tokenize_lex. unfold init. rewrite Ht, lex_eq.
  destruct (word_start_class c Hc) as (Hsp & Hq & Hd).
  unfold skipWhitespace, advance_to. cbn [rest drop_while]. rewrite Hsp.
  unfold next_token. rewrite Hq, Hd, Hc. unfold readIdentifierToken, readIdentifier.
  cbn [rest offset]. match goal with |- context [fold_dots ?f ?v ?st] =>
    pose proof (fold_dots_text f v st) as Hf; destruct (fold_dots f v st) as [v' st'] end.
  exact Hf.
Qed.

Lemma take_drop_while f s : s = take_while f s ++ drop_while f s.
Proof. induction s as [|x s IH]; cbn; [done|]. destruct (f x); cbn; [by f_equal|done]. Qed.

Lemma to_upper_app a b : to_upper (a ++ b) = to_upper a ++ to_upper b.
Proof. apply map_app. Qed.

Lemma first_is_operation sql w :
  trim sql = sql -> match_operation sql = Some w ->
  text (current_of (tokenize sql)) ∈ OPERATIONS -> text (current_of (tokenize sql)) = w.
Proof.
  intros Ht Hm Hf. apply match_operation_spec in Hm as [Hw Hs].
  destruct sql as [|c s].
  { exfalso. destruct w; [|done]. by apply (bool_decide_unpack ([] ∈ OPERATIONS)) in Hw || (revert Hw; vm_compute; set_solver). }
  assert (is_word_start c = true) as Hc.
  { repeat (apply elem_of_cons in Hw as [->|Hw]); [..|by apply elem_of_nil in Hw];
      cbn in Hs; apply andb_true_iff in Hs as [Hs _]; apply N.eqb_eq in Hs; revert Hs;
      unfold upper_char, is_word_start, is_alpha, is_lower, is_upper, in_range;
      destruct ((97 <=? c)%N && (c <=? 122)%N) eqn:E; intros; lia. }
  destruct (first_token_word c s Hc Ht) as [Hfirst|Hslash].
  - apply operations_apart; [done|done|]. apply (starts_with_common _ _ (to_upper (c :: s))); [|done].
    rewrite Hfirst in *. rewrite (take_drop_while is_word_char (c :: s)) at 2.
    rewrite to_upper_app. set (w' := take_while is_word_char (c :: s)) in *. clearbody w'.
    assert (to_upper w' = w') as ->; [|apply starts_with_app].
    repeat (apply elem_of_cons in Hf as [->|Hf]); [..|by apply elem_of_nil in Hf]; by vm_compute.
  - exfalso. set (first := text _) in *. clearbody first. clear -Hf Hslash.
    repeat (apply elem_of_cons in Hf as [->|Hf]); [..|by apply elem_of_nil in Hf];
      apply (bool_decide_pack (47%N ∈ _)) in Hslash; by vm_compute in Hslash.
Qed.

Lemma split_explain_trimmed t : let '(sql, _, _) := split_explain (trim t) in trim sql = sql.
Proof.
  unfold split_explain. destruct (match_explain (trim t)) as [[a r]|]; apply trim_idem.
Qed.

Lemma statement_first first v : statement first v -> first ∈ OPERATIONS.
Proof.
  intros H. apply (bool_decide_unpack _).
  destruct H as [[-> _]|[[-> _]|[[-> _]|[[-> _]|[[->| ->] _]]]]]; by vm_compute.
Qed.

(** A prepared plan is coherent: its operation is one of the six, its syntax tree is
    the statement object of that very operation, so executing a plan never meets an
    unknown operation or a tree of another kind; what [EXPLAIN] strips is not part of
    the statement. *)
Theorem prepare_coherent input p :
  prepare input = Ok p ->
  statement (plan_operation p) (plan_ast p) /\ parse (plan_sql p) = Ok (plan_ast p) /\
  plan_operation p ∈ OPERATIONS /\ (plan_analyze p = true -> plan_explain p = true).
Proof.
  unfold prepare. destruct input as [| | | |t| |]; try done. case_bool_decide; [done|].
  pose proof (split_explain_trimmed t) as Htrim.
  assert (let '(_, e, a) := split_explain (trim t) in a = true -> e = true) as Hea.
  { unfold split_explain. by destruct (match_explain (trim t)) as [[a r]|]. }
  destruct (split_explain (trim t)) as [[sql explain] analyze].
  destruct (match_operation sql) as [w|] eqn:Hm; [|done].
  destruct (parse sql) as [ast|] eqn:Hp; [|done]. intros [= <-].
  cbn [plan_operation plan_ast plan_sql plan_analyze plan_explain].
  pose proof (parse_statement sql) as Hs. rewrite Hp in Hs.
  pose proof (first_is_operation sql w Htrim Hm (statement_first _ _ Hs)) as Hf.
  rewrite Hf in Hs. split_and!; [done|done|by eapply statement_first|done].
Qed.

Lemma prepare_coherent_witness :
  let p := Plan (js "DELETE FROM t WHERE a = 1") (js "DELETE") (js "t")
    (VObj [(js "$collection", VStr (js "t"));
           (js "$ops", VArr [VObj [(js "a", VObj [(js "$eq", VNum (Num.of_Z 1))])]])]) true true
    [VObj [(js "kind", VStr (js "prefix-index")); (js "field", VStr (js "a"));
           (js "operators", VArr [VStr (js "$eq")])]] in
  statement (plan_operation p) (plan_ast p) /\ parse (plan_sql p) = Ok (plan_ast p) /\
  plan_operation p ∈ OPERATIONS /\ (plan_analyze p = true -> plan_explain p = true).
Proof.
  apply (prepare_coherent (VStr (js " explain Analyze DELETE FROM t WHERE a = 1 "))).
  vm_compute. reflexivity.
Defined.

(** The planner accepts keywords in any case, the parser only in capitals: a
    lower-case statement gets past the planner's own check and is then refused. *)
Theorem prepare_lower_case_refused :
  match_operation (js "select * from t") = Some (js "SELECT") /\
  prepare (VStr (js "select * from t")) = Throw (Error (js "Unsupported SQL statement type: select")).
Proof. by split; vm_compute. Qed.

End Plan.
