(* ===== verification/Utf8.v ===== *)
(** UTF-16 strings and UTF-8 bytes: code points, [TextEncoder], [TextDecoder],
    [encodeURIComponent] and [decodeURIComponent], as the language and the Encoding
    standard define them.  The index keys and every stored file go through these. *)

From S2P Require Import Prelude JsNum.

Module Utf8.

(** ** Code points *)

Definition is_high (c : N) : bool := in_range 55296 56319 c.
Definition is_low (c : N) : bool := in_range 56320 57343 c.
Definition is_surrogate (c : N) : bool := in_range 55296 57343 c.

Definition combine (h l : N) : N := (65536 + (h - 55296) * 1024 + (l - 56320))%N.

(** A surrogate pair is one code point, a lone surrogate stands for itself. *)
Fixpoint code_points (s : jstr) : list N :=
  match s with
  | [] => []
  | h :: r =>
      match r with
      | l :: r' => if is_high h && is_low l then combine h l :: code_points r' else h :: code_points r
      | [] => [h]
      end
  end.

Definition of_code_point (cp : N) : jstr :=
  if (cp <? 65536)%N then [cp]
  else [55296 + (cp - 65536) / 1024; 56320 + (cp - 65536) mod 1024]%N.

(** [Array.from(s)]: one string per code point. *)
Definition chars (s : jstr) : list jstr := map of_code_point (code_points s).

(** Strings of code units with no lone surrogate. *)
Definition code_units (s : jstr) : bool := forallb (fun c => (c <? 65536)%N) s.
Definition well_formed (s : jstr) : bool := forallb (fun cp => negb (is_surrogate cp)) (code_points s).

(** ** UTF-8 *)

Definition utf8_bytes (cp : N) : list N :=
  if (cp <? 128)%N then [cp]
  else if (cp <? 2048)%N then [192 + cp / 64; 128 + cp mod 64]%N
  else if (cp <? 65536)%N then [224 + cp / 4096; 128 + (cp / 64) mod 64; 128 + cp mod 64]%N
  else [240 + cp / 262144; 128 + (cp / 4096) mod 64; 128 + (cp / 64) mod 64; 128 + cp mod 64]%N.

Definition replacement : N := 65533.

(** [new TextEncoder().encode(s)] *)
Definition encode (s : jstr) : list N :=
  flat_map (fun cp => utf8_bytes (if is_surrogate cp then replacement else cp)) (code_points s).

(** The decoder between two bytes: nothing pending, or continuation bytes needed, the
    code point so far and the bounds of the next byte. *)
Inductive pending :=
| Fresh
| Need (k : nat) (cp lower upper : N).

Definition start_byte (b : N) : jstr * pending :=
  if (b <? 128)%N then ([b], Fresh)
  else if in_range 194 223 b then ([], Need 0 (b - 192) 128 191)
  else if in_range 224 239 b then
    ([], Need 1 (b - 224) (if (b =? 224)%N then 160 else 128) (if (b =? 237)%N then 159 else 191))
  else if in_range 240 244 b then
    ([], Need 2 (b - 240) (if (b =? 240)%N then 144 else 128) (if (b =? 244)%N then 143 else 191))
  else ([replacement], Fresh).

(** One byte; a byte that does not continue the sequence ends it and starts over. *)
Definition step (p : pending) (b : N) : jstr * pending :=
  match p with
  | Fresh => start_byte b
  | Need k cp lower upper =>
      if in_range lower upper b then
        let cp' := (cp * 64 + (b - 128))%N in
        match k with
        | O => (of_code_point cp', Fresh)
        | S k' => ([], Need k' cp' 128 191)
        end
      else let '(out, p') := start_byte b in (replacement :: out, p')
  end.

Fixpoint decode_from (p : pending) (bytes : list N) : jstr :=
  match bytes with
  | [] => match p with Fresh => [] | Need _ _ _ _ => [replacement] end
  | b :: r => let '(out, p') := step p b in out ++ decode_from p' r
  end.

(** [new TextDecoder().decode(bytes)], which drops one leading byte order mark. *)
Definition decode (bytes : list N) : jstr :=
  match bytes with
  | 239 :: 187 :: 191 :: r => decode_from Fresh r
  | _ => decode_from Fresh bytes
  end%N.

(** ** Percent encoding *)

(** [A-Z a-z 0-9 - _ . ! ~ * ' ( )] *)
Definition unreserved (c : N) : bool :=
  is_alnum c || bool_decide (c ∈ js "-_.!~*'()").

Definition hex_upper (d : N) : N := if (d <? 10)%N then (48 + d)%N else (55 + d)%N.
Definition percent (b : N) : jstr := [37; hex_upper (b / 16); hex_upper (b mod 16)]%N.

Definition uri_error : js_error :=
  {| err_name := js "URIError"; err_message := js "URI malformed"; err_code := None |}.

Definition encode_char (cp : N) : jstr :=
  if unreserved cp then [cp] else flat_map percent (utf8_bytes cp).

Definition encodeURIComponent (s : jstr) : outcome jstr :=
  if well_formed s then Ok (flat_map encode_char (code_points s)) else Throw uri_error.

(** [%XX] at the front: the byte and what follows. *)
Definition percent_byte (s : jstr) : option (N * jstr) :=
  match s with
  | 37 :: a :: b :: r =>
      match Num.char_digit a, Num.char_digit b with
      | Some x, Some y => if (x <? 16) && (y <? 16) then Some (x * 16 + y, r) else None
      | _, _ => None
      end
  | _ => None
  end%N.

(** The continuation bytes of one escaped sequence. *)
Fixpoint percent_tail (k : nat) (cp lower upper : N) (s : jstr) : option (N * jstr) :=
  match percent_byte s with
  | Some (b, r) =>
      if in_range lower upper b then
        let cp' := (cp * 64 + (b - 128))%N in
        match k with O => Some (cp', r) | S k' => percent_tail k' cp' 128 191 r end
      else None
  | None => None
  end.

Fixpoint decode_uri (fuel : nat) (s : jstr) : outcome jstr :=
  match fuel, s with
  | _, [] => Ok []
  | O, _ => Throw uri_error
  | S f, c :: r =>
      if (c =? 37)%N then
        match percent_byte s with
        | Some (b, r') =>
            match start_byte b with
            | (out, Fresh) =>
                if (b <? 128)%N then rest ← decode_uri f r'; Ok (out ++ rest) else Throw uri_error
            | (_, Need k cp lower upper) =>
                match percent_tail k cp lower upper r' with
                | Some (cp', r'') => rest ← decode_uri f r''; Ok (of_code_point cp' ++ rest)
                | None => Throw uri_error
                end
            end
        | None => Throw uri_error
        end
      else rest ← decode_uri f r; Ok (c :: rest)
  end.

Definition decodeURIComponent (s : jstr) : outcome jstr := decode_uri (length s) s.

(** ** Facts *)

Ltac Zify.zify_post_hook ::= Z.to_euclidean_division_equations.

Lemma of_code_point_combine h l :
  is_high h = true -> is_low l = true -> of_code_point (combine h l) = [h; l].
Proof.
  unfold is_high, is_low, in_range, of_code_point, combine. intros Hh Hl.
  destruct (N.ltb_spec (65536 + (h - 55296) * 1024 + (l - 56320)) 65536); [lia|].
  f_equal; [lia|f_equal; lia].
Qed.

(** Two induction steps at once. *)
Lemma jstr_ind2 (P : jstr -> Prop) :
  P [] -> (forall c, P [c]) -> (forall a b r, P r -> P (b :: r) -> P (a :: b :: r)) -> forall s, P s.
Proof.
  intros H0 H1 H2 s. assert (P s /\ forall c, P (c :: s)) as [H _]; [|done].
  induction s as [|x s [IH1 IH2]]; [by split|]. split; [by apply IH2|]. intros c. by apply H2.
Qed.

Lemma chars_concat s : code_units s = true -> concat (chars s) = s.
Proof.
  unfold chars, code_units. induction s as [|c|a b r IH1 IH2] using jstr_ind2; intros Hs; [done| |].
  - cbn in *. unfold of_code_point. rewrite andb_true_r in Hs. by rewrite Hs.
  - cbn [forallb] in Hs. apply andb_true_iff in Hs as [Ha Hs].
    pose proof Hs as Hs'. apply andb_true_iff in Hs' as [Hb Hr].
    cbn [code_points]. destruct (is_high a && is_low b) eqn:E.
    + apply andb_true_iff in E as [Eh El]. cbn [map concat].
      rewrite of_code_point_combine by done. cbn. by rewrite IH1.
    + change (match r with
        | [] => [b]
        | l :: r' => if is_high b && is_low l then combine b l :: code_points r' else b :: code_points r
        end) with (code_points (b :: r)).
      cbn [map concat]. rewrite IH2 by done. unfold of_code_point. by rewrite Ha.
Qed.

(** A scalar value: a code point that is not a surrogate. *)
Definition scalar_value (cp : N) : Prop := (cp < 1114112)%N /\ is_surrogate cp = false.

Lemma decode_need k cp lower upper b r :
  in_range lower upper b = true ->
  decode_from (Need k cp lower upper) (b :: r) =
    match k with
    | O => of_code_point (cp * 64 + (b - 128)) ++ decode_from Fresh r
    | S k' => decode_from (Need k' (cp * 64 + (b - 128)) 128 191) r
    end.
Proof. intros H. cbn [decode_from step]. rewrite H. by destruct k. Qed.

(** The lead byte of each sequence length. *)
Lemma decode_lead cp b r k lower upper :
  start_byte b = ([], Need k cp lower upper) ->
  decode_from Fresh (b :: r) = decode_from (Need k cp lower upper) r.
Proof. intros H. cbn [decode_from step]. by rewrite H. Qed.

Lemma start_two b : in_range 194 223 b = true -> start_byte b = ([], Need 0 (b - 192) 128 191).
Proof.
  intros H. unfold start_byte. rewrite H. unfold in_range in H.
  by destruct (N.ltb_spec b 128); [lia|].
Qed.
Lemma start_three b :
  in_range 224 239 b = true ->
  start_byte b = ([], Need 1 (b - 224) (if (b =? 224)%N then 160 else 128) (if (b =? 237)%N then 159 else 191))%N.
Proof.
  intros H. unfold start_byte. rewrite H. unfold in_range in *.
  replace ((194 <=? b)%N && (b <=? 223)%N) with false by lia.
  by destruct (N.ltb_spec b 128); [lia|].
Qed.
Lemma start_four b :
  in_range 240 244 b = true ->
  start_byte b = ([], Need 2 (b - 240) (if (b =? 240)%N then 144 else 128) (if (b =? 244)%N then 143 else 191))%N.
Proof.
  intros H. unfold start_byte. rewrite H. unfold in_range in *.
  replace ((194 <=? b)%N && (b <=? 223)%N) with false by lia.
  replace ((224 <=? b)%N && (b <=? 239)%N) with false by lia.
  by destruct (N.ltb_spec b 128); [lia|].
Qed.

Lemma in_range_true lo hi c : (lo <= c <= hi)%N -> in_range lo hi c = true.
Proof. unfold in_range. lia. Qed.

Lemma decode_utf8_bytes cp r :
  scalar_value cp -> decode_from Fresh (utf8_bytes cp ++ r) = of_code_point cp ++ decode_from Fresh r.
Proof.
  intros [Hmax Hsur]. unfold utf8_bytes, is_surrogate, in_range in *.
  destruct (N.ltb_spec cp 128).
  { cbn [app decode_from step]. unfold start_byte, of_code_point.
    destruct (N.ltb_spec cp 128), (N.ltb_spec cp 65536); (lia || done). }
  destruct (N.ltb_spec cp 2048).
  { cbn [app]. erewrite decode_lead by (apply start_two, in_range_true; lia).
    rewrite decode_need by (apply in_range_true; lia). f_equal. f_equal. lia. }
  destruct (N.ltb_spec cp 65536).
  { cbn [app]. erewrite decode_lead by (apply start_three, in_range_true; lia).
    rewrite decode_need.
    2: { apply in_range_true. destruct (N.eqb_spec (224 + cp / 4096) 224), (N.eqb_spec (224 + cp / 4096) 237); lia. }
    rewrite decode_need by (apply in_range_true; lia). f_equal. f_equal. lia. }
  cbn [app]. erewrite decode_lead by (apply start_four, in_range_true; lia).
  rewrite decode_need.
  2: { apply in_range_true. destruct (N.eqb_spec (240 + cp / 262144) 240), (N.eqb_spec (240 + cp / 262144) 244); lia. }
  do 2 rewrite decode_need by (apply in_range_true; lia). f_equal. f_equal. lia.
Qed.


Lemma code_points_scalar s :
  code_units s = true -> well_formed s = true -> Forall scalar_value (code_points s).
Proof.
  unfold well_formed, code_units.
  induction s as [|c|a b r IH1 IH2] using jstr_ind2; intros Hu Hw.
  - constructor.
  - cbn in *. repeat constructor; [lia|]. destruct (is_surrogate c); [done|done].
  - cbn [forallb] in Hu. apply andb_true_iff in Hu as [Ha Hu].
    pose proof Hu as Hu'. apply andb_true_iff in Hu' as [Hb Hr].
    cbn [code_points] in *. destruct (is_high a && is_low b) eqn:E.
    + cbn [forallb] in Hw. apply andb_true_iff in Hw as [Hc Hw]. constructor; [|by apply IH1].
      apply andb_true_iff in E as [Eh El]. unfold scalar_value, combine in *.
      unfold is_high, is_low, in_range in Eh, El. split; [lia|].
      by destruct (is_surrogate _).
    + change (match r with
        | [] => [b]
        | l :: r' => if is_high b && is_low l then combine b l :: code_points r' else b :: code_points r
        end) with (code_points (b :: r)) in *.
      cbn [forallb] in Hw. apply andb_true_iff in Hw as [Hc Hw].
      constructor; [|by apply IH2]. split; [lia|]. by destruct (is_surrogate a).
Qed.

Lemma utf8_bytes_not_bom cp r rest :
  scalar_value cp -> cp <> 65279%N -> utf8_bytes cp ++ r <> 239%N :: 187%N :: 191%N :: rest.
Proof.
  intros [Hmax _] Hne. unfold utf8_bytes.
  repeat match goal with |- context [if ?b then _ else _] => destruct b eqn:? end;
    cbn [app]; intros [= ]; lia.
Qed.

Lemma decode_no_bom bytes :
  (forall rest, bytes <> 239%N :: 187%N :: 191%N :: rest) -> decode bytes = decode_from Fresh bytes.
Proof.
  intros H. unfold decode. repeat case_match; subst; try done. by destruct (H l1).
Qed.

Lemma decode_from_encode s :
  code_units s = true -> well_formed s = true -> decode_from Fresh (encode s) = s.
Proof.
  intros Hu Hw. pose proof (code_points_scalar s Hu Hw) as Hs.
  rewrite <- (chars_concat s Hu) at 2. unfold encode, chars.
  clear Hu Hw. induction Hs as [|cp l Hcp Hl IH]; [done|]. cbn [flat_map map concat].
  pose proof Hcp as [_ Hsur]. rewrite Hsur, decode_utf8_bytes by done. by rewrite IH.
Qed.

(** No encoding starts like a byte order mark unless the string does. *)
Lemma encode_no_bom s rest :
  code_units s = true -> well_formed s = true -> head s <> Some 65279%N -> encode s <> (239 :: 187 :: 191 :: rest)%N.
Proof.
  intros Hu Hw Hh Heq. destruct s as [|a s]; [done|].
  pose proof (code_points_scalar _ Hu Hw) as Hs.
  assert (exists cp l, code_points (a :: s) = cp :: l /\ cp <> 65279%N) as (cp & l & Hl & Hne).
  { assert (a <> 65279%N) by (intros ->; by apply Hh). destruct s as [|b s]; [by exists a, []|].
    cbn [code_points]. destruct (is_high a && is_low b) eqn:E; [|by repeat eexists].
    exists (combine a b), (code_points s). split; [done|]. unfold combine, is_high, is_low, in_range in *. lia. }
  unfold encode in Heq. rewrite Hl in Heq, Hs. inversion_clear Hs as [|? ? Hcp _].
  cbn [flat_map] in Heq. pose proof Hcp as [_ Hsur]. rewrite Hsur in Heq.
  by apply utf8_bytes_not_bom in Heq.
Qed.

(** a string of code units without lone surrogates, not starting with a byte order
    mark, survives being encoded to UTF-8 and decoded again. *)
Lemma decode_encode s :
  code_units s = true -> well_formed s = true -> head s <> Some 65279%N -> decode (encode s) = s.
Proof.
  intros Hu Hw Hh. rewrite decode_no_bom; [by apply decode_from_encode|]. intros rest. by apply encode_no_bom.
Qed.

(** [new TextDecoder('utf-8', { fatal: true }).decode(bytes)]: a failure unless the bytes are
    the encoding of a text, with or without a byte order mark before it. *)
Definition decode_fatal (bytes : list N) : option jstr :=
  let body := match bytes with (239 :: 187 :: 191 :: r)%N => r | _ => bytes end in
  let text := decode_from Fresh body in
  if bool_decide (encode text = body) then Some text else None.

Lemma decode_fatal_encode s :
  code_units s = true -> well_formed s = true -> head s <> Some 65279%N -> decode_fatal (encode s) = Some s.
Proof.
  intros Hu Hw Hb. unfold decode_fatal.
  assert (match encode s with (239 :: 187 :: 191 :: r)%N => r | _ => encode s end = encode s) as ->.
  { pose proof (fun rest => encode_no_bom s rest Hu Hw Hb) as Hno. repeat case_match; subst; try done. by destruct (Hno l1). }
  rewrite decode_from_encode by done. by rewrite bool_decide_true.
Qed.

(** ** ASCII *)

Definition ascii (s : jstr) : bool := forallb (fun c => (c <? 128)%N) s.

Lemma ascii_code_points s : ascii s = true -> code_points s = s.
Proof.
  unfold ascii. induction s as [|c|a b r IH1 IH2] using jstr_ind2; intros H; [done|done|].
  cbn [forallb] in H. apply andb_true_iff in H as [Ha H]. cbn [code_points].
  replace (is_high a) with false by (unfold is_high, in_range; lia). cbn [andb].
  change (match r with
        | [] => [b]
        | l :: r' => if is_high b && is_low l then combine b l :: code_points r' else b :: code_points r
        end) with (code_points (b :: r)). by rewrite IH2.
Qed.

Lemma encode_ascii s : ascii s = true -> encode s = s.
Proof.
  intros H. unfold encode. rewrite ascii_code_points by done. unfold ascii in H.
  induction s as [|c s IH]; [done|]. cbn [forallb] in H. apply andb_true_iff in H as [Hc H].
  cbn [flat_map]. rewrite IH by done. replace (is_surrogate c) with false by (unfold is_surrogate, in_range; lia).
  unfold utf8_bytes. by rewrite Hc.
Qed.

Lemma decode_from_ascii s : ascii s = true -> decode_from Fresh s = s.
Proof.
  unfold ascii. induction s as [|c s IH]; intros H; [done|]. cbn [forallb] in H.
  apply andb_true_iff in H as [Hc H]. cbn [decode_from step]. unfold start_byte. rewrite Hc.
  cbn [app]. by rewrite IH.
Qed.

Lemma decode_ascii s : ascii s = true -> decode s = s.
Proof.
  intros H. rewrite decode_no_bom; [by apply decode_from_ascii|].
  intros rest ->. by cbn in H.
Qed.

Lemma ascii_app a b : ascii (a ++ b) = ascii a && ascii b.
Proof. apply forallb_app. Qed.

(** ** Percent encoding *)

(** What [encodeURIComponent] writes. *)
Definition uri_char (c : N) : bool := unreserved c || (c =? 37)%N.

Lemma unreserved_list c :
  unreserved c = true -> is_alnum c = true \/ c ∈ js "-_.!~*'()".
Proof. unfold unreserved. rewrite orb_true_iff, bool_decide_eq_true. tauto. Qed.

Lemma uri_char_bounds c : uri_char c = true -> (33 <= c <= 126 /\ c <> 47)%N.
Proof.
  unfold uri_char. rewrite orb_true_iff, N.eqb_eq. intros [H| ->]; [|lia].
  apply unreserved_list in H as [H|H].
  - unfold is_alnum, is_alpha, is_upper, is_lower, is_digit, in_range in H. lia.
  - repeat (apply elem_of_cons in H as [->|H]; [by vm_compute|]). by apply elem_of_nil in H.
Qed.

Lemma hex_upper_alnum d : (d < 16)%N -> is_alnum (hex_upper d) = true.
Proof.
  intros H. unfold hex_upper, is_alnum, is_alpha, is_upper, is_lower, is_digit, in_range.
  destruct (N.ltb_spec d 10); lia.
Qed.

Lemma percent_uri b : (b < 256)%N -> forallb uri_char (percent b) = true.
Proof.
  intros H. unfold percent, uri_char, unreserved. cbn [forallb].
  rewrite !hex_upper_alnum by lia. by rewrite !orb_true_l.
Qed.

Lemma utf8_bytes_bound cp : (cp < 1114112)%N -> Forall (fun b => (b < 256)%N) (utf8_bytes cp).
Proof.
  intros H. unfold utf8_bytes.
  repeat match goal with |- context [if ?b then _ else _] => destruct b eqn:? end; repeat constructor; lia.
Qed.

Lemma encode_char_uri cp : (cp < 1114112)%N -> forallb uri_char (encode_char cp) = true.
Proof.
  intros H. unfold encode_char. destruct (unreserved cp) eqn:E.
  - cbn. unfold uri_char. by rewrite E.
  - pose proof (utf8_bytes_bound cp H) as Hb. induction Hb as [|b l Hb _ IH]; [done|].
    cbn [flat_map]. by rewrite forallb_app, percent_uri, IH.
Qed.

Lemma encodeURIComponent_uri s t :
  code_units s = true -> encodeURIComponent s = Ok t -> forallb uri_char t = true.
Proof.
  unfold encodeURIComponent. intros Hu. destruct (well_formed s) eqn:Hw; [|done]. intros [= <-].
  pose proof (code_points_scalar s Hu Hw) as Hs. induction Hs as [|cp l [Hcp _] _ IH]; [done|].
  cbn [flat_map]. by rewrite forallb_app, encode_char_uri, IH.
Qed.

Lemma uri_ascii s : forallb uri_char s = true -> ascii s = true.
Proof.
  unfold ascii. rewrite !forallb_forall. intros H c Hc. apply H in Hc.
  apply uri_char_bounds in Hc. lia.
Qed.

Lemma char_digit_hex_upper d : (d < 16)%N -> Num.char_digit (hex_upper d) = Some d.
Proof.
  intros H. unfold hex_upper, Num.char_digit, is_digit, is_lower, is_upper, in_range.
  destruct (N.ltb_spec d 10).
  - replace ((48 <=? 48 + d)%N && (48 + d <=? 57)%N) with true by lia. f_equal. lia.
  - replace ((48 <=? 55 + d)%N && (55 + d <=? 57)%N) with false by lia.
    replace ((97 <=? 55 + d)%N && (55 + d <=? 122)%N) with false by lia.
    replace ((65 <=? 55 + d)%N && (55 + d <=? 90)%N) with true by lia. f_equal. lia.
Qed.

Lemma percent_byte_percent b r : (b < 256)%N -> percent_byte (percent b ++ r) = Some (b, r).
Proof.
  intros H. unfold percent. cbn [app percent_byte]. rewrite !char_digit_hex_upper by lia.
  replace ((b / 16 <? 16)%N && (b mod 16 <? 16)%N) with true by lia.
  do 2 f_equal. lia.
Qed.

Lemma percent_tail_step k cp lower upper b r :
  (b < 256)%N -> in_range lower upper b = true ->
  percent_tail k cp lower upper (percent b ++ r) =
    match k with
    | O => Some ((cp * 64 + (b - 128))%N, r)
    | S k' => percent_tail k' (cp * 64 + (b - 128)) 128 191 r
    end.
Proof.
  intros Hb Hr. pose proof (percent_byte_percent b r Hb) as Hp.
  destruct k; cbn [percent_tail]; rewrite Hp, Hr; done.
Qed.

(** One escaped character. *)
Lemma decode_uri_lead f b r k cp lower upper cp' r' :
  (b < 256)%N -> start_byte b = ([], Need k cp lower upper) ->
  percent_tail k cp lower upper r = Some (cp', r') ->
  decode_uri (S f) (percent b ++ r) = (rest ← decode_uri f r'; Ok (of_code_point cp' ++ rest)).
Proof.
  intros Hb Hs Ht. pose proof (percent_byte_percent b r Hb) as Hp. unfold percent in *. cbn [app] in *.
  cbn [decode_uri]. rewrite N.eqb_refl, Hp, Hs, Ht. reflexivity.
Qed.

Lemma decode_uri_bytes f cp r :
  scalar_value cp -> (128 <= cp)%N ->
  decode_uri (S f) (flat_map percent (utf8_bytes cp) ++ r) =
    (rest ← decode_uri f r; Ok (of_code_point cp ++ rest)).
Proof.
  intros [Hmax Hsur] Hlo. unfold utf8_bytes, is_surrogate, in_range in *.
  destruct (N.ltb_spec cp 128); [lia|].
  destruct (N.ltb_spec cp 2048).
  { cbn [flat_map]. rewrite app_nil_r, <- app_assoc.
    erewrite decode_uri_lead; [|lia|by apply start_two, in_range_true; lia|
      rewrite percent_tail_step; [reflexivity|lia|apply in_range_true; lia]].
    match goal with |- context [of_code_point ?x] => replace x with cp by lia end. done. }
  destruct (N.ltb_spec cp 65536).
  { cbn [flat_map]. rewrite app_nil_r, <- !app_assoc.
    erewrite decode_uri_lead; [|lia|by apply start_three, in_range_true; lia|].
    2: { rewrite percent_tail_step; [|lia|].
         { rewrite percent_tail_step; [reflexivity|lia|apply in_range_true; lia]. }
         apply in_range_true.
         destruct (N.eqb_spec (224 + cp / 4096) 224), (N.eqb_spec (224 + cp / 4096) 237); lia. }
    match goal with |- context [of_code_point ?x] => replace x with cp by lia end. done. }
  cbn [flat_map]. rewrite app_nil_r, <- !app_assoc.
  erewrite decode_uri_lead; [|lia|by apply start_four, in_range_true; lia|].
  2: { rewrite percent_tail_step; [|lia|].
       - rewrite percent_tail_step; [|lia|apply in_range_true; lia].
         rewrite percent_tail_step; [reflexivity|lia|apply in_range_true; lia].
       - apply in_range_true.
         destruct (N.eqb_spec (240 + cp / 262144) 240), (N.eqb_spec (240 + cp / 262144) 244); lia. }
  match goal with |- context [of_code_point ?x] => replace x with cp by lia end. done.
Qed.

Lemma unreserved_bounds c : unreserved c = true -> (33 <= c <= 126 /\ c <> 37 /\ c <> 47)%N.
Proof.
  intros H. apply unreserved_list in H as [H|H].
  - unfold is_alnum, is_alpha, is_upper, is_lower, is_digit, in_range in H. lia.
  - repeat (apply elem_of_cons in H as [->|H]; [by vm_compute|]). by apply elem_of_nil in H.
Qed.

Lemma decode_uri_char f cp r :
  scalar_value cp ->
  decode_uri (S f) (encode_char cp ++ r) = (rest ← decode_uri f r; Ok (of_code_point cp ++ rest)).
Proof.
  intros Hcp. unfold encode_char. destruct (unreserved cp) eqn:Hu.
  - apply unreserved_bounds in Hu. cbn [app decode_uri].
    rewrite (proj2 (N.eqb_neq cp 37)) by lia. unfold of_code_point.
    replace (cp <? 65536)%N with true by lia. done.
  - destruct (N.ltb_spec cp 128); [|by apply decode_uri_bytes].
    unfold utf8_bytes. replace (cp <? 128)%N with true by lia. cbn [flat_map]. rewrite app_nil_r.
    pose proof (percent_byte_percent cp r ltac:(lia)) as Hp. unfold percent in *. cbn [app] in *.
    cbn [decode_uri]. rewrite N.eqb_refl, Hp. unfold start_byte.
    replace (cp <? 128)%N with true by lia. unfold of_code_point.
    replace (cp <? 65536)%N with true by lia. done.
Qed.

Lemma encode_char_nonempty cp : encode_char cp <> [].
Proof.
  unfold encode_char. destruct (unreserved cp); [done|]. unfold utf8_bytes.
  repeat match goal with |- context [if ?b then _ else _] => destruct b end; done.
Qed.

Lemma decode_uri_encoded f l :
  Forall scalar_value l -> length (flat_map encode_char l) <= f ->
  decode_uri f (flat_map encode_char l) = Ok (concat (map of_code_point l)).
Proof.
  intros Hl. revert f. induction Hl as [|cp l Hcp Hl IH]; intros f Hf; [by destruct f|].
  cbn [flat_map map concat] in *. rewrite length_app in Hf.
  pose proof (encode_char_nonempty cp) as Hne.
  destruct f as [|f]; [destruct (encode_char cp); [done|simpl in Hf; lia]|].
  rewrite decode_uri_char by done. rewrite IH; [done|].
  destruct (encode_char cp); [done|]. simpl in Hf. lia.
Qed.

Lemma decode_encode_uri s t :
  code_units s = true -> encodeURIComponent s = Ok t -> decodeURIComponent t = Ok s.
Proof.
  unfold encodeURIComponent. intros Hu. destruct (well_formed s) eqn:Hw; [|done]. intros [= <-].
  unfold decodeURIComponent. rewrite decode_uri_encoded; [|by apply code_points_scalar|done].
  f_equal. by apply chars_concat.
Qed.

Lemma ascii_well_formed s : ascii s = true -> well_formed s = true.
Proof.
  intros H. unfold well_formed. rewrite (ascii_code_points s H). unfold ascii in H.
  rewrite forallb_forall in H |- *. intros c Hc. apply H in Hc. unfold is_surrogate, in_range. lia.
Qed.

(** Text of unreserved characters is not changed by percent encoding. *)
Lemma unreserved_encode s : forallb unreserved s = true -> encodeURIComponent s = Ok s.
Proof.
  intros H. assert (ascii s = true) as Ha.
  { apply uri_ascii. rewrite forallb_forall in H |- *. intros c Hc. unfold uri_char. by rewrite H. }
  unfold encodeURIComponent. rewrite (ascii_well_formed s Ha), (ascii_code_points s Ha). f_equal.
  clear Ha. induction s as [|c s IH]; [done|]. cbn [forallb] in H. apply andb_true_iff in H as [Hc H].
  cbn [flat_map]. rewrite IH by done. unfold encode_char. by rewrite Hc.
Qed.
(** ** Joining texts *)

Lemma high_surrogate c : is_high c = true -> is_surrogate c = true.
Proof. unfold is_high, is_surrogate, in_range. lia. Qed.
Lemma low_surrogate c : is_low c = true -> is_surrogate c = true /\ is_high c = false.
Proof. unfold is_low, is_high, is_surrogate, in_range. lia. Qed.

Lemma code_points_cons2 a b r :
  code_points (a :: b :: r) =
    if is_high a && is_low b then combine a b :: code_points r else a :: code_points (b :: r).
Proof. reflexivity. Qed.

Lemma code_points_app p r :
  well_formed p = true -> code_points (p ++ r) = code_points p ++ code_points r.
Proof.
  unfold well_formed. induction p as [|c|a b p IH1 IH2] using jstr_ind2; intros Hw; [done| |].
  - cbn in Hw. rewrite andb_true_r in Hw. apply negb_true_iff in Hw.
    assert (is_high c = false) as Hh.
    { destruct (is_high c) eqn:E; [|done]. by rewrite (high_surrogate _ E) in Hw. }
    cbn [app]. destruct r as [|d r]; [done|]. rewrite code_points_cons2, Hh. done.
  - cbn [app]. rewrite !code_points_cons2 in *. destruct (is_high a && is_low b).
    + cbn [forallb] in Hw. apply andb_true_iff in Hw as [_ Hw]. cbn [app]. by rewrite IH1.
    + cbn [forallb] in Hw. apply andb_true_iff in Hw as [_ Hw]. cbn [app]. f_equal. by apply IH2.
Qed.

Lemma well_formed_head q : well_formed q = true -> forall c r, q = c :: r -> is_low c = false.
Proof.
  intros Hw c r ->. destruct (is_low c) eqn:E; [|done]. exfalso.
  pose proof (low_surrogate _ E) as [Hs Hh]. unfold well_formed in Hw.
  destruct r as [|d r]; [cbn in Hw; by rewrite Hs in Hw|].
  rewrite code_points_cons2, Hh in Hw. cbn in Hw. by rewrite Hs in Hw.
Qed.

(** The other side: a text that starts a code point. *)
Lemma code_points_app_head x q :
  (forall c r, q = c :: r -> is_low c = false) -> code_points (x ++ q) = code_points x ++ code_points q.
Proof.
  intros Hq. induction x as [|c|a b x IH1 IH2] using jstr_ind2; [done| |].
  - cbn [app]. destruct q as [|d q]; [done|]. rewrite code_points_cons2.
    rewrite (Hq d q eq_refl), andb_false_r. done.
  - cbn [app]. rewrite !code_points_cons2. destruct (is_high a && is_low b).
    + cbn [app]. by rewrite IH1.
    + cbn [app] in IH2. rewrite IH2. done.
Qed.

Lemma code_points_app_r x q :
  well_formed q = true -> code_points (x ++ q) = code_points x ++ code_points q.
Proof. intros Hq. apply code_points_app_head. by apply well_formed_head. Qed.

Lemma well_formed_app_r x q :
  well_formed q = true -> well_formed (x ++ q) = true -> well_formed x = true.
Proof.
  intros Hq Hw. unfold well_formed in *. rewrite code_points_app_r in Hw by done.
  rewrite forallb_app in Hw. by apply andb_true_iff in Hw as [? _].
Qed.

Lemma well_formed_app_l x q :
  well_formed x = true -> well_formed (x ++ q) = true -> well_formed q = true.
Proof.
  intros Hq Hw. unfold well_formed in *. rewrite code_points_app in Hw by done.
  rewrite forallb_app in Hw. by apply andb_true_iff in Hw as [_ ?].
Qed.

(** Text fit for UTF-8: code units, no lone surrogate. *)
Definition fit (s : jstr) : bool := code_units s && well_formed s.

Lemma fit_app x q : fit x = true -> fit q = true -> fit (x ++ q) = true.
Proof.
  unfold fit, code_units, well_formed. rewrite !andb_true_iff. intros [Hx Hx'] [Hq Hq'].
  by rewrite code_points_app, !forallb_app, Hx, Hx', Hq, Hq'.
Qed.

Lemma fit_ascii s : ascii s = true -> fit s = true.
Proof.
  intros Hs. unfold fit. rewrite (ascii_well_formed s Hs), andb_true_r. unfold ascii, code_units in *.
  rewrite forallb_forall in Hs |- *. intros c Hc. apply Hs in Hc. lia.
Qed.

Lemma fit_join sep l : fit sep = true -> forallb fit l = true -> fit (join_with sep l) = true.
Proof.
  intros Hs. induction l as [|x [|y l] IH]; intros Hl; [done|by cbn in *; rewrite andb_true_r in Hl|].
  cbn [forallb] in Hl. apply andb_true_iff in Hl as [Hx Hl]. rewrite join_with_cons by done.
  apply fit_app; [done|]. apply fit_app; [done|]. by apply IH.
Qed.

End Utf8.
