(* ===== verification/Base64.v ===== *)
(** [btoa] and [atob], as the HTML standard defines them: bytes, given as a string of code
    units below 256, to base64 and back.  The bridge's attributes, the cipher's tokens and the
    mobile bridge's requests go through these. *)

From stdpp Require Import list.
From S2P Require Import Prelude Utf8.

Module Base64.

Definition byte (b : N) : bool := (b <? 256)%N.

Definition invalid_character : js_error :=
  {| err_name := js "InvalidCharacterError"; err_message := js "The string contains invalid characters."; err_code := None |}.

(** The alphabet. *)
Definition char_of (d : N) : N :=
  if (d <? 26)%N then (65 + d)%N
  else if (d <? 52)%N then (71 + d)%N
  else if (d <? 62)%N then (d - 4)%N
  else if (d =? 62)%N then 43%N else 47%N.

Definition digit_of (c : N) : option N :=
  if is_upper c then Some (c - 65)%N
  else if is_lower c then Some (c - 71)%N
  else if is_digit c then Some (c + 4)%N
  else if (c =? 43)%N then Some 62%N
  else if (c =? 47)%N then Some 63%N
  else None.

Definition pad : N := 61.

Fixpoint groups (bytes : list N) : jstr :=
  match bytes with
  | a :: b :: c :: r =>
      char_of (a / 4) :: char_of (a mod 4 * 16 + b / 16) :: char_of (b mod 16 * 4 + c / 64) :: char_of (c mod 64) :: groups r
  | [a; b] => [char_of (a / 4); char_of (a mod 4 * 16 + b / 16); char_of (b mod 16 * 4); pad]
  | [a] => [char_of (a / 4); char_of (a mod 4 * 16); pad; pad]
  | [] => []
  end%N.

Definition btoa (s : jstr) : outcome jstr := if forallb byte s then Ok (groups s) else Throw invalid_character.

(** Four digits give three bytes; what is left over gives two, one or, alone, nothing. *)
Fixpoint bytes_of (digits : list N) : option (list N) :=
  match digits with
  | d0 :: d1 :: d2 :: d3 :: r => l ← bytes_of r; Some (d0 * 4 + d1 / 16 :: d1 mod 16 * 16 + d2 / 4 :: d2 mod 4 * 64 + d3 :: l)
  | [d0; d1; d2] => Some [d0 * 4 + d1 / 16; d1 mod 16 * 16 + d2 / 4]
  | [d0; d1] => Some [d0 * 4 + d1 / 16]
  | [_] => None
  | [] => Some []
  end%N.

Definition blank (c : N) : bool := (c =? 9)%N || (c =? 10)%N || (c =? 12)%N || (c =? 13)%N || (c =? 32)%N.

(** At most two padding characters at the end of a text whose length is a multiple of four. *)
Fixpoint chop (n : nat) (s : jstr) : jstr :=
  match n, s with
  | S n, c :: r => if (c =? pad)%N then chop n r else s
  | _, _ => s
  end.
Definition unpad (s : jstr) : jstr := if Nat.eqb (length s mod 4) 0 then reverse (chop 2 (reverse s)) else s.

Definition atob (s : jstr) : outcome (list N) :=
  match digits ← mapM digit_of (unpad (filter (fun c => blank c = false) s)); bytes_of digits with
  | Some bytes => Ok bytes
  | None => Throw invalid_character
  end.

(** ** The round trip *)

Definition base64_char (c : N) : bool := bool_decide (is_Some (digit_of c)).

Lemma char_of_spec d : (d < 64)%N -> digit_of (char_of d) = Some d /\ blank (char_of d) = false /\ char_of d <> pad.
Proof.
  intros Hd. unfold char_of, digit_of, blank, is_upper, is_lower, is_digit, in_range, pad.
  repeat match goal with |- context [if ?b then _ else _] => destruct b eqn:? end; split_and!; try (f_equal; lia); lia.
Qed.

Lemma digit_of_char d : (d < 64)%N -> digit_of (char_of d) = Some d.
Proof. apply char_of_spec. Qed.
Lemma char_not_blank d : (d < 64)%N -> blank (char_of d) = false.
Proof. apply char_of_spec. Qed.
Lemma char_not_pad d : (d < 64)%N -> char_of d <> pad.
Proof. apply char_of_spec. Qed.

(** Bytes, three at a time. *)
Lemma bytes_ind (P : list N -> Prop) : P [] -> (forall a, P [a]) -> (forall a b, P [a; b]) ->
  (forall a b c r, P r -> P (a :: b :: c :: r)) -> forall l, P l.
Proof.
  intros H0 H1 H2 H3 l. enough (P l /\ (forall a, P (a :: l)) /\ forall a b, P (a :: b :: l)) as [? _] by done.
  induction l as [|x l (IH0 & IH1 & IH2)]; [auto|]. split_and!; [apply IH1|intros a; apply IH2|intros a b; by apply H3].
Qed.

(** The digits of bytes, without padding. *)
Fixpoint digits_of (bytes : list N) : list N :=
  match bytes with
  | a :: b :: c :: r => a / 4 :: a mod 4 * 16 + b / 16 :: b mod 16 * 4 + c / 64 :: c mod 64 :: digits_of r
  | [a; b] => [a / 4; a mod 4 * 16 + b / 16; b mod 16 * 4]
  | [a] => [a / 4; a mod 4 * 16]
  | [] => []
  end%N.
Definition padding (n : nat) : jstr := match n mod 3 with 0 => [] | 1 => [pad; pad] | _ => [pad] end.

Lemma padding_step n : padding (S (S (S n))) = padding n.
Proof. unfold padding. replace (S (S (S n))) with (n + 1 * 3) by lia. by rewrite Nat.Div0.mod_add. Qed.

Lemma groups_digits l : groups l = map char_of (digits_of l) ++ padding (length l).
Proof.
  induction l as [|a|a b|a b c r IH] using bytes_ind; [done..|]. cbn [groups digits_of map length app]. by rewrite padding_step, IH.
Qed.

(** Split a list of bytes and bound each. *)
Ltac each_byte := repeat match goal with
  | H : Forall _ (_ :: _) |- _ => apply Forall_cons in H as [?%N.ltb_lt H]
  end.

Ltac digits := zify; Z.to_euclidean_division_equations; lia.

Lemma digits_bound l : Forall (fun b => byte b = true) l -> Forall (fun d => (d < 64)%N) (digits_of l).
Proof.
  induction l as [|a|a b|a b c r IH] using bytes_ind; intros Hl; cbn [digits_of]; each_byte; [by apply Forall_nil_2|..];
    repeat (apply Forall_cons_2; [digits|]); [apply Forall_nil_2..|by apply IH].
Qed.

Lemma bytes_of_digits l : Forall (fun b => byte b = true) l -> bytes_of (digits_of l) = Some l.
Proof.
  induction l as [|a|a b|a b c r IH] using bytes_ind; intros Hl; cbn [digits_of bytes_of]; each_byte; [done|..].
  1,2: repeat f_equal; digits.
  rewrite IH by done. cbn [mbind option_bind]. repeat f_equal; digits.
Qed.

Lemma mapM_chars ds : Forall (fun d => (d < 64)%N) ds -> mapM digit_of (map char_of ds) = Some ds.
Proof. induction 1 as [|d ds Hd _ IH]; [done|]. cbn [map mapM]. rewrite digit_of_char by done. cbn [mbind option_bind]. by rewrite IH. Qed.

Lemma digits_length l : length (digits_of l) + length (padding (length l)) = 4 * ((length l + 2) / 3).
Proof.
  induction l as [|a|a b|a b c r IH] using bytes_ind; [done..|]. cbn [digits_of length]. rewrite padding_step.
  replace (S (S (S (length r))) + 2) with (length r + 2 + 1 * 3) by lia. rewrite Nat.div_add by lia. lia.
Qed.

Lemma chop_chars n ds : Forall (fun d => (d < 64)%N) ds -> chop n (reverse (map char_of ds)) = reverse (map char_of ds).
Proof.
  intros Hd. destruct n as [|n]; [by destruct (reverse _)|]. destruct ds as [|x ds _] using rev_ind; [done|].
  apply Forall_app in Hd as [_ [Hd _]%Forall_cons]. rewrite map_app, reverse_app. cbn [map chop reverse rev_append app].
  by rewrite (proj2 (N.eqb_neq _ _) (char_not_pad x Hd)).
Qed.

Lemma unpad_padding n ds : Forall (fun d => (d < 64)%N) ds -> (length ds + length (padding n)) mod 4 = 0 ->
  unpad (map char_of ds ++ padding n) = map char_of ds.
Proof.
  intros Hd Hlen. unfold unpad. rewrite length_app, length_map, Hlen, Nat.eqb_refl, reverse_app.
  rewrite <- (reverse_involutive (map char_of ds)) at 2. f_equal.
  unfold padding. destruct (n mod 3) as [|[|m]]; [exact (chop_chars 2 ds Hd)|exact (chop_chars 0 ds Hd)|exact (chop_chars 1 ds Hd)].
Qed.

Lemma groups_solid l : Forall (fun b => byte b = true) l -> filter (fun c => blank c = false) (groups l) = groups l.
Proof.
  intros Hl. rewrite groups_digits. assert (Forall (fun c => blank c = false) (map char_of (digits_of l) ++ padding (length l))) as Hs.
  { apply Forall_app. split; [apply Forall_fmap; eapply Forall_impl; [by apply digits_bound|]; intros d Hd; by apply char_not_blank|].
    unfold padding. destruct (_ mod 3) as [|[|]]; repeat constructor. }
  induction Hs as [|c s Hc _ IH]; [done|]. by rewrite filter_cons_True, IH.
Qed.

(** Bytes encoded are read back. *)
Lemma atob_groups l : Forall (fun b => byte b = true) l -> atob (groups l) = Ok l.
Proof.
  intros Hl. unfold atob. rewrite groups_solid by done. rewrite groups_digits. pose proof (digits_bound l Hl) as Hd.
  rewrite unpad_padding by (done || (rewrite digits_length, Nat.mul_comm; apply Nat.Div0.mod_mul)).
  rewrite mapM_chars by done. cbn [mbind option_bind]. by rewrite bytes_of_digits.
Qed.

Lemma bytes_forall l : forallb byte l = true <-> Forall (fun b => byte b = true) l.
Proof. rewrite forallb_forall, Forall_forall. by setoid_rewrite list_elem_of_In. Qed.

Lemma btoa_ok l : Forall (fun b => byte b = true) l -> btoa l = Ok (groups l).
Proof. intros Hl. unfold btoa. by rewrite (proj2 (bytes_forall l) Hl). Qed.

(** What base64 text is made of. *)
Lemma groups_chars l : Forall (fun b => byte b = true) l -> Forall (fun c => base64_char c = true \/ c = pad) (groups l).
Proof.
  intros Hl. rewrite groups_digits. apply Forall_app. split.
  - apply Forall_fmap. eapply Forall_impl; [by apply digits_bound|]. intros d Hd. left. unfold base64_char.
    apply bool_decide_true. cbn. rewrite digit_of_char by done. by eexists.
  - unfold padding. destruct (_ mod 3) as [|[|]]; repeat constructor; by right.
Qed.

(** The bytes of a text. *)
Lemma encode_bytes s : Utf8.code_units s = true -> Utf8.well_formed s = true -> Forall (fun b => byte b = true) (Utf8.encode s).
Proof.
  intros Hu Hw. pose proof (Utf8.code_points_scalar s Hu Hw) as Hs. unfold Utf8.encode. apply Forall_forall. intros b Hb%list_elem_of_In.
  apply in_flat_map in Hb as (cp & Hcp%list_elem_of_In & Hb). rewrite Forall_forall in Hs. destruct (Hs cp Hcp) as [Hlt Hsur]. rewrite Hsur in Hb.
  pose proof (Utf8.utf8_bytes_bound cp Hlt) as Hbound. rewrite Forall_forall in Hbound. apply N.ltb_lt, Hbound, list_elem_of_In, Hb.
Qed.

(** [/^[A-Za-z0-9+/]*={0,2}$/] *)
Definition base64_text (s : jstr) : bool :=
  let body := take_while base64_char s in
  let rest := drop (length body) s in
  forallb (fun c => (c =? pad)%N) rest && (length rest <=? 2).

Lemma take_while_app_pads (f : N -> bool) s n : Forall (fun c => f c = true) s -> f pad = false -> take_while f (s ++ replicate n pad) = s.
Proof. intros Hs Hp. induction Hs as [|c s Hc _ IH]; [destruct n; cbn; by rewrite ?Hp|]. cbn. by rewrite Hc, IH. Qed.

Lemma padding_replicate n : padding n = replicate (length (padding n)) pad /\ length (padding n) <= 2.
Proof. unfold padding. destruct (_ mod 3) as [|[|m]]; cbn; split; (done || lia). Qed.

Lemma groups_text l : Forall (fun b => byte b = true) l -> base64_text (groups l) = true.
Proof.
  intros Hl. rewrite groups_digits. destruct (padding_replicate (length l)) as [-> Hn]. unfold base64_text.
  rewrite take_while_app_pads; [|apply Forall_fmap; eapply Forall_impl; [by apply digits_bound|]|done].
  - rewrite drop_app_length. rewrite (proj2 (forallb_forall _ _)); [|by intros c [-> _]%list_elem_of_In%elem_of_replicate].
    exact (proj2 (Nat.leb_le _ _) Hn).
  - intros d Hd. unfold base64_char. apply bool_decide_true. cbn. rewrite digit_of_char by done. by eexists.
Qed.

Lemma groups_length l : length (groups l) = 4 * ((length l + 2) / 3).
Proof. rewrite groups_digits, length_app, length_map. apply digits_length. Qed.

(** A prefix of whole groups encodes a prefix of the bytes. *)
Lemma groups_take n l : take (4 * n) (groups l) = groups (take (3 * n) l).
Proof.
  revert l. induction n as [|n IH]; intros l; [done|].
  replace (4 * S n) with (S (S (S (S (4 * n))))) by lia. replace (3 * S n) with (S (S (S (3 * n)))) by lia.
  destruct l as [|a [|b [|c r]]]; cbn [groups take]; rewrite ?firstn_nil; [done..|by rewrite IH].
Qed.

End Base64.
