(* ===== verification/Cipher.v ===== *)
(** Field encryption and what a query may say about encrypted fields: class [Cipher] of
    [src/security/cipher.js] and class [Query] of [src/query/operators.js].  The Web Crypto
    primitives and the environment are parameters. *)

From stdpp Require Import list gmap.
From S2P Require Import Prelude PathUtil JsNum JsValue Utf8 Base64.

Module Cipher.
Import Utf8.

(** What the class calls of Web Crypto: keys are imported from bytes; [getRandomValues]
    reads from the state. *)
Class SubtleCrypto (S K HK : Type) := {
  deriveBits : list N -> list N -> list N;             (* PBKDF2, 100000 rounds of SHA-256, 512 bits *)
  importAes : list N -> K;
  importHmac : list N -> HK;
  sign : HK -> list N -> list N;                       (* HMAC with SHA-256 *)
  aes_encrypt : K -> list N -> list N -> list N;       (* AES-GCM: key, nonce, plaintext *)
  aes_decrypt : K -> list N -> list N -> outcome (list N);
  getRandomValues : nat -> S -> list N * S
}.

(** The static fields of the class. *)
Record cipher (S K HK : Type) := mkCipher {
  world : S;
  key : option K;
  hmacKey : option HK;
  collections : gmap jstr (list jstr)
}.
Arguments mkCipher {S K HK}. Arguments world {S K HK}. Arguments key {S K HK}. Arguments hmacKey {S K HK}. Arguments collections {S K HK}.

(** *** Base64 for URLs *)

(** [String.fromCharCode(...bytes.slice(i, i + 0x8000))] for [i] in steps, joined. *)
Definition CHUNK : nat := N.to_nat 32768.
Fixpoint chunked (n : nat) (fuel : nat) (bytes : list N) : jstr :=
  match fuel, bytes with
  | S fuel, _ :: _ => take n bytes ++ chunked n fuel (drop n bytes)
  | _, _ => []
  end.

Definition strip_equals (s : jstr) : jstr := reverse (drop_while (fun c => (c =? Base64.pad)%N) (reverse s)).

Definition base64Url (bytes : list N) : outcome jstr :=
  encoded ← Base64.btoa (chunked CHUNK (length bytes) bytes);
  Ok (strip_equals (replace_char 47 (js "_") (replace_char 43 (js "-") encoded))).

Definition fromBase64Url (encoded : jstr) : outcome (list N) :=
  let b64 := replace_char 95 (js "/") (replace_char 45 (js "+") encoded) in
  Base64.atob (b64 ++ replicate ((4 - length b64 mod 4) mod 4) Base64.pad).

(** Bytes in base64 for URLs are read back, and their text is made of letters, digits,
    dashes and underscores. *)
Definition url_safe (c : N) : bool := is_alnum c || (c =? 45)%N || (c =? 95)%N.

Lemma chunked_all n fuel l : 0 < n -> length l <= fuel -> chunked n fuel l = l.
Proof.
  intros Hn. revert l. induction fuel as [|fuel IH]; intros [|b l] Hl; try done; [cbn in Hl; lia|].
  cbn [chunked]. rewrite IH; [apply take_drop|]. rewrite length_drop. cbn [length] in *. lia.
Qed.

Lemma replace_map c d s : replace_char c [d] s = map (fun x => if (x =? c)%N then d else x) s.
Proof. unfold replace_char. induction s as [|x s IH]; [done|]. cbn [flat_map map]. rewrite IH. by destruct (x =? c)%N. Qed.

Lemma strip_equals_chars s n : Forall (fun c => c <> Base64.pad) s -> strip_equals (s ++ replicate n Base64.pad) = s.
Proof.
  intros Hs. unfold strip_equals. rewrite reverse_app, reverse_replicate. induction n as [|n IH]; cbn [replicate app drop_while].
  - destruct s as [|c s _] using rev_ind; [done|]. apply Forall_app in Hs as [_ [Hc _]%Forall_cons]. rewrite reverse_snoc. cbn [drop_while].
    by rewrite (proj2 (N.eqb_neq _ _) Hc), reverse_cons, reverse_involutive.
  - by rewrite N.eqb_refl.
Qed.

Definition url_char (d : N) : N :=
  let c := Base64.char_of d in let c := if (c =? 43)%N then 45%N else c in if (c =? 47)%N then 95%N else c.

Lemma url_char_spec d : (d < 64)%N ->
  url_safe (url_char d) = true /\ url_char d <> Base64.pad /\
  (let c := url_char d in let c := if (c =? 45)%N then 43%N else c in if (c =? 95)%N then 47%N else c) = Base64.char_of d.
Proof.
  intros Hd. assert (d ∈ map N.of_nat (seq 0 64)) as Hin.
  { apply list_elem_of_In, in_map_iff. exists (N.to_nat d). rewrite in_seq. lia. } revert d Hd Hin.
  assert (Forall (fun d => url_safe (url_char d) = true /\ url_char d <> Base64.pad /\
    (let c := url_char d in let c := if (c =? 45)%N then 43%N else c in if (c =? 95)%N then 47%N else c) = Base64.char_of d) (map N.of_nat (seq 0 64))) as Hall
    by (apply (bool_decide_unpack _); vm_compute; exact I).
  rewrite Forall_forall in Hall. auto.
Qed.

Lemma base64Url_text l : Forall (fun b => Base64.byte b = true) l -> base64Url l = Ok (map url_char (Base64.digits_of l)).
Proof.
  intros Hl. unfold base64Url. rewrite chunked_all by (unfold CHUNK; lia). rewrite Base64.btoa_ok by done. cbn [mbind outcome_bind]. f_equal.
  change (js "_") with [95%N]. change (js "-") with [45%N].
  rewrite Base64.groups_digits, (proj1 (Base64.padding_replicate _)), !replace_map, !map_app, !map_map.
  assert (forall (f : N -> N) n, f Base64.pad = Base64.pad -> map f (replicate n Base64.pad) = replicate n Base64.pad) as Hpad
    by (intros f n Hf; induction n as [|n IH]; [done|]; cbn [replicate map]; by rewrite IH, Hf).
  rewrite (Hpad _ _ eq_refl). apply strip_equals_chars. apply Forall_fmap. eapply Forall_impl; [by apply Base64.digits_bound|].
  intros d Hd. apply (url_char_spec d Hd).
Qed.

Lemma pad_again n k : (n + k) mod 4 = 0 -> k < 4 -> (4 - n mod 4) mod 4 = k.
Proof.
  intros Hn Hk. pose proof (Nat.mod_upper_bound n 4 ltac:(lia)). rewrite Nat.Div0.add_mod in Hn. rewrite (Nat.mod_small k) in Hn by done.
  assert (n mod 4 + k = 0 \/ n mod 4 + k = 4) as [?|?].
  { destruct (decide (n mod 4 + k < 4)); [left; by rewrite Nat.mod_small in Hn|right].
    replace (n mod 4 + k) with (n mod 4 + k - 4 + 1 * 4) in Hn by lia. rewrite Nat.Div0.mod_add, Nat.mod_small in Hn by lia. lia. }
  - replace (n mod 4) with 0 by lia. replace k with 0 by lia. done.
  - replace (4 - n mod 4) with k by lia. by apply Nat.mod_small.
Qed.

Lemma from_base64Url l : Forall (fun b => Base64.byte b = true) l ->
  exists t, base64Url l = Ok t /\ fromBase64Url t = Ok l /\ forallb url_safe t = true.
Proof.
  intros Hl. exists (map url_char (Base64.digits_of l)). split; [by apply base64Url_text|]. pose proof (Base64.digits_bound l Hl) as Hd. split.
  - unfold fromBase64Url. change (js "/") with [47%N]. change (js "+") with [43%N]. rewrite !replace_map, !map_map.
    assert (map (fun x => if (if (url_char x =? 45)%N then 43%N else url_char x) =? 95 then 47 else if (url_char x =? 45)%N then 43 else url_char x)%N
              (Base64.digits_of l) = map Base64.char_of (Base64.digits_of l)) as ->.
    { apply map_ext_in. intros d Hin%list_elem_of_In. rewrite Forall_forall in Hd. apply (url_char_spec d (Hd d Hin)). }
    rewrite length_map, (pad_again _ (length (Base64.padding (length l)))).
    + rewrite <- (proj1 (Base64.padding_replicate _)), <- Base64.groups_digits. by apply Base64.atob_groups.
    + rewrite Base64.digits_length, Nat.mul_comm. apply Nat.Div0.mod_mul.
    + unfold Base64.padding. destruct (_ mod 3) as [|[|]]; cbn; lia.
  - apply forallb_forall. intros c Hc%list_elem_of_In. apply list_elem_of_fmap in Hc as (d & -> & Hin). rewrite Forall_forall in Hd. apply (url_char_spec d (Hd d Hin)).
Qed.

Section Cipher.
  Context {S K HK : Type} `{SubtleCrypto S K HK}.
  (** [process.env.FYLO_CIPHER_SALT] *)
  Context (FYLO_CIPHER_SALT : option jstr).

Abbreviation state := (cipher S K HK) (only parsing).

Definition initial (w : S) : state := mkCipher w None None ∅.

Definition isConfigured (s : state) : bool := bool_decide (is_Some (key s)).
Definition hasEncryptedFields (collection : jstr) (s : state) : bool :=
  match collections s !! collection with Some fields => 0 <? length fields | None => false end.
Definition isEncryptedField (collection field : jstr) (s : state) : bool :=
  match collections s !! collection with
  | None => false
  | Some fields => existsb (fun pattern => jeqb field pattern || starts_with (pattern ++ js "/") field) fields
  end.

(** [new Set(fields)] *)
Definition to_set (fields : list jstr) : list jstr :=
  fold_left (fun acc f => if bool_decide (f ∈ acc) then acc else acc ++ [f]) fields [].
Definition registerFields (collection : jstr) (fields : list jstr) : M state () :=
  when (0 <? length fields)
    (modify (fun s => mkCipher (world s) (key s) (hmacKey s) (<[collection := to_set fields]> (collections s)))).

Definition no_salt : js_error :=
  Error (js "FYLO_CIPHER_SALT env var is not set. Generate one with: export FYLO_CIPHER_SALT=$(openssl rand -hex 32)").
Definition not_configured : js_error := Error (js "Cipher not configured" ++ [32; 8212; 32]%N ++ js "set FYLO_ENCRYPTION_KEY env var").

Definition configure (secret : jstr) : M state () :=
  match FYLO_CIPHER_SALT with
  | None | Some [] => throw no_salt
  | Some cipherSalt =>
      let derived := deriveBits (encode secret) (encode cipherSalt) in
      modify (fun s => mkCipher (world s) (Some (importAes (take 32 derived))) (Some (importHmac (take 32 (drop 32 derived)))) (collections s))
  end.

Definition reset : M state () := modify (fun s => mkCipher (world s) None None ∅).

Definition required {A} (k : option A) : outcome A := match k with Some a => Ok a | None => Throw not_configured end.

Definition deriveNonce (plaintext : jstr) : M state (list N) :=
  k ← (fun s => (required (hmacKey s), s));
  mret (take 12 (sign k (encode plaintext))).

Definition blindIndex (value : jstr) : M state jstr :=
  k ← (fun s => (required (hmacKey s), s));
  token ← lift (base64Url (sign k (encode value)));
  mret (js "idx1." ++ token).

Definition random (n : nat) : M state (list N) := fun s =>
  let '(bytes, w) := getRandomValues n (world s) in (Ok bytes, mkCipher w (key s) (hmacKey s) (collections s)).

Definition encrypt (value : jstr) (deterministic : bool) : M state jstr :=
  k ← (fun s => (required (key s), s));
  nonce ← (if deterministic then deriveNonce value else random 12);
  text ← lift (base64Url (nonce ++ aes_encrypt k nonce (encode value)));
  mret (js "v2." ++ text).

Definition isCiphertext (stored : jstr) : bool := starts_with (js "v2.") stored.

Definition unsupported (encoded : jstr) : js_error :=
  Error (js "Unsupported ciphertext format. Expected v2.* (AES-GCM); received " ++ take 8 encoded ++ [8230%N]).

Definition decrypt (encoded : jstr) : M state jstr :=
  k ← (fun s => (required (key s), s));
  _ ← throw_if (negb (starts_with (js "v2.") encoded)) (unsupported encoded);
  combined ← lift (fromBase64Url (drop 3 encoded));
  decrypted ← lift (aes_decrypt k (take 12 combined) (drop 12 combined));
  mret (decode decrypted).

(** *** Index expressions of a query *)

Definition ENCRYPTED_FIELD_OPS : list jstr := map js ["$ne"; "$gt"; "$gte"; "$lt"; "$lte"; "$like"; "$contains"]%string.

Definition not_supported (operator column : jstr) : js_error :=
  Error (js "Operator " ++ operator ++ js " is not supported on encrypted field " ++ [34%N] ++ column ++ [34%N]).

Definition assertNoEncryptedOnlyOperators (column : jstr) (operand : value) : outcome () :=
  match filter (fun op => prop operand op <> VUndef) ENCRYPTED_FIELD_OPS with
  | operator :: _ => Throw (not_supported operator column)
  | [] => Ok ()
  end.

(** [expressions.add(e)] *)
Definition add (e : jstr) (expressions : list jstr) : list jstr :=
  if bool_decide (e ∈ expressions) then expressions else expressions ++ [e].

Definition addOperandExpressions (collection : jstr) (expressions : list jstr) (column : jstr) (operand : value) : M state (list jstr) :=
  let fieldPath := replace_char 46 (js "/") column in
  s ← get;
  let encrypted := isConfigured s && isEncryptedField collection fieldPath s in
  _ ← (if encrypted then lift (assertNoEncryptedOnlyOperators column operand) else mret ());
  let eq := prop operand (js "$eq") in
  expressions ← (if truthy eq then
                   lookupValue ← (if encrypted then blindIndex (replace_char 47 (js "%2F") (to_str eq)) else mret (to_str eq));
                   mret (add (fieldPath ++ js "/eq/" ++ lookupValue ++ js "/**/*") expressions)
                 else mret expressions);
  let expressions := if truthy (prop operand (js "$ne")) then add (fieldPath ++ js "/**/*") expressions else expressions in
  let expressions := fold_left (fun acc op => if truthy (prop operand op) then add (fieldPath ++ js "/n/**/*") acc else acc)
                       [js "$gt"; js "$gte"] expressions in
  let expressions := fold_left (fun acc op => if truthy (prop operand op) then add (fieldPath ++ js "/nr/**/*") acc else acc)
                       [js "$lt"; js "$lte"] expressions in
  expressions ← (let like := prop operand (js "$like") in
                 if truthy like then
                   match like with
                   | VStr pattern => mret (add (fieldPath ++ js "/f/" ++ replace_char 37 (js "*") pattern ++ js "/**/*") expressions)
                   | _ => throw (type_error (js "operand.$like.replaceAll is not a function"))
                   end
                 else mret expressions);
  let contains := prop operand (js "$contains") in
  mret (if is_undef contains then expressions else add (fieldPath ++ js "/eq/" ++ to_str contains ++ js "/**/*") expressions).

Definition getExprs (collection : jstr) (query : value) : M state (list jstr) :=
  if negb (truthy (prop query (js "$ops"))) then mret [js "**/*"]
  else
    match prop query (js "$ops") with
    | VArr operations =>
        fold_m (fun expressions operation =>
          fold_m (fun expressions columnOperand =>
            if negb (truthy (snd columnOperand)) then mret expressions
            else addOperandExpressions collection expressions (fst columnOperand) (snd columnOperand))
            (entries operation) expressions) operations []
    | VStr _ => mret []                          (* the characters have none of the operators *)
    | _ => throw (type_error (js "query.$ops is not iterable"))
    end.

(** *** What the primitives promise *)

Class SubtleCryptoLaws := {
  sign_bytes (k : HK) m : length (sign k m) = 32 /\ Forall (fun b => Base64.byte b = true) (sign k m);
  encrypted_bytes (k : K) nonce p : Forall (fun b => Base64.byte b = true) p -> Forall (fun b => Base64.byte b = true) (aes_encrypt k nonce p);
  random_bytes n (w : S) : length (fst (getRandomValues n w)) = n /\ Forall (fun b => Base64.byte b = true) (fst (getRandomValues n w));
  aes_decrypts (k : K) nonce p : length nonce = 12 -> aes_decrypt k nonce (aes_encrypt k nonce p) = Ok p
}.

Section Laws.
  Context {laws : SubtleCryptoLaws}.

Definition configured (k : K) (hk : HK) (s : state) : Prop := key s = Some k /\ hmacKey s = Some hk.

Lemma nonce_spec value (deterministic : bool) k hk s : configured k hk s ->
  exists nonce s', (if deterministic then deriveNonce value else random 12) s = (Ok nonce, s') /\ length nonce = 12 /\
    Forall (fun b => Base64.byte b = true) nonce /\ configured k hk s' /\ collections s' = collections s.
Proof.
  intros [Hk Hhk]. destruct deterministic.
  - destruct (sign_bytes hk (encode value)) as [Hl Hb]. exists (take 12 (sign hk (encode value))), s.
    split_and!; [|rewrite length_take, Hl; done|by apply Forall_take|done..]. unfold deriveNonce, mbind, M_bind. by rewrite Hhk.
  - destruct (random_bytes 12 (world s)) as [Hl Hb]. unfold random. destruct (getRandomValues 12 (world s)) as [bytes w].
    eexists bytes, _. by split_and!.
Qed.

(** What an encrypted value is: the nonce and the ciphertext, in base64 for URLs. *)
Lemma encrypt_spec value deterministic k hk s : configured k hk s -> code_units value = true -> well_formed value = true ->
  exists nonce t s', encrypt value deterministic s = (Ok (js "v2." ++ t), s') /\ length nonce = 12 /\
    fromBase64Url t = Ok (nonce ++ aes_encrypt k nonce (encode value)) /\ forallb url_safe t = true /\
    configured k hk s' /\ collections s' = collections s.
Proof.
  intros Hc Hu Hw. destruct (nonce_spec value deterministic k hk s Hc) as (nonce & s' & Hrun & Hl & Hb & Hc' & Hcol). destruct Hc as [Hk _].
  destruct (from_base64Url (nonce ++ aes_encrypt k nonce (encode value))) as (t & Ht & Hback & Hsafe).
  { apply Forall_app. split; [done|by apply encrypted_bytes, Base64.encode_bytes]. }
  exists nonce, t, s'. split_and!; try done. unfold encrypt, mbind at 1, M_bind at 1. rewrite Hk. cbn [required].
  rewrite (M_bind_ok _ _ _ _ _ Hrun). by rewrite Ht.
Qed.

Lemma decrypt_spec nonce t p k s : key s = Some k -> length nonce = 12 -> fromBase64Url t = Ok (nonce ++ aes_encrypt k nonce p) ->
  decrypt (js "v2." ++ t) s = (Ok (decode p), s).
Proof.
  intros Hk Hl Ht. unfold decrypt, mbind at 1, M_bind at 1. rewrite Hk. cbn [required]. change (drop 3 (js "v2." ++ t)) with t.
  change (starts_with (js "v2.") (js "v2." ++ t)) with true. cbn [negb]. rewrite Ht. unfold throw_if, lift, mret, M_ret, mbind, M_bind.
  rewrite take_app_length', drop_app_length' by done. by rewrite aes_decrypts.
Qed.

(** C27: what is encrypted, with a random nonce or the derived one, is read back by whoever has
    the key, and its text has no slash or other character that would break a path or a URL.
    The value must be a string without lone surrogates that does not start with a byte order
    mark. *)
Theorem decrypt_reads_back value deterministic k hk s : configured k hk s ->
  code_units value = true -> well_formed value = true -> head value <> Some 65279%N ->
  exists t s', encrypt value deterministic s = (Ok t, s') /\ configured k hk s' /\ collections s' = collections s /\
    isCiphertext t = true /\ forallb (fun c => url_safe c || (c =? 46)%N) t = true /\
    forall s2, key s2 = Some k -> decrypt t s2 = (Ok value, s2).
Proof.
  intros Hc Hu Hw Hh. destruct (encrypt_spec value deterministic k hk s Hc Hu Hw) as (nonce & t & s' & Hrun & Hl & Ht & Hsafe & Hc' & Hcol).
  exists (js "v2." ++ t), s'. split_and!; try done.
  - rewrite forallb_app. cbn [js app forallb]. apply forallb_forall. intros c Hin. rewrite forallb_forall in Hsafe. by rewrite Hsafe.
  - intros s2 Hk. rewrite (decrypt_spec nonce t (encode value) k s2 Hk Hl Ht). by rewrite decode_encode.
Qed.

(** *** Encrypted fields in query expressions *)

Lemma blindIndex_spec value k hk s : configured k hk s ->
  exists token, base64Url (sign hk (encode value)) = Ok token /\ forallb url_safe token = true /\
    blindIndex value s = (Ok (js "idx1." ++ token), s).
Proof.
  intros [_ Hhk]. destruct (from_base64Url (sign hk (encode value)) (proj2 (sign_bytes hk _))) as (token & Ht & _ & Hsafe).
  exists token. split_and!; [done|done|]. unfold blindIndex, mbind at 1, M_bind at 1. rewrite Hhk. cbn [required]. by rewrite Ht.
Qed.

(** The only expression an encrypted field may have. *)
Definition blind (hk : HK) (column : jstr) (operand : value) (e : jstr) : Prop :=
  exists token, base64Url (sign hk (encode (replace_char 47 (js "%2F") (to_str (prop operand (js "$eq")))))) = Ok token /\
    e = replace_char 46 (js "/") column ++ js "/eq/" ++ (js "idx1." ++ token) ++ js "/**/*".

Lemma elem_of_add e x l : e ∈ add x l -> e = x \/ e ∈ l.
Proof. unfold add. case_bool_decide; [by right|]. intros [He|He%list_elem_of_singleton]%elem_of_app; auto. Qed.

Lemma encrypted_operand collection expressions column operand k hk s : configured k hk s ->
  isEncryptedField collection (replace_char 46 (js "/") column) s = true ->
  match addOperandExpressions collection expressions column operand s with
  | (Ok l, s') => s' = s /\ (forall e, e ∈ l -> e ∈ expressions \/ blind hk column operand e) /\
      forall op, op ∈ ENCRYPTED_FIELD_OPS -> prop operand op = VUndef
  | (Throw e, s') => s' = s /\ exists op, op ∈ ENCRYPTED_FIELD_OPS /\ prop operand op <> VUndef /\ e = not_supported op column
  end.
Proof.
  intros Hc He. unfold addOperandExpressions. rewrite get_bind. rewrite He. unfold isConfigured. rewrite (bool_decide_true _) by (destruct Hc as [-> _]; by eexists).
  cbn [andb]. unfold assertNoEncryptedOnlyOperators. destruct (filter _ ENCRYPTED_FIELD_OPS) as [|op l] eqn:Ef.
  2: { unfold lift, mbind at 1, M_bind at 1. split; [done|]. assert (op ∈ op :: l) as Hop by left. rewrite <- Ef in Hop.
       apply list_elem_of_filter in Hop as [Hne Hop]. by exists op. }
  assert (forall op, op ∈ ENCRYPTED_FIELD_OPS -> prop operand op = VUndef) as Hnone.
  { intros op Hop. destruct (decide (prop operand op = VUndef)) as [|Hne]; [done|]. assert (op ∈ filter (fun op => prop operand op <> VUndef) ENCRYPTED_FIELD_OPS) as Hin
      by (by apply list_elem_of_filter). rewrite Ef in Hin. by apply elem_of_nil in Hin. }
  rewrite lift_bind. cbn [fold_left].
  rewrite (Hnone (js "$ne")), (Hnone (js "$gt")), (Hnone (js "$gte")), (Hnone (js "$lt")), (Hnone (js "$lte")), (Hnone (js "$like")), (Hnone (js "$contains"))
    by (unfold ENCRYPTED_FIELD_OPS; cbn [map]; set_solver).
  cbn [truthy is_undef]. destruct (truthy (prop operand (js "$eq"))) eqn:Et; [|run_pure; split_and!; [done|by left|done]].
  destruct (blindIndex_spec (replace_char 47 (js "%2F") (to_str (prop operand (js "$eq")))) k hk s Hc) as (token & Ht & _ & Hrun).
  unfold mbind at 1, M_bind at 1. rewrite (M_bind_ok _ _ _ _ _ Hrun). run_pure. split_and!; [done| |done].
  intros e [->|]%elem_of_add; [right; by exists token|by left].
Qed.

(** The expressions of a field that is not encrypted: the operand's own. *)
Definition plain_expressions (column : jstr) (operand : value) : list jstr :=
  let fieldPath := replace_char 46 (js "/") column in
  let given op := truthy (prop operand (js op)) in
  (if given "$eq"%string then [fieldPath ++ js "/eq/" ++ to_str (prop operand (js "$eq")) ++ js "/**/*"] else []) ++
  (if given "$ne"%string then [fieldPath ++ js "/**/*"] else []) ++
  (if given "$gt"%string || given "$gte"%string then [fieldPath ++ js "/n/**/*"] else []) ++
  (if given "$lt"%string || given "$lte"%string then [fieldPath ++ js "/nr/**/*"] else []) ++
  match prop operand (js "$like") with VStr pattern => [fieldPath ++ js "/f/" ++ replace_char 37 (js "*") pattern ++ js "/**/*"] | _ => [] end ++
  (if is_undef (prop operand (js "$contains")) then [] else [fieldPath ++ js "/eq/" ++ to_str (prop operand (js "$contains")) ++ js "/**/*"]).

Lemma add_if (b : bool) e x l : e ∈ (if b then add x l else l) -> e ∈ (if b then [x] else []) \/ e ∈ l.
Proof. destruct b; [|by right]. intros [->|He]%elem_of_add; [left; by left|by right]. Qed.

Lemma add_unless (b : bool) e x l : e ∈ (if b then l else add x l) -> e ∈ (if b then [] else [x]) \/ e ∈ l.
Proof. destruct b; [by right|]. intros [->|He]%elem_of_add; [left; by left|by right]. Qed.

Lemma add_twice (b b' : bool) e x l : e ∈ (if b' then add x (if b then add x l else l) else if b then add x l else l) -> e ∈ (if b || b' then [x] else []) \/ e ∈ l.
Proof. destruct b, b'; cbn [orb]; rewrite ?elem_of_nil, ?list_elem_of_singleton; [|intros He%elem_of_add..|by right]; [intros [->|He%elem_of_add]%elem_of_add; tauto|tauto|tauto]. Qed.

Lemma plain_operand collection expressions column operand s l s' :
  isEncryptedField collection (replace_char 46 (js "/") column) s = false ->
  addOperandExpressions collection expressions column operand s = (Ok l, s') ->
  s' = s /\ forall e, e ∈ l -> e ∈ expressions \/ e ∈ plain_expressions column operand.
Proof.
  intros He. unfold addOperandExpressions. rewrite get_bind. rewrite He, andb_false_r. cbn [fold_left].
  set (eqs := if truthy (prop operand (js "$eq")) then _ else mret expressions).
  assert (exists l0, eqs s = (Ok l0, s) /\ forall e, e ∈ l0 ->
    e ∈ (if truthy (prop operand (js "$eq")) then [replace_char 46 (js "/") column ++ js "/eq/" ++ to_str (prop operand (js "$eq")) ++ js "/**/*"] else []) \/ e ∈ expressions)
    as (l0 & Heqs & Hl0).
  { subst eqs. destruct (truthy (prop operand (js "$eq"))); (eexists; split; [done|]); [|by right]. intros e [->|Hin]%elem_of_add; [left; by left|by right]. }
  clearbody eqs. rewrite M_bind_ret_l, (M_bind_ok _ _ _ _ _ Heqs).
  set (l1 := if truthy (prop operand (js "$lte")) then _ else _).
  assert (forall e, e ∈ l1 -> e ∈ plain_expressions column operand \/ e ∈ expressions) as Hl1.
  { intros e Hin. unfold plain_expressions. rewrite !elem_of_app. apply add_twice in Hin as [|Hin%add_twice]; [tauto|]. destruct Hin as [|Hin%add_if]; [tauto|].
    destruct Hin as [|[]%Hl0]; tauto. }
  clearbody l1.
  assert (forall l2, (forall e, e ∈ l2 -> e ∈ plain_expressions column operand \/ e ∈ expressions) ->
    forall e, e ∈ (if is_undef (prop operand (js "$contains")) then l2 else add (replace_char 46 (js "/") column ++ js "/eq/" ++ to_str (prop operand (js "$contains")) ++ js "/**/*") l2) ->
    e ∈ expressions \/ e ∈ plain_expressions column operand) as Hl2.
  { intros l2 Hl2 e [Hin|Hin%Hl2]%add_unless; [|tauto]. right. unfold plain_expressions. rewrite !elem_of_app. tauto. }
  destruct (truthy (prop operand (js "$like"))).
  - destruct (prop operand (js "$like")) as [| | | |pattern| |] eqn:El; try done. rewrite M_bind_ret_l. intros [= <- <-]. split; [done|]. refine (Hl2 _ _).
    intros e [->|Hin%Hl1]%elem_of_add; [|done]. left. unfold plain_expressions. rewrite El, !elem_of_app. do 4 right. left. by left.
  - rewrite M_bind_ret_l. intros [= <- <-]. split; [done|]. by apply Hl2.
Qed.

(** An expression of a query comes from one of its columns: for an encrypted one it is the blind
    index's, for another one of the operand's own. *)
Definition from_query (collection : jstr) (operations : list value) (hk : HK) (s : state) (e : jstr) : Prop :=
  exists operation column operand, operation ∈ operations /\ (column, operand) ∈ entries operation /\
    if isEncryptedField collection (replace_char 46 (js "/") column) s then blind hk column operand e else e ∈ plain_expressions column operand.

(** A column of a query that has no more than the blind index allows. *)
Definition equality_only (collection : jstr) (s : state) (columnOperand : jstr * value) : Prop :=
  truthy (snd columnOperand) = true -> isEncryptedField collection (replace_char 46 (js "/") (fst columnOperand)) s = true ->
  forall op, op ∈ ENCRYPTED_FIELD_OPS -> prop (snd columnOperand) op = VUndef.

Lemma operand_step collection operations k hk s operation column operand expressions l s' : configured k hk s ->
  operation ∈ operations -> (column, operand) ∈ entries operation -> Forall (from_query collection operations hk s) expressions ->
  addOperandExpressions collection expressions column operand s = (Ok l, s') ->
  s' = s /\ Forall (from_query collection operations hk s) l /\ equality_only collection s (column, operand).
Proof.
  intros Hc Hop Hin Hall Hrun. unfold equality_only. cbn [fst snd].
  destruct (isEncryptedField collection (replace_char 46 (js "/") column) s) eqn:He.
  - pose proof (encrypted_operand collection expressions column operand k hk s Hc He) as Hspec. rewrite Hrun in Hspec. destruct Hspec as (-> & Hl & Hnone).
    split_and!; [done| |by intros _ _]. apply Forall_forall. intros e [He'|Hb]%Hl; [rewrite Forall_forall in Hall; auto|]. exists operation, column, operand. by rewrite He.
  - destruct (plain_operand collection expressions column operand s l s' He Hrun) as [-> Hl]. split; [done|split; [|by intros _]].
    apply Forall_forall. intros e [He'|Hp]%Hl; [rewrite Forall_forall in Hall; auto|]. exists operation, column, operand. by rewrite He.
Qed.

Lemma fold_m_keeps {A B} (I : B -> Prop) (Q : A -> Prop) (f : B -> A -> M state B) (xs : list A) b c s s' :
  (forall x b c s', x ∈ xs -> I b -> f b x s = (Ok c, s') -> s' = s /\ I c /\ Q x) ->
  I b -> fold_m f xs b s = (Ok c, s') -> s' = s /\ I c /\ Forall Q xs.
Proof.
  intros Hf. revert b. induction xs as [|x xs IH]; intros b Hb; cbn [fold_m]; [by intros [= <- <-]|].
  intros (b' & s1 & Hrun & Hrest)%M_bind_inv_ok. destruct (Hf x b b' s1 ltac:(by left) Hb Hrun) as (-> & Hb' & Hq).
  destruct (IH (fun y b c s' Hy => Hf y b c s' (list_elem_of_further _ _ _ Hy)) b' Hb' Hrest) as (-> & Hc & Hqs). split_and!; [done|done|by constructor].
Qed.

(** C28: whatever a query asks, each of its index expressions comes from one of its columns. That
    of an encrypted field holds no more of the operand than the token its text has under the
    HMAC key; that of another field is one of the field's own, with the field's own operand. A
    query that compares an encrypted field has no expressions: it is refused. *)
Theorem encrypted_operands_stay_blind collection operations k hk s l s' : configured k hk s ->
  getExprs collection (VObj [(js "$ops", VArr operations)]) s = (Ok l, s') ->
  s' = s /\ (forall e, e ∈ l -> from_query collection operations hk s e) /\
  forall operation, operation ∈ operations -> Forall (equality_only collection s) (entries operation).
Proof.
  intros Hc Hrun. unfold getExprs in Hrun. change (prop (VObj [(js "$ops", VArr operations)]) (js "$ops")) with (VArr operations) in Hrun. cbn [truthy negb] in Hrun.
  enough (s' = s /\ Forall (from_query collection operations hk s) l /\ Forall (fun operation => Forall (equality_only collection s) (entries operation)) operations)
    as (? & Hl & Hq) by (split_and!; [done|by apply Forall_forall|by apply Forall_forall]).
  eapply fold_m_keeps; [|by apply Forall_nil_2|exact Hrun].
  intros operation expressions l1 s1 Hop Hall Hrun1. eapply fold_m_keeps; [|exact Hall|exact Hrun1].
  intros [column operand] acc l2 s2 Hin Hacc Hrun2. cbn [fst snd] in Hrun2. destruct (truthy operand) eqn:Et; cbn [negb] in Hrun2; [by eapply operand_step|].
  injection Hrun2 as <- <-. split_and!; [done|done|]. unfold equality_only. cbn [fst snd]. by rewrite Et.
Qed.

(** A value that starts with a byte order mark comes back without it. *)
Theorem byte_order_mark_lost value deterministic k hk s : configured k hk s -> code_units value = true -> well_formed value = true ->
  exists t s', encrypt (65279%N :: value) deterministic s = (Ok t, s') /\ decrypt t s' = (Ok value, s').
Proof.
  intros Hc Hu Hw. assert (code_points (65279%N :: value) = 65279%N :: code_points value) as Hcp
    by (change (65279%N :: value) with ([65279%N] ++ value); by rewrite code_points_app).
  destruct (encrypt_spec (65279%N :: value) deterministic k hk s Hc) as (nonce & t & s' & Hrun & Hl & Ht & _ & [Hk _] & _);
    [done|unfold well_formed; by rewrite Hcp|].
  exists (js "v2." ++ t), s'. split; [done|]. rewrite (decrypt_spec nonce t _ k s' Hk Hl Ht). do 2 f_equal.
  assert (encode (65279%N :: value) = 239 :: 187 :: 191 :: encode value)%N as ->.
  { unfold encode. by rewrite Hcp. }
  by apply decode_from_encode.
Qed.

End Laws.
End Cipher.

(** ** Primitives to run: no secrecy, only the laws *)

#[local] Instance plain : SubtleCrypto N (list N) (list N) := {
  deriveBits := fun secret salt => take 64 (secret ++ salt ++ replicate 64 0%N);
  importAes := fun k => k;
  importHmac := fun k => k;
  sign := fun k m => replicate 32 (foldr N.add 0%N (k ++ m) mod 256)%N;
  aes_encrypt := fun _ _ p => p;
  aes_decrypt := fun _ _ p => Ok p;
  getRandomValues := fun n w => (replicate n (w mod 256)%N, (w + 1)%N)
}.

Lemma replicate_bytes n x : Forall (fun b => Base64.byte b = true) (replicate n (x mod 256)%N).
Proof. apply Forall_replicate. apply N.ltb_lt, N.mod_lt. done. Qed.

#[local] Instance plain_laws : SubtleCryptoLaws.
Proof.
  split; cbn.
  - intros k m. split; [done|apply (replicate_bytes 32)].
  - done.
  - intros n w. split; [by rewrite length_replicate|apply replicate_bytes].
  - done.
Qed.

Definition users : jstr := js "users".
Definition ready : cipher N (list N) (list N) :=
  snd ((_ ← configure (Some (js "salt")) (js "secret"); registerFields users [js "email"; js "address"]) (initial 7%N)).
Definition a_key : list N := take 32 (encode (js "secret") ++ encode (js "salt") ++ replicate 64 0%N).
Definition a_mac : list N := replicate 32 0%N.

Lemma ready_configured : configured a_key a_mac ready.
Proof. split; by vm_compute. Qed.

Lemma decrypt_reads_back_witness :
  exists t s', encrypt (js "ann@example.org") false ready = (Ok t, s') /\ configured a_key a_mac s' /\ collections s' = collections ready /\
    isCiphertext t = true /\ forallb (fun c => url_safe c || (c =? 46)%N) t = true /\
    forall s2, key s2 = Some a_key -> decrypt t s2 = (Ok (js "ann@example.org"), s2).
Proof. apply (decrypt_reads_back (js "ann@example.org") false a_key a_mac ready ready_configured); by vm_compute. Defined.

Lemma byte_order_mark_lost_witness :
  exists t s', encrypt (65279%N :: js "ann") true ready = (Ok t, s') /\ decrypt t s' = (Ok (js "ann"), s').
Proof. apply (byte_order_mark_lost (js "ann") true a_key a_mac ready ready_configured); by vm_compute. Defined.

Definition about_street : list value :=
  [VObj [(js "address.street", VObj [(js "$eq", VStr (js "1/2 Main"))]); (js "age", VObj [(js "$gt", VNum (Num.of_Z 3))])]].
Definition street_exprs : list jstr := default [] (match fst (getExprs users (VObj [(js "$ops", VArr about_street)]) ready) with Ok l => Some l | _ => None end).

Lemma encrypted_operands_stay_blind_witness :
  street_exprs = [js "address/street/eq/idx1.paWlpaWlpaWlpaWlpaWlpaWlpaWlpaWlpaWlpaWlpaU/**/*"; js "age/n/**/*"] /\
  ready = ready /\ (forall e, e ∈ street_exprs -> from_query users about_street a_mac ready e) /\
  forall operation, operation ∈ about_street -> Forall (equality_only users ready) (entries operation).
Proof.
  split; [vm_compute; reflexivity|apply (encrypted_operands_stay_blind users about_street a_key a_mac ready street_exprs ready ready_configured); by vm_compute].
Defined.

(** Equality with a falsy value is left out of the expressions. *)
Example falsy_equality : fst (getExprs users (VObj [(js "$ops", VArr [VObj [(js "age", VObj [(js "$eq", VNum Num.zero)])]])]) ready) = Ok [].
Proof. by vm_compute. Qed.

End Cipher.
