(* ===== verification/Codec.v ===== *)
(** The index codec: [src/storage/value-codec.js] and the codec half of
    [src/browser/core/prefix-index.js] (from [encodeSegment] to
    [BrowserPrefixIndexCodec]): how a document becomes index keys and a filter becomes
    key prefixes.  SHA-256 is a parameter. *)

From Stdlib Require Import SpecFloat.
From S2P Require Import Prelude JsNum JsValue Utf8 Shard Ttid.

Module Codec.
Import Utf8.

Definition MAX_STRING_PREFIX_BYTES : nat := 180.
Definition MAX_NGRAM_SOURCE_CHARS : nat := 512.
Definition NGRAM_SIZE : nat := 3.
Definition UINT64_MAX : Z := 2 ^ 64 - 1.
Definition SIGN_MASK : Z := 2 ^ 63.

(** [stringifyStoredValue(value)] *)
Definition stringifyStoredValue (v : value) : jstr := replace_char 47 (js "%2F") (to_str v).

Definition encodeSegment (s : jstr) : outcome jstr := encodeURIComponent s.
Definition decodeSegment (s : jstr) : outcome jstr := decodeURIComponent s.

(** [getBigUint64] of the eight bytes [setFloat64] wrote, for a finite number. *)
Definition float_bits (x : Num.num) : Z :=
  match x with
  | S754_zero s => if s then SIGN_MASK else 0
  | S754_finite s m e =>
      (if s then SIGN_MASK else 0) +
      (if (Zpos m <? 2 ^ 52) then Zpos m else (e + 1075) * 2 ^ 52 + (Zpos m - 2 ^ 52))
  | S754_infinity s => (if s then SIGN_MASK else 0) + 2047 * 2 ^ 52
  | S754_nan => 2047 * 2 ^ 52 + 2 ^ 51
  end%Z.

(** [n.toString(16).padStart(16, '0')] *)
Definition hex16 (n : Z) : jstr := pad_start 16 48 (Num.digits 16 (Z.to_N n)).

Definition sortable_bits (x : Num.num) : Z :=
  let bits := float_bits x in
  if (Z.land bits SIGN_MASK =? 0)%Z then Z.lxor bits SIGN_MASK
  else Z.land (Z.lnot bits) UINT64_MAX.

Definition sortableFloat64 (x : Num.num) : jstr :=
  if Num.is_finite x then hex16 (sortable_bits x) else [].

(** [reverseSortable(sortable)], for the sixteen hexadecimal digits it is given. *)
Definition reverseSortable (sortable : jstr) : jstr :=
  hex16 (UINT64_MAX - Z.of_N (default 0%N (Num.parse_digits 16 sortable))).

Definition numericValue (v : value) : option Num.num :=
  let numeric := to_num v in
  if Num.is_finite numeric then Some numeric else None.

Definition reverseString (s : jstr) : jstr := concat (rev (chars s)).

(** [[...new Set(l)]] *)
Fixpoint dedupe (seen l : list jstr) : list jstr :=
  match l with
  | [] => []
  | x :: r => if bool_decide (x ∈ seen) then dedupe seen r else x :: dedupe (x :: seen) r
  end.

Definition trigrams (s : jstr) : list jstr :=
  let cs := chars (take MAX_NGRAM_SOURCE_CHARS s) in
  if length cs <? NGRAM_SIZE then []
  else dedupe [] (map (fun i => concat (take NGRAM_SIZE (drop i cs)))
                    (seq 0 (S (length cs - NGRAM_SIZE)))).

(** [l.map(f)] where [f] may throw. *)
Fixpoint map_outcome {A B} (f : A -> outcome B) (l : list A) : outcome (list B) :=
  match l with
  | [] => Ok []
  | x :: r => y ← f x; ys ← map_outcome f r; Ok (y :: ys)
  end.

Definition encodeFieldPath (fieldPath : jstr) : outcome jstr :=
  join_with (js "/") <$> map_outcome encodeSegment (split_on 47 fieldPath).

Definition invalid_id (docId : jstr) : js_error := Error (js "Invalid document ID: " ++ docId).

Definition docIdFromKey (prefix key : jstr) : outcome jstr :=
  let segments := split_on 47 (drop (length prefix) key) in
  docId ← decodeSegment (default [] (last segments));
  if TTID.is_ttid docId then Ok docId else Throw (invalid_id docId).

(** [BrowserPrefixIndexCodec.key] and [.prefix] *)
Definition key (fieldPath kind v docId : jstr) : outcome jstr :=
  if TTID.is_ttid docId then
    path ← encodeFieldPath fieldPath;
    id ← encodeSegment docId;
    Ok (join_with (js "/") [path; kind; v; id])
  else Throw (invalid_id docId).

Definition prefix (fieldPath kind valuePrefix : jstr) : outcome jstr :=
  path ← encodeFieldPath fieldPath;
  Ok (join_with (js "/") [path; kind; valuePrefix]).

Definition rangeValueFromKey (key : jstr) : jstr :=
  let segments := split_on 47 key in
  if length segments <? 2 then [] else default [] (segments !! (length segments - 2)).

(** What a query asks of the keys of one kind. *)
Inductive range_op := Gt | Gte | Lt | Lte.
Record query_prefix := QueryPrefix {
  kind : jstr;
  valuePrefix : jstr;
  range : option (range_op * jstr)
}.

Definition range_ops : list (jstr * range_op) :=
  [(js "$gt", Gt); (js "$gte", Gte); (js "$lt", Lt); (js "$lte", Lte)].

Fixpoint range_entries (operand : value) (ops : list (jstr * range_op))
    : option (list query_prefix) :=
  match ops with
  | [] => Some []
  | (name, op) :: r =>
      let raw := prop operand name in
      if is_undef raw then range_entries operand r
      else
        let sortable := match numericValue raw with Some n => sortableFloat64 n | None => [] end in
        if bool_decide (sortable = []) then None
        else
          let ascending := match op with Gt | Gte => true | Lt | Lte => false end in
          let entry := QueryPrefix (js (if ascending then "n" else "nr")) []
                         (Some (op, if ascending then sortable else reverseSortable sortable)) in
          rest ← range_entries operand r; Some (entry :: rest)
  end.

Definition rangeQueryPrefixes (operand : value) : option (list query_prefix) :=
  match range_entries operand range_ops with
  | Some [] | None => None
  | entries => entries
  end.

Definition count_char (c : N) (s : jstr) : nat := length (List.filter (N.eqb c) s).

Definition containsQueryPrefixes (pattern : jstr) (wildcards : nat)
    : outcome (option (list query_prefix)) :=
  if negb (wildcards =? 2) || negb (starts_with (js "%") pattern) || negb (ends_with (js "%") pattern)
  then Ok None
  else if length pattern <=? 2 then Ok None
  else
    let needle := drop_last 1 (drop 1 pattern) in
    if length (chars needle) <? NGRAM_SIZE then Ok None
    else
      let planned := default (take 3 needle) (head (trigrams needle)) in
      token ← encodeSegment planned;
      Ok (Some [QueryPrefix (js "g3") (token ++ js "/") None]).

Section Codec.
  (** [sha256Hex], from Web Crypto. *)
  Context (sha256Hex : jstr -> jstr).

Definition lookupToken (v : jstr) : outcome jstr :=
  encoded ← encodeSegment v;
  if length (encode encoded) <=? MAX_STRING_PREFIX_BYTES then Ok encoded
  else Ok (js "h_" ++ sha256Hex v).

Definition queryLookupValue (v : value) : outcome jstr := lookupToken (stringifyStoredValue v).

Definition likeQueryPrefixes (pattern : jstr) : outcome (option (list query_prefix)) :=
  if includes_char 95 pattern then Ok None
  else
    let wildcards := count_char 37 pattern in
    if wildcards =? 0 then
      token ← queryLookupValue (VStr pattern);
      Ok (Some [QueryPrefix (js "eq") (token ++ js "/") None])
    else if (wildcards =? 1) && ends_with (js "%") pattern then
      token ← encodeSegment (drop_last 1 pattern);
      Ok (Some [QueryPrefix (js "f") token None])
    else if (wildcards =? 1) && starts_with (js "%") pattern then
      token ← encodeSegment (reverseString (drop 1 pattern));
      Ok (Some [QueryPrefix (js "r") token None])
    else containsQueryPrefixes pattern wildcards.

Definition eq_prefix (v : value) : outcome (option (list query_prefix)) :=
  token ← queryLookupValue v; Ok (Some [QueryPrefix (js "eq") (token ++ js "/") None]).

(** [queryPrefixes(collection, fieldPath, operand)]; [$like] is a string, as typed. *)
Definition queryPrefixes (operand : value) : outcome (option (list query_prefix)) :=
  let eq := prop operand (js "$eq") in
  let contains := prop operand (js "$contains") in
  if negb (is_undef eq) then eq_prefix eq
  else if negb (is_undef contains) then eq_prefix contains
  else match prop operand (js "$like") with
       | VUndef => Ok (rangeQueryPrefixes operand)
       | VStr pattern => likeQueryPrefixes pattern
       | _ => Throw (type_error (js "pattern.includes is not a function"))
       end.

(** ** The keys of a document: [entries] and [exactEntries] in the order they grow *)

Definition number_keys (fieldPath docId : jstr) (raw : value) : outcome (list jstr) :=
  let sortable := match numericValue raw with Some n => sortableFloat64 n | None => [] end in
  if bool_decide (sortable = []) then Ok []
  else
    n ← key fieldPath (js "n") sortable docId;
    nr ← key fieldPath (js "nr") (reverseSortable sortable) docId;
    Ok [n; nr].

Definition string_keys (fieldPath docId : jstr) (raw : value) : outcome (list jstr) :=
  match raw with
  | VStr _ =>
      let v := stringifyStoredValue raw in
      encoded ← encodeSegment v;
      if MAX_STRING_PREFIX_BYTES <? length (encode encoded) then Ok []
      else
        f ← key fieldPath (js "f") encoded docId;
        reversed ← encodeSegment (reverseString v);
        r ← key fieldPath (js "r") reversed docId;
        grams ← map_outcome (fun gram => token ← encodeSegment gram; key fieldPath (js "g3") token docId)
                  (trigrams v);
        Ok (f :: r :: grams)
  | _ => Ok []
  end.

(** [addValue(fieldPath, raw)] *)
Definition addValue (docId fieldPath : jstr) (raw : value) (acc : list jstr * list jstr)
    : outcome (list jstr * list jstr) :=
  token ← lookupToken (stringifyStoredValue raw);
  exact ← key fieldPath (js "eq") token docId;
  numbers ← number_keys fieldPath docId raw;
  strings ← string_keys fieldPath docId raw;
  Ok (fst acc ++ numbers ++ strings, snd acc ++ [exact]).

(** [parentField ? `${parentField}/${field}` : field] *)
Definition child_path (parent field : jstr) : jstr :=
  if bool_decide (parent = []) then field else parent ++ js "/" ++ field.

Definition add_item (docId fieldPath : jstr) (acc : list jstr * list jstr) (item : value)
    : outcome (list jstr * list jstr) :=
  if is_objectlike item then Throw (Error (js "Cannot index an array of objects"))
  else addValue docId fieldPath item acc.

Fixpoint fold_outcome {A B} (f : B -> A -> outcome B) (acc : B) (l : list A) : outcome B :=
  match l with
  | [] => Ok acc
  | x :: r => acc' ← f acc x; fold_outcome f acc' r
  end.

(** [walk] on the value of one field: an object is walked, an array item by item. *)
Fixpoint walk_value (docId fieldPath : jstr) (v : value) (acc : list jstr * list jstr)
    : outcome (list jstr * list jstr) :=
  match v with
  | VObj o =>
      (fix go (o : object) (acc : list jstr * list jstr) :=
         match o with
         | [] => Ok acc
         | (field, v') :: r =>
             acc' ← walk_value docId (child_path fieldPath field) v' acc; go r acc'
         end) o acc
  | VArr items => fold_outcome (add_item docId fieldPath) acc items
  | _ => addValue docId fieldPath v acc
  end.

(** [entriesForDocument(collection, docId, data)] *)
Definition entriesForDocument (docId : jstr) (data : object) : outcome (list jstr) :=
  acc ← walk_value docId [] (VObj data) ([], []);
  Ok (dedupe [] (fst acc ++ snd acc)).
End Codec.

(** [includeKeyInRange(key, range)] *)
Definition includeKeyInRange (key : jstr) (range : option (range_op * jstr)) : bool :=
  match range with
  | None => true
  | Some (op, bound) =>
      let v := rangeValueFromKey key in
      match op with
      | Gt | Lt => jltb bound v
      | Gte | Lte => jleb bound v
      end
  end.

(** Encoding a key segment loses nothing: what [encodeSegment] writes decodes back to
    the text, and is made of unreserved characters and percent signs only, so a segment
    never holds a slash, a line break or anything beyond ASCII. *)
Theorem segment_roundtrip s t :
  code_units s = true -> encodeSegment s = Ok t ->
  decodeSegment t = Ok s /\ forallb uri_char t = true /\ 47%N ∉ t /\ 10%N ∉ t.
Proof.
  intros Hu Ht. pose proof (encodeURIComponent_uri s t Hu Ht) as Huri.
  split_and!; [by apply decode_encode_uri|done| |];
    intros Hin%list_elem_of_In; rewrite forallb_forall in Huri;
    apply Huri, uri_char_bounds in Hin; lia.
Qed.

Lemma segment_roundtrip_witness :
  let s := [97; 47; 233; 10; 8364; 55357; 56832]%N in
  let t := js "a%2F%C3%A9%0A%E2%82%AC%F0%9F%98%80" in
  decodeSegment t = Ok s /\ forallb uri_char t = true /\ 47%N ∉ t /\ 10%N ∉ t.
Proof.
  apply (segment_roundtrip [97; 47; 233; 10; 8364; 55357; 56832]%N
           (js "a%2F%C3%A9%0A%E2%82%AC%F0%9F%98%80")); by vm_compute.
Defined.

(** ** The order of the sortable form *)

Lemma digits2_pos_size m : SpecFloat.digits2_pos m = Pos.size m.
Proof. induction m as [m IH|m IH|]; cbn; [by rewrite IH..|done]. Qed.

(** The mantissa and exponent of a binary64 number. *)
Lemma valid_finite s m e :
  Num.valid (S754_finite s m e) ->
  (0 < Zpos m < 2 ^ 53 /\ -1074 <= e <= 971 /\ (2 ^ 52 <= Zpos m \/ e = -1074))%Z.
Proof.
  unfold Num.valid, valid_binary, bounded, canonical_mantissa, fexp, emin. cbn [Num.prec Num.emax].
  rewrite andb_true_iff, digits2_pos_size. intros [Hc He].
  apply Zeq_bool_eq in Hc. apply Z.leb_le in He. unfold Num.prec, Num.emax in *.
  pose proof (Pos.size_gt m) as Hgt. pose proof (Pos.size_le m) as Hle.
  set (d := Pos.size m) in *.
  assert (Zpos m < 2 ^ Zpos d)%Z as Hgt' by (rewrite <- Pos2Z.inj_pow; lia).
  assert (2 ^ Zpos d <= 2 * Zpos m)%Z as Hle' by (rewrite <- Pos2Z.inj_pow; lia).
  split_and!; [lia| |lia|lia|].
  - eapply Z.lt_le_trans; [exact Hgt'|]. apply Z.pow_le_mono_r; lia.
  - destruct (Z.eq_dec e (-1074)%Z) as [|Hne]; [by right|left].
    assert (Zpos d = 53)%Z as Hd by lia. rewrite Hd in Hle'. lia.
Qed.

(** The bits without the sign: the exponent above the mantissa. *)
Definition magnitude (x : Num.num) : Z :=
  match x with
  | S754_finite _ m e => (e + 1074) * 2 ^ 52 + Zpos m
  | _ => 0
  end%Z.
Definition negative (x : Num.num) : bool :=
  match x with S754_zero s | S754_infinity s | S754_finite s _ _ => s | S754_nan => false end.

Lemma float_bits_magnitude x :
  Num.valid x -> Num.is_finite x = true ->
  float_bits x = ((if negative x then SIGN_MASK else 0) + magnitude x)%Z /\
  (0 <= magnitude x < 2 ^ 63)%Z.
Proof.
  destruct x as [s|s| |s m e]; intros Hv Hf; try done; cbn [float_bits negative magnitude].
  - split; [by destruct s|lia].
  - pose proof (valid_finite _ _ _ Hv) as (Hm & He & Hn).
    split; [|lia]. f_equal. destruct (Z.ltb_spec (Zpos m) (2 ^ 52)); lia.
Qed.

Lemma sortable_bits_spec x :
  Num.valid x -> Num.is_finite x = true ->
  sortable_bits x = (if negative x then SIGN_MASK - 1 - magnitude x else SIGN_MASK + magnitude x)%Z /\
  (0 <= sortable_bits x < 2 ^ 64)%Z.
Proof.
  intros Hv Hf. destruct (float_bits_magnitude x Hv Hf) as [Hb Hm].
  unfold sortable_bits. rewrite Hb. unfold SIGN_MASK in *.
  assert (forall z, Z.land z (2 ^ 63) = if Z.testbit z 63 then 2 ^ 63 else 0)%Z as Hland.
  { intros z. apply Z.bits_inj'. intros i Hi. rewrite Z.land_spec, Z.pow2_bits_eqb by lia.
    destruct (Z.eqb_spec 63 i) as [<-|Hne].
    - destruct (Z.testbit z 63); [by rewrite Z.pow2_bits_true by lia|by rewrite Z.bits_0].
    - rewrite andb_false_r. destruct (Z.testbit z 63); [by rewrite Z.pow2_bits_false by lia|by rewrite Z.bits_0]. }
  rewrite Hland. destruct (negative x).
  - assert (Z.testbit (2 ^ 63 + magnitude x) 63 = true) as ->.
    { rewrite Z.testbit_true by lia. replace ((2 ^ 63 + magnitude x) / 2 ^ 63)%Z with 1%Z; [done|].
      apply (Z.div_unique _ _ _ (magnitude x)); lia. }
    rewrite (proj2 (Z.eqb_neq (2 ^ 63) 0)) by lia.
    assert (Z.land (Z.lnot (2 ^ 63 + magnitude x)) UINT64_MAX = 2 ^ 63 - 1 - magnitude x)%Z as ->; [|lia].
    change UINT64_MAX with (Z.ones 64). rewrite Z.land_ones by lia.
    unfold Z.lnot. symmetry. apply (Z.mod_unique _ _ (-1)); lia.
  - rewrite Z.add_0_l.
    assert (Z.testbit (magnitude x) 63 = false) as Hbit.
    { rewrite Z.testbit_false by lia. rewrite Z.div_small by lia. done. }
    rewrite Hbit. cbn [Z.eqb].
    assert (Z.lxor (magnitude x) (2 ^ 63) = 2 ^ 63 + magnitude x)%Z as ->; [|lia].
    rewrite <- Z.add_nocarry_lxor; [lia|]. rewrite Hland, Hbit. done.
Qed.

(** A number's place on the line. *)
Definition rank (x : Num.num) : Z := if negative x then - magnitude x else magnitude x.

Lemma magnitude_compare s m e s' m' e' :
  Num.valid (S754_finite s m e) -> Num.valid (S754_finite s' m' e') ->
  (magnitude (S754_finite s m e) ?= magnitude (S754_finite s' m' e'))%Z =
    match (e ?= e')%Z with Eq => (m ?= m')%positive | c => c end.
Proof.
  intros H%valid_finite H'%valid_finite. cbn [magnitude].
  destruct H as (Hm & He & Hn), H' as (Hm' & He' & Hn').
  destruct (Z.compare_spec e e') as [<-|Hlt|Hgt].
  - change (m ?= m')%positive with (Zpos m ?= Zpos m')%Z.
    destruct (Z.compare_spec (Zpos m) (Zpos m'));
      [apply Z.compare_eq_iff|apply Z.compare_lt_iff|apply Z.compare_gt_iff]; lia.
  - apply Z.compare_lt_iff. nia.
  - apply Z.compare_gt_iff. nia.
Qed.

Lemma compare_rank x y :
  Num.valid x -> Num.valid y -> Num.is_finite x = true -> Num.is_finite y = true ->
  SFcompare x y = Some (rank x ?= rank y)%Z.
Proof.
  intros Hx Hy Hfx Hfy. unfold rank.
  destruct x as [s|s| |s m e], y as [s'|s'| |s' m' e']; try done.
  - cbn. by destruct s, s'.
  - pose proof (valid_finite _ _ _ Hy). cbn [SFcompare negative magnitude].
    destruct s, s'; f_equal; symmetry;
      first [apply Z.compare_lt_iff; lia|apply Z.compare_gt_iff; lia].
  - pose proof (valid_finite _ _ _ Hx). cbn [SFcompare negative magnitude].
    destruct s, s'; f_equal; symmetry;
      first [apply Z.compare_lt_iff; lia|apply Z.compare_gt_iff; lia].
  - pose proof (magnitude_compare _ _ _ _ _ _ Hx Hy) as Hc.
    pose proof (valid_finite _ _ _ Hx). pose proof (valid_finite _ _ _ Hy).
    cbn [SFcompare negative]. destruct s, s'; f_equal.
    + rewrite Z.compare_opp, (Z.compare_antisym (magnitude (S754_finite true m e))), Hc.
      by destruct (e ?= e')%Z.
    + symmetry. apply Z.compare_lt_iff. cbn [magnitude]. lia.
    + symmetry. apply Z.compare_gt_iff. cbn [magnitude]. lia.
    + by rewrite Hc.
Qed.

(** Both numbers are zero, of one sign or the other. *)
Definition both_zero (x y : Num.num) : Prop := rank x = 0%Z /\ rank y = 0%Z.

Lemma sortable_bits_rank x :
  Num.valid x -> Num.is_finite x = true ->
  sortable_bits x = (SIGN_MASK + rank x - (if negative x then 1 else 0))%Z.
Proof.
  intros Hv Hf. destruct (sortable_bits_spec x Hv Hf) as [-> _]. unfold rank.
  destruct (negative x); lia.
Qed.

Lemma rank_negative x :
  Num.valid x -> Num.is_finite x = true -> if negative x then (rank x <= 0)%Z else (0 <= rank x)%Z.
Proof.
  intros Hv Hf. destruct (float_bits_magnitude x Hv Hf) as [_ Hm]. unfold rank.
  destruct (negative x); lia.
Qed.

Lemma sortable_bits_lt x y :
  Num.valid x -> Num.valid y -> Num.is_finite x = true -> Num.is_finite y = true ->
  ~ both_zero x y ->
  (Num.lt x y = true <-> (sortable_bits x < sortable_bits y)%Z).
Proof.
  intros Hx Hy Hfx Hfy Hz. unfold Num.lt, SFltb. rewrite compare_rank by done.
  rewrite !sortable_bits_rank by done. unfold both_zero in Hz.
  pose proof (rank_negative x Hx Hfx). pose proof (rank_negative y Hy Hfy).
  destruct (negative x), (negative y);
    destruct (Z.compare_spec (rank x) (rank y)); split; intros; (done || lia).
Qed.

(** Sixteen digits of a 64-bit number. *)
Lemma hex16_fixed n : (0 <= n < 2 ^ 64)%Z -> hex16 n = Num.fixed_digits 16 16 (Z.to_N n).
Proof. intros H. unfold hex16. apply Num.pad_digits; [done| |done]. cbn. lia. Qed.

Lemma hex16_lt a b :
  (0 <= a < 2 ^ 64)%Z -> (0 <= b < 2 ^ 64)%Z -> jltb (hex16 a) (hex16 b) = true <-> (a < b)%Z.
Proof.
  intros Ha Hb. rewrite !hex16_fixed by done.
  rewrite Num.fixed_digits_lt; [lia|lia|cbn; lia|cbn; lia].
Qed.

Lemma hex16_inj a b :
  (0 <= a < 2 ^ 64)%Z -> (0 <= b < 2 ^ 64)%Z -> hex16 a = hex16 b -> a = b.
Proof.
  intros Ha Hb H. destruct (Z.lt_trichotomy a b) as [Hl|[He|Hl]]; [|done|];
    apply hex16_lt in Hl; try done; rewrite H, Num.jltb_irrefl in Hl; done.
Qed.

Lemma parse_fixed_digits base k n :
  (1 < base <= 36)%N -> (n < base ^ N.of_nat k)%N ->
  Num.parse_digits base (Num.fixed_digits base k n) = Some n.
Proof.
  intros Hb. revert n. induction k as [|k IH]; intros n Hn.
  - cbn in Hn |- *. f_equal. lia.
  - rewrite Nat2N.inj_succ, N.pow_succ_r' in Hn. cbn [Num.fixed_digits].
    unfold Num.parse_digits in *. rewrite fold_left_app, IH by (apply N.Div0.div_lt_upper_bound; lia).
    pose proof (N.mod_lt n base ltac:(lia)) as Hm.
    cbn [fold_left mbind option_bind]. rewrite Num.char_digit_digit_char by lia. cbn [mbind option_bind].
    rewrite (proj2 (N.ltb_lt _ _) Hm). f_equal.
    pose proof (N.div_mod n base ltac:(lia)). lia.
Qed.

Lemma reverseSortable_hex n : (0 <= n < 2 ^ 64)%Z -> reverseSortable (hex16 n) = hex16 (UINT64_MAX - n).
Proof.
  intros H. unfold reverseSortable. rewrite (hex16_fixed n) by done.
  rewrite parse_fixed_digits; [|lia|cbn; lia]. cbn [from_option]. unfold id. by rewrite Z2N.id by lia.
Qed.

(** C35: the sortable form keeps the order of numbers and the reverse form turns it round: apart
    from the two zeros, whose forms differ though they are equal, a finite number is below
    another exactly when the sixteen hexadecimal digits of its sortable form come first as a
    string, and exactly when those of its reverse form come last. *)
Theorem sortableFloat64_order x y :
  Num.valid x -> Num.valid y -> Num.is_finite x = true -> Num.is_finite y = true ->
  ~ both_zero x y ->
  length (sortableFloat64 x) = 16 /\ length (reverseSortable (sortableFloat64 x)) = 16 /\
  (Num.lt x y = true <-> jltb (sortableFloat64 x) (sortableFloat64 y) = true) /\
  (Num.lt x y = true <-> jltb (reverseSortable (sortableFloat64 y)) (reverseSortable (sortableFloat64 x)) = true).
Proof.
  intros Hx Hy Hfx Hfy Hz. unfold sortableFloat64. rewrite Hfx, Hfy.
  pose proof (sortable_bits_spec x Hx Hfx) as [_ Hbx]. pose proof (sortable_bits_spec y Hy Hfy) as [_ Hby].
  rewrite !reverseSortable_hex by done.
  assert (forall a, (0 <= a < 2 ^ 64)%Z -> length (hex16 a) = 16 /\ (0 <= UINT64_MAX - a < 2 ^ 64)%Z) as Hlen.
  { intros a Ha. rewrite hex16_fixed by done. split; [apply Num.fixed_digits_length|]. change UINT64_MAX with (2 ^ 64 - 1)%Z. lia. }
  split_and!; [by apply Hlen|by apply Hlen, Hlen| |].
  - rewrite hex16_lt by done. by apply sortable_bits_lt.
  - rewrite hex16_lt by (by apply Hlen). rewrite (sortable_bits_lt x y) by done. lia.
Qed.

Lemma sortableFloat64_order_witness :
  let x := Num.of_decimal true 15 (-1) in let y := Num.of_Z 3 in
  length (sortableFloat64 x) = 16 /\ length (reverseSortable (sortableFloat64 x)) = 16 /\
  (Num.lt x y = true <-> jltb (sortableFloat64 x) (sortableFloat64 y) = true) /\
  (Num.lt x y = true <-> jltb (reverseSortable (sortableFloat64 y)) (reverseSortable (sortableFloat64 x)) = true).
Proof.
  apply (sortableFloat64_order (Num.of_decimal true 15 (-1)) (Num.of_Z 3)); try (by vm_compute).
  by intros [H _].
Defined.

(** The two zeros are equal numbers with different sortable forms, so a range bound at
    zero and a stored minus zero do not meet in the index as they do in the matcher. *)
Theorem sortable_zeros_differ :
  Num.eq (S754_zero true) (S754_zero false) = true /\
  sortableFloat64 (S754_zero true) = js "7fffffffffffffff" /\
  sortableFloat64 (S754_zero false) = js "8000000000000000".
Proof. split_and!; by vm_compute. Qed.

End Codec.
