(* ===== verification/Filesystem.v ===== *)
(** The filesystem contract of [src/browser/core/filesystem.js]: the operations the
    browser core uses ([FyloFilesystem]), the host clock, and what the components rely on
    ([FilesystemLaws], about absolute paths given by their segments).  The write lanes of the
    same file are in [Lanes]. *)

From S2P Require Import Prelude PathUtil JsNum Utf8.

(** ** Operations *)

Class FyloFilesystem (D : Type) := {
  exists_ : jstr -> M D bool;
  isDirectory : jstr -> M D bool;
  mtimeMs : jstr -> M D Z;
  size : jstr -> M D nat;
  mkdir : jstr -> bool -> M D ();
  list_ : jstr -> M D (list jstr);
  rmdir : jstr -> bool -> M D ();
  readText : jstr -> M D jstr;
  readBytes : jstr -> M D (list N);
  writeText : jstr -> jstr -> M D ();
  writeBytes : jstr -> list N -> M D ();
  appendText : jstr -> jstr -> M D ();
  remove : jstr -> M D ();
  move : jstr -> jstr -> M D ()
}.

(** [Date.now()] *)
Class Clock (D : Type) := now : M D Z.

(** [timeNow()] of the identifiers as the host writes it in base 36, and [performance.now()]. *)
Class Performance (D : Type) := {
  timeNow : M D jstr;
  performanceNow : M D Num.num
}.

(** ** What a filesystem promises

    [look] reads the tree without running an operation; a path is the list of its
    segments.  [wf] is the implementation's own invariant. *)

Inductive node := File (bytes : list N) | Dir.

#[export] Instance node_eq_dec : EqDecision node.
Proof. solve_decision. Defined.

Abbreviation path := (list jstr).

Definition is_file (n : option node) : bool := match n with Some (File _) => true | _ => false end.

Lemma path_snoc (p : path) : p = [] \/ exists dir x, p = dir ++ [x].
Proof. destruct p as [|x p _] using rev_ind; [by left|right; by exists p, x]. Qed.

(** [p] is a directory above [q]. *)
Definition above (p q : path) : Prop := p `prefix_of` q /\ p <> q.

#[export] Instance above_dec p q : Decision (above p q).
Proof. unfold above. apply _. Defined.

(** The tree after writing the node [n] at [p], missing directories included. *)
Definition grown (look : path -> option node) (p : path) (n : node) (q : path) : option node :=
  if decide (q = p) then Some n else if decide (above q p) then Some Dir else look q.

(** No file stands where a directory above [p] has to be. *)
Definition clear_above (look : path -> option node) (p : path) : Prop :=
  forall q, above q p -> is_file (look q) = false.

(** [m] ends without an error, gives [a] with [Q a], and leaves the tree [t]. *)
Class FilesystemLaws (D : Type) `{FyloFilesystem D, Clock D} := {
  look : D -> path -> option node;
  wf : D -> Prop;
  look_root s : wf s -> look s [] = Some Dir;
  look_parent s p x : wf s -> Forall Path.clean (p ++ [x]) ->
    is_Some (look s (p ++ [x])) -> look s p = Some Dir;
  law_exists s p : wf s -> Forall Path.clean p ->
    exists_ (Path.abs_path p) s = (Ok (bool_decide (is_Some (look s p))), s);
  law_isDirectory s p : wf s -> Forall Path.clean p ->
    isDirectory (Path.abs_path p) s = (Ok (bool_decide (look s p = Some Dir)), s);
  law_readBytes s p bytes : wf s -> Forall Path.clean p -> look s p = Some (File bytes) ->
    readBytes (Path.abs_path p) s = (Ok bytes, s);
  law_readText s p bytes : wf s -> Forall Path.clean p -> look s p = Some (File bytes) ->
    readText (Path.abs_path p) s = (Ok (Utf8.decode bytes), s);
  law_mtimeMs s p : wf s -> Forall Path.clean p -> is_Some (look s p) ->
    exists t, mtimeMs (Path.abs_path p) s = (Ok t, s);
  law_list s p : wf s -> Forall Path.clean p -> look s p = Some Dir ->
    exists names, list_ (Path.abs_path p) s = (Ok names, s) /\ Sorted jle names /\ NoDup names /\
      forall x, x ∈ names <-> is_Some (look s (p ++ [x])) /\ Path.clean x;
  law_mkdir s p : wf s -> Forall Path.clean p -> p <> [] ->
    is_file (look s p) = false -> clear_above (look s) p ->
    exists s', mkdir (Path.abs_path p) true s = (Ok (), s') /\ wf s' /\
      forall q, Forall Path.clean q -> look s' q = grown (look s) p Dir q;
  law_writeText s p text : wf s -> Forall Path.clean p -> p <> [] ->
    look s p <> Some Dir -> clear_above (look s) p ->
    exists s', writeText (Path.abs_path p) text s = (Ok (), s') /\ wf s' /\
      forall q, Forall Path.clean q -> look s' q = grown (look s) p (File (Utf8.encode text)) q;
  law_appendText s p text : wf s -> Forall Path.clean p -> p <> [] ->
    look s p <> Some Dir -> clear_above (look s) p ->
    exists s', appendText (Path.abs_path p) text s = (Ok (), s') /\ wf s' /\
      forall q, Forall Path.clean q ->
        look s' q = grown (look s) p (File (match look s p with
                                            | Some (File old) => old ++ Utf8.encode text
                                            | _ => Utf8.encode text
                                            end)) q;
  law_remove s p bytes : wf s -> Forall Path.clean p -> look s p = Some (File bytes) ->
    exists s', remove (Path.abs_path p) s = (Ok (), s') /\ wf s' /\
      forall q, Forall Path.clean q -> look s' q = if decide (q = p) then None else look s q;
  law_rmdir s p : wf s -> Forall Path.clean p -> p <> [] -> look s p = Some Dir ->
    exists s', rmdir (Path.abs_path p) true s = (Ok (), s') /\ wf s' /\
      forall q, Forall Path.clean q -> look s' q = if decide (p `prefix_of` q) then None else look s q;
  law_now s : wf s ->
    exists t s', now s = (Ok t, s') /\ wf s' /\ forall q, look s' q = look s q
}.

(** ** What follows for a directory that is there *)

Section Derived.
  Context {D : Type} `{FilesystemLaws D}.

Lemma look_above s p q :
  wf s -> Forall Path.clean q -> above p q -> is_Some (look s q) -> look s p = Some Dir.
Proof.
  intros Hw Hq [[r ->] Hne]. revert Hq Hne. induction r as [|x r IH] using rev_ind; intros Hq Hne Hs.
  { by rewrite app_nil_r in Hne. }
  rewrite app_assoc in Hq, Hs. apply look_parent in Hs; [|done..].
  destruct r as [|y r]; [by rewrite app_nil_r in Hs|]. apply Forall_app in Hq as [Hq _].
  apply IH; [done|by intros E%app_not_self|by eexists].
Qed.

Lemma above_snoc p q x : above p (q ++ [x]) <-> p `prefix_of` q.
Proof.
  unfold above. split.
  - intros [[r Hr] Hne]. destruct r as [|y r _] using rev_ind; [by rewrite app_nil_r in Hr|].
    rewrite app_assoc in Hr. apply app_inj_tail in Hr as [-> _]. by exists r.
  - intros [r ->]. split; [exists (r ++ [x]); by rewrite app_assoc|].
    rewrite <- app_assoc. intros E%app_not_self. by destruct r.
Qed.

Lemma look_prefix s p q :
  wf s -> Forall Path.clean q -> look s q = Some Dir -> p `prefix_of` q -> look s p = Some Dir.
Proof.
  intros Hw Hq Hd Hp. destruct (decide (p = q)) as [->|Hne]; [done|].
  eapply look_above; [done|exact Hq|by split|by eexists].
Qed.

Lemma clear_under s dir x :
  wf s -> Forall Path.clean dir -> look s dir = Some Dir -> clear_above (look s) (dir ++ [x]).
Proof. intros Hw Hc Hd q Hq%above_snoc. by rewrite (look_prefix s q dir). Qed.

Lemma grown_under s dir x n q :
  wf s -> Forall Path.clean dir -> look s dir = Some Dir ->
  grown (look s) (dir ++ [x]) n q = if decide (q = dir ++ [x]) then Some n else look s q.
Proof.
  intros Hw Hc Hd. unfold grown. destruct (decide (q = dir ++ [x])); [done|].
  destruct (decide (above q (dir ++ [x]))) as [Ha%above_snoc|]; [|done]. by rewrite (look_prefix s q dir).
Qed.

Lemma clean_snoc dir x : Forall Path.clean (dir ++ [x]) -> Forall Path.clean dir.
Proof. intros Hc. by apply Forall_app in Hc as [? _]. Qed.

Lemma write_in s dir x text :
  wf s -> Forall Path.clean (dir ++ [x]) -> look s dir = Some Dir -> look s (dir ++ [x]) <> Some Dir ->
  exists s', writeText (Path.abs_path (dir ++ [x])) text s = (Ok (), s') /\ wf s' /\
    forall q, Forall Path.clean q ->
      look s' q = if decide (q = dir ++ [x]) then Some (File (Utf8.encode text)) else look s q.
Proof.
  intros Hw Hc Hd Hx. pose proof (clean_snoc _ _ Hc) as Hcd.
  destruct (law_writeText s (dir ++ [x]) text) as (s' & Hrun & Hw' & Hl); [done|done|by destruct dir|done|by apply clear_under|].
  exists s'. split_and!; [done|done|]. intros q Hq. rewrite (Hl q Hq). by apply grown_under.
Qed.

Lemma append_in s dir x text old :
  wf s -> Forall Path.clean (dir ++ [x]) -> look s dir = Some Dir -> look s (dir ++ [x]) = Some (File old) ->
  exists s', appendText (Path.abs_path (dir ++ [x])) text s = (Ok (), s') /\ wf s' /\
    forall q, Forall Path.clean q ->
      look s' q = if decide (q = dir ++ [x]) then Some (File (old ++ Utf8.encode text)) else look s q.
Proof.
  intros Hw Hc Hd Hx. pose proof (clean_snoc _ _ Hc) as Hcd.
  destruct (law_appendText s (dir ++ [x]) text) as (s' & Hrun & Hw' & Hl);
    [done|done|by destruct dir|by rewrite Hx|by apply clear_under|].
  exists s'. split_and!; [done|done|]. intros q Hq. rewrite (Hl q Hq), Hx. by apply grown_under.
Qed.

(** Making a directory that is there changes nothing. *)
Lemma mkdir_there s p :
  wf s -> Forall Path.clean p -> p <> [] -> look s p = Some Dir ->
  exists s', mkdir (Path.abs_path p) true s = (Ok (), s') /\ wf s' /\
    forall q, Forall Path.clean q -> look s' q = look s q.
Proof.
  intros Hw Hc Hne Hd. destruct (path_snoc p) as [->|(dir & x & ->)]; [done|].
  pose proof (clean_snoc _ _ Hc) as Hcd.
  assert (look s dir = Some Dir) as Hdir by (apply (look_prefix s dir (dir ++ [x])); [done..|by exists [x]]).
  destruct (law_mkdir s (dir ++ [x])) as (s' & Hrun & Hw' & Hl);
    [done|done|done|by rewrite Hd|by apply clear_under|].
  exists s'. split_and!; [done|done|]. intros q Hq. rewrite (Hl q Hq), grown_under by done.
  by destruct (decide (q = dir ++ [x])) as [->|].
Qed.

(** Making a directory inside one that is there. *)
Lemma mkdir_in s dir x :
  wf s -> Forall Path.clean (dir ++ [x]) -> look s dir = Some Dir -> is_file (look s (dir ++ [x])) = false ->
  exists s', mkdir (Path.abs_path (dir ++ [x])) true s = (Ok (), s') /\ wf s' /\
    forall q, Forall Path.clean q -> look s' q = if decide (q = dir ++ [x]) then Some Dir else look s q.
Proof.
  intros Hw Hc Hd Hx. pose proof (clean_snoc _ _ Hc) as Hcd.
  destruct (law_mkdir s (dir ++ [x])) as (s' & Hrun & Hw' & Hl);
    [done|done|by destruct dir|done|by apply clear_under|].
  exists s'. split_and!; [done|done|]. intros q Hq. rewrite (Hl q Hq). by apply grown_under.
Qed.

End Derived.
