(* ===== verification/Lanes.v ===== *)
(** The write lanes of [src/browser/core/filesystem.js] ([runInLane]) over the language's
    promises: what a call of [then] registers, the jobs of settled promises, and bodies that
    settle when they like.  [lanes_fifo] is what the engine's writers rely on. *)

From S2P Require Import Prelude.

Module Lanes.

(** ** Promises

    A call is its lane's key and a number of its own. [Next c] is the promise [runInLane]
    returns for the call [c], [Tail c] the one it stores, [Body c] the one its body returns,
    [Nothing] is [Promise.resolve()]. *)

Abbreviation call := (jstr * nat)%type.

Inductive promise := Nothing | Next (c : call) | Tail (c : call) | Body (c : call).

#[export] Instance promise_eq_dec : EqDecision promise.
Proof. solve_decision. Defined.

(** The callbacks of the file: [() => body()] and [() => undefined]. *)
Inductive handler := CallBody (c : call) | ToUndefined.

(** [promise.then(onFulfilled, onRejected)] and the promise it returns. A callback that is not
    given passes the outcome on. *)
Record reaction := Then { onFulfilled : option handler; onRejected : option handler; derived : promise }.

Inductive state := Pending (reactions : list reaction) | Settled (ok : bool).

(** The jobs of the event loop: the reaction to a settled promise, and [p] taking the outcome
    of the promise [q] a callback returned. *)
Inductive job := React (r : reaction) (ok : bool) | Adopt (p q : promise).

(** What happens to the bodies, as the world sees it. *)
Inductive happening := Began (c : call) | Ended (c : call) (ok : bool).

Record lanes := mkLanes {
  promises : promise -> option state;
  jobs : list job;
  tails : jstr -> option promise;  (* the [Map] of the lanes *)
  log : list happening
}.

Definition upd {A B} `{EqDecision A} (f : A -> B) (x : A) (v : B) : A -> B :=
  fun y => if decide (y = x) then v else f y.

#[global] Arguments upd : simpl never.

Definition set_promise (p : promise) (s : state) (l : lanes) : lanes :=
  {| promises := upd (promises l) p (Some s); jobs := jobs l; tails := tails l; log := log l |}.
Definition enqueue (js : list job) (l : lanes) : lanes :=
  {| promises := promises l; jobs := jobs l ++ js; tails := tails l; log := log l |}.
Definition set_tail (k : jstr) (p : promise) (l : lanes) : lanes :=
  {| promises := promises l; jobs := jobs l; tails := upd (tails l) k (Some p); log := log l |}.
Definition note (h : happening) (l : lanes) : lanes :=
  {| promises := promises l; jobs := jobs l; tails := tails l; log := log l ++ [h] |}.

(** A promise settles once: its reactions become jobs. *)
Definition settle (p : promise) (ok : bool) (l : lanes) : lanes :=
  match promises l p with
  | Some (Pending rs) => enqueue (map (fun r => React r ok) rs) (set_promise p (Settled ok) l)
  | _ => l
  end.

(** A reaction waits for a pending promise and is a job at once of a settled one. *)
Definition react_to (p : promise) (r : reaction) (l : lanes) : lanes :=
  match promises l p with
  | Some (Pending rs) => set_promise p (Pending (rs ++ [r])) l
  | Some (Settled ok) => enqueue [React r ok] l
  | None => l
  end.

Definition then_ (p : promise) (onF onR : option handler) (d : promise) (l : lanes) : lanes :=
  react_to p (Then onF onR d) (set_promise d (Pending []) l).

(** ** The lane *)

(** [runInLane(lanes, key, body)] *)
Definition runInLane (key : jstr) (n : nat) (l : lanes) : lanes :=
  let body := CallBody (key, n) in
  let next := Next (key, n) in
  let previous := default Nothing (tails l key) in
  let l := then_ previous (Some body) (Some body) next l in
  let l := then_ next (Some ToUndefined) (Some ToUndefined) (Tail (key, n)) l in
  set_tail key (Tail (key, n)) l.

(** A reaction's job: the callback for the outcome runs. [body()] is under way until the world
    ends it; the derived promise takes the outcome of the promise it returned. *)
Definition run_reaction (r : reaction) (ok : bool) (l : lanes) : lanes :=
  match (if ok then onFulfilled r else onRejected r) with
  | None => settle (derived r) ok l
  | Some ToUndefined => settle (derived r) true l
  | Some (CallBody c) => enqueue [Adopt (derived r) (Body c)] (set_promise (Body c) (Pending []) (note (Began c) l))
  end.

Definition run_job (j : job) (l : lanes) : lanes :=
  match j with
  | React r ok => run_reaction r ok l
  | Adopt p q => react_to q (Then None None p) l
  end.

(** The event loop runs its first job. *)
Definition tick (l : lanes) : lanes :=
  match jobs l with
  | [] => l
  | j :: js => run_job j {| promises := promises l; jobs := js; tails := tails l; log := log l |}
  end.

(** The promise of a body under way settles. *)
Definition body_ends (c : call) (ok : bool) (l : lanes) : lanes :=
  settle (Body c) ok (note (Ended c ok) l).

Definition no_lanes : lanes :=
  {| promises := fun p => match p with Nothing => Some (Settled true) | _ => None end;
     jobs := []; tails := fun _ => None; log := [] |}.

(** What happens, in any order: a call with a number of its own, a job, the end of a body. *)
Inductive event := Call (k : jstr) (n : nat) | Tick | BodyEnds (c : call) (ok : bool).

Inductive step : lanes -> event -> lanes -> Prop :=
| step_call l k n : promises l (Next (k, n)) = None -> step l (Call k n) (runInLane k n l)
| step_tick l : step l Tick (tick l)
| step_body l c ok rs : promises l (Body c) = Some (Pending rs) -> step l (BodyEnds c ok) (body_ends c ok l).

Inductive steps : lanes -> list event -> lanes -> Prop :=
| steps_nil l : steps l [] l
| steps_cons l e l1 es l2 : step l e l1 -> steps l1 es l2 -> steps l (e :: es) l2.

(** The calls of a lane among the events, in order of arrival. *)
Definition calls (k : jstr) (es : list event) : list call :=
  omap (fun e => match e with Call k' n => if decide (k' = k) then Some (k', n) else None | _ => None end) es.

(** The bodies of a lane that began, and those that ended with how they did, in order. *)
Definition begun (k : jstr) (l : lanes) : list call :=
  omap (fun h => match h with Began c => if decide (c.1 = k) then Some c else None | Ended _ _ => None end) (log l).
Definition ended (k : jstr) (l : lanes) : list (call * bool) :=
  omap (fun h => match h with Ended c ok => if decide (c.1 = k) then Some (c, ok) else None | Began _ => None end) (log l).

(** ** Where a call stands

    A call waits for the call before it, is queued to run, has begun (and may have ended
    before its promise is adopted), has been adopted, is resolved, is over. *)

Inductive stage := Waiting | Queued | Started (o : option bool) | Adopted (o : option bool) | Resolved (ok : bool) | Over (ok : bool).

Definition body_of (s : stage) (c : call) : option state :=
  match s with
  | Waiting | Queued => None
  | Started None => Some (Pending [])
  | Adopted None => Some (Pending [Then None None (Next c)])
  | Started (Some ok) | Adopted (Some ok) | Resolved ok | Over ok => Some (Settled ok)
  end.

Definition next_of (s : stage) (c : call) : option state :=
  match s with
  | Resolved ok | Over ok => Some (Settled ok)
  | _ => Some (Pending [Then (Some ToUndefined) (Some ToUndefined) (Tail c)])
  end.

Definition run_after (c : call) : reaction := Then (Some (CallBody c)) (Some (CallBody c)) (Next c).

Definition tail_of (s : stage) (successor : option call) : option state :=
  match s with
  | Over _ => Some (Settled true)
  | _ => Some (Pending (option_list (run_after <$> successor)))
  end.

(** The job of a call that is its lane's first. *)
Definition jobs_of (s : stage) (c : call) : list job :=
  match s with
  | Queued => [React (run_after c) true]
  | Started _ => [Adopt (Next c) (Body c)]
  | Adopted (Some ok) => [React (Then None None (Next c)) ok]
  | Resolved ok => [React (Then (Some ToUndefined) (Some ToUndefined) (Tail c)) ok]
  | _ => []
  end.

Definition has_begun (s : stage) : bool := match s with Waiting | Queued => false | _ => true end.
Definition outcome_of (s : stage) : option bool :=
  match s with Started o | Adopted o => o | Resolved ok | Over ok => Some ok | _ => None end.
Definition under_way (s : stage) : bool := match s with Waiting | Over _ => false | _ => true end.

Fixpoint successor (c : call) (cs : list call) : option call :=
  match cs with
  | [] => None
  | x :: rest => if decide (x = c) then head rest else successor c rest
  end.

Definition key_of (p : promise) : option jstr :=
  match p with Nothing => None | Next c | Tail c | Body c => Some c.1 end.
Definition job_key (j : job) : option jstr :=
  match j with React r _ => key_of (derived r) | Adopt p _ => key_of p end.
Definition jobs_in (k : jstr) (js : list job) : list job := filter (fun j => job_key j = Some k) js.

(** Where every call stands: the calls of a lane that are over and those that are not, in
    order, and the stage of each. *)
Record standing := { over : jstr -> list (call * bool); open : jstr -> list call; at_ : call -> option stage }.

Definition view (g : standing) (p : promise) : option state :=
  match p with
  | Nothing => Some (Settled true)
  | Next c => s ← at_ g c; next_of s c
  | Tail c => s ← at_ g c; tail_of s (successor c (open g c.1))
  | Body c => s ← at_ g c; body_of s c
  end.

Definition arrived (g : standing) (k : jstr) : list call := (over g k).*1 ++ open g k.

(** A lane: the calls over, one under way, the others waiting behind it. *)
Record lane_ok (g : standing) (k : jstr) (l : lanes) : Prop := {
  ok_distinct : NoDup (arrived g k);
  ok_key : Forall (fun c => c.1 = k) (arrived g k);
  ok_over : Forall (fun x => at_ g x.1 = Some (Over x.2)) (over g k);
  ok_open : match open g k with
            | [] => jobs_in k (jobs l) = [] /\ begun k l = (over g k).*1 /\ ended k l = over g k
            | c :: w => exists s, at_ g c = Some s /\ under_way s = true /\ Forall (fun c => at_ g c = Some Waiting) w /\
                jobs_in k (jobs l) = jobs_of s c /\
                begun k l = (over g k).*1 ++ (if has_begun s then [c] else []) /\
                ended k l = over g k ++ option_list (pair c <$> outcome_of s)
            end;
  ok_tail : tails l k = Tail <$> last (arrived g k)
}.

Record inv (g : standing) (l : lanes) : Prop := {
  inv_promises p : promises l p = view g p;
  inv_known c : is_Some (at_ g c) -> c ∈ arrived g c.1;
  inv_jobs : Forall (fun j => is_Some (job_key j)) (jobs l);
  inv_lane k : lane_ok g k l
}.

(** ** Each event keeps it *)

Lemma upd_same {A B} `{EqDecision A} (f : A -> B) x v : upd f x v x = v.
Proof. unfold upd. by rewrite decide_True. Qed.
Lemma upd_other {A B} `{EqDecision A} (f : A -> B) x y v : y <> x -> upd f x v y = f y.
Proof. intros. unfold upd. by rewrite decide_False. Qed.

Lemma jobs_in_app k js js' : jobs_in k (js ++ js') = jobs_in k js ++ jobs_in k js'.
Proof. apply filter_app. Qed.
Lemma jobs_in_one k j k' : job_key j = Some k' -> jobs_in k [j] = if decide (k = k') then [j] else [].
Proof. intros E. unfold jobs_in. rewrite filter_cons, E. repeat case_decide; naive_solver. Qed.
Lemma jobs_in_cons k j js k' : job_key j = Some k' -> jobs_in k (j :: js) = (if decide (k = k') then [j] else []) ++ jobs_in k js.
Proof. intros E. change (j :: js) with ([j] ++ js). by rewrite jobs_in_app, (jobs_in_one _ _ _ E). Qed.

Lemma jobs_of_key s c : Forall (fun j => job_key j = Some c.1) (jobs_of s c).
Proof. destruct s as [| |[]|[]| |]; cbn; repeat constructor. Qed.

(** The call under way in its lane moves to another stage. *)
Definition move_to (c : call) (s : stage) (g : standing) : standing :=
  {| over := over g; open := open g; at_ := upd (at_ g) c (Some s) |}.

(** The call under way is over; the one behind it is queued. *)
Definition next_call (c : call) (ok : bool) (w : list call) (g : standing) : standing :=
  {| over := upd (over g) c.1 (over g c.1 ++ [(c, ok)]); open := upd (open g) c.1 w;
     at_ := match w with [] => upd (at_ g) c (Some (Over ok)) | c' :: _ => upd (upd (at_ g) c (Some (Over ok))) c' (Some Queued) end |}.

Lemma first_is_not_over g k c w l : lane_ok g k l -> open g k = c :: w -> c.1 = k /\ c ∉ w /\ c ∉ (over g k).*1.
Proof.
  intros H E. pose proof (ok_distinct _ _ _ H) as Hd. pose proof (ok_key _ _ _ H) as Hk. unfold arrived in *. rewrite E in *.
  apply NoDup_app in Hd as (_ & Hd & Hcw%NoDup_cons). apply Forall_app in Hk as [_ Hk%Forall_cons]. split_and!; [easy|easy|].
  intros Hin. apply (Hd c Hin). left.
Qed.

Lemma inv_move g l l' c s s' w :
  inv g l -> open g c.1 = c :: w -> at_ g c = Some s -> under_way s' = true ->
  (forall p, promises l' p = view (move_to c s' g) p) -> Forall (fun j => is_Some (job_key j)) (jobs l') -> tails l' = tails l ->
  (forall k, jobs_in k (jobs l') = if decide (k = c.1) then jobs_of s' c else jobs_in k (jobs l)) ->
  (forall k, begun k l' = if decide (k = c.1) then (over g k).*1 ++ (if has_begun s' then [c] else []) else begun k l) ->
  (forall k, ended k l' = if decide (k = c.1) then over g k ++ option_list (pair c <$> outcome_of s') else ended k l) ->
  inv (move_to c s' g) l'.
Proof.
  intros [Hp Hk Hj Hl] Ho Hs Hu Hp' Hj' Ht Hjobs Hb He. split; [done| |done|].
  - intros c' Hc. cbn in *. unfold upd in Hc. case_decide; [subst c'; apply Hk; by rewrite Hs|by apply Hk].
  - intros k. destruct (first_is_not_over _ _ _ _ _ (Hl c.1) Ho) as (_ & Hw & Hover).
    pose proof (Hl k) as [Hd Hkey Ho1 Ho2 Ht']. specialize (Hjobs k). specialize (Hb k). specialize (He k).
    destruct (decide (k = c.1)) as [->|Hne]; split; cbn [over open move_to]; [done|done| | |by rewrite Ht|done|done| | |by rewrite Ht].
    + apply Forall_forall. intros x Hx. cbn [at_ move_to]. rewrite Forall_forall in Ho1. rewrite upd_other by (intros <-; apply Hover; by apply list_elem_of_fmap_2).
      by apply Ho1.
    + rewrite Ho in *. exists s'. cbn. rewrite upd_same. split_and!; try done. destruct Ho2 as (s0 & _ & _ & Hws & _).
      rewrite Forall_forall in *. intros x Hx. rewrite upd_other by congruence. by apply Hws.
    + rewrite Forall_forall in Ho1 |- *. intros x Hx. cbn. rewrite upd_other; [by apply Ho1|]. intros <-.
      assert (Hx' : x.1 ∈ arrived g k) by (apply elem_of_app; left; by apply list_elem_of_fmap_2). rewrite Forall_forall in Hkey. apply Hkey in Hx'. congruence.
    + assert (Hother : forall x, x ∈ open g k -> x <> c).
      { intros x Hx ->. rewrite Forall_forall in Hkey. apply Hne. symmetry. apply Hkey, elem_of_app. by right. }
      rewrite Hjobs, Hb, He. destruct (open g k) as [|c' w']; [done|]. destruct Ho2 as (s0 & ? & ? & Hws & ?). exists s0. cbn.
      rewrite upd_other by (apply Hother; left). split_and!; try done; try easy.
      rewrite Forall_forall in *. intros x Hx. rewrite upd_other by (apply Hother; by right). by apply Hws.
Qed.

Lemma inv_next g l l' c ok w :
  inv g l -> open g c.1 = c :: w -> at_ g c = Some (Resolved ok) ->
  (forall p, promises l' p = view (next_call c ok w g) p) -> Forall (fun j => is_Some (job_key j)) (jobs l') -> tails l' = tails l ->
  (forall k, jobs_in k (jobs l') = if decide (k = c.1) then match w with [] => [] | c' :: _ => jobs_of Queued c' end else jobs_in k (jobs l)) ->
  log l' = log l -> inv (next_call c ok w g) l'.
Proof.
  intros [Hp Hk Hj Hl] Ho Hs Hp' Hj' Ht Hjobs Hlog.
  destruct (first_is_not_over _ _ _ _ _ (Hl c.1) Ho) as (_ & Hw & Hover).
  assert (Harr : forall k, arrived (next_call c ok w g) k = arrived g k).
  { intros k. unfold arrived, next_call. cbn [over open]. unfold upd. case_decide; [subst k|done].
    by rewrite Ho, fmap_app, <- app_assoc. }
  assert (Hat : forall x, x <> c -> head w <> Some x -> at_ (next_call c ok w g) x = at_ g x).
  { intros x Hx Hh. cbn. destruct w as [|c' w]; [by apply upd_other|]. cbn in Hh. rewrite !upd_other; congruence. }
  assert (Hc : at_ (next_call c ok w g) c = Some (Over ok)).
  { cbn. destruct w as [|c' w]; [by apply upd_same|]. apply not_elem_of_cons in Hw as [Hw _]. rewrite upd_other by done. apply upd_same. }
  pose proof (Hl c.1) as [Hd Hkey Ho1 Ho2 Ht']. rewrite Ho in Ho2. destruct Ho2 as (s0 & Hs0 & _ & Hws & _ & Hb & He).
  rewrite Hs in Hs0. injection Hs0 as <-.
  assert (Hwk : Forall (fun x => x.1 = c.1) w).
  { unfold arrived in Hkey. rewrite Ho in Hkey. apply Forall_app in Hkey as [_ Hkey%Forall_cons]. easy. }
  split; [done| |done|].
  - intros x Hx. rewrite Harr. destruct (decide (x = c)) as [->|Hne]; [by apply Hk; rewrite Hs|].
    destruct (decide (head w = Some x)) as [Hh|Hh]; [|rewrite Hat in Hx by done; by apply Hk].
    destruct w as [|c' w]; [done|]. injection Hh as ->. apply Forall_cons in Hws as [Hws _]. apply Hk. by rewrite Hws.
  - intros k. pose proof (Hl k) as [Hdk Hkk Ho1k Ho2k Htk]. split; rewrite ?Harr, ?Ht; [done|done| | |done].
    + cbn [over next_call]. assert (Hold : Forall (fun x => at_ (next_call c ok w g) x.1 = Some (Over x.2)) (over g k)).
      { rewrite Forall_forall in Ho1k |- *. intros x Hx. specialize (Ho1k x Hx).
        rewrite Hat; [done|intros <-; congruence|]. intros Hh. destruct w as [|c' w]; [done|]. injection Hh as ->.
        apply Forall_cons in Hws as [Hws _]. congruence. }
      unfold upd. case_decide; [subst k|done]. apply Forall_app. split; [done|]. by apply Forall_singleton.
    + cbn [over open next_call]. unfold begun, ended. rewrite Hlog. fold (begun k l) (ended k l).
      specialize (Hjobs k). destruct (decide (k = c.1)) as [->|Hkc]; [rewrite !upd_same|rewrite !upd_other by done].
      * rewrite Hjobs, Hb, He, fmap_app. destruct w as [|c' w]; [done|]. exists Queued. cbn [jobs_of].
        apply Forall_cons in Hws as [Hwc Hws]. cbn. rewrite upd_same, !app_nil_r. split_and!; try done.
        rewrite Forall_forall in Hws |- *. intros x Hx.
        unfold arrived in Hd. rewrite Ho in Hd. apply NoDup_app in Hd as (_ & _ & (Hcn & Hd%NoDup_cons)%NoDup_cons).
        rewrite !upd_other; [by apply Hws|intros ->; apply Hcn; by right|intros ->; by apply Hd].
      * rewrite Hjobs. destruct (open g k) as [|x wk] eqn:Hok; [done|]. destruct Ho2k as (s0 & Hs0 & Hu0 & Hw0 & Hrest).
        assert (Hother : forall y, y ∈ x :: wk -> at_ (next_call c ok w g) y = at_ g y).
        { intros y Hy. unfold arrived in Hkk. rewrite Hok in Hkk. apply Forall_app in Hkk as [_ Hkk]. rewrite Forall_forall in Hkk.
          specialize (Hkk y Hy). apply Hat; [congruence|]. intros Hh. destruct w as [|c' w]; [done|]. injection Hh as ->.
          apply Forall_cons in Hwk as [Hwk _]. congruence. }
        exists s0. split_and!; [by rewrite Hother by left|done| |apply Hrest..].
        rewrite Forall_forall in Hw0 |- *. intros y Hy. rewrite Hother by (by right). by apply Hw0.
Qed.

Lemma react_pending p r rs l : promises l p = Some (Pending rs) -> react_to p r l = set_promise p (Pending (rs ++ [r])) l.
Proof. unfold react_to. by intros ->. Qed.
Lemma react_settled p r ok l : promises l p = Some (Settled ok) -> react_to p r l = enqueue [React r ok] l.
Proof. unfold react_to. by intros ->. Qed.
Lemma settle_pending p ok rs l : promises l p = Some (Pending rs) -> settle p ok l = enqueue (map (fun r => React r ok) rs) (set_promise p (Settled ok) l).
Proof. unfold settle. by intros ->. Qed.

(** [runInLane], behind a call that is over or behind one that is not. *)
Lemma runInLane_behind key n l previous :
  let c := (key, n) in default Nothing (tails l key) = previous -> previous <> Next c -> previous <> Tail c ->
  let fresh := fun f => upd (upd (upd f (Next c) (Some (Pending []))) (Next c) (next_of Queued c)) (Tail c) (Some (Pending [])) in
  forall s, promises l previous = Some s ->
  match s with
  | Settled ok => jobs (runInLane key n l) = jobs l ++ [React (run_after c) ok] /\
      (forall p, promises (runInLane key n l) p = fresh (promises l) p)
  | Pending rs => jobs (runInLane key n l) = jobs l /\
      (forall p, promises (runInLane key n l) p = fresh (upd (promises l) previous (Some (Pending (rs ++ [run_after c])))) p)
  end /\ tails (runInLane key n l) = upd (tails l) key (Some (Tail c)) /\ log (runInLane key n l) = log l.
Proof.
  intros c Hprev Hn Ht fresh s Hs. unfold runInLane. fold c. rewrite Hprev. cbn zeta.
  set (l1 := set_promise (Next c) (Pending []) l).
  change (then_ previous _ _ _ l) with (react_to previous (run_after c) l1).
  assert (E1 : promises l1 previous = Some s) by (unfold l1; cbn; by rewrite upd_other).
  assert (E2 : promises l1 (Next c) = Some (Pending [])) by apply upd_same.
  assert (E3 : forall l2, promises l2 (Next c) = Some (Pending []) ->
    then_ (Next c) (Some ToUndefined) (Some ToUndefined) (Tail c) l2 =
    set_promise (Next c) (Pending [Then (Some ToUndefined) (Some ToUndefined) (Tail c)]) (set_promise (Tail c) (Pending []) l2)).
  { intros l2 E. unfold then_. apply (react_pending _ _ []). cbn. by rewrite upd_other. }
  destruct s as [rs|ok].
  - rewrite (react_pending _ _ _ _ E1), (E3 (set_promise previous _ l1)) by (cbn; by rewrite upd_other). cbn. split_and!; try done.
    intros p. unfold fresh, upd. cbn. unfold l1, set_promise, upd. cbn. repeat case_decide; congruence.
  - rewrite (react_settled _ _ _ _ E1), E3 by done. cbn. split_and!; try done. intros p. unfold fresh, l1, set_promise, upd. cbn. repeat case_decide; congruence.
Qed.

(** A new call, and the place it takes. *)
Definition arrive (k : jstr) (n : nat) (g : standing) : standing :=
  {| over := over g; open := upd (open g) k (open g k ++ [(k, n)]);
     at_ := upd (at_ g) (k, n) (Some (match open g k with [] => Queued | _ => Waiting end)) |}.

Lemma successor_app_other c cs x : c ∉ cs \/ (exists y, last cs = Some y /\ y <> c) -> NoDup (cs ++ [x]) -> x <> c ->
  successor c (cs ++ [x]) = successor c cs.
Proof.
  induction cs as [|y cs IH]; intros Hc Hd Hx; cbn.
  { by rewrite decide_False. }
  apply NoDup_cons in Hd as [Hy Hd]. case_decide as E.
  - subst y. destruct cs as [|z cs]; [|done]. exfalso. destruct Hc as [Hc|(y & [= <-] & ?)]; [apply Hc; left|done].
  - apply IH; [|done|done]. destruct Hc as [Hc|(z & Hz & Hne)]; [left; set_solver|].
    destruct cs as [|w cs]; [left; set_solver|]. right. exists z. by rewrite last_cons_cons in Hz.
Qed.
Lemma successor_app_last c cs x : last cs = Some c -> NoDup cs -> successor c cs = None /\ successor c (cs ++ [x]) = Some x.
Proof.
  induction cs as [|y cs IH]; [done|]. intros Hl Hd. apply NoDup_cons in Hd as [Hy Hd]. destruct cs as [|z cs].
  - injection Hl as ->. cbn. by rewrite !decide_True.
  - rewrite last_cons_cons in Hl. destruct (IH Hl Hd) as [E1 E2].
    assert (y <> c) by (intros ->; apply Hy; by apply last_Some_elem_of). cbn [successor app] in *. by rewrite !(decide_False (P := y = c)).
Qed.

Lemma arrived_known g k l c : lane_ok g k l -> c ∈ arrived g k -> is_Some (at_ g c).
Proof.
  intros [_ _ Ho Hopen _] [Hc|Hc]%elem_of_app.
  - apply list_elem_of_fmap in Hc as (x & -> & Hx). rewrite Forall_forall in Ho. rewrite Ho by done. done.
  - destruct (open g k) as [|c0 w]; [by apply not_elem_of_nil in Hc|]. destruct Hopen as (s & Hs & _ & Hw & _).
    apply elem_of_cons in Hc as [->|Hc]; [done|]. rewrite Forall_forall in Hw. by rewrite Hw.
Qed.

Lemma open_not_over g k l c : lane_ok g k l -> c ∈ open g k -> exists s, at_ g c = Some s /\ forall ok, s <> Over ok.
Proof.
  intros [_ _ _ Hopen _] Hc. destruct (open g k) as [|c0 w]; [by apply not_elem_of_nil in Hc|]. destruct Hopen as (s & Hs & Hu & Hw & _).
  apply elem_of_cons in Hc as [->|Hc]; [exists s; split; [done|by intros ok ->]|]. rewrite Forall_forall in Hw. exists Waiting. by rewrite Hw.
Qed.

(** The promise a new call is chained to. *)
Lemma previous_of g l k : inv g l ->
  match open g k with
  | [] => promises l (default Nothing (tails l k)) = Some (Settled true) /\
          (default Nothing (tails l k) = Nothing \/ exists c, default Nothing (tails l k) = Tail c /\ c ∈ (over g k).*1)
  | _ => exists c, tails l k = Some (Tail c) /\ last (open g k) = Some c /\ c ∈ open g k /\ promises l (Tail c) = Some (Pending [])
  end.
Proof.
  intros [Hp _ _ Hl]. destruct (Hl k) as [Hd Hk Ho Hopen Ht]. rewrite Ht. unfold arrived in *.
  destruct (open g k) as [|c0 w] eqn:E.
  - rewrite app_nil_r. destruct (last (over g k).*1) as [c|] eqn:El; cbn; [|rewrite Hp; by split; [|left]].
    apply last_Some_elem_of in El. pose proof El as Hc. apply list_elem_of_fmap in El as ([c' ok] & -> & Hx).
    rewrite Forall_forall in Ho. specialize (Ho _ Hx). cbn in *. rewrite Hp. cbn. rewrite Ho. split; [done|]. right. by exists c'.
  - rewrite last_app_cons. rewrite <- E in Hd, Hk. rewrite <- !E. destruct (last (open g k)) as [c|] eqn:El; [|apply last_None in El; congruence].
    exists c. pose proof (last_Some_elem_of _ _ El) as Hc. split_and!; try done.
    destruct (open_not_over _ _ _ _ (Hl k) Hc) as (s & Hs & Hn). rewrite Hp. cbn. rewrite Hs. cbn.
    apply NoDup_app in Hd as (_ & _ & Hd).
    assert (c.1 = k) as -> by (rewrite Forall_forall in Hk; apply Hk, elem_of_app; by right).
    destruct (successor_app_last c (open g k) c El Hd) as [-> _]. by destruct s as [| | | | |ok]; [| | | | |destruct (Hn ok)].
Qed.

Lemma arrive_fresh g l k n : inv g l -> at_ g (k, n) = None -> (k, n) ∉ arrived g k /\ NoDup (open g k ++ [(k, n)]).
Proof.
  intros [_ _ _ Hl] Hc.
  assert (Hnew : (k, n) ∉ arrived g k) by (intros Hin; destruct (arrived_known _ _ _ _ (Hl k) Hin); congruence).
  split; [done|]. destruct (Hl k) as [Hd _ _ _ _]. unfold arrived in *. apply NoDup_app in Hd as (_ & _ & Hd).
  apply NoDup_app. split_and!; [done| |apply NoDup_singleton]. intros x Hx ->%list_elem_of_singleton. apply Hnew, elem_of_app. by right.
Qed.

Lemma view_arrive_tail g l k n x : inv g l -> at_ g (k, n) = None -> x <> (k, n) ->
  view (arrive k n g) (Tail x) =
    if decide (last (open g k) = Some x) then Some (Pending [run_after (k, n)]) else view g (Tail x).
Proof.
  intros Hinv Hc Hx. pose proof Hinv as [Hp Hk Hj Hl]. destruct (arrive_fresh _ _ _ _ Hinv Hc) as [Hnew Hd].
  cbn [view arrive at_ open]. rewrite (upd_other (at_ g)) by done. destruct (decide (last (open g k) = Some x)) as [E|E].
  - pose proof (last_Some_elem_of _ _ E) as Hin. destruct (open_not_over _ _ _ _ (Hl k) Hin) as (s & Hs & Hn).
    assert (x.1 = k) as Hxk. { pose proof (ok_key _ _ _ (Hl k)) as Hkey. rewrite Forall_forall in Hkey. apply Hkey, elem_of_app. by right. }
    rewrite Hs, Hxk, upd_same. cbn. apply NoDup_app in Hd as (Hd & _). destruct (successor_app_last x _ (k, n) E Hd) as [_ ->].
    by destruct s as [| | | | |ok]; [| | | | |destruct (Hn ok)].
  - destruct (at_ g x) as [s|] eqn:Hs; [|done]. cbn. destruct (decide (x.1 = k)) as [Hxk|Hxk]; [|by rewrite upd_other].
    rewrite Hxk, upd_same, successor_app_other; [done| |done|done].
    destruct (last (open g k)) as [y|] eqn:El; [right; exists y; split; [done|congruence]|].
    apply last_None in El. rewrite El. left. apply not_elem_of_nil.
Qed.

Lemma view_arrive g l k n : inv g l -> at_ g (k, n) = None -> let c := (k, n) in
  forall p, view (arrive k n g) p =
    upd (upd (upd (match last (open g k) with
                   | None => promises l
                   | Some c0 => upd (promises l) (Tail c0) (Some (Pending [run_after c]))
                   end) (Next c) (Some (Pending []))) (Next c) (next_of Queued c)) (Tail c) (Some (Pending [])) p.
Proof.
  intros Hinv Hc c p. pose proof Hinv as [Hp Hk Hj Hl]. destruct (arrive_fresh _ _ _ _ Hinv Hc) as [Hnew Hd]. fold c in Hnew, Hd.
  destruct p as [|x|x|x]; [rewrite !upd_other by done; destruct (last _); rewrite ?upd_other by done; by rewrite Hp| | |].
  - rewrite (upd_other _ (Tail c)) by done. destruct (decide (x = c)) as [->|Hne].
    + rewrite upd_same. cbn [view arrive at_]. fold c. rewrite upd_same. cbn. by destruct (open g k).
    + rewrite !upd_other by congruence. transitivity (promises l (Next x)); [|destruct (last _); [by rewrite upd_other|done]].
      rewrite Hp. cbn [view arrive at_]. by rewrite upd_other.
  - destruct (decide (x = c)) as [->|Hne].
    + rewrite upd_same. cbn [view arrive at_ open]. fold c. cbn [fst c]. rewrite !upd_same.
      destruct (successor_app_last c (open g k ++ [c]) c) as [-> _]; [apply last_snoc|done|]. by destruct (open g k).
    + rewrite !upd_other by congruence. rewrite (view_arrive_tail g l) by done. destruct (last (open g k)) as [c0|]; [|by rewrite Hp].
      destruct (decide (Some c0 = Some x)) as [E|E]; [injection E as ->; by rewrite upd_same|]. rewrite upd_other by congruence. by rewrite Hp.
  - rewrite !upd_other by done. transitivity (promises l (Body x)); [|destruct (last _); [by rewrite upd_other|done]].
    rewrite Hp. cbn [view arrive at_]. destruct (decide (x = c)) as [->|Hne].
    + fold c. rewrite upd_same. fold c in Hc. rewrite Hc. by destruct (open g k).
    + by rewrite upd_other.
Qed.

(** What [runInLane] leaves: the promises of the new standing, and a job when the lane was idle. *)
Lemma runInLane_leaves g l k n : inv g l -> promises l (Next (k, n)) = None ->
  (forall p, promises (runInLane k n l) p = view (arrive k n g) p) /\
  jobs (runInLane k n l) = jobs l ++ match open g k with [] => jobs_of Queued (k, n) | _ => [] end /\
  tails (runInLane k n l) = upd (tails l) k (Some (Tail (k, n))) /\ log (runInLane k n l) = log l /\ at_ g (k, n) = None.
Proof.
  intros Hinv Hf.
  assert (Hc : at_ g (k, n) = None).
  { rewrite (inv_promises _ _ Hinv) in Hf. cbn in Hf. destruct (at_ g (k, n)) as [[]|]; done. }
  destruct (arrive_fresh _ _ _ _ Hinv Hc) as [Hnew _]. pose proof (view_arrive g l k n Hinv Hc) as Hv. cbn zeta in Hv.
  pose proof (previous_of g l k Hinv) as Hprev. destruct (open g k) as [|c0 w] eqn:Ho.
  - destruct Hprev as [Hs Hd]. set (previous := default Nothing (tails l k)) in *.
    assert (Hn : previous <> Next (k, n)) by (by destruct Hd as [->|(x & -> & _)]).
    assert (Ht : previous <> Tail (k, n)).
    { destruct Hd as [->|(x & -> & Hx)]; [done|]. intros [= ->]. apply Hnew, elem_of_app. by left. }
    destruct (runInLane_behind k n l previous eq_refl Hn Ht _ Hs) as ([Hj Hp] & Htl & Hl).
    split_and!; try done. intros p. by rewrite Hp, Hv.
  - destruct Hprev as (c & Hts & El & Hin & Hs).
    assert (Ht : Tail c <> Tail (k, n)). { intros [= ->]. apply Hnew, elem_of_app. right. by rewrite Ho. }
    destruct (runInLane_behind k n l (Tail c) ltac:(by rewrite Hts) ltac:(done) Ht _ Hs) as ([Hj Hp] & Htl & Hl).
    rewrite app_nil_r. split_and!; try done. intros p. rewrite Hp, Hv, El. done.
Qed.

Lemma inv_arrive g l k n : inv g l -> promises l (Next (k, n)) = None -> inv (arrive k n g) (runInLane k n l).
Proof.
  intros Hinv Hf. destruct (runInLane_leaves g l k n Hinv Hf) as (Hp' & Hj' & Ht' & Hlog & Hc).
  destruct (arrive_fresh _ _ _ _ Hinv Hc) as [Hnew _]. destruct Hinv as [Hp Hk Hj Hl].
  assert (Hat : forall x, x ∈ arrived g x.1 \/ at_ g x <> None -> at_ (arrive k n g) x = at_ g x).
  { intros x Hx. cbn. rewrite upd_other; [done|]. intros ->. cbn in Hx. tauto. }
  assert (Harr : forall k', arrived (arrive k n g) k' = arrived g k' ++ if decide (k' = k) then [(k, n)] else []).
  { intros k'. unfold arrived. cbn. unfold upd. case_decide; [subst; by rewrite app_assoc|by rewrite app_nil_r]. }
  assert (Hold : forall k', Forall (fun x => at_ (arrive k n g) x.1 = Some (Over x.2)) (over g k') /\
                 forall x, x ∈ open g k' -> at_ (arrive k n g) x = at_ g x).
  { intros k'. destruct (Hl k') as [_ Hkey Ho _ _]. split.
    - rewrite Forall_forall in Ho |- *. intros x Hx. rewrite Hat; [by apply Ho|]. right. by rewrite Ho.
    - intros x Hx. apply Hat. left. rewrite Forall_forall in Hkey. rewrite Hkey; apply elem_of_app; by right. }
  split; [done| | |].
  - intros x Hx. rewrite Harr. apply elem_of_app. cbn in Hx. unfold upd in Hx. case_decide; [subst x; right; cbn; rewrite decide_True by done; by left|].
    left. by apply Hk.
  - rewrite Hj'. apply Forall_app. split; [done|]. destruct (open g k); repeat constructor. done.
  - intros k'. destruct (Hl k') as [Hd Hkey Ho Hopen Htl]. destruct (Hold k') as [Ho' Hsame]. split; rewrite ?Harr; [| |done| |].
    + case_decide as E; [subst k'|by rewrite app_nil_r]. apply NoDup_app. split_and!; [done| |apply NoDup_singleton].
      by intros x Hx ->%list_elem_of_singleton.
    + apply Forall_app. split; [done|]. case_decide; [subst k'; by repeat constructor|done].
    + unfold begun, ended. rewrite Hlog, Hj', jobs_in_app. fold (begun k' l) (ended k' l). cbn [over open arrive].
      destruct (decide (k' = k)) as [->|Hne]; [rewrite upd_same|rewrite upd_other by done].
      * destruct (open g k) as [|c0 w] eqn:E; cbn [app].
        -- destruct Hopen as (-> & -> & ->). exists Queued. cbn [at_ arrive]. rewrite upd_same, E, !app_nil_r. cbn [jobs_of].
           rewrite (jobs_in_one _ _ k) by done. by rewrite decide_True.
        -- destruct Hopen as (s & Hs & Hu & Hw & -> & -> & ->). exists s. rewrite Hsame by by left. rewrite app_nil_r.
           split_and!; try done. apply Forall_app. split; [|constructor; [cbn; by rewrite upd_same, E|constructor]].
           rewrite Forall_forall in Hw |- *. intros x Hx. rewrite Hsame by (by right). by apply Hw.
      * assert (jobs_in k' (match open g k with [] => jobs_of Queued (k, n) | _ => [] end) = []) as ->.
        { destruct (open g k); [|done]. cbn [jobs_of]. rewrite (jobs_in_one _ _ k) by done. by rewrite decide_False. }
        rewrite app_nil_r. destruct (open g k') as [|c0 w]; [done|]. destruct Hopen as (s & Hs & Hu & Hw & Hrest). exists s.
        rewrite Hsame by by left. split_and!; try done; try easy. rewrite Forall_forall in Hw |- *. intros x Hx. rewrite Hsame by (by right). by apply Hw.
    + rewrite Ht'. case_decide; [subst k'; by rewrite upd_same, last_snoc|by rewrite upd_other, app_nil_r].
Qed.

(** The jobs a lane can still run before it waits for a body. *)
Definition ticks_left (s : stage) : nat :=
  match s with Queued => 2 | Started None => 1 | Started (Some _) => 5 | Adopted (Some _) => 4 | Resolved _ => 3 | _ => 0 end.
Definition lane_work (g : standing) (k : jstr) : nat :=
  match open g k with [] => 0 | c :: _ => match at_ g c with Some s => ticks_left s | None => 0 end end.
Definition job_work (g : standing) (j : job) : nat :=
  match job_key j with Some k => lane_work g k | None => 0 end.
Definition work (g : standing) (l : lanes) : nat := sum_list (map (job_work g) (jobs l)).

Lemma sum_list_app xs ys : sum_list (xs ++ ys) = sum_list xs + sum_list ys.
Proof. induction xs; cbn; lia. Qed.

Lemma work_less g g' k j js new (l l' : lanes) :
  jobs l = j :: js -> jobs l' = js ++ new -> jobs_in k (jobs l) = [j] -> job_key j = Some k ->
  (forall k', k' <> k -> lane_work g' k' = lane_work g k') ->
  lane_work g' k < lane_work g k -> (new = [] \/ exists j', new = [j'] /\ job_key j' = Some k) -> work g' l' < work g l.
Proof.
  intros E E' Hone Hk Hother Hless Hnew. unfold work. rewrite E, E', map_app, sum_list_app. rewrite E, (jobs_in_cons _ _ _ _ Hk), decide_True in Hone by done.
  injection Hone as Hnone. cbn [map sum_list]. unfold job_work at 3. rewrite Hk.
  assert (sum_list (map (job_work g') js) = sum_list (map (job_work g) js)) as ->.
  { clear -Hother Hnone. induction js as [|j' js IH]; [done|]. unfold jobs_in in *. rewrite filter_cons in Hnone. case_decide as Hd; [done|].
    cbn. rewrite IH by done. f_equal. unfold job_work. destruct (job_key j') as [k'|]; [|done]. apply Hother. by intros ->. }
  destruct Hnew as [->|(j' & -> & Hj')]; cbn; [lia|]. unfold job_work. rewrite Hj'. lia.
Qed.

Lemma lane_work_move g l c w s k : inv g l -> open g c.1 = c :: w -> k <> c.1 -> lane_work (move_to c s g) k = lane_work g k.
Proof.
  intros Hinv Ho Hne. unfold lane_work. cbn [open move_to at_]. destruct (open g k) as [|c' w'] eqn:E; [done|].
  destruct (first_is_not_over _ _ _ _ _ (inv_lane _ _ Hinv k) E) as [Hk _]. rewrite upd_other by congruence. done.
Qed.

Lemma lane_work_next g l c w ok k : inv g l -> open g c.1 = c :: w -> k <> c.1 -> lane_work (next_call c ok w g) k = lane_work g k.
Proof.
  intros Hinv Ho Hne. unfold lane_work. cbn [open next_call at_]. rewrite upd_other by done. destruct (open g k) as [|c' w'] eqn:E; [done|].
  destruct (first_is_not_over _ _ _ _ _ (inv_lane _ _ Hinv k) E) as [Hk _]. destruct w as [|c1 w]; [by rewrite upd_other by congruence|].
  pose proof (ok_key _ _ _ (inv_lane _ _ Hinv c.1)) as Hkey. unfold arrived in Hkey. rewrite Ho in Hkey.
  apply Forall_app in Hkey as [_ Hkey]. apply Forall_cons in Hkey as [_ Hkey]. apply Forall_cons in Hkey as [H1 _].
  rewrite !upd_other by congruence. done.
Qed.

Lemma view_move c s g p :
  view (move_to c s g) p =
    match p with
    | Nothing => Some (Settled true)
    | Next x => if decide (x = c) then next_of s c else view g p
    | Tail x => if decide (x = c) then tail_of s (successor c (open g c.1)) else view g p
    | Body x => if decide (x = c) then body_of s c else view g p
    end.
Proof.
  destruct p as [|x|x|x]; [done| | |]; cbn [view move_to at_ open]; unfold upd; case_decide; by subst.
Qed.

Lemma jobs_after k0 j js new (l : lanes) : jobs l = j :: js -> jobs_in k0 (jobs l) = [j] -> job_key j = Some k0 ->
  Forall (fun j => job_key j = Some k0) new -> forall k, jobs_in k (js ++ new) = if decide (k = k0) then new else jobs_in k (jobs l).
Proof.
  intros E Hone Hj Hnew k. rewrite jobs_in_app. rewrite E, (jobs_in_cons _ _ _ _ Hj), decide_True in Hone by done. injection Hone as Hnone.
  case_decide as Hk; [subst k|].
  - rewrite Hnone. induction Hnew as [|j' new Hj' _ IH]; [done|]. cbn [app] in *. rewrite (jobs_in_cons _ _ _ _ Hj'), decide_True by done. cbn [app]. by rewrite IH.
  - rewrite E, (jobs_in_cons _ _ _ _ Hj), decide_False by done. cbn [app]. replace (jobs_in k new) with (@nil job); [by rewrite app_nil_r|].
    induction Hnew as [|j' new Hj' _ IH]; [done|]. rewrite (jobs_in_cons _ _ _ _ Hj'), decide_False by done. done.
Qed.

(** A job of the call under way that leaves it under way. *)
Lemma tick_moves g l l' c w s s' j js : inv g l -> open g c.1 = c :: w -> at_ g c = Some s -> jobs l = j :: js -> jobs_of s c = [j] ->
  under_way s' = true -> outcome_of s' = outcome_of s -> ticks_left s' < ticks_left s ->
  (forall p, promises l' p = view (move_to c s' g) p) -> jobs l' = js ++ jobs_of s' c -> tails l' = tails l ->
  log l' = log l ++ (if has_begun s then [] else if has_begun s' then [Began c] else []) -> (has_begun s = true -> has_begun s' = true) ->
  inv (move_to c s' g) l' /\ work (move_to c s' g) l' < work g l /\ (forall k, ended k l' = ended k l).
Proof.
  intros Hinv Ho Hs Hj Hjob Hu Hout Hless Hp Hj' Ht Hlog Hb.
  pose proof (ok_open _ _ _ (inv_lane _ _ Hinv c.1)) as Hopen. rewrite Ho in Hopen. destruct Hopen as (s0 & Hs0 & _ & Hw & Hjobs & Hbegun & Hended).
  rewrite Hs in Hs0. injection Hs0 as <-. rewrite Hjob in Hjobs.
  assert (Hkey : job_key j = Some c.1). { pose proof (jobs_of_key s c) as Hk. rewrite Hjob in Hk. by apply Forall_cons in Hk as [Hk _]. }
  pose proof (jobs_after c.1 j js (jobs_of s' c) l Hj Hjobs Hkey (jobs_of_key s' c)) as Hafter.
  assert (Hsame : forall k, ended k l' = ended k l).
  { intros k. unfold ended. rewrite Hlog, omap_app. rewrite <- (app_nil_r (omap _ (log l))) at 2. f_equal. by destruct (has_begun s), (has_begun s'). }
  split_and!; [| |done].
  - eapply inv_move; try done.
    + rewrite Hj'. pose proof (inv_jobs _ _ Hinv) as Hall. rewrite Hj in Hall. apply Forall_cons in Hall as [_ Hall].
      apply Forall_app. split; [done|]. eapply Forall_impl; [apply jobs_of_key|]. intros x Hx. by rewrite Hx.
    + by rewrite Hj'.
    + intros k. unfold begun. rewrite Hlog, omap_app. fold (begun k l). destruct (decide (k = c.1)) as [->|Hne].
      * rewrite Hbegun, <- app_assoc. f_equal. destruct (has_begun s) eqn:E; [by rewrite Hb|]. destruct (has_begun s'); cbn; [by rewrite decide_True|done].
      * rewrite <- (app_nil_r (begun k l)) at 2. f_equal. destruct (has_begun s); [done|]. destruct (has_begun s'); cbn; [by rewrite decide_False|done].
    + intros k. rewrite Hsame. case_decide as E; [subst k; by rewrite Hended, Hout|done].
  - eapply (work_less g _ c.1 j js (jobs_of s' c)); try done.
    + intros k Hk. by apply (lane_work_move g l c w).
    + unfold lane_work. cbn [open move_to at_]. by rewrite Ho, upd_same, Hs.
    + destruct s' as [| |[]|[]| |]; cbn; eauto.
Qed.

Lemma view_next g l c ok w : inv g l -> open g c.1 = c :: w -> at_ g c = Some (Resolved ok) ->
  forall p, view (next_call c ok w g) p = if decide (p = Tail c) then Some (Settled true) else view g p.
Proof.
  intros Hinv Ho Hs p.
  destruct (first_is_not_over _ _ _ _ _ (inv_lane _ _ Hinv c.1) Ho) as (_ & Hcw & _).
  pose proof (ok_open _ _ _ (inv_lane _ _ Hinv c.1)) as Hopen. rewrite Ho in Hopen. destruct Hopen as (_ & _ & _ & Hw & _).
  assert (Hat : forall x, at_ (next_call c ok w g) x = if decide (x = c) then Some (Over ok) else if decide (head w = Some x) then Some Queued else at_ g x).
  { intros x. cbn. destruct w as [|c' w]; cbn; [unfold upd; by case_decide|]. apply not_elem_of_cons in Hcw as [Hcw _].
    unfold upd. repeat case_decide; congruence. }
  assert (Hwait : forall x, head w = Some x -> at_ g x = Some Waiting).
  { intros x Hx. destruct w as [|c' w]; [done|]. injection Hx as ->. by apply Forall_cons in Hw as [Hw _]. }
  destruct p as [|x|x|x]; [done| | |]; unfold view at 1; rewrite Hat.
  - rewrite (decide_False (P := Next x = Tail c)) by done. cbn [view]. case_decide as E; [subst x; by rewrite Hs|]. case_decide as E'; [by rewrite (Hwait _ E')|done].
  - case_decide as E; [subst x; by rewrite decide_True|]. rewrite (decide_False (P := Tail x = Tail c)) by congruence. cbn [view].
    assert (successor x (open (next_call c ok w g) x.1) = successor x (open g x.1)) as ->.
    { cbn [open next_call]. destruct (decide (x.1 = c.1)) as [Ex|Ex]; [|by rewrite upd_other].
      rewrite Ex, upd_same, Ho. cbn. by rewrite (decide_False (P := c = x)) by congruence. }
    case_decide as E'; [by rewrite (Hwait _ E')|done].
  - rewrite (decide_False (P := Body x = Tail c)) by done. cbn [view]. case_decide as E; [subst x; by rewrite Hs|]. case_decide as E'; [by rewrite (Hwait _ E')|done].
Qed.

(** The last job of a call: the lane's next one is queued. *)
Lemma tick_hands_over g l c w ok js : inv g l -> open g c.1 = c :: w -> at_ g c = Some (Resolved ok) ->
  jobs l = React (Then (Some ToUndefined) (Some ToUndefined) (Tail c)) ok :: js ->
  inv (next_call c ok w g) (tick l) /\ work (next_call c ok w g) (tick l) < work g l /\ log (tick l) = log l.
Proof.
  intros Hinv Ho Hs Hj.
  set (l0 := {| promises := promises l; jobs := js; tails := tails l; log := log l |}).
  assert (Htick : tick l = settle (Tail c) true l0) by (unfold tick; rewrite Hj; by destruct ok).
  assert (HT : promises l0 (Tail c) = Some (Pending (option_list (run_after <$> head w)))).
  { cbn. rewrite (inv_promises _ _ Hinv). cbn. rewrite Hs, Ho. cbn. by rewrite decide_True. }
  rewrite (settle_pending _ _ _ _ HT) in Htick.
  set (new := match w with [] => [] | c' :: _ => jobs_of Queued c' end).
  assert (Hnew : map (fun r => React r true) (option_list (run_after <$> head w)) = new) by (by destruct w). rewrite Hnew in Htick.
  pose proof (ok_open _ _ _ (inv_lane _ _ Hinv c.1)) as Hopen. rewrite Ho in Hopen. destruct Hopen as (s0 & Hs0 & _ & Hw & Hjobs & Hbegun & Hended).
  rewrite Hs in Hs0. injection Hs0 as <-.
  assert (Hwk : Forall (fun j => job_key j = Some c.1) new).
  { pose proof (ok_key _ _ _ (inv_lane _ _ Hinv c.1)) as Hkey. unfold arrived in Hkey. rewrite Ho in Hkey. apply Forall_app in Hkey as [_ Hkey].
    apply Forall_cons in Hkey as [_ Hkey]. destruct w as [|c' w]; [constructor|]. apply Forall_cons in Hkey as [Hkey _]. cbn. rewrite <- Hkey.
    repeat constructor. }
  pose proof (jobs_after c.1 _ js new l Hj Hjobs eq_refl Hwk) as Hafter.
  rewrite Htick. split_and!; [| |done].
  - eapply inv_next; try done.
    + intros p. rewrite (view_next g l) by done. cbn. unfold upd. case_decide; [done|]. by rewrite (inv_promises _ _ Hinv).
    + cbn. pose proof (inv_jobs _ _ Hinv) as Hall. rewrite Hj in Hall. apply Forall_cons in Hall as [_ Hall].
      apply Forall_app. split; [done|]. eapply Forall_impl; [exact Hwk|]. intros x Hx. by rewrite Hx.
  - eapply (work_less g _ c.1 _ js new); try done.
    + intros k Hk. by apply (lane_work_next g l).
    + unfold lane_work. cbn [open next_call at_]. rewrite upd_same, Ho, Hs. destruct w as [|c' w]; cbn; [lia|]. rewrite upd_same. cbn. lia.
    + unfold new. destruct w as [|c' w]; [by left|]. right. eexists. split; [done|]. by apply Forall_cons in Hwk as [Hwk _].
Qed.

Ltac same_view Hp Hs :=
  intros p; rewrite view_move; cbn; unfold upd; rewrite Hp; destruct p as [|x|x|x]; cbn; repeat case_decide; try congruence; subst; by rewrite ?Hs.

(** A job of the loop: every call keeps its place, and there is less work left. *)
Lemma tick_keeps g l : inv g l -> jobs l <> [] ->
  exists g', inv g' (tick l) /\ work g' (tick l) < work g l /\ (forall k, arrived g' k = arrived g k) /\ (forall k, ended k (tick l) = ended k l).
Proof.
  intros Hinv Hne. destruct (jobs l) as [|j js] eqn:Hj; [done|]. clear Hne.
  destruct (proj1 (Forall_cons _ _ _) (eq_ind _ _ (inv_jobs _ _ Hinv) _ Hj)) as [[k Hk] _].
  pose proof (ok_open _ _ _ (inv_lane _ _ Hinv k)) as Hopen. rewrite Hj, (jobs_in_cons _ _ _ _ Hk), decide_True in Hopen by done.
  destruct (open g k) as [|c w] eqn:Ho; [by destruct Hopen as [? _]|]. destruct Hopen as (s & Hs & Hu & Hw & Hjobs & _).
  destruct (first_is_not_over _ _ _ _ _ (inv_lane _ _ Hinv k) Ho) as (Hck & _ & _). subst k.
  assert (Hj0 : jobs_of s c = [j]) by (destruct s as [| |[]|[]| |]; cbn in Hjobs |- *; congruence).
  set (l0 := {| promises := promises l; jobs := js; tails := tails l; log := log l |}).
  assert (Htick : tick l = run_job j l0) by (unfold tick; by rewrite Hj).
  pose proof (inv_promises _ _ Hinv) as Hp.
  assert (Hmove : forall s', under_way s' = true -> outcome_of s' = outcome_of s -> ticks_left s' < ticks_left s ->
    (forall p, promises (tick l) p = view (move_to c s' g) p) -> jobs (tick l) = js ++ jobs_of s' c -> tails (tick l) = tails l ->
    log (tick l) = log l ++ (if has_begun s then [] else if has_begun s' then [Began c] else []) -> (has_begun s = true -> has_begun s' = true) ->
    exists g', inv g' (tick l) /\ work g' (tick l) < work g l /\ (forall k, arrived g' k = arrived g k) /\ (forall k, ended k (tick l) = ended k l)).
  { intros s' H1 H2 H3 H4 H5 H6 H7 H8. exists (move_to c s' g).
    destruct (tick_moves g l (tick l) c w s s' j js Hinv Ho Hs Hj Hj0 H1 H2 H3 H4 H5 H6 H7 H8) as (? & ? & ?). by split_and!. }
  destruct s as [| |o|[ok|]|ok|]; try done; injection Hj0 as <-.
  - apply (Hmove (Started None)); try done; rewrite ?Htick; try done; [cbn; lia|same_view Hp Hs].
  - cbn in Htick. destruct o as [ok|].
    + rewrite (react_settled _ _ ok) in Htick by (cbn; rewrite Hp; cbn; by rewrite Hs).
      apply (Hmove (Adopted (Some ok))); try done; rewrite ?Htick; try done; [cbn; lia|same_view Hp Hs|by rewrite app_nil_r].
    + rewrite (react_pending _ _ []) in Htick by (cbn; rewrite Hp; cbn; by rewrite Hs).
      apply (Hmove (Adopted None)); try done; rewrite ?Htick; try done; [cbn; lia|same_view Hp Hs|by rewrite app_nil_r..].
  - assert (Hrun : tick l = settle (Next c) ok l0) by (rewrite Htick; by destruct ok).
    rewrite (settle_pending _ _ [Then (Some ToUndefined) (Some ToUndefined) (Tail c)]) in Hrun by (cbn; rewrite Hp; cbn; by rewrite Hs).
    apply (Hmove (Resolved ok)); try done; rewrite ?Hrun; try done; [cbn; lia|same_view Hp Hs|by rewrite app_nil_r].
  - destruct (tick_hands_over g l c w ok js Hinv Ho Hs Hj) as (Hinv' & Hwork & Hlog). exists (next_call c ok w g). split_and!; try done.
    + intros k. unfold arrived. cbn [over open next_call]. destruct (decide (k = c.1)) as [->|Hkc]; [|by rewrite !upd_other].
      by rewrite !upd_same, Ho, fmap_app, <- app_assoc.
    + intros k. unfold ended. by rewrite Hlog.
Qed.

(** A body under way is that of its lane's first call. *)
Lemma body_first g l c rs : inv g l -> promises l (Body c) = Some (Pending rs) ->
  (exists w, open g c.1 = c :: w) /\ (at_ g c = Some (Started None) /\ rs = [] \/ at_ g c = Some (Adopted None) /\ rs = [Then None None (Next c)]).
Proof.
  intros Hinv Hb. rewrite (inv_promises _ _ Hinv) in Hb. cbn in Hb. destruct (at_ g c) as [s|] eqn:Hs; [|done].
  assert (Hs' : s = Started None /\ rs = [] \/ s = Adopted None /\ rs = [Then None None (Next c)]) by (destruct s as [| |[]|[]| |]; naive_solver).
  split; [|destruct Hs' as [[-> ->]|[-> ->]]; eauto].
  assert (Hin : c ∈ arrived g c.1) by (apply (inv_known _ _ Hinv); by rewrite Hs).
  destruct (inv_lane _ _ Hinv c.1) as [_ _ Ho Hopen _]. apply elem_of_app in Hin as [Hin|Hin].
  - apply list_elem_of_fmap in Hin as (x & -> & Hx). rewrite Forall_forall in Ho. rewrite (Ho x Hx) in Hs. naive_solver.
  - destruct (open g c.1) as [|c0 w]; [by apply not_elem_of_nil in Hin|]. exists w. destruct Hopen as (_ & _ & _ & Hw & _).
    apply elem_of_cons in Hin as [->|Hin]; [done|]. rewrite Forall_forall in Hw. rewrite (Hw c Hin) in Hs. naive_solver.
Qed.

Lemma body_moves g l l' c w s s' ok : inv g l -> open g c.1 = c :: w -> at_ g c = Some s -> jobs_of s c = [] \/ jobs_of s' c = jobs_of s c ->
  has_begun s = true -> has_begun s' = true -> under_way s' = true -> outcome_of s = None -> outcome_of s' = Some ok ->
  (forall p, promises l' p = view (move_to c s' g) p) ->
  jobs l' = jobs l ++ (if jobs_of s c then jobs_of s' c else []) -> tails l' = tails l -> log l' = log l ++ [Ended c ok] ->
  inv (move_to c s' g) l'.
Proof.
  intros Hinv Ho Hs Hjs Hb Hb' Hu Hout Hout' Hp Hj' Ht Hlog.
  pose proof (ok_open _ _ _ (inv_lane _ _ Hinv c.1)) as Hopen. rewrite Ho in Hopen. destruct Hopen as (s0 & Hs0 & _ & Hw & Hjobs & Hbegun & Hended).
  rewrite Hs in Hs0. injection Hs0 as <-. rewrite Hb in Hbegun. rewrite Hout in Hended.
  assert (Hnew : Forall (fun j => job_key j = Some c.1) (if jobs_of s c then jobs_of s' c else [])) by (destruct (jobs_of s c); [apply jobs_of_key|constructor]).
  eapply inv_move; try done.
  - rewrite Hj'. apply Forall_app. split; [apply (inv_jobs _ _ Hinv)|]. eapply Forall_impl; [exact Hnew|]. intros x Hx. by rewrite Hx.
  - intros k. rewrite Hj', jobs_in_app. case_decide as Hk; [subst k; rewrite Hjobs|].
    + destruct (jobs_of s c) as [|x xs]; [|destruct Hjs as [Hjs|Hjs]; [done|by rewrite Hjs, app_nil_r]].
      pose proof (jobs_of_key s' c) as H. clear -H. cbn [app]. induction H as [|x xs Hx _ IH]; [done|].
      rewrite (jobs_in_cons _ _ _ _ Hx), decide_True by done. cbn [app]. by rewrite IH.
    + rewrite <- (app_nil_r (jobs_in k (jobs l))) at 2. f_equal. clear -Hnew Hk. induction Hnew as [|x xs Hx _ IH]; [done|].
      by rewrite (jobs_in_cons _ _ _ _ Hx), decide_False.
  - intros k. unfold begun. rewrite Hlog, omap_app. cbn. rewrite app_nil_r. fold (begun k l). rewrite Hb'. case_decide as Hk; [by subst k|done].
  - intros k. unfold ended. rewrite Hlog, omap_app. fold (ended k l). rewrite Hout'. cbn. destruct (decide (k = c.1)) as [->|Hk].
    + by rewrite decide_True, Hended, app_nil_r by done.
    + by rewrite decide_False, app_nil_r by done.
Qed.

Lemma body_keeps g l c ok rs : inv g l -> promises l (Body c) = Some (Pending rs) ->
  exists g', inv g' (body_ends c ok l) /\ forall k, arrived g' k = arrived g k.
Proof.
  intros Hinv Hb. destruct (body_first _ _ _ _ Hinv Hb) as [[w Ho] Hs]. pose proof (inv_promises _ _ Hinv) as Hp.
  assert (Hrun : body_ends c ok l = enqueue (map (fun r => React r ok) rs) (set_promise (Body c) (Settled ok) (note (Ended c ok) l)))
    by (by apply settle_pending).
  destruct Hs as [[Hs ->]|[Hs ->]].
  - exists (move_to c (Started (Some ok)) g). split; [|done].
    apply (body_moves g l _ c w (Started None) (Started (Some ok)) ok); try done; [by right|rewrite Hrun; same_view Hp Hs|by rewrite Hrun..].
  - exists (move_to c (Adopted (Some ok)) g). split; [|done].
    apply (body_moves g l _ c w (Adopted None) (Adopted (Some ok)) ok); try done; [by left|rewrite Hrun; same_view Hp Hs|by rewrite Hrun..].
Qed.

(** ** What the lanes promise *)

Lemma inv_empty : inv {| over := fun _ => []; open := fun _ => []; at_ := fun _ => None |} no_lanes.
Proof. split; [by intros []|by intros c [? ?]|constructor|]. intros k. split; try done; constructor. Qed.

Lemma inv_steps g l es l' : inv g l -> steps l es l' -> exists g', inv g' l' /\ forall k, arrived g' k = arrived g k ++ calls k es.
Proof.
  intros Hinv Hs. revert g Hinv. induction Hs as [l|l e l1 es l2 Hs _ IH]; intros g Hinv.
  { exists g. split; [done|]. intros k. by rewrite app_nil_r. }
  assert (exists g1, inv g1 l1 /\ forall k, arrived g1 k = arrived g k ++ calls k [e]) as (g1 & Hinv1 & Harr1).
  { destruct Hs as [l k n Hf|l|l c ok rs Hb].
    - exists (arrive k n g). split; [by apply inv_arrive|]. intros k'. unfold arrived. cbn. unfold upd. repeat case_decide; subst; try done.
      + by rewrite app_assoc.
      + by rewrite app_nil_r.
    - destruct (decide (jobs l = [])) as [E|E].
      + exists g. unfold tick. rewrite E. split; [done|]. intros k. by rewrite app_nil_r.
      + destruct (tick_keeps g l Hinv E) as (g1 & ? & _ & Ha & _). exists g1. split; [done|]. intros k. by rewrite Ha, app_nil_r.
    - destruct (body_keeps g l c ok rs Hinv Hb) as (g1 & ? & Ha). exists g1. split; [done|]. intros k. by rewrite Ha, app_nil_r. }
  destruct (IH g1 Hinv1) as (g2 & Hinv2 & Harr2). exists g2. split; [done|]. intros k. rewrite Harr2, Harr1, <- app_assoc. f_equal.
  unfold calls. by rewrite <- omap_app.
Qed.

(** One body of a lane at a time, in order of arrival. *)
Lemma one_at_a_time g k l : inv g l ->
  (exists r, begun k l = (ended k l).*1 ++ r /\ length r <= 1) /\ begun k l `prefix_of` arrived g k.
Proof.
  intros Hinv. pose proof (ok_open _ _ _ (inv_lane _ _ Hinv k)) as Hopen. unfold arrived. destruct (open g k) as [|c w].
  - destruct Hopen as (_ & -> & ->). split; [exists []; by rewrite app_nil_r; split; [|cbn; lia]|by exists []].
  - destruct Hopen as (s & _ & _ & _ & _ & -> & ->). rewrite fmap_app. split.
    + destruct s as [| |[]|[]| |]; cbn; [exists []|exists []|exists []|exists [c]|exists []|exists [c]|exists []|exists []]; rewrite ?app_nil_r; by split; [|cbn; lia].
    + exists (if has_begun s then w else c :: w). destruct (has_begun s); by rewrite <- app_assoc.
Qed.

Lemma settled_as_its_body g c ok l : inv g l -> promises l (Next c) = Some (Settled ok) -> (c, ok) ∈ ended c.1 l.
Proof.
  intros Hinv Hn. rewrite (inv_promises _ _ Hinv) in Hn. cbn in Hn. destruct (at_ g c) as [s|] eqn:Hs; [|done].
  assert (Ho : outcome_of s = Some ok) by (destruct s; cbn in *; congruence).
  assert (Hin : c ∈ arrived g c.1) by (apply (inv_known _ _ Hinv); by rewrite Hs).
  destruct (inv_lane _ _ Hinv c.1) as [_ _ Hov Hopen _]. apply elem_of_app in Hin as [Hin|Hin].
  - apply list_elem_of_fmap in Hin as ([c' ok'] & E & Hx). cbn in E. subst c'. rewrite Forall_forall in Hov. pose proof (Hov _ Hx) as Hsx.
    cbn in Hsx. rewrite Hs in Hsx. injection Hsx as ->. injection Ho as ->. destruct (open g c.1); [by destruct Hopen as (_ & _ & ->)|].
    destruct Hopen as (s0 & _ & _ & _ & _ & _ & ->). apply elem_of_app. by left.
  - destruct (open g c.1) as [|c0 w]; [by apply not_elem_of_nil in Hin|]. destruct Hopen as (s0 & Hs0 & _ & Hw & _ & _ & ->).
    apply elem_of_cons in Hin as [->|Hin].
    + rewrite Hs in Hs0. injection Hs0 as <-. rewrite Ho. apply elem_of_app. right. cbn. by left.
    + rewrite Forall_forall in Hw. rewrite (Hw c Hin) in Hs. by injection Hs as <-.
Qed.

(** With no job left a lane waits for a body under way, or for nothing. *)
Lemma quiet_lane g k l : inv g l -> jobs l = [] ->
  ((exists c, begun k l = (ended k l).*1 ++ [c]) \/ (ended k l).*1 = arrived g k) /\
  forall c ok, (c, ok) ∈ ended k l -> promises l (Next c) = Some (Settled ok).
Proof.
  intros Hinv Hj. pose proof (inv_lane _ _ Hinv k) as [_ _ Hov Hopen _].
  assert (Hover : forall x, x ∈ over g k -> promises l (Next x.1) = Some (Settled x.2)).
  { intros x Hx. rewrite (inv_promises _ _ Hinv). cbn. rewrite Forall_forall in Hov. by rewrite (Hov x Hx). }
  unfold arrived. rewrite Hj in Hopen. destruct (open g k) as [|c w].
  - destruct Hopen as (_ & _ & ->). rewrite app_nil_r. split; [by right|]. intros c ok Hc. by apply (Hover (c, ok)).
  - destruct Hopen as (s & _ & Hu & _ & Hjobs & -> & ->). destruct s as [| |o|[ok|]| |]; try done. cbn [outcome_of has_begun].
    cbn. rewrite app_nil_r. split; [left; by exists c|]. intros c' ok Hc. by apply (Hover (c', ok)).
Qed.

Lemma drains n : forall g l, inv g l -> work g l <= n ->
  exists m g', m <= n /\ jobs (Nat.iter m tick l) = [] /\ inv g' (Nat.iter m tick l) /\
    (forall k, arrived g' k = arrived g k) /\ (forall k, ended k (Nat.iter m tick l) = ended k l).
Proof.
  induction n as [|n IH]; intros g l Hinv Hw; (destruct (decide (jobs l = [])) as [E|E]; [by exists 0, g; split_and!; [lia|..]|]);
    destruct (tick_keeps g l Hinv E) as (g1 & Hinv1 & Hless & Harr & He); [lia|].
  destruct (IH g1 (tick l) Hinv1) as (m & g' & Hm & Hj & Hinv' & Harr' & He'); [lia|]. exists (S m), g'.
  rewrite Nat.iter_succ_r. split_and!; [lia|done|done| |]; intros k; [by rewrite Harr', Harr|by rewrite He', He].
Qed.

Lemma work_bound g l : work g l <= 5 * length (jobs l).
Proof.
  unfold work. induction (jobs l) as [|j js IH]; cbn [map sum_list_with length]; [lia|]. unfold id at 1.
  assert (job_work g j <= 5); [|lia]. unfold job_work, lane_work. destruct (job_key j) as [k|]; [|lia]. destruct (open g k) as [|c w]; [lia|].
  destruct (at_ g c) as [[| |[]|[]| |]|]; cbn; lia.
Qed.

(** C39: write lanes run the bodies of one key one at a time, in the order of the calls: whatever
    happens, and however the bodies end, the bodies that began are the first calls in order and
    all of them but at most the last have ended. A call's promise settles only as its body did.
    The jobs are soon done, five each at most, without any body having to end; then every body that ended has
    settled its call's promise, and either a body of the lane is under way or all its calls have
    ended: a body that fails does not stop its lane. *)
Theorem lanes_fifo k es l :
  steps no_lanes es l ->
  (exists r, begun k l = (ended k l).*1 ++ r /\ length r <= 1) /\ begun k l `prefix_of` calls k es /\
  (forall c ok, promises l (Next c) = Some (Settled ok) -> (c, ok) ∈ ended c.1 l) /\
  exists m, m <= 5 * length (jobs l) /\ let l' := Nat.iter m tick l in
    jobs l' = [] /\ ended k l' = ended k l /\
    ((exists c, begun k l' = (ended k l').*1 ++ [c]) \/ (ended k l').*1 = calls k es) /\
    (forall c ok, (c, ok) ∈ ended k l' -> promises l' (Next c) = Some (Settled ok)).
Proof.
  intros Hs. destruct (inv_steps _ _ _ _ inv_empty Hs) as (g & Hinv & Harr). specialize (Harr k). cbn in Harr.
  destruct (one_at_a_time g k l Hinv) as [H1 H2]. rewrite Harr in H2.
  destruct (drains _ g l Hinv (work_bound g l)) as (m & g' & Hm & Hj & Hinv' & Harr' & He).
  destruct (quiet_lane g' k _ Hinv' Hj) as [H3 H4]. rewrite Harr', Harr in H3.
  split_and!; [done|done|by intros c ok; apply (settled_as_its_body g)|]. exists m. split; [lia|]. by split_and!.
Qed.

(** Two calls of a lane; the first body fails while the other lane's runs, and the second begins. *)
Definition two_calls : list event :=
  [Call (js "a") 1; Call (js "a") 2; Call (js "b") 1; Tick; Tick; Tick; Tick; BodyEnds (js "a", 1) false; Tick; Tick; Tick].

Definition after_event (l : lanes) (e : event) : lanes :=
  match e with Call k n => runInLane k n l | Tick => tick l | BodyEnds c ok => body_ends c ok l end.
Definition after_two_calls : lanes := foldl after_event no_lanes two_calls.

(** Whether each event can happen when it does. *)
Fixpoint possible (l : lanes) (es : list event) : bool :=
  match es with
  | [] => true
  | e :: es => match e with
               | Call k n => match promises l (Next (k, n)) with None => true | _ => false end
               | Tick => true
               | BodyEnds c ok => match promises l (Body c) with Some (Pending _) => true | _ => false end
               end && possible (after_event l e) es
  end.

Lemma possible_steps es : forall l, possible l es = true -> steps l es (foldl after_event l es).
Proof.
  induction es as [|e es IH]; intros l H; [constructor|]. cbn in H. apply andb_true_iff in H as [H1 H2].
  apply (steps_cons l e (after_event l e)); [|by apply IH]. destruct e as [k n| |c ok]; cbn in *; [|constructor|].
  - constructor. by destruct (promises l (Next (k, n))).
  - destruct (promises l (Body c)) as [[rs|]|] eqn:E; [|done..]. by apply (step_body _ _ _ rs).
Qed.

Example lanes_fifo_witness :
  (begun (js "a") after_two_calls = [(js "a", 1); (js "a", 2)] /\ ended (js "a") after_two_calls = [((js "a", 1), false)]) /\
  begun (js "a") after_two_calls `prefix_of` calls (js "a") two_calls /\
  exists m, m <= 5 * length (jobs after_two_calls) /\ jobs (Nat.iter m tick after_two_calls) = [].
Proof.
  split; [split; vm_compute; reflexivity|].
  destruct (lanes_fifo (js "a") two_calls after_two_calls) as (_ & H2 & _ & m & Hm & Hj & _).
  { apply possible_steps. vm_compute. reflexivity. }
  split; [exact H2|exists m; split; [exact Hm|exact Hj]].
Defined.

End Lanes.
