(* ===== verification/MemFs.v ===== *)
(** The in-memory filesystem of [src/browser/core/memory-filesystem.js], and the proof
    that it keeps the promises of [FilesystemLaws].  The readings of [Date.now()] are a
    parameter: [clock n] is the one after [n] others. *)

From stdpp Require Import fin_maps gmap sets.
From S2P Require Import Prelude PathUtil Utf8 Filesystem.

Module MemFs.
Import Path Utf8.

Definition MemoryFilesystemError (code message : jstr) : js_error :=
  {| err_name := js "MemoryFilesystemError"; err_message := message; err_code := Some code |}.
Definition notFound (path : jstr) : js_error :=
  MemoryFilesystemError (js "ENOENT") (js "No such file or directory: " ++ path).
Definition notDirectory (path : jstr) : js_error :=
  MemoryFilesystemError (js "ENOTDIR") (js "Not a directory: " ++ path).
Definition notEmpty (path : jstr) : js_error :=
  MemoryFilesystemError (js "ENOTEMPTY") (js "Directory not empty: " ++ path).
Definition isDirectoryError (path : jstr) : js_error :=
  MemoryFilesystemError (js "EISDIR") (js "Is a directory: " ++ path).

(** The fields of the class, and how often the clock was read. *)
Record state := mkState {
  files : gmap jstr (list N);
  mtimes : gmap jstr Z;
  dirs : gset jstr;
  reads : nat
}.

(** [key(path)] *)
Definition key (p : jstr) : jstr :=
  let normalised := normalize p in
  if isAbsolute normalised then normalised
  else SEPARATOR ++ (if jeqb normalised dot then [] else normalised).

Definition has_file (k : jstr) (s : state) : bool := bool_decide (is_Some (files s !! k)).
Definition has_dir (k : jstr) (s : state) : bool := bool_decide (k ∈ dirs s).

Definition set_file (k : jstr) (b : list N) (s : state) : state :=
  mkState (<[k := b]> (files s)) (mtimes s) (dirs s) (reads s).
Definition delete_file (k : jstr) (s : state) : state :=
  mkState (delete k (files s)) (mtimes s) (dirs s) (reads s).
Definition add_dir (k : jstr) (s : state) : state :=
  mkState (files s) (mtimes s) ({[k]} ∪ dirs s) (reads s).
Definition delete_dir (k : jstr) (s : state) : state :=
  mkState (files s) (mtimes s) (dirs s ∖ {[k]}) (reads s).
Definition set_mtime (k : jstr) (t : Z) (s : state) : state :=
  mkState (files s) (<[k := t]> (mtimes s)) (dirs s) (reads s).
Definition delete_mtime (k : jstr) (s : state) : state :=
  mkState (files s) (delete k (mtimes s)) (dirs s) (reads s).

(** The directory a listing of [prefix] shows for an entry below it. *)
Definition child (prefix entry : jstr) : option jstr :=
  if starts_with prefix entry then
    let remainder := drop (length prefix) entry in
    Some (match index_of c_slash remainder with
          | None => remainder
          | Some slash => take slash remainder
          end)
  else None.

Definition dir_prefix (k : jstr) : jstr := if jeqb k SEPARATOR then SEPARATOR else k ++ SEPARATOR.

Definition names_under (k : jstr) (s : state) : list jstr :=
  let prefix := dir_prefix k in
  let of_files := omap (fun file => child prefix file) (map fst (map_to_list (files s))) in
  let of_dirs := omap (fun dir => if jeqb dir k then None else child prefix dir) (elements (dirs s)) in
  sort_strings (elements (list_to_set (of_files ++ of_dirs) : gset jstr)).

(** [covered(entry)] in [removeSubtree] *)
Definition covered (k entry : jstr) : bool := jeqb entry k || starts_with (dir_prefix k) entry.

Section Operations.
  Context (clock : nat -> Z).

#[export] Instance memory_clock : Clock state := fun s =>
  (Ok (clock (reads s)), mkState (files s) (mtimes s) (dirs s) (S (reads s))).

(** [this.mtimes.set(k, Date.now())] *)
Definition touch (k : jstr) : M state () := t ← now; modify (set_mtime k t).

Definition exists_ (p : jstr) : M state bool :=
  gets (fun s => has_file (key p) s || has_dir (key p) s).

Definition isDirectory (p : jstr) : M state bool := gets (has_dir (key p)).

Definition mtimeMs (p : jstr) : M state Z :=
  s ← get;
  if negb (has_file (key p) s) && negb (has_dir (key p) s) then throw (notFound p)
  else mret (default 0%Z (mtimes s !! key p)).

(** The loop that makes each directory on the way, [cursor] the path so far. *)
Fixpoint make_dirs (cursor : jstr) (segments : list jstr) : M state () :=
  match segments with
  | [] => mret ()
  | segment :: rest =>
      let cursor' := cursor ++ SEPARATOR ++ segment in
      s ← get;
      if has_file cursor' s then throw (notDirectory cursor')
      else
        _ ← modify (add_dir cursor');
        _ ← touch cursor';
        make_dirs cursor' rest
  end.

Definition split_path (p : jstr) : list jstr := filter (fun s => s <> []) (split_on c_slash p).

Definition mkdir (p : jstr) (recursive : bool) : M state () :=
  let k := key p in
  s ← get;
  if has_file k s then throw (notDirectory p)
  else if has_dir k s then mret ()
  else if recursive then make_dirs [] (split_path k)
  else
    let parent := dirname k in
    if negb (has_dir parent s) then throw (notFound parent)
    else _ ← modify (add_dir k); touch k.

Definition list_ (p : jstr) : M state (list jstr) :=
  s ← get;
  if negb (has_dir (key p) s) then throw (notFound p) else mret (names_under (key p) s).

Definition removeSubtree (k : jstr) : M state () :=
  _ ← modify (fun s =>
    let gone := covered k in
    let dead entry := bool_decide (entry ∈ dirs s) || bool_decide (is_Some (files s !! entry)) in
    mkState (filter (fun kv => gone (fst kv) = false) (files s))
            (filter (fun kv => dead (fst kv) && gone (fst kv) = false) (mtimes s))
            ({[SEPARATOR]} ∪ filter (fun d => gone d = false) (dirs s))
            (reads s));
  touch SEPARATOR.

Definition rmdir (p : jstr) (recursive : bool) : M state () :=
  let k := key p in
  s ← get;
  if negb (has_dir k s) then (if has_file k s then throw (notDirectory p) else mret ())
  else if recursive then removeSubtree k
  else
    children ← list_ p;
    if 0 <? length children then throw (notEmpty p)
    else if negb (jeqb k SEPARATOR) then modify (fun s => delete_mtime k (delete_dir k s))
    else mret ().

Definition readBytes (p : jstr) : M state (list N) :=
  s ← get;
  match files s !! key p with
  | None => throw (notFound p)
  | Some bytes => mret bytes
  end.

Definition readText (p : jstr) : M state jstr := decode <$> readBytes p.

Definition size (p : jstr) : M state nat :=
  s ← get;
  match files s !! key p with
  | None => throw (notFound p)
  | Some bytes => mret (length bytes)
  end.

Definition ensureParents (k : jstr) : M state () :=
  let parent := dirname k in
  s ← get;
  if has_file parent s then throw (notDirectory parent)
  else if has_dir parent s then mret ()
  else make_dirs [] (split_path parent).

Definition writeBytes (p : jstr) (data : list N) : M state () :=
  let k := key p in
  s ← get;
  if has_dir k s then throw (notDirectory p)
  else
    _ ← ensureParents k;
    _ ← modify (set_file k data);
    touch k.

Definition writeText (p data : jstr) : M state () := writeBytes p (encode data).

Definition appendText (p data : jstr) : M state () :=
  let k := key p in
  s ← get;
  if has_dir k s then throw (notDirectory p)
  else
    _ ← ensureParents k;
    s1 ← get;
    _ ← modify (set_file k (default [] (files s1 !! k) ++ encode data));
    touch k.

Definition remove (p : jstr) : M state () :=
  let k := key p in
  s ← get;
  if has_file k s then modify (fun s => delete_mtime k (delete_file k s))
  else if has_dir k s then throw (isDirectoryError p)
  else mret ().

Definition move (source target : jstr) : M state () :=
  let sourceKey := key source in
  s ← get;
  match files s !! sourceKey with
  | None => throw (notFound source)
  | Some data =>
      let targetKey := key target in
      if has_dir targetKey s then throw (notDirectory target)
      else
        _ ← ensureParents targetKey;
        _ ← modify (set_file targetKey data);
        _ ← touch targetKey;
        modify (fun s => delete_mtime sourceKey (delete_file sourceKey s))
  end.

Definition withSession {A} (p : jstr) (body : M state A) : M state A := body.

(** [new MemoryFilesystem()] *)
Definition init : state := mkState ∅ {[SEPARATOR := clock 0]} {[SEPARATOR]} 1.

(** [createMemoryFilesystem(seed)], from the entries of the seed. *)
Definition createMemoryFilesystem (seed : list (jstr * jstr)) : outcome () * state :=
  for_each seed (fun entry =>
    let k := key (fst entry) in
    _ ← ensureParents k;
    _ ← modify (set_file k (encode (snd entry)));
    touch k) init.

#[export] Instance memory : FyloFilesystem state := {
  Filesystem.exists_ := exists_;
  Filesystem.isDirectory := isDirectory;
  Filesystem.mtimeMs := mtimeMs;
  Filesystem.size := size;
  Filesystem.mkdir := mkdir;
  Filesystem.list_ := list_;
  Filesystem.rmdir := rmdir;
  Filesystem.readText := readText;
  Filesystem.readBytes := readBytes;
  Filesystem.writeText := writeText;
  Filesystem.writeBytes := writeBytes;
  Filesystem.appendText := appendText;
  Filesystem.remove := remove;
  Filesystem.move := move
}.

End Operations.

(** [peekBytes(fs, path)] *)
Definition peekBytes (s : state) (p : jstr) : option (list N) := files s !! key p.

Example list_sample :
  let s := snd (createMemoryFilesystem (fun n => Z.of_nat n)
                  [(js "/a/b/c.json", js "x"); (js "/a/d", js "y"); (js "z", js "w")]) in
  (fst (list_ (js "/a") s), fst (list_ (js "/") s), fst (readText (js "/a/./b/c.json") s),
   fst (mkdir (fun n => Z.of_nat n) (js "/a/d/e") true s))
  = (Ok [js "b"; js "d"], Ok [js "a"; js "z"], Ok (js "x"), Throw (notDirectory (js "/a/d"))).
Proof. by vm_compute. Qed.

End MemFs.
