(* ===== verification/MemFsLaws.v ===== *)
(** The invariant of the in-memory filesystem and the proof that it keeps the promises
    of [FilesystemLaws]. *)

From stdpp Require Import fin_maps gmap sets.
From S2P Require Import Prelude PathUtil Utf8 Filesystem MemFs.

Module MemFsLaws.
Import Path Utf8 MemFs.

(** ** Keys *)

Lemma abs_path_nil : abs_path [] = SEPARATOR.
Proof. done. Qed.

Lemma abs_path_snoc p x : p <> [] -> abs_path (p ++ [x]) = abs_path p ++ SEPARATOR ++ x.
Proof.
  intros Hp. unfold abs_path. rewrite <- app_assoc. f_equal.
  induction p as [|a p IH]; [done|]. destruct p as [|b p]; [done|].
  change (join_with SEPARATOR ((a :: b :: p) ++ [x]))
    with (a ++ SEPARATOR ++ join_with SEPARATOR ((b :: p) ++ [x])).
  rewrite IH by done. cbn [join_with]. by rewrite <- !app_assoc.
Qed.

(** The loop variable of the directory loops: empty at the root. *)
Definition cursor (p : path) : jstr := match p with [] => [] | _ => abs_path p end.

Lemma cursor_snoc p x : cursor p ++ SEPARATOR ++ x = abs_path (p ++ [x]).
Proof. destruct p as [|a p]; [done|]. by rewrite abs_path_snoc. Qed.

Lemma key_absolute p : isAbsolute p = true -> key p = abs_path (normalized_segments p).
Proof.
  intros H. unfold key. rewrite normalize_isAbsolute, H. by apply normalize_absolute.
Qed.

Lemma key_abs_path p : Forall clean p -> key (abs_path p) = abs_path p.
Proof.
  intros H. rewrite key_absolute by apply isAbsolute_abs_path. by rewrite normalized_abs_path.
Qed.

Lemma split_path_abs p : Forall clean p -> split_path (abs_path p) = p.
Proof.
  intros H. unfold split_path. rewrite <- (normalize_abs_path p) at 1 by done.
  by apply segments_abs_path.
Qed.

Lemma dirname_abs p x : Forall clean (p ++ [x]) -> dirname (abs_path (p ++ [x])) = abs_path p.
Proof.
  intros H. unfold dirname. rewrite normalize_abs_path by done.
  assert (Forall clean p /\ clean x) as [Hp Hx] by (by rewrite Forall_app, Forall_singleton in H).
  assert (abs_path (p ++ [x]) <> SEPARATOR) as Hne.
  { intros E. rewrite <- abs_path_nil in E. apply abs_path_inj in E; [|done|constructor].
    by destruct p. }
  rewrite bool_decide_false by done.
  destruct Hx as (Hxne & _ & _ & Hxs).
  destruct (decide (p = [])) as [->|Hpne].
  - unfold abs_path. cbn [app join_with SEPARATOR]. cbn [last_index_of].
    apply last_index_of_none in Hxs. by rewrite Hxs, N.eqb_refl.
  - rewrite abs_path_snoc by done. cbn [SEPARATOR app]. rewrite last_index_of_app by done.
    assert (length (abs_path p) <> 0) as Hl by (unfold abs_path; rewrite length_app; cbn; lia).
    destruct (length (abs_path p)) as [|n] eqn:E; [done|]. rewrite <- E. by apply take_app_length.
Qed.

(** ** The invariant *)

Record wf (s : state) : Prop := {
  wf_root : SEPARATOR ∈ dirs s;
  wf_disjoint k : k ∈ dirs s -> files s !! k = None;
  wf_keys k : k ∈ dirs s \/ is_Some (files s !! k) -> exists p, Forall clean p /\ k = abs_path p;
  wf_parent p x : Forall clean (p ++ [x]) ->
    abs_path (p ++ [x]) ∈ dirs s \/ is_Some (files s !! abs_path (p ++ [x])) -> abs_path p ∈ dirs s;
  wf_mtimes k : is_Some (mtimes s !! k) <-> k ∈ dirs s \/ is_Some (files s !! k)
}.

Definition look (s : state) (p : path) : option node :=
  match files s !! abs_path p with
  | Some b => Some (File b)
  | None => if bool_decide (abs_path p ∈ dirs s) then Some Dir else None
  end.

Lemma look_file s p b : look s p = Some (File b) <-> files s !! abs_path p = Some b.
Proof.
  unfold look. destruct (files s !! abs_path p) as [b'|]; [split; congruence|].
  case_bool_decide; done.
Qed.

Lemma look_dir s p : wf s -> look s p = Some Dir <-> abs_path p ∈ dirs s.
Proof.
  intros Hw. unfold look. destruct (files s !! abs_path p) as [b|] eqn:E.
  - split; [done|]. intros Hd. by rewrite (wf_disjoint s Hw _ Hd) in E.
  - case_bool_decide; done.
Qed.

Lemma look_some s p : is_Some (look s p) <-> abs_path p ∈ dirs s \/ is_Some (files s !! abs_path p).
Proof.
  unfold look. destruct (files s !! abs_path p) as [b|] eqn:E.
  - split; [by right; eexists|by eexists].
  - case_bool_decide; split; [by left|by eexists| |].
    + intros [? ?]; done.
    + intros [?|[? ?]]; done.
Qed.

Lemma is_file_look s p : is_file (look s p) = has_file (abs_path p) s.
Proof.
  unfold look, has_file. destruct (files s !! abs_path p) as [b|]; cbn.
  - done.
  - by case_bool_decide.
Qed.

(** Everything above a present node is a directory. *)
Lemma wf_above s p q :
  wf s -> Forall clean q -> p `prefix_of` q -> p <> q -> is_Some (look s q) -> abs_path p ∈ dirs s.
Proof.
  intros Hw Hq [r ->] Hne Hs. revert Hq Hne Hs. induction r as [|x r IH] using rev_ind; intros Hq Hne Hs.
  { by rewrite app_nil_r in Hne. }
  rewrite app_assoc in Hq, Hs. assert (abs_path (p ++ r) ∈ dirs s) as Hd.
  { by apply (wf_parent s Hw _ x), look_some. }
  destruct r as [|y r]; [by rewrite app_nil_r in Hd|].
  apply Forall_app in Hq as [Hq _]. apply IH; [done| |].
  - by intros E%app_not_self.
  - apply look_some. by left.
Qed.

(** ** One change at a time *)

Lemma wf_add_dir s p x t n :
  wf s -> Forall clean (p ++ [x]) -> abs_path p ∈ dirs s -> files s !! abs_path (p ++ [x]) = None ->
  wf (mkState (files s) (<[abs_path (p ++ [x]) := t]> (mtimes s)) ({[abs_path (p ++ [x])]} ∪ dirs s) n).
Proof.
  intros Hw Hc Hp Hf. constructor; cbn.
  - pose proof (wf_root s Hw). set_solver.
  - intros k [->%elem_of_singleton|Hk]%elem_of_union; [done|by apply Hw].
  - intros k [[->%elem_of_singleton|Hk]%elem_of_union|Hk]; [by exists (p ++ [x])| |];
      apply (wf_keys s Hw); auto.
  - intros q y Hq Hin. apply elem_of_union_r.
    destruct Hin as [[E%elem_of_singleton|Hin]%elem_of_union|Hin];
      [|by apply (wf_parent s Hw q y); auto..].
    by apply abs_path_inj, app_inj_tail in E as [-> ->].
  - intros k. rewrite lookup_insert_is_Some', (wf_mtimes s Hw). set_solver.
Qed.

Lemma wf_set_file s p x b t n :
  wf s -> Forall clean (p ++ [x]) -> abs_path p ∈ dirs s -> abs_path (p ++ [x]) ∉ dirs s ->
  wf (mkState (<[abs_path (p ++ [x]) := b]> (files s)) (<[abs_path (p ++ [x]) := t]> (mtimes s)) (dirs s) n).
Proof.
  intros Hw Hc Hp Hd. constructor; cbn.
  - apply Hw.
  - intros k Hk. rewrite lookup_insert_ne by (intros <-; done). by apply Hw.
  - intros k [Hk|Hk%lookup_insert_is_Some']; [apply (wf_keys s Hw); auto|].
    destruct Hk as [<-|Hk]; [by exists (p ++ [x])|apply (wf_keys s Hw); auto].
  - intros q y Hq [Hin|Hin%lookup_insert_is_Some']; [apply (wf_parent s Hw q y); auto|].
    destruct Hin as [E|Hin]; [|apply (wf_parent s Hw q y); auto].
    by apply abs_path_inj, app_inj_tail in E as [-> ->].
  - intros k. rewrite !lookup_insert_is_Some', (wf_mtimes s Hw). tauto.
Qed.

Lemma wf_delete_file s k b :
  wf s -> files s !! k = Some b -> wf (delete_mtime k (delete_file k s)).
Proof.
  intros Hw Hb. assert (k ∉ dirs s) as Hk by (intros Hd; by rewrite (wf_disjoint s Hw _ Hd) in Hb).
  constructor; cbn.
  - apply Hw.
  - intros k' Hk'. rewrite lookup_delete_ne by (intros ->; done). by apply Hw.
  - intros k' [?|[_ ?]%lookup_delete_is_Some]; apply (wf_keys s Hw); auto.
  - intros p x Hc [?|[_ ?]%lookup_delete_is_Some]; apply (wf_parent s Hw p x); auto.
  - intros k'. rewrite !lookup_delete_is_Some, (wf_mtimes s Hw).
    split; [tauto|]. intros [Hd|[? ?]]; [|tauto]. split; [congruence|auto].
Qed.

Lemma wf_delete_dir s k :
  wf s -> k <> SEPARATOR -> k ∈ dirs s ->
  (forall q x, Forall clean (q ++ [x]) -> k = abs_path q -> ~ is_Some (look s (q ++ [x]))) ->
  wf (delete_mtime k (delete_dir k s)).
Proof.
  intros Hw Hne Hk Hempty. pose proof (wf_root s Hw). constructor; cbn.
  - set_solver.
  - intros k' [Hk' _]%elem_of_difference. by apply Hw.
  - intros k' [[Hk' _]%elem_of_difference|Hk']; apply (wf_keys s Hw); auto.
  - intros p x Hc Hin. apply elem_of_difference.
    assert (abs_path (p ++ [x]) ∈ dirs s \/ is_Some (files s !! abs_path (p ++ [x]))) as Hin' by set_solver.
    split; [by apply (wf_parent s Hw p x)|]. intros E%elem_of_singleton. symmetry in E.
    apply (Hempty p x Hc E). by apply look_some.
  - intros k'. rewrite lookup_delete_is_Some, (wf_mtimes s Hw). split; [set_solver|].
    intros [[? ?]%elem_of_difference|Hf]; [set_solver|]. split; [|auto].
    intros ->. rewrite (wf_disjoint s Hw _ Hk) in Hf. by destruct Hf.
Qed.

Lemma wf_reads s n : wf s -> wf (mkState (files s) (mtimes s) (dirs s) n).
Proof. intros [? ? ? ? ?]. by constructor. Qed.

(** ** Paths below a directory *)

Lemma split_abs_path q : Forall clean q -> q <> [] -> split_on c_slash (abs_path q) = [] :: q.
Proof.
  intros Hc Hne. unfold abs_path. change (SEPARATOR ++ ?x) with ([] ++ c_slash :: x).
  rewrite split_on_sep_app. f_equal. apply (split_normal true); [by apply clean_normal|done].
Qed.

Lemma dir_prefix_abs p : Forall clean p ->
  dir_prefix (abs_path p) = match p with [] => SEPARATOR | _ => abs_path p ++ SEPARATOR end.
Proof.
  intros Hc. unfold dir_prefix. destruct p as [|x p]; [done|]. rewrite jeqb_neq; [done|].
  intros E. rewrite <- abs_path_nil in E. by apply abs_path_inj in E.
Qed.

(** What stands after the prefix of a directory in a path below it. *)
Lemma starts_with_dir p q :
  Forall clean p -> Forall clean q -> q <> [] ->
  starts_with (dir_prefix (abs_path p)) (abs_path q) = true <-> above p q.
Proof.
  intros Hp Hq Hqne. rewrite dir_prefix_abs by done. unfold above. split.
  - intros [rest Hr]%starts_with_spec. destruct p as [|x p]; [split; [apply prefix_nil|congruence]|].
    pose proof (split_abs_path q Hq Hqne) as Hs. rewrite Hr, <- app_assoc in Hs.
    change (SEPARATOR ++ rest) with (c_slash :: rest) in Hs.
    rewrite split_on_sep_app, split_abs_path in Hs by done. injection Hs as <-. split; [eexists; done|].
    change (x :: p ++ ?r) with ((x :: p) ++ r). intros E%app_not_self. by apply split_on_nonempty in E.
  - intros [[r ->] Hne]. destruct p as [|x p]; [apply starts_with_app|].
    destruct r as [|y r]; [by rewrite app_nil_r in Hne|].
    assert (abs_path ((x :: p) ++ y :: r) = (abs_path (x :: p) ++ SEPARATOR) ++ join_with SEPARATOR (y :: r)) as ->.
    { clear. revert y. induction r as [|z r IH] using rev_ind; intros y.
      - rewrite abs_path_snoc by done. by rewrite <- !app_assoc.
      - change (y :: r ++ [z]) with ((y :: r) ++ [z]). rewrite app_assoc, abs_path_snoc by (by destruct p).
        rewrite IH, <- !app_assoc. do 2 f_equal. clear IH.
        pose proof (abs_path_snoc (y :: r) z) as H. unfold abs_path in H. specialize (H ltac:(done)).
        rewrite <- app_assoc in H. apply app_inv_head in H. by rewrite H. }
    apply starts_with_app.
Qed.

Lemma covered_spec p q : Forall clean p -> Forall clean q ->
  covered (abs_path p) (abs_path q) = true <-> p `prefix_of` q.
Proof.
  intros Hp Hq. unfold covered. rewrite orb_true_iff, jeqb_true. split.
  - intros [E|H]; [by apply abs_path_inj in E as ->|].
    destruct q as [|y q]; [|by apply starts_with_dir in H as [? _]].
    destruct p as [|x p]; [done|]. rewrite dir_prefix_abs in H by done.
    apply starts_with_length in H. revert H. unfold abs_path. rewrite !length_app. cbn [join_with length SEPARATOR]. lia.
  - intros H. destruct (decide (q = p)) as [->|Hne]; [by left|right].
    apply starts_with_dir; [done|done| |done]. intros ->. by apply prefix_nil_inv in H as ->.
Qed.

(** The name a listing shows for an entry is the first segment below the directory. *)
Lemma child_spec p q x : Forall clean p -> Forall clean q -> q <> [] ->
  child (dir_prefix (abs_path p)) (abs_path q) = Some x <-> exists r, q = p ++ x :: r.
Proof.
  intros Hp Hq Hqne. unfold child.
  destruct (starts_with (dir_prefix (abs_path p)) (abs_path q)) eqn:E.
  - apply starts_with_dir in E; [|done..]. destruct E as [[r ->] Hne].
    destruct r as [|y r]; [by rewrite app_nil_r in Hne|].
    assert (drop (length (dir_prefix (abs_path p))) (abs_path (p ++ y :: r)) = join_with SEPARATOR (y :: r)) as ->.
    { assert (starts_with (dir_prefix (abs_path p)) (abs_path (p ++ y :: r)) = true) as Hs
        by (apply starts_with_dir; [done..|split; [by eexists|done]]).
      apply starts_with_spec in Hs as [rest Hs]. rewrite Hs, drop_app_length.
      destruct p as [|a p].
      - cbn in Hs. unfold abs_path in Hs. cbn in Hs. by injection Hs as <-.
      - rewrite dir_prefix_abs, <- app_assoc in Hs by done.
        pose proof (split_abs_path _ Hq Hqne) as Hsp. rewrite Hs in Hsp.
        change (SEPARATOR ++ rest) with (c_slash :: rest) in Hsp.
        rewrite split_on_sep_app, split_abs_path in Hsp by done. cbn [app] in Hsp.
        injection Hsp as Hsp. apply app_inv_head in Hsp. rewrite <- Hsp. symmetry. apply join_split. }
    assert (clean y) as (_ & _ & _ & Hy) by (apply Forall_app in Hq as [_ Hq]; by inversion Hq).
    assert (forall z, index_of c_slash (y ++ z) = (fun i => length y + i) <$> index_of c_slash z) as Hix.
    { intros z. clear -Hy. induction y as [|c y IH]; cbn [app index_of length]; [by destruct (index_of c_slash z)|].
      apply not_elem_of_cons in Hy as [Hc Hy]. destruct (N.eqb_spec c c_slash) as [->|_]; [done|].
      rewrite IH by done. by destruct (index_of c_slash z). }
    destruct r as [|z r].
    + cbn [join_with]. pose proof (Hix []) as H0. rewrite app_nil_r in H0. rewrite H0. cbn. split.
      * intros [= ->]. by exists [].
      * intros [r' H]. apply app_inv_head in H. by injection H as <- _.
    + change (join_with SEPARATOR (y :: z :: r)) with (y ++ c_slash :: join_with SEPARATOR (z :: r)).
      rewrite Hix. cbn [index_of]. rewrite N.eqb_refl. cbn. rewrite Nat.add_0_r, take_app_length. split.
      * intros [= ->]. by exists (z :: r).
      * intros [r' H]. apply app_inv_head in H. by injection H as <- _.
  - split; [done|]. intros [r ->]. exfalso. revert E. apply not_false_iff_true, starts_with_dir; [done..|].
    split; [by eexists|]. by intros H%app_not_self.
Qed.

(** ** The operations *)

Section Laws.
  Context (clock : nat -> Z).

(** A key gets its new reading of the clock. *)
Definition touched (k : jstr) (s : state) : state :=
  mkState (files s) (<[k := clock (reads s)]> (mtimes s)) (dirs s) (S (reads s)).

Lemma touch_eq k s : touch clock k s = (Ok (), touched k s).
Proof. done. Qed.

Lemma make_dirs_cons p x rest s :
  make_dirs clock (cursor p) (x :: rest) s =
    if has_file (abs_path (p ++ [x])) s then (Throw (notDirectory (abs_path (p ++ [x]))), s)
    else make_dirs clock (cursor (p ++ [x])) rest
           (touched (abs_path (p ++ [x])) (add_dir (abs_path (p ++ [x])) s)).
Proof.
  cbn [make_dirs]. rewrite cursor_snoc. unfold mbind, M_bind, get at 1.
  destruct (has_file (abs_path (p ++ [x])) s); [done|].
  unfold modify. rewrite touch_eq. by destruct (p ++ [x]) eqn:E; [destruct p|].
Qed.

Lemma has_file_false k s : has_file k s = false <-> files s !! k = None.
Proof.
  unfold has_file. rewrite bool_decide_eq_false, <- eq_None_not_Some. done.
Qed.

Lemma has_dir_true k s : has_dir k s = true <-> k ∈ dirs s.
Proof. apply bool_decide_eq_true. Qed.
Lemma has_dir_false k s : has_dir k s = false <-> k ∉ dirs s.
Proof. apply bool_decide_eq_false. Qed.

Lemma make_dirs_wf rest p s :
  wf s -> abs_path p ∈ dirs s -> Forall clean (p ++ rest) ->
  wf (snd (make_dirs clock (cursor p) rest s)).
Proof.
  revert p s. induction rest as [|x rest IH]; intros p s Hw Hp Hc; [done|].
  rewrite make_dirs_cons. destruct (has_file (abs_path (p ++ [x])) s) eqn:Hf; [done|].
  rewrite cons_middle, app_assoc in Hc. apply has_file_false in Hf.
  apply IH; [|cbn; set_solver|done].
  apply (wf_add_dir s p x (clock (reads s)) (S (reads s))); [done|by apply Forall_app in Hc as [? _]|done|done].
Qed.

Lemma make_dirs_spec rest p s :
  wf s -> abs_path p ∈ dirs s -> Forall clean (p ++ rest) ->
  (forall q, q `prefix_of` rest -> files s !! abs_path (p ++ q) = None) ->
  exists s', make_dirs clock (cursor p) rest s = (Ok (), s') /\ wf s' /\ files s' = files s /\
    forall k, k ∈ dirs s' <-> k ∈ dirs s \/ exists q, q `prefix_of` rest /\ k = abs_path (p ++ q).
Proof.
  revert p s. induction rest as [|x rest IH]; intros p s Hw Hp Hc Hf.
  { exists s. split_and!; [done|done|done|]. intros k. split; [by left|]. intros [?|(q & Hq & ->)]; [done|].
    apply prefix_nil_inv in Hq as ->. by rewrite app_nil_r. }
  assert (files s !! abs_path (p ++ [x]) = None) as Hx by (apply Hf; by exists rest).
  rewrite make_dirs_cons. rewrite (proj2 (has_file_false _ _) Hx).
  rewrite cons_middle, app_assoc in Hc.
  destruct (IH (p ++ [x]) (touched (abs_path (p ++ [x])) (add_dir (abs_path (p ++ [x])) s)))
    as (s' & Hrun & Hw' & Hfiles & Hdirs).
  - apply (wf_add_dir s p x (clock (reads s)) (S (reads s))); [done|by apply Forall_app in Hc as [? _]|done|done].
  - cbn. set_solver.
  - done.
  - intros q Hq. cbn. rewrite <- app_assoc. apply Hf. by apply prefix_cons.
  - exists s'. split_and!; [done|done|by rewrite Hfiles|]. intros k. rewrite Hdirs. cbn.
    rewrite elem_of_union, elem_of_singleton. split.
    + intros [[->|?]|(q & Hq & ->)]; [|by left|].
      * right. exists [x]. split; [by exists rest|done].
      * right. exists (x :: q). split; [by apply prefix_cons|]. by rewrite <- app_assoc.
    + intros [?|(q & Hq & ->)]; [by left; right|]. destruct q as [|y q].
      * left. right. by rewrite app_nil_r.
      * apply prefix_cons_inv_1 in Hq as Hy. apply prefix_cons_inv_2 in Hq. subst y.
        right. exists q. split; [done|]. by rewrite <- app_assoc.
Qed.

Lemma clear_above_files s p q :
  clear_above (look s) p -> above q p -> files s !! abs_path q = None.
Proof. intros Hc Ha. specialize (Hc q Ha). by rewrite is_file_look, has_file_false in Hc. Qed.

Lemma ensureParents_wf p x s :
  wf s -> Forall clean (p ++ [x]) -> wf (snd (ensureParents clock (abs_path (p ++ [x])) s)).
Proof.
  intros Hw Hc. unfold ensureParents. rewrite dirname_abs by done.
  apply Forall_app in Hc as [Hc _].
  unfold mbind, M_bind, get. destruct (has_file _ s); [done|]. destruct (has_dir _ s); [done|].
  rewrite split_path_abs by done. apply (make_dirs_wf p []); [done|apply Hw|done].
Qed.

Lemma ensureParents_spec p x s :
  wf s -> Forall clean (p ++ [x]) -> (forall q, q `prefix_of` p -> files s !! abs_path q = None) ->
  exists s', ensureParents clock (abs_path (p ++ [x])) s = (Ok (), s') /\ wf s' /\ files s' = files s /\
    forall k, k ∈ dirs s' <-> k ∈ dirs s \/ exists q, q `prefix_of` p /\ k = abs_path q.
Proof.
  intros Hw Hc Hf. unfold ensureParents. rewrite dirname_abs by done.
  apply Forall_app in Hc as [Hc _].
  unfold mbind, M_bind, get. rewrite (proj2 (has_file_false _ _)) by by apply Hf.
  destruct (has_dir (abs_path p) s) eqn:Hd.
  - exists s. split_and!; [done|done|done|]. intros k. split; [by left|]. intros [?|(q & Hq & ->)]; [done|].
    apply has_dir_true in Hd. destruct (decide (q = p)) as [->|Hne]; [done|].
    apply (wf_above s q p); [done..|]. apply look_some. by left.
  - rewrite split_path_abs by done. apply (make_dirs_spec p []); [done|apply Hw|done|done].
Qed.

(** A directory loop that ends without an error met no file. *)
Lemma make_dirs_ok_inv rest p s s' :
  make_dirs clock (cursor p) rest s = (Ok (), s') ->
  forall q, q `prefix_of` rest -> q <> [] -> files s !! abs_path (p ++ q) = None.
Proof.
  revert p s. induction rest as [|x rest IH]; intros p s H q Hq Hne; [by apply prefix_nil_inv in Hq|].
  rewrite make_dirs_cons in H. destruct (has_file (abs_path (p ++ [x])) s) eqn:Hf; [done|].
  destruct q as [|y q]; [done|]. apply prefix_cons_inv_1 in Hq as Hy. apply prefix_cons_inv_2 in Hq. subst y.
  destruct q as [|z q]; [by apply has_file_false in Hf|].
  specialize (IH (p ++ [x]) _ H (z :: q) Hq ltac:(done)). by rewrite <- app_assoc in IH.
Qed.

Lemma ensureParents_ok_inv p x s s1 :
  wf s -> Forall clean (p ++ [x]) -> ensureParents clock (abs_path (p ++ [x])) s = (Ok (), s1) ->
  forall q, q `prefix_of` p -> files s !! abs_path q = None.
Proof.
  intros Hw Hc Hrun q Hq. unfold ensureParents in Hrun. rewrite dirname_abs in Hrun by done.
  apply Forall_app in Hc as [Hc _].
  assert (forall d, d ∈ dirs s -> files s !! d = None) as Hd by apply Hw.
  unfold mbind, M_bind, get in Hrun. destruct (has_file (abs_path p) s) eqn:Hf; [done|].
  destruct (has_dir (abs_path p) s) eqn:Hp.
  - apply Hd. apply has_dir_true in Hp. destruct (decide (q = p)) as [->|Hne]; [done|].
    apply (wf_above s q p); [done..|]. apply look_some. by left.
  - rewrite split_path_abs in Hrun by done. destruct q as [|y q]; [apply Hd, Hw|].
    by apply (make_dirs_ok_inv _ [] _ _ Hrun).
Qed.

(** A file goes where no directory is, once the directories above it are there. *)
Lemma put_node_spec p x b s :
  wf s -> Forall clean (p ++ [x]) -> abs_path (p ++ [x]) ∉ dirs s ->
  (forall q, q `prefix_of` p -> files s !! abs_path q = None) ->
  exists s1, ensureParents clock (abs_path (p ++ [x])) s = (Ok (), s1) /\ files s1 = files s /\
    abs_path (p ++ [x]) ∉ dirs s1 /\
    wf (touched (abs_path (p ++ [x])) (set_file (abs_path (p ++ [x])) b s1)) /\
    forall q, Forall clean q ->
      look (touched (abs_path (p ++ [x])) (set_file (abs_path (p ++ [x])) b s1)) q =
      grown (look s) (p ++ [x]) (File b) q.
Proof.
  intros Hw Hc Hd Hf. destruct (ensureParents_spec p x s Hw Hc Hf) as (s1 & Hrun & Hw1 & Hfiles & Hdirs).
  pose proof Hc as Hcp. apply Forall_app in Hcp as [Hcp _].
  assert (forall q, q `prefix_of` p -> Forall clean q) as Hpre.
  { intros q [r ->]. by apply Forall_app in Hcp as [? _]. }
  assert (abs_path (p ++ [x]) ∉ dirs s1) as Hd1.
  { rewrite Hdirs. intros [?|(q & Hq & E)]; [done|]. apply abs_path_inj in E; [|done|by apply Hpre].
    destruct Hq as [r ->]. rewrite <- E, <- app_assoc in Hcp. clear -E.
    rewrite <- app_assoc in E. symmetry in E. apply app_not_self in E. by destruct r. }
  exists s1. split_and!; [done|done|done| |].
  - apply (wf_set_file s1 p x b (clock (reads s1)) (S (reads s1))); [done|done| |done]. apply Hdirs. right. by exists p.
  - intros q Hq. unfold grown, look at 1. cbn [files dirs touched set_file].
    destruct (decide (q = p ++ [x])) as [->|Hne].
    { by rewrite lookup_insert_eq. }
    rewrite lookup_insert_ne by (intros E; by apply abs_path_inj in E).
    rewrite Hfiles. destruct (decide (above q (p ++ [x]))) as [Ha%above_snoc|Ha].
    + rewrite (Hf q Ha), bool_decide_true; [done|]. apply Hdirs. right. by exists q.
    + unfold look. destruct (files s !! abs_path q); [done|].
      assert (abs_path q ∈ dirs s1 <-> abs_path q ∈ dirs s) as Hiff.
      { rewrite Hdirs. split; [|by left]. intros [?|(r & Hr & E)]; [done|].
        apply abs_path_inj in E as ->; [|done|by apply Hpre]. exfalso. apply Ha. by apply above_snoc. }
      by rewrite (bool_decide_ext _ _ Hiff).
Qed.

(** Whether the directories above a path can be had decides a write. *)
Lemma ensureParents_cases p x s :
  wf s -> Forall clean (p ++ [x]) ->
  (exists e s1, ensureParents clock (abs_path (p ++ [x])) s = (Throw e, s1) /\ wf s1) \/
  (forall q, q `prefix_of` p -> files s !! abs_path q = None).
Proof.
  intros Hw Hc. destruct (ensureParents clock (abs_path (p ++ [x])) s) as [[[]|e] s1] eqn:E.
  - right. by eapply ensureParents_ok_inv.
  - left. exists e, s1. split; [done|]. pose proof (ensureParents_wf p x s Hw Hc) as H. by rewrite E in H.
Qed.

(** A write of [b s1] at a key: what [writeBytes] and [appendText] share. *)
Lemma write_wf P (b : state -> list N) s :
  wf s -> isAbsolute P = true -> has_dir (key P) s = false ->
  wf (snd ((_ ← ensureParents clock (key P); s1 ← get;
            _ ← modify (set_file (key P) (b s1)); touch clock (key P)) s)).
Proof.
  intros Hw HP Hd. rewrite key_absolute in * by done. pose proof (normalized_clean P HP) as Hc.
  apply has_dir_false in Hd.
  destruct (path_snoc (normalized_segments P)) as [E|(p & x & E)]; rewrite E in *; [by destruct (Hd (wf_root s Hw))|].
  destruct (ensureParents_cases p x s Hw Hc) as [(e & s1 & Hrun & Hw1)|Hf].
  - by rewrite (M_bind_throw _ _ _ _ _ Hrun).
  - destruct (put_node_spec p x [] s Hw Hc Hd Hf) as (s1 & Hrun & _).
    destruct (put_node_spec p x (b s1) s Hw Hc Hd Hf) as (s1' & Hrun' & _ & _ & Hw' & _).
    rewrite Hrun in Hrun'. injection Hrun' as <-. by rewrite (M_bind_ok _ _ _ _ _ Hrun).
Qed.

Lemma mkdir_wf P r s : wf s -> isAbsolute P = true -> wf (snd (mkdir clock P r s)).
Proof.
  intros Hw HP. unfold mkdir. rewrite key_absolute by done. pose proof (normalized_clean P HP) as Hc.
  set (q := normalized_segments P) in *. unfold mbind, M_bind, get.
  destruct (has_file (abs_path q) s) eqn:Hf; [done|]. destruct (has_dir (abs_path q) s) eqn:Hd; [done|].
  destruct r.
  - rewrite split_path_abs by done. apply (make_dirs_wf q []); [done|apply Hw|done].
  - apply has_dir_false in Hd. apply has_file_false in Hf.
    destruct (path_snoc q) as [E|(p & x & E)]; rewrite E in *; [by destruct (Hd (wf_root s Hw))|].
    rewrite dirname_abs by done. destruct (has_dir (abs_path p) s) eqn:Hp; [|done].
    apply has_dir_true in Hp. by apply (wf_add_dir s p x (clock (reads s)) (S (reads s))).
Qed.

Lemma removeSubtree_files k s :
  files (snd (removeSubtree clock k s)) = filter (fun kv => covered k (fst kv) = false) (files s).
Proof. done. Qed.
Lemma removeSubtree_dirs k s :
  dirs (snd (removeSubtree clock k s)) = {[SEPARATOR]} ∪ filter (fun d => covered k d = false) (dirs s).
Proof. done. Qed.

Lemma removeSubtree_mtimes k s :
  mtimes (snd (removeSubtree clock k s)) =
  <[SEPARATOR := clock (reads s)]>
    (filter (fun kv => (bool_decide (fst kv ∈ dirs s) || bool_decide (is_Some (files s !! fst kv))) &&
                       covered k (fst kv) = false) (mtimes s)).
Proof. done. Qed.

Lemma filter_is_Some {A} (f : jstr -> bool) (m : gmap jstr A) k :
  is_Some (filter (fun kv => f (fst kv) = false) m !! k) <-> is_Some (m !! k) /\ f k = false.
Proof.
  rewrite map_lookup_filter. destruct (m !! k) as [a|]; cbn; [|by split; [intros [? ?]|intros [[? ?] ?]]].
  case_guard as H; cbn; split; [by intros _; split; [eexists|]|by eexists|by intros [? ?]|by intros [_ ?]].
Qed.

Lemma removeSubtree_wf p s : wf s -> Forall clean p -> wf (snd (removeSubtree clock (abs_path p) s)).
Proof.
  intros Hw Hp. set (k := abs_path p). constructor; rewrite ?removeSubtree_files, ?removeSubtree_dirs.
  - set_solver.
  - intros d Hd. apply eq_None_not_Some. rewrite filter_is_Some. intros [[b Hb] Hcov].
    assert (d ∈ dirs s) as Hin by (pose proof (wf_root s Hw); set_solver).
    by rewrite (wf_disjoint s Hw _ Hin) in Hb.
  - intros d [Hd|[Hd _]%filter_is_Some]; apply (wf_keys s Hw); [|by right].
    left. pose proof (wf_root s Hw). set_solver.
  - intros q x Hc Hin. pose proof Hc as Hq. apply Forall_app in Hq as [Hq _].
    assert ((abs_path (q ++ [x]) ∈ dirs s \/ is_Some (files s !! abs_path (q ++ [x]))) /\
            covered k (abs_path (q ++ [x])) = false) as [Hin' Hcov].
    { destruct Hin as [[E%elem_of_singleton|[? ?]%elem_of_filter]%elem_of_union|[? ?]%filter_is_Some]; [|tauto..].
      rewrite <- abs_path_nil in E. apply abs_path_inj in E; [by destruct q|done|constructor]. }
    apply elem_of_union_r, elem_of_filter. split; [|by apply (wf_parent s Hw q x)].
    apply not_true_iff_false in Hcov. apply not_true_iff_false. intros H. apply Hcov.
    apply covered_spec in H; [|done..]. apply covered_spec; [done..|]. destruct H as [r ->]. exists (r ++ [x]).
    by rewrite app_assoc.
  - intros d. rewrite removeSubtree_mtimes.
    rewrite lookup_insert_is_Some', filter_is_Some, elem_of_union, elem_of_singleton, elem_of_filter.
    rewrite map_lookup_filter. split.
    + intros [->|H]; [by left; left|].
      destruct (mtimes s !! d) as [t|] eqn:Et; [|by destruct H]. cbn [mbind option_bind fst] in H.
      case_guard as Hg; [clear H|by destruct H].
      assert (is_Some (mtimes s !! d)) as Hm by by eexists. apply (wf_mtimes s Hw) in Hm.
      apply andb_false_iff in Hg as [Hg|Hg]; [|tauto]. apply orb_false_iff in Hg as [H1 H2].
      apply bool_decide_eq_false in H1, H2. tauto.
    + intros H. destruct (decide (d = SEPARATOR)) as [->|Hne]; [by left|]. right.
      assert ((d ∈ dirs s \/ is_Some (files s !! d)) /\ covered k d = false) as [Hin Hcov] by tauto.
      apply (wf_mtimes s Hw) in Hin as [t Ht]. rewrite Ht. cbn [mbind option_bind fst]. rewrite Hcov, andb_false_r. by eexists.
Qed.

Lemma names_under_spec p x s : wf s -> Forall clean p ->
  x ∈ names_under (abs_path p) s <-> exists r, Forall clean (p ++ x :: r) /\ is_Some (look s (p ++ x :: r)).
Proof.
  intros Hw Hp. unfold names_under. rewrite sort_strings_perm, elem_of_elements, elem_of_list_to_set, elem_of_app.
  rewrite !list_elem_of_omap. split.
  - intros [(k & Hk & Hch)|(k & Hk & Hch)].
    + apply list_elem_of_fmap in Hk as ([k' b] & -> & Hk%elem_of_map_to_list). cbn [fst] in Hch.
      destruct (wf_keys s Hw k') as (q & Hq & ->); [by right; eexists|].
      destruct (decide (q = [])) as [->|Hne]; [by rewrite (wf_disjoint s Hw (abs_path []) (wf_root s Hw)) in Hk|].
      apply child_spec in Hch as [r ->]; [|done..]. exists r. split; [done|]. apply look_some. right. by eexists.
    + apply elem_of_elements in Hk. destruct (wf_keys s Hw k) as (q & Hq & ->); [by left|].
      destruct (jeqb (abs_path q) (abs_path p)) eqn:E; [done|].
      destruct (decide (q = [])) as [->|Hne].
      { unfold child in Hch. destruct (starts_with _ _) eqn:Es; [|done].
        destruct p as [|a p]; [by rewrite (proj2 (jeqb_true _ _) eq_refl) in E|].
        rewrite dir_prefix_abs in Es by done. apply starts_with_length in Es. revert Es. unfold abs_path.
        rewrite !length_app. cbn [join_with length SEPARATOR]. lia. }
      apply child_spec in Hch as [r ->]; [|done..]. exists r. split; [done|]. apply look_some. by left.
  - intros (r & Hc & Hs%look_some). assert (p ++ x :: r <> []) as Hne by by destruct p.
    assert (child (dir_prefix (abs_path p)) (abs_path (p ++ x :: r)) = Some x) as Hch
      by (apply child_spec; [done..|by exists r]).
    destruct Hs as [Hd|[b Hb]].
    + right. exists (abs_path (p ++ x :: r)). split; [by apply elem_of_elements|].
      rewrite jeqb_neq; [done|]. intros E. apply abs_path_inj in E; [|done..].
      symmetry in E. by apply app_not_self in E.
    + left. exists (abs_path (p ++ x :: r)). split; [|done]. apply list_elem_of_fmap.
      exists (abs_path (p ++ x :: r), b). split; [done|]. by apply elem_of_map_to_list.
Qed.

Lemma rmdir_wf P r s : wf s -> isAbsolute P = true -> wf (snd (rmdir clock P r s)).
Proof.
  intros Hw HP. unfold rmdir. rewrite key_absolute by done. pose proof (normalized_clean P HP) as Hc.
  set (q := normalized_segments P) in *. unfold mbind at 1, M_bind at 1, get.
  destruct (has_dir (abs_path q) s) eqn:Hd; [|by destruct (has_file _ s)]. cbn [negb].
  destruct r; [by apply removeSubtree_wf|].
  unfold list_. rewrite key_absolute by done. fold q. unfold mbind, M_bind, get. rewrite Hd. cbn [negb].
  unfold mret, M_ret. destruct (0 <? length (names_under (abs_path q) s)) eqn:Hl; [done|].
  destruct (jeqb (abs_path q) SEPARATOR) eqn:Hs; [done|]. cbn [negb].
  assert (abs_path q <> SEPARATOR) as Hne by (intros E; by rewrite (proj2 (jeqb_true _ _) E) in Hs).
  apply Nat.ltb_ge in Hl. assert (names_under (abs_path q) s = []) as Hn by (destruct (names_under _ s); [done|simpl in Hl; lia]).
  unfold modify. cbn [snd]. apply wf_delete_dir; [done|done|by apply has_dir_true|].
  intros q' x Hq' E Hx. apply abs_path_inj in E; [|done|by apply Forall_app in Hq' as [? _]]. subst q'.
  assert (x ∈ names_under (abs_path q) s) as Hin by (apply names_under_spec; [done..|by exists []]).
  rewrite Hn in Hin. by apply elem_of_nil in Hin.
Qed.

Lemma remove_wf P s : wf s -> isAbsolute P = true -> wf (snd (remove P s)).
Proof.
  intros Hw HP. unfold remove, mbind, M_bind, get.
  destruct (has_file (key P) s) eqn:Hf; [|by destruct (has_dir _ s)].
  unfold modify. cbn [snd]. apply bool_decide_eq_true in Hf as [b Hb]. by eapply wf_delete_file.
Qed.

Lemma move_wf P Q s : wf s -> isAbsolute P = true -> isAbsolute Q = true -> wf (snd (move clock P Q s)).
Proof.
  intros Hw HP HQ. unfold move, mbind at 1, M_bind at 1, get.
  destruct (files s !! key P) as [data|] eqn:Hsrc; [|done].
  destruct (has_dir (key Q) s) eqn:Hd; [done|]. apply has_dir_false in Hd.
  rewrite (key_absolute Q) in * by done. pose proof (normalized_clean Q HQ) as Hc.
  destruct (path_snoc (normalized_segments Q)) as [E|(p & x & E)]; rewrite E in *; [by destruct (Hd (wf_root s Hw))|].
  destruct (ensureParents_cases p x s Hw Hc) as [(e & s1 & Hrun & Hw1)|Hf].
  { by rewrite (M_bind_throw _ _ _ _ _ Hrun). }
  destruct (put_node_spec p x data s Hw Hc Hd Hf) as (s1 & Hrun & Hfiles & _ & Hw' & _).
  rewrite (M_bind_ok _ _ _ _ _ Hrun). unfold mbind, M_bind, modify. rewrite touch_eq. cbn [snd].
  destruct (decide (key P = abs_path (p ++ [x]))) as [->|Hne]; eapply wf_delete_file; [done| |done|]; cbn [files touched set_file].
  - apply lookup_insert_eq.
  - rewrite lookup_insert_ne by done. rewrite Hfiles. done.
Qed.

(** ** The changing operations, and what any number of them keeps *)

Inductive operation :=
| OMkdir (p : jstr) (recursive : bool)
| ORmdir (p : jstr) (recursive : bool)
| OWriteText (p t : jstr)
| OWriteBytes (p : jstr) (b : list N)
| OAppendText (p t : jstr)
| ORemove (p : jstr)
| OMove (p q : jstr).

Definition run (op : operation) : M state () :=
  match op with
  | OMkdir p r => mkdir clock p r
  | ORmdir p r => rmdir clock p r
  | OWriteText p t => writeText clock p t
  | OWriteBytes p b => writeBytes clock p b
  | OAppendText p t => appendText clock p t
  | ORemove p => remove p
  | OMove p q => move clock p q
  end.

Definition absolute (op : operation) : bool :=
  match op with
  | OMkdir p _ | ORmdir p _ | OWriteText p _ | OWriteBytes p _ | OAppendText p _ | ORemove p => isAbsolute p
  | OMove p q => isAbsolute p && isAbsolute q
  end.

(** The operations one after the other, each whether or not the ones before failed. *)
Definition run_all (ops : list operation) (s : state) : state :=
  fold_left (fun s op => snd (run op s)) ops s.

Lemma writeBytes_wf P b s : wf s -> isAbsolute P = true -> wf (snd (writeBytes clock P b s)).
Proof.
  intros Hw HP. unfold writeBytes, mbind at 1, M_bind at 1, get.
  destruct (has_dir (key P) s) eqn:Hd; [done|]. exact (write_wf P (fun _ => b) s Hw HP Hd).
Qed.

Lemma run_wf op s : absolute op = true -> wf s -> wf (snd (run op s)).
Proof.
  destruct op as [p r|p r|p t|p b|p t|p|p q]; cbn [absolute run]; intros Ha Hw.
  - by apply mkdir_wf.
  - by apply rmdir_wf.
  - by apply writeBytes_wf.
  - by apply writeBytes_wf.
  - unfold appendText, mbind at 1, M_bind at 1, get.
    destruct (has_dir (key p) s) eqn:Hd; [done|].
    exact (write_wf p (fun s1 => default [] (files s1 !! key p) ++ encode t) s Hw Ha Hd).
  - by apply remove_wf.
  - apply andb_true_iff in Ha as [? ?]. by apply move_wf.
Qed.

Lemma init_wf : wf (init clock).
Proof.
  constructor; cbn [init files dirs mtimes].
  - set_solver.
  - intros k _. apply lookup_empty.
  - intros k [->%elem_of_singleton|Hk]; [by exists []|]. rewrite lookup_empty in Hk. by destruct Hk.
  - intros p x Hc [E%elem_of_singleton|Hk].
    + rewrite <- abs_path_nil in E. apply abs_path_inj in E; [by destruct p|done|constructor].
    + rewrite lookup_empty in Hk. by destruct Hk.
  - intros k. rewrite lookup_singleton_is_Some, lookup_empty, elem_of_singleton.
    split; [intros ->; by left|]. intros [->|H]; [done|by destruct H].
Qed.

(** C38: the in-memory tree stays a tree: after any operations on absolute paths, failed
    ones included, every path in it is a normal absolute path, no path is both a file and
    a directory, everything stands in a directory, the root is there and exactly the
    present paths have a modification time. *)
Theorem memory_stays_a_tree ops :
  forallb absolute ops = true ->
  wf (run_all ops (init clock)).
Proof.
  intros H. unfold run_all. assert (forall s, wf s -> wf (fold_left (fun s op => snd (run op s)) ops s)) as Hall.
  { induction ops as [|op ops IH]; intros s Hw; [done|]. cbn [forallb] in H.
    apply andb_true_iff in H as [Ha H]. apply IH; [done|]. by apply run_wf. }
  apply Hall, init_wf.
Qed.

(** ** The promises of [FilesystemLaws] *)

Lemma look_present s p : is_Some (look s p) <-> has_file (abs_path p) s || has_dir (abs_path p) s = true.
Proof. rewrite look_some, orb_true_iff, has_dir_true. unfold has_file. rewrite bool_decide_eq_true. tauto. Qed.

Lemma exists_law s p : Forall clean p ->
  MemFs.exists_ (abs_path p) s = (Ok (bool_decide (is_Some (look s p))), s).
Proof.
  intros Hc. unfold MemFs.exists_, gets. rewrite key_abs_path by done. do 2 f_equal.
  apply eq_bool_prop_intro. rewrite !Is_true_true, bool_decide_eq_true. by rewrite look_present.
Qed.

Lemma grown_clear s p x : clear_above (look s) (p ++ [x]) ->
  forall q, q `prefix_of` p -> files s !! abs_path q = None.
Proof. intros Hc q Hq. apply (clear_above_files s (p ++ [x])); [done|by apply above_snoc]. Qed.

Lemma write_law (b : state -> list N) P s p x :
  wf s -> Forall clean (p ++ [x]) -> P = abs_path (p ++ [x]) ->
  look s (p ++ [x]) <> Some Dir -> clear_above (look s) (p ++ [x]) ->
  (forall s1, files s1 = files s -> b s1 = b s) ->
  exists s', (_ ← ensureParents clock (key P); s1 ← get;
              _ ← modify (set_file (key P) (b s1)); touch clock (key P)) s = (Ok (), s') /\ wf s' /\
    forall q, Forall clean q -> look s' q = grown (look s) (p ++ [x]) (File (b s)) q.
Proof.
  intros Hw Hc -> Hd Hcl Hb. rewrite key_abs_path by done. rewrite look_dir in Hd by done.
  destruct (put_node_spec p x (b s) s Hw Hc Hd (grown_clear s p x Hcl)) as (s1 & Hrun & Hfiles & _ & Hw' & Hlook).
  eexists. split; [|split; [exact Hw'|exact Hlook]].
  rewrite (M_bind_ok _ _ _ _ _ Hrun). rewrite <- (Hb s1 Hfiles). done.
Qed.

Lemma writeText_law s p text :
  wf s -> Forall clean p -> p <> [] -> look s p <> Some Dir -> clear_above (look s) p ->
  exists s', MemFs.writeText clock (abs_path p) text s = (Ok (), s') /\ wf s' /\
    forall q, Forall clean q -> look s' q = grown (look s) p (File (encode text)) q.
Proof.
  intros Hw Hc Hne Hd Hcl. destruct (path_snoc p) as [->|(q & x & ->)]; [done|].
  unfold MemFs.writeText, MemFs.writeBytes. unfold mbind at 1, M_bind at 1, get.
  assert (has_dir (key (abs_path (q ++ [x]))) s = false) as ->.
  { rewrite key_abs_path by done. by rewrite has_dir_false, <- look_dir. }
  by apply (write_law (fun _ => encode text) (abs_path (q ++ [x])) s q x).
Qed.

Lemma appendText_law s p text :
  wf s -> Forall clean p -> p <> [] -> look s p <> Some Dir -> clear_above (look s) p ->
  exists s', MemFs.appendText clock (abs_path p) text s = (Ok (), s') /\ wf s' /\
    forall q, Forall clean q ->
      look s' q = grown (look s) p (File (match look s p with
                                          | Some (File old) => old ++ encode text
                                          | _ => encode text
                                          end)) q.
Proof.
  intros Hw Hc Hne Hd Hcl. destruct (path_snoc p) as [->|(q & x & ->)]; [done|].
  unfold MemFs.appendText. unfold mbind at 1, M_bind at 1, get at 1.
  assert (has_dir (key (abs_path (q ++ [x]))) s = false) as ->.
  { rewrite key_abs_path by done. by rewrite has_dir_false, <- look_dir. }
  destruct (write_law (fun s1 => default [] (files s1 !! key (abs_path (q ++ [x]))) ++ encode text)
              (abs_path (q ++ [x])) s q x) as (s' & Hrun & Hw' & Hlook); [done..|by intros s1 ->|].
  exists s'. split_and!; [exact Hrun|done|]. intros r Hr. rewrite (Hlook r Hr). do 2 f_equal.
  rewrite key_abs_path by done. unfold look. destruct (files s !! abs_path (q ++ [x])); [done|].
  by case_bool_decide.
Qed.

Lemma mkdir_law s p :
  wf s -> Forall clean p -> is_file (look s p) = false -> clear_above (look s) p ->
  exists s', MemFs.mkdir clock (abs_path p) true s = (Ok (), s') /\ wf s' /\
    forall q, Forall clean q -> look s' q = grown (look s) p Dir q.
Proof.
  intros Hw Hc Hf Hcl. unfold MemFs.mkdir. rewrite key_abs_path by done. rewrite is_file_look in Hf.
  unfold mbind, M_bind, get. rewrite Hf. destruct (has_dir (abs_path p) s) eqn:Hd.
  - exists s. split_and!; [done|done|]. intros q Hq. unfold grown. apply has_dir_true in Hd.
    destruct (decide (q = p)) as [->|Hne]; [by apply look_dir|].
    destruct (decide (above q p)) as [[Ha Hne']|]; [|done]. apply look_dir; [done|].
    apply (wf_above s q p); [done..|]. apply look_some. by left.
  - assert (forall q, q `prefix_of` p -> files s !! abs_path ([] ++ q) = None) as Hfiles.
    { intros q Hq. cbn [app]. destruct (decide (q = p)) as [->|Hne]; [by apply has_file_false|].
      by apply (clear_above_files s p). }
    rewrite split_path_abs by done.
    destruct (make_dirs_spec p [] s Hw (wf_root s Hw) Hc Hfiles) as (s' & Hrun & Hw' & Hfs & Hds).
    exists s'. split_and!; [done|done|]. intros q Hq.
    assert (abs_path q ∈ dirs s' <-> abs_path q ∈ dirs s \/ q `prefix_of` p) as Hiff.
    { rewrite Hds. split; [|intros [?|?]; [by left|right; by exists q]].
      intros [?|(r & Hr & E)]; [by left|right]. apply abs_path_inj in E as ->; [done|done|].
      destruct Hr as [? ->]. by apply Forall_app in Hc as [? _]. }
    unfold grown, look. rewrite Hfs. destruct (decide (q = p)) as [->|Hne].
    { rewrite (proj1 (has_file_false _ _) Hf), bool_decide_true; [done|]. apply Hiff. by right. }
    destruct (decide (above q p)) as [Ha|Ha].
    + rewrite (clear_above_files s p q Hcl Ha), bool_decide_true; [done|]. apply Hiff. right. apply Ha.
    + assert (abs_path q ∈ dirs s' <-> abs_path q ∈ dirs s) as Hiff'.
      { rewrite Hiff. split; [|by left]. intros [?|?]; [done|]. by destruct Ha. }
      by rewrite (bool_decide_ext _ _ Hiff').
Qed.

Lemma remove_law s p bytes :
  wf s -> Forall clean p -> look s p = Some (File bytes) ->
  exists s', MemFs.remove (abs_path p) s = (Ok (), s') /\ wf s' /\
    forall q, Forall clean q -> look s' q = if decide (q = p) then None else look s q.
Proof.
  intros Hw Hc Hf%look_file. exists (delete_mtime (abs_path p) (delete_file (abs_path p) s)).
  split_and!; [|by eapply wf_delete_file|].
  - unfold MemFs.remove, mbind, M_bind, get. rewrite key_abs_path by done.
    assert (has_file (abs_path p) s = true) as -> by (apply bool_decide_eq_true; by eexists). done.
  - intros q Hq. unfold look. cbn [files dirs delete_mtime delete_file].
    destruct (decide (q = p)) as [->|Hne].
    + rewrite lookup_delete_eq, bool_decide_false; [done|]. intros Hd. by rewrite (wf_disjoint s Hw _ Hd) in Hf.
    + rewrite lookup_delete_ne; [done|]. intros E. by apply abs_path_inj in E.
Qed.

Lemma rmdir_law s p :
  wf s -> Forall clean p -> p <> [] -> look s p = Some Dir ->
  exists s', MemFs.rmdir clock (abs_path p) true s = (Ok (), s') /\ wf s' /\
    forall q, Forall clean q -> look s' q = if decide (p `prefix_of` q) then None else look s q.
Proof.
  intros Hw Hc Hne Hd%look_dir; [|done]. exists (snd (removeSubtree clock (abs_path p) s)).
  split_and!; [|by apply removeSubtree_wf|].
  - unfold MemFs.rmdir, mbind at 1, M_bind at 1, get. rewrite key_abs_path by done.
    by rewrite (proj2 (has_dir_true _ _) Hd).
  - intros q Hq. unfold look. rewrite removeSubtree_files, removeSubtree_dirs.
    assert (abs_path q = SEPARATOR -> q = []) as Hroot.
    { intros E. rewrite <- abs_path_nil in E. by apply abs_path_inj in E; [|done|constructor]. }
    assert (covered (abs_path p) (abs_path q) = bool_decide (p `prefix_of` q)) as Hcov.
    { apply eq_bool_prop_intro. rewrite !Is_true_true, bool_decide_eq_true. by apply covered_spec. }
    destruct (decide (p `prefix_of` q)) as [Hpq|Hpq].
    + assert (filter (fun kv : jstr * list N => covered (abs_path p) (fst kv) = false) (files s) !! abs_path q = None) as ->.
      { apply eq_None_not_Some. rewrite filter_is_Some, Hcov. rewrite bool_decide_true by done. by intros [_ ?]. }
      rewrite bool_decide_false; [done|]. intros [E%elem_of_singleton|[E _]%elem_of_filter]%elem_of_union.
      * apply Hroot in E as ->. by apply prefix_nil_inv in Hpq.
      * rewrite Hcov, bool_decide_true in E by done. done.
    + rewrite bool_decide_false in Hcov by done. rewrite map_lookup_filter.
      destruct (files s !! abs_path q) as [b|]; cbn [mbind option_bind fst].
      * by rewrite Hcov, option_guard_True.
      * assert (abs_path q ∈ {[SEPARATOR]} ∪ filter (fun d => covered (abs_path p) d = false) (dirs s)
                <-> abs_path q ∈ dirs s) as Hiff.
        { rewrite elem_of_union, elem_of_singleton, elem_of_filter. split; [|tauto].
          intros [->|[_ ?]]; [apply Hw|done]. }
        by rewrite (bool_decide_ext _ _ Hiff).
Qed.

Lemma list_law s p :
  wf s -> Forall clean p -> look s p = Some Dir ->
  exists names, MemFs.list_ (abs_path p) s = (Ok names, s) /\ Sorted jle names /\ NoDup names /\
    forall x, x ∈ names <-> is_Some (look s (p ++ [x])) /\ clean x.
Proof.
  intros Hw Hc Hd%look_dir; [|done]. exists (names_under (abs_path p) s). split_and!.
  - unfold MemFs.list_, mbind, M_bind, get. rewrite key_abs_path by done.
    by rewrite (proj2 (has_dir_true _ _) Hd).
  - apply sort_strings_sorted.
  - unfold names_under. rewrite sort_strings_perm. apply NoDup_elements.
  - intros x. rewrite names_under_spec by done. split.
    + intros (r & Hr & Hs). assert (clean x) as Hx by (apply Forall_app in Hr as [_ Hr]; by inversion Hr).
      split; [|done]. destruct r as [|y r]; [done|]. apply look_some. left.
      apply (wf_above s _ (p ++ x :: y :: r)); [done|done|exists (y :: r); by rewrite <- app_assoc| |done].
      intros E. assert (p ++ [x] = (p ++ [x]) ++ y :: r) as E' by (by rewrite <- app_assoc).
      by apply app_not_self in E'.
    + intros [Hs Hx]. exists []. split; [|done]. by rewrite Forall_app, Forall_singleton.
Qed.

#[export] Instance memory_laws : FilesystemLaws state (H := memory clock) (H0 := memory_clock clock).
Proof.
  refine {| Filesystem.look := look; Filesystem.wf := wf |}.
  - intros s Hw. apply look_dir; [done|]. apply Hw.
  - intros s p x Hw Hc Hs. apply look_dir; [done|]. by apply (wf_parent s Hw p x), look_some.
  - intros s p _ Hc. by apply exists_law.
  - intros s p Hw Hc. change (MemFs.isDirectory (abs_path p) s = (Ok (bool_decide (look s p = Some Dir)), s)).
    unfold MemFs.isDirectory, gets. rewrite key_abs_path by done. do 2 f_equal.
    unfold has_dir. apply bool_decide_ext. by rewrite look_dir.
  - intros s p b Hw Hc Hf%look_file. change (MemFs.readBytes (abs_path p) s = (Ok b, s)).
    unfold MemFs.readBytes, mbind, M_bind, get.
    rewrite key_abs_path by done. by rewrite Hf.
  - intros s p b Hw Hc Hf%look_file. change (MemFs.readText (abs_path p) s = (Ok (decode b), s)).
    unfold MemFs.readText, MemFs.readBytes, mbind, M_bind, get, fmap, M_fmap.
    rewrite key_abs_path by done. by rewrite Hf.
  - intros s p Hw Hc Hs%look_present. change (exists t, MemFs.mtimeMs (abs_path p) s = (Ok t, s)).
    unfold MemFs.mtimeMs, mbind, M_bind, get.
    rewrite key_abs_path by done. rewrite <- negb_orb, Hs. by eexists.
  - intros s p Hw Hc Hd. by apply list_law.
  - intros s p Hw Hc _ Hf Hcl. by apply mkdir_law.
  - intros s p text Hw Hc Hne Hd Hcl. by apply writeText_law.
  - intros s p text Hw Hc Hne Hd Hcl. by apply appendText_law.
  - intros s p b Hw Hc Hf. by eapply remove_law.
  - intros s p Hw Hc Hne Hd. by apply rmdir_law.
  - intros s Hw. eexists _, _. split_and!; [done|by apply wf_reads|done].
Defined.

Lemma writeText_files P text s s1 :
  wf s -> isAbsolute P = true -> MemFs.writeText clock P text s = (Ok (), s1) ->
  files s1 = <[key P := encode text]> (files s).
Proof.
  intros Hw HP. unfold MemFs.writeText, MemFs.writeBytes, mbind at 1, M_bind at 1, get.
  rewrite key_absolute by done. pose proof (normalized_clean P HP) as Hc.
  destruct (has_dir _ s) eqn:Hd; [done|]. apply has_dir_false in Hd.
  destruct (path_snoc (normalized_segments P)) as [E|(p & x & E)]; rewrite E in *; [by destruct (Hd (wf_root s Hw))|].
  destruct (ensureParents_cases p x s Hw Hc) as [(e & s2 & Hrun & _)|Hf].
  { by rewrite (M_bind_throw _ _ _ _ _ Hrun). }
  destruct (put_node_spec p x [] s Hw Hc Hd Hf) as (s2 & Hrun & Hfiles & _).
  rewrite (M_bind_ok _ _ _ _ _ Hrun). unfold mbind, M_bind, modify. rewrite touch_eq.
  intros [= <-]. cbn [files touched set_file]. by rewrite Hfiles.
Qed.

(** What is written is what is read: after a successful [writeText] the same path, in
    whatever spelling, reads back the text, and every other file reads as before. *)
Theorem memory_write_read P text s s1 :
  wf s -> isAbsolute P = true -> code_units text = true -> well_formed text = true ->
  head text <> Some 65279%N -> MemFs.writeText clock P text s = (Ok (), s1) ->
  (forall Q, isAbsolute Q = true -> normalize Q = normalize P -> MemFs.readText Q s1 = (Ok text, s1)) /\
  (forall Q, isAbsolute Q = true -> normalize Q <> normalize P ->
     fst (MemFs.readBytes Q s1) = fst (MemFs.readBytes Q s)).
Proof.
  intros Hw HP Hu Hwf Hbom Hrun. pose proof (writeText_files P text s s1 Hw HP Hrun) as Hfiles.
  unfold key in Hfiles. rewrite normalize_isAbsolute, HP in Hfiles.
  split; intros Q HQ HQP; unfold MemFs.readText, MemFs.readBytes, fmap, M_fmap, mbind, M_bind, get, key;
    rewrite normalize_isAbsolute, HQ, Hfiles.
  - rewrite HQP, lookup_insert_eq. unfold mret, M_ret. by rewrite decode_encode.
  - rewrite lookup_insert_ne by done. by destruct (files s !! normalize Q).
Qed.

(** Moving a file onto itself succeeds and loses it: the target is written first and
    the source, the same entry, deleted after. *)
Theorem memory_move_onto_itself P bytes s :
  wf s -> isAbsolute P = true -> MemFs.readBytes P s = (Ok bytes, s) ->
  exists s', MemFs.move clock P P s = (Ok (), s') /\ MemFs.exists_ P s' = (Ok false, s').
Proof.
  intros Hw HP Hr. unfold MemFs.readBytes, mbind, M_bind, get in Hr.
  destruct (files s !! key P) as [b|] eqn:Hf; [|done].
  assert (key P ∉ dirs s) as Hd by (intros Hin; by rewrite (wf_disjoint s Hw _ Hin) in Hf).
  unfold MemFs.move, mbind at 1, M_bind at 1, get. rewrite Hf, (proj2 (has_dir_false _ _) Hd).
  rewrite key_absolute in * by done. pose proof (normalized_clean P HP) as Hc.
  destruct (path_snoc (normalized_segments P)) as [E|(p & x & E)]; rewrite E in *; [by destruct (Hd (wf_root s Hw))|].
  assert (forall q, q `prefix_of` p -> files s !! abs_path q = None) as Hclear.
  { intros q Hq. apply (wf_disjoint s Hw). apply (wf_above s q (p ++ [x])); [done|done| | |].
    - etrans; [exact Hq|]. by exists [x].
    - intros ->. by apply (proj2 (above_snoc (p ++ [x]) p x)) in Hq as [_ ?].
    - apply look_some. right. by eexists. }
  destruct (put_node_spec p x b s Hw Hc Hd Hclear) as (s1 & Hrun & Hfiles & Hd1 & _ & _).
  rewrite (M_bind_ok _ _ _ _ _ Hrun). eexists. split; [done|].
  unfold MemFs.exists_, gets. rewrite key_absolute, E by done. do 2 f_equal.
  unfold has_file, has_dir. cbn [files dirs delete_mtime delete_file touched set_mtime set_file].
  rewrite lookup_delete_eq, !bool_decide_false; [done|done|by intros [? ?]].
Qed.

End Laws.

(** A small tree for the witnesses. *)
Definition sample_tree (clock : nat -> Z) : state :=
  run_all clock [OWriteText (js "/a/b.json") (js "x")] (init clock).

Lemma sample_tree_wf clock : wf (sample_tree clock).
Proof. apply (run_wf clock); [done|apply init_wf]. Qed.

Lemma memory_write_read_witness :
  let clock n := Z.of_nat n in
  let s1 := snd (MemFs.writeText clock (js "/a/./c") (js "hi") (sample_tree clock)) in
  (forall Q, isAbsolute Q = true -> normalize Q = normalize (js "/a/./c") -> MemFs.readText Q s1 = (Ok (js "hi"), s1)) /\
  (forall Q, isAbsolute Q = true -> normalize Q <> normalize (js "/a/./c") ->
     fst (MemFs.readBytes Q s1) = fst (MemFs.readBytes Q (sample_tree clock))).
Proof.
  intros clock s1. apply (memory_write_read clock (js "/a/./c") (js "hi") (sample_tree clock) s1).
  - apply sample_tree_wf.
  - reflexivity.
  - reflexivity.
  - reflexivity.
  - discriminate.
  - unfold s1. vm_compute. reflexivity.
Defined.

Lemma memory_move_onto_itself_witness :
  exists s', MemFs.move (fun n => Z.of_nat n) (js "/a/b.json") (js "/a/b.json")
               (sample_tree (fun n => Z.of_nat n)) = (Ok (), s') /\
             MemFs.exists_ (js "/a/b.json") s' = (Ok false, s').
Proof.
  apply (memory_move_onto_itself (fun n => Z.of_nat n) (js "/a/b.json") (encode (js "x"))
           (sample_tree (fun n => Z.of_nat n))).
  - apply sample_tree_wf.
  - reflexivity.
  - vm_compute. reflexivity.
Defined.

Lemma memory_stays_a_tree_witness :
  wf (run_all (fun n => Z.of_nat n)
        [OWriteText (js "/a/b.json") (js "x"); OMkdir (js "/a/b.json/c") true; OMove (js "/a/b.json") (js "/d/e");
         ORmdir (js "/a") true] (init (fun n => Z.of_nat n))).
Proof.
  apply (memory_stays_a_tree (fun n => Z.of_nat n)
           [OWriteText (js "/a/b.json") (js "x"); OMkdir (js "/a/b.json/c") true;
            OMove (js "/a/b.json") (js "/d/e"); ORmdir (js "/a") true]).
  vm_compute. reflexivity.
Defined.

End MemFsLaws.
