(* ===== verification/Json.v ===== *)
(** [JSON.stringify] and [JSON.parse], as the language defines them, on the values the
    browser core stores; the round trip that persisted documents rely on. *)

From Stdlib Require Import SpecFloat.
From S2P Require Import Prelude JsNum JsValue Utf8.

Module Json.
Import Utf8.

(** ** [JSON.stringify] *)

Definition hex_digit (d : N) : N := Num.digit_char d.
Definition unicode_escape (c : N) : jstr :=
  [92; 117; hex_digit (c / 4096); hex_digit (c / 256 mod 16); hex_digit (c / 16 mod 16); hex_digit (c mod 16)]%N.

Definition escape_unit (c : N) : jstr :=
  if (c =? 8)%N then [92; 98]%N else if (c =? 9)%N then [92; 116]%N
  else if (c =? 10)%N then [92; 110]%N else if (c =? 12)%N then [92; 102]%N
  else if (c =? 13)%N then [92; 114]%N else if (c =? 34)%N then [92; 34]%N
  else if (c =? 92)%N then [92; 92]%N else if (c <? 32)%N then unicode_escape c else [c].

(** The characters of a string literal; a lone surrogate is escaped. *)
Fixpoint escape (s : jstr) : jstr :=
  match s with
  | [] => []
  | c :: r =>
      match r with
      | d :: r' =>
          if is_high c && is_low d then c :: d :: escape r'
          else if is_surrogate c then unicode_escape c ++ escape r
          else escape_unit c ++ escape r
      | [] => if is_surrogate c then unicode_escape c else escape_unit c
      end
  end.

Definition quote (s : jstr) : jstr := [34%N] ++ escape s ++ [34%N].

(** What JSON carries of a value: no [undefined] property, [null] for the numbers and
    items it cannot write, one zero. *)
Fixpoint carried (v : value) : value :=
  match v with
  | VNum n => if Num.is_finite n then (match n with S754_zero _ => VNum Num.zero | _ => v end) else VNull
  | VArr l => VArr (map (fun x => if is_undef x then VNull else carried x) l)
  | VObj o =>
      VObj (omap (fun kv => if is_undef (fst (snd kv)) then None else Some (fst kv, snd (snd kv)))
                 (map (fun kv => (fst kv, (snd kv, carried (snd kv)))) o))
  | _ => v
  end.

Fixpoint text (v : value) : jstr :=
  match v with
  | VUndef | VNull => js "null"
  | VBool b => if b then js "true" else js "false"
  | VNum n => Num.to_string n
  | VStr s => quote s
  | VArr l => [91%N] ++ join_with [44%N] (map text l) ++ [93%N]
  | VObj o => [123%N] ++ join_with [44%N] (map (fun kv => quote (fst kv) ++ [58%N] ++ text (snd kv)) o) ++ [125%N]
  end.

(** [JSON.stringify(v)]; [None] for [undefined]. *)
Definition stringify (v : value) : option jstr := if is_undef v then None else Some (text (carried v)).

(** ** [JSON.parse] *)

Definition json_space (c : N) : bool := (c =? 32)%N || (c =? 10)%N || (c =? 13)%N || (c =? 9)%N.
Definition skip (s : jstr) : jstr := drop_while json_space s.

Definition hex4 (a b c d : N) : option N :=
  a' ← Num.char_digit a; b' ← Num.char_digit b; c' ← Num.char_digit c; d' ← Num.char_digit d;
  if (a' <? 16)%N && (b' <? 16)%N && (c' <? 16)%N && (d' <? 16)%N
  then Some (a' * 4096 + b' * 256 + c' * 16 + d')%N else None.

Definition unescape (c : N) : option N :=
  if (c =? 34)%N || (c =? 92)%N || (c =? 47)%N then Some c
  else if (c =? 98)%N then Some 8%N else if (c =? 102)%N then Some 12%N
  else if (c =? 110)%N then Some 10%N else if (c =? 114)%N then Some 13%N
  else if (c =? 116)%N then Some 9%N else None.

(** The rest of a string literal after its opening quote. *)
Fixpoint parse_string (s : jstr) : option (jstr * jstr) :=
  match s with
  | [] => None
  | c :: r =>
      if (c =? 34)%N then Some ([], r)
      else if (c =? 92)%N then
        match r with
        | e :: r1 =>
            if (e =? 117)%N then
              match r1 with
              | a :: b :: x :: d :: r2 =>
                  u ← hex4 a b x d;
                  res ← parse_string r2; Some (u :: fst res, snd res)
              | _ => None
              end
            else
              u ← unescape e;
              res ← parse_string r1; Some (u :: fst res, snd res)
        | [] => None
        end
      else if (c <? 32)%N then None
      else res ← parse_string r; Some (c :: fst res, snd res)
  end.

Definition num_char (c : N) : bool :=
  is_digit c || (c =? 43)%N || (c =? 45)%N || (c =? 46)%N || (c =? 69)%N || (c =? 101)%N.

(** The number grammar of JSON: a sign, digits without a leading zero, a fraction, an exponent. *)
Definition number_grammar (t : jstr) : bool :=
  let r0 := match t with c :: r => if (c =? 45)%N then r else t | [] => t end in
  let ip := take_while is_digit r0 in
  let r1 := drop_while is_digit r0 in
  let ip_ok := match ip with [] => false | [_] => true | z :: _ => negb (z =? 48)%N end in
  let '(frac_ok, r2) :=
    match r1 with
    | c :: r => if (c =? 46)%N then (negb (jeqb (take_while is_digit r) []), drop_while is_digit r) else (true, r1)
    | [] => (true, r1)
    end in
  let exp_ok :=
    match r2 with
    | [] => true
    | c :: r =>
        ((c =? 101)%N || (c =? 69)%N) &&
        (let r' := match r with d :: r' => if (d =? 43)%N || (d =? 45)%N then r' else r | [] => r end in
         negb (jeqb r' []) && forallb is_digit r')
    end in
  ip_ok && frac_ok && exp_ok.

Definition parse_number (s : jstr) : option (value * jstr) :=
  let t := take_while num_char s in
  if number_grammar t then Some (VNum (Num.of_string t), drop_while num_char s) else None.

Definition literals : list (jstr * value) :=
  [(js "null", VNull); (js "true", VBool true); (js "false", VBool false)].

Definition parse_literal (s : jstr) : option (value * jstr) :=
  match List.find (fun kv => starts_with (fst kv) s) literals with
  | Some (w, v) => Some (v, drop (length w) s)
  | None => None
  end.

(** Recursive descent; every call has one unit of fuel less. *)
Fixpoint parse_value (fuel : nat) (s : jstr) : option (value * jstr) :=
  match fuel with
  | O => None
  | S f =>
      match skip s with
      | [] => None
      | c :: r =>
          if (c =? 34)%N then (res ← parse_string r; Some (VStr (fst res), snd res))
          else if (c =? 91)%N then
            match skip r with
            | d :: r' => if (d =? 93)%N then Some (VArr [], r')
                         else res ← parse_items f (d :: r'); Some (VArr (fst res), snd res)
            | [] => None
            end
          else if (c =? 123)%N then
            match skip r with
            | d :: r' => if (d =? 125)%N then Some (VObj [], r')
                         else res ← parse_members f [] (d :: r'); Some (VObj (fst res), snd res)
            | [] => None
            end
          else if is_digit c || (c =? 45)%N then parse_number (c :: r)
          else parse_literal (c :: r)
      end
  end
with parse_items (fuel : nat) (s : jstr) : option (list value * jstr) :=
  match fuel with
  | O => None
  | S f =>
      item ← parse_value f s;
      match skip (snd item) with
      | c :: r =>
          if (c =? 44)%N then res ← parse_items f r; Some (fst item :: fst res, snd res)
          else if (c =? 93)%N then Some ([fst item], r) else None
      | [] => None
      end
  end
with parse_members (fuel : nat) (acc : object) (s : jstr) : option (object * jstr) :=
  match fuel with
  | O => None
  | S f =>
      match skip s with
      | q :: r =>
          if (q =? 34)%N then
            name ← parse_string r;
            match skip (snd name) with
            | c :: r1 =>
                if (c =? 58)%N then
                  item ← parse_value f r1;
                  let acc' := obj_set (fst name) (fst item) acc in
                  match skip (snd item) with
                  | d :: r2 =>
                      if (d =? 44)%N then parse_members f acc' r2
                      else if (d =? 125)%N then Some (acc', r2) else None
                  | [] => None
                  end
                else None
            | [] => None
            end
          else None
      | [] => None
      end
  end.

(** The error's text is the host's; the sources never read it. *)
Definition syntax_error : js_error :=
  {| err_name := js "SyntaxError"; err_message := js "Invalid JSON"; err_code := None |}.

(** Enough for a text of this length: two calls open at most one character. *)
Definition fuel_for (s : jstr) : nat := 2 * length s + 2.

Definition parse (s : jstr) : outcome value :=
  match parse_value (fuel_for s) s with
  | Some (v, rest) => match skip rest with [] => Ok v | _ => Throw syntax_error end
  | None => Throw syntax_error
  end.

(** [parseStoredValue] of [src/storage/value-codec.js]: the JSON a decrypted text is, or the
    text itself. *)
Definition parseStoredValue (text : jstr) : value := match parse text with Ok v => v | Throw _ => VStr text end.

Example json_samples :
  map (fun s => parse (replace_char 39 [34%N] (js s)))
    ["{}"; " [1, -2.5e1 ,true, null]"; "{'a':{'b':'x'},'10':1,'2':2,'a':3}"; "[1,]"; "01"; "1 2"]%string
  = [Ok (VObj []); Ok (VArr [VNum (Num.of_Z 1); VNum (Num.of_Z (-25)); VBool true; VNull]);
     Ok (VObj [(js "2", VNum (Num.of_Z 2)); (js "10", VNum (Num.of_Z 1)); (js "a", VNum (Num.of_Z 3))]);
     Throw syntax_error; Throw syntax_error; Throw syntax_error].
Proof. by vm_compute. Qed.

(** ** Reading back a string literal *)

Lemma hex4_escape c : (c < 65536)%N ->
  hex4 (hex_digit (c / 4096)) (hex_digit (c / 256 mod 16)) (hex_digit (c / 16 mod 16)) (hex_digit (c mod 16)) = Some c.
Proof.
  intros H. unfold hex4, hex_digit.
  assert (c / 4096 < 16)%N by lia. assert (c / 256 mod 16 < 16)%N by lia.
  assert (c / 16 mod 16 < 16)%N by lia. assert (c mod 16 < 16)%N by lia.
  rewrite !Num.char_digit_digit_char by lia. cbn [mbind option_bind].
  rewrite !(proj2 (N.ltb_lt _ _)) by done. cbn [andb]. f_equal. lia.
Qed.

Lemma parse_unicode c t : (c < 65536)%N ->
  parse_string (unicode_escape c ++ t) = (res ← parse_string t; Some (c :: fst res, snd res)).
Proof.
  intros H. unfold unicode_escape. cbn [app parse_string].
  replace (92 =? 34)%N with false by done. replace (92 =? 92)%N with true by done.
  replace (117 =? 117)%N with true by done. by rewrite hex4_escape.
Qed.

Lemma parse_escape_unit c t : (c < 65536)%N ->
  parse_string (escape_unit c ++ t) = (res ← parse_string t; Some (c :: fst res, snd res)).
Proof.
  intros H. unfold escape_unit.
  repeat match goal with
  | |- context [if (c =? ?k)%N then _ else _] => destruct (N.eqb_spec c k) as [->|?]; [reflexivity|]
  end.
  destruct (N.ltb_spec c 32); [by apply parse_unicode|]. cbn [app parse_string].
  rewrite !(proj2 (N.eqb_neq _ _)) by done. by rewrite (proj2 (N.ltb_ge _ _)) by done.
Qed.

Lemma parse_plain c t : (32 <= c)%N -> c <> 34%N -> c <> 92%N ->
  parse_string (c :: t) = (res ← parse_string t; Some (c :: fst res, snd res)).
Proof.
  intros H1 H2 H3. cbn [parse_string]. rewrite !(proj2 (N.eqb_neq _ _)) by done.
  by rewrite (proj2 (N.ltb_ge _ _)) by done.
Qed.

Lemma escape_cons2 c d s : escape (c :: d :: s) =
  if is_high c && is_low d then c :: d :: escape s
  else if is_surrogate c then unicode_escape c ++ escape (d :: s) else escape_unit c ++ escape (d :: s).
Proof. done. Qed.

Lemma parse_escape s rest : code_units s = true ->
  parse_string (escape s ++ [34%N] ++ rest) = Some (s, rest).
Proof.
  unfold code_units. induction s as [|c|c d s IH1 IH2] using jstr_ind2; intros Hu; [done| |].
  - cbn [forallb] in Hu. assert (c < 65536)%N by lia. cbn [escape].
    destruct (is_surrogate c); [rewrite parse_unicode by done|rewrite parse_escape_unit by done]; done.
  - cbn [forallb] in Hu. rewrite !andb_true_iff in Hu. destruct Hu as (Hc & Hd & Hs). rewrite escape_cons2.
    destruct (is_high c && is_low d) eqn:E.
    + apply andb_true_iff in E as [E1 E2]. unfold is_high, is_low, in_range in *. cbn [app].
      rewrite !parse_plain by lia. cbn [app] in IH1. by rewrite IH1.
    + assert (parse_string (escape (d :: s) ++ [34%N] ++ rest) = Some (d :: s, rest)) as Hr.
      { apply IH2. cbn [forallb]. by rewrite Hd. }
      destruct (is_surrogate c); rewrite <- app_assoc.
      * rewrite parse_unicode by lia. by rewrite Hr.
      * rewrite parse_escape_unit by lia. by rewrite Hr.
Qed.

(** ** Fuel never decides *)

Lemma skip_length s : length (skip s) <= length s.
Proof.
  unfold skip. induction s as [|c s IH]; cbn [drop_while]; [done|]. destruct (json_space c); cbn [length]; lia.
Qed.

Ltac bind_inv H :=
  match type of H with
  | mbind _ ?o = Some _ =>
      let E := fresh "E" in destruct o as [?|] eqn:E; [|discriminate H]; cbn [mbind option_bind] in H
  end.

Lemma parse_string_length n s r : length s <= n -> parse_string s = Some r -> length (snd r) < length s.
Proof.
  revert s r. induction n as [|n IH]; intros s r Hn H; destruct s as [|c s]; try done; [simpl in Hn; lia|].
  cbn [parse_string length] in *. destruct (c =? 34)%N; [injection H as <-; cbn; lia|].
  destruct (c =? 92)%N.
  - destruct s as [|e s]; [done|]. cbn [length] in *. destruct (e =? 117)%N.
    + destruct s as [|a [|b [|x [|d s]]]]; try done. cbn [length] in *.
      bind_inv H. bind_inv H. injection H as <-. apply IH in E0; [cbn; lia|lia].
    + bind_inv H. bind_inv H. injection H as <-. apply IH in E0; [cbn; lia|lia].
  - destruct (c <? 32)%N; [done|]. bind_inv H. injection H as <-. apply IH in E; [cbn; lia|lia].
Qed.

Lemma parse_number_length s r : parse_number s = Some r -> length (snd r) <= length s.
Proof.
  unfold parse_number. destruct (number_grammar _); [|done]. intros [= <-]. apply drop_while_length.
Qed.

Lemma parse_literal_length s r : parse_literal s = Some r -> length (snd r) <= length s.
Proof.
  unfold parse_literal. destruct (List.find _ _) as [[w v]|]; [|done]. intros [= <-]. cbn [snd].
  rewrite length_drop. lia.
Qed.

Lemma parse_lengths f :
  (forall s r, parse_value f s = Some r -> length (snd r) <= length s) /\
  (forall s r, parse_items f s = Some r -> length (snd r) <= length s) /\
  (forall acc s r, parse_members f acc s = Some r -> length (snd r) <= length s).
Proof.
  induction f as [|f (IHv & IHi & IHm)]; [done|]. split_and!.
  - intros s r H. cbn [parse_value] in H. pose proof (skip_length s) as Hs.
    destruct (skip s) as [|c t]; [done|]. cbn [length] in Hs.
    destruct (c =? 34)%N; [|destruct (c =? 91)%N; [|destruct (c =? 123)%N; [|destruct (is_digit c || _)]]].
    + bind_inv H. injection H as <-. apply (parse_string_length (length t)) in E; [cbn; lia|done].
    + pose proof (skip_length t) as Ht. destruct (skip t) as [|d t']; [done|]. cbn [length] in Ht.
      destruct (d =? 93)%N; [injection H as <-; cbn; lia|]. bind_inv H. injection H as <-.
      apply IHi in E. cbn [length snd] in *. lia.
    + pose proof (skip_length t) as Ht. destruct (skip t) as [|d t']; [done|]. cbn [length] in Ht.
      destruct (d =? 125)%N; [injection H as <-; cbn; lia|]. bind_inv H. injection H as <-.
      apply IHm in E. cbn [length snd] in *. lia.
    + apply parse_number_length in H. cbn [length] in H. lia.
    + apply parse_literal_length in H. cbn [length] in H. lia.
  - intros s r H. cbn [parse_items] in H. bind_inv H. apply IHv in E. pose proof (skip_length (snd p)) as Hs.
    destruct (skip (snd p)) as [|c t]; [done|]. cbn [length] in Hs.
    destruct (c =? 44)%N; [|destruct (c =? 93)%N; [injection H as <-; cbn; lia|done]].
    bind_inv H. injection H as <-. apply IHi in E0. cbn [snd] in *. lia.
  - intros acc s r H. cbn [parse_members] in H. pose proof (skip_length s) as Hs.
    destruct (skip s) as [|q t]; [done|]. cbn [length] in Hs. destruct (q =? 34)%N; [|done].
    bind_inv H. apply (parse_string_length (length t)) in E; [|done].
    pose proof (skip_length (snd p)) as Hp. destruct (skip (snd p)) as [|c t1]; [done|]. cbn [length] in Hp.
    destruct (c =? 58)%N; [|done]. bind_inv H. apply IHv in E0.
    pose proof (skip_length (snd p0)) as Hp0. destruct (skip (snd p0)) as [|d t2]; [done|]. cbn [length] in Hp0.
    destruct (d =? 44)%N; [apply IHm in H; lia|]. destruct (d =? 125)%N; [injection H as <-; cbn; lia|done].
Qed.

(** More fuel than a text needs changes nothing. *)
Lemma fuel_enough f : forall f', f <= f' ->
  (forall s, 2 * length s + 2 <= f -> parse_value f s = parse_value f' s) /\
  (forall s, 2 * length s + 3 <= f -> parse_items f s = parse_items f' s) /\
  (forall acc s, 2 * length s + 2 <= f -> parse_members f acc s = parse_members f' acc s).
Proof.
  induction f as [|f IH]; intros [|f'] Hle; [split_and!; intros; lia..|lia|].
  destruct (IH f' ltac:(lia)) as (IHv & IHi & IHm).
  destruct (parse_lengths f') as (Lv & _ & _). split_and!.
  - intros s Hf. cbn [parse_value]. pose proof (skip_length s) as Hs.
    destruct (skip s) as [|c t]; [done|]. cbn [length] in Hs.
    destruct (c =? 34)%N; [done|]. pose proof (skip_length t) as Ht.
    destruct (c =? 91)%N.
    + destruct (skip t) as [|d t']; [done|]. cbn [length] in Ht. destruct (d =? 93)%N; [done|].
      rewrite IHi; [done|cbn [length]; lia].
    + destruct (c =? 123)%N; [|done]. destruct (skip t) as [|d t']; [done|]. cbn [length] in Ht.
      destruct (d =? 125)%N; [done|]. rewrite IHm; [done|cbn [length]; lia].
  - intros s Hf. cbn [parse_items]. rewrite IHv by lia.
    destruct (parse_value f' s) as [item|] eqn:E; [|done]. cbn [mbind option_bind].
    apply Lv in E. pose proof (skip_length (snd item)) as Hs.
    destruct (skip (snd item)) as [|c t]; [done|]. cbn [length] in Hs.
    destruct (c =? 44)%N; [|done]. by rewrite IHi by lia.
  - intros acc s Hf. cbn [parse_members]. pose proof (skip_length s) as Hs.
    destruct (skip s) as [|q t]; [done|]. cbn [length] in Hs. destruct (q =? 34)%N; [|done].
    destruct (parse_string t) as [name|] eqn:En; [|done]. cbn [mbind option_bind].
    apply (parse_string_length (length t)) in En; [|done].
    pose proof (skip_length (snd name)) as Hp. destruct (skip (snd name)) as [|c t1]; [done|]. cbn [length] in Hp.
    destruct (c =? 58)%N; [|done]. rewrite IHv by lia.
    destruct (parse_value f' t1) as [item|] eqn:E; [|done]. cbn [mbind option_bind]. apply Lv in E.
    pose proof (skip_length (snd item)) as Hs'. destruct (skip (snd item)) as [|d t2]; [done|]. cbn [length] in Hs'.
    destruct (d =? 44)%N; [|done]. by rewrite IHm by lia.
Qed.

Lemma parse_fuel s f : fuel_for s <= f -> parse_value f s = parse_value (fuel_for s) s.
Proof. intros H. symmetry. apply fuel_enough; [done|]. unfold fuel_for. lia. Qed.

(** ** Reading back what was written *)

(** The text of a number is one token and reads back as the number. *)
Definition number_ok (n : Num.num) : bool :=
  let t := Num.to_string n in
  forallb num_char t && number_grammar t && bool_decide (Num.of_string t = n) &&
  match t with c :: _ => is_digit c || (c =? 45)%N | [] => false end.

(** Values JSON carries whole. *)
Fixpoint jsonable (v : value) : bool :=
  match v with
  | VUndef => false
  | VNull | VBool _ => true
  | VNum n => number_ok n
  | VStr s => code_units s
  | VArr l => forallb jsonable l
  | VObj o => ordered_keys (keys o) && forallb (fun kv => code_units (fst kv) && jsonable (snd kv)) o
  end.

(** What may stand after a value: no character that would prolong a number. *)
Definition boundary (rest : jstr) : Prop := match rest with c :: _ => num_char c = false | [] => True end.

Lemma take_while_boundary f t rest :
  forallb f t = true -> (match rest with c :: _ => f c = false | [] => True end) ->
  take_while f (t ++ rest) = t /\ drop_while f (t ++ rest) = rest.
Proof.
  intros Ht Hr. induction t as [|c t IH]; cbn [app].
  - destruct rest as [|c rest]; [done|]. cbn [take_while drop_while]. by rewrite Hr.
  - cbn [forallb] in Ht. apply andb_true_iff in Ht as [Hc Ht]. cbn [take_while drop_while]. rewrite Hc.
    destruct (IH Ht) as [-> ->]. done.
Qed.

Definition reads_back (v : value) : Prop :=
  forall f rest, fuel_for (text v) <= f -> boundary rest -> parse_value f (text v ++ rest) = Some (v, rest).

(** The first character of a value's text: no space, no closing bracket. *)
Definition starts_value (c : N) : bool := negb (json_space c) && negb (c =? 93)%N && negb (c =? 125)%N.

Lemma text_head v : jsonable v = true -> exists c r, text v = c :: r /\ starts_value c = true.
Proof.
  destruct v as [| |[]|n|s|l|o]; cbn [jsonable text]; try done; try (by eexists _, _); [].
  unfold number_ok. destruct (Num.to_string n) as [|c r]; [by rewrite andb_false_r|]. intros H.
  apply andb_true_iff in H as [_ H]. exists c, r. split; [done|].
  unfold starts_value, json_space, is_digit, in_range in *. lia.
Qed.

Lemma skip_value c r : starts_value c = true -> skip (c :: r) = c :: r.
Proof.
  unfold starts_value, skip. cbn [drop_while]. by destruct (json_space c).
Qed.

Lemma reads_items l f rest :
  Forall (fun v => jsonable v = true -> reads_back v) l -> forallb jsonable l = true -> l <> [] ->
  2 * length (join_with [44%N] (map text l)) + 3 <= f ->
  parse_items f (join_with [44%N] (map text l) ++ [93%N] ++ rest) = Some (l, rest).
Proof.
  intros Hl. revert f. induction Hl as [|v l Hv Hl IH]; intros f Hj Hne Hf; [done|].
  cbn [forallb] in Hj. apply andb_true_iff in Hj as [Hjv Hj].
  destruct f as [|f]; [lia|]. cbn [parse_items map] in *. destruct l as [|w l].
  - cbn [join_with map] in *. rewrite (Hv Hjv f ([93%N] ++ rest)); [done|unfold fuel_for; lia|done].
  - change (join_with [44%N] (text v :: map text (w :: l)))
      with (text v ++ [44%N] ++ join_with [44%N] (map text (w :: l))) in *.
    rewrite !length_app in Hf. cbn [length] in Hf.
    rewrite <- !app_assoc, (Hv Hjv f); [|unfold fuel_for; lia|done].
    cbn [mbind option_bind snd fst app]. unfold skip. cbn [drop_while]. replace (json_space 44) with false by done.
    replace (44 =? 44)%N with true by done. cbn [app] in IH. rewrite IH; [done|done|done|lia].
Qed.

Definition member_text (kv : jstr * value) : jstr := quote (fst kv) ++ [58%N] ++ text (snd kv).

Lemma reads_members o f acc rest :
  Forall (fun kv => jsonable (snd kv) = true -> reads_back (snd kv)) o ->
  forallb (fun kv => code_units (fst kv) && jsonable (snd kv)) o = true -> o <> [] ->
  ordered_keys (keys (acc ++ o)) = true ->
  2 * length (join_with [44%N] (map member_text o)) + 2 <= f ->
  parse_members f acc (join_with [44%N] (map member_text o) ++ [125%N] ++ rest) = Some (acc ++ o, rest).
Proof.
  intros Ho. revert f acc. induction Ho as [|[k v] o Hv Ho IH]; intros f acc Hj Hne Hord Hf; [done|].
  cbn [forallb fst snd] in Hj, Hv. rewrite !andb_true_iff in Hj. destruct Hj as [[Hk Hjv] Hj].
  assert (obj_set k v acc = acc ++ [(k, v)]) as Hset.
  { apply (obj_set_last k v acc o). unfold keys in *. by rewrite map_app in Hord. }
  assert (forall f' t, fuel_for (text v) <= f' -> boundary t -> length (member_text (k, v)) <= f' ->
    parse_members (S f') acc (member_text (k, v) ++ t) =
      match skip t with
      | d :: r2 => if (d =? 44)%N then parse_members f' (acc ++ [(k, v)]) r2
                   else if (d =? 125)%N then Some (acc ++ [(k, v)], r2) else None
      | [] => None
      end) as Hstep.
  { intros f' t Hf' Ht _. unfold member_text. cbn [fst snd parse_members]. unfold quote.
    rewrite <- !app_assoc. cbn [app]. unfold skip at 1. cbn [drop_while].
    replace (json_space 34) with false by done. replace (34 =? 34)%N with true by done.
    change (escape k ++ 34%N :: 58%N :: text v ++ t) with (escape k ++ [34%N] ++ 58%N :: text v ++ t).
    rewrite parse_escape by done. cbn [mbind option_bind fst snd]. unfold skip at 1. cbn [drop_while].
    replace (json_space 58) with false by done. replace (58 =? 58)%N with true by done.
    rewrite (Hv Hjv f' t Hf' Ht). cbn [mbind option_bind fst snd]. by rewrite Hset. }
  assert (length (text v) + 3 <= length (member_text (k, v))) as Hlen.
  { unfold member_text, quote. cbn [fst snd]. rewrite !length_app. cbn [length]. lia. }
  destruct f as [|f]; [lia|]. cbn [map] in *. destruct o as [|kv o].
  - cbn [join_with map] in *. rewrite Hstep; [done|unfold fuel_for; lia|done|lia].
  - change (join_with [44%N] (member_text (k, v) :: map member_text (kv :: o)))
      with (member_text (k, v) ++ [44%N] ++ join_with [44%N] (map member_text (kv :: o))) in *.
    rewrite !length_app in Hf. cbn [length] in Hf. rewrite <- !app_assoc.
    rewrite Hstep; [|unfold fuel_for; lia|done|lia]. cbn [app]. unfold skip. cbn [drop_while].
    replace (json_space 44) with false by done. replace (44 =? 44)%N with true by done.
    cbn [app] in IH. rewrite IH; [by rewrite <- app_assoc|done|done|by rewrite <- app_assoc|lia].
Qed.

Lemma reads_back_all v : jsonable v = true -> reads_back v.
Proof.
  induction v as [| |b|n|s|l IH|o IH] using value_rect'; cbn [jsonable]; intros Hj f rest Hf Hb; try done;
    (destruct f as [|f]; [unfold fuel_for in Hf; lia|]).
  - done.
  - by destruct b.
  - unfold number_ok in Hj. rewrite !andb_true_iff in Hj. destruct Hj as [[[H1 H2] H3%bool_decide_eq_true] H4].
    cbn [text]. destruct (take_while_boundary num_char (Num.to_string n) rest H1 Hb) as [Ht Hd].
    revert Ht Hd H2 H3. destruct (Num.to_string n) as [|c r] eqn:En; [done|]. intros Ht Hd H2 H3.
    cbn [parse_value app]. rewrite skip_value by (unfold starts_value, json_space, is_digit, in_range in *; lia).
    assert (is_digit c || (c =? 45)%N = true -> (c =? 34)%N = false /\ (c =? 91)%N = false /\ (c =? 123)%N = false) as Hc
      by (unfold is_digit, in_range; lia).
    destruct (Hc H4) as (-> & -> & ->). rewrite H4. unfold parse_number. cbn [app] in Ht, Hd.
    by rewrite Ht, Hd, H2, H3.
  - cbn [text quote]. unfold quote. rewrite <- !app_assoc. cbn [app parse_value]. unfold skip. cbn [drop_while].
    replace (json_space 34) with false by done. replace (34 =? 34)%N with true by done.
    change (escape s ++ 34%N :: rest) with (escape s ++ [34%N] ++ rest). by rewrite parse_escape.
  - cbn [text]. rewrite <- !app_assoc. cbn [app parse_value]. unfold skip at 1. cbn [drop_while].
    replace (json_space 91) with false by done. replace (91 =? 34)%N with false by done.
    replace (91 =? 91)%N with true by done. destruct l as [|v l]; [done|].
    unfold fuel_for in Hf. cbn [text] in Hf. rewrite !length_app in Hf. cbn [length] in Hf.
    pose proof (reads_items (v :: l) f rest IH Hj ltac:(done) ltac:(lia)) as Hr.
    cbn [forallb] in Hj. apply andb_true_iff in Hj as [Hjv _]. destruct (text_head v Hjv) as (c & r & Hc & Hsv).
    assert (exists r', join_with [44%N] (map text (v :: l)) = c :: r') as [r' Hj'].
    { cbn [map]. rewrite Hc. destruct (map text l); cbn [join_with app]; by eexists. }
    rewrite Hj' in *. cbn [app] in *. rewrite skip_value by done.
    replace (c =? 93)%N with false by (unfold starts_value in Hsv; lia). by rewrite Hr.
  - cbn [text]. fold member_text. rewrite <- !app_assoc. cbn [app parse_value]. unfold skip at 1. cbn [drop_while].
    replace (json_space 123) with false by done. replace (123 =? 34)%N with false by done.
    replace (123 =? 91)%N with false by done. replace (123 =? 123)%N with true by done.
    apply andb_true_iff in Hj as [Hord Hj]. destruct o as [|[k v] o]; [done|].
    unfold fuel_for in Hf. cbn [text] in Hf. rewrite !length_app in Hf. cbn [length] in Hf.
    pose proof (reads_members ((k, v) :: o) f [] rest IH Hj ltac:(done) Hord ltac:(unfold member_text; lia)) as Hr.
    assert (exists r', join_with [44%N] (map member_text ((k, v) :: o)) = 34%N :: r') as [r' Hj'].
    { cbn [map]. destruct (map member_text o); cbn [join_with]; unfold member_text, quote; cbn [app]; by eexists. }
    change (map (fun kv : jstr * value => quote (fst kv) ++ 58%N :: text (snd kv)) ((k, v) :: o))
      with (map member_text ((k, v) :: o)).
    rewrite Hj' in *. cbn [app] in *. unfold skip at 1. cbn [drop_while].
    replace (json_space 34) with false by done. replace (34 =? 125)%N with false by done. by rewrite Hr.
Qed.

(** Parsing what [JSON.stringify] wrote gives what it carried. *)
Lemma parse_stringify v t :
  stringify v = Some t -> jsonable (carried v) = true -> parse t = Ok (carried v).
Proof.
  unfold stringify. destruct (is_undef v); [done|]. intros [= <-] Hj. unfold parse.
  pose proof (reads_back_all (carried v) Hj (fuel_for (text (carried v))) [] ltac:(done) I) as H.
  rewrite app_nil_r in H. by rewrite H.
Qed.

(** ** The text is fit for UTF-8 *)

Lemma hex_digit_ascii d : (d < 16)%N -> (hex_digit d < 128)%N.
Proof. unfold hex_digit, Num.digit_char. destruct (N.ltb_spec d 10); lia. Qed.

Lemma unicode_escape_fit c : (c < 65536)%N -> fit (unicode_escape c) = true.
Proof.
  intros Hc. apply fit_ascii. unfold ascii, unicode_escape. cbn [forallb].
  pose proof (hex_digit_ascii (c / 4096) ltac:(lia)). pose proof (hex_digit_ascii (c / 256 mod 16) ltac:(lia)).
  pose proof (hex_digit_ascii (c / 16 mod 16) ltac:(lia)). pose proof (hex_digit_ascii (c mod 16) ltac:(lia)). lia.
Qed.

Lemma fit_one c : (c < 65536)%N -> is_surrogate c = false -> fit [c] = true.
Proof. intros Hc Hs. unfold fit, code_units, well_formed. cbn. rewrite Hs. lia. Qed.

Lemma escape_unit_fit c : (c < 65536)%N -> is_surrogate c = false -> fit (escape_unit c) = true.
Proof.
  intros Hc Hs. unfold escape_unit.
  repeat match goal with |- context [if (c =? ?k)%N then _ else _] => destruct (c =? k)%N; [done|] end.
  destruct (c <? 32)%N; [by apply unicode_escape_fit|by apply fit_one].
Qed.

Lemma escape_fit s : code_units s = true -> fit (escape s) = true.
Proof.
  unfold code_units. induction s as [|c|c d s IH1 IH2] using jstr_ind2; intros Hu; [done| |].
  - cbn in Hu. assert (c < 65536)%N by lia. cbn [escape].
    destruct (is_surrogate c) eqn:E; [by apply unicode_escape_fit|by apply escape_unit_fit].
  - cbn [forallb] in Hu. rewrite !andb_true_iff in Hu. destruct Hu as (Hc & Hd & Hs). rewrite escape_cons2.
    destruct (is_high c && is_low d) eqn:E.
    + change (c :: d :: escape s) with ([c; d] ++ escape s). apply fit_app; [|by apply IH1].
      unfold fit, code_units, well_formed. cbn [code_points forallb]. rewrite E.
      apply andb_true_iff in E as [E1 E2]. unfold is_high, is_low, is_surrogate, combine, in_range in *. cbn [forallb]. lia.
    + assert (fit (escape (d :: s)) = true) as Hr by (apply IH2; cbn [forallb]; by rewrite Hd).
      destruct (is_surrogate c) eqn:E'; (apply fit_app; [|done]); [apply unicode_escape_fit|apply escape_unit_fit; [|done]]; lia.
Qed.

Lemma quote_fit s : code_units s = true -> fit (quote s) = true.
Proof. intros Hs. unfold quote. apply fit_app; [done|]. apply fit_app; [by apply escape_fit|done]. Qed.

Lemma num_char_ascii s : forallb num_char s = true -> ascii s = true.
Proof.
  unfold ascii. rewrite !forallb_forall. intros Hs c Hc. apply Hs in Hc. unfold num_char, is_digit, in_range in Hc. lia.
Qed.

Lemma text_fit v : jsonable v = true -> fit (text v) = true.
Proof.
  induction v as [| |b|n|s|l IH|o IH] using value_rect'; cbn [jsonable text]; intros Hj; try done.
  - by destruct b.
  - unfold number_ok in Hj. rewrite !andb_true_iff in Hj. destruct Hj as [[[H1 _] _] _]. by apply fit_ascii, num_char_ascii.
  - by apply quote_fit.
  - apply fit_app; [done|]. apply fit_app; [|done]. apply fit_join; [done|].
    induction IH as [|v l Hv _ IHl]; [done|]. cbn [map forallb] in *. apply andb_true_iff in Hj as [Hjv Hj].
    by rewrite Hv, IHl.
  - apply andb_true_iff in Hj as [_ Hj]. apply fit_app; [done|]. apply fit_app; [|done]. apply fit_join; [done|].
    induction IH as [|[k v] o Hv _ IHo]; [done|]. cbn [map forallb fst snd] in *. rewrite !andb_true_iff in Hj.
    destruct Hj as [[Hk Hjv] Hj]. rewrite IHo by done. rewrite andb_true_r.
    apply fit_app; [by apply quote_fit|]. by apply (fit_app [58%N]), Hv.
Qed.

(** A stored text, read from its bytes. *)
Lemma text_no_bom v : jsonable v = true -> head (text v) <> Some 65279%N.
Proof.
  destruct v as [| |[]|n|s|l|o]; cbn [jsonable text]; try done.
  unfold number_ok. destruct (Num.to_string n) as [|c r]; [done|]. intros Hj [= ->].
  apply andb_true_iff in Hj as [_ Hj]. done.
Qed.

Lemma decode_text v : jsonable v = true -> decode (encode (text v)) = text v.
Proof.
  intros Hj. pose proof (text_fit v Hj) as [Hu Hw]%andb_true_iff. apply decode_encode; [done|done|by apply text_no_bom].
Qed.

(** JSON changes nothing of the values it carries whole. *)
Lemma number_ok_finite n : number_ok n = true -> Num.is_finite n = true /\ n <> S754_zero true.
Proof.
  unfold number_ok. rewrite !andb_true_iff. intros [[[_ Hg] Ho%bool_decide_eq_true] _].
  split; [|by intros ->]. by destruct n as [[]|[]| |].
Qed.

Lemma carried_jsonable v : jsonable v = true -> carried v = v.
Proof.
  induction v as [| |b|n|s|l IH|o IH] using value_rect'; cbn [jsonable carried]; intros Hj; try done.
  - destruct (number_ok_finite n Hj) as [-> Hz]. by destruct n as [[]|[]| |].
  - f_equal. induction IH as [|v l Hv _ IHl]; [done|]. cbn [map forallb] in *. apply andb_true_iff in Hj as [Hjv Hj].
    rewrite IHl by done. f_equal. rewrite Hv by done. by destruct v.
  - apply andb_true_iff in Hj as [_ Hj]. f_equal.
    induction IH as [|[k v] o Hv _ IHo]; [done|]. cbn [map forallb omap list_omap fst snd] in *. rewrite !andb_true_iff in Hj.
    destruct Hj as [[_ Hjv] Hj]. rewrite Hv, IHo by done. by destruct v.
Qed.

(** What is stored of such a value reads back as the value. *)
Lemma store_roundtrip v : jsonable v = true ->
  stringify v = Some (text v) /\ parse (decode (encode (text v))) = Ok v.
Proof.
  intros Hj. assert (stringify v = Some (text v)) as Hs.
  { unfold stringify. rewrite carried_jsonable by done. by destruct v. }
  split; [done|]. rewrite decode_text by done. pose proof (parse_stringify v (text v) Hs) as Hp.
  rewrite carried_jsonable in Hp by done. by apply Hp.
Qed.

End Json.
