(* ===== verification/NodeClient.v ===== *)
(** The client of the compiled binary for JavaScript programs: [clients/node/fylo.mjs].  It
    writes one request per line to a process and settles its promises, in order, with the
    lines that come back; its environment may be read from a file.  The process, the file and
    [process.env] are parameters. *)

From stdpp Require Import list.
From S2P Require Import Prelude PathUtil JsNum JsValue Utf8 Json Lexer Parser Builder.

Module NodeClient.
Import Utf8.

Definition MAX_SHARD_WIDTH : Z := 4.
Definition DEFAULT_MAX_REQUEST_BYTES : Z := 1048576.
Definition DEFAULT_MAX_RESPONSE_BYTES : Z := 8388608.
Definition MAX_FRAME_BYTES : Z := 67108864.

Definition named_error (name : string) (message : jstr) : js_error := {| err_name := js name; err_message := message; err_code := None |}.
Definition protocolError (code : string) (message : jstr) : js_error := {| err_name := js "Error"; err_message := message; err_code := Some (js code) |}.

Definition frameLimit (v : value) (fallback : Z) (name : jstr) (minimum : Z) : outcome Z :=
  let error := named_error "RangeError" (name ++ js " must be an integer between " ++ Num.dec_Z minimum ++ js " and " ++ Num.dec_Z MAX_FRAME_BYTES) in
  match v with
  | VUndef | VNull => if (fallback <? minimum)%Z || (MAX_FRAME_BYTES <? fallback)%Z then Throw error else Ok fallback
  | VNum n =>
      match Num.to_Z n with
      | Some z => if (9007199254740991 <? Z.abs z)%Z || (z <? minimum)%Z || (MAX_FRAME_BYTES <? z)%Z then Throw error else Ok z
      | None => Throw error
      end
  | _ => Throw error
  end.

(** ** The environment file *)

Definition environmentError (path : jstr) (line : nat) (message : string) : js_error :=
  named_error "SyntaxError" (path ++ js ":" ++ Num.dec_nat line ++ js ": " ++ js message).

Definition c_quote : N := 34.
Definition c_apostrophe : N := 39.
Definition c_backslash : N := 92.
Definition c_hash : N := 35.

(** The characters an escape stands for. *)
Definition unescaped (escaped : N) : jstr :=
  if (escaped =? 110)%N then [10%N]
  else if (escaped =? 114)%N then [13%N]
  else if (escaped =? 116)%N then [9%N]
  else if (escaped =? c_quote)%N || (escaped =? c_backslash)%N then [escaped]
  else [c_backslash; escaped].

(** The loop over the characters after the opening [quote]. *)
Fixpoint quoted_loop (path : jstr) (line : nat) (quote : N) (value : jstr) (input : jstr) {struct input} : outcome jstr :=
  match input with
  | [] => Throw (environmentError path line "unterminated quoted value")
  | character :: rest =>
      if (character =? quote)%N then
        let trailing := trim rest in
        if negb (bool_decide (trailing = [])) && negb (starts_with [c_hash] trailing)
        then Throw (environmentError path line "unexpected characters after quoted value")
        else Ok value
      else if (quote =? c_quote)%N && (character =? c_backslash)%N then
        match rest with
        | [] => Throw (environmentError path line "unterminated escape sequence")
        | escaped :: rest => quoted_loop path line quote (value ++ unescaped escaped) rest
        end
      else quoted_loop path line quote (value ++ [character]) rest
  end.

Definition quotedEnvironmentValue (path : jstr) (line : nat) (input : jstr) (quote : N) : outcome jstr :=
  quoted_loop path line quote [] (tail input).

(** [source.split(/\r?\n/)] *)
Definition chomp (line : jstr) : jstr := if ends_with [13%N] line then drop_last 1 line else line.
Definition lines_of (source : jstr) : list jstr :=
  let parts := split_on 10 source in
  map chomp (removelast parts) ++ match last parts with Some l => [l] | None => [] end.

(** [/^[A-Za-z_][A-Za-z0-9_]*$/] *)
Definition environment_name (name : jstr) : bool :=
  match name with
  | [] => false
  | c :: r => (is_alpha c || (c =? 95)%N) && forallb (fun c => is_alnum c || (c =? 95)%N) r
  end.

Definition trimStart : jstr -> jstr := drop_while is_space.
Definition trimEnd (s : jstr) : jstr := reverse (drop_while is_space (reverse s)).
Definition before (c : N) (s : jstr) : jstr := match index_of c s with Some i => take i s | None => s end.

(** [entry.replace(/^export\s+/, '')], where it matches. *)
Definition strip_export (entry : jstr) : jstr :=
  if starts_with (js "export") entry && match drop 6 entry with c :: _ => is_space c | [] => false end
  then trimStart (drop 6 entry) else entry.

Definition parse_line (path : jstr) (line : nat) (original : jstr) (values : list (jstr * jstr)) : outcome (list (jstr * jstr)) :=
  let entry := trim original in
  if bool_decide (entry = []) || starts_with [c_hash] entry then Ok values
  else
    let entry := strip_export entry in
    match index_of 61 entry with
    | None => Throw (environmentError path line "expected NAME=VALUE")
    | Some separator =>
        let name := trim (take separator entry) in
        if negb (environment_name name)
        then Throw (named_error "SyntaxError" (path ++ js ":" ++ Num.dec_nat line ++ js ": invalid environment variable name " ++ Json.quote name))
        else
          let input := trimStart (drop (S separator) entry) in
          if starts_with [c_quote] input || starts_with [c_apostrophe] input then
            value ← quotedEnvironmentValue path line input (default 0%N (head input));
            Ok (obj_set name value values)
          else Ok (obj_set name (trimEnd (before c_hash input)) values)
    end.

Fixpoint parse_lines (path : jstr) (line : nat) (lines : list jstr) (values : list (jstr * jstr)) : outcome (list (jstr * jstr)) :=
  match lines with
  | [] => Ok values
  | original :: lines => values ← parse_line path line original values; parse_lines path (S line) lines values
  end.

(** [parseEnvironmentFile(path)]; [source] is what reading the file gave. *)
Definition parseEnvironmentFile (path : jstr) (source : outcome jstr) : outcome (list (jstr * jstr)) :=
  match source with
  | Throw e => Throw (Error (js "cannot read FYLO environment file " ++ path ++ js ": " ++ err_message e))
  | Ok source => parse_lines path 1 (lines_of (match source with (65279 :: r)%N => r | _ => source end)) []
  end.

(** The child's environment: [process.env], then the overrides; [upper] is the name itself, or
    [toUpperCase] of it on Windows. *)
Definition override (upper : jstr -> jstr) (name : jstr) (v : value) (environment : list (jstr * jstr)) : outcome (list (jstr * jstr)) :=
  if bool_decide (name = []) || includes_char 61 name || includes_char 0 name
  then Throw (type_error (js "invalid environment variable name " ++ Json.quote name))
  else
    match v with
    | VUndef | VNull => Ok (obj_delete (upper name) environment)
    | _ =>
        if includes_char 0 (to_str v)
        then Throw (type_error (js "invalid environment variable value for " ++ Json.quote name ++ js ": NUL is not allowed"))
        else Ok (obj_set (upper name) (to_str v) environment)
    end.

Fixpoint override_all (upper : jstr -> jstr) (overrides : object) (environment : list (jstr * jstr)) : outcome (list (jstr * jstr)) :=
  match overrides with
  | [] => Ok environment
  | (name, v) :: overrides => environment ← override upper name v environment; override_all upper overrides environment
  end.

(** [undefined] leaves the child the environment of this process. *)
Definition childEnvironment (upper : jstr -> jstr) (process_env : list (jstr * jstr)) (readFileSync : jstr -> outcome jstr) (config : value)
    : outcome (option (list (jstr * jstr))) :=
  match config with
  | VUndef => Ok None
  | _ =>
      overrides ← (match config with
                   | VStr path => values ← parseEnvironmentFile path (readFileSync path); Ok (map (fun kv => (fst kv, VStr (snd kv))) values)
                   | VObj o => Ok o
                   | _ => Throw (type_error (js "env must be a .env file path or an environment variable object"))
                   end);
      let environment := fold_left (fun acc kv => obj_set (upper (fst kv)) (snd kv) acc) process_env [] in
      environment ← override_all upper overrides environment;
      Ok (Some environment)
  end.

(** ** The process *)

(** The arguments the process is spawned with, and the limits the client keeps. *)
Record config := mkConfig { arguments : list jstr; maxRequestBytes : nat; maxResponseBytes : nat }.

Definition spawn_config (root : jstr) (opts : value) : outcome config :=
  let option name := prop opts (js name) in
  maxRequest ← frameLimit (option "maxRequestBytes"%string) DEFAULT_MAX_REQUEST_BYTES (js "maxRequestBytes") 256;
  maxResponse ← frameLimit (option "maxResponseBytes"%string) DEFAULT_MAX_RESPONSE_BYTES (js "maxResponseBytes") 1024;
  shard ← (match option "shardWidth"%string with
           | VUndef => Ok []
           | VNum n =>
               match Num.to_Z n with
               | Some z => if (z <? 0)%Z || (MAX_SHARD_WIDTH <? z)%Z then Throw (type_error (js "shardWidth must be an integer from 0 to 4"))
                           else Ok [js "--shard-width"; Num.dec_Z z]
               | None => Throw (type_error (js "shardWidth must be an integer from 0 to 4"))
               end
           | _ => Throw (type_error (js "shardWidth must be an integer from 0 to 4"))
           end);
  Ok (mkConfig
        ([js "exec"; js "--loop"; js "--root"; root] ++
         (if truthy (option "exclusiveRoot"%string) then [js "--exclusive-root"] else []) ++
         [js "--max-request-bytes"; Num.dec_Z maxRequest; js "--max-response-bytes"; Num.dec_Z maxResponse] ++
         (if truthy (option "strictSchema"%string) then [js "--strict-schema"] else []) ++ shard)
        (Z.to_nat maxRequest) (Z.to_nat maxResponse)).

(** The connection.  Promises are numbered in the order of the calls. *)
Record connection := mkConnection {
  queue : list nat;                                 (* _queue: pending, in request order *)
  response : list N;                                (* the first _responseLength bytes of _responseBuffer *)
  oversized : bool;                                 (* _responseOversized *)
  settled : list (nat * outcome value);
  written : list (list N);                          (* what was written to stdin *)
  killed : bool;
  exited : bool;                                    (* the child's exitCode !== null *)
  calls : nat
}.

Definition settle_ (n : nat) (o : outcome value) (c : connection) : connection :=
  mkConnection (queue c) (response c) (oversized c) (settled c ++ [(n, o)]) (written c) (killed c) (exited c) (calls c).
Definition set_queue (q : list nat) (c : connection) : connection :=
  mkConnection q (response c) (oversized c) (settled c) (written c) (killed c) (exited c) (calls c).
Definition set_response (bytes : list N) (large : bool) (c : connection) : connection :=
  mkConnection (queue c) bytes large (settled c) (written c) (killed c) (exited c) (calls c).

(** [for (const pending of this._queue.splice(0)) pending.reject(error)] *)
Definition reject_all (error : js_error) (c : connection) : connection :=
  set_queue [] (fold_left (fun c n => settle_ n (Throw error) c) (queue c) c).
Definition _abortProtocol (error : js_error) (c : connection) : connection :=
  let c := reject_all error c in
  mkConnection (queue c) (response c) (oversized c) (settled c) (written c) true (exited c) (calls c).

Definition exited_error : js_error := Error (js "fylo process exited").
(** What Node notes when the child ends, before it closes: a code, or none when a signal ended
    it, as [kill()] does. *)
Definition note_exit (code : option Z) (c : connection) : connection :=
  mkConnection (queue c) (response c) (oversized c) (settled c) (written c) (killed c) (exited c || bool_decide (is_Some code)) (calls c).
Definition on_close (c : connection) : connection := reject_all exited_error c.
Definition on_error (error : js_error) (c : connection) : connection := reject_all error c.

Definition invalid_frame : js_error := protocolError "EFRAME_RESPONSE_INVALID" (js "FYLO returned malformed UTF-8 or JSON").
Definition read_frame (bytes : list N) : outcome value :=
  match decode_fatal bytes with
  | Some text => match Json.parse text with Ok v => Ok v | Throw _ => Throw invalid_frame end
  | None => Throw invalid_frame
  end.

Section Limits.
  Context (limits : config).

Definition _appendResponse (bytes : list N) (c : connection) : connection :=
  if oversized c || Nat.eqb (length bytes) 0 then c
  else if maxResponseBytes limits - length (response c) <? length bytes then set_response [] true c
  else set_response (response c ++ bytes) false c.

Definition too_large : js_error :=
  protocolError "EFRAME_RESPONSE_TOO_LARGE" (js "FYLO response exceeds " ++ Num.dec_nat (maxResponseBytes limits) ++ js " bytes").

(** The loop over the newlines of a chunk; [true] unless it ended the protocol. *)
Fixpoint data_loop (parts : list (list N)) (c : connection) : bool * connection :=
  match parts with
  | [] => (true, c)
  | [bytes] => (true, _appendResponse bytes c)
  | bytes :: rest =>
      let c := _appendResponse bytes c in
      if oversized c then (false, _abortProtocol too_large c)
      else
        match queue c with
        | [] => data_loop rest (set_response [] false c)
        | pending :: queue =>
            let c := set_queue queue c in
            match read_frame (response c) with
            | Ok v => data_loop rest (set_response [] false (settle_ pending (Ok v) c))
            | Throw error => (false, _abortProtocol error (settle_ pending (Throw error) c))
            end
        end
  end.

Definition _onData (chunk : list N) (c : connection) : connection := snd (data_loop (split_on 10 chunk) c).

Definition request_too_large : js_error :=
  protocolError "EFRAME_REQUEST_TOO_LARGE" (js "FYLO request exceeds " ++ Num.dec_nat (maxRequestBytes limits) ++ js " bytes").

(** [request(op)]: the promise's number, and the connection after. *)
Definition request (op : value) (c : connection) : nat * connection :=
  let n := calls c in
  let c := mkConnection (queue c) (response c) (oversized c) (settled c) (written c) (killed c) (exited c) (S n) in
  (n, if exited c then settle_ n (Throw exited_error) c
      else
        match Json.stringify op with
        | None => settle_ n (Throw (type_error (js "The first argument must be of type string"))) c
        | Some text =>
            let payload := encode text in
            if maxRequestBytes limits <? length payload then settle_ n (Throw request_too_large) c
            else mkConnection (queue c ++ [n]) (response c) (oversized c) (settled c) (written c ++ [payload ++ [10%N]]) (killed c) (exited c) (calls c)
        end).

(** The payload [_sendOp(op, fields)] sends, and what it makes of the response. *)
Definition payload (op : jstr) (fields : object) : value :=
  VObj (fold_left (fun acc kv => if is_undef (snd kv) then acc else obj_set (fst kv) (snd kv) acc) fields [(js "op", VStr op)]).

Definition or_text (v : value) (other : jstr) : jstr := if truthy v then to_str v else other.
Definition response_result (r : value) : outcome value :=
  match r with
  | VUndef | VNull => Throw (type_error (js "Cannot read properties of null (reading 'ok')"))
  | _ =>
      if truthy (prop r (js "ok")) then Ok (prop r (js "result"))
      else
        let error := prop r (js "error") in
        Throw {| err_name := or_text (prop error (js "name")) (js "Error");
                 err_message := (if is_nullish (prop error (js "message")) then js "fylo error" else to_str (prop error (js "message")));
                 err_code := if truthy (prop error (js "code")) then Some (to_str (prop error (js "code"))) else None |}
  end.

(** [ready]: the identity, if its limits are the client's. *)
Definition handshake_limits (identity : value) : bool :=
  strict_eq (prop (prop identity (js "machine")) (js "maxRequestBytes")) (VNum (Num.of_Z (Z.of_nat (maxRequestBytes limits)))) &&
  strict_eq (prop (prop identity (js "machine")) (js "maxResponseBytes")) (VNum (Num.of_Z (Z.of_nat (maxResponseBytes limits)))).
Definition limit_error : js_error :=
  protocolError "EPROTOCOL_LIMIT" (js "FYLO handshake frame limits do not match the client configuration").
Definition ready (identity : value) (c : connection) : outcome value * connection :=
  if handshake_limits identity then (Ok identity, c)
  else (Throw limit_error, mkConnection (queue c) (response c) (oversized c) (settled c) (written c) true (exited c) (calls c)).

End Limits.

Definition opened : connection := mkConnection [] [] false [] [] false false 0.

(** ** Frames, however the bytes arrive *)

Section Frames.
  Context (limits : config).

Lemma append_app x y c : _appendResponse limits (x ++ y) c = _appendResponse limits y (_appendResponse limits x c).
Proof.
  destruct x as [|b x]; [by unfold _appendResponse at 3; cbn; rewrite orb_true_r|]. destruct y as [|d y].
  { rewrite app_nil_r. unfold _appendResponse at 2. cbn [length Nat.eqb]. by rewrite orb_true_r. }
  unfold _appendResponse. destruct (oversized c) eqn:Ho; cbn [orb]; [by rewrite Ho|]. rewrite length_app. cbn [length Nat.eqb Nat.add].
  destruct (Nat.ltb_spec (maxResponseBytes limits - length (response c)) (S (length x))) as [Hl|Hl].
  - cbn [oversized set_response orb]. rewrite (proj2 (Nat.ltb_lt _ _)) by lia. done.
  - cbn [oversized set_response orb response]. rewrite length_app. cbn [length].
    destruct (Nat.ltb_spec (maxResponseBytes limits - length (response c)) (S (length x + S (length y)))) as [H2|H2].
    + rewrite (proj2 (Nat.ltb_lt _ _)) by lia. done.
    + rewrite (proj2 (Nat.ltb_ge _ _)) by lia. unfold set_response. cbn. by rewrite <- app_assoc.
Qed.

Lemma data_loop_step x y parts c :
  data_loop limits (x :: y :: parts) c =
    let c := _appendResponse limits x c in
    if oversized c then (false, _abortProtocol (too_large limits) c)
    else
      match queue c with
      | [] => data_loop limits (y :: parts) (set_response [] false c)
      | pending :: queue =>
          let c := set_queue queue c in
          match read_frame (response c) with
          | Ok v => data_loop limits (y :: parts) (set_response [] false (settle_ pending (Ok v) c))
          | Throw error => (false, _abortProtocol error (settle_ pending (Throw error) c))
          end
      end.
Proof. reflexivity. Qed.

Lemma loop_app P x y Q c :
  data_loop limits (P ++ (x ++ y) :: Q) c =
    let '(go, c1) := data_loop limits (P ++ [x]) c in if go then data_loop limits (y :: Q) c1 else (false, c1).
Proof.
  revert c. induction P as [|p P IH]; intros c.
  - cbn [app]. destruct Q as [|q Q]; cbn [data_loop]; by rewrite append_app.
  - cbn [app]. assert (forall r, exists a b, P ++ [r] = a :: b) as Hcons by (intros r; destruct P; by eexists _, _).
    destruct (Hcons x) as (a & b & Hab). rewrite Hab in *.
    assert (exists a' b', P ++ (x ++ y) :: Q = a' :: b') as (a' & b' & Hab') by (destruct P; by eexists _, _). rewrite Hab' in *. rewrite !data_loop_step. cbv zeta.
    destruct (oversized _); [done|]. destruct (queue _) as [|pending q]; [apply IH|]. destruct (read_frame _); [apply IH|done].
Qed.

Lemma split_app_parts a b : exists P x y Q, split_on 10 a = P ++ [x] /\ split_on 10 b = y :: Q /\ split_on 10 (a ++ b) = P ++ (x ++ y) :: Q.
Proof.
  induction a as [|c a (P & x & y & Q & Ha & Hb & Hab)].
  - pose proof (split_on_nonempty 10 b) as Hne. destruct (split_on 10 b) as [|y Q] eqn:Hb; [done|]. exists [], [], y, Q. cbn [app split_on]. by rewrite Hb.
  - cbn [app split_on]. rewrite Ha, Hb, Hab. destruct (c =? 10)%N.
    + exists ([] :: P), x, y, Q. done.
    + destruct P as [|p P]; cbn [app]; [exists [], (c :: x), y, Q|exists ((c :: p) :: P), x, y, Q]; done.
Qed.

Lemma onData_app a b c :
  let '(go, c1) := data_loop limits (split_on 10 a) c in
  _onData limits (a ++ b) c = if go then _onData limits b c1 else c1.
Proof.
  unfold _onData. destruct (split_app_parts a b) as (P & x & y & Q & -> & -> & ->). rewrite loop_app.
  destruct (data_loop limits (P ++ [x]) c) as [[] c1]; done.
Qed.

(** What the callers and the process see. *)
Definition observed (c : connection) : list nat * list (nat * outcome value) * bool := (queue c, settled c, killed c).

Lemma queue_settle n o c : queue (settle_ n o c) = queue c.
Proof. done. Qed.

Lemma reject_all_spec error c : queue (reject_all error c) = [] /\ settled (reject_all error c) = settled c ++ map (fun n => (n, Throw error)) (queue c) /\
  killed (reject_all error c) = killed c /\ calls (reject_all error c) = calls c /\ exited (reject_all error c) = exited c /\
  response (reject_all error c) = response c /\ written (reject_all error c) = written c.
Proof.
  unfold reject_all. split; [done|]. generalize (queue c) at 1 2 3 4 5 6 7. intros q. cbn [settled set_queue killed calls exited response written].
  revert c. induction q as [|n q IH]; intros c; cbn [fold_left map]; [by rewrite app_nil_r|].
  destruct (IH (settle_ n (Throw error) c)) as (-> & -> & -> & -> & -> & ->). cbn. by rewrite <- app_assoc.
Qed.

(** A run that ended the protocol left nothing pending. *)
Lemma loop_ended parts c c1 : data_loop limits parts c = (false, c1) -> queue c1 = [] /\ killed c1 = true.
Proof.
  revert c. induction parts as [|x [|y parts] IH]; intros c; [done|done|]. rewrite data_loop_step. cbv zeta.
  destruct (oversized _); [intros [= <-]; split; [apply reject_all_spec|done]|].
  destruct (queue (_appendResponse limits x c)) as [|n q]; [apply IH|]. destruct (read_frame _); [apply IH|]. intros [= <-]. split; [apply reject_all_spec|done].
Qed.

Lemma append_observed x c : observed (_appendResponse limits x c) = observed c.
Proof. unfold _appendResponse. destruct (_ || _); [done|]. by destruct (_ <? _). Qed.

(** With nothing pending and the process killed, data changes nothing to be seen. *)
Lemma loop_idle parts c : queue c = [] -> killed c = true -> observed (snd (data_loop limits parts c)) = observed c.
Proof.
  revert c. induction parts as [|x [|y parts] IH]; intros c Hq Hk; [done|apply append_observed|]. rewrite data_loop_step. cbv zeta.
  pose proof (append_observed x c) as Hx. injection Hx as Hqx Hsx Hkx. rewrite Hq in Hqx. rewrite Hqx.
  destruct (oversized _).
  - cbn [snd]. unfold _abortProtocol, observed. cbn [queue settled killed]. destruct (reject_all_spec (too_large limits) (_appendResponse limits x c)) as (-> & -> & _).
    rewrite Hqx. cbn [map]. by rewrite app_nil_r, Hsx, Hq, Hk.
  - rewrite IH; [|done|by cbn; rewrite Hkx]. unfold observed. cbn. by rewrite Hqx, Hsx, Hkx, Hq.
Qed.

Lemma idle_chunks chunks c : queue c = [] -> killed c = true -> observed (fold_left (fun c chunk => _onData limits chunk c) chunks c) = observed c.
Proof.
  revert c. induction chunks as [|x chunks IH]; intros c Hq Hk; cbn [fold_left]; [done|].
  pose proof (loop_idle (split_on 10 x) c Hq Hk) as Hx. fold (_onData limits x c) in Hx. injection Hx as H1 H2 H3.
  rewrite IH by congruence. unfold observed. congruence.
Qed.

Lemma chunks_observed chunks c :
  observed (fold_left (fun c chunk => _onData limits chunk c) chunks c) = observed (_onData limits (concat chunks) c).
Proof.
  revert c. induction chunks as [|x chunks IH]; intros c; cbn [fold_left concat]; [by rewrite <- (append_observed [] c)|].
  pose proof (onData_app x (concat chunks) c) as Happ. unfold _onData at 2.
  destruct (data_loop limits (split_on 10 x) c) as [go c1] eqn:Hx. cbn [snd]. rewrite Happ. destruct go; [apply IH|].
  destruct (loop_ended _ _ _ Hx). by apply idle_chunks.
Qed.

(** How the process's output is cut into chunks does not matter: the same promises settle,
    in the same order and with the same outcomes, the same stay pending, and the process is
    killed or not, as if all of it had come at once. *)
Theorem chunking_is_irrelevant chunks chunks' c : concat chunks = concat chunks' ->
  observed (fold_left (fun c chunk => _onData limits chunk c) chunks c) = observed (fold_left (fun c chunk => _onData limits chunk c) chunks' c).
Proof. intros Heq. by rewrite !chunks_observed, Heq. Qed.


(** *** The frames of a process that answers *)

Lemma escape_no_control x : code_units x = true -> Forall (fun c => (32 <= c)%N) (Json.escape x).
Proof.
  assert (forall d, (32 <= Json.hex_digit d)%N) as Hhex.
  { intros d. unfold Json.hex_digit, Num.digit_char. destruct (d <? 10)%N; lia. }
  assert (forall c, Forall (fun c => (32 <= c)%N) (Json.unicode_escape c)) as Hu by (intros c; unfold Json.unicode_escape; repeat constructor; (done || apply Hhex)).
  assert (forall c, Forall (fun c => (32 <= c)%N) (Json.escape_unit c)) as He.
  { intros c. unfold Json.escape_unit. repeat match goal with |- context [if ?b then _ else _] => destruct b eqn:? end; try apply Hu; repeat constructor; try done; lia. }
  induction x as [|c|c d x IH1 IH2] using jstr_ind2; intros Hx; [constructor|cbn; destruct (is_surrogate c); auto|].
  cbn [code_units forallb] in Hx. unfold code_units in Hx. cbn [forallb] in Hx. apply andb_true_iff in Hx as [Hc Hx]. pose proof Hx as Hx'. cbn [forallb] in Hx'. apply andb_true_iff in Hx' as [Hd Hx'].
  rewrite Json.escape_cons2. destruct (is_high c && is_low d) eqn:Es.
  - unfold is_high, is_low, in_range in Es. repeat (apply Forall_cons; split; [lia|]). by apply IH1.
  - destruct (is_surrogate c); apply Forall_app; auto.
Qed.

Lemma text_no_control v : Json.jsonable v = true -> Forall (fun c => (32 <= c)%N) (Json.text v).
Proof.
  assert (forall x, code_units x = true -> Forall (fun c => (32 <= c)%N) (Json.quote x)) as Hq.
  { intros x Hx. unfold Json.quote. apply Forall_app. split; [by repeat constructor|]. apply Forall_app. split; [by apply escape_no_control|by repeat constructor]. }
  assert (forall sep l, (32 <= sep)%N -> Forall (Forall (fun c => (32 <= c)%N)) l -> Forall (fun c => (32 <= c)%N) (join_with [sep] l)) as Hj.
  { intros sep l Hsep Hl. induction Hl as [|x l Hx Hl IH]; [constructor|]. destruct l as [|y l]; [done|]. rewrite join_with_cons by done.
    apply Forall_app. split; [done|]. by constructor. }
  induction v as [| |b|n|x|l IH|o IH] using value_rect'; cbn [Json.jsonable Json.text]; intros Hv.
  - done.
  - by vm_compute; repeat constructor.
  - destruct b; by vm_compute; repeat constructor.
  - unfold Json.number_ok in Hv. rewrite !andb_true_iff in Hv. destruct Hv as [[[Hn _] _] _]. rewrite forallb_forall in Hn. apply Forall_forall. intros c Hc%list_elem_of_In.
    specialize (Hn c Hc). unfold Json.num_char, is_digit, in_range in Hn. lia.
  - by apply Hq.
  - apply Forall_app. split; [by repeat constructor|]. apply Forall_app. split; [|by repeat constructor]. apply Hj; [done|]. apply Forall_fmap.
    rewrite forallb_forall in Hv. rewrite Forall_forall in IH |- *. intros v Hin. apply IH; [done|]. by apply Hv, list_elem_of_In.
  - apply andb_true_iff in Hv as [_ Hv]. apply Forall_app. split; [by repeat constructor|]. apply Forall_app. split; [|by repeat constructor]. apply Hj; [done|]. apply Forall_fmap.
    rewrite forallb_forall in Hv. rewrite Forall_forall in IH |- *. intros [k v] Hin. pose proof (Hv _ (proj1 (list_elem_of_In _ _) Hin)) as Hkv. cbn [fst snd] in Hkv |- *. apply andb_true_iff in Hkv as [Hk Hkv].
    apply Forall_app. split; [by apply Hq|]. apply Forall_app. split; [by repeat constructor|]. by apply (IH (k, v)).
Qed.

Lemma encode_no_newline x : Forall (fun c => (32 <= c)%N) x -> 10%N ∉ encode x.
Proof.
  intros Hx Hin%list_elem_of_In. unfold encode in Hin. apply in_flat_map in Hin as (cp & Hcp & Hb).
  assert (32 <= cp)%N as H32.
  { revert Hx Hcp. clear. induction x as [|c|c d x IH1 IH2] using jstr_ind2; intros Hx Hcp; [done| |].
    - cbn in Hcp. destruct Hcp as [<-|[]]. by inversion Hx.
    - rewrite code_points_cons2 in Hcp. apply Forall_cons in Hx as [Hc Hx]. apply Forall_cons in Hx as [Hd Hx].
      destruct (is_high c && is_low d) eqn:Es; [destruct Hcp as [<-|Hcp]; [unfold combine; lia|by apply IH1]|].
      destruct Hcp as [<-|Hcp]; [done|]. apply IH2; [by constructor|done]. }
  assert (32 <= (if is_surrogate cp then replacement else cp))%N as Hr by (destruct (is_surrogate cp); [done|done]).
  revert Hb. generalize dependent (if is_surrogate cp then replacement else cp). clear. intros cp Hr Hb. unfold utf8_bytes in Hb.
  repeat match type of Hb with context [if ?b then _ else _] => destruct b eqn:? end; cbn in Hb; lia.
Qed.

(** One response on its line. *)
Definition frame (v : value) : list N := encode (Json.text v) ++ [10%N].

Lemma frame_reads v : Json.jsonable v = true -> read_frame (encode (Json.text v)) = Ok v.
Proof.
  intros Hj. pose proof (Json.text_fit v Hj) as [Hu Hw]%andb_true_iff. pose proof (Json.text_no_bom v Hj) as Hb. unfold read_frame. rewrite decode_fatal_encode by done.
  destruct (Json.store_roundtrip v Hj) as [_ Hp]. rewrite Json.decode_text in Hp by done. by rewrite Hp.
Qed.

Lemma frames_split vs : Forall (fun v => Json.jsonable v = true) vs ->
  split_on 10 (concat (map frame vs)) = map (fun v => encode (Json.text v)) vs ++ [[]].
Proof.
  induction 1 as [|v vs Hv _ IH]; [done|]. cbn [map concat app]. unfold frame at 1. rewrite <- app_assoc. cbn [app].
  rewrite split_on_app by (apply encode_no_newline; by apply text_no_control). by rewrite IH.
Qed.

Lemma frames_loop vs ps qs c : length ps = length vs -> Forall (fun v => Json.jsonable v = true /\ length (encode (Json.text v)) <= maxResponseBytes limits) vs ->
  queue c = ps ++ qs -> response c = [] -> oversized c = false ->
  exists c1, data_loop limits (map (fun v => encode (Json.text v)) vs ++ [[]]) c = (true, c1) /\
    observed c1 = (qs, settled c ++ zip ps (map Ok vs), killed c) /\ response c1 = [] /\ oversized c1 = false.
Proof.
  intros Hlen Hvs. revert ps c Hlen. induction Hvs as [|v vs [Hj Hl] _ IH]; intros [|p ps] c Hlen Hq Hr Ho; try discriminate Hlen.
  - exists c. cbn [map app data_loop]. assert (_appendResponse limits [] c = c) as -> by (unfold _appendResponse; cbn; by rewrite orb_true_r).
    split_and!; try done. unfold observed. by rewrite Hq, app_nil_r.
  - cbn [map app]. assert (exists a b, map (fun v => encode (Json.text v)) vs ++ [[]] = a :: b) as (a & b & Hab) by (destruct vs; by eexists _, _).
    rewrite Hab in *. rewrite data_loop_step. cbv zeta.
    assert (_appendResponse limits (encode (Json.text v)) c = set_response (encode (Json.text v)) false c) as ->.
    { unfold _appendResponse. rewrite Ho, Hr. cbn [orb length app]. destruct (Nat.eqb_spec (length (encode (Json.text v))) 0) as [E|E].
      - apply nil_length_inv in E. rewrite E. destruct c; cbn in *. by subst.
      - by rewrite (proj2 (Nat.ltb_ge _ _)) by lia. }
    cbn [oversized set_response queue]. rewrite Hq. cbn [app]. cbn [response set_queue set_response]. rewrite frame_reads by done.
    set (c' := set_response [] false (settle_ p (Ok v) (set_queue (ps ++ qs) (set_response (encode (Json.text v)) false c)))).
    destruct (IH ps c') as (c1 & Hrun & Hobs & Hrest); [by injection Hlen|done|done|done|]. exists c1. split_and!; [done| |apply Hrest|apply Hrest].
    rewrite Hobs. unfold c'. cbn. by rewrite <- app_assoc.
Qed.

(** C18: responses settle the promises in the order of the requests, each with its own
    response, however they are cut into chunks; the promises beyond stay pending. *)
Theorem responses_settle_in_order vs ps qs chunks c : length ps = length vs ->
  Forall (fun v => Json.jsonable v = true /\ length (encode (Json.text v)) <= maxResponseBytes limits) vs ->
  queue c = ps ++ qs -> response c = [] -> oversized c = false -> concat chunks = concat (map frame vs) ->
  let c' := fold_left (fun c chunk => _onData limits chunk c) chunks c in
  queue c' = qs /\ settled c' = settled c ++ zip ps (map Ok vs) /\ killed c' = killed c.
Proof.
  intros Hlen Hvs Hq Hr Ho Hch c'. destruct (frames_loop vs ps qs c Hlen Hvs Hq Hr Ho) as (c1 & Hrun & Hobs & _).
  assert (observed c' = (qs, settled c ++ zip ps (map Ok vs), killed c)) as [= -> -> ->]; [|done].
  unfold c'. rewrite chunks_observed, Hch. unfold _onData. rewrite frames_split by (eapply Forall_impl; [exact Hvs|]; by intros ? []).
  by rewrite Hrun.
Qed.


(** ** The life of a connection *)

(** What happens to it: a call, a chunk of output, the process ending with a code or by a
    signal, its streams closing, its failure, or its name in the handshake. *)
Inductive event := Request (op : value) | Data (chunk : list N) | Exit (code : option Z) | Closed | Failed (error : js_error) | Identity (identity : value).

Definition step (e : event) (c : connection) : connection :=
  match e with
  | Request op => snd (request limits op c)
  | Data chunk => _onData limits chunk c
  | Exit code => note_exit code c
  | Closed => on_close c
  | Failed error => on_error error c
  | Identity identity => snd (ready limits identity c)
  end.

(** A request as the process reads it: one line within the limit. *)
Definition is_line (bytes : list N) : Prop := exists body, bytes = body ++ [10%N] /\ 10%N ∉ body /\ length body <= maxRequestBytes limits.

Record sound (c : connection) : Prop := {
  sound_promises : queue c ++ (settled c).*1 ≡ₚ seq 0 (calls c);
  sound_buffer : length (response c) <= maxResponseBytes limits;
  sound_lines : Forall is_line (written c)
}.

Lemma settle_promises n q (l : list (nat * outcome value)) o : (n :: q) ++ l.*1 ≡ₚ q ++ (l ++ [(n, o)]).*1.
Proof. rewrite fmap_app. cbn [fmap list_fmap fst]. rewrite app_assoc. cbn [app]. apply Permutation_cons_append. Qed.

Lemma reject_all_sound error c : sound c -> sound (reject_all error c).
Proof.
  intros [Hp Hb Hl]. destruct (reject_all_spec error c) as (Hq & Hs & _ & Hc & Hx & Hr & Hw). split; rewrite ?Hq, ?Hs, ?Hc, ?Hr, ?Hw; [|done|done].
  cbn [app]. rewrite fmap_app. rewrite <- Hp, (Permutation_app_comm (queue c)). apply Permutation_app_head. rewrite <- list_fmap_compose.
  assert (forall q : list nat, (fst ∘ (fun n => (n, @Throw value error))) <$> q = q) as -> by (intros q; induction q as [|n q IH]; [done|cbn; by f_equal]). done.
Qed.

Lemma append_sound x c : sound c -> sound (_appendResponse limits x c).
Proof.
  intros [Hp Hb Hl]. unfold _appendResponse. destruct (_ || _); [done|]. destruct (Nat.ltb_spec (maxResponseBytes limits - length (response c)) (length x)); split; try done; cbn [response set_response].
  - cbn. lia.
  - rewrite length_app. lia.
Qed.

Lemma cleared_sound c : sound c -> sound (set_response [] false c).
Proof. intros [Hp Hb Hl]. split; [done|cbn; lia|done]. Qed.

Lemma answered_sound n q o c : queue c = n :: q -> sound c -> sound (settle_ n o (set_queue q c)).
Proof.
  intros Hq [Hp Hb Hl]. split; [|done|done]. cbn [queue settled set_queue settle_ calls]. by rewrite <- settle_promises, <- Hq.
Qed.

Lemma loop_sound parts c : sound c -> sound (snd (data_loop limits parts c)).
Proof.
  revert c. induction parts as [|x [|y parts] IH]; intros c Hc; [done|by apply append_sound|]. rewrite data_loop_step. cbv zeta.
  pose proof (append_sound x c Hc) as Hx. destruct (oversized _).
  { cbn [snd]. pose proof (reject_all_sound (too_large limits) _ Hx) as [? ? ?]. by split. }
  destruct (queue (_appendResponse limits x c)) as [|n q] eqn:Hq; [by apply IH, cleared_sound|]. destruct (read_frame _) as [v|e].
  - apply IH, cleared_sound. by apply answered_sound.
  - cbn [snd]. pose proof (reject_all_sound e _ (answered_sound n q (Throw e) _ Hq Hx)) as [? ? ?]. by split.
Qed.

Definition sendable (e : event) : Prop := match e with Request op => Json.jsonable (Json.carried op) = true | _ => True end.

Lemma step_sound e c : sound c -> sendable e -> sound (step e c).
Proof.
  intros Hc He. destruct e as [op|chunk|code| |error|identity]; cbn [step].
  - assert (forall o, sound (settle_ (calls c) o (mkConnection (queue c) (response c) (oversized c) (settled c) (written c) (killed c) (exited c) (S (calls c))))) as Hsettle.
    { intros o. destruct Hc as [Hp Hb Hl]. split; try done. cbn [queue settled settle_ calls]. rewrite fmap_app, app_assoc, Hp, seq_S. done. }
    unfold request. cbn [exited]. destruct (exited c) eqn:Hx; [apply Hsettle|]. cbn [snd]. destruct (Json.stringify op) as [text|] eqn:Ht; [|apply Hsettle].
    destruct (Nat.ltb_spec (maxRequestBytes limits) (length (encode text))) as [Hl|Hl]; [apply Hsettle|]. destruct Hc as [Hp Hb Hlines].
    split; cbn [queue response settled written exited calls]; [|done|].
    + rewrite seq_S, <- Hp, <- !app_assoc. apply Permutation_app_head. apply Permutation_app_comm.
    + apply Forall_app. split; [done|]. constructor; [|constructor]. exists (encode text). split_and!; [done| |done].
      apply encode_no_newline. unfold Json.stringify in Ht. destruct (is_undef op); [done|]. injection Ht as <-. by apply text_no_control.
  - by apply loop_sound.
  - by destruct Hc.
  - by apply reject_all_sound.
  - by apply reject_all_sound.
  - unfold ready. destruct (handshake_limits _ _); [done|]. destruct Hc. by split.
Qed.

Lemma append_queue x c : queue (_appendResponse limits x c) = queue c /\ calls (_appendResponse limits x c) = calls c /\ exited (_appendResponse limits x c) = exited c.
Proof. unfold _appendResponse. destruct (_ || _); [done|]. by destruct (_ <? _). Qed.

Lemma reject_all_queue error c : queue (reject_all error c) = [] /\ calls (reject_all error c) = calls c /\ exited (reject_all error c) = exited c.
Proof. destruct (reject_all_spec error c) as (? & _ & _ & ? & ? & _). done. Qed.

Lemma loop_queue parts c : let c' := snd (data_loop limits parts c) in
  (forall n, n ∈ queue c' -> n ∈ queue c) /\ calls c' = calls c /\ exited c' = exited c.
Proof.
  revert c. induction parts as [|x [|y parts] IH]; intros c; [done|cbn [data_loop snd]; by destruct (append_queue x c) as (-> & -> & ->)|].
  rewrite data_loop_step. cbv zeta. destruct (append_queue x c) as (Hq & Hc & Hx). destruct (oversized _).
  { cbn [snd _abortProtocol queue calls exited]. destruct (reject_all_queue (too_large limits) (_appendResponse limits x c)) as (-> & -> & ->).
    split_and!; [by intros n ?%elem_of_nil|done|done]. }
  rewrite Hq. destruct (queue c) as [|n q].
  { destruct (IH (set_response [] false (_appendResponse limits x c))) as (H1 & -> & ->). split_and!; [|done|done]. intros n Hn%H1. cbn in Hn. by rewrite Hq in Hn. }
  destruct (read_frame _) as [v|e].
  - destruct (IH (set_response [] false (settle_ n (Ok v) (set_queue q (_appendResponse limits x c))))) as (H1 & -> & ->). split_and!; [|done|done].
    intros m Hm%H1. by right.
  - cbn [snd _abortProtocol queue calls exited]. destruct (reject_all_queue e (settle_ n (Throw e) (set_queue q (_appendResponse limits x c)))) as (-> & -> & ->).
    split_and!; [by intros m ?%elem_of_nil|done|done].
Qed.

(** What is pending after an event was pending before it, or is a call made while no exit code
    was noted. *)
Lemma step_queue e c :
  (forall n, n ∈ queue (step e c) -> n ∈ queue c \/ n = calls c /\ exited c = false) /\ calls c <= calls (step e c) /\
  exited (step e c) = exited c || match e with Exit code => bool_decide (is_Some code) | _ => false end.
Proof.
  destruct e as [op|chunk|code| |error|identity]; cbn [step]; rewrite ?orb_false_r.
  - unfold request. cbn [exited snd]. destruct (exited c) eqn:Hx; [split_and!; [by left|cbn; lia|done]|].
    destruct (Json.stringify op); [|split_and!; [by left|cbn; lia|done]]. destruct (_ <? _); [split_and!; [by left|cbn; lia|done]|].
    cbn [queue calls exited]. split_and!; [|lia|done]. intros n [Hn|Hn%list_elem_of_singleton]%elem_of_app; [by left|by right].
  - destruct (loop_queue (split_on 10 chunk) c) as (H1 & H2 & H3). unfold _onData. split_and!; [|by rewrite H2|done]. intros n Hn. left. by apply H1.
  - split_and!; [by left|done|done].
  - unfold on_close. destruct (reject_all_queue exited_error c) as (-> & -> & ->). split_and!; [by intros n ?%elem_of_nil|done|done].
  - unfold on_error. destruct (reject_all_queue error c) as (-> & -> & ->). split_and!; [by intros n ?%elem_of_nil|done|done].
  - unfold ready. destruct (handshake_limits _ _); (split_and!; [by left|done|done]).
Qed.

Definition run (events : list event) (c : connection) : connection := fold_left (fun c e => step e c) events c.

Lemma run_sound events c : sound c -> Forall sendable events -> sound (run events c).
Proof. intros Hc He. revert c Hc. induction He as [|e events He _ IH]; intros c Hc; [done|]. by apply IH, step_sound. Qed.

Lemma run_queue events c :
  (forall n, n ∈ queue (run events c) -> n ∈ queue c \/ calls c <= n /\ exited c = false) /\ calls c <= calls (run events c) /\
  (exited c = true \/ (exists code, Exit (Some code) ∈ events) -> exited (run events c) = true).
Proof.
  revert c. induction events as [|e events IH]; intros c; cbn [run fold_left].
  { split_and!; [by left|done|by intros [?|[code ?%elem_of_nil]]]. }
  fold (run events (step e c)). destruct (step_queue e c) as (H1 & H2 & H3), (IH (step e c)) as (H4 & H5 & H6). split_and!; [|lia|].
  - intros n [Hn|[Hn Hx]]%H4; [apply H1 in Hn as [Hn|[-> Hx]]; [by left|by right]|]. right. split; [lia|]. rewrite H3 in Hx. by destruct (exited c).
  - intros [Hx|[code [<-|Hx]%elem_of_cons]]; apply H6; [left; by rewrite H3, Hx|left; rewrite H3; by rewrite orb_true_r|right; by exists code].
Qed.

(** C17: whatever happens to a connection, every call's promise is either pending or has
    settled, exactly once; the response buffer stays within its limit; what was written to the
    process is one line of bounded length per request. Every call made before the process
    closes has settled once it closes, and when the process had ended with an exit code no
    call, earlier or later, is left pending. *)
Theorem every_promise_settles_once events : Forall sendable events ->
  let c := run events opened in
  NoDup (queue c ++ (settled c).*1) /\ (forall n, n ∈ queue c ++ (settled c).*1 <-> n < calls c) /\
  length (response c) <= maxResponseBytes limits /\ Forall is_line (written c) /\
  (forall before after, events = before ++ Closed :: after ->
     (forall n, n < calls (run before opened) -> n ∈ (settled c).*1) /\
     (forall code, Exit (Some code) ∈ before -> queue c = [] /\ forall n, n < calls c -> n ∈ (settled c).*1)).
Proof.
  intros He c. assert (sound c) as [Hp Hb Hl].
  { apply run_sound; [|done]. split; [done|cbn; lia|constructor]. }
  assert (forall n, n ∈ queue c ++ (settled c).*1 <-> n < calls c) as Hin by (intros n; rewrite Hp, elem_of_seq; lia).
  split_and!; [rewrite Hp; apply NoDup_seq|done|done|done|]. intros before after ->.
  assert (c = run after (on_close (run before opened))) as Hc by (unfold c, run; by rewrite fold_left_app).
  destruct (reject_all_queue exited_error (run before opened)) as (Hq & Hcalls & Hx). fold (on_close (run before opened)) in Hq, Hcalls, Hx.
  destruct (run_queue after (on_close (run before opened))) as (H1 & H2 & _). rewrite <- Hc in H1, H2. rewrite Hq, Hcalls, Hx in H1. split.
  - intros n Hn. assert (n ∈ queue c ++ (settled c).*1) as [Hn'|?]%elem_of_app by (apply Hin; lia); [|done].
    apply H1 in Hn' as [Hn'%elem_of_nil|[Hn' _]]; [done|lia].
  - intros code Hcode. destruct (run_queue before opened) as (_ & _ & H3). rewrite H3 in H1 by (right; by exists code).
    assert (queue c = []) as Hq'. { destruct (queue c) as [|n q]; [done|]. by destruct (H1 n (list_elem_of_here _ _)) as [?%elem_of_nil|[_ ?]]. }
    split; [done|]. intros n Hn%Hin. by rewrite Hq' in Hn.
Qed.

(** A process that a signal ended, as the client's own [kill()] does, has no exit code: a call
    made after it closed waits for ever. *)
Lemma call_after_a_signal_waits before op text : let c := run (before ++ [Exit None; Closed]) opened in exited c = false ->
  Json.stringify op = Some text -> length (encode text) <= maxRequestBytes limits -> queue (step (Request op) c) = [calls c].
Proof.
  intros c Hx Ht Hl. cbn [step]. unfold request. cbn [exited snd]. rewrite Hx, Ht, (proj2 (Nat.ltb_ge _ _) Hl). cbn [queue].
  assert (queue c = []) as ->; [|done]. unfold c, run. rewrite fold_left_app. cbn [fold_left step]. apply reject_all_queue.
Qed.

End Frames.

(** ** Environment files are read back *)

(** A value between double quotes, with the escapes it needs. *)
Definition escape_value (v : jstr) : jstr :=
  flat_map (fun c => if (c =? 10)%N then [c_backslash; 110%N] else if (c =? 13)%N then [c_backslash; 114%N]
                     else if (c =? c_quote)%N || (c =? c_backslash)%N then [c_backslash; c] else [c]) v.
Definition entry_line (kv : jstr * jstr) : jstr := fst kv ++ 61%N :: c_quote :: escape_value (snd kv) ++ [c_quote].
Definition render (values : list (jstr * jstr)) : jstr := flat_map (fun kv => entry_line kv ++ [10%N]) values.

Lemma quoted_escaped path line acc v : quoted_loop path line c_quote acc (escape_value v ++ [c_quote]) = Ok (acc ++ v).
Proof.
  revert acc. induction v as [|c v IH]; intros acc; [by cbn; rewrite app_nil_r|]. cbn [escape_value flat_map]. fold (escape_value v). rewrite <- app_assoc.
  assert (forall e, unescaped e = [c] -> quoted_loop path line c_quote acc (c_backslash :: e :: escape_value v ++ [c_quote]) = Ok (acc ++ c :: v)) as Hesc.
  { intros e He. cbn [quoted_loop]. change (c_backslash =? c_quote)%N with false. change (c_quote =? c_quote)%N with true. rewrite N.eqb_refl. cbn [andb].
    rewrite He, IH, <- app_assoc. done. }
  destruct (N.eqb_spec c 10) as [->|H10]; [by apply Hesc|]. destruct (N.eqb_spec c 13) as [->|H13]; [by apply Hesc|].
  destruct ((c =? c_quote)%N || (c =? c_backslash)%N) eqn:Eq.
  - apply Hesc. unfold unescaped. apply orb_true_iff in Eq as [->%N.eqb_eq| ->%N.eqb_eq]; by vm_compute.
  - apply orb_false_iff in Eq as [Eq1 Eq2]. cbn [app quoted_loop]. rewrite Eq1, Eq2, andb_false_r. rewrite IH, <- app_assoc. done.
Qed.

Definition name_char (c : N) : bool := is_alnum c || (c =? 95)%N.
Lemma name_shape name : environment_name name = true -> exists c r, name = c :: r /\ (is_alpha c = true \/ c = 95%N) /\ Forall (fun c => name_char c = true) name.
Proof.
  destruct name as [|c r]; [done|]. cbn [environment_name]. intros [Hc Hr]%andb_true_iff. exists c, r. split; [done|].
  apply orb_true_iff in Hc. split; [destruct Hc as [Hc|Hc%N.eqb_eq]; auto|]. constructor.
  - unfold name_char, is_alnum. destruct Hc as [->| ->]; [done|by rewrite orb_true_r].
  - apply Forall_forall. intros x Hx%list_elem_of_In. rewrite forallb_forall in Hr. by apply Hr.
Qed.

Lemma name_char_plain c : name_char c = true -> is_space c = false /\ c <> 61%N /\ c <> 10%N /\ c <> 35%N /\ (c < 128)%N.
Proof. unfold name_char, is_alnum, is_alpha, is_upper, is_lower, is_digit, is_space, in_range. intros H. split_and!; lia. Qed.

Lemma name_trim name : environment_name name = true -> trim name = name.
Proof.
  intros Hn. destruct (name_shape name Hn) as (c & r & -> & _ & Hall). apply trim_solid.
  - apply Forall_cons in Hall as [Hc _]. by apply name_char_plain.
  - unfold solid_end. destruct (last (c :: r)) as [d|] eqn:E; [|by apply last_None in E]. apply negb_true_iff. apply last_Some in E as [l Hl]. rewrite Hl in Hall.
    apply Forall_app in Hall as [_ [Hd _]%Forall_cons]. by apply name_char_plain.
Qed.

Lemma index_of_app c a b : c ∉ a -> index_of c (a ++ c :: b) = Some (length a).
Proof.
  induction a as [|x a IH]; intros Ha; cbn [app index_of]; [by rewrite N.eqb_refl|]. apply not_elem_of_cons in Ha as [Hx Ha].
  rewrite (proj2 (N.eqb_neq _ _)) by congruence. by rewrite IH.
Qed.

Lemma parse_entry path line kv values : environment_name (fst kv) = true ->
  parse_line path line (entry_line kv) values = Ok (obj_set (fst kv) (snd kv) values).
Proof.
  destruct kv as [name v]. cbn [fst snd]. intros Hn. destruct (name_shape name Hn) as (c & r & Hname & Hc & Hall).
  assert (trim (entry_line (name, v)) = entry_line (name, v)) as Htrim.
  { unfold entry_line. cbn [fst snd]. rewrite Hname. cbn [app]. apply trim_solid.
    - rewrite Hname in Hall. apply Forall_cons in Hall as [Hc' _]. by apply name_char_plain.
    - enough (solid_end ((c :: r ++ 61%N :: c_quote :: escape_value v) ++ [c_quote]) = true) as Hs by (cbn [app] in Hs; rewrite <- app_assoc in Hs; exact Hs).
      by apply solid_end_app. }
  unfold parse_line. rewrite Htrim.
  assert (bool_decide (entry_line (name, v) = []) = false) as -> by (unfold entry_line; rewrite Hname; done).
  assert (starts_with [c_hash] (entry_line (name, v)) = false) as ->.
  { unfold entry_line. cbn [fst]. rewrite Hname. cbn [app starts_with]. rewrite Hname in Hall. apply Forall_cons in Hall as [Hc' _]. apply name_char_plain in Hc'.
    unfold c_hash. by rewrite (proj2 (N.eqb_neq _ _)) by (intros E; symmetry in E; tauto). }
  cbn [orb].
  assert (strip_export (entry_line (name, v)) = entry_line (name, v)) as ->.
  { unfold strip_export. destruct (starts_with (js "export") (entry_line (name, v))) eqn:Es; [|done]. cbn [andb].
    assert (match drop 6 (entry_line (name, v)) with d :: _ => is_space d | [] => false end = false) as ->; [|done].
    unfold entry_line. cbn [fst snd]. destruct (decide (length name <= 6)) as [Hl|Hl].
    - assert (length name = 6) as H6.
      { apply starts_with_spec in Es as [rest Es]. unfold entry_line in Es. cbn [fst snd] in Es. destruct (decide (length name = 6)) as [|Hne]; [done|].
        assert (js "export" !! length name = Some 61%N) as Hx.
        { rewrite <- (lookup_app_l _ rest) by (cbn [js length]; lia). rewrite <- Es. rewrite lookup_app_r by lia. by rewrite Nat.sub_diag. }
        clear -Hx. destruct (length name) as [|[|[|[|[|[|n]]]]]]; by vm_compute in Hx. }
      rewrite drop_app_length' by done. done.
    - rewrite drop_app_le by lia. destruct (drop 6 name) as [|d rest] eqn:Ed; [by apply (f_equal length) in Ed; rewrite length_drop in Ed; cbn in Ed; lia|].
      cbn [app]. assert (d ∈ name) as Hd by (rewrite <- (take_drop 6 name), Ed; set_solver). rewrite Forall_forall in Hall. by apply name_char_plain, Hall. }
  unfold entry_line. cbn [fst snd]. rewrite index_of_app by (intros Hin; rewrite Forall_forall in Hall; apply Hall, name_char_plain in Hin; tauto).
  rewrite take_app_length, name_trim, Hn by done. cbn [negb].
  assert (drop (S (length name)) (name ++ 61%N :: c_quote :: escape_value v ++ [c_quote]) = c_quote :: escape_value v ++ [c_quote]) as ->.
  { rewrite cons_middle, app_assoc. apply drop_app_length'. rewrite length_app. cbn. lia. }
  assert (trimStart (c_quote :: escape_value v ++ [c_quote]) = c_quote :: escape_value v ++ [c_quote]) as -> by done.
  cbn [starts_with head default]. rewrite N.eqb_refl. cbn [orb]. unfold quotedEnvironmentValue. cbn [tail].
  by rewrite quoted_escaped.
Qed.

Lemma escape_no_break v : 10%N ∉ escape_value v.
Proof.
  unfold escape_value. induction v as [|c v IH]; [by apply not_elem_of_nil|]. cbn [flat_map]. intros [Hin|Hin]%elem_of_app; [|done].
  destruct (N.eqb_spec c 10); [set_solver|]. destruct (c =? 13)%N; [set_solver|]. destruct (_ || _); set_solver.
Qed.

Lemma entry_line_spec kv : environment_name (fst kv) = true -> 10%N ∉ entry_line kv /\ chomp (entry_line kv) = entry_line kv.
Proof.
  intros Hn. destruct (name_shape _ Hn) as (_ & _ & _ & _ & Hall). split.
  - unfold entry_line. rewrite Forall_forall in Hall. pose proof (escape_no_break (snd kv)) as He. unfold c_quote.
    intros [Hin|Hin]%elem_of_app; [apply Hall, name_char_plain in Hin; tauto|]. set_solver.
  - unfold chomp, ends_with. assert (starts_with (rev [13%N]) (rev (entry_line kv)) = false) as ->; [|done].
    unfold entry_line. rewrite app_comm_cons, app_comm_cons, app_assoc, rev_app_distr. done.
Qed.

Lemma render_lines values : Forall (fun kv => environment_name (fst kv) = true) values -> lines_of (render values) = map entry_line values ++ [[]].
Proof.
  intros Hv. unfold lines_of, render. assert (split_on 10 (flat_map (fun kv => entry_line kv ++ [10%N]) values) = map entry_line values ++ [[]]) as ->.
  { induction Hv as [|kv values Hkv _ IH]; [done|]. cbn [flat_map map app]. rewrite <- app_assoc. cbn [app]. rewrite split_on_app by (by apply entry_line_spec). by rewrite IH. }
  rewrite removelast_last, last_snoc. f_equal. rewrite map_map. apply map_ext_in. intros kv Hin%list_elem_of_In. rewrite Forall_forall in Hv. by apply entry_line_spec, Hv.
Qed.

(** An environment written with its values between double quotes is read back as it was,
    whatever characters the values hold. *)
Theorem environment_file_roundtrip path values : Forall (fun kv => environment_name (fst kv) = true) values -> ordered_keys (keys values) = true ->
  parseEnvironmentFile path (Ok (render values)) = Ok values.
Proof.
  intros Hv Ho. unfold parseEnvironmentFile. assert (match render values with (65279 :: r)%N => r | _ => render values end = render values) as ->.
  { destruct values as [|kv values]; [done|]. apply Forall_cons in Hv as [Hkv _]. destruct (name_shape _ Hkv) as (c & r & Hname & _ & Hall). rewrite Hname in Hall.
    apply Forall_cons in Hall as [Hc%name_char_plain _]. unfold render. cbn [flat_map]. unfold entry_line at 1 3. rewrite Hname. cbn [app].
    repeat case_match; subst; try done; lia. }
  rewrite render_lines by done.
  assert (forall n acc, ordered_keys (keys (acc ++ values)) = true -> parse_lines path n (map entry_line values ++ [[]]) acc = Ok (acc ++ values)) as H; [|by apply (H 1 [])].
  clear Ho. induction Hv as [|[name v] values Hkv _ IH]; intros n acc Ho; [by cbn; rewrite app_nil_r|].
  cbn [map app parse_lines]. rewrite parse_entry by done. cbn [mbind outcome_bind fst snd].
  assert (obj_set name v acc = acc ++ [(name, v)]) as -> by (apply (obj_set_last name v acc values); unfold keys in *; by rewrite map_app in Ho).
  rewrite IH; rewrite <- app_assoc; done.
Qed.

(** ** The operations *)

Section Operations.
  Context {S : Type}.
  (** [_op(op, fields)]: the request of the operation, once the handshake has succeeded. *)
  Context (_op : jstr -> object -> M S value).

Definition on (name : string) (fields : list (string * value)) : M S value := _op (js name) (map (fun kv => (js (fst kv), snd kv)) fields).

Definition createCollection (collection kind : value) := on "createCollection" [("collection", collection); ("kind", kind)]%string.
Definition dropCollection (collection : value) := on "dropCollection" [("collection", collection)]%string.
Definition inspectCollection (collection : value) := on "inspectCollection" [("collection", collection)]%string.
Definition rebuildCollection (collection : value) := on "rebuildCollection" [("collection", collection)]%string.

Definition option_of (options : value) (name : string) : string * value := (name, prop options (js name)).

Definition queuePublish (topic payload options : value) :=
  on "queuePublish" [("topic", topic); ("payload", payload); option_of options "delayMs"; option_of options "idempotencyKey"]%string.
Definition queueClaim (topic group options : value) :=
  on "queueClaim" [("topic", topic); ("group", group); option_of options "maxMessages"; option_of options "visibilityTimeoutMs"; option_of options "maxAttempts"]%string.
Definition queueAck (topic group id receipt : value) := on "queueAck" [("topic", topic); ("group", group); ("id", id); ("receipt", receipt)]%string.
Definition queueNack (topic group id receipt options : value) :=
  on "queueNack" [("topic", topic); ("group", group); ("id", id); ("receipt", receipt); option_of options "delayMs"; option_of options "reason"]%string.
Definition queueExtend (topic group id receipt visibilityTimeoutMs : value) :=
  on "queueExtend" [("topic", topic); ("group", group); ("id", id); ("receipt", receipt); ("visibilityTimeoutMs", visibilityTimeoutMs)]%string.
Definition queueStats (topic group : value) := on "queueStats" [("topic", topic); ("group", group)]%string.
Definition queueDeadLetters (topic group limit : value) := on "queueDeadLetters" [("topic", topic); ("group", group); ("limit", limit)]%string.

(** What [queueProcess] returns. *)
Record processed := mkProcessed { claimed : nat; acknowledged : nat; retried : nat; deadLettered : nat }.

Fixpoint process_loop (topic group : value) (handler : value -> M S ()) (options : value) (deliveries : list value) (result : processed) : M S processed :=
  match deliveries with
  | [] => mret result
  | delivery :: rest =>
      failed ← try_catch (_ ← handler delivery; mret false) (fun _ => mret true);
      if negb failed then
        _ ← queueAck topic group (prop delivery (js "id")) (prop delivery (js "receipt"));
        process_loop topic group handler options rest (mkProcessed (claimed result) (1 + acknowledged result) (retried result) (deadLettered result))
      else
        settled ← queueNack topic group (prop delivery (js "id")) (prop delivery (js "receipt"))
                    (VObj [(js "delayMs", prop options (js "retryDelayMs")); (js "reason", VStr (js "queue handler failed"))]);
        if is_nullish settled then throw (type_error (js "Cannot read properties of null (reading 'deadLettered')"))
        else process_loop topic group handler options rest
          (if truthy (prop settled (js "deadLettered"))
           then mkProcessed (claimed result) (acknowledged result) (retried result) (1 + deadLettered result)
           else mkProcessed (claimed result) (acknowledged result) (1 + retried result) (deadLettered result))
  end.

Definition claim_options (options : value) : value :=
  VObj [(js "maxMessages", prop options (js "maxMessages")); (js "visibilityTimeoutMs", prop options (js "visibilityTimeoutMs"));
        (js "maxAttempts", prop options (js "maxAttempts"))].

Definition queueProcess (topic group : value) (handler : value -> M S ()) (options : value) : M S processed :=
  deliveries ← queueClaim topic group (claim_options options);
  match deliveries with
  | VArr l => process_loop topic group handler options l (mkProcessed (length l) 0 0 0)
  | _ => throw (type_error (js "deliveries is not iterable"))
  end.

(** A deferred operation: until its microtask runs, [as] may give it an access context. *)
Record deferred := mkDeferred { fields_of : list (string * value); access : value; started : bool }.
Definition _accessOp (fields : list (string * value)) : deferred := mkDeferred fields VUndef false.
Definition as_ (input : value) (d : deferred) : outcome deferred :=
  if started d then Throw (Error (js "as() must be called before the operation starts")) else Ok (mkDeferred (fields_of d) input false).
(** The microtask. *)
Definition start (op : string) (d : deferred) : M S value * deferred :=
  (on op (fields_of d ++ [("access"%string, access d)]), mkDeferred (fields_of d) (access d) true).

Definition putData (collection data meta : value) := _accessOp [("collection", collection); ("data", data); ("meta", meta)]%string.
Definition batchPutData (collection batch : value) := _accessOp [("collection", collection); ("batch", batch)]%string.
Definition putFile (collection file fileOptions meta : value) :=
  _accessOp [("collection", collection); ("file", file); ("fileOptions", fileOptions); ("meta", meta)]%string.
Definition getDoc (collection id : value) := _accessOp [("collection", collection); ("id", id)]%string.
Definition getMeta (collection id : value) := _accessOp [("collection", collection); ("id", id)]%string.
Definition setMeta (collection id meta : value) := _accessOp [("collection", collection); ("id", id); ("meta", meta)]%string.
Definition getLatest (collection id onlyId : value) := _accessOp [("collection", collection); ("id", id); ("onlyId", onlyId)]%string.
Definition patchDoc (collection id newDoc oldDoc : value) :=
  _accessOp [("collection", collection); ("id", id); ("newDoc", newDoc); ("oldDoc", oldDoc)]%string.
Definition patchDocs (collection update : value) := _accessOp [("collection", collection); ("update", update)]%string.
Definition delDoc (collection id : value) := _accessOp [("collection", collection); ("id", id)]%string.
Definition delDocs (collection criteria : value) := _accessOp [("collection", collection); ("delete", criteria)]%string.
Definition restoreDoc (collection id : value) := _accessOp [("collection", collection); ("id", id)]%string.
Definition findDocs (collection query : value) := _accessOp [("collection", collection); ("query", query)]%string.
Definition findDeletedDocs (collection query : value) := _accessOp [("collection", collection); ("query", query)]%string.
Definition findDocsPage (collection query page : value) := _accessOp [("collection", collection); ("query", query); ("page", page)]%string.
Definition findDeletedDocsPage (collection query page : value) := _accessOp [("collection", collection); ("query", query); ("page", page)]%string.
Definition joinDocs (join : value) := _accessOp [("join", join)]%string.
Definition executeSQL (sql access : value) := on "executeSQL" [("sql", sql); ("access", access)]%string.
Definition importBulkData (collection url limitOrOptions : value) :=
  on "importBulkData" [("collection", collection); ("url", url); ("limitOrOptions", limitOrOptions)]%string.

(** *** Queue batches *)

(** The requests made, as the service sees them. *)
Context (log : S -> list (jstr * object)).
Context (op_logged : forall op fields s, log (snd (_op op fields s)) = log s ++ [(op, fields)]).

Definition settlement (topic group options delivery : value) (failed : bool) : jstr * object :=
  if failed then (js "queueNack", map (fun kv => (js (fst kv), snd kv))
    [("topic", topic); ("group", group); ("id", prop delivery (js "id")); ("receipt", prop delivery (js "receipt"));
     ("delayMs", prop options (js "retryDelayMs")); ("reason", VStr (js "queue handler failed"))]%string)
  else (js "queueAck", map (fun kv => (js (fst kv), snd kv))
    [("topic", topic); ("group", group); ("id", prop delivery (js "id")); ("receipt", prop delivery (js "receipt"))]%string).

(** What became of a delivery. *)
Inductive fate := Acked | Again | Dead.
#[local] Instance fate_eq_dec : EqDecision fate.
Proof. solve_decision. Defined.
Definition fate_of (failed : bool) (answer : value) : fate :=
  if failed then if truthy (prop answer (js "deadLettered")) then Dead else Again else Acked.
Definition was_refused (f : fate) : bool := match f with Acked => false | _ => true end.
Definition fails {A} (o : outcome A) : bool := match o with Ok _ => false | Throw _ => true end.

(** The deliveries one after the other: the handler runs on each in the state the one before
    left, and its settlement, an acknowledgement or a refusal as the handler ended, is answered. *)
Inductive each_settled (topic group : value) (handler : value -> M S ()) (options : value) : list value -> S -> list fate -> S -> Prop :=
| all_settled s : each_settled topic group handler options [] s [] s
| one_settled d rest s s1 failed answer s2 fates s' :
    fails (fst (handler d s)) = failed -> snd (handler d s) = s1 ->
    _op (fst (settlement topic group options d failed)) (snd (settlement topic group options d failed)) s1 = (Ok answer, s2) ->
    each_settled topic group handler options rest s2 fates s' ->
    each_settled topic group handler options (d :: rest) s (fate_of failed answer :: fates) s'.

Definition count (f : fate) (fates : list fate) : nat := length (filter (fun g => g = f) fates).

Lemma count_cons f g fates : count f (g :: fates) = (if decide (g = f) then 1 else 0) + count f fates.
Proof. unfold count. rewrite filter_cons. by case_decide. Qed.

Lemma loop_settles topic group handler options deliveries result s result' s' :
  process_loop topic group handler options deliveries result s = (Ok result', s') ->
  exists fates, each_settled topic group handler options deliveries s fates s' /\ claimed result' = claimed result /\
    acknowledged result' = acknowledged result + count Acked fates /\ retried result' = retried result + count Again fates /\
    deadLettered result' = deadLettered result + count Dead fates.
Proof.
  revert result s. induction deliveries as [|d rest IH]; intros result s; cbn [process_loop].
  { intros [= <- <-]. exists []. split_and!; [constructor|done|cbn; lia..]. }
  intros (failed & s1 & Hf & Hrun)%M_bind_inv_ok. assert (fails (fst (handler d s)) = failed /\ snd (handler d s) = s1) as [Hfail Hs1].
  { unfold try_catch, mbind, M_bind in Hf. destruct (handler d s) as [[[]|e] s2]; by injection Hf as <- <-. }
  destruct failed; cbn [negb] in Hrun.
  - apply M_bind_inv_ok in Hrun as (settled & s2 & Hnack & Hrun). destruct (is_nullish settled); [done|].
    destruct (IH _ _ Hrun) as (fates & Hall & Hc & Ha & Hr & Hd). exists (fate_of true settled :: fates).
    split; [by apply (one_settled _ _ _ _ d rest s s1 true settled s2)|]. rewrite !count_cons. unfold fate_of.
    destruct (truthy (prop settled (js "deadLettered"))); cbn [claimed acknowledged retried deadLettered] in Hc, Ha, Hr, Hd; split_and!; repeat case_decide; done || lia.
  - apply M_bind_inv_ok in Hrun as (answer & s2 & Hack & Hrun). destruct (IH _ _ Hrun) as (fates & Hall & Hc & Ha & Hr & Hd).
    exists (fate_of false answer :: fates). split; [by apply (one_settled _ _ _ _ d rest s s1 false answer s2)|]. rewrite !count_cons. cbn [fate_of claimed acknowledged retried deadLettered] in *.
    split_and!; repeat case_decide; done || lia.
Qed.

Lemma settled_log topic group handler options deliveries s fates s' : (forall d s, log (snd (handler d s)) = log s) ->
  each_settled topic group handler options deliveries s fates s' ->
  length fates = length deliveries /\
  log s' = log s ++ zip_with (fun d f => settlement topic group options d (was_refused f)) deliveries fates.
Proof.
  intros Hh. induction 1 as [s|d rest s s1 failed answer s2 fates s' Hf Hs Hop _ [IHn IHl]]; [by rewrite app_nil_r|].
  split; [cbn; by rewrite IHn|]. rewrite IHl. pose proof (f_equal (fun r => log (snd r)) Hop) as Hlog. cbn [snd] in Hlog.
  rewrite op_logged, <- Hs, Hh in Hlog. rewrite <- Hlog, <- app_assoc. cbn [zip_with app].
  assert (was_refused (fate_of failed answer) = failed) as -> by (unfold fate_of; destruct failed; [by destruct (truthy _)|done]).
  by destruct (settlement topic group options d failed).
Qed.

(** C32: a batch that is processed settles each delivery that [queueClaim] answered, once and in
    order: the handler runs on it, then it is acknowledged if the handler succeeded and refused
    if it failed, and nothing else is asked of the service. The counts are those of what became
    of the deliveries. *)
Theorem queue_batch_settles_each_delivery topic group handler options s result s' : (forall d s, log (snd (handler d s)) = log s) ->
  queueProcess topic group handler options s = (Ok result, s') ->
  exists deliveries s1 fates, queueClaim topic group (claim_options options) s = (Ok (VArr deliveries), s1) /\
    each_settled topic group handler options deliveries s1 fates s' /\
    log s' = log s1 ++ zip_with (fun d f => settlement topic group options d (was_refused f)) deliveries fates /\
    length fates = length deliveries /\ claimed result = length deliveries /\
    acknowledged result = count Acked fates /\ retried result = count Again fates /\ deadLettered result = count Dead fates.
Proof.
  intros Hh. unfold queueProcess. intros (deliveries & s1 & Hclaim & Hrun)%M_bind_inv_ok. destruct deliveries as [| | | | |l|]; try done.
  destruct (loop_settles _ _ _ _ _ _ _ _ _ Hrun) as (fates & Hall & Hc & Ha & Hr & Hd).
  destruct (settled_log _ _ _ _ _ _ _ _ Hh Hall) as [Hlen Hlog]. by exists l, s1, fates.
Qed.

End Operations.

(** *** Statements *)

(** [Fylo._sqlValue(value)] on the values of the model. *)
Definition _sqlValue (v : value) : outcome jstr :=
  match v with
  | VUndef | VNull => Ok (js "NULL")
  | VNum n => if negb (Num.is_finite n) then Throw (Error (js "SQL value must be a finite number")) else Ok (Num.to_string n)
  | VBool b => Ok (if b then js "true" else js "false")
  | VArr _ | VObj _ => Throw (Error (js "SQL values must be scalar"))
  | VStr s => Ok (js "'" ++ replace_char 39 (js "''") s ++ js "'")
  end.

(** The statement [sql] makes of a template. *)
Fixpoint sql_loop (statement : jstr) (strings : list jstr) (values : list value) : outcome jstr :=
  match values with
  | [] => Ok statement
  | v :: values => text ← _sqlValue v; sql_loop (statement ++ text ++ default [] (head strings)) (tail strings) values
  end.
Definition sql_statement (strings : list jstr) (values : list value) : outcome jstr :=
  sql_loop (default [] (head strings)) (tail strings) values.

(** It is the statement the browser's tag makes, so what holds of that one holds of this. *)
Lemma sqlValue_agrees v t : _sqlValue v = Ok t <-> Builder.sqlValue v = Ok t.
Proof. destruct v as [| | |n| | |]; cbn; try done. by destruct (Num.is_finite n). Qed.

Lemma sql_loop_agrees statement strings values t :
  sql_loop statement strings values = Ok t <-> exists rest, Builder.sql_rest strings values = Ok rest /\ t = statement ++ rest.
Proof.
  revert statement strings. induction values as [|v values IH]; intros statement strings; cbn [sql_loop Builder.sql_rest].
  { split; [intros [= <-]; exists []; by rewrite app_nil_r|intros (rest & [= <-] & ->); by rewrite app_nil_r]. }
  pose proof (sqlValue_agrees v) as Hv. destruct (_sqlValue v) as [x|e], (Builder.sqlValue v) as [y|e']; cbn [mbind outcome_bind].
  - pose proof (proj1 (Hv x) eq_refl) as E. apply Ok_inj in E as ->. rewrite IH. split.
    + intros (rest & -> & ->). cbn. eexists. split; [done|]. by rewrite !app_assoc.
    + intros (rest & Hrest & ->). destruct (Builder.sql_rest (tail strings) values) as [r|]; [|done]. cbn in Hrest. apply Ok_inj in Hrest as <-. exists r. by rewrite !app_assoc.
  - by discriminate (proj1 (Hv x) eq_refl).
  - by discriminate (proj2 (Hv y) eq_refl).
  - split; [done|]. by intros (? & ? & _).
Qed.

(** ** Connections to run *)

Definition small : config := mkConfig [] 256 1024.
Definition hello : value := VObj [(js "ok", VBool true); (js "result", VStr (js "hello"))].
Definition pong : value := VObj [(js "ok", VBool true); (js "result", VNull)].
Definition asked : connection :=
  fold_left (fun c e => step small e c) [Request (VObj [(js "op", VStr (js "handshake"))]); Request (VObj [(js "op", VStr (js "ping"))]); Request (VStr (js "last"))] opened.
Definition out : list N := frame hello ++ frame pong.

Lemma responses_settle_in_order_witness :
  let c' := fold_left (fun c chunk => _onData small chunk c) [take 5 out; []; drop 5 out] asked in
  queue c' = [2] /\ settled c' = [(0, Ok hello); (1, Ok pong)] /\ killed c' = false.
Proof.
  apply (responses_settle_in_order small [hello; pong] [0; 1] [2] [take 5 out; []; drop 5 out] asked).
  - reflexivity.
  - repeat (apply Forall_cons_2; [split; [by vm_compute|apply Nat.leb_le; by vm_compute]|]). apply Forall_nil_2.
  - by vm_compute.
  - by vm_compute.
  - by vm_compute.
  - by vm_compute.
Defined.

Lemma chunking_is_irrelevant_witness :
  observed (fold_left (fun c chunk => _onData small chunk c) [take 5 out; drop 5 out] asked) = observed (fold_left (fun c chunk => _onData small chunk c) [out] asked).
Proof. apply (chunking_is_irrelevant small [take 5 out; drop 5 out] [out] asked). by vm_compute. Defined.

Definition story : list event := [Request (VStr (js "a")); Request hello; Data (take 7 out); Data [10%N]; Request pong; Exit (Some 0%Z); Closed; Request pong; Data out].

Lemma every_promise_settles_once_witness :
  let c := run small story opened in
  NoDup (queue c ++ (settled c).*1) /\ (forall n, n ∈ queue c ++ (settled c).*1 <-> n < calls c) /\
  length (response c) <= maxResponseBytes small /\ Forall (is_line small) (written c) /\
  (forall before after, story = before ++ Closed :: after ->
     (forall n, n < calls (run small before opened) -> n ∈ (settled c).*1) /\
     (forall code, Exit (Some code) ∈ before -> queue c = [] /\ forall n, n < calls c -> n ∈ (settled c).*1)).
Proof. apply (every_promise_settles_once small story). repeat (apply Forall_cons_2; [by vm_compute|]). apply Forall_nil_2. Defined.

(** After a frame that is too large the client kills the process; the next call gets no answer. *)
Example killed_then_called : queue (run small [Request hello; Data (replicate 2000 65%N ++ [10%N]); Exit None; Closed; Request pong] opened) = [1].
Proof. vm_compute. reflexivity. Qed.

Definition secrets : list (jstr * jstr) := [(js "TOKEN", js "a b#c" ++ [10%N; c_quote; c_backslash] ++ js "d "); (js "_x1", []); (js "export", js "FOO=1")].

Lemma environment_file_roundtrip_witness : parseEnvironmentFile (js ".env") (Ok (render secrets)) = Ok secrets.
Proof. apply (environment_file_roundtrip (js ".env") secrets); [|by vm_compute]. repeat (apply Forall_cons_2; [by vm_compute|]). apply Forall_nil_2. Defined.

(** A queue with two deliveries, whose refusals go to the dead letters. *)
Definition two_deliveries (op : jstr) (fields : object) : M (list (jstr * object)) value := fun s =>
  (Ok (if jeqb op (js "queueClaim") then VArr [VObj [(js "id", VStr (js "1")); (js "receipt", VStr (js "r1"))]; VObj [(js "id", VStr (js "2")); (js "receipt", VStr (js "r2"))]]
       else VObj [(js "deadLettered", VBool true)]), s ++ [(op, fields)]).
Definition picky (delivery : value) : M (list (jstr * object)) () :=
  if bool_decide (prop delivery (js "id") = VStr (js "2")) then throw exited_error else mret ().
Definition batch := queueProcess two_deliveries (VStr (js "t")) (VStr (js "g")) picky (VObj []) [].

Lemma picky_keeps_log d s : snd (picky d s) = s.
Proof. unfold picky. by case_bool_decide. Qed.

Lemma queue_batch_settles_each_delivery_witness :
  fst batch = Ok (mkProcessed 2 1 0 1) /\
  exists deliveries s1 fates, queueClaim two_deliveries (VStr (js "t")) (VStr (js "g")) (claim_options (VObj [])) [] = (Ok (VArr deliveries), s1) /\
    each_settled two_deliveries (VStr (js "t")) (VStr (js "g")) picky (VObj []) deliveries s1 fates (snd batch) /\
    snd batch = s1 ++ zip_with (fun d f => settlement (VStr (js "t")) (VStr (js "g")) (VObj []) d (was_refused f)) deliveries fates /\
    length fates = length deliveries /\ 2 = length deliveries /\ 1 = count Acked fates /\ 0 = count Again fates /\ 1 = count Dead fates.
Proof.
  split; [vm_compute; reflexivity|].
  exact (queue_batch_settles_each_delivery two_deliveries id (fun op fields s => eq_refl) (VStr (js "t")) (VStr (js "g")) picky (VObj []) []
           (mkProcessed 2 1 0 1) (snd batch) picky_keeps_log eq_refl).
Defined.

End NodeClient.
