(* ===== verification/Mobile.v ===== *)
(** The mobile bridge: [clients/mobile/bridge.js], which answers the requests a native
    application sends to the engine in its web view.  The client of the store is an
    interface. *)

From stdpp Require Import list.
From S2P Require Import Prelude PathUtil JsNum JsValue Utf8 Json Base64.

Module Mobile.
Import Utf8 Json.

Definition MAX_REQUEST_BASE64 : N := 8 * 1024 * 1024.
Definition MAX_RESPONSE_BYTES : N := 6 * 1024 * 1024.
Definition MAX_SQL_CHARS : N := 64 * 1024.
Definition MAX_COLLECTION_CHARS : N := 128.
Definition MAX_ID_CHARS : N := 128.
Definition OPERATIONS : list jstr := map js
  ["open"; "createCollection"; "dropCollection"; "inspectCollection"; "rebuildCollection"; "putData"; "getDoc"; "getMeta"; "setMeta";
   "getLatest"; "patchDoc"; "delDoc"; "restoreDoc"; "findDocs"; "executeSQL"]%string.

Definition size (s : jstr) : N := N.of_nat (length s).

(** [own(value, key)], for names that are no array indices. *)
Definition own (v : value) (key : string) : value := prop v (js key).

Definition requireBoundedString (v : value) (name : string) (maximum : N) : outcome jstr :=
  let error := Error (js name ++ js " must be a non-empty string of at most " ++ Num.dec maximum ++ js " characters") in
  match v with
  | VStr s => if bool_decide (s = []) || (maximum <? size s)%N then Throw error else Ok s
  | _ => Throw error
  end.

Definition requireObject (v : value) (name : string) : outcome value :=
  match v with VObj _ => Ok v | _ => Throw (Error (js name ++ js " must be an object")) end.

(** [path.includes('..')] *)
Fixpoint includes (p s : jstr) : bool := starts_with p s || match s with [] => false | _ :: s => includes p s end.

Definition mobileConfig (v : value) : outcome object :=
  match v with
  | VUndef => Ok []
  | _ =>
      config ← requireObject v "config";
      namespace ← (match own config "namespace" with VUndef => Ok [] | n => s ← requireBoundedString n "config.namespace" 128; Ok [(js "namespace", VStr s)] end);
      root ← (match own config "root" with
              | VUndef => Ok []
              | r =>
                  path ← requireBoundedString r "config.root" 256;
                  if negb (starts_with (js "/") path) || includes (js "..") path || includes_char 92 path
                  then Throw (Error (js "config.root must be an absolute browser path without traversal"))
                  else Ok [(js "root", VStr path)]
              end);
      worker ← (match own config "worker" with
                | VUndef => Ok []
                | VBool b => Ok [(js "worker", VBool b)]
                | _ => Throw (Error (js "config.worker must be boolean"))
                end);
      Ok (namespace ++ root ++ worker ++ [(js "storage", VStr (js "opfs"))])
  end.

(** [/^[A-Za-z0-9][A-Za-z0-9._-]*$/] *)
Definition collection_name (s : jstr) : bool :=
  match s with
  | [] => false
  | c :: r => is_alnum c && forallb (fun c => is_alnum c || (c =? 46)%N || (c =? 95)%N || (c =? 45)%N) r
  end.

Definition is_one_of (method : jstr) (names : list string) : bool := bool_decide (method ∈ map js names).

Definition check (b : bool) (m : outcome ()) : outcome () := if b then m else Ok ().
Definition validateArgs (method : jstr) (args : value) : outcome () :=
  match args with
  | VObj _ =>
      _ ← check (negb (is_one_of method ["open"; "executeSQL"]%string))
            (collection ← requireBoundedString (own args "collection") "collection" MAX_COLLECTION_CHARS;
             if collection_name collection then Ok () else Throw (Error (js "collection contains unsupported characters")));
      _ ← check (is_one_of method ["getDoc"; "getMeta"; "setMeta"; "getLatest"; "patchDoc"; "delDoc"; "restoreDoc"]%string)
            (_ ← requireBoundedString (own args "id") "id" MAX_ID_CHARS; Ok ());
      _ ← check (is_one_of method ["executeSQL"]%string) (_ ← requireBoundedString (own args "sql") "sql" MAX_SQL_CHARS; Ok ());
      _ ← check (is_one_of method ["putData"]%string) (_ ← requireObject (own args "data") "data"; Ok ());
      _ ← check (is_one_of method ["setMeta"]%string) (_ ← requireObject (own args "meta") "meta"; Ok ());
      _ ← check (is_one_of method ["patchDoc"]%string) (_ ← requireObject (own args "newDoc") "newDoc"; Ok ());
      check (is_one_of method ["findDocs"]%string && negb (is_undef (own args "query"))) (_ ← requireObject (own args "query") "query"; Ok ())
  | _ => Throw (Error (js "args must be an object"))
  end.

(** What the bridge calls of the client.  [lookup] is [database[collection]], the others are
    the methods of what it gives (a failure where it has no such method). *)
Class BrowserClient (S : Type) := {
  createBrowserClient : object -> M S ();
  ready : M S ();
  lookup : value -> M S ();
  col_create : jstr -> M S value;
  col_drop : jstr -> M S value;
  col_inspect : jstr -> M S value;
  col_rebuild : jstr -> M S value;
  col_put : jstr -> value -> M S value;
  col_get_once : jstr -> jstr -> M S value;
  col_get_metadata : jstr -> jstr -> M S value;
  col_put_metadata : jstr -> jstr -> value -> M S value;
  col_latest : jstr -> jstr -> M S value;
  col_patch : jstr -> jstr -> value -> M S value;
  col_delete : jstr -> jstr -> M S value;
  col_restore : jstr -> jstr -> M S value;
  col_find_collect : jstr -> value -> M S (list value);   (* the pages of find(query).collect() *)
  client_sql : jstr -> M S value
}.

(** The module's [db] and what it posted to the native side. *)
Record bridge (S : Type) := mkBridge { world : S; db : bool; posted : list jstr }.
Arguments mkBridge {S}. Arguments world {S}. Arguments db {S}. Arguments posted {S}.

(** *** Requests on the wire *)

Definition too_long : js_error := Error (js "FYLO bridge request exceeds the 8 MiB limit").
Definition not_base64 : js_error := Error (js "Invalid base64 request").
Definition not_utf8 : js_error := type_error (js "The encoded data was not valid for encoding utf-8").

Definition decode (encoded : jstr) : outcome jstr :=
  if (MAX_REQUEST_BASE64 <? size encoded)%N then Throw too_long
  else if negb (Base64.base64_text encoded) then Throw not_base64
  else
    bytes ← Base64.atob encoded;
    match decode_fatal bytes with Some text => Ok text | None => Throw not_utf8 end.

(** [text.match(/^\s*\{\s*"id"\s*:\s*(\d{1,15})(?=\s*[,}])/)]: the digits. *)
Definition blanks : jstr -> jstr := drop_while is_space.
Definition after (p s : jstr) : option jstr := if starts_with p s then Some (drop (length p) s) else None.
Definition match_id (text : jstr) : option jstr :=
  rest ← after (js "{") (blanks text);
  rest ← after ([34] ++ js "id" ++ [34])%N (blanks rest);
  rest ← after (js ":") (blanks rest);
  let rest := blanks rest in
  let digits := take_while is_digit rest in
  if (length digits =? 0) || (15 <? length digits) then None
  else
    match blanks (drop (length digits) rest) with
    | c :: _ => if (c =? 44)%N || (c =? 125)%N then Some digits else None
    | [] => None
    end.

Definition safe_id (v : value) : bool :=
  match v with
  | VNum n => match Num.to_Z n with Some z => (0 <? z)%Z && (z <=? 9007199254740991)%Z | None => false end
  | _ => false
  end.

Definition recoverRequestId (encoded : jstr) : option value :=
  let prefixLength := Nat.min (length encoded) 1024 in
  let alignedLength := prefixLength - prefixLength mod 4 in
  if alignedLength =? 0 then None
  else
    let prefix := take alignedLength encoded in
    if negb (Base64.base64_text prefix) then None
    else
      match Base64.atob prefix with
      | Throw _ => None
      | Ok bytes =>
          digits ← match_id (Utf8.decode bytes);
          let id := VNum (Num.of_string digits) in
          if safe_id id then Some id else None
      end.

(** *** Answers *)

Definition response_too_large (id : value) : value :=
  VObj [(js "id", id); (js "ok", VBool false); (js "error", VObj [(js "message", VStr (js "FYLO bridge response exceeds the 6 MiB limit"))])].

Definition answer_text (message : value) : jstr :=
  let text := Json.text (Json.carried message) in
  if (MAX_RESPONSE_BYTES <? N.of_nat (length (encode text)))%N
  then Json.text (response_too_large (if is_undef (own message "id") then VNull else own message "id"))
  else text.

Section Bridge.
  Context {S : Type} `{BrowserClient S}.

Abbreviation state := (bridge S) (only parsing).

Definition on_client {A} (m : M S A) : M state A := fun s => let '(r, w) := m (world s) in (r, mkBridge w (db s) (posted s)).
(** [post(message)], with a channel to the native side. *)
Definition post (message : value) : M state () := modify (fun s => mkBridge (world s) (db s) (posted s ++ [answer_text message])).

Definition ensureDb (config : value) : M state () :=
  s ← get;
  if db s then mret ()
  else
    config ← lift (mobileConfig config);
    _ ← on_client (createBrowserClient config);
    _ ← modify (fun s => mkBridge (world s) true (posted s));
    on_client ready.

(** [collect(cursor)]: the properties of every page in one object. *)
Definition collect (pages : list value) : value :=
  VObj (fold_left (fun out page => fold_left (fun out kv => obj_set (fst kv) (snd kv) out) (entries page) out) pages []).

Definition unknown_method (method : jstr) : js_error := Error (js "unknown method: " ++ method).

Definition route (method : jstr) (a : value) : M state value :=
  if negb (bool_decide (method ∈ OPERATIONS)) then throw (unknown_method method)
  else
    _ ← lift (validateArgs method a);
    _ ← ensureDb (own a "config");
    _ ← (if truthy (own a "collection") then on_client (lookup (own a "collection")) else mret ());
    let collection := to_str (own a "collection") in
    let id := to_str (own a "id") in
    let is_method name := jeqb method (js name) in
    if is_method "open"%string then mret (VObj [(js "ready", VBool true)])
    else if is_method "createCollection"%string then on_client (col_create collection)
    else if is_method "dropCollection"%string then on_client (col_drop collection)
    else if is_method "inspectCollection"%string then on_client (col_inspect collection)
    else if is_method "rebuildCollection"%string then on_client (col_rebuild collection)
    else if is_method "putData"%string then on_client (col_put collection (own a "data"))
    else if is_method "getDoc"%string then on_client (col_get_once collection id)
    else if is_method "getMeta"%string then on_client (col_get_metadata collection id)
    else if is_method "setMeta"%string then on_client (col_put_metadata collection id (own a "meta"))
    else if is_method "getLatest"%string then on_client (col_latest collection id)
    else if is_method "patchDoc"%string then on_client (col_patch collection id (own a "newDoc"))
    else if is_method "delDoc"%string then on_client (col_delete collection id)
    else if is_method "restoreDoc"%string then on_client (col_restore collection id)
    else if is_method "findDocs"%string then
      pages ← on_client (col_find_collect collection (if is_nullish (own a "query") then VObj [] else own a "query"));
      mret (collect pages)
    else on_client (client_sql (to_str (own a "sql"))).

Definition failure (id message : value) : value :=
  VObj [(js "id", id); (js "ok", VBool false); (js "error", VObj [(js "message", message)])].
Definition success (id result : value) : value := VObj [(js "id", id); (js "ok", VBool true); (js "result", if is_undef result then VNull else result)].

(** The text of an error: its message, or what [String(error)] gives without one. *)
Definition error_text (e : js_error) : jstr := if bool_decide (err_message e = []) then err_name e else err_message e.

(** The parsed message: validated, routed and answered. *)
Definition handle (msg : value) : M state () :=
  try_catch
    (_ ← lift (match msg with VObj _ => Ok () | _ => Throw (Error (js "invalid request")) end);
     let id := own msg "id" in
     _ ← throw_if (negb (safe_id id)) (Error (js "id must be a positive integer"));
     method ← lift (requireBoundedString (own msg "method") "method" 64);
     result ← route method (if is_nullish (own msg "args") then VObj [] else own msg "args");
     post (success id result))
    (fun e => post (failure (match own msg "id" with
                             | VNum n => match Num.to_Z n with
                                         | Some z => if (Z.abs z <=? 9007199254740991)%Z then VNum n else VNull
                                         | None => VNull
                                         end
                             | _ => VNull
                             end) (VStr (error_text e)))).

(** [globalThis.__fyloDispatch(encoded)] *)
Definition dispatch (encoded : jstr) : M state () :=
  match text ← decode encoded; Json.parse text with
  | Ok msg => handle msg
  | Throw e =>
      match recoverRequestId encoded with
      | Some id => post (failure id (VStr (if bool_decide (err_message e = []) then js "Invalid FYLO bridge request" else err_message e)))
      | None => mret ()
      end
  end.


(** ** What a request does *)

Lemma on_client_keeps {A} (m : M S A) p : preserves (fun s => posted s = p) (on_client m).
Proof. intros s Hs. unfold on_client. by destruct (m (world s)). Qed.

Lemma ensureDb_posts_nothing config p : preserves (fun s => posted s = p) (ensureDb config).
Proof.
  unfold ensureDb. apply preserves_bind; [by intros ??|]. intros s0. destruct (db s0); [apply preserves_ret|].
  step_m; try apply on_client_keeps. by apply preserves_modify.
Qed.

Lemma route_posts_nothing method a p : preserves (fun s => posted s = p) (route method a).
Proof.
  unfold route. destruct (negb _); [apply preserves_throw|]. apply preserves_bind; [apply preserves_lift|intros _].
  apply preserves_bind; [apply ensureDb_posts_nothing|intros _].
  apply preserves_bind; [destruct (truthy _); [apply on_client_keeps|apply preserves_ret]|intros _]. cbv zeta.
  repeat match goal with |- context [if jeqb method ?n then _ else _] => destruct (jeqb method n) end;
    try apply on_client_keeps; try apply preserves_ret.
  apply preserves_bind; [apply on_client_keeps|]. intros pages. apply preserves_ret.
Qed.

Lemma requireBoundedString_ok t name maximum : t <> [] -> (size t <= maximum)%N -> requireBoundedString (VStr t) name maximum = Ok t.
Proof.
  intros Ht Hs. unfold requireBoundedString. rewrite bool_decide_false by done. cbn [orb].
  by rewrite (proj2 (N.ltb_ge _ _)).
Qed.

Definition request (id : Num.num) (method : jstr) (args : value) : value :=
  VObj [(js "id", VNum id); (js "method", VStr method); (js "args", args)].
Definition wire (v : value) : jstr := Base64.groups (encode (Json.text v)).
Definition answer (id : value) (r : outcome value) : value :=
  match r with Ok v => success id v | Throw e => failure id (VStr (error_text e)) end.
Definition fits (v : value) : bool := (N.of_nat (length (encode (Json.text v))) <=? MAX_RESPONSE_BYTES)%N.

Definition posting (a : value) (s : state) : state := mkBridge (world s) (db s) (posted s ++ [answer_text a]).

Lemma id_kept n : safe_id (VNum n) = true ->
  match Num.to_Z n with Some z => if (Z.abs z <=? 9007199254740991)%Z then VNum n else VNull | None => VNull end = VNum n.
Proof. cbn [safe_id]. destruct (Num.to_Z n) as [z|]; [|done]. intros Hz. by rewrite (proj2 (Z.leb_le _ _)) by lia. Qed.

Lemma handle_request n method args s r s1 : safe_id (VNum n) = true -> method <> [] -> (size method <= 64)%N ->
  is_nullish args = false -> route method args s = (r, s1) ->
  handle (request n method args) s = (Ok (), posting (answer (VNum n) r) s1).
Proof.
  intros Hid Hm Hlen Ha Hr. unfold handle, try_catch.
  change (own (request n method args) "id") with (VNum n). change (own (request n method args) "method") with (VStr method).
  change (own (request n method args) "args") with args. cbv zeta. unfold request. run_pure. rewrite Hid. cbn [negb throw_if]. run_pure.
  rewrite requireBoundedString_ok by done. run_pure. rewrite Ha. destruct r as [v|e].
  - by rewrite (M_bind_ok _ _ _ _ _ Hr).
  - rewrite (M_bind_throw _ _ _ _ _ Hr). cbv beta iota. by rewrite id_kept.
Qed.

(** The text of a request arrives. *)
Lemma decode_wire v : jsonable v = true -> (size (wire v) <= MAX_REQUEST_BASE64)%N -> decode (wire v) = Ok (Json.text v).
Proof.
  intros Hj Hs. pose proof (text_fit v Hj) as [Hu Hw]%andb_true_iff. pose proof (Base64.encode_bytes _ Hu Hw) as Hb.
  unfold decode. rewrite (proj2 (N.ltb_ge _ _)) by done. unfold wire. rewrite Base64.groups_text by done. cbn [negb].
  rewrite Base64.atob_groups by done. cbn. by rewrite decode_fatal_encode by (done || by apply text_no_bom).
Qed.

Lemma parse_text v : jsonable v = true -> Json.parse (Json.text v) = Ok v.
Proof.
  intros Hj. pose proof (parse_stringify v (Json.text v)) as Hp. unfold stringify in Hp. rewrite carried_jsonable in Hp by done.
  apply Hp; [by destruct v|done].
Qed.

Lemma jsonable_request n method args : number_ok n = true -> code_units method = true -> jsonable args = true ->
  jsonable (request n method args) = true.
Proof.
  intros Hn Hm Ha. unfold request. cbn [jsonable keys map fst snd forallb].
  rewrite Hn, Hm, Ha. by vm_compute.
Qed.

(** What an operation gives the bridge to write: data, or a failure with a text. *)
Definition writable (r : outcome value) : bool :=
  match r with Ok v => is_undef v || jsonable v | Throw e => code_units (error_text e) end.

Lemma jsonable_failure id t : jsonable id = true -> code_units t = true -> jsonable (failure id (VStr t)) = true.
Proof. intros Hid Ht. unfold failure. cbn [jsonable keys map fst snd forallb]. rewrite Hid, Ht. by vm_compute. Qed.

Lemma jsonable_answer id r : jsonable id = true -> writable r = true -> jsonable (answer id r) = true.
Proof.
  intros Hid Hr. destruct r as [v|e]; [|by apply jsonable_failure]. unfold answer, success. cbn [jsonable keys map fst snd forallb writable] in *.
  rewrite Hid. destruct (is_undef v); [by vm_compute|]. cbn [orb] in Hr. rewrite Hr. by vm_compute.
Qed.

Lemma answer_text_reads id r : jsonable id = true -> writable r = true ->
  Json.parse (answer_text (answer id r)) = Ok (if fits (answer id r) then answer id r else response_too_large id).
Proof.
  intros Hid Hr. unfold answer_text. rewrite carried_jsonable by (by apply jsonable_answer). fold (fits (answer id r)).
  unfold fits. rewrite N.leb_antisym. destruct (MAX_RESPONSE_BYTES <? _)%N; cbn [negb].
  - replace (own (answer id r) "id") with id by (by destruct r). assert (is_undef id = false) as -> by (by destruct id).
    apply parse_text. by apply jsonable_failure.
  - apply parse_text. by apply jsonable_answer.
Qed.

(** C19: a request of the native side within the limits, JSON as base64 of UTF-8, reaches the
    operation its method names with its arguments as sent, and is answered exactly once: the
    posted text parses to the operation's result or failure under the request's identifier,
    or, when that is too long, to the failure that says so. *)
Theorem request_is_answered n method args (s : state) r s1 :
  number_ok n = true -> safe_id (VNum n) = true -> code_units method = true -> method <> [] -> (size method <= 64)%N ->
  jsonable args = true -> args <> VNull -> (size (wire (request n method args)) <= MAX_REQUEST_BASE64)%N ->
  route method args s = (r, s1) -> writable r = true ->
  exists t, dispatch (wire (request n method args)) s = (Ok (), mkBridge (world s1) (db s1) (posted s ++ [t])) /\
    Json.parse t = Ok (if fits (answer (VNum n) r) then answer (VNum n) r else response_too_large (VNum n)).
Proof.
  intros Hn Hid Hm Hne Hlen Ha Hnull Hsize Hr Hw. exists (answer_text (answer (VNum n) r)). split; [|by apply answer_text_reads].
  pose proof (jsonable_request n method args Hn Hm Ha) as Hj. unfold dispatch. rewrite decode_wire by done. cbn [mbind outcome_bind].
  rewrite parse_text by done. rewrite (handle_request n method args s r s1) by (done || by destruct args). unfold posting.
  pose proof (route_posts_nothing method args (posted s) s eq_refl) as Hp. rewrite Hr in Hp. cbn [snd] in Hp. by rewrite Hp.
Qed.

(** ** What a request may not do *)

(** Messages [dispatch] answers before the client is called. *)
Definition refused (connected : bool) (msg : value) : bool :=
  let args := if is_nullish (own msg "args") then VObj [] else own msg "args" in
  match msg, requireBoundedString (own msg "method") "method" 64 with
  | VObj _, Ok method =>
      negb (safe_id (own msg "id")) || negb (bool_decide (method ∈ OPERATIONS)) || negb (is_ok (validateArgs method args)) ||
      negb connected && negb (is_ok (mobileConfig (own args "config")))
  | _, _ => true
  end.

Definition received (encoded : jstr) : outcome value := text ← decode encoded; Json.parse text.

Lemma route_refuses method a (s : state) :
  negb (bool_decide (method ∈ OPERATIONS)) || negb (is_ok (validateArgs method a)) ||
    negb (db s) && negb (is_ok (mobileConfig (own a "config"))) = true ->
  exists e, route method a s = (Throw e, s).
Proof.
  intros Hr. unfold route. destruct (negb (bool_decide _)); [by eexists|]. cbn [orb] in Hr.
  destruct (validateArgs method a) as [[]|e]; [|by eexists]. cbn [is_ok negb orb] in Hr. run_pure. unfold ensureDb.
  apply andb_true_iff in Hr as [Hdb%negb_true_iff Hc]. destruct (mobileConfig _) as [|e] eqn:Hconfig; [done|]. exists e.
  apply M_bind_throw. run_pure. rewrite Hdb. by apply M_bind_throw.
Qed.

Lemma refused_answer (s : state) msg : refused (db s) msg = true -> exists a, handle msg s = (Ok (), posting a s).
Proof.
  intros Hr. unfold handle, try_catch. destruct msg as [| | | | | |o]; try (cbn; by eexists).
  run_pure. cbv zeta. unfold refused in Hr. destruct (safe_id _); [|cbn; by eexists]. cbn [negb throw_if]. run_pure.
  destruct (requireBoundedString _ _ _) as [method|e]; [|cbn; by eexists]. run_pure. cbn [negb orb] in Hr.
  destruct (route_refuses method _ s Hr) as [e He]. rewrite (M_bind_throw _ _ _ _ _ He). by eexists.
Qed.

(** A request that is no base64, no UTF-8 or no JSON, whose identifier, method or
    arguments are not acceptable, or that opens the client with a configuration that is not,
    leaves the client alone; it is answered once, or, when it could not be read and its
    identifier not be recovered, not at all. *)
Theorem refused_requests_touch_nothing encoded (s : state) :
  match received encoded with Ok msg => refused (db s) msg = true | Throw _ => True end ->
  exists answers, dispatch encoded s = (Ok (), mkBridge (world s) (db s) (posted s ++ answers)) /\
    (length answers = 1 \/ answers = [] /\ is_ok (received encoded) = false /\ recoverRequestId encoded = None).
Proof.
  unfold dispatch. fold (received encoded). destruct (received encoded) as [msg|e]; intros Hr.
  - destruct (refused_answer s msg Hr) as [a ->]. exists [answer_text a]. by split; [|left].
  - destruct (recoverRequestId encoded) as [id|]; [by eexists; split; [|left]|].
    exists []. rewrite app_nil_r. split; [by destruct s|by right].
Qed.

Definition collection_ok (c : jstr) : Prop := c <> [] /\ (size c <= MAX_COLLECTION_CHARS)%N /\ collection_name c = true.
Definition id_ok (i : jstr) : Prop := i <> [] /\ (size i <= MAX_ID_CHARS)%N.
(** A configuration [mobileConfig] lets through: none, when none was given (the storage is then the
    client's default), or one whose storage is the private file system's. *)
Definition config_ok (config : object) : Prop := config = [] \/
  alist_get (js "storage") config = Some (VStr (js "opfs")) /\
  match alist_get (js "root") config with Some r => exists path, r = VStr path /\ includes (js "..") path = false | None => True end.

(** A property of the client's state that every call keeps whose operands are validated, and
    every lookup of a property of the client, whatever its name. *)
Record kept_by_valid_calls (I : S -> Prop) : Prop := {
  keeps_client config : config_ok config -> preserves I (createBrowserClient config);
  keeps_ready : preserves I ready;
  keeps_lookup v : preserves I (lookup v);
  keeps_collection c : collection_ok c -> Forall (preserves I) [col_create c; col_drop c; col_inspect c; col_rebuild c];
  keeps_document c i : collection_ok c -> id_ok i ->
    Forall (preserves I) [col_get_once c i; col_get_metadata c i; col_latest c i; col_delete c i; col_restore c i];
  keeps_update c i o : collection_ok c -> id_ok i -> Forall (preserves I) [col_put_metadata c i (VObj o); col_patch c i (VObj o)];
  keeps_put c o : collection_ok c -> preserves I (col_put c (VObj o));
  keeps_find c o : collection_ok c -> preserves I (col_find_collect c (VObj o));
  keeps_sql q : q <> [] -> (size q <= MAX_SQL_CHARS)%N -> preserves I (client_sql q)
}.

Lemma bounded_string v name maximum t : requireBoundedString v name maximum = Ok t -> v = VStr t /\ t <> [] /\ (size t <= maximum)%N.
Proof.
  destruct v as [| | | |s| |]; try done. cbn [requireBoundedString]. destruct (bool_decide_reflect (s = [])) as [|Hne]; [done|]. cbn [orb].
  destruct (N.ltb_spec maximum (size s)); [done|]. by intros [= <-].
Qed.

Lemma required_object v name w : requireObject v name = Ok w -> exists o, v = VObj o /\ w = v.
Proof. destruct v; try done. intros [= <-]. by eexists. Qed.

Lemma bound_ok {A B} (m : outcome A) (f : A -> outcome B) y : m ≫= f = Ok y -> exists x, m = Ok x /\ f x = Ok y.
Proof. destruct m as [x|e]; [|done]. intros Hf. by exists x. Qed.

Lemma check_ok b m : check b m = Ok () -> b = true -> m = Ok ().
Proof. by destruct b. Qed.

(** What [validateArgs] has made sure of. *)
Record validated (method : jstr) (a : value) : Prop := {
  v_collection : is_one_of method ["open"; "executeSQL"]%string = false -> exists c, own a "collection" = VStr c /\ collection_ok c;
  v_id : is_one_of method ["getDoc"; "getMeta"; "setMeta"; "getLatest"; "patchDoc"; "delDoc"; "restoreDoc"]%string = true ->
    exists i, own a "id" = VStr i /\ id_ok i;
  v_sql : is_one_of method ["executeSQL"]%string = true -> exists q, own a "sql" = VStr q /\ q <> [] /\ (size q <= MAX_SQL_CHARS)%N;
  v_data : is_one_of method ["putData"]%string = true -> exists o, own a "data" = VObj o;
  v_meta : is_one_of method ["setMeta"]%string = true -> exists o, own a "meta" = VObj o;
  v_patch : is_one_of method ["patchDoc"]%string = true -> exists o, own a "newDoc" = VObj o;
  v_query : is_one_of method ["findDocs"]%string = true -> own a "query" = VUndef \/ exists o, own a "query" = VObj o
}.

Lemma validateArgs_validated method a : validateArgs method a = Ok () -> validated method a.
Proof.
  destruct a as [| | | | | |o]; try done. unfold validateArgs.
  intros ([] & Hc & ([] & Hi & ([] & Hs & ([] & Hd & ([] & Hm & ([] & Hp & Hq)%bound_ok)%bound_ok)%bound_ok)%bound_ok)%bound_ok)%bound_ok.
  split; intros Hmethod.
  - eapply check_ok in Hc; [|by rewrite Hmethod]. apply bound_ok in Hc as (c & (Hv & Hne & Hlen)%bounded_string & Hname).
    exists c. split; [done|]. split_and!; [done..|]. by destruct (collection_name c).
  - eapply check_ok in Hi; [|done]. apply bound_ok in Hi as (i & (Hv & Hne & Hlen)%bounded_string & _). by exists i.
  - eapply check_ok in Hs; [|done]. apply bound_ok in Hs as (q & (Hv & Hne & Hlen)%bounded_string & _). by exists q.
  - eapply check_ok in Hd; [|done]. apply bound_ok in Hd as (w & (o' & Hv & _)%required_object & _). by exists o'.
  - eapply check_ok in Hm; [|done]. apply bound_ok in Hm as (w & (o' & Hv & _)%required_object & _). by exists o'.
  - eapply check_ok in Hp; [|done]. apply bound_ok in Hp as (w & (o' & Hv & _)%required_object & _). by exists o'.
  - destruct (is_undef (own (VObj o) "query")) eqn:Hu; [left; revert Hu; by destruct (own (VObj o) "query")|]. right. eapply check_ok in Hq; [|by rewrite Hmethod].
    apply bound_ok in Hq as (w & (o' & Hv & _)%required_object & _). by exists o'.
Qed.

Lemma mobileConfig_ok v config : mobileConfig v = Ok config -> config_ok config.
Proof.
  intros Hc. destruct v as [| | | | | |o]; try done; [injection Hc as <-; by left|]. right. cbn [mobileConfig requireObject mbind outcome_bind] in Hc.
  apply bound_ok in Hc as (namespace & Hn & (root & Hr & (worker & Hw & [= <-])%bound_ok)%bound_ok).
  assert (namespace = [] \/ exists s, namespace = [(js "namespace", VStr s)]) as Hn'.
  { destruct (own _ "namespace"); try (injection Hn as <-; by left); apply bound_ok in Hn as (t & _ & [= <-]); right; by eexists. }
  assert (worker = [] \/ exists b, worker = [(js "worker", VBool b)]) as Hw'.
  { destruct (own _ "worker"); try done; injection Hw as <-; [by left|right; by eexists]. }
  assert (root = [] \/ exists path, root = [(js "root", VStr path)] /\ includes (js "..") path = false) as Hr'.
  { destruct (own _ "root"); try (injection Hr as <-; by left); apply bound_ok in Hr as (path & _ & Hr); right; exists path;
      destruct (negb _), (includes _ _), (includes_char _ _); try done; by injection Hr as <-. }
  destruct Hn' as [->|[s ->]], Hw' as [->|[b ->]], Hr' as [->|(path & -> & Hp)]; (split; [by vm_compute|]);
    try (by vm_compute); exists path; by split.
Qed.

Lemma on_client_preserves {A} (I : S -> Prop) (m : M S A) : preserves I m -> preserves (fun s => I (world s)) (on_client m).
Proof. intros Hm s Hs. unfold on_client. pose proof (Hm (world s) Hs) as Hk. by destruct (m (world s)). Qed.

(** The comparisons of a method that is known. *)
Ltac which_method :=
  repeat match goal with
  | |- context [jeqb (js ?a) (js ?b)] => let v := eval vm_compute in (jeqb (js a) (js b)) in change (jeqb (js a) (js b)) with v
  end; cbv iota.

Lemma preserves_lift_bind {T A B} (I : T -> Prop) (o : outcome A) (f : A -> M T B) :
  (forall a, o = Ok a -> preserves I (f a)) -> preserves I (lift o ≫= f).
Proof. intros Hf. destruct o as [a|e]; [|by intros t Ht]. intros t Ht. rewrite lift_bind. by apply Hf. Qed.

Lemma ensureDb_keeps I config : kept_by_valid_calls I -> preserves (fun s => I (world s)) (ensureDb config).
Proof.
  intros HI. unfold ensureDb. apply preserves_bind; [by intros ??|]. intros s0. destruct (db s0); [apply preserves_ret|].
  apply preserves_lift_bind. intros c Hc%mobileConfig_ok. apply preserves_bind; [by apply on_client_preserves, keeps_client|intros _].
  apply preserves_bind; [by apply preserves_modify|intros _]. by apply on_client_preserves, keeps_ready.
Qed.

(** The operands a method has validated. *)
Ltac operands Ha :=
  try destruct (v_collection _ _ Ha ltac:(by vm_compute)) as (collection & -> & Hcollection);
  try destruct (v_id _ _ Ha ltac:(by vm_compute)) as (id & -> & Hid);
  try destruct (v_sql _ _ Ha ltac:(by vm_compute)) as (sql & -> & Hsql & Hlength);
  try destruct (v_data _ _ Ha ltac:(by vm_compute)) as (data & ->);
  try destruct (v_meta _ _ Ha ltac:(by vm_compute)) as (meta & ->);
  try destruct (v_patch _ _ Ha ltac:(by vm_compute)) as (patch & ->).

(** A call among those of a law. *)
Ltac lawful_call H :=
  apply on_client_preserves; refine (proj1 (Forall_forall _ _) H _ _); repeat (apply elem_of_cons; (by left) || right).

Lemma route_keeps I method a : kept_by_valid_calls I -> preserves (fun s => I (world s)) (route method a).
Proof.
  intros HI. unfold route. destruct (bool_decide_reflect (method ∈ OPERATIONS)) as [Hin|]; cbn [negb]; [|apply preserves_throw].
  apply preserves_lift_bind. intros [] Ha%validateArgs_validated. apply preserves_bind; [by apply ensureDb_keeps|intros _].
  apply preserves_bind; [destruct (truthy _); [by apply on_client_preserves, keeps_lookup|apply preserves_ret]|intros _]. cbv zeta.
  repeat (apply elem_of_cons in Hin as [->|Hin]; [which_method|]); [..|by apply elem_of_nil in Hin]; try apply preserves_ret; operands Ha;
    cbn [to_str]; try solve [lawful_call (keeps_collection I HI _ Hcollection)];
    try solve [lawful_call (keeps_document I HI _ _ Hcollection Hid)];
    try solve [lawful_call (keeps_update I HI _ _ meta Hcollection Hid)|lawful_call (keeps_update I HI _ _ patch Hcollection Hid)].
  - by apply on_client_preserves, keeps_put.
  - apply preserves_bind; [|intros pages; apply preserves_ret]. apply on_client_preserves.
    destruct (v_query _ _ Ha ltac:(by vm_compute)) as [->|[o ->]]; by apply keeps_find.
  - by apply on_client_preserves, keeps_sql.
Qed.

(** C20: whatever text the native side sends, the client is made and called only with operands that
    were validated: with no configuration at all when none was given, else with a storage in the
    browser's private file system whose root has no [..]; with collection names of letters,
    digits, [.], [_] and [-], identifiers and statements of bounded length and objects for
    documents.  The one exception is the property of the client that [open] and [executeSQL] look
    up before they run ([keeps_lookup]), under a name that is not checked. What every such call
    and lookup keeps of the client's state, every message keeps. *)
Theorem only_validated_calls I encoded : kept_by_valid_calls I -> preserves (fun s => I (world s)) (dispatch encoded).
Proof.
  intros HI. unfold dispatch. fold (received encoded). destruct (received encoded) as [msg|e].
  - unfold handle. apply preserves_try; [|intros e; by apply preserves_modify]. apply preserves_lift_bind. intros _ _. cbv zeta.
    apply preserves_bind; [apply preserves_throw_if|intros _]. apply preserves_lift_bind. intros method _.
    apply preserves_bind; [by apply route_keeps|]. intros r. by apply preserves_modify.
  - destruct (recoverRequestId encoded); [by apply preserves_modify|apply preserves_ret].
Qed.

(** ** Requests that are too long *)

Lemma encode_ascii_app p x : ascii p = true -> encode (p ++ x) = p ++ encode x.
Proof.
  unfold ascii, encode. induction p as [|a p IH]; intros Hp; [done|]. cbn [forallb] in Hp. apply andb_true_iff in Hp as [Ha Hp]. cbn [app].
  assert (is_high a = false /\ is_surrogate a = false) as [Hh Hs] by (unfold is_high, is_surrogate, in_range; lia).
  assert (code_points (a :: p ++ x) = a :: code_points (p ++ x)) as ->.
  { cbn [code_points]. rewrite Hh. cbn [andb]. by destruct (p ++ x). }
  cbn [flat_map]. rewrite Hs, IH by done. unfold utf8_bytes. by rewrite Ha.
Qed.

Lemma decode_from_ascii_app p x : ascii p = true -> decode_from Fresh (p ++ x) = p ++ decode_from Fresh x.
Proof.
  unfold ascii. induction p as [|a p IH]; intros Hp; [done|]. cbn [forallb] in Hp. apply andb_true_iff in Hp as [Ha Hp].
  cbn [app decode_from step]. unfold start_byte. rewrite Ha. cbn [app]. by rewrite IH.
Qed.

(** [{"id":] *)
Definition request_head : jstr := [123; 34; 105; 100; 34; 58]%N.

Lemma request_text n method args : exists rest, Json.text (request n method args) = (request_head ++ Num.to_string n ++ [44%N]) ++ rest.
Proof.
  exists (join_with [44%N] [quote (js "method") ++ [58%N] ++ quote method; quote (js "args") ++ [58%N] ++ Json.text args] ++ [125%N]).
  assert (quote (js "id") = [34; 105; 100; 34]%N) as Hq by (by vm_compute). unfold request, request_head.
  cbn [Json.text map fst snd join_with]. rewrite Hq, <- !app_assoc. done.
Qed.

Lemma take_while_all (f : N -> bool) s c r : forallb f s = true -> f c = false -> take_while f (s ++ c :: r) = s.
Proof.
  intros Hs Hc. induction s as [|d s IH]; cbn [app take_while]; [by rewrite Hc|].
  cbn [forallb] in Hs. apply andb_true_iff in Hs as [-> Hs]. by rewrite IH.
Qed.

Lemma match_digits digits rest : forallb is_digit digits = true -> 0 < length digits <= 15 ->
  match_id ((request_head ++ digits ++ [44%N]) ++ rest) = Some digits.
Proof.
  intros Hd Hlen. assert (forall x, blanks (digits ++ 44%N :: x) = digits ++ 44%N :: x) as Hb.
  { intros x. destruct digits as [|c t]; [cbn in Hlen; lia|]. cbn [forallb] in Hd. apply andb_true_iff in Hd as [Hc _].
    unfold blanks. cbn [app drop_while]. assert (is_space c = false) as -> by (unfold is_digit, is_space, in_range in *; lia). done. }
  rewrite <- !app_assoc. assert (forall x, blanks (request_head ++ x) = request_head ++ x) as Hh by done.
  assert (forall x, after (js "{") (request_head ++ x) = Some (drop 1 request_head ++ x)) as H1 by done.
  assert (forall x, blanks (drop 1 request_head ++ x) = drop 1 request_head ++ x) as H2 by done.
  assert (forall x, after ([34] ++ js "id" ++ [34])%N (drop 1 request_head ++ x) = Some (58%N :: x)) as H3 by done.
  assert (forall x, blanks (58%N :: x) = 58%N :: x) as H4 by done. assert (forall x, after (js ":") (58%N :: x) = Some x) as H5 by done.
  unfold match_id. rewrite Hh, H1. cbn [mbind option_bind]. rewrite H2, H3. cbn [mbind option_bind]. rewrite H4, H5. cbn [mbind option_bind].
  cbn [app]. rewrite Hb, take_while_all by done. rewrite drop_app_length.
  destruct (Nat.eqb_spec (length digits) 0); [lia|]. destruct (Nat.ltb_spec 15 (length digits)); [lia|]. cbn [orb].
  by assert (blanks (44%N :: rest) = 44%N :: rest) as -> by done.
Qed.

Lemma head_ascii n : forallb is_digit (Num.to_string n) = true -> ascii (request_head ++ Num.to_string n ++ [44%N]) = true.
Proof.
  intros Hd. rewrite !ascii_app. assert (ascii (Num.to_string n) = true) as ->; [|done]. unfold ascii.
  apply forallb_forall. intros c Hc. rewrite forallb_forall in Hd. apply Hd in Hc. unfold is_digit, in_range in Hc. lia.
Qed.

Lemma recover_leading_id n l rest : Forall (fun b => Base64.byte b = true) l -> 1024 <= length (Base64.groups l) ->
  number_ok n = true -> safe_id (VNum n) = true -> forallb is_digit (Num.to_string n) = true -> 0 < length (Num.to_string n) <= 15 ->
  l = (request_head ++ Num.to_string n ++ [44%N]) ++ rest -> recoverRequestId (Base64.groups l) = Some (VNum n).
Proof.
  intros Hb Hl Hn Hid Hd Hlen Heq. set (p := request_head ++ Num.to_string n ++ [44%N]) in *.
  pose proof (head_ascii n Hd : ascii p = true) as Hp.
  assert (length p <= 3 * 256) as Hplen by (unfold p; rewrite !length_app; cbn [length request_head]; lia).
  unfold recoverRequestId. rewrite Nat.min_r by done. replace (1024 - 1024 mod 4) with (4 * 256) by (by vm_compute).
  change (4 * 256 =? 0) with false. cbv iota zeta. rewrite Base64.groups_take.
  assert (Forall (fun b => Base64.byte b = true) (take (3 * 256) l)) as Ht by (by apply Forall_take).
  rewrite Base64.groups_text, Base64.atob_groups by done. cbn [negb].
  rewrite Heq, take_app_ge by done. rewrite decode_no_bom by (intros x; unfold p, request_head; by destruct (take _ rest)).
  rewrite decode_from_ascii_app by done. unfold p at 1. rewrite match_digits by done. cbn [mbind option_bind].
  assert (Num.of_string (Num.to_string n) = n) as ->.
  { unfold number_ok in Hn. rewrite !andb_true_iff in Hn. by destruct Hn as [[_ ?%bool_decide_eq_true] _]. }
  by rewrite Hid.
Qed.

(** A request beyond the limit is not decoded, but the native side is told under the
    identifier the request starts with, so that its promise fails instead of never settling. *)
Theorem oversized_request_is_correlated n method args (s : state) :
  number_ok n = true -> safe_id (VNum n) = true -> forallb is_digit (Num.to_string n) = true -> length (Num.to_string n) <= 15 ->
  code_units method = true -> jsonable args = true -> (MAX_REQUEST_BASE64 < size (wire (request n method args)))%N ->
  dispatch (wire (request n method args)) s = (Ok (), posting (failure (VNum n) (VStr (js "FYLO bridge request exceeds the 8 MiB limit"))) s).
Proof.
  intros Hn Hid Hd Hlen Hm Ha Hsize. pose proof (jsonable_request n method args Hn Hm Ha) as Hj.
  unfold dispatch. fold (received (wire (request n method args))). unfold received, decode. rewrite (proj2 (N.ltb_lt _ _)) by done. cbn [mbind outcome_bind].
  enough (recoverRequestId (wire (request n method args)) = Some (VNum n)) as -> by done.
  pose proof (text_fit _ Hj) as [Hu Hw]%andb_true_iff. pose proof (Base64.encode_bytes _ Hu Hw) as Hb.
  destruct (request_text n method args) as [rest Ht]. unfold wire in *. apply (recover_leading_id n _ (encode rest)); try done.
  - unfold size, MAX_REQUEST_BASE64 in Hsize. lia.
  - split; [|done]. unfold number_ok in Hn. destruct (Num.to_string n); [by rewrite andb_false_r in Hn|cbn; lia].
  - rewrite Ht. by apply encode_ascii_app, head_ascii.
Qed.

(** ** Searches for identifiers alone *)

Definition spread (out : object) (page : value) : object :=
  fold_left (fun out kv => obj_set (fst kv) (snd kv) out) (entries page) out.

Lemma get_spread (kvs : object) o k :
  alist_get k (fold_left (fun out kv => obj_set (fst kv) (snd kv) out) kvs o) =
  match alist_get k (rev kvs) with Some v => Some v | None => alist_get k o end.
Proof.
  revert o. induction kvs as [|[k' v] kvs IH]; intros o; [done|]. cbn [fold_left fst snd rev]. rewrite IH, alist_get_obj_set.
  assert (forall l : object, alist_get k (l ++ [(k', v)]) = match alist_get k l with Some w => Some w | None => if decide (k = k') then Some v else None end) as ->.
  { intros l. induction l as [|[k1 v1] l IHl]; cbn; [done|]. by destruct (decide (k = k1)). }
  destruct (alist_get k (rev kvs)); [done|]. by destruct (decide (k = k')).
Qed.

Lemma keys_entries s : keys (entries (VStr s)) = map Num.dec_nat (seq 0 (length s)).
Proof. cbn [entries]. unfold keys. change (map fst ?x) with (fst <$> x). rewrite fmap_imap. apply (imap_seq_0 s Num.dec_nat). Qed.

Lemma get_rev_None k (o : object) : alist_get k (rev o) = None <-> k ∉ keys o.
Proof. rewrite alist_get_None. unfold keys. by rewrite map_rev, !list_elem_of_In, <- in_rev. Qed.

(** Pages of strings of one length: the last one overwrites all others. *)
Lemma collect_strings ids t : Forall (fun i => length i = length t) ids ->
  forall k, prop (collect (map VStr (ids ++ [t]))) k = prop (collect [VStr t]) k.
Proof.
  intros Hlen k. unfold collect. cbn [prop map fold_left]. f_equal. fold (spread [] (VStr t)). rewrite map_app, fold_left_app.
  change (fun (out : object) page => fold_left _ (entries page) out) with spread.
  assert (forall o, fold_left spread (map VStr ids) [] = o -> forall k', alist_get k' o <> None -> k' ∈ keys (entries (VStr t))) as Hkeys.
  { induction ids as [|i ids IH] using rev_ind; [by intros o <-|]. intros o <- k'. apply Forall_app in Hlen as [Hids [Hi _]%Forall_cons].
    rewrite map_app, fold_left_app. cbn [map fold_left]. unfold spread at 1. rewrite get_spread. destruct (alist_get k' (rev _)) eqn:Hg.
    - intros _. destruct (decide (k' ∈ keys (entries (VStr i)))) as [Hk|Hk]; [by rewrite keys_entries, <- Hi, <- keys_entries|].
      apply get_rev_None in Hk. congruence.
    - intros Ho. by eapply IH. }
  cbn [map fold_left]. unfold spread at 1 3. rewrite !get_spread. destruct (alist_get k (rev _)) eqn:Hg; [done|].
  apply get_rev_None in Hg. destruct (alist_get k (fold_left _ _ _)) eqn:Ho; [|done]. exfalso. apply Hg. eapply Hkeys; [done|]. by rewrite Ho.
Qed.

(** A search with operands that pass. *)
Lemma search_route c query (s : state) w1 w2 pages : collection_ok c -> db s = true ->
  lookup (VStr c) (world s) = (Ok (), w1) -> col_find_collect c (VObj query) w1 = (Ok pages, w2) ->
  route (js "findDocs") (VObj [(js "collection", VStr c); (js "query", VObj query)]) s = (Ok (collect pages), mkBridge w2 true (posted s)).
Proof.
  intros (Hne & Hlen & Hname) Hdb Hl Hf. unfold route.
  set (a := VObj [(js "collection", VStr c); (js "query", VObj query)]). change (own a "collection") with (VStr c). change (own a "query") with (VObj query).
  assert (bool_decide (js "findDocs" ∈ OPERATIONS) = true) as -> by (by vm_compute). cbn [negb].
  assert (validateArgs (js "findDocs") a = Ok ()) as ->.
  { unfold validateArgs, a. fold a. change (own a "collection") with (VStr c). change (own a "query") with (VObj query).
    assert (requireBoundedString (VStr c) "collection" MAX_COLLECTION_CHARS = Ok c) as -> by (by apply requireBoundedString_ok).
    cbn [mbind outcome_bind]. rewrite Hname. by vm_compute. }
  run_pure. unfold ensureDb. rewrite (M_bind_ok _ _ s s ()) by (run_pure; by rewrite Hdb).
  assert (truthy (VStr c) = true) as -> by (cbn; by rewrite jeqb_neq).
  rewrite (M_bind_ok _ _ s (mkBridge w1 (db s) (posted s)) ()) by (unfold on_client; by rewrite Hl).
  cbv zeta. which_method. rewrite (M_bind_ok _ _ _ (mkBridge w2 (db s) (posted s)) pages) by (unfold on_client; cbn [world to_str is_nullish]; by rewrite Hf).
  by rewrite Hdb.
Qed.

End Bridge.

(** ** Before the channel to the native side is there *)

(** A post that found no channel: its listener for the platform's signal, and how often its
    timer has tried, while it runs. *)
Record attempt := mkAttempt { message : jstr; listening : bool; tries : option nat }.
Record outbox := mkOutbox { live : bool; sent : list jstr; attempts : list attempt }.

Definition rawPost (text : jstr) (o : outbox) : bool * outbox :=
  if live o then (true, mkOutbox true (sent o ++ [text]) (attempts o)) else (false, o).

Definition post_text (text : jstr) (o : outbox) : outbox :=
  let '(done, o) := rawPost text o in
  if done then o else mkOutbox (live o) (sent o) (attempts o ++ [mkAttempt text true (Some 0)]).

(** The channel appears; [flutterInAppWebViewPlatformReady] fires; the timer of the [i]-th
    attempt fires. *)
Inductive moment := Attach | PlatformReady | Tick (i : nat).

Definition stop_listening (a : attempt) : attempt := mkAttempt (message a) false (tries a).
Definition platform_ready (o : outbox) : outbox :=
  fold_left (fun o a => if listening a then snd (rawPost (message a) o) else o) (attempts o)
    (mkOutbox (live o) (sent o) (map stop_listening (attempts o))).

Definition tick (i : nat) (o : outbox) : outbox :=
  match attempts o !! i with
  | Some (mkAttempt text listens (Some n)) =>
      let '(done, o) := rawPost text o in
      let tries := if done || (100 <? S n) then None else Some (S n) in
      mkOutbox (live o) (sent o) (<[i := mkAttempt text listens tries]> (attempts o))
  | _ => o
  end.

Definition next (o : outbox) (m : moment) : outbox :=
  match m with
  | Attach => mkOutbox true (sent o) (attempts o)
  | PlatformReady => platform_ready o
  | Tick i => tick i o
  end.
Definition run (schedule : list moment) (o : outbox) : outbox := fold_left next schedule o.

Definition is_tick (i : nat) (m : moment) : bool := match m with Tick j => j =? i | _ => false end.
Definition is_attach (m : moment) : bool := match m with Attach => true | _ => false end.

(** What a schedule does to one attempt: it keeps it, and the tries of its timer, or the
    text has been sent. *)
Definition delivers (i : nat) (text : jstr) (o : outbox) : Prop :=
  text ∈ sent o \/ live o = true /\ exists listens n, attempts o !! i = Some (mkAttempt text listens (Some n)).

Lemma ready_fields o : live (platform_ready o) = live o /\ attempts (platform_ready o) = map stop_listening (attempts o) /\
  exists more, sent (platform_ready o) = sent o ++ more.
Proof.
  unfold platform_ready. set (o1 := mkOutbox (live o) (sent o) _).
  assert (forall l o', live (fold_left (fun o a => if listening a then snd (rawPost (message a) o) else o) l o') = live o' /\
    attempts (fold_left (fun o a => if listening a then snd (rawPost (message a) o) else o) l o') = attempts o' /\
    exists more, sent (fold_left (fun o a => if listening a then snd (rawPost (message a) o) else o) l o') = sent o' ++ more) as H.
  { induction l as [|a l IH]; intros o'; [by split_and!; [..|exists []; rewrite app_nil_r]|]. cbn [fold_left].
    destruct (IH (if listening a then snd (rawPost (message a) o') else o')) as (-> & -> & more & ->). unfold rawPost.
    destruct (listening a); [|by split_and!; [..|exists more]]. destruct (live o') eqn:Hl; [|by split_and!; [..|exists more]].
    cbn [snd live sent attempts]. split_and!; [done..|]. exists ([message a] ++ more). by rewrite app_assoc. }
  apply (H (attempts o) o1).
Qed.

Lemma tick_fields i o : live (tick i o) = live o /\ (exists more, sent (tick i o) = sent o ++ more) /\
  forall j, j <> i -> attempts (tick i o) !! j = attempts o !! j.
Proof.
  unfold tick. assert (exists more, sent o = sent o ++ more) as Hs by (exists []; by rewrite app_nil_r).
  destruct (attempts o !! i) as [[text listens [n|]]|]; [|by split_and!..]. unfold rawPost. destruct (live o) eqn:Hl; cbn [live sent attempts].
  - split_and!; [done|by eexists|]. intros j Hj. by rewrite list_lookup_insert_ne.
  - split_and!; [done..|]. intros j Hj. by rewrite list_lookup_insert_ne.
Qed.

Lemma delivers_next i text o m : delivers i text o -> delivers i text (next o m).
Proof.
  intros [Hin|(Hl & listens & n & Ha)].
  - left. destruct m as [| |j]; cbn [next]; [done|..].
    + destruct (ready_fields o) as (_ & _ & more & ->). apply elem_of_app. by left.
    + destruct (tick_fields j o) as (_ & [more ->] & _). apply elem_of_app. by left.
  - destruct m as [| |j]; cbn [next].
    + right. split; [done|]. by exists listens, n.
    + destruct (ready_fields o) as (Hl' & Ha' & _). right. rewrite Hl', Ha'. split; [done|]. exists false, n.
      change (map stop_listening (attempts o)) with (stop_listening <$> attempts o). by rewrite list_lookup_fmap, Ha.
    + destruct (decide (i = j)) as [<-|Hne].
      * left. unfold tick, rawPost. rewrite Ha, Hl. cbn [sent]. apply elem_of_app. right. by apply list_elem_of_singleton.
      * destruct (tick_fields j o) as (Hl' & _ & Hj). right. rewrite Hl', Hj by done. split; [done|]. by exists listens, n.
Qed.

Lemma waits_next i text o m listens n : is_attach m = false -> live o = false -> n + (if is_tick i m then 1 else 0) <= 100 ->
  attempts o !! i = Some (mkAttempt text listens (Some n)) ->
  live (next o m) = false /\ exists listens', attempts (next o m) !! i = Some (mkAttempt text listens' (Some (n + if is_tick i m then 1 else 0))).
Proof.
  intros Hm Hl Hn Ha. destruct m as [| |j]; [done|..]; cbn [next is_tick] in *.
  - destruct (ready_fields o) as (-> & -> & _). split; [done|]. exists false.
    change (map stop_listening (attempts o)) with (stop_listening <$> attempts o). rewrite list_lookup_fmap, Ha. cbn. by rewrite Nat.add_0_r.
  - destruct (Nat.eqb_spec j i) as [->|Hne].
    + unfold tick, rawPost. rewrite Ha, Hl. destruct (Nat.ltb_spec 100 (S n)); [lia|]. cbn [orb live attempts]. split; [done|]. exists listens.
      rewrite list_lookup_insert_eq by (by eapply lookup_lt_Some). by rewrite Nat.add_1_r.
    + destruct (tick_fields j o) as (-> & _ & ->); [|done]. split; [done|]. exists listens. by rewrite Nat.add_0_r.
Qed.

Lemma waits_run i text schedule o listens n : forallb (fun m => negb (is_attach m)) schedule = true -> live o = false ->
  n + length (filter (fun m => is_tick i m = true) schedule) <= 100 -> attempts o !! i = Some (mkAttempt text listens (Some n)) ->
  live (run schedule o) = false /\ exists listens' n', attempts (run schedule o) !! i = Some (mkAttempt text listens' (Some n')).
Proof.
  revert o listens n. induction schedule as [|m schedule IH]; intros o listens n Hs Hl Hn Ha; [split; [done|by exists listens, n]|].
  cbn [forallb] in Hs. apply andb_true_iff in Hs as [Hm%negb_true_iff Hs]. cbn [run fold_left].
  assert (n + (if is_tick i m then 1 else 0) + length (filter (fun m => is_tick i m = true) schedule) <= 100) as Hn'.
  { rewrite filter_cons in Hn. destruct (is_tick i m); [rewrite decide_True in Hn by done|rewrite decide_False in Hn by done]; cbn [length] in Hn; lia. }
  destruct (waits_next i text o m listens n) as (Hl' & listens' & Ha'); [done..|lia|done|]. by eapply IH.
Qed.

(** A text posted before the channel is there is not lost: when the channel appears
    before the post's timer has fired more than a hundred times, the timer's next turn, if
    not the platform's signal, delivers it. *)
Theorem early_posts_are_delivered text o before after :
  live o = false -> let i := length (attempts o) in
  forallb (fun m => negb (is_attach m)) before = true -> length (filter (fun m => is_tick i m = true) before) <= 100 ->
  text ∈ sent (run (before ++ [Attach] ++ after ++ [Tick i]) (post_text text o)).
Proof.
  intros Hl i Hbefore Hticks. unfold run. rewrite !fold_left_app. cbn [fold_left].
  assert (attempts (post_text text o) !! i = Some (mkAttempt text true (Some 0)) /\ live (post_text text o) = false) as [Ha Hl'].
  { unfold post_text, rawPost, i. rewrite Hl. cbn [attempts live]. split; [|done]. by rewrite lookup_app_r, Nat.sub_diag by lia. }
  destruct (waits_run i text before (post_text text o) true 0 Hbefore Hl' Hticks Ha) as (_ & listens & n & Hn).
  fold (run before (post_text text o)). set (o1 := next (run before (post_text text o)) Attach).
  assert (delivers i text o1) as Hd by (right; split; [done|by exists listens, n]).
  assert (delivers i text (fold_left next after o1)) as [Hin|(Hlive & listens' & n' & Ha')].
  { clear Hbefore. generalize o1 Hd. induction after as [|m after' IH]; intros o2 Ho2; [done|]. apply IH. by apply delivers_next. }
  - cbn [next]. destruct (tick_fields i (fold_left next after o1)) as (_ & [more ->] & _). apply elem_of_app. by left.
  - cbn [next]. unfold tick, rawPost. rewrite Ha', Hlive. cbn [sent]. apply elem_of_app. right. by apply list_elem_of_singleton.
Qed.

(** The signal does not stop the timer: the text is then sent twice. *)
Lemma signalled_posts_are_sent_twice text o : live o = false -> attempts o = [] ->
  sent (run [Attach; PlatformReady; Tick 0] (post_text text o)) = sent o ++ [text; text].
Proof. destruct o as [l sent attempts]. cbn. intros -> ->. cbn. by rewrite <- app_assoc. Qed.

(** ** A client to try it on *)

Module Toy.

(** It keeps what is put and finds the identifiers it gave. *)
#[local] Instance toy_client : BrowserClient (list (jstr * value)) := {
  createBrowserClient _ := mret ();
  ready := mret ();
  lookup _ := mret ();
  col_create _ := mret VUndef;
  col_drop _ := throw (Error (js "no such collection"));
  col_inspect _ := mret VNull;
  col_rebuild _ := mret VNull;
  col_put c v := (_ ← modify (fun s => s ++ [(c, v)]); mret (VStr (js "1")));
  col_get_once _ _ := mret (VObj []);
  col_get_metadata _ _ := mret VNull;
  col_put_metadata _ _ _ := mret VUndef;
  col_latest _ _ := mret VNull;
  col_patch _ _ _ := mret VUndef;
  col_delete _ _ := mret VUndef;
  col_restore _ _ := mret VUndef;
  col_find_collect _ _ := mret [VStr (js "abc"); VStr (js "xyz")];
  client_sql _ := mret VNull
}.

Definition start : bridge (list (jstr * value)) := mkBridge [] false [].
Definition one : Num.num := Num.of_Z 1.
Definition put_args : value := VObj [(js "collection", VStr (js "users")); (js "data", VObj [(js "name", VStr (js "ann"))])].

Definition put_answer : value := VObj [(js "id", VNum one); (js "ok", VBool true); (js "result", VStr (js "1"))].

Lemma put_answer_fits : fits put_answer = true.
Proof. by vm_compute. Qed.

Lemma request_is_answered_witness : exists t,
  dispatch (wire (request one (js "putData") put_args)) start =
    (Ok (), mkBridge [(js "users", VObj [(js "name", VStr (js "ann"))])] true [t]) /\ Json.parse t = Ok put_answer.
Proof.
  destruct (request_is_answered one (js "putData") put_args start (Ok (VStr (js "1")))
    (mkBridge [(js "users", VObj [(js "name", VStr (js "ann"))])] true [])) as (t & Hd & Hp); [by vm_compute..|].
  exists t. split; [exact Hd|]. change (answer (VNum one) (Ok (VStr (js "1")))) with put_answer in Hp. by rewrite put_answer_fits in Hp.
Defined.

Lemma refused_requests_touch_nothing_witness : exists answers,
  dispatch (wire (request one (js "dropDatabase") put_args)) start = (Ok (), mkBridge [] false answers) /\
  (length answers = 1 \/ answers = [] /\ is_ok (received (wire (request one (js "dropDatabase") put_args))) = false /\
    recoverRequestId (wire (request one (js "dropDatabase") put_args)) = None).
Proof. apply (refused_requests_touch_nothing (wire (request one (js "dropDatabase") put_args)) start). by vm_compute. Defined.

(** The names the client was given are names of collections. *)
Definition named (s : list (jstr * value)) : Prop := Forall (fun cv => collection_name (fst cv) = true) s.

Lemma named_kept : kept_by_valid_calls named.
Proof.
  split; try (intros; apply preserves_ret); try (intros; repeat constructor; try apply preserves_ret; apply preserves_throw).
  intros c o (_ & _ & Hc) s Hs. cbn. apply Forall_app. split; [done|]. by repeat constructor.
Qed.

Lemma only_validated_calls_witness : named (world (snd (dispatch (wire (request one (js "putData") put_args)) start))).
Proof. apply (only_validated_calls named (wire (request one (js "putData") put_args)) named_kept start). constructor. Defined.

Definition long : nat := N.to_nat 8388608.

Lemma escape_letters n : escape (replicate n 97%N) = replicate n 97%N.
Proof.
  induction n as [|n IH]; [done|]. destruct n as [|n]; [done|].
  change (escape (replicate (S (S n)) 97%N)) with (escape_unit 97 ++ escape (replicate (S n) 97%N)). by rewrite IH.
Qed.

Lemma letters_units n : code_units (replicate n 97%N) = true.
Proof. unfold code_units. apply forallb_forall. by intros c [-> _]%list_elem_of_In%elem_of_replicate. Qed.

Lemma long_size : (MAX_REQUEST_BASE64 < size (wire (request one (js "executeSQL") (VStr (replicate long 97%N)))))%N.
Proof.
  unfold size, wire. rewrite Base64.groups_length.
  assert (long <= length (encode (Json.text (request one (js "executeSQL") (VStr (replicate long 97%N)))))) as Hl.
  { assert (ascii (Json.text (request one (js "executeSQL") (VStr (replicate long 97%N)))) = true) as Ha.
    { unfold request. cbn [Json.text map fst snd join_with]. unfold quote. rewrite escape_letters, !ascii_app.
      assert (ascii (replicate long 97%N) = true) as ->; [|by vm_compute].
      unfold ascii. apply forallb_forall. by intros c [-> _]%list_elem_of_In%elem_of_replicate. }
    rewrite encode_ascii by done. unfold request. cbn [Json.text map fst snd join_with]. unfold quote. rewrite escape_letters.
    rewrite !length_app, length_replicate. lia. }
  assert (N.of_nat long = 8388608%N) as Hn by apply N2Nat.id. unfold MAX_REQUEST_BASE64.
  remember (length (encode (Json.text (request one (js "executeSQL") (VStr (replicate long 97%N)))))) as k eqn:Ek. clear Ek.
  pose proof (Nat.div_mod_eq (k + 2) 3). pose proof (Nat.mod_upper_bound (k + 2) 3). lia.
Qed.

Lemma oversized_request_is_correlated_witness :
  dispatch (wire (request one (js "executeSQL") (VStr (replicate long 97%N)))) start =
  (Ok (), posting (failure (VNum one) (VStr (js "FYLO bridge request exceeds the 8 MiB limit"))) start).
Proof.
  apply (oversized_request_is_correlated one (js "executeSQL") (VStr (replicate long 97%N)) start).
  1-3,5: by vm_compute.
  - vm_compute. lia.
  - apply letters_units.
  - apply long_size.
Defined.

Lemma early_posts_are_delivered_witness :
  js "ready" ∈ sent (run ([Tick 0; PlatformReady] ++ [Attach] ++ [] ++ [Tick 0]) (post_text (js "ready") (mkOutbox false [] []))).
Proof. apply (early_posts_are_delivered (js "ready") (mkOutbox false [] []) [Tick 0; PlatformReady] []); [reflexivity|reflexivity|]. vm_compute. lia. Defined.

End Toy.
End Mobile.
