(* ===== verification/PrefixIndex.v ===== *)
(** The persistent prefix index: class [BrowserPrefixIndex] of
    [src/browser/core/prefix-index.js] over any filesystem.  On disk it is a sorted
    snapshot of keys and a log of later changes; in memory it caches both.  The WASM
    scanner is a parameter, as it is in the code. *)

From stdpp Require Import gmap sets.
From S2P Require Import Prelude PathUtil JsNum JsValue Utf8 Json Shard Ttid Codec Filesystem.

Module PrefixIndex.
Import Utf8 Codec.

Definition LOCAL_FS_FORMAT : jstr := js "fylo.local-fs.index.v1".
Definition LOCAL_FS_MANIFEST : jstr := js "manifest.json".
Definition LOCAL_FS_SNAPSHOT : jstr := js "keys.snapshot".
Definition LOCAL_FS_WAL : jstr := js "keys.wal".
Definition LOCAL_FS_WAL_COMPACT_BYTES : N := 1048576.

Definition newline : N := 10.
Definition tab : N := 9.

(** ** The text of the two files *)

Definition stripTrailingCarriageReturn (line : jstr) : jstr :=
  if ends_with [13%N] line then removelast line else line.

Definition completeLines (text : jstr) : list jstr :=
  match text with
  | [] => []
  | _ =>
      let complete :=
        if ends_with [newline] text then text
        else match last_index_of newline text with
             | Some i => take (S i) text
             | None => []
             end in
      filter (fun l => l <> []) (map stripTrailingCarriageReturn (split_on newline complete))
  end.

Definition serializeSnapshot (keys : list jstr) : jstr :=
  match keys with [] => [] | _ => join_with [newline] keys ++ [newline] end.

Inductive mutation := Put (key : jstr) | Del (key : jstr).
Definition mutation_key (m : mutation) : jstr := match m with Put k | Del k => k end.

Definition mutation_line (m : mutation) : jstr :=
  match m with
  | Put key => [43%N; tab] ++ key ++ [newline]
  | Del key => [45%N; tab] ++ key ++ [newline]
  end.

Definition serializeWal (mutations : list mutation) : jstr := concat (map mutation_line mutations).

Definition parseWalMutation (line : jstr) : option mutation :=
  match line with
  | op :: t :: key =>
      if ((op =? 43)%N || (op =? 45)%N) && (t =? tab)%N then
        match key with
        | [] => None
        | _ => Some (if (op =? 43)%N then Put key else Del key)
        end
      else None
  | _ => None
  end.

(** ** Sets, in insertion order *)

Definition set_add (x : jstr) (l : list jstr) : list jstr := if bool_decide (x ∈ l) then l else l ++ [x].
Definition set_delete (x : jstr) (l : list jstr) : list jstr := filter (fun y => y <> x) l.
Definition set_of (l : list jstr) : list jstr := fold_left (fun s x => set_add x s) l [].

Definition apply_mutation (keys : list jstr) (line : jstr) : list jstr :=
  match parseWalMutation line with
  | None => keys
  | Some (Put key) => set_add key keys
  | Some (Del key) => set_delete key keys
  end.

Record overlay := mkOverlay { added : list jstr; removed : list jstr }.

Definition overlay_step (o : overlay) (m : mutation) : overlay :=
  match m with
  | Put key => mkOverlay (set_add key (added o)) (set_delete key (removed o))
  | Del key => mkOverlay (set_delete key (added o)) (set_add key (removed o))
  end.

Definition overlay_of (lines : list jstr) : overlay :=
  fold_left (fun o line => match parseWalMutation line with Some m => overlay_step o m | None => o end)
    lines (mkOverlay [] []).

(** ** Searching the snapshot *)

(** [while (start > 0 && bytes[start - 1] !== 0x0a) start--] *)
Fixpoint line_start (bytes : list N) (start : nat) : nat :=
  match start with
  | O => O
  | S p => if bool_decide (bytes !! p = Some newline) then start else line_start bytes p
  end.

(** [while (end < bytes.length && bytes[end] !== 0x0a) end++] *)
Definition line_end (bytes : list N) (at_ : nat) : nat :=
  at_ + length (take_while (fun b => negb (b =? newline)%N) (drop at_ bytes)).

Definition subarray (bytes : list N) (from to : nat) : list N := take (to - from) (drop from bytes).

Fixpoint search (fuel : nat) (bytes : list N) (prefix : jstr) (lo hi : nat) : nat :=
  match fuel with
  | O => lo
  | S f =>
      if lo <? hi then
        let mid := Nat.div2 (lo + hi) in
        let start := line_start bytes mid in
        let end_ := line_end bytes mid in
        let key := decode (subarray bytes start end_) in
        if jltb key prefix then search f bytes prefix (S end_) hi
        else search f bytes prefix lo start
      else lo
  end.

Definition findFirstKeyAtOrAfter (bytes : list N) (prefix : jstr) : nat :=
  let lo := search (length bytes) bytes prefix 0 (length bytes) in
  if lo <? length bytes then line_start bytes lo else lo.

(** The keys the generator yields, until the end of the bytes. *)
Definition streamKeysFrom (bytes : list N) (offset : nat) : list jstr :=
  filter (fun key => key <> []) (map decode (split_on newline (drop offset bytes))).

(** The loop over a snapshot's keys: it stops at the first key without the prefix. *)
Fixpoint scan_keys (keys : list jstr) (fullPrefix rootPrefix : jstr) (range : option (range_op * jstr))
    (target : list jstr) : outcome (list jstr) :=
  match keys with
  | [] => Ok target
  | key :: rest =>
      if negb (starts_with fullPrefix key) then Ok target
      else if negb (includeKeyInRange key range) then scan_keys rest fullPrefix rootPrefix range target
      else
        docId ← docIdFromKey rootPrefix key;
        scan_keys rest fullPrefix rootPrefix range (set_add docId target)
  end.

Definition scanSnapshotWithJavaScript (bytes : list N) (fullPrefix rootPrefix : jstr)
    (range : option (range_op * jstr)) (target : list jstr) : outcome (list jstr) :=
  scan_keys (streamKeysFrom bytes (findFirstKeyAtOrAfter bytes fullPrefix)) fullPrefix rootPrefix range target.

(** One of the two loops over the overlay. *)
Definition overlay_pass (f : jstr -> list jstr -> list jstr) (fullPrefix rootPrefix : jstr)
    (range : option (range_op * jstr)) (keys : list jstr) (next : list jstr) : outcome (list jstr) :=
  fold_outcome (fun next key =>
    if negb (starts_with fullPrefix key) then Ok next
    else if negb (includeKeyInRange key range) then Ok next
    else docId ← docIdFromKey rootPrefix key; Ok (f docId next)) next keys.

Definition intersect (current : option (list jstr)) (next : list jstr) : list jstr :=
  match current with
  | None => next
  | Some c => filter (fun x => x ∈ c) next
  end.

(** ** The index's state *)

Inductive acceleration_state := Loading | Active | Fallback.

Record metrics := mkMetrics {
  snapshotReads : nat; snapshotBytes : nat; walReads : nat; walBytes : nat;
  snapshotLoads : nat; scans : nat
}.

(** A cached snapshot carries the number of the read that made it: the code compares
    such arrays by identity. *)
Record index_state (D : Type) := mkIndex {
  index_disk : D;
  snapshotCache : gmap jstr (nat * list N);
  walOverlayCache : gmap jstr overlay;
  scanners : gset jstr;
  scannerSnapshots : gmap jstr nat;
  accelerationState : acceleration_state;
  accelerationError : option (jstr * jstr);   (* reason code, message *)
  accelerationMetrics : metrics
}.
Arguments mkIndex {D}.
Arguments index_disk {D}. Arguments snapshotCache {D}. Arguments walOverlayCache {D}.
Arguments scanners {D}. Arguments scannerSnapshots {D}. Arguments accelerationState {D}.
Arguments accelerationError {D}. Arguments accelerationMetrics {D}.

(** [indexScannerFactory]: whether it and its instances come up, and what an instance
    answers about the snapshot it was given. *)
Record scanner_factory := {
  factory_ready : outcome ();
  factory_create : outcome ();
  load_snapshot : list N -> outcome ();
  scan_queries : list N -> jstr -> option (range_op * jstr) -> outcome (list jstr)
}.

Section Index.
  Context {D : Type} `{FyloFilesystem D, Clock D}.
  Context (sha256Hex : jstr -> jstr) (rootForCollection : jstr -> outcome jstr)
          (indexScannerFactory : option scanner_factory).

Abbreviation state := (index_state D).

Definition set_disk (d : D) (s : state) : state :=
  mkIndex d (snapshotCache s) (walOverlayCache s) (scanners s) (scannerSnapshots s)
    (accelerationState s) (accelerationError s) (accelerationMetrics s).
Definition set_snapshot (c : jstr) (b : option (nat * list N)) (s : state) : state :=
  mkIndex (index_disk s) (partial_alter (fun _ => b) c (snapshotCache s)) (walOverlayCache s) (scanners s)
    (scannerSnapshots s) (accelerationState s) (accelerationError s) (accelerationMetrics s).
Definition set_overlay (c : jstr) (o : option overlay) (s : state) : state :=
  mkIndex (index_disk s) (snapshotCache s) (partial_alter (fun _ => o) c (walOverlayCache s)) (scanners s)
    (scannerSnapshots s) (accelerationState s) (accelerationError s) (accelerationMetrics s).
Definition set_scanners (l : gset jstr) (m : gmap jstr nat) (s : state) : state :=
  mkIndex (index_disk s) (snapshotCache s) (walOverlayCache s) l m
    (accelerationState s) (accelerationError s) (accelerationMetrics s).
Definition set_acceleration (a : acceleration_state) (e : option (jstr * jstr)) (s : state) : state :=
  mkIndex (index_disk s) (snapshotCache s) (walOverlayCache s) (scanners s) (scannerSnapshots s) a e
    (accelerationMetrics s).
Definition set_metrics (f : metrics -> metrics) (s : state) : state :=
  mkIndex (index_disk s) (snapshotCache s) (walOverlayCache s) (scanners s) (scannerSnapshots s)
    (accelerationState s) (accelerationError s) (f (accelerationMetrics s)).

(** A filesystem call from inside the index. *)
Definition on_disk {A} (m : M D A) : M state A := fun s =>
  let '(r, d) := m (index_disk s) in (r, set_disk d s).

(** ** Paths *)

Definition root (collection : jstr) : outcome jstr :=
  base ← rootForCollection collection; Ok (Path.join_strings [base; js "index"]).
Definition manifestPath (collection : jstr) : outcome jstr :=
  base ← root collection; Ok (Path.join_strings [base; LOCAL_FS_MANIFEST]).
Definition snapshotPath (collection : jstr) : outcome jstr :=
  base ← root collection; Ok (Path.join_strings [base; LOCAL_FS_SNAPSHOT]).
Definition walPath (collection : jstr) : outcome jstr :=
  base ← root collection; Ok (Path.join_strings [base; LOCAL_FS_WAL]).

Definition readTextIfExists (path : jstr) : M D jstr :=
  found ← exists_ path; if negb found then mret [] else readText path.

Definition writeIfMissing (path data : jstr) : M D () :=
  found ← exists_ path; if found : bool then mret () else writeText path data.

Definition manifest_text (createdAt : Z) : jstr :=
  Json.text (VObj [(js "format", VStr LOCAL_FS_FORMAT); (js "createdAt", VNum (Num.of_Z createdAt))]) ++ [newline].

(** [ensureCollection(collection)] touches the disk only. *)
Definition ensureCollection (collection : jstr) : M D () :=
  base ← lift (root collection);
  _ ← mkdir base true;
  manifest ← lift (manifestPath collection);
  t ← now;
  _ ← writeIfMissing manifest (manifest_text t);
  snapshot ← lift (snapshotPath collection);
  _ ← writeIfMissing snapshot [];
  wal ← lift (walPath collection);
  writeIfMissing wal [].

(** ** Acceleration *)

(** [close()]: every scanner is released; errors of releasing are swallowed. *)
Definition close : M state () := modify (set_scanners ∅ ∅).

Definition disableAcceleration (error : js_error) (defaultCode : jstr) : M state () :=
  let code := match err_code error with
              | Some c => if starts_with (js "EWASM_") c then c else defaultCode
              | None => defaultCode
              end in
  _ ← modify (set_acceleration Fallback (Some (code, err_message error)));
  close.

Definition ready : M state () :=
  s ← get;
  match indexScannerFactory, accelerationState s with
  | None, _ | _, Fallback => mret ()
  | Some factory, _ =>
      match factory_ready factory with
      | Ok _ => modify (fun s => set_acceleration Active (accelerationError s) s)
      | Throw e => disableAcceleration e (js "EWASM_INSTANTIATE")
      end
  end.

Inductive acceleration_status :=
| StatusOff
| StatusWasm (st : acceleration_state) (error : option (jstr * jstr)) (counters : metrics).

Definition accelerationStatus : M state acceleration_status :=
  gets (fun s => match indexScannerFactory with
                 | None => StatusOff
                 | Some _ => StatusWasm (accelerationState s) (accelerationError s) (accelerationMetrics s)
                 end).

(** [scannerFor(collection)]: the scanner, if there is one to use. *)
Definition scannerFor (collection : jstr) : M state (option scanner_factory) :=
  s ← get;
  match indexScannerFactory, accelerationState s with
  | None, _ | _, Fallback => mret None
  | Some factory, st =>
      _ ← when (match st with Active => false | _ => true end) ready;
      s1 ← get;
      match accelerationState s1 with
      | Active =>
          _ ← modify (fun s => set_scanners ({[collection]} ∪ scanners s) (scannerSnapshots s) s);
          match factory_create factory with
          | Ok _ => mret (Some factory)
          | Throw e => _ ← disableAcceleration e (js "EWASM_INSTANTIATE"); mret None
          end
      | _ => mret None
      end
  end.

Definition forgetCollection (collection : jstr) : M state () :=
  modify (fun s =>
    set_scanners (scanners s ∖ {[collection]}) (delete collection (scannerSnapshots s))
      (set_overlay collection None (set_snapshot collection None s))).

(** ** Reading and writing *)

Definition resetCollection (collection : jstr) : M state () :=
  _ ← forgetCollection collection;
  base ← lift (root collection);
  _ ← on_disk (rmdir base true);
  on_disk (ensureCollection collection).

Definition count_snapshot (n : nat) (m : metrics) : metrics :=
  mkMetrics (S (snapshotReads m)) (snapshotBytes m + n) (walReads m) (walBytes m) (snapshotLoads m) (scans m).
Definition count_wal (n : nat) (m : metrics) : metrics :=
  mkMetrics (snapshotReads m) (snapshotBytes m) (S (walReads m)) (walBytes m + n) (snapshotLoads m) (scans m).
Definition count_load (m : metrics) : metrics :=
  mkMetrics (snapshotReads m) (snapshotBytes m) (walReads m) (walBytes m) (S (snapshotLoads m)) (scans m).
Definition count_scan (m : metrics) : metrics :=
  mkMetrics (snapshotReads m) (snapshotBytes m) (walReads m) (walBytes m) (snapshotLoads m) (S (scans m)).

Definition readSnapshotBytes (collection : jstr) : M state (nat * list N) :=
  s ← get;
  match snapshotCache s !! collection with
  | Some cached => mret cached
  | None =>
      path ← lift (snapshotPath collection);
      found ← on_disk (exists_ path);
      bytes ← (if found : bool then on_disk (readBytes path) else mret []);
      _ ← modify (set_metrics (count_snapshot (length bytes)));
      s1 ← get;
      let entry := (snapshotReads (accelerationMetrics s1), bytes) in
      _ ← modify (set_snapshot collection (Some entry));
      mret entry
  end.

Definition loadKeySet (collection : jstr) : M state (list jstr) :=
  _ ← on_disk (ensureCollection collection);
  bytes ← readSnapshotBytes collection;
  let keys := set_of (completeLines (decode (snd bytes))) in
  wal ← lift (walPath collection);
  text ← on_disk (readTextIfExists wal);
  mret (fold_left apply_mutation (completeLines text) keys).

Definition compact (collection : jstr) : M state () :=
  loaded ← loadKeySet collection;
  let keys := sort_strings loaded in
  snapshot ← lift (snapshotPath collection);
  _ ← on_disk (writeText snapshot (serializeSnapshot keys));
  wal ← lift (walPath collection);
  _ ← on_disk (writeText wal []);
  modify (fun s => set_overlay collection (Some (mkOverlay [] []))
                     (set_scanners (scanners s) (delete collection (scannerSnapshots s))
                        (set_snapshot collection None s))).

Definition compactIfNeeded (collection : jstr) : M state () :=
  path ← lift (walPath collection);
  found ← on_disk (exists_ path);
  if negb found then mret ()
  else
    wal ← on_disk (readText path);
    if (N.of_nat (length (encode wal)) <? LOCAL_FS_WAL_COMPACT_BYTES)%N then mret ()
    else compact collection.

Definition appendMutations (collection : jstr) (mutations : list mutation) : M state () :=
  match mutations with
  | [] => mret ()
  | _ =>
      _ ← on_disk (ensureCollection collection);
      path ← lift (walPath collection);
      _ ← on_disk (appendText path (serializeWal mutations));
      _ ← modify (fun s =>
            match walOverlayCache s !! collection with
            | Some o => set_overlay collection (Some (fold_left overlay_step mutations o)) s
            | None => s
            end);
      compactIfNeeded collection
  end.

Definition putDocument (collection docId : jstr) (doc : object) : M state () :=
  keys ← lift (entriesForDocument sha256Hex docId doc);
  appendMutations collection (map Put keys).

Definition removeDocument (collection docId : jstr) (doc : object) : M state () :=
  keys ← lift (entriesForDocument sha256Hex docId doc);
  appendMutations collection (map Del keys).

Definition last_segment (key : jstr) : option jstr :=
  let segments := split_on PathUtil.c_slash key in
  if length segments <? 2 then None else last segments.

Definition countDocuments (collection : jstr) : M state nat :=
  keys ← loadKeySet collection;
  mret (length (set_of (omap (fun key => last_segment key) keys))).

Definition loadWalOverlay (collection : jstr) : M state overlay :=
  s ← get;
  match walOverlayCache s !! collection with
  | Some cached => mret cached
  | None =>
      path ← lift (walPath collection);
      wal ← on_disk (readTextIfExists path);
      _ ← modify (set_metrics (count_wal (length (encode wal))));
      let o := overlay_of (completeLines wal) in
      _ ← modify (set_overlay collection (Some o));
      mret o
  end.

(** ** Queries *)

(** The body of the [try]: the snapshot is loaded into the scanner if it is not the one
    it holds, then asked; identifiers are decoded and checked. *)
Definition scan_with_scanner (factory : scanner_factory) (collection : jstr) (snapshot : nat * list N)
    (fullPrefix : jstr) (range : option (range_op * jstr)) : M state (list jstr) :=
  s ← get;
  _ ← when (negb (bool_decide (scannerSnapshots s !! collection = Some (fst snapshot))))
        (_ ← lift (load_snapshot factory (snd snapshot));
         _ ← modify (set_metrics count_load);
         modify (fun s => set_scanners (scanners s) (<[collection := fst snapshot]> (scannerSnapshots s)) s));
  encoded ← lift (scan_queries factory (snd snapshot) fullPrefix range);
  next ← lift (fold_outcome (fun next encodedDocId =>
                 docId ← decodeSegment encodedDocId;
                 if TTID.is_ttid docId then Ok (set_add docId next) else Throw (invalid_id docId)) [] encoded);
  _ ← modify (set_metrics count_scan);
  mret next.

(** The identifiers one planned prefix gives. *)
Definition prefix_candidates (collection fieldPath : jstr) (o : overlay) (snapshot : nat * list N)
    (entry : query_prefix) : M state (list jstr) :=
  rootPrefix ← lift (prefix fieldPath (kind entry) []);
  fullPrefix ← lift (prefix fieldPath (kind entry) (valuePrefix entry));
  scanner ← scannerFor collection;
  next ← (match scanner with
          | Some factory =>
              try_catch (scan_with_scanner factory collection snapshot fullPrefix (range entry))
                (fun error =>
                   _ ← disableAcceleration error (js "EWASM_QUERY");
                   lift (scanSnapshotWithJavaScript (snd snapshot) fullPrefix rootPrefix (range entry) []))
          | None =>
              lift (scanSnapshotWithJavaScript (snd snapshot) fullPrefix rootPrefix (range entry) [])
          end);
  kept ← lift (overlay_pass set_delete fullPrefix rootPrefix (range entry) (removed o) next);
  lift (overlay_pass set_add fullPrefix rootPrefix (range entry) (added o) kept).

Definition candidateDocIds (collection fieldPath : jstr) (operand : value) : M state (option (list jstr)) :=
  planned ← lift (queryPrefixes sha256Hex operand);
  match planned with
  | None => mret None
  | Some prefixes =>
      _ ← on_disk (ensureCollection collection);
      o ← loadWalOverlay collection;
      snapshot ← readSnapshotBytes collection;
      fold_m (fun candidates entry =>
        next ← prefix_candidates collection fieldPath o snapshot entry;
        mret (Some (intersect candidates next))) prefixes None
  end.

End Index.

(** A new index over a disk. *)
Definition new_index {D} (d : D) : index_state D :=
  mkIndex d ∅ ∅ ∅ ∅ Loading None (mkMetrics 0 0 0 0 0 0).

End PrefixIndex.
