(* ===== verification/IndexSearch.v ===== *)
(** The prefix index's files as text, and the binary search in the snapshot: what is
    serialised is read back, a torn log line is ignored, and the search finds the first
    key at or after a prefix. *)

From S2P Require Import Prelude PathUtil JsNum JsValue Utf8 Codec PrefixIndex.

Module Search.
Import Utf8 Codec PrefixIndex.

(** A key of the index: visible ASCII, so one line of the files. *)
Definition key_char (c : N) : bool := in_range 33 126 c.
Definition index_key (k : jstr) : bool := negb (jeqb k []) && forallb key_char k.

Lemma index_key_facts k : index_key k = true ->
  k <> [] /\ newline ∉ k /\ ascii k = true /\ ends_with [13%N] k = false.
Proof.
  unfold index_key. rewrite andb_true_iff, negb_true_iff, forallb_forall. intros [Hne Hk].
  assert (forall c, c ∈ k -> (33 <= c <= 126)%N) as Hc.
  { intros c Hc%list_elem_of_In. apply Hk in Hc. unfold key_char, in_range in Hc. lia. }
  split_and!.
  - intros ->. done.
  - intros Hn%Hc. unfold newline in Hn. lia.
  - unfold ascii. rewrite forallb_forall. intros c Hin%list_elem_of_In. apply Hc in Hin. lia.
  - apply not_true_iff_false. intros [r ->]%ends_with_spec.
    assert (13 ∈ r ++ [13])%N as H by set_solver. apply Hc in H. lia.
Qed.

(** ** Lines *)

Definition lines_text (lines : list jstr) : jstr := concat (map (fun l => l ++ [newline]) lines).

Lemma lines_text_app a b : lines_text (a ++ b) = lines_text a ++ lines_text b.
Proof. unfold lines_text. by rewrite map_app, concat_app. Qed.

Lemma lines_text_one l : lines_text [l] = l ++ [newline].
Proof. unfold lines_text. cbn [map concat]. apply app_nil_r. Qed.

Lemma lines_text_split lines tail :
  Forall (fun l => newline ∉ l) lines ->
  split_on newline (lines_text lines ++ tail) = lines ++ split_on newline tail.
Proof.
  induction 1 as [|l lines Hl _ IH]; [done|]. unfold lines_text in *. cbn [map concat].
  rewrite <- !app_assoc. change ([newline] ++ ?x) with (newline :: x).
  rewrite split_on_app by done. by rewrite IH.
Qed.

Lemma serializeSnapshot_lines keys : serializeSnapshot keys = lines_text keys.
Proof.
  unfold serializeSnapshot. destruct keys as [|k keys]; [done|].
  revert k. induction keys as [|k' keys IH]; intros k; [by cbn; rewrite app_nil_r|].
  rewrite join_with_cons by done. rewrite <- !app_assoc, IH.
  change (lines_text (k :: k' :: keys)) with ((k ++ [newline]) ++ lines_text (k' :: keys)).
  by rewrite <- app_assoc.
Qed.

Definition line_of (m : mutation) : jstr := removelast (mutation_line m).

Lemma mutation_line_eq m : mutation_line m = line_of m ++ [newline].
Proof.
  unfold line_of. destruct m as [k|k]; cbn [mutation_line].
  all: rewrite app_assoc, removelast_last; done.
Qed.

Lemma serializeWal_lines ms : serializeWal ms = lines_text (map line_of ms).
Proof.
  unfold serializeWal, lines_text. f_equal. rewrite map_map. apply map_ext, mutation_line_eq.
Qed.

Lemma line_of_eq m :
  line_of m = [match m with Put _ => 43%N | Del _ => 45%N end; tab] ++ mutation_key m.
Proof. destruct m as [k|k]; unfold line_of; cbn [mutation_line mutation_key]; by rewrite app_assoc, removelast_last. Qed.

Lemma parse_line_of m : index_key (mutation_key m) = true -> parseWalMutation (line_of m) = Some m.
Proof. intros (Hne & _)%index_key_facts. rewrite line_of_eq. by destruct m as [[|]|[|]]. Qed.

Lemma ends_with_app_ne l k : k <> [] -> ends_with [13%N] (l ++ k) = ends_with [13%N] k.
Proof.
  intros Hk. unfold ends_with. rewrite rev_app_distr.
  destruct (rev k) as [|c r] eqn:E; [|done]. apply (f_equal (@rev N)) in E. by rewrite rev_involutive in E.
Qed.

Lemma line_of_facts m : index_key (mutation_key m) = true ->
  newline ∉ line_of m /\ line_of m <> [] /\ ends_with [13%N] (line_of m) = false.
Proof.
  intros (Hne & Hn & _ & Hcr)%index_key_facts. rewrite line_of_eq. split_and!.
  - rewrite elem_of_app. intros [H|H]; [|done]. unfold newline, tab in *.
    destruct m; set_solver.
  - done.
  - by rewrite ends_with_app_ne.
Qed.

(** Complete lines are read back; a last line without its newline is not there. *)
Lemma completeLines_lines lines tail :
  Forall (fun l => newline ∉ l /\ l <> [] /\ ends_with [13%N] l = false) lines -> newline ∉ tail ->
  completeLines (lines_text lines ++ tail) = lines.
Proof.
  intros Hl Ht. assert (Forall (fun l => newline ∉ l) lines) as Hn by (eapply Forall_impl; [exact Hl|by intros ? (? & _)]).
  assert (filter (fun l : jstr => l <> []) (map stripTrailingCarriageReturn (lines ++ [[]])) = lines) as Hfilter.
  { rewrite map_app, filter_app. cbn [map]. unfold stripTrailingCarriageReturn at 2. cbn [ends_with].
    rewrite app_nil_r. clear Hn. induction Hl as [|l lines (_ & Hne & Hcr) _ IH]; [done|]. cbn [map].
    unfold stripTrailingCarriageReturn at 1. rewrite Hcr. by rewrite filter_cons_True, IH. }
  assert (completeLines (lines_text lines ++ tail) =
          filter (fun l => l <> []) (map stripTrailingCarriageReturn (split_on newline (lines_text lines)))) as ->.
  { unfold completeLines. destruct (lines_text lines ++ tail) as [|c r] eqn:E.
    - apply app_eq_nil in E as [-> _]. done.
    - rewrite <- E. clear c r E. do 2 f_equal. destruct tail as [|c tail].
      + rewrite app_nil_r. destruct lines as [|l lines _] using rev_ind; [done|].
        assert (ends_with [newline] (lines_text (lines ++ [l])) = true) as ->; [|done].
        rewrite lines_text_app, lines_text_one, app_assoc. apply ends_with_app.
      + assert (ends_with [newline] (lines_text lines ++ c :: tail) = false) as ->.
        { apply not_true_iff_false. intros [r Hr]%ends_with_spec. apply Ht.
          destruct (exists_last (l := c :: tail)) as (t & d & E); [done|]. rewrite E in Hr |- *.
          rewrite app_assoc in Hr. apply app_inj_tail in Hr as [_ ->]. set_solver. }
        f_equal. destruct lines as [|l lines _] using rev_ind.
        { cbn [lines_text map concat app]. by rewrite (proj2 (last_index_of_none _ _) Ht). }
        rewrite lines_text_app, lines_text_one, app_assoc, <- app_assoc. cbn [app].
        rewrite last_index_of_app by done.
        change (newline :: c :: tail) with ([newline] ++ c :: tail).
        rewrite (app_assoc (lines_text lines ++ l)). apply take_app_length'. rewrite !length_app. cbn [length]. lia. }
  rewrite <- (app_nil_r (lines_text lines)), lines_text_split by done. exact Hfilter.
Qed.

Lemma completeLines_wal ms : Forall (fun m => index_key (mutation_key m) = true) ms ->
  completeLines (serializeWal ms) = map line_of ms.
Proof.
  intros H. rewrite serializeWal_lines, <- (app_nil_r (lines_text _)).
  apply completeLines_lines; [|apply not_elem_of_nil]. apply Forall_map. eapply Forall_impl; [exact H|].
  intros m. apply line_of_facts.
Qed.

Lemma completeLines_snapshot keys : Forall (fun k => index_key k = true) keys ->
  completeLines (serializeSnapshot keys) = keys.
Proof.
  intros H. rewrite serializeSnapshot_lines, <- (app_nil_r (lines_text _)).
  apply completeLines_lines; [|apply not_elem_of_nil]. eapply Forall_impl; [exact H|].
  intros k (Hne & Hn & _ & Hcr)%index_key_facts. done.
Qed.

(** The log reads back what was appended to it, in order, and a torn last line, any
    proper beginning of one that a crash left, is ignored. *)
Theorem wal_roundtrip ms m torn rest :
  Forall (fun m => index_key (mutation_key m) = true) ms ->
  mutation_line m = torn ++ rest -> rest <> [] -> newline ∉ mutation_key m ->
  omap (fun line => parseWalMutation line) (completeLines (serializeWal ms ++ torn)) = ms.
Proof.
  intros Hms Hm Hrest Hk. assert (newline ∉ torn) as Ht.
  { rewrite mutation_line_eq in Hm. destruct rest as [|x rest _] using rev_ind; [done|].
    rewrite app_assoc in Hm. apply app_inj_tail in Hm as [Hm _].
    intros Hin. assert (newline ∈ line_of m) as Hl by (rewrite Hm; set_solver).
    rewrite line_of_eq, elem_of_app in Hl. destruct Hl as [Hl|Hl]; [|done].
    unfold newline, tab in *. destruct m; set_solver. }
  rewrite serializeWal_lines, completeLines_lines; [|apply Forall_map; eapply Forall_impl; [exact Hms|]; intros ?; apply line_of_facts|done].
  clear -Hms. induction Hms as [|m ms Hm _ IH]; [done|]. cbn [map omap list_omap].
  rewrite parse_line_of by done. by f_equal.
Qed.

Lemma wal_roundtrip_witness :
  let ms := [Put (js "role/eq/admin/4VLN5QUCDP0"); Del (js "role/f/admin/4VLN5QUCDP0")] in
  omap (fun line => parseWalMutation line)
    (completeLines (serializeWal ms ++ [43%N; tab] ++ js "age/n/80")) = ms.
Proof.
  apply (wal_roundtrip _ (Put (js "age/n/8000/4VLN5QUCDP0")) ([43%N; tab] ++ js "age/n/80")
           (js "00/4VLN5QUCDP0" ++ [newline])).
  - repeat constructor.
  - reflexivity.
  - discriminate.
  - apply (bool_decide_unpack _). vm_compute. reflexivity.
Defined.

(** ** The binary search *)

Definition offset (keys : list jstr) (i : nat) : nat := length (lines_text (take i keys)).

Lemma offset_S keys i k : keys !! i = Some k -> offset keys (S i) = offset keys i + length k + 1.
Proof.
  intros Hi. unfold offset. erewrite take_S_r by exact Hi. rewrite lines_text_app, length_app.
  rewrite lines_text_one, length_app. cbn [length]. lia.
Qed.

Lemma lines_decompose keys i k : keys !! i = Some k ->
  lines_text keys = lines_text (take i keys) ++ k ++ newline :: lines_text (drop (S i) keys).
Proof.
  intros Hi. rewrite <- (take_drop_middle keys i k Hi) at 1. rewrite lines_text_app.
  change (k :: drop (S i) keys) with ([k] ++ drop (S i) keys). rewrite lines_text_app.
  by rewrite lines_text_one, <- !app_assoc.
Qed.

(** The line a position falls in. *)
Lemma position_line keys mid : mid < length (lines_text keys) ->
  exists i k, keys !! i = Some k /\ offset keys i <= mid <= offset keys i + length k.
Proof.
  revert mid. induction keys as [|k keys IH]; intros mid Hm; [cbn in Hm; lia|].
  change (lines_text (k :: keys)) with ((k ++ [newline]) ++ lines_text keys) in Hm.
  rewrite !length_app in Hm. cbn [length] in Hm.
  destruct (decide (mid <= length k)) as [Hle|Hgt]; [exists 0, k; cbn; split; [done|lia]|].
  destruct (IH (mid - length k - 1)) as (i & k' & Hi & Hb); [lia|]. exists (S i), k'. split; [done|].
  assert (offset (k :: keys) (S i) = length k + 1 + offset keys i) as ->.
  { unfold offset. cbn [take]. change (lines_text (k :: take i keys)) with ((k ++ [newline]) ++ lines_text (take i keys)).
    rewrite !length_app. cbn [length]. lia. }
  lia.
Qed.

Lemma line_start_spec A k rest j :
  (A = [] \/ exists A', A = A' ++ [newline]) -> newline ∉ k -> j <= length k ->
  line_start (A ++ k ++ rest) (length A + j) = length A.
Proof.
  intros HA Hk. induction j as [|j IH]; intros Hj.
  - rewrite Nat.add_0_r. destruct HA as [->|[A' ->]]; [done|]. rewrite length_app. cbn [length].
    rewrite Nat.add_1_r. cbn [line_start]. rewrite bool_decide_true; [done|].
    rewrite <- app_assoc, lookup_app_r, Nat.sub_diag by lia. done.
  - rewrite Nat.add_succ_r. cbn [line_start]. rewrite bool_decide_false; [apply IH; lia|].
    rewrite lookup_app_r, Nat.add_sub' by lia. rewrite lookup_app_l by lia.
    intros H. apply Hk. by eapply list_elem_of_lookup_2.
Qed.

Lemma line_end_spec A k rest j :
  newline ∉ k -> j <= length k -> line_end (A ++ k ++ newline :: rest) (length A + j) = length A + length k.
Proof.
  intros Hk Hj. unfold line_end.
  assert (drop (length A + j) (A ++ k ++ newline :: rest) = drop j k ++ newline :: rest) as ->.
  { rewrite <- drop_drop, drop_app_length, drop_app_le by done. done. }
  assert (forall l, newline ∉ l -> take_while (fun b => negb (b =? newline)%N) (l ++ newline :: rest) = l) as Htw.
  { induction l as [|c l IHl]; intros Hl; cbn [app take_while]; [by rewrite N.eqb_refl|].
    apply not_elem_of_cons in Hl as [Hc Hl]. rewrite (proj2 (N.eqb_neq _ _)) by congruence. cbn [negb].
    by rewrite IHl. }
  rewrite Htw, length_drop; [lia|]. intros H. apply Hk. by apply elem_of_drop_weaken in H || (rewrite <- (take_drop j k); set_solver).
Qed.

Lemma lines_start keys i : lines_text (take i keys) = [] \/ exists A, lines_text (take i keys) = A ++ [newline].
Proof.
  destruct (take i keys) as [|k l _] using rev_ind; [by left|right]. rewrite lines_text_app.
  rewrite lines_text_one. exists (lines_text l ++ k). by rewrite app_assoc.
Qed.

(** The key around a position, as the loop reads it. *)
Lemma read_line keys i k mid :
  keys !! i = Some k -> newline ∉ k -> offset keys i <= mid <= offset keys i + length k ->
  line_start (lines_text keys) mid = offset keys i /\
  line_end (lines_text keys) mid = offset keys i + length k /\
  subarray (lines_text keys) (offset keys i) (offset keys i + length k) = k.
Proof.
  intros Hi Hk Hm. rewrite (lines_decompose keys i k Hi). unfold offset in *.
  replace mid with (length (lines_text (take i keys)) + (mid - length (lines_text (take i keys)))) by lia.
  split_and!.
  - apply line_start_spec; [apply lines_start|done|lia].
  - apply line_end_spec; [done|lia].
  - unfold subarray. rewrite drop_app_length, Nat.add_sub'. apply take_app_length.
Qed.

Lemma offset_mono keys a b : a <= b -> offset keys a <= offset keys b.
Proof.
  intros H. unfold offset. replace b with (a + (b - a)) by lia.
  rewrite <- (take_drop a (take (a + (b - a)) keys)), take_take, lines_text_app, length_app.
  rewrite Nat.min_l by lia. lia.
Qed.

Lemma offset_lt keys a b : a < b -> a < length keys -> offset keys a < offset keys b.
Proof.
  intros Hab [k Hk]%lookup_lt_is_Some. pose proof (offset_S keys a k Hk).
  pose proof (offset_mono keys (S a) b ltac:(lia)). lia.
Qed.

Lemma offset_full keys : offset keys (length keys) = length (lines_text keys).
Proof. unfold offset. by rewrite take_ge by done. Qed.

(** Keys that the search compares as they are. *)
Definition plain_lines (keys : list jstr) : Prop := Forall (fun k => newline ∉ k /\ ascii k = true) keys.

Lemma search_spec fuel keys p a b :
  plain_lines keys -> StronglySorted jle keys -> a <= b <= length keys -> b - a <= fuel ->
  (forall i k, keys !! i = Some k -> i < a -> jltb k p = true) ->
  (forall i k, keys !! i = Some k -> b <= i -> jltb k p = false) ->
  exists c, search fuel (lines_text keys) p (offset keys a) (offset keys b) = offset keys c /\ c <= length keys /\
    (forall i k, keys !! i = Some k -> i < c -> jltb k p = true) /\
    (forall i k, keys !! i = Some k -> c <= i -> jltb k p = false).
Proof.
  intros Hp Hs. revert a b. induction fuel as [|fuel IH]; intros a b Hab Hf Hlo Hhi.
  { assert (b = a) as -> by lia. exists a. split_and!; [done|lia|done|done]. }
  cbn [search]. destruct (Nat.ltb_spec (offset keys a) (offset keys b)) as [Hlt|Hge].
  2: { assert (b = a) as ->.
       { destruct (decide (b = a)); [done|]. pose proof (offset_lt keys a b ltac:(lia) ltac:(lia)). lia. }
       exists a. split_and!; [done|lia|done|done]. }
  set (mid := Nat.div2 (offset keys a + offset keys b)).
  assert (offset keys a <= mid < offset keys b) as Hmid.
  { unfold mid. rewrite Nat.div2_div. split; [apply Nat.div_le_lower_bound; lia|].
    apply Nat.Div0.div_lt_upper_bound. lia. }
  destruct (position_line keys mid) as (i & k & Hi & Hb).
  { pose proof (offset_mono keys b (length keys) ltac:(lia)) as H. rewrite offset_full in H. lia. }
  pose proof (Forall_lookup_1 _ _ _ _ Hp Hi) as [Hnl Hasc].
  destruct (read_line keys i k mid Hi Hnl Hb) as (-> & -> & ->). rewrite decode_ascii by done.
  pose proof (lookup_lt_Some _ _ _ Hi) as Hil. pose proof (offset_S keys i k Hi) as HS.
  assert (a <= i) as Hai.
  { destruct (decide (a <= i)); [done|]. pose proof (offset_mono keys (S i) a ltac:(lia)). lia. }
  assert (i < b) as Hib.
  { destruct (decide (i < b)); [done|]. pose proof (offset_mono keys b i ltac:(lia)). lia. }
  assert (forall x y kx ky, keys !! x = Some kx -> keys !! y = Some ky -> x <= y -> jle kx ky) as Hmono.
  { intros x y kx ky Hx Hy Hxy. destruct (decide (x = y)) as [->|Hne].
    - rewrite Hx in Hy. injection Hy as ->. apply jleb_refl.
    - rewrite <- (take_drop y keys) in Hs. apply (StronglySorted_app_1_elem_of jle _ _ kx ky Hs).
      + apply list_elem_of_lookup. exists x. rewrite lookup_take_lt; [done|lia].
      + apply list_elem_of_lookup. exists 0. by rewrite lookup_drop, Nat.add_0_r. }
  destruct (jltb k p) eqn:Hkp.
  - replace (S (offset keys i + length k)) with (offset keys (S i)) by lia.
    apply IH; [lia|lia| |done]. intros j kj Hj Hji. eapply jleb_ltb_trans; [|exact Hkp].
    apply (Hmono j i); [done|done|lia].
  - apply IH; [lia|lia|done|]. intros j kj Hj Hij. apply not_true_iff_false. intros Hlt'.
    apply not_true_iff_false in Hkp. apply Hkp. eapply jleb_ltb_trans; [|exact Hlt'].
    apply (Hmono i j); [done|done|lia].
Qed.

Lemma stream_spec keys c : plain_lines keys -> Forall (fun k => k <> []) keys ->
  streamKeysFrom (lines_text keys) (offset keys c) = drop c keys.
Proof.
  intros Hp Hne. unfold streamKeysFrom, offset.
  rewrite <- (take_drop c keys) at 2. rewrite lines_text_app, drop_app_length.
  assert (plain_lines (drop c keys) /\ Forall (fun k => k <> []) (drop c keys)) as [Hp' Hne']
    by (split; by apply Forall_drop).
  rewrite <- (app_nil_r (lines_text _)), lines_text_split by (eapply Forall_impl; [exact Hp'|]; by intros ? [? _]).
  cbn [split_on]. rewrite map_app, filter_app. cbn [map].
  assert (filter (fun key : jstr => key <> []) [decode []] = []) as -> by done. rewrite app_nil_r.
  clear -Hp' Hne'. induction Hp' as [|k l [_ Ha] _ IH]; [done|]. inversion_clear Hne'. cbn [map].
  rewrite decode_ascii by done. rewrite filter_cons_True by done. f_equal. by apply IH.
Qed.

Lemma findFirst_spec keys p :
  Forall (fun k => index_key k = true) keys -> Sorted jle keys ->
  exists c, findFirstKeyAtOrAfter (lines_text keys) p = offset keys c /\
    (forall k, k ∈ take c keys -> jltb k p = true) /\ (forall k, k ∈ drop c keys -> jltb k p = false).
Proof.
  intros Hk Hs. assert (plain_lines keys) as Hp.
  { eapply Forall_impl; [exact Hk|]. intros k (_ & ? & ? & _)%index_key_facts. done. }
  apply Sorted_StronglySorted in Hs; [|exact jleb_trans].
  assert (length keys <= length (lines_text keys)) as Hlen.
  { clear. induction keys as [|k keys IH]; [done|].
    change (lines_text (k :: keys)) with ((k ++ [newline]) ++ lines_text keys). rewrite !length_app. cbn [length]. lia. }
  destruct (search_spec (length (lines_text keys)) keys p 0 (length keys) Hp Hs) as (c & Hc & Hcl & Hlo & Hhi).
  - lia.
  - lia.
  - intros i k _ H. lia.
  - intros i k H ?. apply lookup_lt_Some in H. lia.
  - exists c. split_and!.
    + unfold findFirstKeyAtOrAfter. rewrite offset_full in Hc. change (offset keys 0) with 0 in Hc. rewrite Hc.
      destruct (Nat.ltb_spec (offset keys c) (length (lines_text keys))) as [Hlt|]; [|done].
      rewrite <- offset_full in Hlt. destruct (decide (c < length keys)) as [Hcl'|].
      * apply lookup_lt_is_Some in Hcl' as [k Hi]. pose proof (Forall_lookup_1 _ _ _ _ Hp Hi) as [Hnl _].
        apply (read_line keys c k (offset keys c) Hi Hnl). lia.
      * assert (c = length keys) as -> by lia. lia.
    + intros k (i & Hi)%list_elem_of_lookup. apply lookup_take_Some in Hi as [Hi ?]. by eapply Hlo.
    + intros k (i & Hi)%list_elem_of_lookup. rewrite lookup_drop in Hi. eapply Hhi; [exact Hi|lia].
Qed.

(** C37: the binary search over the bytes of a snapshot ends at the first key that is not
    before the prefix, and the keys streamed from there are exactly the keys not before
    it, in order. *)
Theorem search_finds_first keys p :
  Forall (fun k => index_key k = true) keys -> Sorted jle keys ->
  streamKeysFrom (encode (serializeSnapshot keys))
    (findFirstKeyAtOrAfter (encode (serializeSnapshot keys)) p) =
  filter (fun k => jltb k p = false) keys.
Proof.
  intros Hk Hs. assert (plain_lines keys /\ Forall (fun k => k <> []) keys) as [Hp Hne].
  { split; (eapply Forall_impl; [exact Hk|]); intros k (? & ? & ? & _)%index_key_facts; done. }
  assert (encode (serializeSnapshot keys) = lines_text keys) as ->.
  { rewrite serializeSnapshot_lines. apply encode_ascii. clear -Hp. induction Hp as [|k keys [_ Ha] _ IH]; [done|].
    change (lines_text (k :: keys)) with ((k ++ [newline]) ++ lines_text keys). by rewrite !ascii_app, Ha, IH. }
  destruct (findFirst_spec keys p Hk Hs) as (c & -> & Hlo & Hhi). rewrite stream_spec by done.
  rewrite <- (take_drop c keys) at 2. rewrite filter_app, filter_drops, filter_keeps; [done| |]; apply Forall_forall.
  - exact Hhi.
  - intros k Hin. by rewrite (Hlo k Hin).
Qed.

Lemma search_finds_first_witness :
  let keys := [js "age/eq/30/4VLN5QUCDP0"; js "age/n/c03e/4VLN5QUCDP0"; js "role/eq/admin/4VLN5QUCDP0"] in
  streamKeysFrom (encode (serializeSnapshot keys))
    (findFirstKeyAtOrAfter (encode (serializeSnapshot keys)) (js "age/n/")) =
  filter (fun k => jltb k (js "age/n/") = false) keys.
Proof.
  apply (search_finds_first
           [js "age/eq/30/4VLN5QUCDP0"; js "age/n/c03e/4VLN5QUCDP0"; js "role/eq/admin/4VLN5QUCDP0"]).
  - repeat constructor.
  - repeat constructor.
Defined.

End Search.
