(* ===== verification/IndexComplete.v ===== *)
(** Completeness of the index codec: a document that satisfies a filter has, for every
    prefix the filter plans, a key under that prefix from which its identifier is read
    back.  The candidates an index gives are a superset of the answers. *)

From Stdlib Require Import SpecFloat.
From S2P Require Import Prelude JsNum JsValue Utf8 Shard Ttid Like Codec.

Module Complete.
Import Utf8 Codec.

(** ** Keys, taken apart *)

Lemma id_char_unreserved c : TTID.is_id_char c = true -> unreserved c = true.
Proof.
  unfold TTID.is_id_char, unreserved. rewrite !orb_true_iff. intros [H|H]; [by left|right].
  apply N.eqb_eq in H as ->. by vm_compute.
Qed.

Lemma ttid_chars id : TTID.is_ttid id = true -> forallb TTID.is_id_char id = true.
Proof. unfold TTID.is_ttid. intros [t H]%bool_decide_eq_true. by eapply TTID.isTTID_chars. Qed.

Lemma ttid_encode id : TTID.is_ttid id = true -> encodeSegment id = Ok id.
Proof.
  intros H%ttid_chars. apply unreserved_encode. rewrite forallb_forall in H |- *.
  intros c Hc. by apply id_char_unreserved, H.
Qed.

Lemma ttid_code_units id : TTID.is_ttid id = true -> code_units id = true.
Proof.
  intros H%ttid_chars. unfold code_units. rewrite forallb_forall in H |- *.
  intros c Hc. apply H, TTID.is_id_char_bounds in Hc. lia.
Qed.

Lemma ttid_decode id : TTID.is_ttid id = true -> decodeSegment id = Ok id.
Proof. intros H. apply decode_encode_uri; [by apply ttid_code_units|by apply ttid_encode]. Qed.

Lemma ttid_no_slash id : TTID.is_ttid id = true -> 47%N ∉ id.
Proof.
  intros H%ttid_chars Hin%list_elem_of_In. rewrite forallb_forall in H.
  apply H, TTID.is_id_char_bounds in Hin. lia.
Qed.

Lemma split_on_shape c s : exists l, split_on c s = l ++ [default [] (last (split_on c s))].
Proof.
  destruct (last (split_on c s)) as [x|] eqn:E.
  - apply last_Some in E as [l ->]. by exists l.
  - apply last_None in E. by destruct (split_on_nonempty c s).
Qed.

Lemma split_on_snoc c a b : c ∉ b -> split_on c (a ++ c :: b) = split_on c a ++ [b].
Proof.
  intros Hb. induction a as [|x a IH]; cbn [app split_on].
  - rewrite N.eqb_refl. by rewrite split_on_id.
  - destruct (x =? c)%N; [by rewrite IH|]. rewrite IH.
    destruct (split_on c a) eqn:E; [by apply split_on_nonempty in E|done].
Qed.

(** The key [path/kind/value/id] under its own prefixes. *)
Definition key_text (path kind v id : jstr) : jstr := path ++ js "/" ++ kind ++ js "/" ++ v ++ js "/" ++ id.

Lemma key_inv p kind v id k :
  key p kind v id = Ok k ->
  TTID.is_ttid id = true /\ exists path, encodeFieldPath p = Ok path /\ k = key_text path kind v id.
Proof.
  unfold key. destruct (TTID.is_ttid id) eqn:Hid; [|done]. rewrite ttid_encode by done.
  destruct (encodeFieldPath p) as [path|] eqn:Hp; [|done]. intros [= <-].
  split; [done|]. exists path. by split.
Qed.

Lemma prefix_text p kind v path :
  encodeFieldPath p = Ok path -> prefix p kind v = Ok (path ++ js "/" ++ kind ++ js "/" ++ v).
Proof. intros H. unfold prefix. by rewrite H. Qed.

Lemma docIdFromKey_text path kind v id :
  TTID.is_ttid id = true ->
  docIdFromKey (path ++ js "/" ++ kind ++ js "/" ++ []) (key_text path kind v id) = Ok id.
Proof.
  intros Hid. unfold docIdFromKey, key_text.
  replace (path ++ js "/" ++ kind ++ js "/" ++ v ++ js "/" ++ id) with
    ((path ++ js "/" ++ kind ++ js "/" ++ []) ++ v ++ js "/" ++ id)
    by (rewrite <- !app_assoc; reflexivity).
  rewrite drop_app_length. change (js "/" ++ id) with (47%N :: id).
  rewrite split_on_snoc by (by apply ttid_no_slash). rewrite last_snoc. cbn [default].
  rewrite ttid_decode by done. cbn. by rewrite Hid.
Qed.

Lemma rangeValue_text path kind v id :
  TTID.is_ttid id = true -> 47%N ∉ v -> rangeValueFromKey (key_text path kind v id) = v.
Proof.
  intros Hid Hv. unfold rangeValueFromKey, key_text.
  replace (path ++ js "/" ++ kind ++ js "/" ++ v ++ js "/" ++ id) with
    ((path ++ js "/" ++ kind ++ 47%N :: v) ++ 47%N :: id) by (rewrite <- !app_assoc; reflexivity).
  rewrite split_on_snoc by (by apply ttid_no_slash).
  replace (path ++ js "/" ++ kind ++ 47%N :: v) with ((path ++ js "/" ++ kind) ++ 47%N :: v)
    by (rewrite <- !app_assoc; reflexivity).
  rewrite split_on_snoc by done. rewrite !length_app. cbn [length].
  pose proof (split_on_nonempty 47 (path ++ js "/" ++ kind)) as Hne.
  destruct (split_on 47 (path ++ js "/" ++ kind)) as [|a l]; [done|]. cbn [length].
  destruct (Nat.ltb_spec (S (length l) + 1 + 1) 2); [lia|].
  replace (S (length l) + 1 + 1 - 2) with (length (a :: l)) by (cbn [length]; lia).
  rewrite <- app_assoc. cbn [app]. rewrite app_comm_cons.
  by rewrite (list_lookup_middle (a :: l) [id] v).
Qed.

(** ** What a document's walk leaves in the index *)

(** The values [addValue] is called with, each under its field path. *)
Fixpoint leaves (path : jstr) (v : value) : list (jstr * value) :=
  match v with
  | VObj o =>
      (fix go (o : object) :=
         match o with
         | [] => []
         | (field, v') :: r => leaves (child_path path field) v' ++ go r
         end) o
  | VArr items => map (fun item => (path, item)) items
  | _ => [(path, v)]
  end.

(** ** Sortable forms, both ways round *)

Lemma hex16_le a b :
  (0 <= a < 2 ^ 64)%Z -> (0 <= b < 2 ^ 64)%Z -> jleb (hex16 a) (hex16 b) = true <-> (a <= b)%Z.
Proof.
  intros Ha Hb. pose proof (hex16_lt b a Hb Ha) as H. unfold jltb in H.
  destruct (jleb (hex16 a) (hex16 b)); cbn in H; split; intros Hab; try done.
  - destruct (Z.le_gt_cases a b) as [|Hlt]; [done|]. by apply H in Hlt.
  - assert (b < a)%Z by (by apply H). lia.
Qed.

(** A finite binary64 number other than minus zero. *)
Definition ordinary (x : Num.num) : Prop :=
  Num.valid x /\ Num.is_finite x = true /\ x <> S754_zero true.

Lemma ordinary_negative x : ordinary x -> if negative x then (rank x < 0)%Z else (0 <= rank x)%Z.
Proof.
  intros (Hv & Hf & Hne). pose proof (rank_negative x Hv Hf) as H.
  destruct x as [[]|s| |[] m e]; try done. unfold rank. cbn [negative magnitude].
  pose proof (valid_finite _ _ _ Hv). lia.
Qed.

Lemma sortable_bits_compare x y :
  ordinary x -> ordinary y -> (sortable_bits x ?= sortable_bits y)%Z = (rank x ?= rank y)%Z.
Proof.
  intros Hx Hy. pose proof (ordinary_negative x Hx). pose proof (ordinary_negative y Hy).
  destruct Hx as (Hvx & Hfx & _), Hy as (Hvy & Hfy & _).
  rewrite !sortable_bits_rank by done.
  destruct (negative x), (negative y); destruct (Z.compare_spec (rank x) (rank y));
    first [apply Z.compare_eq_iff|apply Z.compare_lt_iff|apply Z.compare_gt_iff]; lia.
Qed.

(** The comparison [Number(value) op bound] of the matcher. *)
Definition compares (op : range_op) (x bound : Num.num) : bool :=
  match op with
  | Gt => Num.gt x bound
  | Gte => Num.ge x bound
  | Lt => Num.lt x bound
  | Lte => Num.le x bound
  end.

(** What the index compares: the sortable form or its reverse. *)
Definition sort_form (op : range_op) (x : Num.num) : jstr :=
  match op with
  | Gt | Gte => sortableFloat64 x
  | Lt | Lte => reverseSortable (sortableFloat64 x)
  end.

Lemma sortable_hex x : ordinary x -> sortableFloat64 x = hex16 (sortable_bits x) /\ (0 <= sortable_bits x < 2 ^ 64)%Z.
Proof.
  intros (Hv & Hf & _). unfold sortableFloat64. rewrite Hf. split; [done|]. by apply sortable_bits_spec.
Qed.

Lemma compares_sort_form op x bound :
  ordinary x -> ordinary bound ->
  compares op x bound =
    match op with
    | Gt | Lt => jltb (sort_form op bound) (sort_form op x)
    | Gte | Lte => jleb (sort_form op bound) (sort_form op x)
    end.
Proof.
  intros Hx Hy. pose proof (sortable_bits_compare x bound Hx Hy) as Hc.
  pose proof (sortable_hex x Hx) as [Hhx Hbx]. pose proof (sortable_hex bound Hy) as [Hhy Hby].
  destruct Hx as (Hvx & Hfx & _), Hy as (Hvy & Hfy & _).
  apply eq_true_iff_eq.
  destruct op; cbn [compares sort_form]; unfold Num.gt, Num.ge, Num.lt, Num.le, SFltb, SFleb;
    rewrite compare_rank by done; rewrite Hhx, Hhy, ?reverseSortable_hex by done;
    rewrite ?hex16_lt, ?hex16_le by (unfold UINT64_MAX in *; lia); unfold UINT64_MAX;
    destruct (Z.compare_spec (sortable_bits x) (sortable_bits bound));
    destruct (Z.compare_spec (rank x) (rank bound)); try discriminate;
    destruct (Z.compare_spec (rank bound) (rank x)); split; intros; (done || lia).
Qed.

(** ** Encoding a text piece by piece *)

Ltac Zify.zify_post_hook ::= Z.to_euclidean_division_equations.

Lemma encode_inv s t :
  encodeSegment s = Ok t -> well_formed s = true /\ t = flat_map encode_char (code_points s).
Proof. unfold encodeSegment, encodeURIComponent. destruct (well_formed s); [by intros [= <-]|done]. Qed.

(** A code point's code units read back as that code point. *)
Lemma code_points_of_scalar cp r :
  scalar_value cp -> code_points (of_code_point cp ++ r) = cp :: code_points r.
Proof.
  intros [Hmax Hs]. unfold of_code_point, is_surrogate, in_range in *.
  destruct (N.ltb_spec cp 65536); cbn [app].
  - assert (is_high cp = false) by (unfold is_high, in_range; lia).
    destruct r as [|d r]; [done|]. rewrite code_points_cons2. by rewrite H0.
  - rewrite code_points_cons2.
    replace (is_high (55296 + (cp - 65536) / 1024)) with true by (unfold is_high, in_range; lia).
    replace (is_low (56320 + (cp - 65536) mod 1024)) with true by (unfold is_low, in_range; lia).
    cbn [andb]. f_equal. unfold combine. lia.
Qed.

Lemma code_points_concat l :
  Forall scalar_value l -> code_points (concat (map of_code_point l)) = l.
Proof.
  induction 1 as [|cp l Hcp _ IH]; [done|]. cbn [map concat].
  rewrite code_points_of_scalar by done. by rewrite IH.
Qed.

Lemma reverse_code_points s :
  code_units s = true -> well_formed s = true -> code_points (reverseString s) = rev (code_points s).
Proof.
  intros Hu Hw. unfold reverseString, chars. rewrite <- map_rev.
  apply code_points_concat. apply Forall_rev. by apply code_points_scalar.
Qed.

Lemma encode_char_length cp : 1 <= length (encode_char cp).
Proof. pose proof (encode_char_nonempty cp). destruct (encode_char cp); simpl; [done|lia]. Qed.

Lemma encode_pair_length h l : is_high h = true -> is_low l = true -> 2 <= length (encode_char (combine h l)).
Proof.
  intros Hh Hl. unfold encode_char.
  assert (65536 <= combine h l)%N by (unfold combine; lia).
  destruct (unreserved (combine h l)) eqn:E; [apply unreserved_bounds in E; lia|].
  unfold utf8_bytes.
  repeat match goal with |- context [if ?b then _ else _] => destruct b eqn:?; [lia|] end.
  cbn. lia.
Qed.

Lemma encoded_length s : length s <= length (flat_map encode_char (code_points s)).
Proof.
  induction s as [|c|a b r IH1 IH2] using jstr_ind2; [done| |].
  - cbn [code_points flat_map]. rewrite app_nil_r. apply encode_char_length.
  - rewrite code_points_cons2. destruct (is_high a && is_low b) eqn:E.
    + apply andb_true_iff in E as [Eh El]. cbn [flat_map length]. rewrite length_app.
      pose proof (encode_pair_length a b Eh El). lia.
    + cbn [flat_map]. rewrite length_app. pose proof (encode_char_length a). cbn [length] in *. lia.
Qed.

Lemma code_units_app a b : code_units (a ++ b) = code_units a && code_units b.
Proof. apply forallb_app. Qed.

Lemma replace_slash_app a b :
  replace_char 47 (js "%2F") (a ++ b) = replace_char 47 (js "%2F") a ++ replace_char 47 (js "%2F") b.
Proof. apply flat_map_app. Qed.

Lemma replace_slash_id a : 47%N ∉ a -> replace_char 47 (js "%2F") a = a.
Proof.
  intros H. induction a as [|x a IH]; [done|]. apply not_elem_of_cons in H as [Hne H].
  cbn. rewrite (proj2 (N.eqb_neq x 47)) by congruence. cbn. f_equal. by apply IH.
Qed.

Lemma replace_slash_units a : code_units a = true -> code_units (replace_char 47 (js "%2F") a) = true.
Proof.
  unfold code_units. induction a as [|x a IH]; [done|]. cbn [forallb replace_char flat_map].
  intros [Hx Ha]%andb_true_iff. rewrite forallb_app. fold (replace_char 47 (js "%2F") a).
  rewrite IH by done. destruct (x =? 47)%N; [done|]. cbn. by rewrite Hx.
Qed.

Lemma starts_with_encoded a b :
  well_formed a = true ->
  starts_with (flat_map encode_char (code_points a)) (flat_map encode_char (code_points (a ++ b))) = true.
Proof. intros Hw. rewrite code_points_app, flat_map_app by done. apply starts_with_app. Qed.

(** ** What the indexable patterns mean *)

(** No wildcard inside. *)
Definition literal (q : jstr) : Prop := 37%N ∉ q /\ 95%N ∉ q.

Lemma like_literal q v p :
  literal q -> Like.like true v (q ++ p) -> exists w, v = q ++ w /\ Like.like true w p.
Proof.
  intros [Hp Hu]. revert v. induction q as [|t q IH]; intros v H; [by exists v|].
  apply not_elem_of_cons in Hp as [Hpt Hp]. apply not_elem_of_cons in Hu as [Hut Hu]. cbn [app] in H.
  inversion H as [|c t' v' p' Hne Hm Hv| |]; subst; [|done|done].
  destruct (IH Hp Hu v' Hv) as (w & -> & Hw). exists w. split; [|done]. cbn [app]. f_equal.
  unfold Like.token_matches in Hm. apply orb_true_iff in Hm as [Hm|Hm].
  - by apply N.eqb_eq in Hm.
  - cbn in Hm. by apply N.eqb_eq in Hm.
Qed.

Lemma elem_of_dedupe x seen l : x ∈ dedupe seen l <-> x ∈ l /\ x ∉ seen.
Proof.
  revert seen. induction l as [|y l IH]; intros seen; cbn [dedupe].
  - rewrite elem_of_nil. tauto.
  - case_bool_decide as Hy.
    + rewrite IH, elem_of_cons. split; [tauto|]. intros [[->|?] ?]; [done|tauto].
    + rewrite !elem_of_cons, IH, not_elem_of_cons. split.
      * intros [->|[? [? ?]]]; tauto.
      * intros [[->|?] ?]; [by left|]. destruct (decide (x = y)); tauto.
Qed.

Section Keys.
  Context (sha256Hex : jstr -> jstr).

(** The keys one value brings. *)
Definition leaf_keys (id : jstr) (leaf : jstr * value) (keys : list jstr) : Prop :=
  exists token exact numbers strings,
    lookupToken sha256Hex (stringifyStoredValue (snd leaf)) = Ok token /\
    key (fst leaf) (js "eq") token id = Ok exact /\
    number_keys (fst leaf) id (snd leaf) = Ok numbers /\
    string_keys (fst leaf) id (snd leaf) = Ok strings /\
    (forall k, k = exact \/ k ∈ numbers \/ k ∈ strings -> k ∈ keys).

Lemma leaf_keys_mono id leaf keys keys' :
  leaf_keys id leaf keys -> (forall k, k ∈ keys -> k ∈ keys') -> leaf_keys id leaf keys'.
Proof. intros (t & e & n & s & H1 & H2 & H3 & H4 & H5) Hsub. exists t, e, n, s. split_and!; auto. Qed.

(** The accumulated keys, in any order. *)
Definition acc_keys (acc : list jstr * list jstr) : list jstr := fst acc ++ snd acc.

Definition grows (acc acc' : list jstr * list jstr) : Prop :=
  forall k, k ∈ acc_keys acc -> k ∈ acc_keys acc'.

Lemma addValue_keys id path raw acc acc' :
  addValue sha256Hex id path raw acc = Ok acc' ->
  grows acc acc' /\ leaf_keys id (path, raw) (acc_keys acc').
Proof.
  unfold addValue. destruct (lookupToken _ _) as [token|] eqn:Ht; [|done]. cbn [mbind outcome_bind].
  destruct (key _ _ _ _) as [exact|] eqn:He; [|done]. cbn [mbind outcome_bind].
  destruct (number_keys _ _ _) as [numbers|] eqn:Hn; [|done]. cbn [mbind outcome_bind].
  destruct (string_keys _ _ _) as [strings|] eqn:Hs; [|done]. cbn [mbind outcome_bind].
  intros [= <-]. unfold grows, acc_keys. cbn [fst snd]. split.
  - intros k. rewrite !elem_of_app. tauto.
  - exists token, exact, numbers, strings. cbn [fst snd]. split_and!; try done.
    intros k [->|[H|H]]; rewrite !elem_of_app, list_elem_of_singleton; tauto.
Qed.

Lemma grows_trans a b c : grows a b -> grows b c -> grows a c.
Proof. unfold grows. auto. Qed.

Lemma fold_items_keys id path items acc acc' :
  fold_outcome (add_item sha256Hex id path) acc items = Ok acc' ->
  grows acc acc' /\ Forall (fun leaf => leaf_keys id leaf (acc_keys acc'))
    (map (fun item => (path, item)) items).
Proof.
  revert acc. induction items as [|x items IH]; intros acc H; cbn in H.
  - injection H as <-. split; [by intros k|constructor].
  - destruct (add_item sha256Hex id path acc x) as [acc1|] eqn:E; [|done].
    unfold add_item in E. destruct (is_objectlike x); [done|].
    apply addValue_keys in E as [Hg Hl]. apply IH in H as [Hg' Hl'].
    split; [by eapply grows_trans|]. cbn [map]. constructor; [|done].
    by eapply leaf_keys_mono.
Qed.

Lemma walk_value_keys id v path acc acc' :
  walk_value sha256Hex id path v acc = Ok acc' ->
  grows acc acc' /\ Forall (fun leaf => leaf_keys id leaf (acc_keys acc')) (leaves path v).
Proof.
  revert path acc acc'. induction v as [| |b|n|s|l IH|o IH] using value_rect';
    intros path acc acc' H; cbn [walk_value leaves] in *;
    try (apply addValue_keys in H as [Hg Hl]; split; [done|by apply Forall_singleton]).
  - by apply fold_items_keys.
  - revert acc H. induction IH as [|[field v'] o Hv _ IHo]; intros acc H.
    + injection H as <-. split; [by intros k|constructor].
    + destruct (walk_value sha256Hex id (child_path path field) v' acc) as [acc1|] eqn:E; [|done].
      cbn in H. apply Hv in E as [Hg Hl]. apply IHo in H as [Hg' Hl'].
      split; [by eapply grows_trans|]. apply Forall_app. split; [|done].
      eapply Forall_impl; [exact Hl|]. intros leaf Hleaf.
      by apply (leaf_keys_mono _ _ _ _ Hleaf).
Qed.

Lemma entries_keys id data keys leaf :
  entriesForDocument sha256Hex id data = Ok keys -> leaf ∈ leaves [] (VObj data) ->
  leaf_keys id leaf keys.
Proof.
  unfold entriesForDocument. destruct (walk_value _ _ _ _ _) as [acc|] eqn:E; [|done].
  intros [= <-] Hl. apply walk_value_keys in E as [_ Hall].
  rewrite Forall_forall in Hall. eapply leaf_keys_mono; [by apply Hall|].
  intros k Hk. apply elem_of_dedupe. split; [done|apply not_elem_of_nil].
Qed.

(** ** Every planned prefix has a key *)

(** Under this prefix and range there is a key of the document. *)
Definition hit (keys : list jstr) (p id : jstr) (e : query_prefix) : Prop :=
  exists k pre root, k ∈ keys /\ prefix p (kind e) (valuePrefix e) = Ok pre /\
    starts_with pre k = true /\ includeKeyInRange k (range e) = true /\
    prefix p (kind e) [] = Ok root /\ docIdFromKey root k = Ok id.

Lemma hit_text keys p id kind_ vp range_ v k :
  key p kind_ v id = Ok k -> k ∈ keys -> starts_with vp (v ++ js "/" ++ id) = true ->
  (range_ = None \/ (47%N ∉ v /\ forall op bound, range_ = Some (op, bound) ->
     match op with Gt | Lt => jltb bound v | Gte | Lte => jleb bound v end = true)) ->
  hit keys p id (QueryPrefix kind_ vp range_).
Proof.
  intros Hk Hin Hvp Hr. destruct (key_inv _ _ _ _ _ Hk) as (Hid & path & Hp & ->).
  exists (key_text path kind_ v id). eexists. eexists. cbn [kind valuePrefix range].
  split_and!; [done|by apply prefix_text| | |by apply prefix_text|by apply docIdFromKey_text].
  - unfold key_text.
    replace (path ++ js "/" ++ kind_ ++ js "/" ++ v ++ js "/" ++ id) with
      ((path ++ js "/" ++ kind_ ++ js "/") ++ v ++ js "/" ++ id) by (rewrite <- !app_assoc; reflexivity).
    replace (path ++ js "/" ++ kind_ ++ js "/" ++ vp) with
      ((path ++ js "/" ++ kind_ ++ js "/") ++ vp) by (rewrite <- !app_assoc; reflexivity).
    by rewrite starts_with_shared.
  - unfold includeKeyInRange. destruct range_ as [[op bound]|]; [|done].
    destruct Hr as [Hr|[Hv Hr]]; [done|]. rewrite rangeValue_text by done. by apply Hr.
Qed.

(** Equality and containment: the operand and the value have the same text. *)
Lemma eq_hit keys p id raw v es :
  leaf_keys id (p, raw) keys -> to_str v = to_str raw ->
  eq_prefix sha256Hex v = Ok (Some es) -> Forall (hit keys p id) es.
Proof.
  intros (token & exact & n & s & Ht & He & _ & _ & Hin) Heq Hes. cbn [fst snd] in *.
  unfold eq_prefix, queryLookupValue in Hes.
  replace (stringifyStoredValue v) with (stringifyStoredValue raw) in Hes
    by (unfold stringifyStoredValue; by rewrite Heq).
  rewrite Ht in Hes. injection Hes as <-. constructor; [|constructor].
  apply (hit_text _ _ _ _ _ _ token exact); [done|by apply Hin; left| |by left].
  rewrite app_assoc. apply starts_with_app.
Qed.
(** ** Ranges *)

(** The stored value satisfies every comparison of the operand, all numbers ordinary. *)
Definition range_holds (raw operand : value) : Prop :=
  ordinary (to_num raw) /\
  forall name op, (name, op) ∈ range_ops -> prop operand name <> VUndef ->
    ordinary (to_num (prop operand name)) /\
    compares op (to_num raw) (to_num (prop operand name)) = true.

Lemma ordinary_numeric v : ordinary (to_num v) -> numericValue v = Some (to_num v).
Proof. intros (_ & Hf & _). unfold numericValue. by rewrite Hf. Qed.

Lemma sortable_nonempty x : ordinary x -> sortableFloat64 x <> [].
Proof.
  intros Hx H. destruct (sortable_hex x Hx) as [Hh Hb]. rewrite H in Hh.
  rewrite hex16_fixed in Hh by done. by apply (f_equal length) in Hh; rewrite Num.fixed_digits_length in Hh.
Qed.

Lemma sort_form_no_slash op x : ordinary x -> 47%N ∉ sort_form op x.
Proof.
  intros Hx. destruct (sortable_hex x Hx) as [Hh Hb].
  assert (forall n, (0 <= n < 2 ^ 64)%Z -> 47%N ∉ hex16 n) as Hhex.
  { intros n Hn. rewrite hex16_fixed by done. generalize (Z.to_N n). clear.
    assert (forall k m, 47%N ∉ Num.fixed_digits 16 k m) as H; [|intros; apply H].
    induction k as [|k IH]; intros m; [apply not_elem_of_nil|]. cbn [Num.fixed_digits].
    rewrite not_elem_of_app, list_elem_of_singleton. split; [apply IH|].
    pose proof (N.mod_lt m 16 ltac:(lia)). unfold Num.digit_char.
    destruct (N.ltb_spec (m mod 16) 10); lia. }
  destruct op; cbn [sort_form]; rewrite Hh, ?reverseSortable_hex by done; apply Hhex;
    unfold UINT64_MAX; lia.
Qed.

Lemma range_entries_hit keys p id raw operand ops es :
  leaf_keys id (p, raw) keys -> range_holds raw operand -> ops ⊆ range_ops ->
  range_entries operand ops = Some es -> Forall (hit keys p id) es.
Proof.
  intros (token & exact & numbers & strings & _ & _ & Hn & _ & Hin) [Hraw Hops] Hsub. cbn [fst snd] in *.
  unfold number_keys in Hn. rewrite ordinary_numeric, bool_decide_false in Hn
    by (done || by apply sortable_nonempty).
  destruct (key p (js "n") _ id) as [kn|] eqn:Hkn; [|done]. cbn [mbind outcome_bind] in Hn.
  destruct (key p (js "nr") _ id) as [kr|] eqn:Hkr; [|done]. cbn [mbind outcome_bind] in Hn.
  injection Hn as <-. revert es Hsub. induction ops as [|[name op] ops IH]; intros es Hsub Hes; cbn in Hes.
  { injection Hes as <-. constructor. }
  destruct (is_undef (prop operand name)) eqn:Hu; [apply IH; [set_solver|done]|].
  assert (prop operand name <> VUndef) as Hne by (intros H; by rewrite H in Hu).
  destruct (Hops name op) as [Hb Hcmp]; [set_solver|done|].
  rewrite ordinary_numeric, bool_decide_false in Hes by (done || by apply sortable_nonempty).
  destruct (range_entries operand ops) as [es'|]; [|done]. injection Hes as <-.
  constructor; [|apply IH; [set_solver|done]].
  rewrite compares_sort_form in Hcmp by done.
  assert (starts_with [] (sort_form op (to_num raw) ++ js "/" ++ id) = true) as Hpre by done.
  pose proof (sort_form_no_slash op (to_num raw) Hraw) as Hslash.
  destruct op; cbn [sort_form] in *;
    (eapply hit_text; [first [exact Hkn|exact Hkr]|apply Hin; right; left; set_solver|exact Hpre|];
     right; split; [exact Hslash|]; intros op' bound' [= <- <-]; exact Hcmp).
Qed.

Lemma range_hit keys p id raw operand es :
  leaf_keys id (p, raw) keys -> range_holds raw operand ->
  rangeQueryPrefixes operand = Some es -> Forall (hit keys p id) es.
Proof.
  intros Hl Hr H. apply (range_entries_hit keys p id raw operand range_ops es Hl Hr); [done|].
  unfold rangeQueryPrefixes in H. by destruct (range_entries operand range_ops) as [[|e l]|].
Qed.
(** ** LIKE patterns *)

(** The text of a stored string, and what the index needs of it: code units, and an
    encoded form short enough to have prefix keys. *)
Definition stored_text (s : jstr) : jstr := replace_char 47 (js "%2F") s.
Definition indexed_string (s : jstr) : Prop :=
  code_units s = true /\ exists t, encodeSegment (stored_text s) = Ok t /\ length (encode t) <= MAX_STRING_PREFIX_BYTES.

(** The string keys a short string has. *)
Lemma string_leaf keys p id s :
  leaf_keys id (p, VStr s) keys -> indexed_string s ->
  exists t f r reversed, encodeSegment (stored_text s) = Ok t /\
    key p (js "f") t id = Ok f /\ f ∈ keys /\
    encodeSegment (reverseString (stored_text s)) = Ok reversed /\ key p (js "r") reversed id = Ok r /\ r ∈ keys /\
    (forall gram, gram ∈ trigrams (stored_text s) ->
       exists token k, encodeSegment gram = Ok token /\ key p (js "g3") token id = Ok k /\ k ∈ keys) /\
    length (stored_text s) <= MAX_STRING_PREFIX_BYTES.
Proof.
  intros (token & exact & numbers & strings & _ & _ & _ & Hs & Hin) (Hu & t & Ht & Hlen). cbn [fst snd] in *.
  unfold string_keys in Hs. change (stringifyStoredValue (VStr s)) with (stored_text s) in Hs.
  rewrite Ht in Hs. cbn [mbind outcome_bind] in Hs.
  destruct (Nat.ltb_spec MAX_STRING_PREFIX_BYTES (length (encode t))); [lia|].
  destruct (key p (js "f") t id) as [f|] eqn:Hf; [|done]. cbn [mbind outcome_bind] in Hs.
  destruct (encodeSegment (reverseString _)) as [reversed|] eqn:Hr; [|done]. cbn [mbind outcome_bind] in Hs.
  destruct (key p (js "r") reversed id) as [r|] eqn:Hkr; [|done]. cbn [mbind outcome_bind] in Hs.
  destruct (map_outcome _ _) as [grams|] eqn:Hg; [|done]. injection Hs as <-.
  exists t, f, r, reversed. split_and!; try done.
  - apply Hin. right. right. by left.
  - apply Hin. right. right. right. by left.
  - assert (forall l out, map_outcome (fun gram => token ← encodeSegment gram; key p (js "g3") token id) l = Ok out ->
      forall gram, gram ∈ l -> exists token k, encodeSegment gram = Ok token /\
        key p (js "g3") token id = Ok k /\ k ∈ out) as Hmap.
    { clear. induction l as [|g l IH]; intros out H gram Hgram; [by apply elem_of_nil in Hgram|].
      cbn [map_outcome] in H. destruct (encodeSegment g) as [tok|] eqn:Et; [|done].
      cbn [mbind outcome_bind] in H.
      destruct (key p (js "g3") tok id) as [k|] eqn:Ek; [|done]. cbn [mbind outcome_bind] in H.
      destruct (map_outcome _ l) as [out'|] eqn:Em; [|done]. injection H as <-.
      apply elem_of_cons in Hgram as [->|Hgram].
      - exists tok, k. split_and!; [done|done|by left].
      - destruct (IH out' eq_refl gram Hgram) as (tok' & k' & H1 & H2 & H3). exists tok', k'.
        split_and!; [done|done|by right]. }
    intros gram Hgram. destruct (Hmap _ _ Hg gram Hgram) as (tok & k & H1 & H2 & H3).
    exists tok, k. split_and!; [done|done|]. apply Hin. right. right. do 2 right. done.
  - apply encode_inv in Ht as [_ ->]. pose proof (encoded_length (stored_text s)).
    assert (length (flat_map encode_char (code_points (stored_text s))) <=
            length (encode (flat_map encode_char (code_points (stored_text s))))) as Hb.
    { rewrite encode_ascii; [lia|]. apply uri_ascii.
      clear -Hu. pose proof (replace_slash_units s Hu) as Hv. fold (stored_text s) in Hv.
      assert (Forall (fun cp => (cp < 1114112)%N) (code_points (stored_text s))) as Hall.
      { generalize dependent (stored_text s). clear. intros v. unfold code_units.
        induction v as [|c|a b v IH1 IH2] using jstr_ind2; intros Hv; [constructor|cbn in *; constructor; [lia|constructor]|].
        cbn [forallb] in Hv. rewrite !andb_true_iff in Hv. destruct Hv as (Ha & Hb & Hv).
        rewrite code_points_cons2. destruct (is_high a && is_low b) eqn:E.
        - constructor; [|by apply IH1]. unfold combine, is_high, is_low, in_range in *. lia.
        - constructor; [lia|]. apply IH2. cbn. by rewrite Hb. }
      induction Hall as [|cp l Hcp _ IH]; [done|]. cbn [flat_map].
      by rewrite forallb_app, encode_char_uri, IH. }
    lia.
Qed.

Lemma stored_text_app a b : stored_text (a ++ b) = stored_text a ++ stored_text b.
Proof. apply replace_slash_app. Qed.
Lemma stored_text_id a : 47%N ∉ a -> stored_text a = a.
Proof. apply replace_slash_id. Qed.

Lemma prefix_hit keys p id q w es :
  leaf_keys id (p, VStr (q ++ w)) keys -> indexed_string (q ++ w) -> 47%N ∉ q ->
  (token ← encodeSegment q; Ok (Some [QueryPrefix (js "f") token None])) = Ok (Some es) ->
  Forall (hit keys p id) es.
Proof.
  intros Hl Hi Hq Hes. destruct (encodeSegment q) as [tq|] eqn:Htq; [|done]. injection Hes as <-.
  destruct (string_leaf keys p id _ Hl Hi) as (t & f & _ & _ & Ht & Hf & Hin & _).
  constructor; [|constructor]. eapply hit_text; [exact Hf|exact Hin| |by left].
  apply starts_with_app_r. apply encode_inv in Htq as [Hw ->]. apply encode_inv in Ht as [_ ->].
  rewrite stored_text_app, (stored_text_id q) by done. by apply starts_with_encoded.
Qed.

Lemma suffix_hit keys p id q w es :
  leaf_keys id (p, VStr (w ++ q)) keys -> indexed_string (w ++ q) -> 47%N ∉ q -> well_formed q = true ->
  (token ← encodeSegment (reverseString q); Ok (Some [QueryPrefix (js "r") token None])) = Ok (Some es) ->
  Forall (hit keys p id) es.
Proof.
  intros Hl Hi Hq Hwq Hes. destruct (encodeSegment (reverseString q)) as [tq|] eqn:Htq; [|done].
  injection Hes as <-.
  destruct (string_leaf keys p id _ Hl Hi) as (t & _ & r & rev_ & Ht & _ & _ & Hrev & Hr & Hin & _).
  destruct Hi as [Hu _]. rewrite code_units_app in Hu. apply andb_true_iff in Hu as [Huw Huq].
  constructor; [|constructor]. eapply hit_text; [exact Hr|exact Hin| |by left].
  apply starts_with_app_r. apply encode_inv in Ht as [Hwt _].
  apply encode_inv in Htq as [_ ->]. apply encode_inv in Hrev as [_ ->].
  rewrite stored_text_app, (stored_text_id q) in * by done.
  pose proof (replace_slash_units w Huw) as Huw'. fold (stored_text w) in Huw'.
  rewrite !reverse_code_points by (done || by rewrite code_units_app, Huw').
  rewrite code_points_app_r, rev_app_distr, flat_map_app by done. apply starts_with_app.
Qed.

Lemma head_dedupe l : head (dedupe [] l) = head l.
Proof. destruct l as [|x l]; [done|]. cbn. by rewrite bool_decide_false by apply not_elem_of_nil. Qed.

Lemma gram_hit keys p id u q w es :
  leaf_keys id (p, VStr (u ++ q ++ w)) keys -> indexed_string (u ++ q ++ w) -> 47%N ∉ q ->
  well_formed q = true -> NGRAM_SIZE <= length (chars q) ->
  (token ← encodeSegment (default (take 3 q) (head (trigrams q)));
   Ok (Some [QueryPrefix (js "g3") (token ++ js "/") None])) = Ok (Some es) ->
  Forall (hit keys p id) es.
Proof.
  intros Hl Hi Hq Hwq Hlen Hes.
  destruct (string_leaf keys p id _ Hl Hi) as (t & _ & _ & _ & Ht & _ & _ & _ & _ & _ & Hgrams & Hshort).
  apply encode_inv in Ht as [Hwt _].
  assert (stored_text (u ++ q ++ w) = stored_text u ++ q ++ stored_text w) as Hst.
  { rewrite !stored_text_app, (stored_text_id q); done. }
  rewrite Hst in *.
  assert (q <> []) as Hqne by (intros ->; cbn in Hlen; unfold NGRAM_SIZE in Hlen; lia).
  assert (chars (stored_text u ++ q ++ stored_text w) =
          chars (stored_text u) ++ chars q ++ chars (stored_text w)) as Hchars.
  { unfold chars. rewrite code_points_app_head, (code_points_app q), !map_app; [done|done|].
    intros c r Hc. destruct q as [|d q]; [done|]. injection Hc as Hd _. subst d.
    exact (well_formed_head _ Hwq c q eq_refl). }
  destruct (ex_intro (fun g => g = concat (take NGRAM_SIZE (chars q))) _ eq_refl) as [gram Hgdef].
  assert (length q <= MAX_STRING_PREFIX_BYTES) as Hql by (rewrite !length_app in Hshort; lia).
  assert (default (take 3 q) (head (trigrams q)) = gram) as Hplan.
  { unfold trigrams. rewrite (take_ge q MAX_NGRAM_SOURCE_CHARS)
      by (clear -Hql; unfold MAX_NGRAM_SOURCE_CHARS, MAX_STRING_PREFIX_BYTES in *; lia).
    destruct (Nat.ltb_spec (length (chars q)) NGRAM_SIZE); [lia|].
    rewrite head_dedupe. cbn [seq map head]. by rewrite drop_0, Hgdef. }
  rewrite Hplan in Hes.
  assert (gram ∈ trigrams (stored_text u ++ q ++ stored_text w)) as Hgram.
  { unfold trigrams.
    rewrite (take_ge (stored_text u ++ q ++ stored_text w))
      by (clear -Hshort; unfold MAX_NGRAM_SOURCE_CHARS, MAX_STRING_PREFIX_BYTES in *; lia).
    rewrite Hchars. destruct (Nat.ltb_spec (length (chars (stored_text u) ++ chars q ++ chars (stored_text w))) NGRAM_SIZE) as [Hlt|Hge].
    { rewrite !length_app in Hlt. lia. }
    apply elem_of_dedupe. split; [|apply not_elem_of_nil].
    apply list_elem_of_In, in_map_iff. exists (length (chars (stored_text u))). split.
    - by rewrite drop_app_length, take_app_le, Hgdef by done.
    - apply in_seq. rewrite !length_app in *. lia. }
  destruct (Hgrams gram Hgram) as (token & k & Htoken & Hk & Hin).
  rewrite Htoken in Hes. injection Hes as <-.
  constructor; [|constructor]. eapply hit_text; [exact Hk|exact Hin| |by left].
  rewrite app_assoc. apply starts_with_app.
Qed.
(** The wildcards of a pattern, counted. *)
Lemma count_char_app c a b : count_char c (a ++ b) = count_char c a + count_char c b.
Proof. unfold count_char. rewrite List.filter_app. apply length_app. Qed.
Lemma count_char_zero c s : count_char c s = 0 -> c ∉ s.
Proof.
  unfold count_char. induction s as [|x s IH]; cbn; [intros _; apply not_elem_of_nil|].
  destruct (N.eqb_spec c x); cbn; [lia|]. intros H. apply not_elem_of_cons. split; [done|by apply IH].
Qed.

Lemma drop_percent q : drop_last 1 (q ++ js "%") = q.
Proof.
  unfold drop_last. rewrite length_app. change (length (js "%")) with 1.
  by rewrite Nat.add_sub, take_app_length.
Qed.

(** A stored string the index can find by LIKE. *)
Definition like_holds (raw : value) (pattern : jstr) : Prop :=
  exists s, raw = VStr s /\ Like.matchesLike true s pattern = true /\ 37%N ∉ s /\ indexed_string s /\
    47%N ∉ pattern /\ well_formed pattern = true.

Lemma like_hit keys p id raw pattern es :
  leaf_keys id (p, raw) keys -> like_holds raw pattern ->
  likeQueryPrefixes sha256Hex pattern = Ok (Some es) -> Forall (hit keys p id) es.
Proof.
  intros Hl (s & -> & Hm & Hps & Hi & Hslash & Hwp) Hes.
  apply Like.matchesLike_like in Hm.
  2: { apply Forall_forall. intros c Hc ->. by apply Hps. }
  unfold likeQueryPrefixes in Hes. destruct (includes_char 95 pattern) eqn:Hu; [done|].
  apply includes_char_false in Hu.
  destruct (Nat.eqb_spec (count_char 37 pattern) 0) as [H0|H0].
  { destruct (like_literal pattern s []) as (w & -> & Hw);
      [split; [by apply count_char_zero|done]|by rewrite app_nil_r|].
    inversion Hw; subst. rewrite app_nil_r in *. by apply (eq_hit keys p id (VStr pattern) (VStr pattern) es). }
  destruct ((count_char 37 pattern =? 1) && ends_with (js "%") pattern) eqn:E1.
  { apply andb_true_iff in E1 as [H1%Nat.eqb_eq (q & ->)%ends_with_spec].
    rewrite count_char_app in H1. change (count_char 37 (js "%")) with 1 in H1.
    apply not_elem_of_app in Hu as [Hu _]. apply not_elem_of_app in Hslash as [Hslash _].
    destruct (like_literal q s (js "%")) as (w & -> & _); [split; [apply count_char_zero; lia|done]|done|].
    rewrite drop_percent in Hes. by eapply prefix_hit. }
  destruct ((count_char 37 pattern =? 1) && starts_with (js "%") pattern) eqn:E2.
  { apply andb_true_iff in E2 as [H1%Nat.eqb_eq (q & ->)%starts_with_spec].
    rewrite count_char_app in H1. change (count_char 37 (js "%")) with 1 in H1.
    apply not_elem_of_app in Hu as [_ Hu]. apply not_elem_of_app in Hslash as [_ Hslash].
    assert (well_formed q = true) as Hwq by (by apply (well_formed_app_l (js "%") q)).
    cbn [js app] in Hm. apply Like.like_percent_inv in Hm as (u & w & -> & Hw).
    rewrite <- (app_nil_r q) in Hw.
    destruct (like_literal q w []) as (w' & -> & Hw'); [split; [apply count_char_zero; lia|done]|done|].
    inversion Hw'; subst. rewrite app_nil_r in *. by eapply suffix_hit. }
  unfold containsQueryPrefixes in Hes.
  destruct (Nat.eqb_spec (count_char 37 pattern) 2) as [H2|]; [|done].
  destruct (starts_with (js "%") pattern) eqn:E3; [|done].
  destruct (ends_with (js "%") pattern) eqn:E4; [|done]. cbn [negb orb] in Hes.
  destruct (Nat.leb_spec (length pattern) 2) as [|Hlen]; [done|].
  apply starts_with_spec in E3 as [q' ->]. cbn [js app length] in Hlen.
  assert (exists q, q' = q ++ js "%") as [q ->].
  { apply ends_with_spec in E4 as [r Hr]. destruct r as [|c r]; [by destruct q'|].
    injection Hr as _ Hr. by exists r. }
  rewrite !count_char_app in H2. change (count_char 37 (js "%")) with 1 in H2.
  rewrite !not_elem_of_app in Hu, Hslash.
  assert (drop_last 1 (drop 1 (js "%" ++ q ++ js "%")) = q) as Hneedle.
  { apply drop_percent. }
  rewrite Hneedle in Hes.
  destruct (Nat.ltb_spec (length (chars q)) NGRAM_SIZE); [done|].
  assert (well_formed q = true) as Hwq.
  { apply (well_formed_app_l (js "%")) in Hwp; [|done]. by apply (well_formed_app_r q (js "%")). }
  cbn [js app] in Hm. apply Like.like_percent_inv in Hm as (u & w & -> & Hw).
  destruct (like_literal q w (js "%")) as (w' & -> & _); [split; [apply count_char_zero; lia|tauto]|done|].
  eapply gram_hit; try done. tauto.
Qed.

(** The document's value satisfies the operand, in the way the index can see. *)
Definition operand_holds (raw operand : value) : Prop :=
  let eq := prop operand (js "$eq") in
  let contains := prop operand (js "$contains") in
  if negb (is_undef eq) then to_str eq = to_str raw
  else if negb (is_undef contains) then to_str contains = to_str raw
  else match prop operand (js "$like") with
       | VUndef => range_holds raw operand
       | VStr pattern => like_holds raw pattern
       | _ => False
       end.

Lemma operand_hit keys p id raw operand es :
  leaf_keys id (p, raw) keys -> operand_holds raw operand ->
  queryPrefixes sha256Hex operand = Ok (Some es) -> Forall (hit keys p id) es.
Proof.
  unfold operand_holds, queryPrefixes. intros Hl Hop Hes.
  destruct (negb (is_undef (prop operand (js "$eq")))); [by eapply eq_hit|].
  destruct (negb (is_undef (prop operand (js "$contains")))); [by eapply eq_hit|].
  destruct (prop operand (js "$like")); try done.
  - injection Hes as Hes. by eapply range_hit.
  - by eapply like_hit.
Qed.

(** The index has no false negatives: if a value of a document, at a field path (or an
    item of the array there), satisfies an operand the index can plan, then for every
    prefix the plan asks for the document's keys hold one under that prefix, inside the
    range, from which the document's identifier is read back. *)
Theorem index_complete id data keys p raw operand es :
  entriesForDocument sha256Hex id data = Ok keys ->
  (p, raw) ∈ leaves [] (VObj data) -> operand_holds raw operand ->
  queryPrefixes sha256Hex operand = Ok (Some es) ->
  Forall (hit keys p id) es.
Proof.
  intros Hk Hl Hop Hes. eapply operand_hit; [|exact Hop|exact Hes]. by eapply entries_keys.
Qed.
End Keys.

(** A stand-in for the digest, for the witness: its argument's length. *)
Definition length_digest (s : jstr) : jstr := Num.dec_nat (length s).

Lemma index_complete_witness :
  let data := [(js "tags", VArr [VStr (js "red"); VNum (Num.of_Z 7)]);
               (js "age", VObj [(js "years", VNum (Num.of_Z 30))])] in
  exists keys es, entriesForDocument length_digest (js "4VLN5QUCDP0") data = Ok keys /\
    queryPrefixes length_digest (VObj [(js "$gte", VNum (Num.of_Z 18)); (js "$lt", VNum (Num.of_Z 40))]) = Ok (Some es) /\
    Forall (hit keys (js "age/years") (js "4VLN5QUCDP0")) es.
Proof.
  eexists _, _. split_and!; [vm_compute; reflexivity|vm_compute; reflexivity|].
  apply (index_complete length_digest (js "4VLN5QUCDP0")
           [(js "tags", VArr [VStr (js "red"); VNum (Num.of_Z 7)]);
            (js "age", VObj [(js "years", VNum (Num.of_Z 30))])] _ (js "age/years") (VNum (Num.of_Z 30))
           (VObj [(js "$gte", VNum (Num.of_Z 18)); (js "$lt", VNum (Num.of_Z 40))])).
  - vm_compute. reflexivity.
  - apply (bool_decide_unpack _). vm_compute. reflexivity.
  - split; [split_and!; [vm_compute; reflexivity|vm_compute; reflexivity|discriminate]|].
    intros name op Hin Hne.
    repeat (apply elem_of_cons in Hin as [[= -> ->]|Hin]); [..|by apply elem_of_nil in Hin];
      first [by destruct Hne|split; [split_and!; [vm_compute; reflexivity|vm_compute; reflexivity|discriminate]
                              |vm_compute; reflexivity]].
  - vm_compute. reflexivity.
Defined.

End Complete.
