(* ===== verification/IndexKeys.v ===== *)
(** The form of index keys: every key of a document is a line of visible ASCII that ends
    with the document's identifier. *)

From Stdlib Require Import SpecFloat.
From S2P Require Import Prelude PathUtil JsNum JsValue Utf8 Shard Ttid Codec PrefixIndex IndexSearch IndexComplete.

Module Keys.
Import Utf8 Codec Search Complete.

(** ** Characters of numbers *)

(** What holds of all digits of the base holds of a numeral. *)
Lemma digits_acc_all (P : N -> bool) base fuel n acc : (0 < base)%N ->
  (forall d, (d < base)%N -> P (Num.digit_char d) = true) ->
  forallb P acc = true -> forallb P (Num.digits_acc fuel base n acc) = true.
Proof.
  intros Hb HP. revert n acc. induction fuel as [|f IH]; intros n acc Ha; cbn [Num.digits_acc]; [done|].
  assert (forallb P (Num.digit_char (n mod base) :: acc) = true) as Hd.
  { cbn [forallb]. rewrite Ha, andb_true_r. apply HP, N.mod_lt. lia. }
  destruct (n / base =? 0)%N; [done|]. by apply IH.
Qed.

Lemma digit_uri d : (d < 36)%N -> uri_char (Num.digit_char d) = true.
Proof.
  intros Hd. unfold Num.digit_char, uri_char, unreserved, is_alnum, is_alpha, is_digit, is_lower, is_upper, in_range.
  destruct (N.ltb_spec d 10); lia.
Qed.

Lemma dec_uri n : forallb uri_char (Num.dec n) = true.
Proof. apply digits_acc_all; [lia| |done]. intros d Hd. apply digit_uri. lia. Qed.

Lemma dec_ascii n : ascii (Num.dec n) = true.
Proof.
  pose proof (dec_uri n) as H. unfold ascii. rewrite forallb_forall in H |- *.
  intros c Hc%H%uri_char_bounds. lia.
Qed.

Lemma ascii_take k s : ascii s = true -> ascii (take k s) = true.
Proof. unfold ascii. apply Shard.forallb_take. Qed.
Lemma ascii_drop k s : ascii s = true -> ascii (drop k s) = true.
Proof. unfold ascii. apply Shard.forallb_drop. Qed.
Lemma ascii_rev s : ascii s = true -> ascii (rev s) = true.
Proof. unfold ascii. rewrite !forallb_forall. intros H c Hc. apply H. by apply in_rev. Qed.
Lemma ascii_replicate k c : (c < 128)%N -> ascii (replicate k c) = true.
Proof. intros H. unfold ascii. induction k as [|k IH]; [done|]. cbn [replicate forallb]. rewrite IH. lia. Qed.
Lemma ascii_strip s : ascii s = true -> ascii (Num.strip_zeros s) = true.
Proof.
  unfold ascii. induction s as [|c s IH]; [done|]. cbn [forallb Num.strip_zeros]. intros [Hc Hs]%andb_true_iff.
  destruct (c =? 48)%N; [by apply IH|]. cbn [forallb]. by rewrite Hc.
Qed.

Lemma layout_ascii ds n : ascii ds = true -> ascii (Num.layout ds n) = true.
Proof.
  intros H. unfold Num.layout.
  repeat match goal with |- context [if ?b then _ else _] => destruct b end;
    rewrite ?ascii_app, ?ascii_replicate by done; try done;
    repeat match goal with |- context [match ?l with [] => _ | _ :: _ => _ end] => destruct l end;
    unfold ascii in *; cbn [forallb app] in *; rewrite ?forallb_app; cbn [forallb];
    rewrite ?andb_true_iff in *;
    repeat match goal with |- context [forallb _ (Num.dec ?x)] => rewrite (dec_ascii x : forallb _ _ = true) end;
    rewrite ?Shard.forallb_take, ?Shard.forallb_drop by done;
    naive_solver.
Qed.

Lemma to_string_ascii x : ascii (Num.to_string x) = true.
Proof.
  destruct x as [s|s| |s m e]; cbn [Num.to_string]; [done|by destruct s|done|].
  destruct (if (0 <=? e)%Z then _ else _) as [a b].
  destruct (Num.shortest _ _ _ _ _ _) as [d e10].
  rewrite ascii_app. apply andb_true_iff. split; [by destruct s|].
  apply layout_ascii, ascii_rev, ascii_strip, ascii_rev, dec_ascii.
Qed.

Lemma ascii_units s : ascii s = true -> code_units s = true.
Proof. unfold ascii, code_units. rewrite !forallb_forall. intros H c Hc. apply H in Hc. lia. Qed.

(** ** Strings inside strings *)

Lemma units_concat l : code_units (concat l) = forallb code_units l.
Proof. induction l as [|s l IH]; [done|]. cbn [concat forallb]. by rewrite code_units_app, IH. Qed.

Lemma chars_units s : code_units s = true -> forallb code_units (chars s) = true.
Proof. intros H. by rewrite <- units_concat, chars_concat. Qed.

Lemma reverse_units s : code_units s = true -> code_units (reverseString s) = true.
Proof.
  intros H%chars_units. unfold reverseString. rewrite units_concat. rewrite forallb_forall in H |- *.
  intros c Hc. apply H. by apply in_rev.
Qed.

Lemma trigram_units s g : code_units s = true -> g ∈ trigrams s -> code_units g = true.
Proof.
  intros H. unfold trigrams.
  assert (code_units (take MAX_NGRAM_SOURCE_CHARS s) = true) as Ht by (unfold code_units in *; by apply Shard.forallb_take).
  apply chars_units in Ht. destruct (length (chars _) <? NGRAM_SIZE); [by intros ?%elem_of_nil|].
  intros [Hg _]%elem_of_dedupe. apply list_elem_of_In, in_map_iff in Hg as (i & <- & _).
  rewrite units_concat. apply Shard.forallb_take. by apply Shard.forallb_drop.
Qed.

Lemma split_units c s : code_units s = true -> Forall (fun x => code_units x = true) (split_on c s).
Proof.
  unfold code_units. induction s as [|x s IH]; intros H; cbn [split_on]; [by repeat constructor|].
  cbn [forallb] in H. apply andb_true_iff in H as [Hx H]. specialize (IH H).
  destruct (x =? c)%N; [by constructor|]. destruct (split_on c s) as [|h t]; [by repeat constructor; cbn; rewrite Hx|].
  inversion IH; subst. constructor; [|done]. cbn [forallb]. by rewrite Hx.
Qed.

(** ** Keys *)

Definition path_char (c : N) : bool := uri_char c || (c =? 47)%N.

Lemma path_char_key c : path_char c = true -> key_char c = true.
Proof.
  unfold path_char, key_char, in_range. rewrite orb_true_iff. intros [H%uri_char_bounds|H]; lia.
Qed.

Lemma uri_path s : forallb uri_char s = true -> forallb path_char s = true.
Proof. rewrite !forallb_forall. intros H c Hc. unfold path_char. by rewrite H. Qed.

Lemma encodeFieldPath_chars p t :
  code_units p = true -> encodeFieldPath p = Ok t -> forallb path_char t = true.
Proof.
  intros Hp. unfold encodeFieldPath. apply (split_units 47) in Hp.
  destruct (map_outcome encodeSegment _) as [l|] eqn:E; [|done]. intros H. apply Ok_inj in H as <-.
  assert (Forall (fun s => forallb path_char s = true) l) as Hl.
  { revert l E. induction Hp as [|x xs Hx _ IH]; intros l E; cbn [map_outcome] in E; [injection E as <-; constructor|].
    destruct (encodeSegment x) as [y|] eqn:Ex; [|done]. cbn [mbind outcome_bind] in E.
    destruct (map_outcome encodeSegment xs) as [ys|]; [|done]. injection E as <-. constructor; [|by apply IH].
    by apply uri_path, (encodeURIComponent_uri x). }
  clear -Hl. induction Hl as [|s l Hs Hl IH]; [done|]. destruct l as [|s' l]; [done|].
  rewrite join_with_cons, !forallb_app, Hs, IH by done. done.
Qed.

(** What every key of a document is. *)
Definition doc_key (id k : jstr) : Prop := index_key k = true /\ exists a, k = a ++ 47%N :: id.

Lemma key_doc_key p kind v id k :
  code_units p = true -> forallb path_char kind = true -> forallb path_char v = true ->
  key p kind v id = Ok k -> doc_key id k.
Proof.
  intros Hp Hkind Hv Hk. apply key_inv in Hk as (Hid & path & Hpath & ->).
  apply encodeFieldPath_chars in Hpath; [|done]. unfold key_text. split.
  - unfold index_key. assert (forallb path_char id = true) as Hidc.
    { apply ttid_chars in Hid. rewrite forallb_forall in Hid |- *. intros c Hc. unfold path_char, uri_char.
      rewrite (id_char_unreserved c); [done|by apply Hid]. }
    assert (forallb path_char (path ++ js "/" ++ kind ++ js "/" ++ v ++ js "/" ++ id) = true) as Hall.
    { by rewrite !forallb_app, Hpath, Hkind, Hv, Hidc. }
    apply andb_true_iff. split.
    + apply negb_true_iff, jeqb_neq. by destruct path.
    + rewrite forallb_forall in Hall |- *. intros c Hc. by apply path_char_key, Hall.
  - exists (path ++ js "/" ++ kind ++ js "/" ++ v). by rewrite <- !app_assoc.
Qed.

(** All strings and field names inside are sequences of code units. *)
Fixpoint units (v : value) : bool :=
  match v with
  | VStr s => code_units s
  | VArr l => forallb units l
  | VObj o => forallb (fun kv => code_units (fst kv) && units (snd kv)) o
  | _ => true
  end.

Lemma scalar_text_units v : is_objectlike v = false -> units v = true -> code_units (stringifyStoredValue v) = true.
Proof.
  intros Ho Hu. unfold stringifyStoredValue. apply replace_slash_units.
  destruct v as [| |[]|n|s|l|o]; try done. apply ascii_units, to_string_ascii.
Qed.

Lemma hex16_uri n : forallb path_char (hex16 n) = true.
Proof.
  unfold hex16, pad_start. rewrite forallb_app. apply andb_true_iff. split.
  - induction (16 - _) as [|k IH]; [done|]. cbn [replicate forallb]. by rewrite IH.
  - apply uri_path, digits_acc_all; [lia| |done]. intros d Hd. apply digit_uri. lia.
Qed.

Section Entries.
  Context (sha256Hex : jstr -> jstr).
  (** A digest is written in hexadecimal. *)
  Hypothesis sha256Hex_hex : forall s, forallb uri_char (sha256Hex s) = true.

Lemma lookupToken_chars s t : code_units s = true -> lookupToken sha256Hex s = Ok t -> forallb path_char t = true.
Proof.
  intros Hs. unfold lookupToken. destruct (encodeSegment s) as [e|] eqn:E; [|done]. cbn [mbind outcome_bind].
  destruct (_ <=? _); intros H; apply Ok_inj in H as <-.
  - by apply uri_path, (encodeURIComponent_uri s).
  - rewrite forallb_app. by rewrite (uri_path (sha256Hex s)).
Qed.

Lemma number_keys_doc p id raw l : code_units p = true -> number_keys p id raw = Ok l -> Forall (doc_key id) l.
Proof.
  intros Hp. unfold number_keys. case_bool_decide as Hs; [by intros [= <-]|].
  destruct (numericValue raw) as [n|]; [|done].
  assert (forallb path_char (sortableFloat64 n) = true) as Hc.
  { unfold sortableFloat64 in *. destruct (Num.is_finite n); [apply hex16_uri|done]. }
  destruct (key p (js "n") _ id) as [k1|] eqn:E1; [|done]. cbn [mbind outcome_bind].
  destruct (key p (js "nr") _ id) as [k2|] eqn:E2; [|done]. intros [= <-].
  apply key_doc_key in E1; [|done..]. apply key_doc_key in E2; [by repeat apply Forall_cons_2|done..|].
  unfold reverseSortable. apply hex16_uri.
Qed.

Lemma string_keys_doc p id raw l : code_units p = true -> units raw = true ->
  string_keys p id raw = Ok l -> Forall (doc_key id) l.
Proof.
  intros Hp Hu. unfold string_keys. destruct raw as [| |b|n|s|li|o]; try (by intros [= <-]).
  assert (code_units (stringifyStoredValue (VStr s)) = true) as Hs by by apply scalar_text_units.
  assert (forall x t, code_units x = true -> encodeSegment x = Ok t -> forallb path_char t = true) as Henc.
  { intros x t Hx Ht. by apply uri_path, (encodeURIComponent_uri x). }
  destruct (encodeSegment (stringifyStoredValue (VStr s))) as [e|] eqn:Ee; [|done]. cbn [mbind outcome_bind].
  destruct (_ <? _); [by intros [= <-]|].
  destruct (key p (js "f") e id) as [k1|] eqn:E1; [|done]. cbn [mbind outcome_bind].
  destruct (encodeSegment (reverseString _)) as [r|] eqn:Er; [|done]. cbn [mbind outcome_bind].
  destruct (key p (js "r") r id) as [k2|] eqn:E2; [|done]. cbn [mbind outcome_bind].
  destruct (map_outcome _ _) as [grams|] eqn:Eg; [|done]. intros [= <-].
  constructor; [|constructor].
  - apply key_doc_key in E1; [done..|]. by eapply Henc.
  - apply key_doc_key in E2; [done..|]. eapply Henc; [|exact Er]. by apply reverse_units.
  - assert (forall g, g ∈ trigrams (stringifyStoredValue (VStr s)) -> code_units g = true) as Hg
      by (intros g; by apply trigram_units).
    revert grams Eg Hg. induction (trigrams _) as [|g gs IH]; intros grams Eg Hg; cbn [map_outcome] in Eg.
    { injection Eg as <-. constructor. }
    destruct (encodeSegment g) as [tok|] eqn:Et; [|done]. cbn [mbind outcome_bind] in Eg.
    destruct (key p (js "g3") tok id) as [k|] eqn:Ek; [|done]. cbn [mbind outcome_bind] in Eg.
    destruct (map_outcome _ gs) as [ks|]; [|done]. injection Eg as <-. constructor.
    + apply key_doc_key in Ek; [done..|]. eapply Henc; [|exact Et]. apply Hg. by left.
    + apply IH; [done|]. intros g' ?. apply Hg. by right.
Qed.

Lemma addValue_doc id p raw acc acc' :
  code_units p = true -> is_objectlike raw = false -> units raw = true ->
  addValue sha256Hex id p raw acc = Ok acc' ->
  Forall (doc_key id) (acc_keys acc) -> Forall (doc_key id) (acc_keys acc').
Proof.
  intros Hp Ho Hu H Hacc. unfold addValue in H.
  destruct (lookupToken _ _) as [token|] eqn:Ht; [|done]. cbn [mbind outcome_bind] in H.
  destruct (key _ _ _ _) as [exact|] eqn:He; [|done]. cbn [mbind outcome_bind] in H.
  destruct (number_keys _ _ _) as [numbers|] eqn:Hn; [|done]. cbn [mbind outcome_bind] in H.
  destruct (string_keys _ _ _) as [strings|] eqn:Hs; [|done]. cbn [mbind outcome_bind] in H.
  injection H as <-. unfold acc_keys in *. cbn [fst snd]. rewrite !Forall_app in *.
  apply number_keys_doc in Hn; [|done]. apply string_keys_doc in Hs; [|done..].
  apply key_doc_key in He; [|done..|eapply lookupToken_chars; [|exact Ht]; by apply scalar_text_units].
  rewrite Forall_singleton. tauto.
Qed.

Lemma fold_items_doc id p items acc acc' :
  code_units p = true -> forallb units items = true ->
  fold_outcome (add_item sha256Hex id p) acc items = Ok acc' ->
  Forall (doc_key id) (acc_keys acc) -> Forall (doc_key id) (acc_keys acc').
Proof.
  intros Hp. revert acc. induction items as [|x items IH]; intros acc Hu H Hacc; cbn in H; [by injection H as <-|].
  cbn [forallb] in Hu. apply andb_true_iff in Hu as [Hx Hu].
  destruct (add_item sha256Hex id p acc x) as [acc1|] eqn:E; [|done]. cbn in H.
  unfold add_item in E. destruct (is_objectlike x) eqn:Ho; [done|].
  apply (IH acc1); [done|done|]. by eapply addValue_doc.
Qed.

Lemma child_path_units p f : code_units p = true -> code_units f = true -> code_units (child_path p f) = true.
Proof.
  intros Hp Hf. unfold child_path. case_bool_decide; [done|]. rewrite !code_units_app, Hp, Hf. done.
Qed.

Lemma walk_value_doc id v p acc acc' :
  code_units p = true -> units v = true -> walk_value sha256Hex id p v acc = Ok acc' ->
  Forall (doc_key id) (acc_keys acc) -> Forall (doc_key id) (acc_keys acc').
Proof.
  revert p acc acc'. induction v as [| |b|n|s|l _|o IH] using value_rect';
    intros p acc acc' Hp Hu H Hacc; cbn [walk_value] in H; 
    try (eapply addValue_doc; [exact Hp| |exact Hu|exact H|exact Hacc]; done).
  - eapply fold_items_doc; [exact Hp|exact Hu|exact H|exact Hacc].
  - revert acc H Hacc. cbn [units] in Hu. induction IH as [|[field v'] o Hv _ IHo]; intros acc H Hacc; [by injection H as <-|].
    cbn [forallb fst snd] in Hu, Hv. rewrite !andb_true_iff in Hu. destruct Hu as [[Hf Hv'] Hu].
    destruct (walk_value sha256Hex id (child_path p field) v' acc) as [acc1|] eqn:E; [|done]. cbn in H.
    apply (IHo Hu acc1 H). eapply Hv; [|exact Hv'|exact E|done]. by apply child_path_units.
Qed.

Lemma entries_doc_keys id data ks :
  units (VObj data) = true -> entriesForDocument sha256Hex id data = Ok ks -> Forall (doc_key id) ks.
Proof.
  intros Hu. unfold entriesForDocument. destruct (walk_value _ _ _ _ _) as [acc|] eqn:E; [|done]. intros [= <-].
  apply walk_value_doc in E; [|done..|constructor]. rewrite Forall_forall in E |- *.
  intros k [Hk _]%elem_of_dedupe. by apply E.
Qed.
End Entries.

(** A key belongs to one identifier. *)
Lemma doc_key_inj id id' k : TTID.is_ttid id = true -> TTID.is_ttid id' = true ->
  doc_key id k -> doc_key id' k -> id = id'.
Proof.
  intros H1%ttid_no_slash H2%ttid_no_slash [_ [a ->]] [_ [b Hb]].
  apply (f_equal (split_on 47)) in Hb. rewrite !split_on_snoc in Hb by done. by apply app_inj_tail in Hb as [_ ->].
Qed.

(** Whatever prefix a key is scanned under, its identifier is read back. *)
Lemma docIdFromKey_doc root id k :
  TTID.is_ttid id = true -> doc_key id k -> starts_with (root ++ [47%N]) k = true ->
  docIdFromKey (root ++ [47%N]) k = Ok id.
Proof.
  intros Hid [_ [a Ha]] [r Hr]%starts_with_spec. unfold docIdFromKey. rewrite Hr, drop_app_length.
  pose proof (ttid_no_slash id Hid) as Hns.
  assert (split_on 47 root ++ split_on 47 r = split_on 47 a ++ [id]) as Hs.
  { rewrite <- (split_on_snoc 47 a id Hns), <- Ha, Hr, <- app_assoc. cbn [app]. symmetry. apply Path.split_on_sep_app. }
  assert (last (split_on 47 r) = Some id) as Hl.
  { pose proof (split_on_nonempty 47 r) as Hne. apply (f_equal last) in Hs.
    rewrite last_snoc, last_app in Hs. destruct (last (split_on 47 r)) as [x|] eqn:E; [done|].
    by apply last_None in E. }
  unfold PathUtil.c_slash. rewrite Hl. change (default [] (Some id)) with id. rewrite ttid_decode by done. unfold mbind, outcome_bind. by rewrite Hid.
Qed.

End Keys.
