(* ===== verification/IndexStore.v ===== *)
(** The prefix index refines a map from identifiers to documents: what its operations do
    on any lawful filesystem.  [stored] ties the files and the caches to a list of
    snapshot keys and a log of mutations, [tracks] ties these to the documents. *)

From stdpp Require Import gmap sets.
From S2P Require Import Prelude PathUtil JsNum JsValue Utf8 Json Shard Ttid Codec.
From S2P Require Import Filesystem PrefixIndex IndexSearch IndexComplete IndexKeys.

Module Store.
Import Utf8 Codec PrefixIndex Search Complete Keys.

(** ** Sets in insertion order *)

Lemma elem_of_set_add x y l : x ∈ set_add y l <-> x = y \/ x ∈ l.
Proof.
  unfold set_add. case_bool_decide as H; [split; [by right|]; intros [->|?]; done|].
  rewrite elem_of_app, list_elem_of_singleton. tauto.
Qed.

Lemma elem_of_set_delete x y l : x ∈ set_delete y l <-> x <> y /\ x ∈ l.
Proof. unfold set_delete. by rewrite list_elem_of_filter. Qed.

Lemma NoDup_set_add x l : NoDup l -> NoDup (set_add x l).
Proof.
  intros H. unfold set_add. case_bool_decide; [done|]. apply NoDup_app. split_and!; [done| |apply NoDup_singleton].
  intros y Hy ->%list_elem_of_singleton. done.
Qed.

Lemma NoDup_set_delete x l : NoDup l -> NoDup (set_delete x l).
Proof. apply NoDup_filter. Qed.

Lemma set_of_spec l : (forall x, x ∈ set_of l <-> x ∈ l) /\ NoDup (set_of l).
Proof.
  unfold set_of. assert (forall acc, NoDup acc ->
    (forall x, x ∈ fold_left (fun s x => set_add x s) l acc <-> x ∈ acc \/ x ∈ l) /\
    NoDup (fold_left (fun s x => set_add x s) l acc)) as Hall.
  { induction l as [|y l IH]; intros acc Hacc; cbn [fold_left].
    - split; [|done]. intros x. rewrite elem_of_nil. tauto.
    - destruct (IH (set_add y acc) (NoDup_set_add y acc Hacc)) as [H1 H2]. split; [|done].
      intros x. rewrite H1, elem_of_set_add, elem_of_cons. tauto. }
  destruct (Hall [] ltac:(constructor)) as [H1 H2]. split; [|done]. intros x. rewrite H1, elem_of_nil. tauto.
Qed.

(** ** The log over the snapshot *)

Definition log_overlay (ms : list mutation) : overlay := fold_left overlay_step ms (mkOverlay [] []).

(** The keys visible through a log. *)
Definition merged (keys : list jstr) (ms : list mutation) (k : jstr) : Prop :=
  (k ∈ keys /\ k ∉ removed (log_overlay ms)) \/ k ∈ added (log_overlay ms).

Lemma overlay_of_lines ms : Forall (fun m => index_key (mutation_key m) = true) ms ->
  overlay_of (map line_of ms) = log_overlay ms.
Proof.
  unfold overlay_of, log_overlay. generalize (mkOverlay [] []) as o. intros o H. revert o.
  induction H as [|m ms Hm _ IH]; intros o; [done|]. cbn [map fold_left]. rewrite parse_line_of by done. apply IH.
Qed.

Lemma fold_puts ks o :
  (forall k, k ∈ added (fold_left overlay_step (map Put ks) o) <-> k ∈ ks \/ k ∈ added o) /\
  (forall k, k ∈ removed (fold_left overlay_step (map Put ks) o) <-> k ∉ ks /\ k ∈ removed o).
Proof.
  revert o. induction ks as [|x ks IH]; intros o; cbn [map fold_left].
  - split; intros k; rewrite elem_of_nil; tauto.
  - destruct (IH (overlay_step o (Put x))) as [H1 H2]. cbn [overlay_step added removed] in *. split; intros k.
    + rewrite H1, elem_of_set_add, elem_of_cons. tauto.
    + rewrite H2, elem_of_set_delete, not_elem_of_cons. tauto.
Qed.

Lemma fold_dels ks o :
  (forall k, k ∈ added (fold_left overlay_step (map Del ks) o) <-> k ∉ ks /\ k ∈ added o) /\
  (forall k, k ∈ removed (fold_left overlay_step (map Del ks) o) <-> k ∈ ks \/ k ∈ removed o).
Proof.
  revert o. induction ks as [|x ks IH]; intros o; cbn [map fold_left].
  - split; intros k; rewrite elem_of_nil; tauto.
  - destruct (IH (overlay_step o (Del x))) as [H1 H2]. cbn [overlay_step added removed] in *. split; intros k.
    + rewrite H1, elem_of_set_delete, not_elem_of_cons. tauto.
    + rewrite H2, elem_of_set_add, elem_of_cons. tauto.
Qed.

Lemma log_overlay_app ms ms' : log_overlay (ms ++ ms') = fold_left overlay_step ms' (log_overlay ms).
Proof. unfold log_overlay. apply fold_left_app. Qed.

(** No key is both added and removed. *)
Lemma log_overlay_disjoint ms k : k ∈ added (log_overlay ms) -> k ∉ removed (log_overlay ms).
Proof.
  revert k. induction ms as [|m ms IH] using rev_ind; intros k; [by intros ?%elem_of_nil|].
  rewrite log_overlay_app. cbn [fold_left]. destruct m as [x|x]; cbn [overlay_step added removed].
  - rewrite elem_of_set_add, elem_of_set_delete. intros [->|H]; [tauto|]. intros [_ ?]. by apply (IH k).
  - rewrite elem_of_set_add, elem_of_set_delete. intros [Hne H] [?|?]; [done|]. by apply (IH k).
Qed.

(** Replaying the log on a set of keys, as [loadKeySet] does. *)
Lemma replay_merged ms keys k :
  Forall (fun m => index_key (mutation_key m) = true) ms ->
  k ∈ fold_left apply_mutation (map line_of ms) keys <-> merged keys ms k.
Proof.
  unfold merged. revert k. induction ms as [|m ms IH] using rev_ind; intros k H;
    [|rewrite Forall_app, Forall_singleton in H; destruct H as [Hms Hm]; specialize (fun k => IH k Hms)].
  - cbn. rewrite elem_of_nil. set_solver.
  - rewrite map_app, fold_left_app. cbn [map fold_left]. unfold apply_mutation at 1.
    rewrite parse_line_of by done. rewrite log_overlay_app. cbn [fold_left].
    destruct m as [x|x]; cbn [overlay_step added removed].
    + rewrite !elem_of_set_add, elem_of_set_delete, IH. destruct (decide (k = x)); tauto.
    + rewrite !elem_of_set_delete, elem_of_set_add, IH. destruct (decide (k = x)); tauto.
Qed.

(** ** Keys and their documents *)

Definition owned (k : jstr) : Prop := exists id, TTID.is_ttid id = true /\ doc_key id k.

Lemma owned_index_key k : owned k -> index_key k = true.
Proof. by intros (id & _ & H & _). Qed.

Lemma log_overlay_keys ms k :
  k ∈ added (log_overlay ms) \/ k ∈ removed (log_overlay ms) -> exists m, m ∈ ms /\ mutation_key m = k.
Proof.
  revert k. induction ms as [|m ms IH] using rev_ind; intros k; [by intros [?%elem_of_nil|?%elem_of_nil]|].
  rewrite log_overlay_app. cbn [fold_left].
  assert (k = mutation_key m \/ (k ∈ added (log_overlay ms) \/ k ∈ removed (log_overlay ms)) ->
          exists m', m' ∈ ms ++ [m] /\ mutation_key m' = k) as Hgo.
  { intros [->|Hk]; [exists m; set_solver|]. destruct (IH k Hk) as (m' & ? & ?). exists m'. set_solver. }
  destruct m as [x|x]; cbn [overlay_step added removed]; rewrite elem_of_set_add, elem_of_set_delete; tauto.
Qed.

Lemma merged_owned keys ms k :
  Forall owned keys -> Forall (fun m => owned (mutation_key m)) ms -> merged keys ms k -> owned k.
Proof.
  rewrite !Forall_forall. intros Hk Hm [[Hin _]|Hin]; [by apply Hk|].
  destruct (log_overlay_keys ms k (or_introl Hin)) as (m & Hin' & <-). by apply Hm.
Qed.

(** The log treats the documents of the snapshot as wholes: once it removes a key, it has
    removed or added back every other key of that document. *)
Definition atomic (keys : list jstr) (ms : list mutation) : Prop :=
  forall id k k', TTID.is_ttid id = true -> k ∈ removed (log_overlay ms) -> doc_key id k ->
    k' ∈ keys -> doc_key id k' -> k' ∈ removed (log_overlay ms) \/ k' ∈ added (log_overlay ms).

Section Tracks.
  Context (sha256Hex : jstr -> jstr).

(** [ks] are the keys of the document [doc] under [id]. *)
Definition keys_of (id : jstr) (doc : object) (ks : list jstr) : Prop :=
  TTID.is_ttid id = true /\ entriesForDocument sha256Hex id doc = Ok ks /\ Forall (doc_key id) ks.

Record tracks (keys : list jstr) (ms : list mutation) (docs : gmap jstr object) : Prop := {
  tracks_atomic : atomic keys ms;
  tracks_docs id doc : docs !! id = Some doc -> exists ks, keys_of id doc ks;
  tracks_merged k : merged keys ms k <->
    exists id doc ks, docs !! id = Some doc /\ keys_of id doc ks /\ k ∈ ks
}.

Lemma keys_of_fun id doc ks ks' : keys_of id doc ks -> keys_of id doc ks' -> ks = ks'.
Proof. intros (_ & H & _) (_ & H' & _). rewrite H in H'. by injection H'. Qed.

Lemma keys_of_owner id id' doc doc' ks ks' k :
  keys_of id doc ks -> keys_of id' doc' ks' -> k ∈ ks -> k ∈ ks' -> id = id'.
Proof.
  intros (Hid & _ & Hf) (Hid' & _ & Hf') Hk Hk'. rewrite Forall_forall in Hf, Hf'.
  eapply doc_key_inj; [done|done|by apply Hf|by apply Hf'].
Qed.

Lemma tracks_put keys ms docs id doc ks :
  tracks keys ms docs -> docs !! id = None -> keys_of id doc ks ->
  tracks keys (ms ++ map Put ks) (<[id := doc]> docs).
Proof.
  intros [Ha Hd Hm] Hnone Hks. destruct (fold_puts ks (log_overlay ms)) as [H1 H2]. constructor.
  - intros i k k' Hi. rewrite log_overlay_app, !H1, !H2. intros [_ Hk] Hdk Hin Hdk'.
    destruct (decide (k' ∈ ks)); [tauto|]. destruct (Ha i k k'); tauto.
  - intros i d [[<- <-]|[_ Hid]]%lookup_insert_Some; [by exists ks|by eapply Hd].
  - intros k. unfold merged. rewrite log_overlay_app, H1, H2.
    transitivity (k ∈ ks \/ merged keys ms k).
    { unfold merged. destruct (decide (k ∈ ks)); tauto. }
    rewrite Hm. split.
    + intros [Hk|(i & d & ks' & Hi & Hk')].
      * exists id, doc, ks. by rewrite lookup_insert_eq.
      * exists i, d, ks'. rewrite lookup_insert_ne; [done|]. intros ->. congruence.
    + intros (i & d & ks' & [[<- <-]|[_ Hi]]%lookup_insert_Some & Hk' & Hin).
      * left. by rewrite (keys_of_fun id doc ks ks').
      * right. by exists i, d, ks'.
Qed.

Lemma tracks_remove keys ms docs id doc ks :
  tracks keys ms docs -> docs !! id = Some doc -> keys_of id doc ks ->
  tracks keys (ms ++ map Del ks) (delete id docs).
Proof.
  intros [Ha Hd Hm] Hsome Hks. destruct (fold_dels ks (log_overlay ms)) as [H1 H2].
  assert (forall i k', TTID.is_ttid i = true -> (exists k, k ∈ ks /\ doc_key i k) -> merged keys ms k' ->
    doc_key i k' -> k' ∈ ks) as Hown.
  { intros i k' Hi (k & Hk & Hdk) (i' & d' & ks' & Hd' & Hks' & Hin)%Hm Hdk'.
    pose proof Hks as (Hid & _ & Hf). pose proof Hks' as (Hi' & _ & Hf'). rewrite Forall_forall in Hf, Hf'.
    assert (i = id) as -> by (eapply doc_key_inj; [done|done|exact Hdk|by apply Hf]).
    assert (i' = id) as -> by (eapply doc_key_inj; [done|done|by apply Hf'|exact Hdk']).
    assert (d' = doc) as -> by congruence. by rewrite (keys_of_fun id doc ks ks'). }
  constructor.
  - intros i k k' Hi. rewrite log_overlay_app, !H1, !H2. intros Hk Hdk Hin Hdk'.
    destruct (decide (k' ∈ ks)) as [|Hnk]; [tauto|].
    destruct Hk as [Hk|Hk]; [|destruct (Ha i k k'); tauto].
    destruct (decide (k' ∈ removed (log_overlay ms))) as [|Hnr]; [tauto|].
    exfalso. apply Hnk. eapply Hown; [done|by exists k|by left|done].
  - intros i d [_ Hi]%lookup_delete_Some. by eapply Hd.
  - intros k. unfold merged. rewrite log_overlay_app, H1, H2.
    transitivity (k ∉ ks /\ merged keys ms k); [unfold merged; tauto|].
    rewrite Hm. split.
    + intros [Hk (i & d & ks' & Hi & Hk' & Hin)]. exists i, d, ks'. split; [|done].
      apply lookup_delete_Some. split; [|done]. intros ->. assert (d = doc) as -> by congruence.
      rewrite (keys_of_fun i doc ks ks') in Hk; done.
    + intros (i & d & ks' & [Hne Hi]%lookup_delete_Some & Hk' & Hin). split; [|by exists i, d, ks'].
      intros Hk. apply Hne. by eapply (keys_of_owner id i doc d ks ks' k).
Qed.

(** Folding the log into the snapshot. *)
Lemma tracks_compact keys ms docs keys' :
  tracks keys ms docs -> (forall k, k ∈ keys' <-> merged keys ms k) -> tracks keys' [] docs.
Proof.
  intros [Ha Hd Hm] Hk. constructor; [|done|].
  - intros i k k' _ H. by apply elem_of_nil in H.
  - intros k. unfold merged. cbn. rewrite elem_of_nil, <- Hm, <- Hk. split; [by intros [[? _]|?]|].
    intros ?. left. split; [done|]. by intros ?.
Qed.

End Tracks.

(** ** On disk *)

Section OnDisk.
  Context {D : Type} `{FilesystemLaws D}.
  Context (rootForCollection : jstr -> outcome jstr) (c : jstr) (rc : path).
  (** The collection's root is a normal absolute path. *)
  Hypothesis root_of_c : rootForCollection c = Ok (Path.abs_path rc).
  Hypothesis root_clean : Forall Path.clean rc.

Definition index_dir : path := rc ++ [js "index"].
Definition manifest_at : path := index_dir ++ [LOCAL_FS_MANIFEST].
Definition snapshot_at : path := index_dir ++ [LOCAL_FS_SNAPSHOT].
Definition wal_at : path := index_dir ++ [LOCAL_FS_WAL].

Lemma index_clean : Forall Path.clean index_dir.
Proof. unfold index_dir. rewrite Forall_app, Forall_singleton. split; [done|]. by apply (bool_decide_unpack _). Qed.

Lemma file_clean f : f ∈ [LOCAL_FS_MANIFEST; LOCAL_FS_SNAPSHOT; LOCAL_FS_WAL] -> Forall Path.clean (index_dir ++ [f]).
Proof.
  intros Hf. rewrite Forall_app, Forall_singleton. split; [apply index_clean|].
  apply (bool_decide_unpack _). rewrite !elem_of_cons in Hf. destruct Hf as [->|[->|[->|Hf]]]; [done..|].
  by apply elem_of_nil in Hf.
Qed.

Lemma root_eq : root rootForCollection c = Ok (Path.abs_path index_dir).
Proof.
  unfold root. rewrite root_of_c. cbn [mbind outcome_bind]. rewrite Path.join_clean; [done|done|].
  rewrite Forall_singleton. by apply (bool_decide_unpack _).
Qed.

Lemma file_eq f : f ∈ [LOCAL_FS_MANIFEST; LOCAL_FS_SNAPSHOT; LOCAL_FS_WAL] ->
  Path.join_strings [Path.abs_path index_dir; f] = Path.abs_path (index_dir ++ [f]).
Proof.
  intros Hf. rewrite Path.join_clean; [done|apply index_clean|]. pose proof (file_clean f Hf) as Hc.
  by apply Forall_app in Hc as [_ ?].
Qed.

Lemma manifestPath_eq : manifestPath rootForCollection c = Ok (Path.abs_path manifest_at).
Proof. unfold manifestPath. rewrite root_eq. cbn [mbind outcome_bind]. rewrite file_eq; [done|set_solver]. Qed.
Lemma snapshotPath_eq : snapshotPath rootForCollection c = Ok (Path.abs_path snapshot_at).
Proof. unfold snapshotPath. rewrite root_eq. cbn [mbind outcome_bind]. rewrite file_eq; [done|set_solver]. Qed.
Lemma walPath_eq : walPath rootForCollection c = Ok (Path.abs_path wal_at).
Proof. unfold walPath. rewrite root_eq. cbn [mbind outcome_bind]. rewrite file_eq; [done|set_solver]. Qed.

Lemma manifest_clean : Forall Path.clean manifest_at. Proof. apply file_clean. set_solver. Qed.
Lemma snapshot_clean : Forall Path.clean snapshot_at. Proof. apply file_clean. set_solver. Qed.
Lemma wal_clean : Forall Path.clean wal_at. Proof. apply file_clean. set_solver. Qed.

Lemma files_differ : manifest_at <> snapshot_at /\ manifest_at <> wal_at /\ snapshot_at <> wal_at.
Proof.
  unfold manifest_at, snapshot_at, wal_at.
  split_and!; intros [_ E]%app_inj_tail; by apply (bool_decide_unpack (_ <> _)) in E || discriminate E.
Qed.

(** Two trees that agree outside the index's directory. *)
Definition same_outside (d d' : D) : Prop :=
  forall q, Forall Path.clean q -> ~ index_dir `prefix_of` q -> look d' q = look d q.
Definition same_tree (d d' : D) : Prop := forall q, Forall Path.clean q -> look d' q = look d q.

Lemma same_outside_refl d : same_outside d d.
Proof. by intros q. Qed.
Lemma same_outside_trans d1 d2 d3 : same_outside d1 d2 -> same_outside d2 d3 -> same_outside d1 d3.
Proof. intros H1' H2' q Hc Hq. by rewrite H2', H1'. Qed.
Lemma same_tree_outside d d' : same_tree d d' -> same_outside d d'.
Proof. intros Hs q Hc _. by apply Hs. Qed.

Lemma under_index x : index_dir `prefix_of` index_dir ++ [x].
Proof. by exists [x]. Qed.

(** The three files and their directory are there. *)
Record files_there (d : D) (snapshot wal : list N) : Prop := {
  there_wf : wf d;
  there_dir : look d index_dir = Some Dir;
  there_manifest : exists b, look d manifest_at = Some (File b);
  there_snapshot : look d snapshot_at = Some (File snapshot);
  there_wal : look d wal_at = Some (File wal)
}.

Lemma files_there_same d d' sn w : files_there d sn w -> wf d' -> same_tree d d' -> files_there d' sn w.
Proof.
  intros [Hw Hd [b Hm] Hs Hwal] Hw' Hsame. constructor; [done|..].
  - by rewrite Hsame by apply index_clean.
  - exists b. by rewrite Hsame by apply manifest_clean.
  - by rewrite Hsame by apply snapshot_clean.
  - by rewrite Hsame by apply wal_clean.
Qed.

Lemma writeIfMissing_there d p b data : wf d -> Forall Path.clean p -> look d p = Some (File b) ->
  writeIfMissing (Path.abs_path p) data d = (Ok (), d).
Proof.
  intros Hw Hc Hl. unfold writeIfMissing. rewrite (M_bind_ok _ _ _ _ _ (law_exists d p Hw Hc)).
  rewrite Hl. by rewrite bool_decide_true by by eexists.
Qed.

(** Ensuring an index that is there changes no file. *)
Lemma ensureCollection_there d sn w :
  files_there d sn w ->
  exists d', ensureCollection rootForCollection c d = (Ok (), d') /\ files_there d' sn w /\ same_tree d d'.
Proof.
  intros Hf. pose proof Hf as [Hw Hd [b Hm] Hs Hwal].
  destruct (mkdir_there d index_dir) as (d1 & Hrun1 & Hw1 & Hl1); [done|apply index_clean|by intros [_ ?]%app_eq_nil|done|].
  destruct (law_now d1 Hw1) as (t & d2 & Hrun2 & Hw2 & Hl2).
  assert (same_tree d d2) as Hsame by (intros q Hq; rewrite Hl2; by apply Hl1).
  pose proof (files_there_same d d2 sn w Hf Hw2 Hsame) as Hf2. exists d2. split_and!; [|done|done].
  destruct Hf2 as [_ Hd2 [b2 Hm2] Hs2 Hwal2]. unfold ensureCollection.
  rewrite root_eq. run_pure. run Hrun1. rewrite manifestPath_eq. run_pure. run Hrun2.
  run (writeIfMissing_there d2 manifest_at b2 _ Hw2 manifest_clean Hm2). rewrite snapshotPath_eq. run_pure.
  run (writeIfMissing_there d2 snapshot_at sn _ Hw2 snapshot_clean Hs2). rewrite walPath_eq. run_pure.
  apply (writeIfMissing_there d2 wal_at w _ Hw2 wal_clean Hwal2).
Qed.

(** Ensuring an index that is not there makes its directory and empty files. *)
Lemma writeIfMissing_fresh d f data : f ∈ [LOCAL_FS_MANIFEST; LOCAL_FS_SNAPSHOT; LOCAL_FS_WAL] ->
  wf d -> look d index_dir = Some Dir -> look d (index_dir ++ [f]) = None ->
  exists d', writeIfMissing (Path.abs_path (index_dir ++ [f])) data d = (Ok (), d') /\ wf d' /\
    forall q, Forall Path.clean q -> look d' q = if decide (q = index_dir ++ [f]) then Some (File (encode data)) else look d q.
Proof.
  intros Hf Hw Hd Hnone. pose proof (file_clean f Hf) as Hc.
  destruct (write_in d index_dir f data Hw Hc Hd) as (d' & Hrun & Hw' & Hl); [congruence|].
  exists d'. split_and!; [|done|done]. unfold writeIfMissing. run (law_exists d _ Hw Hc).
  rewrite Hnone, bool_decide_false by (by intros [? ?]). exact Hrun.
Qed.

Lemma ensureCollection_fresh d : wf d -> look d rc = Some Dir -> look d index_dir = None ->
  exists d', ensureCollection rootForCollection c d = (Ok (), d') /\
    files_there d' (encode (serializeSnapshot [])) (encode (serializeWal [])) /\ same_outside d d'.
Proof.
  intros Hw Hrc Hnone. pose proof index_clean as Hic. unfold index_dir in Hic.
  destruct (mkdir_in d rc (js "index") Hw Hic Hrc) as (d1 & Hrun1 & Hw1 & Hl1); [by fold index_dir; rewrite Hnone|].
  fold index_dir in Hic, Hrun1, Hl1.
  destruct (law_now d1 Hw1) as (t & d2 & Hrun2 & Hw2 & Hl2).
  assert (forall f, f ∈ [LOCAL_FS_MANIFEST; LOCAL_FS_SNAPSHOT; LOCAL_FS_WAL] -> look d2 (index_dir ++ [f]) = None) as Habs.
  { intros f Hf. rewrite Hl2, Hl1 by by apply file_clean. rewrite decide_False by (intros E; symmetry in E; by apply app_not_self in E).
    destruct (look d (index_dir ++ [f])) eqn:E; [|done]. rewrite (look_parent d index_dir f) in Hnone; [done|done|by apply file_clean|by eexists]. }
  assert (look d2 index_dir = Some Dir) as Hd2 by (rewrite Hl2, Hl1, decide_True; done).
  destruct files_differ as (Hms & Hmw & Hsw).
  destruct (writeIfMissing_fresh d2 LOCAL_FS_MANIFEST (manifest_text t)) as (d3 & Hrun3 & Hw3 & Hl3); [set_solver|done|done|apply Habs; set_solver|].
  fold manifest_at in Hrun3, Hl3.
  assert (look d3 index_dir = Some Dir) as Hd3.
  { rewrite Hl3 by done. rewrite decide_False; [done|]. unfold manifest_at. by intros E%app_not_self. }
  destruct (writeIfMissing_fresh d3 LOCAL_FS_SNAPSHOT []) as (d4 & Hrun4 & Hw4 & Hl4); [set_solver|done|done| |].
  { rewrite Hl3 by (apply file_clean; set_solver). rewrite decide_False by by apply not_eq_sym. apply Habs. set_solver. }
  fold snapshot_at in Hrun4, Hl4.
  assert (look d4 index_dir = Some Dir) as Hd4.
  { rewrite Hl4 by done. rewrite decide_False; [done|]. unfold snapshot_at. by intros E%app_not_self. }
  destruct (writeIfMissing_fresh d4 LOCAL_FS_WAL []) as (d5 & Hrun5 & Hw5 & Hl5); [set_solver|done|done| |].
  { rewrite Hl4, decide_False, Hl3, decide_False; [apply Habs; set_solver|by apply not_eq_sym|apply file_clean; set_solver|by apply not_eq_sym|apply file_clean; set_solver]. }
  fold wal_at in Hrun5, Hl5. exists d5. split_and!.
  - unfold ensureCollection. rewrite root_eq. run_pure. run Hrun1. rewrite manifestPath_eq. run_pure. run Hrun2.
    run Hrun3. rewrite snapshotPath_eq. run_pure. run Hrun4. rewrite walPath_eq. run_pure. exact Hrun5.
  - pose proof manifest_clean. pose proof snapshot_clean. pose proof wal_clean. constructor; [done|..].
    + rewrite Hl5 by done. rewrite decide_False; [done|]. unfold wal_at. by intros E%app_not_self.
    + exists (encode (manifest_text t)). rewrite Hl5, decide_False, Hl4, decide_False, Hl3, decide_True by done. done.
    + rewrite Hl5, decide_False, Hl4, decide_True by done. done.
    + rewrite Hl5, decide_True by done. done.
  - intros q Hq Hni. assert (forall f, q <> index_dir ++ [f]) as Hne by (intros f ->; apply Hni, under_index).
    rewrite Hl5, decide_False, Hl4, decide_False, Hl3, decide_False, Hl2, Hl1, decide_False; try done; try apply Hne.
    intros ->. by apply Hni.
Qed.

(** ** The state *)

(** The files hold the snapshot [keys] and the log [ms]; the caches agree with them. *)
Record stored (s : index_state D) (keys : list jstr) (ms : list mutation) : Prop := {
  stored_files : files_there (index_disk s) (encode (serializeSnapshot keys)) (encode (serializeWal ms));
  stored_sorted : Sorted jle keys;
  stored_keys : Forall owned keys;
  stored_log : Forall (fun m => owned (mutation_key m)) ms;
  stored_snapshot n b : snapshotCache s !! c = Some (n, b) -> b = encode (serializeSnapshot keys);
  stored_overlay o : walOverlayCache s !! c = Some o -> o = log_overlay ms
}.

Lemma owned_keys keys : Forall owned keys -> Forall (fun k => index_key k = true) keys.
Proof. intros Hk. eapply Forall_impl; [exact Hk|]. apply owned_index_key. Qed.
Lemma owned_log ms : Forall (fun m => owned (mutation_key m)) ms -> Forall (fun m => index_key (mutation_key m) = true) ms.
Proof. intros Hk. eapply Forall_impl; [exact Hk|]. intros m. apply owned_index_key. Qed.

Lemma index_ascii k : index_key k = true -> ascii k = true.
Proof. by intros (_ & _ & ? & _)%index_key_facts. Qed.

Lemma snapshot_ascii keys : Forall owned keys -> ascii (serializeSnapshot keys) = true.
Proof.
  intros Hk%owned_keys. rewrite serializeSnapshot_lines. induction Hk as [|k keys Hk _ IH]; [done|].
  change (lines_text (k :: keys)) with ((k ++ [newline]) ++ lines_text keys).
  by rewrite !ascii_app, IH, (index_ascii k Hk).
Qed.

Lemma wal_ascii ms : Forall (fun m => owned (mutation_key m)) ms -> ascii (serializeWal ms) = true.
Proof.
  intros Hk%owned_log. unfold serializeWal. induction Hk as [|m ms Hm _ IH]; [done|]. cbn [map concat].
  rewrite ascii_app, IH, andb_true_r, mutation_line_eq, line_of_eq, !ascii_app, (index_ascii _ Hm). by destruct m.
Qed.

(** Changing only the disk, for one that agrees on the files. *)
Lemma stored_set_disk s keys ms d :
  stored s keys ms -> files_there d (encode (serializeSnapshot keys)) (encode (serializeWal ms)) ->
  stored (set_disk d s) keys ms.
Proof. intros [? ? ? ? ? ?] ?. by constructor. Qed.

Lemma on_disk_ok {A} (m : M D A) (s : index_state D) a d : m (index_disk s) = (Ok a, d) -> on_disk m s = (Ok a, set_disk d s).
Proof. intros Hm. unfold on_disk. by rewrite Hm. Qed.

Lemma set_disk_id (s : index_state D) : set_disk (index_disk s) s = s.
Proof. by destruct s. Qed.

Lemma on_disk_read {A} (m : M D A) (s : index_state D) a : m (index_disk s) = (Ok a, index_disk s) -> on_disk m s = (Ok a, s).
Proof. intros Hm. rewrite (on_disk_ok m s a _ Hm). by rewrite set_disk_id. Qed.

Lemma ensure_stored s keys ms : stored s keys ms ->
  exists s', on_disk (ensureCollection rootForCollection c) s = (Ok (), s') /\ stored s' keys ms /\
    same_tree (index_disk s) (index_disk s') /\ walOverlayCache s' = walOverlayCache s /\
    snapshotCache s' = snapshotCache s.
Proof.
  intros Hs. destruct (ensureCollection_there _ _ _ (stored_files _ _ _ Hs)) as (d' & Hrun & Hf & Hsame).
  exists (set_disk d' s). split_and!; [by apply on_disk_ok|by apply stored_set_disk|done|done|done].
Qed.

Lemma read_snapshot_stored s keys ms : stored s keys ms ->
  exists n s', readSnapshotBytes rootForCollection c s = (Ok (n, encode (serializeSnapshot keys)), s') /\
    stored s' keys ms /\ index_disk s' = index_disk s.
Proof.
  intros Hs. pose proof (stored_files _ _ _ Hs) as [Hw _ _ Hsn _]. unfold readSnapshotBytes.
  run_pure. destruct (snapshotCache s !! c) as [[n b]|] eqn:Hc.
  { exists n, s. rewrite (stored_snapshot _ _ _ Hs n b Hc) at 1. by split_and!. }
  rewrite snapshotPath_eq. run_pure. run (on_disk_read _ _ _ (law_exists _ _ Hw snapshot_clean)).
  rewrite Hsn, bool_decide_true by by eexists.
  run (on_disk_read _ _ _ (law_readBytes _ _ _ Hw snapshot_clean Hsn)). run_pure.
  eexists _, _. split_and!; [reflexivity| |done]. destruct Hs as [Hf Hso Hk Hl Hsc Hov]. constructor; try done.
  cbn [snapshotCache set_snapshot set_metrics]. intros n b Hn.
  rewrite lookup_partial_alter_eq in Hn. by injection Hn as _ <-.
Qed.

Lemma overlay_stored s keys ms : stored s keys ms ->
  exists s', loadWalOverlay rootForCollection c s = (Ok (log_overlay ms), s') /\ stored s' keys ms /\
    index_disk s' = index_disk s.
Proof.
  intros Hs. pose proof (stored_files _ _ _ Hs) as [Hw _ _ _ Hwal]. unfold loadWalOverlay.
  run_pure. destruct (walOverlayCache s !! c) as [o|] eqn:Hc.
  { exists s. rewrite (stored_overlay _ _ _ Hs o Hc) at 1. by split_and!. }
  rewrite walPath_eq. run_pure.
  pose proof (wal_ascii ms (stored_log _ _ _ Hs)) as Ha.
  assert (readTextIfExists (Path.abs_path wal_at) (index_disk s) = (Ok (serializeWal ms), index_disk s)) as Hread.
  { unfold readTextIfExists. rewrite (M_bind_ok _ _ _ _ _ (law_exists _ _ Hw wal_clean)).
    rewrite Hwal, bool_decide_true by by eexists. cbn [negb]. rewrite (law_readText _ _ _ Hw wal_clean Hwal).
    by rewrite (encode_ascii _ Ha), (decode_ascii _ Ha). }
  run (on_disk_read _ _ _ Hread). run_pure.
  rewrite (completeLines_wal ms (owned_log ms (stored_log _ _ _ Hs))).
  rewrite (overlay_of_lines ms (owned_log ms (stored_log _ _ _ Hs))).
  eexists. split_and!; [reflexivity| |done]. destruct Hs as [Hf Hso Hk Hl Hsc Hov]. constructor; try done.
  cbn [walOverlayCache set_overlay set_metrics]. intros o Ho.
  rewrite lookup_partial_alter_eq in Ho. by injection Ho as <-.
Qed.

Lemma NoDup_replay lines l : NoDup l -> NoDup (fold_left apply_mutation lines l).
Proof.
  revert l. induction lines as [|x lines IH]; intros l Hl; [done|]. cbn [fold_left]. apply IH.
  unfold apply_mutation. destruct (parseWalMutation x) as [[k|k]|]; [by apply NoDup_set_add|by apply NoDup_set_delete|done].
Qed.

Lemma wal_text_read s keys ms : stored s keys ms ->
  readTextIfExists (Path.abs_path wal_at) (index_disk s) = (Ok (serializeWal ms), index_disk s).
Proof.
  intros Hs. pose proof (stored_files _ _ _ Hs) as [Hw _ _ _ Hwal].
  pose proof (wal_ascii ms (stored_log _ _ _ Hs)) as Ha.
  unfold readTextIfExists. run (law_exists _ _ Hw wal_clean).
  rewrite Hwal, bool_decide_true by by eexists. cbn [negb]. rewrite (law_readText _ _ _ Hw wal_clean Hwal).
  by rewrite (encode_ascii _ Ha), (decode_ascii _ Ha).
Qed.

Lemma load_stored s keys ms : stored s keys ms ->
  exists L s', loadKeySet rootForCollection c s = (Ok L, s') /\ stored s' keys ms /\
    same_tree (index_disk s) (index_disk s') /\ NoDup L /\ forall k, k ∈ L <-> merged keys ms k.
Proof.
  intros Hs. destruct (ensure_stored s keys ms Hs) as (s1 & Hrun1 & Hs1 & Hsame & _).
  destruct (read_snapshot_stored s1 keys ms Hs1) as (n & s2 & Hrun2 & Hs2 & Hd2).
  unfold loadKeySet. run Hrun1. run Hrun2. rewrite walPath_eq. run_pure. cbn [snd].
  run (on_disk_read _ _ _ (wal_text_read s2 keys ms Hs2)). eexists _, s2.
  pose proof (stored_keys _ _ _ Hs) as Hk. pose proof (snapshot_ascii keys Hk) as Ha.
  rewrite (encode_ascii _ Ha), (decode_ascii _ Ha), (completeLines_snapshot keys (owned_keys keys Hk)).
  rewrite (completeLines_wal ms (owned_log ms (stored_log _ _ _ Hs))).
  destruct (set_of_spec keys) as [Hset Hnd]. split_and!; [reflexivity|done|by rewrite Hd2|by apply NoDup_replay|].
  intros k. rewrite replay_merged by by apply owned_log, (stored_log _ _ _ Hs). unfold merged. by rewrite Hset.
Qed.

(** Writing one of the three files. *)
Lemma write_file d sn w f data : f ∈ [LOCAL_FS_MANIFEST; LOCAL_FS_SNAPSHOT; LOCAL_FS_WAL] ->
  files_there d sn w ->
  exists d', writeText (Path.abs_path (index_dir ++ [f])) data d = (Ok (), d') /\ wf d' /\
    forall q, Forall Path.clean q -> look d' q = if decide (q = index_dir ++ [f]) then Some (File (encode data)) else look d q.
Proof.
  intros Hf [Hw Hd [b Hm] Hs Hwal]. apply write_in; [done|by apply file_clean|done|].
  rewrite !elem_of_cons in Hf. destruct Hf as [->|[->|[->|?%elem_of_nil]]]; [..|done];
    fold manifest_at snapshot_at wal_at; congruence.
Qed.

Lemma write_snapshot d sn w data : files_there d sn w ->
  exists d', writeText (Path.abs_path snapshot_at) data d = (Ok (), d') /\ files_there d' (encode data) w /\ same_outside d d'.
Proof.
  intros Hf. destruct (write_file d sn w LOCAL_FS_SNAPSHOT data) as (d' & Hrun & Hw' & Hl); [set_solver|done|].
  exists d'. destruct files_differ as (Hms & Hmw & Hsw). destruct Hf as [Hw Hd [b Hm] Hs Hwal].
  fold snapshot_at in Hrun, Hl. split_and!; [done| |].
  - constructor; [done|..].
    + rewrite Hl by apply index_clean. rewrite decide_False; [done|]. unfold snapshot_at. by intros E%app_not_self.
    + exists b. rewrite Hl by apply manifest_clean. by rewrite decide_False.
    + rewrite Hl by apply snapshot_clean. by rewrite decide_True.
    + rewrite Hl by apply wal_clean. rewrite decide_False; [done|]. by apply not_eq_sym.
  - intros q Hq Hni. rewrite Hl by done. rewrite decide_False; [done|]. intros ->. apply Hni, under_index.
Qed.

Lemma write_wal d sn w data : files_there d sn w ->
  exists d', writeText (Path.abs_path wal_at) data d = (Ok (), d') /\ files_there d' sn (encode data) /\ same_outside d d'.
Proof.
  intros Hf. destruct (write_file d sn w LOCAL_FS_WAL data) as (d' & Hrun & Hw' & Hl); [set_solver|done|].
  exists d'. destruct files_differ as (Hms & Hmw & Hsw). destruct Hf as [Hw Hd [b Hm] Hs Hwal].
  fold wal_at in Hrun, Hl. split_and!; [done| |].
  - constructor; [done|..].
    + rewrite Hl by apply index_clean. rewrite decide_False; [done|]. unfold wal_at. by intros E%app_not_self.
    + exists b. rewrite Hl by apply manifest_clean. by rewrite decide_False.
    + rewrite Hl by apply snapshot_clean. by rewrite decide_False.
    + rewrite Hl by apply wal_clean. by rewrite decide_True.
  - intros q Hq Hni. rewrite Hl by done. rewrite decide_False; [done|]. intros ->. apply Hni, under_index.
Qed.

Lemma compact_stored s keys ms : stored s keys ms ->
  exists s' keys', compact rootForCollection c s = (Ok (), s') /\ stored s' keys' [] /\
    (forall k, k ∈ keys' <-> merged keys ms k) /\ same_outside (index_disk s) (index_disk s').
Proof.
  intros Hs. destruct (load_stored s keys ms Hs) as (L & s1 & Hrun1 & Hs1 & Hsame & _ & HL).
  destruct (write_snapshot _ _ _ (serializeSnapshot (sort_strings L)) (stored_files _ _ _ Hs1)) as (d2 & Hrun2 & Hf2 & Ho2).
  destruct (write_wal _ _ _ [] Hf2) as (d3 & Hrun3 & Hf3 & Ho3).
  assert (forall k, k ∈ sort_strings L <-> merged keys ms k) as Hk by (intros k; by rewrite sort_strings_perm).
  unfold compact. run Hrun1. rewrite snapshotPath_eq. run_pure. run (on_disk_ok _ s1 _ _ Hrun2).
  rewrite walPath_eq. run_pure. run (on_disk_ok _ (set_disk d2 s1) _ _ Hrun3).
  eexists _, (sort_strings L). split_and!; [reflexivity| |done|].
  - constructor.
    + exact Hf3.
    + apply sort_strings_sorted.
    + apply Forall_forall. intros k Hin. eapply merged_owned; [apply Hs|apply Hs|by apply Hk].
    + constructor.
    + cbn [snapshotCache set_overlay set_scanners set_snapshot set_disk]. intros n b Hn.
      by rewrite lookup_partial_alter_eq in Hn.
    + cbn [walOverlayCache set_overlay set_scanners set_snapshot set_disk]. intros o Ho.
      rewrite lookup_partial_alter_eq in Ho. by injection Ho as <-.
  - eapply same_outside_trans; [by apply same_tree_outside|]. by eapply same_outside_trans.
Qed.

Lemma serializeWal_app a b : serializeWal (a ++ b) = serializeWal a ++ serializeWal b.
Proof. unfold serializeWal. by rewrite map_app, concat_app. Qed.

(** The outcome of an append: the log is longer, or folded into the snapshot. *)
Definition appended (keys : list jstr) (ms : list mutation) (keys' : list jstr) (ms' : list mutation) : Prop :=
  (keys' = keys /\ ms' = ms) \/ (ms' = [] /\ forall k, k ∈ keys' <-> merged keys ms k).

Lemma compactIfNeeded_stored s keys ms : stored s keys ms ->
  exists s' keys' ms', compactIfNeeded rootForCollection c s = (Ok (), s') /\ stored s' keys' ms' /\
    appended keys ms keys' ms' /\ same_outside (index_disk s) (index_disk s').
Proof.
  intros Hs. pose proof (stored_files _ _ _ Hs) as [Hw _ _ _ Hwal]. unfold compactIfNeeded. rewrite walPath_eq. run_pure.
  run (on_disk_read _ s _ (law_exists _ _ Hw wal_clean)). rewrite Hwal, bool_decide_true by by eexists. cbn [negb].
  run (on_disk_read _ s _ (law_readText _ _ _ Hw wal_clean Hwal)).
  destruct (_ <? _)%N.
  - exists s, keys, ms. split_and!; [done|done|by left|apply same_outside_refl].
  - destruct (compact_stored s keys ms Hs) as (s' & keys' & Hrun & Hs' & Hk & Ho).
    exists s', keys', []. split_and!; [done|done|by right|done].
Qed.

Lemma append_stored s keys ms ms' : stored s keys ms -> Forall (fun m => owned (mutation_key m)) ms' ->
  exists s' keys' log, appendMutations rootForCollection c ms' s = (Ok (), s') /\ stored s' keys' log /\
    appended keys (ms ++ ms') keys' log /\ same_outside (index_disk s) (index_disk s').
Proof.
  intros Hs Hms. unfold appendMutations. destruct (decide (ms' = [])) as [->|Hne].
  { exists s, keys, ms. rewrite app_nil_r. split_and!; [done|done|by left|apply same_outside_refl]. }
  assert (forall A (x y : A), match ms' with [] => x | _ => y end = y) as Hmatch by (intros; by destruct ms').
  rewrite Hmatch. clear Hmatch.
  destruct (ensure_stored s keys ms Hs) as (s1 & Hrun1 & Hs1 & Hsame & _).
  pose proof (stored_files _ _ _ Hs1) as [Hw Hd [b Hm] Hsn Hwal].
  destruct (append_in (index_disk s1) index_dir LOCAL_FS_WAL (serializeWal ms') _ Hw wal_clean Hd Hwal)
    as (d2 & Hrun2 & Hw2 & Hl). fold wal_at in Hrun2, Hl.
  run Hrun1. rewrite walPath_eq. run_pure. run (on_disk_ok _ s1 _ _ Hrun2). run_pure.
  set (s2 := match walOverlayCache (set_disk d2 s1) !! c with
             | Some o => set_overlay c (Some (fold_left overlay_step ms' o)) (set_disk d2 s1)
             | None => set_disk d2 s1 end).
  pose proof (stored_log _ _ _ Hs) as Hlog.
  destruct files_differ as (Hnms & Hnmw & Hnsw).
  assert (stored s2 keys (ms ++ ms')) as Hs2.
  { assert (files_there d2 (encode (serializeSnapshot keys)) (encode (serializeWal (ms ++ ms')))) as Hf2.
    { constructor; [done|..].
      - rewrite Hl by apply index_clean. rewrite decide_False; [done|]. unfold wal_at. by intros E%app_not_self.
      - exists b. rewrite Hl by apply manifest_clean. by rewrite decide_False.
      - rewrite Hl by apply snapshot_clean. by rewrite decide_False.
      - rewrite Hl by apply wal_clean. rewrite decide_True by done. do 2 f_equal.
        assert (Forall (fun m => owned (mutation_key m)) (ms ++ ms')) as Hall by by apply Forall_app.
        rewrite !encode_ascii by (by apply wal_ascii). by rewrite serializeWal_app. }
    assert (index_disk s2 = d2 /\ snapshotCache s2 = snapshotCache s1) as [Hd2 Hsc2].
    { unfold s2. by destruct (walOverlayCache _ !! c). }
    constructor.
    - by rewrite Hd2.
    - apply Hs.
    - apply Hs.
    - by apply Forall_app.
    - rewrite Hsc2. apply Hs1.
    - intros o. unfold s2. destruct (walOverlayCache (set_disk d2 s1) !! c) as [o'|] eqn:E.
      + cbn [walOverlayCache set_overlay]. rewrite lookup_partial_alter_eq. intros [= <-].
        cbn [walOverlayCache set_disk] in E. apply (stored_overlay _ _ _ Hs1) in E as ->. by rewrite log_overlay_app.
      + by rewrite E. }
  destruct (compactIfNeeded_stored s2 keys (ms ++ ms') Hs2) as (s' & keys' & log & Hrun & Hs' & Happ & Ho).
  exists s', keys', log. split_and!; [done|done|done|].
  eapply same_outside_trans; [by apply same_tree_outside|]. eapply same_outside_trans; [|exact Ho].
  assert (index_disk s2 = d2) as -> by (unfold s2; by destruct (walOverlayCache _ !! c)).
  intros q Hq Hni. rewrite Hl by done. rewrite decide_False; [done|]. intros ->. apply Hni, under_index.
Qed.

(** ** The refinement *)

Section Refinement.
  Context (sha256Hex : jstr -> jstr).

(** The index holds exactly these documents. *)
Definition indexes (s : index_state D) (docs : gmap jstr object) : Prop :=
  exists keys ms, stored s keys ms /\ tracks sha256Hex keys ms docs.

Lemma appended_tracks keys ms keys' ms' docs :
  appended keys ms keys' ms' -> tracks sha256Hex keys ms docs -> tracks sha256Hex keys' ms' docs.
Proof. intros [[-> ->]|[-> Hk]] Ht; [done|]. by apply (tracks_compact _ keys ms). Qed.

Lemma keys_owned id doc ks : keys_of sha256Hex id doc ks -> Forall owned ks.
Proof. intros (Hid & _ & Hf). eapply Forall_impl; [exact Hf|]. intros k Hk. by exists id. Qed.

Lemma putDocument_spec s docs id doc ks :
  indexes s docs -> docs !! id = None -> keys_of sha256Hex id doc ks ->
  exists s', putDocument sha256Hex rootForCollection c id doc s = (Ok (), s') /\
    indexes s' (<[id := doc]> docs) /\ same_outside (index_disk s) (index_disk s').
Proof.
  intros (keys & ms & Hs & Ht) Hnone Hks. pose proof Hks as (_ & He & _).
  assert (Forall (fun m => owned (mutation_key m)) (map Put ks)) as Hown by (apply Forall_map; by eapply keys_owned).
  destruct (append_stored s keys ms (map Put ks) Hs Hown) as (s' & keys' & log & Hrun & Hs' & Happ & Ho).
  exists s'. split_and!; [|exists keys', log; split; [done|]|done].
  - unfold putDocument. rewrite He. by run_pure.
  - eapply appended_tracks; [exact Happ|]. by apply tracks_put.
Qed.

Lemma removeDocument_spec s docs id doc ks :
  indexes s docs -> docs !! id = Some doc -> keys_of sha256Hex id doc ks ->
  exists s', removeDocument sha256Hex rootForCollection c id doc s = (Ok (), s') /\
    indexes s' (delete id docs) /\ same_outside (index_disk s) (index_disk s').
Proof.
  intros (keys & ms & Hs & Ht) Hsome Hks. pose proof Hks as (_ & He & _).
  assert (Forall (fun m => owned (mutation_key m)) (map Del ks)) as Hown by (apply Forall_map; by eapply keys_owned).
  destruct (append_stored s keys ms (map Del ks) Hs Hown) as (s' & keys' & log & Hrun & Hs' & Happ & Ho).
  exists s'. split_and!; [|exists keys', log; split; [done|]|done].
  - unfold removeDocument. rewrite He. by run_pure.
  - eapply appended_tracks; [exact Happ|]. by eapply tracks_remove.
Qed.

Lemma compact_spec s docs : indexes s docs ->
  exists s', compact rootForCollection c s = (Ok (), s') /\ indexes s' docs /\
    same_outside (index_disk s) (index_disk s').
Proof.
  intros (keys & ms & Hs & Ht). destruct (compact_stored s keys ms Hs) as (s' & keys' & Hrun & Hs' & Hk & Ho).
  exists s'. split_and!; [done|exists keys', []; split; [done|]|done]. by apply (tracks_compact _ keys ms).
Qed.

Lemma indexes_docs s docs id doc : indexes s docs -> docs !! id = Some doc -> exists ks, keys_of sha256Hex id doc ks.
Proof. intros (keys & ms & _ & [_ Hd _]) Hi. by eapply Hd. Qed.

(** A new index over the same files knows the same documents. *)
Lemma reopen_spec s docs : indexes s docs -> indexes (new_index (index_disk s)) docs.
Proof. intros (keys & ms & [Hf Hso Hk Hl _ _] & Ht). exists keys, ms. split; [by constructor|done]. Qed.

Lemma fresh_spec d : wf d -> look d rc = Some Dir -> look d index_dir = None ->
  exists d', ensureCollection rootForCollection c d = (Ok (), d') /\ indexes (new_index d') ∅ /\ same_outside d d'.
Proof.
  intros Hw Hrc Hnone. destruct (ensureCollection_fresh d Hw Hrc Hnone) as (d' & Hrun & Hf & Ho).
  exists d'. split_and!; [done| |done]. exists [], []. split; [by constructor|]. constructor; [|done|].
  - intros id k k' _ Hk. by apply elem_of_nil in Hk.
  - intros k. unfold merged. cbn. rewrite !elem_of_nil. split; [tauto|]. by intros (? & ? & ? & ? & _).
Qed.

End Refinement.
End OnDisk.

End Store.
