(* ===== verification/IndexQuery.v ===== *)
(** What the prefix index answers: [candidateDocIds] gives exactly the documents whose
    keys every planned prefix hits, with or without a scanner, so it never loses a
    document that satisfies the operand.  The whole index, run over any sequence of its
    operations, behaves as a map from identifiers to documents. *)

From stdpp Require Import gmap sets.
From S2P Require Import Prelude PathUtil JsNum JsValue Utf8 Json Shard Ttid Codec Filesystem MemFs.
From S2P Require Import MemFsLaws PrefixIndex IndexSearch IndexComplete IndexKeys IndexStore.

Module Answers.
Import Utf8 Codec PrefixIndex Search Complete Keys Store.

(** ** One prefix *)

Definition matches (full : jstr) (range : option (range_op * jstr)) (k : jstr) : bool :=
  starts_with full k && includeKeyInRange k range.

Definition owner (id k : jstr) : Prop := TTID.is_ttid id = true /\ doc_key id k.

Lemma owner_fun id id' k : owner id k -> owner id' k -> id = id'.
Proof. intros [] []. by eapply doc_key_inj. Qed.

(** The identifiers that own a matching key of [keys]. *)
Definition owners (full : jstr) (range : option (range_op * jstr)) (keys : list jstr) (id : jstr) : Prop :=
  exists k, k ∈ keys /\ matches full range k = true /\ owner id k.

Lemma owners_nil full range id : owners full range [] id <-> False.
Proof. split; [|done]. by intros (k & Hk%elem_of_nil & _). Qed.

Lemma owners_cons full range k keys id :
  owners full range (k :: keys) id <-> (matches full range k = true /\ owner id k) \/ owners full range keys id.
Proof.
  unfold owners. split.
  - intros (x & [->|Hx]%elem_of_cons & Hm & Ho); [by left|right; by exists x].
  - intros [[Hm Ho]|(x & Hx & Hm & Ho)]; [exists k|exists x]; rewrite elem_of_cons; auto.
Qed.

(** A prefix is the field path, the kind and the start of a value. *)
Definition root_of (path kind : jstr) : jstr := (path ++ [47%N] ++ kind) ++ [47%N].

Lemma prefix_eq p path kind v : encodeFieldPath p = Ok path ->
  prefix p kind v = Ok (root_of path kind ++ v).
Proof.
  intros Hp. unfold prefix. rewrite Hp. cbn [mbind outcome_bind]. f_equal. unfold root_of.
  rewrite !join_with_cons by done. cbn [join_with]. change (js "/") with [47%N]. by rewrite <- !app_assoc.
Qed.

Section Prefix.
  Context (path kind v : jstr) (range : option (range_op * jstr)).
Let rootPrefix := root_of path kind.
Let fullPrefix := root_of path kind ++ v.

Lemma id_of_match k id : matches fullPrefix range k = true -> owner id k -> docIdFromKey rootPrefix k = Ok id.
Proof.
  unfold matches, fullPrefix, rootPrefix, root_of. rewrite andb_true_iff. intros [[r ->]%starts_with_spec _] [Hid Hk].
  apply docIdFromKey_doc; [done|done|]. rewrite <- (app_assoc ((path ++ [47%N] ++ kind) ++ [47%N]) v r).
  apply starts_with_app.
Qed.

Lemma overlay_pass_step f k keys next :
  Forall owned (k :: keys) ->
  exists next', overlay_pass f fullPrefix rootPrefix range (k :: keys) next =
      overlay_pass f fullPrefix rootPrefix range keys next' /\
    ((matches fullPrefix range k = false /\ next' = next) \/
     (matches fullPrefix range k = true /\ exists id, owner id k /\ next' = f id next)).
Proof.
  intros (id & Hid & Hk)%Forall_inv. unfold overlay_pass. cbn [fold_outcome].
  destruct (matches fullPrefix range k) eqn:Hm.
  - rewrite (id_of_match k id Hm (conj Hid Hk)). unfold matches in Hm. apply andb_true_iff in Hm as [-> ->].
    exists (f id next). split; [done|]. right. split; [done|]. exists id. done.
  - exists next. split; [|by left]. unfold matches in Hm. by destruct (starts_with fullPrefix k), (includeKeyInRange k range).
Qed.

Lemma add_pass keys next : Forall owned keys ->
  exists out, overlay_pass set_add fullPrefix rootPrefix range keys next = Ok out /\
    forall id, id ∈ out <-> id ∈ next \/ owners fullPrefix range keys id.
Proof.
  intros H. revert next. induction keys as [|k keys IH]; intros next.
  { exists next. split; [done|]. intros id. rewrite owners_nil. tauto. }
  destruct (overlay_pass_step set_add k keys next H) as (next' & -> & Hn). apply Forall_inv_tail in H.
  destruct (IH H next') as (out & -> & Hout). exists out. split; [done|]. intros id. rewrite Hout, owners_cons.
  destruct Hn as [[Hm ->]|(Hm & i & Ho & ->)]; rewrite Hm.
  - split; [tauto|]. intros [?|[[? ?]|?]]; auto; done.
  - rewrite elem_of_set_add. split; [intros [[->|?]|?]; auto|].
    intros [?|[[_ ?]|?]]; auto. left. left. by eapply owner_fun.
Qed.

Lemma delete_pass keys next : Forall owned keys ->
  exists out, overlay_pass set_delete fullPrefix rootPrefix range keys next = Ok out /\
    forall id, id ∈ out <-> id ∈ next /\ ~ owners fullPrefix range keys id.
Proof.
  intros H. revert next. induction keys as [|k keys IH]; intros next.
  { exists next. split; [done|]. intros id. rewrite owners_nil. tauto. }
  destruct (overlay_pass_step set_delete k keys next H) as (next' & -> & Hn). apply Forall_inv_tail in H.
  destruct (IH H next') as (out & -> & Hout). exists out. split; [done|]. intros id. rewrite Hout, owners_cons.
  destruct Hn as [[Hm ->]|(Hm & i & Ho & ->)]; rewrite Hm.
  - split; [|tauto]. intros [? Hno]. split; [done|]. intros [[? ?]|?]; [done|by apply Hno].
  - rewrite elem_of_set_delete. split.
    + intros [[Hne Hin] Hno]. split; [done|]. intros [[_ Ho']|?]; [|by apply Hno]. by apply Hne, (owner_fun id i k).
    + intros [Hin Hno]. split; [split; [|done]|tauto]. intros ->. apply Hno. by left.
Qed.

(** The loop over the keys not before the prefix sees every key that matches. *)
Lemma scan_pass keys target :
  Forall owned keys -> StronglySorted jle keys -> Forall (fun k => jltb k fullPrefix = false) keys ->
  exists out, scan_keys keys fullPrefix rootPrefix range target = Ok out /\
    forall id, id ∈ out <-> id ∈ target \/ owners fullPrefix range keys id.
Proof.
  intros Ho Hs Hge. revert target. induction keys as [|k keys IH]; intros target.
  { exists target. split; [done|]. intros id. rewrite owners_nil. tauto. }
  inversion_clear Hs as [|? ? Hs' Hfk]. inversion_clear Ho as [|? ? (i & Hi & Hk) Ho'].
  inversion_clear Hge as [|? ? Hgk Hge']. cbn [scan_keys]. destruct (starts_with fullPrefix k) eqn:Hp; cbn [negb].
  - destruct (includeKeyInRange k range) eqn:Hr; cbn [negb].
    + assert (matches fullPrefix range k = true) as Hm by (unfold matches; by rewrite Hp, Hr).
      rewrite (id_of_match k i Hm (conj Hi Hk)). cbn [mbind outcome_bind].
      destruct (IH Ho' Hs' Hge' (set_add i target)) as (out & -> & Hout). exists out. split; [done|].
      intros id. rewrite Hout, owners_cons, elem_of_set_add, Hm. split; [intros [[->|?]|?]; auto|].
      * right. left. split; [done|]. done.
      * intros [?|[[_ ?]|?]]; auto. left. left. eapply owner_fun; [done|]. done.
    + destruct (IH Ho' Hs' Hge' target) as (out & -> & Hout). exists out. split; [done|].
      intros id. rewrite Hout, owners_cons. unfold matches. rewrite Hp, Hr. cbn [andb]. intuition congruence.
  - exists target. split; [done|]. intros id. split; [auto|]. intros [?|(z & Hx & Hm & _)]; [done|exfalso].
    unfold matches in Hm. apply andb_true_iff in Hm as [Hm _]. apply elem_of_cons in Hx as [->|Hx]; [congruence|].
    rewrite Forall_forall in Hfk. specialize (Hfk z Hx).
    rewrite (prefix_convex fullPrefix k z) in Hp; [done| |exact Hfk|exact Hm].
    unfold jltb in Hgk. by apply negb_false_iff in Hgk.
Qed.

Lemma scan_snapshot keys : Forall owned keys -> Sorted jle keys ->
  exists out, scanSnapshotWithJavaScript (encode (serializeSnapshot keys)) fullPrefix rootPrefix range [] = Ok out /\
    forall id, id ∈ out <-> owners fullPrefix range keys id.
Proof.
  intros Ho Hs. pose proof (owned_keys keys Ho) as Hk. unfold scanSnapshotWithJavaScript.
  rewrite (encode_ascii _ (snapshot_ascii keys Ho)), serializeSnapshot_lines.
  destruct (findFirst_spec keys fullPrefix Hk Hs) as (c & -> & Hlo & Hhi). rewrite stream_spec.
  2,3: eapply Forall_impl; [exact Hk|]; by intros k (? & ? & ? & _)%index_key_facts.
  apply Sorted_StronglySorted in Hs; [|exact jleb_trans].
  destruct (scan_pass (drop c keys) []) as (out & -> & Hout).
  - by apply Forall_drop.
  - rewrite <- (take_drop c keys) in Hs. by apply StronglySorted_app in Hs as (_ & _ & ?).
  - by apply Forall_forall.
  - exists out. split; [done|]. intros id. rewrite Hout, elem_of_nil. split.
    + intros [[]|(k & Hkd & Hm & Hok)]. exists k. split; [|done]. by eapply elem_of_subseteq, subseteq_drop.
    + intros (k & Hin & Hm & Hok). right. exists k. split; [|done].
      rewrite <- (take_drop c keys), elem_of_app in Hin. destruct Hin as [Hin|]; [exfalso|done].
      unfold matches in Hm. apply andb_true_iff in Hm as [Hm%jleb_prefix _].
      specialize (Hlo k Hin). unfold jltb in Hlo. by rewrite Hm in Hlo.
Qed.

End Prefix.
(** ** The scanner *)

(** What the code relies on of a scanner: if it answers, it names exactly the owners of
    the snapshot's matching keys.  It may fail at any call. *)
Definition scanner_honest (factory : scanner_factory) : Prop :=
  forall keys path kind v range l, Forall owned keys -> Sorted jle keys ->
    scan_queries factory (encode (serializeSnapshot keys)) (root_of path kind ++ v) range = Ok l ->
    Forall (fun id => TTID.is_ttid id = true) l /\ forall id, id ∈ l <-> owners (root_of path kind ++ v) range keys id.

(** A scanner that answers as the scan in JavaScript would, for the witnesses. *)
Lemma decode_ids l acc : Forall (fun id => TTID.is_ttid id = true) l ->
  exists out, fold_outcome (fun next encodedDocId =>
      docId ← decodeSegment encodedDocId;
      if TTID.is_ttid docId then Ok (set_add docId next) else Throw (invalid_id docId)) acc l = Ok out /\
    forall id, id ∈ out <-> id ∈ acc \/ id ∈ l.
Proof.
  set (f := fun (next : list jstr) encodedDocId => _).
  intros H. revert acc. induction H as [|x l Hx _ IH]; intros acc; cbn [fold_outcome].
  { exists acc. split; [done|]. intros id. rewrite elem_of_nil. tauto. }
  assert (f acc x = Ok (set_add x acc)) as ->.
  { unfold f. rewrite ttid_decode by done. cbn [mbind outcome_bind]. by rewrite Hx. }
  cbn [mbind outcome_bind].
  destruct (IH (set_add x acc)) as (out & -> & Hout). exists out. split; [done|].
  intros id. rewrite Hout, elem_of_set_add, elem_of_cons. tauto.
Qed.

(** ** On disk *)

Section OnDisk.
  Context {D : Type} `{FilesystemLaws D}.
  Context (sha256Hex : jstr -> jstr) (rootForCollection : jstr -> outcome jstr).
  Context (indexScannerFactory : option scanner_factory) (c : jstr) (rc : path).
  Hypothesis root_of_c : rootForCollection c = Ok (Path.abs_path rc).
  Hypothesis root_clean : Forall Path.clean rc.

Abbreviation stored := (Store.stored c rc).
Abbreviation indexes := (Store.indexes c rc sha256Hex).

(** The scanner's bookkeeping touches neither the files nor the caches. *)
Definition same_core (s s' : index_state D) : Prop :=
  index_disk s' = index_disk s /\ snapshotCache s' = snapshotCache s /\ walOverlayCache s' = walOverlayCache s.

Lemma same_core_refl s : same_core s s.
Proof. done. Qed.
Lemma same_core_trans s1 s2 s3 : same_core s1 s2 -> same_core s2 s3 -> same_core s1 s3.
Proof. intros (? & ? & ?) (? & ? & ?). split_and!; congruence. Qed.

Lemma stored_core s s' keys ms : same_core s s' -> stored s keys ms -> stored s' keys ms.
Proof. intros (H1' & H2' & H3') [Hf Hso Hk Hl Hsc Hov]. constructor; rewrite ?H1', ?H2', ?H3'; done. Qed.

Lemma disable_core e code s : exists s', disableAcceleration e code s = (Ok (), s') /\ same_core s s'.
Proof. eexists. split; [reflexivity|done]. Qed.

Lemma ready_core s : exists s', ready indexScannerFactory s = (Ok (), s') /\ same_core s s'.
Proof.
  unfold ready. run_pure. destruct indexScannerFactory as [f|]; [|by exists s].
  destruct (accelerationState s); [..|by exists s]; destruct (factory_ready f); try apply disable_core; by eexists.
Qed.

Lemma scannerFor_core s : exists r s', scannerFor indexScannerFactory c s = (Ok r, s') /\ same_core s s' /\
  forall factory, r = Some factory -> indexScannerFactory = Some factory.
Proof.
  unfold scannerFor. run_pure. destruct indexScannerFactory as [f|] eqn:Hf; [|by exists None, s].
  assert (forall s, same_core s (set_scanners ({[c]} ∪ scanners s) (scannerSnapshots s) s)) as Hset by done.
  assert (forall st, exists s', when (match st with Active => false | _ => true end) (ready (Some f)) s = (Ok (), s') /\ same_core s s') as Hready.
  { intros st. destruct (ready_core s) as (s1 & Hr & Hc). rewrite Hf in Hr.
    destruct st; [by exists s1|by exists s|by exists s1]. }
  destruct (accelerationState s) as [| |] eqn:Hst; [destruct (Hready Loading) as (s1 & Hr & Hc)|destruct (Hready Active) as (s1 & Hr & Hc)|by exists None, s].
  all: cbn [when] in Hr |- *; run Hr; run_pure.
  all: destruct (accelerationState s1); [exists None, s1; by split_and!| |exists None, s1; by split_and!].
  all: run_pure; destruct (factory_create f).
  1,3: exists (Some f); eexists; split; [reflexivity|]; split; [exact Hc|by intros ? [= <-]].
  all: exists None; eexists; split; [reflexivity|]; split; [exact Hc|done].
Qed.

Lemma scan_core factory snapshot full range s :
  exists r s', scan_with_scanner factory c snapshot full range s = (r, s') /\ same_core s s' /\
    forall next, r = Ok next -> exists l, scan_queries factory (snd snapshot) full range = Ok l /\
      (Forall (fun id => TTID.is_ttid id = true) l -> forall id, id ∈ next <-> id ∈ l).
Proof.
  unfold scan_with_scanner. run_pure.
  assert (exists r s', when (negb (bool_decide (scannerSnapshots s !! c = Some (fst snapshot))))
        (_ ← lift (load_snapshot factory (snd snapshot)); _ ← modify (set_metrics count_load);
         modify (fun s => set_scanners (scanners s) (<[c := fst snapshot]> (scannerSnapshots s)) s)) s = (r, s') /\
      same_core s s') as (r & s1 & Hw & Hc).
  { destruct (bool_decide _); cbn [negb when]; [by eexists _, s|].
    destruct (load_snapshot factory (snd snapshot)) as [[]|e]; [|by exists (Throw e), s].
    eexists _, _. split; [reflexivity|]. done. }
  destruct r as [[]|e]; [|rewrite (M_bind_throw _ _ _ _ _ Hw); by exists (Throw e), s1].
  run Hw. destruct (scan_queries factory (snd snapshot) full range) as [l|e] eqn:Hq; [|by exists (Throw e), s1].
  run_pure. destruct (fold_outcome _ [] l) as [next|e] eqn:Hd; [|by exists (Throw e), s1].
  run_pure. eexists (Ok next), _. split; [reflexivity|]. split; [exact Hc|].
  intros ? [= <-]. exists l. split; [done|]. intros Hl. destruct (decode_ids l [] Hl) as (out & Hout & Hin).
  rewrite Hd in Hout. apply Ok_inj in Hout as <-. intros id. rewrite Hin, elem_of_nil. tauto.
Qed.

Hypothesis honest : forall factory, indexScannerFactory = Some factory -> scanner_honest factory.

(** With or without a scanner, the first part of a query names the owners in the snapshot. *)
Lemma snapshot_pass snapshot path kind v range keys s :
  Forall owned keys -> Sorted jle keys -> snd snapshot = encode (serializeSnapshot keys) ->
  exists next s', (scanner ← scannerFor indexScannerFactory c;
    match scanner with
    | Some factory =>
        try_catch (scan_with_scanner factory c snapshot (root_of path kind ++ v) range)
          (fun error =>
             _ ← disableAcceleration error (js "EWASM_QUERY");
             lift (scanSnapshotWithJavaScript (snd snapshot) (root_of path kind ++ v) (root_of path kind) range []))
    | None => lift (scanSnapshotWithJavaScript (snd snapshot) (root_of path kind ++ v) (root_of path kind) range [])
    end) s = (Ok next, s') /\ same_core s s' /\
    forall id, id ∈ next <-> owners (root_of path kind ++ v) range keys id.
Proof.
  intros Ho Hso Hsn. destruct (scannerFor_core s) as (r & s1 & Hr & Hc & Hfac). run Hr.
  destruct (scan_snapshot path kind v range keys Ho Hso) as (out & Hout & Hin). rewrite <- Hsn in Hout.
  destruct r as [factory|]; [|exists out, s1; rewrite Hout; by split_and!].
  destruct (scan_core factory snapshot (root_of path kind ++ v) range s1) as (r & s2 & Hr2 & Hc2 & Hnext).
  unfold try_catch. rewrite Hr2. destruct r as [next|e].
  - destruct (Hnext next eq_refl) as (l & Hl & Hnl). rewrite Hsn in Hl.
    destruct (honest factory (Hfac factory eq_refl) keys path kind v range l Ho Hso Hl) as [Hids Hown].
    exists next, s2. split_and!; [done|by eapply same_core_trans|]. intros id. by rewrite (Hnl Hids), Hown.
  - destruct (disable_core e (js "EWASM_QUERY") s2) as (s3 & Hr3 & Hc3). run Hr3. exists out, s3.
    rewrite Hout. split_and!; [done| |done]. eapply same_core_trans; [exact Hc|]. by eapply same_core_trans.
Qed.

(** The identifiers with a matching key visible through the log. *)
Definition seen (keys : list jstr) (ms : list mutation) (full : jstr) (range : option (range_op * jstr)) (id : jstr) : Prop :=
  exists k, merged keys ms k /\ matches full range k = true /\ owner id k.

Lemma overlay_owned (keys : list jstr) ms : Forall (fun m => owned (mutation_key m)) ms ->
  Forall owned (added (log_overlay ms)) /\ Forall owned (removed (log_overlay ms)).
Proof.
  rewrite Forall_forall. intros Hm.
  split; apply Forall_forall; intros k Hk; destruct (log_overlay_keys ms k) as (m & Hin & <-); auto.
Qed.

(** Deleting the removed owners and adding the added ones is right because the log
    treats documents as wholes. *)
Lemma seen_passes keys ms full range id : atomic keys ms -> Forall owned keys ->
  ((owners full range keys id /\ ~ owners full range (removed (log_overlay ms)) id) \/
   owners full range (added (log_overlay ms)) id) <-> seen keys ms full range id.
Proof.
  intros Ha Ho. unfold seen, merged. split.
  - intros [[(k & Hk & Hm & Hok) Hno]|(k & Hk & Hm & Hok)]; exists k; [|by auto].
    split; [left; split; [done|]|done]. intros Hr. apply Hno. by exists k.
  - intros (k & [[Hk Hnr]|Hk] & Hm & Hok); [|right; by exists k].
    destruct (decide (k ∈ added (log_overlay ms))) as [|Hna]; [right; by exists k|].
    left. split; [by exists k|]. intros (k' & Hk' & Hm' & Hid & Hok').
    destruct Hok as [_ Hok]. destruct (Ha id k' k Hid Hk' Hok' Hk Hok); done.
Qed.

Lemma prefix_candidates_spec p path snapshot e keys ms s :
  encodeFieldPath p = Ok path -> snd snapshot = encode (serializeSnapshot keys) ->
  stored s keys ms -> atomic keys ms ->
  exists next s', prefix_candidates indexScannerFactory c p (log_overlay ms) snapshot e s = (Ok next, s') /\
    same_core s s' /\
    forall id, id ∈ next <-> seen keys ms (root_of path (kind e) ++ valuePrefix e) (range e) id.
Proof.
  intros Hp Hsn Hs Ha. pose proof (stored_keys _ _ _ _ _ Hs) as Ho.
  destruct (overlay_owned keys ms (stored_log _ _ _ _ _ Hs)) as [Hadd Hrem].
  unfold prefix_candidates. rewrite !(prefix_eq p path) by done. run_pure. rewrite app_nil_r.
  destruct (snapshot_pass snapshot path (kind e) (valuePrefix e) (range e) keys s Ho (stored_sorted _ _ _ _ _ Hs) Hsn)
    as (next & s1 & Hrun & Hc & Hnext).
  apply M_bind_inv_ok in Hrun as (scanner & s0 & Hsc & Hrest). run Hsc. run Hrest.
  destruct (delete_pass path (kind e) (valuePrefix e) (range e) (removed (log_overlay ms)) next Hrem) as (kept & -> & Hkept).
  run_pure.
  destruct (add_pass path (kind e) (valuePrefix e) (range e) (added (log_overlay ms)) kept Hadd) as (out & -> & Hout).
  exists out, s1. split_and!; [done|done|]. intros id. rewrite Hout, Hkept, Hnext. by apply seen_passes.
Qed.

Lemma elem_of_intersect x current next :
  x ∈ intersect current next <-> x ∈ next /\ match current with Some l => x ∈ l | None => True end.
Proof. destruct current as [l|]; cbn; [rewrite list_elem_of_filter|]; tauto. Qed.

Lemma fold_candidates p path snapshot keys ms es s acc :
  encodeFieldPath p = Ok path -> snd snapshot = encode (serializeSnapshot keys) ->
  stored s keys ms -> atomic keys ms ->
  exists r s', fold_m (fun candidates entry =>
      next ← prefix_candidates indexScannerFactory c p (log_overlay ms) snapshot entry;
      mret (Some (intersect candidates next))) es acc s = (Ok r, s') /\ same_core s s' /\
    (es = [] /\ r = acc \/ exists l, r = Some l /\ forall id, id ∈ l <->
       match acc with Some l => id ∈ l | None => True end /\
       Forall (fun e => seen keys ms (root_of path (kind e) ++ valuePrefix e) (range e) id) es).
Proof.
  intros Hp Hsn Hs Ha. revert s acc Hs. induction es as [|e es IH]; intros s acc Hs; cbn [fold_m].
  { exists acc, s. split_and!; [done|done|by left]. }
  destruct (prefix_candidates_spec p path snapshot e keys ms s Hp Hsn Hs Ha) as (next & s1 & Hrun & Hc & Hnext).
  assert ((next ← prefix_candidates indexScannerFactory c p (log_overlay ms) snapshot e;
           mret (Some (intersect acc next))) s = (Ok (Some (intersect acc next)), s1)) as Hstep.
  { run Hrun. done. }
  run Hstep. destruct (IH s1 (Some (intersect acc next)) (stored_core s s1 keys ms Hc Hs)) as (r & s2 & Hrun2 & Hc2 & Hr).
  exists r, s2. split_and!; [done|by eapply same_core_trans|]. right.
  destruct Hr as [[-> ->]|(l & -> & Hl)].
  - exists (intersect acc next). split; [done|]. intros id. rewrite elem_of_intersect, Hnext, Forall_singleton. tauto.
  - exists l. split; [done|]. intros id. rewrite Hl, elem_of_intersect, Hnext, Forall_cons. tauto.
Qed.

(** What a tracked index sees is what its documents' keys hit. *)
Lemma seen_hit keys ms docs p path e id :
  encodeFieldPath p = Ok path -> tracks sha256Hex keys ms docs ->
  seen keys ms (root_of path (kind e) ++ valuePrefix e) (range e) id <->
  exists doc ks, docs !! id = Some doc /\ keys_of sha256Hex id doc ks /\ hit ks p id e.
Proof.
  intros Hp [_ Hd Hm]. unfold seen, hit. setoid_rewrite (prefix_eq p path); [|done..]. split.
  - intros (k & (i & doc & ks & Hi & Hks & Hk)%Hm & Hmatch & Hown).
    pose proof Hks as (Hid & _ & Hf). rewrite Forall_forall in Hf.
    assert (i = id) as -> by (eapply owner_fun; [split; [exact Hid|by apply Hf]|exact Hown]).
    exists doc, ks. split_and!; [done|done|]. pose proof (id_of_match _ _ _ _ k id Hmatch Hown) as Hdoc.
    unfold matches in Hmatch. apply andb_true_iff in Hmatch as [Hpre Hr].
    exists k, (root_of path (kind e) ++ valuePrefix e), (root_of path (kind e)). rewrite app_nil_r. by split_and!.
  - intros (doc & ks & Hi & Hks & k & pre & root_ & Hk & [= <-] & Hpre & Hr & _ & _).
    exists k. pose proof Hks as (Hid & _ & Hf). rewrite Forall_forall in Hf. split_and!.
    + apply Hm. by exists id, doc, ks.
    + unfold matches. by rewrite Hpre, Hr.
    + split; [done|by apply Hf].
Qed.

Lemma candidateDocIds_spec s docs p path operand es :
  indexes s docs -> queryPrefixes sha256Hex operand = Ok (Some es) -> es <> [] -> encodeFieldPath p = Ok path ->
  exists ids s', candidateDocIds sha256Hex rootForCollection indexScannerFactory c p operand s = (Ok (Some ids), s') /\
    indexes s' docs /\ same_tree (index_disk s) (index_disk s') /\
    forall id, id ∈ ids <-> exists doc ks, docs !! id = Some doc /\ keys_of sha256Hex id doc ks /\ Forall (hit ks p id) es.
Proof.
  intros (keys & ms & Hs & Ht) Hes Hne Hp. unfold candidateDocIds. rewrite Hes. run_pure.
  destruct (ensure_stored rootForCollection c rc root_of_c root_clean s keys ms Hs) as (s1 & Hrun1 & Hs1 & Hsame & _).
  destruct (overlay_stored rootForCollection c rc root_of_c root_clean s1 keys ms Hs1) as (s2 & Hrun2 & Hs2 & Hd2).
  destruct (read_snapshot_stored rootForCollection c rc root_of_c root_clean s2 keys ms Hs2) as (n & s3 & Hrun3 & Hs3 & Hd3).
  run Hrun1. run Hrun2. run Hrun3.
  destruct (fold_candidates p path (n, encode (serializeSnapshot keys)) keys ms es s3 None Hp eq_refl Hs3 (tracks_atomic _ _ _ _ Ht))
    as (r & s4 & Hrun4 & Hc & [[? _]|(l & -> & Hl)]); [done|].
  exists l, s4. split_and!; [exact Hrun4|exists keys, ms; split; [by eapply stored_core|done]| |].
  - destruct Hc as (Hd4 & _). by rewrite Hd4, Hd3, Hd2.
  - intros id. rewrite Hl. split.
    + intros [_ Hall]. destruct es as [|e0 es]; [done|]. pose proof Hall as (doc & ks & Hi & Hks & _)%Forall_inv%(seen_hit _ _ _ _ _ _ _ Hp Ht).
      exists doc, ks. split_and!; [done|done|]. eapply Forall_impl; [exact Hall|]. cbn beta. intros e Hh.
      apply (seen_hit _ _ _ _ _ _ _ Hp Ht) in Hh as (doc' & ks' & Hi' & Hks' & Hh).
      assert (doc' = doc) as -> by congruence. rewrite (keys_of_fun sha256Hex id doc ks ks' Hks Hks'). exact Hh.
    + intros (doc & ks & Hi & Hks & Hall). split; [done|]. eapply Forall_impl; [exact Hall|]. cbn beta. intros e Hh.
      apply (seen_hit _ _ _ _ _ _ _ Hp Ht). by exists doc, ks.
Qed.

(** ** The index as a map *)

Inductive index_op :=
| PutDoc (id : jstr) (doc : object)
| RemoveDoc (id : jstr) (doc : object)
| Ask (p : jstr) (operand : value)
| Compact
| Reopen.

Definition index_run (op : index_op) : M (index_state D) () :=
  match op with
  | PutDoc id doc => putDocument sha256Hex rootForCollection c id doc
  | RemoveDoc id doc => removeDocument sha256Hex rootForCollection c id doc
  | Ask p operand => _ ← candidateDocIds sha256Hex rootForCollection indexScannerFactory c p operand; mret ()
  | Compact => compact rootForCollection c
  | Reopen => modify (fun s => new_index (index_disk s))
  end.

(** What the engine ensures of the calls: identifiers are unique, a document is removed
    as it was put, and names and texts can be encoded. *)
Definition index_allows (docs : gmap jstr object) (op : index_op) : Prop :=
  match op with
  | PutDoc id doc => TTID.is_ttid id = true /\ units (VObj doc) = true /\
                     is_ok (entriesForDocument sha256Hex id doc) = true /\ docs !! id = None
  | RemoveDoc id doc => docs !! id = Some doc
  | Ask p operand => is_ok (encodeFieldPath p) = true /\
                     exists es, queryPrefixes sha256Hex operand = Ok (Some es) /\ es <> []
  | Compact | Reopen => True
  end.

Definition map_run (op : index_op) (docs : gmap jstr object) : gmap jstr object :=
  match op with
  | PutDoc id doc => <[id := doc]> docs
  | RemoveDoc id _ => delete id docs
  | _ => docs
  end.

Fixpoint all_allowed (docs : gmap jstr object) (ops : list index_op) : Prop :=
  match ops with
  | [] => True
  | op :: rest => index_allows docs op /\ all_allowed (map_run op docs) rest
  end.

Hypothesis sha256_uri : forall s, forallb uri_char (sha256Hex s) = true.

Lemma index_op_spec s docs op : indexes s docs -> index_allows docs op ->
  exists s', index_run op s = (Ok (), s') /\ indexes s' (map_run op docs) /\ same_outside rc (index_disk s) (index_disk s').
Proof.
  intros Hi Ha. destruct op as [id doc|id doc|p operand| |]; cbn [index_run map_run index_allows] in *.
  - destruct Ha as (Hid & Hu & Hok & Hnone). destruct (entriesForDocument sha256Hex id doc) as [ks|] eqn:He; [|done].
    apply (putDocument_spec rootForCollection c rc root_of_c root_clean sha256Hex s docs id doc ks Hi Hnone).
    split_and!; [done|done|]. by eapply entries_doc_keys.
  - destruct (Store.indexes_docs c rc sha256Hex s docs id doc Hi Ha) as [ks Hks].
    by apply (removeDocument_spec rootForCollection c rc root_of_c root_clean sha256Hex s docs id doc ks).
  - destruct Ha as (Hok & es & Hes & Hne). destruct (encodeFieldPath p) as [path|] eqn:Hp; [|done].
    destruct (candidateDocIds_spec s docs p path operand es Hi Hes Hne Hp) as (ids & s' & Hrun & Hi' & Hsame & _).
    exists s'. split_and!; [by run Hrun|done|]. by apply same_tree_outside.
  - by apply (compact_spec rootForCollection c rc root_of_c root_clean sha256Hex).
  - exists (new_index (index_disk s)). split_and!; [done|by apply reopen_spec|apply same_outside_refl].
Qed.

Lemma index_ops_spec ops s docs : indexes s docs -> all_allowed docs ops ->
  exists s', for_each ops index_run s = (Ok (), s') /\
    indexes s' (fold_left (fun docs op => map_run op docs) ops docs) /\ same_outside rc (index_disk s) (index_disk s').
Proof.
  revert s docs. induction ops as [|op ops IH]; intros s docs Hi; cbn [all_allowed for_each fold_left].
  { intros _. exists s. split_and!; [done|done|apply same_outside_refl]. }
  intros [Ha Hrest]. destruct (index_op_spec s docs op Hi Ha) as (s1 & Hrun & Hi1 & Ho1). run Hrun.
  destruct (IH s1 _ Hi1 Hrest) as (s2 & Hrun2 & Hi2 & Ho2). exists s2.
  split_and!; [done|done|by eapply same_outside_trans].
Qed.

(** C2: the index refines a map.  From a collection without an index, creating it and
    then any sequence of puts, removals, queries, compactions and reopenings that the
    engine may make ends without an error; afterwards a query answers with exactly the
    documents of the map whose keys every planned prefix hits, and no file outside the
    index's directory has changed. *)
Theorem index_refines_map d ops p path operand es :
  wf d -> look d rc = Some Dir -> look d (index_dir rc) = None -> all_allowed ∅ ops ->
  encodeFieldPath p = Ok path -> queryPrefixes sha256Hex operand = Ok (Some es) -> es <> [] ->
  let docs := fold_left (fun docs op => map_run op docs) ops ∅ in
  exists d1 s ids s',
    ensureCollection rootForCollection c d = (Ok (), d1) /\
    for_each ops index_run (new_index d1) = (Ok (), s) /\
    candidateDocIds sha256Hex rootForCollection indexScannerFactory c p operand s = (Ok (Some ids), s') /\
    same_outside rc d (index_disk s') /\
    forall id, id ∈ ids <-> exists doc ks, docs !! id = Some doc /\
      entriesForDocument sha256Hex id doc = Ok ks /\ Forall (hit ks p id) es.
Proof.
  intros Hw Hrc Hnone Hall Hp Hes Hne docs.
  destruct (fresh_spec rootForCollection c rc root_of_c root_clean sha256Hex d Hw Hrc Hnone) as (d1 & Hrun1 & Hi1 & Ho1).
  destruct (index_ops_spec ops _ ∅ Hi1 Hall) as (s & Hrun & Hi & Ho). fold docs in Hi.
  destruct (candidateDocIds_spec s docs p path operand es Hi Hes Hne Hp) as (ids & s' & Hq & _ & Hsame & Hids).
  exists d1, s, ids, s'. split_and!; [done|done|done| |].
  - eapply same_outside_trans; [exact Ho1|]. eapply same_outside_trans; [exact Ho|]. by apply same_tree_outside.
  - intros id. rewrite Hids. split; intros (doc & ks & Hd & Hks & Hall').
    + destruct Hks as (_ & ? & _). by exists doc, ks.
    + exists doc, ks. split_and!; [done| |done].
      destruct (Store.indexes_docs c rc sha256Hex s docs id doc Hi Hd) as [ks' Hks'].
      pose proof Hks' as (_ & He & _). rewrite Hks in He. by injection He as ->.
Qed.

(** [ids] is an answer to the query. *)
Definition answers (s : index_state D) (p : jstr) (operand : value) (ids : list jstr) : Prop :=
  exists s', candidateDocIds sha256Hex rootForCollection indexScannerFactory c p operand s = (Ok (Some ids), s').

(** C4: a query through an index whose scanner, if there is one, is honest never loses a
    document by an operand the index can plan and a value at the field path of an indexed
    document (or an item of the array there) that satisfies it within the index's reach
    ([operand_holds]): equality of texts; a range over finite numbers other than -0; a LIKE
    pattern without a slash over a string without a percent sign whose encoding has at most 180
    bytes. The document is then among the candidates, whatever is in the snapshot, the log or the
    caches, and whether or not a scanner answers. *)
Theorem candidates_complete s docs id doc p path raw operand es :
  indexes s docs -> docs !! id = Some doc -> (p, raw) ∈ leaves [] (VObj doc) -> operand_holds raw operand ->
  encodeFieldPath p = Ok path -> queryPrefixes sha256Hex operand = Ok (Some es) -> es <> [] ->
  exists ids, answers s p operand ids /\ id ∈ ids.
Proof.
  intros Hi Hd Hl Hop Hp Hes Hne.
  destruct (candidateDocIds_spec s docs p path operand es Hi Hes Hne Hp) as (ids & s' & Hq & _ & _ & Hids).
  exists ids. split; [by exists s'|]. apply Hids.
  destruct (Store.indexes_docs c rc sha256Hex s docs id doc Hi Hd) as [ks Hks]. exists doc, ks. split_and!; [done|done|].
  destruct Hks as (_ & He & _). eapply operand_hit; [|exact Hop|exact Hes]. by eapply entries_keys.
Qed.

End OnDisk.

(** ** Witnesses: an index in memory, with a scanner *)

(** A scanner that reads the snapshot line by line. *)
Definition line_scan (bytes : list N) (full : jstr) (range : option (range_op * jstr)) : list jstr :=
  omap (fun k => if matches full range k then last (split_on 47 k) else None) (completeLines (decode bytes)).
Definition line_scanner : scanner_factory := {|
  factory_ready := Ok ();
  factory_create := Ok ();
  load_snapshot := fun _ => Ok ();
  scan_queries := fun bytes full range => Ok (line_scan bytes full range)
|}.

Lemma owner_last id k : owner id k -> last (split_on 47 k) = Some id.
Proof. intros [Hid%ttid_no_slash [_ [a ->]]]. by rewrite split_on_snoc, last_snoc. Qed.

Lemma line_scanner_honest : scanner_honest line_scanner.
Proof.
  intros keys path kind v range l Ho Hs [= <-]. set (full := root_of path kind ++ v). unfold line_scan.
  rewrite (encode_ascii _ (snapshot_ascii keys Ho)), (decode_ascii _ (snapshot_ascii keys Ho)).
  rewrite (completeLines_snapshot keys (owned_keys keys Ho)). rewrite Forall_forall in Ho.
  assert (forall id, id ∈ omap (fun k => if matches full range k then last (split_on 47 k) else None) keys <->
            owners full range keys id) as Hin.
  { intros id. rewrite list_elem_of_omap. split.
    - intros (k & Hk & Heq). destruct (matches full range k) eqn:Hm; [|done]. destruct (Ho k Hk) as (i & Hi & Hdk).
      rewrite (owner_last i k (conj Hi Hdk)) in Heq. injection Heq as ->. by exists k.
    - intros (k & Hk & Hm & Hown). exists k. split; [done|]. by rewrite Hm, (owner_last id k Hown). }
  split; [|exact Hin]. apply Forall_forall. intros id Hid. apply Hin in Hid. by destruct Hid as (k & _ & _ & ? & _).
Qed.

Definition ticks (n : nat) : Z := Z.of_nat n.
#[local] Instance ticking : FyloFilesystem MemFs.state := MemFs.memory ticks.
#[local] Instance ticking_clock : Clock MemFs.state := MemFs.memory_clock ticks.
#[local] Instance ticking_laws : FilesystemLaws MemFs.state := MemFsLaws.memory_laws ticks.

Definition people : jstr -> outcome jstr := fun _ => Ok (js "/people").
Definition empty_people : MemFs.state := snd (MemFs.mkdir ticks (js "/people") true (MemFs.init ticks)).

Lemma empty_people_wf : wf empty_people.
Proof. apply (MemFsLaws.run_wf ticks (MemFsLaws.OMkdir (js "/people") true)); [done|apply MemFsLaws.init_wf]. Qed.

Definition ann : object := [(js "name", VStr (js "Ann")); (js "tags", VArr [VStr (js "red"); VStr (js "tall")])].
Definition bob : object := [(js "name", VStr (js "Bob")); (js "age", VNum (Num.of_Z 40))].
Definition people_ops : list index_op :=
  [PutDoc (js "4VLN5QUCDP0") ann; PutDoc (js "4VLN5QUCDP1") bob; Compact; RemoveDoc (js "4VLN5QUCDP1") bob;
   Reopen; PutDoc (js "4VLN5QUCDP2") bob].

Lemma people_ops_allowed : all_allowed length_digest ∅ people_ops.
Proof. vm_compute. auto 20. Qed.

Lemma length_digest_uri s : forallb uri_char (length_digest s) = true.
Proof. apply dec_uri. Qed.

Lemma index_refines_map_witness :
  let docs := fold_left (fun docs op => map_run op docs) people_ops ∅ in
  exists es d1 s ids s',
    queryPrefixes length_digest (VObj [(js "$eq", VStr (js "Bob"))]) = Ok (Some es) /\
    ensureCollection people (js "people") empty_people = (Ok (), d1) /\
    for_each people_ops (index_run length_digest people (Some line_scanner) (js "people")) (new_index d1) = (Ok (), s) /\
    candidateDocIds length_digest people (Some line_scanner) (js "people") (js "name")
      (VObj [(js "$eq", VStr (js "Bob"))]) s = (Ok (Some ids), s') /\
    same_outside [js "people"] empty_people (index_disk s') /\
    forall id, id ∈ ids <-> exists doc ks, docs !! id = Some doc /\
      entriesForDocument length_digest id doc = Ok ks /\ Forall (hit ks (js "name") id) es.
Proof.
  intros docs. eexists.
  refine (match index_refines_map length_digest people (Some line_scanner) (js "people") [js "people"]
            _ _ _ _ empty_people people_ops (js "name") (js "name") (VObj [(js "$eq", VStr (js "Bob"))]) _
            empty_people_wf _ _ people_ops_allowed _ _ _ with
          | ex_intro _ d1 (ex_intro _ s (ex_intro _ ids (ex_intro _ s' H))) =>
              ex_intro _ d1 (ex_intro _ s (ex_intro _ ids (ex_intro _ s' (conj _ H))))
          end).
  - vm_compute. reflexivity.
  - apply (bool_decide_unpack _). vm_compute. exact I.
  - intros f [= <-]. apply line_scanner_honest.
  - apply length_digest_uri.
  - vm_compute. reflexivity.
  - vm_compute. reflexivity.
  - vm_compute. reflexivity.
  - vm_compute. reflexivity.
  - discriminate.
  - vm_compute. reflexivity.
Defined.

Definition people_index : index_state MemFs.state :=
  snd (for_each people_ops (index_run length_digest people (Some line_scanner) (js "people"))
         (new_index (snd (ensureCollection people (js "people") empty_people)))).

Lemma people_root : people (js "people") = Ok (Path.abs_path [js "people"]).
Proof. vm_compute. reflexivity. Qed.
Lemma people_clean : Forall Path.clean [js "people"].
Proof. apply (bool_decide_unpack _). vm_compute. exact I. Qed.
Lemma line_scanner_some factory : Some line_scanner = Some factory -> scanner_honest factory.
Proof. intros [= <-]. apply line_scanner_honest. Qed.

Lemma people_indexed : Store.indexes (js "people") [js "people"] length_digest people_index
  (fold_left (fun docs op => map_run op docs) people_ops ∅).
Proof.
  destruct (fresh_spec people (js "people") [js "people"] people_root people_clean length_digest empty_people)
    as (d1 & Hrun1 & Hi1 & _); [apply empty_people_wf|by vm_compute|by vm_compute|].
  destruct (index_ops_spec length_digest people (Some line_scanner) (js "people") [js "people"]
              people_root people_clean line_scanner_some length_digest_uri people_ops _ ∅ Hi1 people_ops_allowed)
    as (s & Hrun & Hi & _).
  unfold people_index. rewrite Hrun1. cbn [snd]. by rewrite Hrun.
Qed.

Lemma candidates_complete_witness :
  exists es ids, queryPrefixes length_digest (VObj [(js "$gte", VNum (Num.of_Z 18))]) = Ok (Some es) /\
    answers length_digest people (Some line_scanner) (js "people") people_index (js "age")
      (VObj [(js "$gte", VNum (Num.of_Z 18))]) ids /\
    js "4VLN5QUCDP2" ∈ ids.
Proof.
  eexists.
  refine (match candidates_complete length_digest people (Some line_scanner) (js "people") [js "people"]
            people_root people_clean line_scanner_some people_index _ (js "4VLN5QUCDP2") bob (js "age") (js "age")
            (VNum (Num.of_Z 40)) (VObj [(js "$gte", VNum (Num.of_Z 18))]) _ people_indexed _ _ _ _ _ _ with
          | ex_intro _ ids H => ex_intro _ ids (conj _ H)
          end).
  - vm_compute. reflexivity.
  - apply (bool_decide_unpack _). vm_compute. reflexivity.
  - split; [split_and!; [vm_compute; reflexivity|vm_compute; reflexivity|discriminate]|].
    intros name op Hin Hne.
    repeat (apply elem_of_cons in Hin as [[= -> ->]|Hin]); [..|by apply elem_of_nil in Hin];
      first [by destruct Hne|split; [split_and!; [vm_compute; reflexivity|vm_compute; reflexivity|discriminate]
                              |vm_compute; reflexivity]].
  - vm_compute. reflexivity.
  - vm_compute. reflexivity.
  - discriminate.
  - vm_compute. reflexivity.
Defined.

End Answers.
