(* ===== verification/Query.v ===== *)
(** The query evaluator of [src/browser/core/query.js]: matching a document, planning
    candidates through an index, shaping results.  The index is an interface, as the
    class's context is; queries are plain data, typed as [StoreQuery] declares them. *)

From stdpp Require Import gmap.
From S2P Require Import Prelude JsNum JsValue Like Codec.

Module Query.

(** ** Reading documents and queries *)

(** An own property: a field of an object, an item or the length of an array. *)
Definition own (v : value) (k : jstr) : value :=
  match v with
  | VObj o => default VUndef (alist_get k o)
  | VArr l =>
      if jeqb k (js "length") then VNum (Num.of_Z (Z.of_nat (length l)))
      else match array_index k with
           | Some n => default VUndef (l !! N.to_nat n)
           | None => VUndef
           end
  | _ => VUndef
  end.

Definition c_dot : N := 46.
Definition c_slash : N := 47.

Definition getValueByPath (target : value) (fieldPath : jstr) : value :=
  fold_left (fun acc key => own acc key) (split_on c_dot (replace_char c_slash [c_dot] fieldPath)) target.

Definition normalizeFieldPath (fieldPath : jstr) : jstr := replace_char c_dot [c_slash] fieldPath.

(** [query.$ops], an array when it is there. *)
Definition ops_of (query : value) : list value :=
  match prop query (js "$ops") with VArr l => l | _ => [] end.

(** The comparisons of a range, each made only if its bound is given. *)
Definition in_range_of (n : Num.num) (range : value) : bool :=
  let check name (rel : Num.num -> Num.num -> bool) :=
    is_undef (prop range (js name)) || rel n (to_num (prop range (js name))) in
  check "$gt"%string Num.gt && check "$gte"%string Num.ge && check "$lt"%string Num.lt && check "$lte"%string Num.le.

Record timestamps := Timestamps { createdAt : Num.num; updatedAt : Num.num }.

Definition window (at_ : Num.num) (range : value) : bool :=
  negb (truthy range) || in_range_of at_ range.

Definition matchesTimestamp (query : value) (ts : timestamps) : bool :=
  if negb (truthy (prop query (js "$created"))) && negb (truthy (prop query (js "$updated"))) then true
  else window (createdAt ts) (prop query (js "$created")) && window (updatedAt ts) (prop query (js "$updated")).

(** ** Matching *)

Definition matchesNumber (v : value) (op : Codec.range_op) (expected : value) : bool :=
  let numeric := to_num v in
  match op with
  | Codec.Gt => Num.gt numeric (to_num expected)
  | Codec.Gte => Num.ge numeric (to_num expected)
  | Codec.Lt => Num.lt numeric (to_num expected)
  | Codec.Lte => Num.le numeric (to_num expected)
  end.

Definition matchesLike (v pattern : jstr) : bool := Like.matchesLike true v pattern.

(** The predicates by operator, in the order the code tries them.  A [$like] pattern is a
    string. *)
Definition predicates (v : value) : list (jstr * (value -> bool)) :=
  [(js "$eq", fun expected => loose_eq v expected);
   (js "$ne", fun expected => negb (loose_eq v expected));
   (js "$gt", matchesNumber v Codec.Gt);
   (js "$gte", matchesNumber v Codec.Gte);
   (js "$lt", matchesNumber v Codec.Lt);
   (js "$lte", matchesNumber v Codec.Lte);
   (js "$like", fun expected =>
      match v, expected with
      | VStr s, VStr pattern => matchesLike s pattern
      | _, _ => false
      end);
   (js "$contains", fun expected =>
      match v with
      | VArr items => existsb (fun item => loose_eq item expected) items
      | _ => false
      end)].

Definition matchesOperand (v operand : value) : bool :=
  forallb (fun p => is_undef (prop operand (fst p)) || snd p (prop operand (fst p))) (predicates v).

Definition matchesOperation (doc operation : value) : bool :=
  forallb (fun fo => truthy (snd fo) && matchesOperand (getValueByPath doc (fst fo)) (snd fo)) (entries operation).

Definition matchesQuery (doc query : value) (ts : timestamps) : bool :=
  if negb (matchesTimestamp query ts) then false
  else match ops_of query with
       | [] => true
       | ops => existsb (matchesOperation doc) ops
       end.

Definition matchesDeletedQuery (doc query : value) (created deleted : Num.num) : outcome bool :=
  if truthy (prop query (js "$updated")) then
    Throw (Error (js "Deleted document queries use $deleted instead of $updated"))
  else Ok (matchesQuery doc query (Timestamps created deleted) && window deleted (prop query (js "$deleted"))).

(** ** Candidates through an index *)

Definition intersectDocIds (current : option (list jstr)) (next : list jstr) : list jstr :=
  match current with
  | None => next
  | Some ids => filter (fun id => id ∈ next) ids
  end.

(** The context's index: [BrowserPrefixIndexLike]. *)
Class BrowserPrefixIndexLike (S : Type) := candidateDocIds : jstr -> jstr -> value -> M S (option (list jstr)).

Section Candidates.
  Context {S : Type} `{BrowserPrefixIndexLike S}.

Definition range_keys : list jstr := map js ["$gt"; "$gte"; "$lt"; "$lte"]%string.

(** The loop over the range operators; [None] from the index ends the whole function. *)
Fixpoint with_ranges (collection fieldPath : jstr) (operand : value) (keys : list jstr)
    (candidateIds : option (list jstr)) (rest : option (list jstr) -> M S (option (list jstr))) : M S (option (list jstr)) :=
  match keys with
  | [] => rest candidateIds
  | key :: keys' =>
      match prop operand key with
      | VUndef => with_ranges collection fieldPath operand keys' candidateIds rest
      | bound =>
          rangeCandidates ← candidateDocIds collection fieldPath (VObj [(key, bound)]);
          match rangeCandidates with
          | None => mret None
          | Some next => with_ranges collection fieldPath operand keys' (Some (intersectDocIds candidateIds next)) rest
          end
      end
  end.

Definition candidateDocIdsForOperand (collection fieldPath : jstr) (operand : value) : M S (option (list jstr)) :=
  candidateIds ← (match prop operand (js "$eq") with
                  | VUndef => mret None
                  | expected =>
                      found ← candidateDocIds collection fieldPath (VObj [(js "$eq", expected)]);
                      mret (Some (intersectDocIds None (default [] found)))
                  end);
  with_ranges collection fieldPath operand range_keys candidateIds (fun candidateIds =>
    let contains (candidateIds : option (list jstr)) :=
      match prop operand (js "$contains") with
      | VUndef => mret candidateIds
      | expected =>
          found ← candidateDocIds collection fieldPath (VObj [(js "$contains", expected)]);
          mret (Some (intersectDocIds candidateIds (default [] found)))
      end in
    match prop operand (js "$like") with
    | VUndef => contains candidateIds
    | pattern =>
        likeCandidates ← candidateDocIds collection fieldPath (VObj [(js "$like", pattern)]);
        match likeCandidates with
        | None => mret None
        | Some next => contains (Some (intersectDocIds candidateIds next))
        end
    end).

Definition candidateDocIdsForOperation (collection : jstr) (operation : value) : M S (option (list jstr)) :=
  fold_m (fun candidateIds fo =>
    if negb (truthy (snd fo)) then mret candidateIds
    else
      fieldCandidates ← candidateDocIdsForOperand collection (normalizeFieldPath (fst fo)) (snd fo);
      match fieldCandidates with
      | None => mret candidateIds
      | Some next => mret (Some (intersectDocIds candidateIds next))
      end) (entries operation) None.

(** [union.add] of every identifier, in order. *)
Definition set_union (ids more : list jstr) : list jstr :=
  fold_left (fun ids id => if bool_decide (id ∈ ids) then ids else ids ++ [id]) more ids.

Fixpoint union_candidates (collection : jstr) (ops : list value) (union : list jstr) : M S (option (list jstr)) :=
  match ops with
  | [] => mret (Some union)
  | operation :: rest =>
      candidateIds ← candidateDocIdsForOperation collection operation;
      match candidateIds with
      | None => mret None
      | Some ids => union_candidates collection rest (set_union union ids)
      end
  end.

Definition candidateDocIdsForQuery (collection : jstr) (query : value) : M S (option (list jstr)) :=
  match ops_of query with
  | [] => mret None
  | ops => union_candidates collection ops []
  end.

End Candidates.

(** ** Shaping results *)

Definition selectValues (selection : list jstr) (data : object) : object :=
  fold_left (fun copy field => if bool_decide (field ∈ selection) then copy else obj_delete field copy)
    (keys (copySafeRecord data)) (copySafeRecord data).

Definition renameFields (rename : value) (data : object) : object :=
  fold_left (fun copy field =>
      match prop rename field with
      | VStr name => obj_delete field (obj_set name (default VUndef (alist_get field copy)) copy)
      | _ => copy
      end) (keys (copySafeRecord data)) (copySafeRecord data).

Definition strings_of (v : value) : list jstr :=
  match v with
  | VArr l => omap (fun x => match x with VStr s => Some s | _ => None end) l
  | _ => []
  end.

(** [query.$select?.length], for an array. *)
Definition selects (query : value) : bool :=
  match prop query (js "$select") with VArr (_ :: _) => true | _ => false end.

Definition project (query : value) (data : object) : object :=
  let data := if selects query then selectValues (strings_of (prop query (js "$select"))) data else data in
  if truthy (prop query (js "$rename")) then renameFields (prop query (js "$rename")) data else data.

(** The groups of the records of [next] that have a value to group by. *)
Definition group_docs (groupby : jstr) (next : list (jstr * object)) : list (jstr * list (jstr * object)) :=
  fold_left (fun docGroup kd =>
      let groupValue := default VUndef (alist_get groupby (snd kd)) in
      if is_nullish groupValue then docGroup
      else obj_set (to_str groupValue) [(fst kd, obj_delete groupby (copySafeRecord (snd kd)))] docGroup) next [].

Definition ids_value {A} (o : list (jstr * A)) : value := VArr (map VStr (keys o)).
Definition records (o : list (jstr * object)) : value := VObj (map (fun kd => (fst kd, VObj (snd kd))) o).

(** [processDoc(doc, query)] on a record of documents by identifier. *)
Definition processDoc (doc : list (jstr * object)) (query : value) : option value :=
  match doc with
  | [] => None
  | _ =>
      let next := map (fun kd => (fst kd, project query (snd kd))) (copySafeRecord doc) in
      let onlyIds := truthy (prop query (js "$onlyIds")) in
      if truthy (prop query (js "$groupby")) then
        let docGroup := group_docs (to_str (prop query (js "$groupby"))) next in
        Some (if onlyIds then VObj (map (fun g => (fst g, ids_value (snd g))) docGroup)
              else VObj (map (fun g => (fst g, records (snd g))) docGroup))
      else if onlyIds then VStr <$> head (keys next)
      else Some (records next)
  end.

(** ** Renaming a field to its own name *)

Lemma rename_others k (l : list jstr) (copy : object) : k ∉ l ->
  fold_left (fun copy field =>
      match prop (VObj [(k, VStr k)]) field with
      | VStr name => obj_delete field (obj_set name (default VUndef (alist_get field copy)) copy)
      | _ => copy
      end) l copy = copy.
Proof.
  revert copy. induction l as [|x l IH]; intros copy Hk; cbn [fold_left]; [done|].
  apply not_elem_of_cons in Hk as [Hx Hk]. cbn [prop alist_get]. rewrite decide_False by congruence. cbn [default]. by apply IH.
Qed.

(** Renaming a field to its own name loses it: the loop sets the new name and then
    deletes the old one without comparing them; the other fields stay. *)
Theorem rename_to_itself_loses_field k data : ordered_keys (keys data) = true -> k ∈ keys data ->
  alist_get k (renameFields (VObj [(k, VStr k)]) data) = None /\
  forall k', k' <> k -> alist_get k' (renameFields (VObj [(k, VStr k)]) data) = alist_get k' data.
Proof.
  intros Ho Hk. unfold renameFields. rewrite (copySafeRecord_id data Ho).
  pose proof (ordered_keys_NoDup _ Ho) as Hnd. pose proof Hk as (l & r & Hl)%list_elem_of_split.
  assert (k ∉ l /\ k ∉ r) as [Hkl Hkr].
  { rewrite Hl in Hnd. apply NoDup_app in Hnd as (_ & Hd & Hr). apply NoDup_cons in Hr as [Hr _].
    split; [|done]. intros Hin. apply (Hd k Hin). by left. }
  rewrite Hl, fold_left_app. cbn [fold_left]. rewrite (rename_others k l) by done.
  cbn [prop alist_get]. rewrite decide_True by done. cbn [default from_option id]. rewrite (rename_others k r) by done. split.
  - apply alist_get_delete_eq. by apply NoDup_obj_set.
  - intros k' Hne. by rewrite alist_get_delete_ne, alist_get_obj_set, decide_False by congruence.
Qed.

Lemma rename_to_itself_loses_field_witness :
  alist_get (js "a") (renameFields (VObj [(js "a", VStr (js "a"))]) [(js "a", VNull); (js "b", VNull)]) = None /\
  forall k', k' <> js "a" ->
    alist_get k' (renameFields (VObj [(js "a", VStr (js "a"))]) [(js "a", VNull); (js "b", VNull)]) =
    alist_get k' [(js "a", VNull); (js "b", VNull)].
Proof. apply (rename_to_itself_loses_field (js "a") [(js "a", VNull); (js "b", VNull)]); [by vm_compute|by left]. Defined.

End Query.
