(* ===== verification/Documents.v ===== *)
(** One file per document: class [BrowserDocuments] of [src/browser/core/documents.js],
    over any filesystem.  The functions its constructor is given are parameters. *)

From S2P Require Import Prelude PathUtil JsNum JsValue Json Shard Ttid Filesystem.

Module Documents.

Record StoredDoc := mkStored {
  stored_id : jstr;
  stored_createdAt : Z;
  stored_updatedAt : Z;
  stored_data : object
}.

(** [deletedAt] is whatever number the tombstone holds. *)
Record DeletedDoc := mkDeleted {
  deleted_id : jstr;
  deleted_createdAt : Z;
  deletedAt : Num.num;
  deleted_data : object
}.

Definition json_suffix : jstr := js ".json".

Definition not_an_object : js_error := Error (js "FYLO document body must be a JSON object").

Definition parseJsonDocumentText (text : jstr) : outcome object :=
  raw ← Json.parse text;
  match raw with VObj o => Ok o | _ => Throw not_an_object end.

Definition assertJsonDocumentText (text : jstr) : outcome () :=
  _ ← parseJsonDocumentText text; Ok ().

Definition stripInternalFields (raw : object) : object :=
  obj_delete (js "_deletedAt") (obj_delete (js "_updatedAt") raw).

(** [JSON.stringify] of an object, which is never [undefined]. *)
Definition stringify_object (data : object) : jstr := default [] (Json.stringify (VObj data)).

Definition validateDocId (docId : jstr) : outcome () :=
  if TTID.is_ttid docId then Ok () else Throw (Error (js "Invalid document ID: " ++ docId)).

(** [join(root, legacyShardOf(docId), `${docId}.json`)], checked to be inside [root]. *)
Definition legacy_path (root docId : jstr) : outcome jstr :=
  shard ← Shard.legacyShardOf docId;
  let legacy := Path.join_strings [root; shard; docId ++ json_suffix] in
  _ ← Path.assertPathInside root legacy;
  Ok legacy.

Section Documents.
  Context {D : Type} `{FyloFilesystem D, Clock D}.
  Context (docsRoot deletedRoot : jstr -> outcome jstr).
  Context (docPath deletedPath : jstr -> jstr -> outcome jstr).
  Context (ensureCollection : jstr -> M D ()).

Definition existingPath (root canonical docId : jstr) : M D jstr :=
  found ← exists_ canonical;
  if found : bool then mret canonical
  else
    legacy ← lift (legacy_path root docId);
    if jeqb legacy canonical then mret canonical
    else found ← exists_ legacy; mret (if found : bool then legacy else canonical).

Definition removeLegacyCopy (root canonical docId : jstr) : M D () :=
  legacy ← lift (legacy_path root docId);
  if jeqb legacy canonical then mret ()
  else found ← exists_ legacy; when found (remove legacy).

Definition readStoredDoc (collection docId : jstr) : M D (option StoredDoc) :=
  _ ← lift (validateDocId docId);
  root ← lift (docsRoot collection);
  canonical ← lift (docPath collection docId);
  target ← existingPath root canonical docId;
  _ ← lift (Path.assertPathInside root target);
  found ← exists_ target;
  if negb found then mret None
  else
    text ← readText target;
    raw ← lift (parseJsonDocumentText text);
    times ← lift (TTID.decodeTime docId);
    updatedAt ← mtimeMs target;
    mret (Some (mkStored docId (TTID.createdAt times) updatedAt (stripInternalFields raw))).

Definition readDeletedDoc (collection docId : jstr) : M D (option DeletedDoc) :=
  _ ← lift (validateDocId docId);
  root ← lift (deletedRoot collection);
  canonical ← lift (deletedPath collection docId);
  target ← existingPath root canonical docId;
  _ ← lift (Path.assertPathInside root target);
  found ← exists_ target;
  if negb found then mret None
  else
    text ← readText target;
    raw ← lift (parseJsonDocumentText text);
    times ← lift (TTID.decodeTime docId);
    let deleted := match prop (VObj raw) (js "_deletedAt") with
                   | VNum n => n
                   | _ => Num.of_Z (TTID.createdAt times)
                   end in
    mret (Some (mkDeleted docId (TTID.createdAt times) deleted (stripInternalFields raw))).

Definition writeStoredDoc (collection docId : jstr) (data : object) : M D () :=
  _ ← lift (validateDocId docId);
  _ ← ensureCollection collection;
  target ← lift (docPath collection docId);
  root ← lift (docsRoot collection);
  _ ← lift (Path.assertPathInside root target);
  let text := stringify_object data in
  _ ← lift (assertJsonDocumentText text);
  _ ← writeText target text;
  _ ← removeLegacyCopy root target docId;
  tombstone ← lift (deletedPath collection docId);
  orphan ← exists_ tombstone;
  _ ← when orphan (remove tombstone);
  graveyard ← lift (deletedRoot collection);
  removeLegacyCopy graveyard tombstone docId.

Definition removeStoredDoc (collection docId : jstr) : M D () :=
  _ ← lift (validateDocId docId);
  root ← lift (docsRoot collection);
  canonical ← lift (docPath collection docId);
  target ← existingPath root canonical docId;
  _ ← lift (Path.assertPathInside root target);
  found ← exists_ target;
  when found (remove target).

Definition softDeleteStoredDoc (collection docId : jstr) (deletedAt : Z) : M D jstr :=
  _ ← lift (validateDocId docId);
  root ← lift (docsRoot collection);
  canonical ← lift (docPath collection docId);
  source ← existingPath root canonical docId;
  target ← lift (deletedPath collection docId);
  _ ← lift (Path.assertPathInside root source);
  graveyard ← lift (deletedRoot collection);
  _ ← lift (Path.assertPathInside graveyard target);
  found ← exists_ source;
  if negb found then throw (Error (js "Document not found: " ++ docId))
  else
    sourceText ← readText source;
    raw ← lift (parseJsonDocumentText sourceText);
    let tombstoneText := stringify_object (obj_set (js "_deletedAt") (VNum (Num.of_Z deletedAt)) raw) in
    _ ← lift (assertJsonDocumentText tombstoneText);
    _ ← writeText target tombstoneText;
    _ ← remove source;
    mret target.

Definition restoreStoredDoc (collection docId : jstr) : M D jstr :=
  _ ← lift (validateDocId docId);
  graveyard ← lift (deletedRoot collection);
  canonical ← lift (deletedPath collection docId);
  source ← existingPath graveyard canonical docId;
  target ← lift (docPath collection docId);
  _ ← lift (Path.assertPathInside graveyard source);
  root ← lift (docsRoot collection);
  _ ← lift (Path.assertPathInside root target);
  found ← exists_ source;
  if negb found then throw (Error (js "No tombstone to restore: " ++ docId))
  else
    sourceText ← readText source;
    raw ← lift (parseJsonDocumentText sourceText);
    let restoredText := stringify_object (stripInternalFields raw) in
    _ ← lift (assertJsonDocumentText restoredText);
    _ ← writeText target restoredText;
    _ ← remove source;
    mret target.

(** A no-op in the browser. *)
Definition makeStoredDocReadOnly (collection docId : jstr) : M D () := mret ().

(** The identifier a file name stands for. *)
Definition doc_of_file (file : jstr) : option jstr :=
  if ends_with json_suffix file then
    let id := drop_last (length json_suffix) (Path.basename file) in
    if TTID.is_ttid id then Some id else None
  else None.

Definition listBucketedDocIds (root : jstr) : M D (list jstr) :=
  found ← exists_ root;
  if negb found then mret []
  else
    buckets ← list_ root;
    fold_m (fun ids bucket =>
      let bucketPath := Path.join_strings [root; bucket] in
      directory ← isDirectory bucketPath;
      if negb directory then mret ids
      else files ← list_ bucketPath; mret (ids ++ omap (fun file => doc_of_file file) files)) buckets [].

Definition listDocIds (collection : jstr) : M D (list jstr) :=
  root ← lift (docsRoot collection); listBucketedDocIds root.

Definition listDeletedDocIds (collection : jstr) : M D (list jstr) :=
  root ← lift (deletedRoot collection); listBucketedDocIds root.

End Documents.
End Documents.
