(* ===== verification/Buckets.v ===== *)
(** Bucketed directories on disk: a map from identifiers to records, one JSON file each
    under its shard.  What the documents, the tombstones and the metadata share: where a
    record stands, and what writing, removing, reading and listing do to the map. *)

From stdpp Require Import gmap.
From S2P Require Import Prelude PathUtil JsNum JsValue Utf8 Json Shard Ttid Filesystem Documents.

Module Buckets.
Import Utf8 Documents.

(** ** Where a record stands *)

Definition ok_or {A} (d : A) (o : outcome A) : A := match o with Ok a => a | Throw _ => d end.

Definition shelf (id : jstr) : jstr := ok_or [] (Shard.defaultShardOf id).
Definition old_shelf (id : jstr) : jstr := ok_or [] (Shard.legacyShardOf id).
Definition file_of (id : jstr) : jstr := id ++ json_suffix.
Definition place (base : path) (id : jstr) : path := base ++ [shelf id; file_of id].
Definition old_place (base : path) (id : jstr) : path := base ++ [old_shelf id; file_of id].

Lemma ttid_some id : TTID.is_ttid id = true -> exists t, TTID.isTTID id = Some t.
Proof. unfold TTID.is_ttid. intros [t Ht]%bool_decide_eq_true. by exists t. Qed.

Lemma ttid_times id : TTID.is_ttid id = true -> exists times, TTID.decodeTime id = Ok times.
Proof. intros [t (times & Ht & _)%TTID.isTTID_createdAt]%ttid_some. by exists times. Qed.

Lemma file_of_clean id : TTID.is_ttid id = true -> Path.clean (file_of id).
Proof. intros [t Ht]%ttid_some. by eapply TTID.json_name_clean. Qed.

Lemma file_of_inj id id' : file_of id = file_of id' -> id = id'.
Proof. apply app_inv_tail. Qed.

Lemma alnum_no_dots s : s <> [] -> forallb is_alnum s = true -> starts_with dotdot s = false.
Proof.
  destruct s as [|c s]; [done|]. cbn [forallb]. intros _ [Hc%Shard.is_alnum_bounds _]%andb_true_iff.
  change dotdot with [46%N; 46%N]. cbn [starts_with]. replace (46 =? c)%N with false by lia. done.
Qed.

Lemma default_width : Shard.assertShardWidth (Num.of_Z (Z.of_nat Shard.DEFAULT_SHARD_WIDTH)) = Ok 1.
Proof. by vm_compute. Qed.

Lemma shelf_spec id : TTID.is_ttid id = true ->
  Shard.defaultShardOf id = Ok (shelf id) /\ Path.clean (shelf id) /\ length (shelf id) = 1 /\
  starts_with dotdot (shelf id) = false.
Proof.
  intros [t (created & Hc & Hl)%TTID.isTTID_creationSegment]%ttid_some.
  assert (Shard.defaultShardOf id = Ok (last_n 1 created)) as Hs.
  { unfold Shard.defaultShardOf, Shard.shardOf. rewrite default_width. cbn [mbind outcome_bind]. rewrite Hc.
    cbn [mbind outcome_bind mret outcome_ret]. f_equal. unfold pad_start.
    by replace (1 - length (last_n 1 created)) with 0 by (unfold last_n; rewrite length_drop; lia). }
  unfold shelf. rewrite Hs. cbn [ok_or]. pose proof (Shard.shardOf_clean _ _ _ Hs) as Hclean.
  split_and!; [done|done|unfold last_n; rewrite length_drop; lia|]. apply alnum_no_dots; [apply Hclean|].
  apply Shard.forallb_drop. by apply Shard.creationSegment_ok in Hc as (_ & _ & ?).
Qed.

Lemma old_shelf_spec id : TTID.is_ttid id = true ->
  Shard.legacyShardOf id = Ok (old_shelf id) /\ Path.clean (old_shelf id) /\ length (old_shelf id) = 2 /\
  starts_with dotdot (old_shelf id) = false.
Proof.
  intros [t (created & Hc & Hl)%TTID.isTTID_creationSegment]%ttid_some.
  assert (Shard.legacyShardOf id = Ok (take 2 created)) as Hs.
  { unfold Shard.legacyShardOf. by rewrite Hc. }
  unfold old_shelf. rewrite Hs. cbn [ok_or]. pose proof (Shard.legacyShardOf_clean _ _ Hs) as Hclean.
  split_and!; [done|done|rewrite length_take; lia|]. apply alnum_no_dots; [apply Hclean|].
  apply Shard.forallb_take. by apply Shard.creationSegment_ok in Hc as (_ & _ & ?).
Qed.

Lemma shelves_differ id id' : TTID.is_ttid id = true -> TTID.is_ttid id' = true -> shelf id <> old_shelf id'.
Proof.
  intros (_ & _ & Hl & _)%shelf_spec (_ & _ & Hl' & _)%old_shelf_spec Heq. rewrite Heq in Hl. lia.
Qed.

Lemma record_clean base b id : Forall Path.clean base -> Path.clean b -> TTID.is_ttid id = true ->
  Forall Path.clean (base ++ [b; file_of id]).
Proof.
  intros Hb Hc Hid. apply Forall_app. split; [done|]. rewrite !Forall_cons. split_and!; [done|by apply file_of_clean|constructor].
Qed.

Lemma place_clean base id : Forall Path.clean base -> TTID.is_ttid id = true -> Forall Path.clean (place base id).
Proof. intros Hb Hid. apply record_clean; [done|by apply shelf_spec|done]. Qed.

Lemma old_place_clean base id : Forall Path.clean base -> TTID.is_ttid id = true -> Forall Path.clean (old_place base id).
Proof. intros Hb Hid. apply record_clean; [done|by apply old_shelf_spec|done]. Qed.

Lemma place_inj base b f id : base ++ [b; f] = place base id -> b = shelf id /\ f = file_of id.
Proof. by intros [= -> ->]%app_inv_head. Qed.

Lemma shelf_path_clean base b : Forall Path.clean base -> Path.clean b -> Forall Path.clean (base ++ [b]).
Proof. intros ? ?. by rewrite Forall_app, Forall_singleton. Qed.

(** The paths the sources compute. *)
Lemma place_eq base id : Forall Path.clean base -> TTID.is_ttid id = true ->
  Path.join_strings [Path.abs_path base; shelf id; file_of id] = Path.abs_path (place base id) /\
  Path.assertPathInside (Path.abs_path base) (Path.abs_path (place base id)) = Ok ().
Proof.
  intros Hb Hid. pose proof (place_clean base id Hb Hid) as Hc. split.
  - rewrite Path.join_clean; [done|done|]. by apply Forall_app in Hc as [_ ?].
  - apply Path.inside_clean; [done|]. by apply shelf_spec.
Qed.

Lemma legacy_eq base id : Forall Path.clean base -> TTID.is_ttid id = true ->
  legacy_path (Path.abs_path base) id = Ok (Path.abs_path (old_place base id)).
Proof.
  intros Hb Hid. pose proof (old_place_clean base id Hb Hid) as Hc. unfold legacy_path.
  destruct (old_shelf_spec id Hid) as (-> & _ & _ & Hd). cbn [mbind outcome_bind].
  rewrite Path.join_clean; [|done|by apply Forall_app in Hc as [_ ?]].
  change (base ++ [old_shelf id; id ++ json_suffix]) with (old_place base id).
  pose proof (Path.inside_clean base [old_shelf id; file_of id] Hc Hd) as Hin.
  fold (old_place base id) in Hin. by rewrite Hin.
Qed.

Lemma legacy_differs base id : Forall Path.clean base -> TTID.is_ttid id = true ->
  jeqb (Path.abs_path (old_place base id)) (Path.abs_path (place base id)) = false.
Proof.
  intros Hb Hid. apply jeqb_neq. intros E.
  apply Path.abs_path_inj in E; [|by apply old_place_clean|by apply place_clean].
  apply app_inv_head in E. injection E as E'. by apply (shelves_differ id id).
Qed.

(** The identifier of a file name. *)
Lemma doc_of_file_spec x id : Path.clean x -> doc_of_file x = Some id <-> TTID.is_ttid id = true /\ x = file_of id.
Proof.
  intros Hx. unfold doc_of_file. destruct (ends_with json_suffix x) eqn:E.
  - apply ends_with_spec in E as [r ->]. rewrite Path.basename_clean by done.
    assert (drop_last (length json_suffix) (r ++ json_suffix) = r) as ->.
    { unfold drop_last. rewrite length_app, Nat.add_sub. apply take_app_length. }
    unfold file_of. split.
    + destruct (TTID.is_ttid r) eqn:Hr; [|done]. by intros [= <-].
    + intros [Hid Heq%app_inv_tail]. subst r. by rewrite Hid.
  - split; [done|]. intros [_ ->]. unfold file_of in E. by rewrite ends_with_app in E.
Qed.

(** ** The map *)

Section Drawer.
  Context {D : Type} `{FilesystemLaws D}.

(** Two trees that agree everywhere but under [base]. *)
Definition same_but (base : path) (d d' : D) : Prop :=
  forall q, Forall Path.clean q -> ~ base `prefix_of` q -> look d' q = look d q.

Lemma same_but_refl base d : same_but base d d.
Proof. by intros q. Qed.
Lemma same_but_trans base d1 d2 d3 : same_but base d1 d2 -> same_but base d2 d3 -> same_but base d1 d3.
Proof. intros H12 H23 q Hc Hq. by rewrite H23, H12. Qed.

(** Siblings do not see each other. *)
Lemma apart rc x y (q : path) : x <> y -> rc ++ [x] `prefix_of` q -> ~ rc ++ [y] `prefix_of` q.
Proof.
  intros Hne [r ->] [r' Hr]. rewrite <- !app_assoc in Hr. apply app_inv_head in Hr. cbn in Hr. by injection Hr.
Qed.

(** [base] is a directory that holds the records of [m], each under its shard, and no
    other record, be it in an old place. *)
Record drawer (d : D) (base : path) (m : gmap jstr object) : Prop := {
  drawer_there : look d base = Some Dir;
  drawer_docs b id : Path.clean b -> TTID.is_ttid id = true ->
    look d (base ++ [b; file_of id]) =
      if decide (b = shelf id) then (fun o => File (encode (Json.text (VObj o)))) <$> m !! id else None;
  drawer_shelf id : TTID.is_ttid id = true -> is_file (look d (base ++ [shelf id])) = false;
  drawer_keys id o : m !! id = Some o -> TTID.is_ttid id = true /\ Json.jsonable (VObj o) = true
}.

Lemma drawer_same d d' base m : Forall Path.clean base ->
  (forall q, Forall Path.clean q -> base `prefix_of` q -> look d' q = look d q) -> drawer d base m -> drawer d' base m.
Proof.
  intros Hb Hs [Ht Hd Hsh Hk]. constructor; [| | |done].
  - rewrite Hs; [done|done|done].
  - intros b id Hc Hid. rewrite Hs; [by apply Hd| |by eexists].
    by apply record_clean.
  - intros id Hid. rewrite Hs; [by apply Hsh| |by eexists]. apply shelf_path_clean; [done|by apply shelf_spec].
Qed.

(** A change under a sibling. *)
Lemma drawer_sibling d d' rc x y m : x <> y -> Forall Path.clean (rc ++ [x]) ->
  same_but (rc ++ [y]) d d' -> drawer d (rc ++ [x]) m -> drawer d' (rc ++ [x]) m.
Proof. intros Hne Hc Hs. apply drawer_same; [done|]. intros q Hq Hp. apply Hs; [done|]. by eapply apart. Qed.

Lemma drawer_place d base m id : drawer d base m -> TTID.is_ttid id = true ->
  look d (place base id) = (fun o => File (encode (Json.text (VObj o)))) <$> m !! id.
Proof.
  intros Hd Hid. unfold place. rewrite (drawer_docs _ _ _ Hd); [|by apply shelf_spec|done]. by rewrite decide_True.
Qed.

Lemma drawer_old d base m id : drawer d base m -> TTID.is_ttid id = true -> look d (old_place base id) = None.
Proof.
  intros Hd Hid. unfold old_place. rewrite (drawer_docs _ _ _ Hd); [|by apply old_shelf_spec|done].
  rewrite decide_False; [done|]. intros E. by apply (shelves_differ id id).
Qed.

Lemma drawer_has d base m id : drawer d base m -> TTID.is_ttid id = true ->
  is_Some (look d (place base id)) <-> is_Some (m !! id).
Proof. intros Hd Hid. rewrite (drawer_place d base m id Hd Hid). by rewrite fmap_is_Some. Qed.

(** ** Operations *)

Context (d : D) (base : path) (m : gmap jstr object).
Hypothesis d_wf : wf d.
Hypothesis base_clean : Forall Path.clean base.
Hypothesis holds : drawer d base m.

Lemma exists_record id : TTID.is_ttid id = true ->
  exists_ (Path.abs_path (place base id)) d = (Ok (bool_decide (is_Some (m !! id))), d).
Proof.
  intros Hid. rewrite law_exists by (done || by apply place_clean). do 2 f_equal.
  apply bool_decide_ext. by apply drawer_has.
Qed.

Lemma exists_old id : TTID.is_ttid id = true -> exists_ (Path.abs_path (old_place base id)) d = (Ok false, d).
Proof.
  intros Hid. rewrite law_exists by (done || by apply old_place_clean). rewrite (drawer_old d base m) by done.
  by rewrite bool_decide_false by by intros [? ?].
Qed.

Lemma existing_record id : TTID.is_ttid id = true ->
  existingPath (Path.abs_path base) (Path.abs_path (place base id)) id d = (Ok (Path.abs_path (place base id)), d).
Proof.
  intros Hid. unfold existingPath. run (exists_record id Hid). case_bool_decide; [done|].
  rewrite legacy_eq by done. run_pure. rewrite legacy_differs by done. by run (exists_old id Hid).
Qed.

Lemma no_legacy_copy id : TTID.is_ttid id = true ->
  removeLegacyCopy (Path.abs_path base) (Path.abs_path (place base id)) id d = (Ok (), d).
Proof.
  intros Hid. unfold removeLegacyCopy. rewrite legacy_eq by done. run_pure. rewrite legacy_differs by done.
  by run (exists_old id Hid).
Qed.

Lemma read_record id o : m !! id = Some o ->
  readText (Path.abs_path (place base id)) d = (Ok (Json.text (VObj o)), d) /\
  parseJsonDocumentText (Json.text (VObj o)) = Ok o /\
  exists t, mtimeMs (Path.abs_path (place base id)) d = (Ok t, d).
Proof.
  intros Hm. destruct (drawer_keys _ _ _ holds id o Hm) as [Hid Hj].
  pose proof (drawer_place d base m id holds Hid) as Hl. rewrite Hm in Hl. cbn [fmap option_fmap option_map] in Hl.
  pose proof (place_clean base id base_clean Hid) as Hc. split_and!.
  - rewrite (law_readText d _ _ d_wf Hc Hl). by rewrite Json.decode_text.
  - destruct (Json.store_roundtrip _ Hj) as [_ Hp]. rewrite Json.decode_text in Hp by done.
    unfold parseJsonDocumentText. by rewrite Hp.
  - apply (law_mtimeMs d _ d_wf Hc). by rewrite Hl.
Qed.

Lemma prefix_of_place q id : q `prefix_of` base ++ [shelf id] ->
  q = base ++ [shelf id] \/ (q `prefix_of` base /\ look d q = Some Dir).
Proof.
  intros Hq. destruct (decide (q = base ++ [shelf id])) as [|Hne]; [by left|right].
  assert (q `prefix_of` base) as Hp by (by apply (above_snoc q base (shelf id))).
  split; [done|]. apply (look_prefix d q base); [done|done|apply holds|done].
Qed.

Lemma above_place q id : above q (place base id) <-> q `prefix_of` base ++ [shelf id].
Proof. unfold place. change [shelf id; file_of id] with ([shelf id] ++ [file_of id]). rewrite app_assoc. apply above_snoc. Qed.

Lemma shelf_not_place b id : base ++ [b] <> place base id.
Proof. intros E%(f_equal length). unfold place in E. rewrite !length_app in E. cbn in E. lia. Qed.

Lemma not_above_record b f id : ~ above (base ++ [b; f]) (place base id).
Proof.
  rewrite above_place. intros Hp%prefix_length. rewrite !length_app in Hp. cbn in Hp. lia.
Qed.

Lemma write_record id o : TTID.is_ttid id = true -> Json.jsonable (VObj o) = true ->
  exists d', writeText (Path.abs_path (place base id)) (Json.text (VObj o)) d = (Ok (), d') /\ wf d' /\
    drawer d' base (<[id := o]> m) /\ same_but base d d'.
Proof.
  intros Hid Hj. pose proof (place_clean base id base_clean Hid) as Hc.
  destruct (law_writeText d (place base id) (Json.text (VObj o))) as (d' & Hrun & Hw' & Hl); [done|done|by destruct base| | |].
  { rewrite (drawer_place d base m) by done. by destruct (m !! id). }
  { intros q [->|[_ ->]]%above_place%prefix_of_place; [by apply (drawer_shelf _ _ _ holds)|done]. }
  exists d'. split_and!; [done|done| |].
  - constructor.
    + rewrite Hl by done. unfold grown. rewrite decide_False by (intros E%app_not_self; done).
      rewrite decide_True; [done|]. apply above_place. by eexists.
    + intros b id' Hb Hid'. rewrite Hl; [|by apply record_clean].
      unfold grown. destruct (decide (base ++ [b; file_of id'] = place base id)) as [E|Hne].
      * apply place_inj in E as [-> ->%file_of_inj]. by rewrite decide_True, lookup_insert_eq.
      * rewrite decide_False by by apply not_above_record. rewrite (drawer_docs _ _ _ holds) by done.
        destruct (decide (b = shelf id')) as [->|]; [|done]. rewrite lookup_insert_ne; [done|]. by intros ->.
    + intros id' Hid'. rewrite Hl by (apply shelf_path_clean; [done|by apply shelf_spec]). unfold grown.
      rewrite decide_False by apply shelf_not_place.
      case_decide; [done|]. by apply (drawer_shelf _ _ _ holds).
    + intros id' o' [[<- <-]|[_ Hm]]%lookup_insert_Some; [done|]. by apply (drawer_keys _ _ _ holds).
  - intros q Hq Hni. rewrite Hl by done. unfold grown.
    rewrite decide_False by (intros ->; apply Hni; by eexists). case_decide as Ha; [|done].
    apply above_place, prefix_of_place in Ha as [->|[_ ->]]; [|done]. destruct Hni. by eexists.
Qed.

Lemma remove_record id o : m !! id = Some o ->
  exists d', remove (Path.abs_path (place base id)) d = (Ok (), d') /\ wf d' /\
    drawer d' base (delete id m) /\ same_but base d d'.
Proof.
  intros Hm. destruct (drawer_keys _ _ _ holds id o Hm) as [Hid Hj].
  pose proof (place_clean base id base_clean Hid) as Hc.
  pose proof (drawer_place d base m id holds Hid) as Hl0. rewrite Hm in Hl0. cbn [fmap option_fmap option_map] in Hl0.
  destruct (law_remove d (place base id) _ d_wf Hc Hl0) as (d' & Hrun & Hw' & Hl).
  exists d'. split_and!; [done|done| |].
  - constructor.
    + rewrite Hl by done. rewrite decide_False by (intros E%app_not_self; done). apply holds.
    + intros b id' Hb Hid'. rewrite Hl; [|by apply record_clean].
      destruct (decide (base ++ [b; file_of id'] = place base id)) as [E|Hne].
      * apply place_inj in E as [-> ->%file_of_inj]. by rewrite decide_True, lookup_delete_eq.
      * rewrite (drawer_docs _ _ _ holds) by done.
        destruct (decide (b = shelf id')) as [->|]; [|done]. rewrite lookup_delete_ne; [done|]. by intros ->.
    + intros id' Hid'. rewrite Hl by (apply shelf_path_clean; [done|by apply shelf_spec]).
      rewrite decide_False by apply shelf_not_place. by apply (drawer_shelf _ _ _ holds).
    + intros id' o' [_ Hm']%lookup_delete_Some. by apply (drawer_keys _ _ _ holds).
  - intros q Hq Hni. rewrite Hl by done. rewrite decide_False; [done|]. intros ->. apply Hni. by eexists.
Qed.

(** ** Listing *)

Definition bucket_ids (ids : list jstr) (bucket : jstr) : M D (list jstr) :=
  directory ← isDirectory (Path.join_strings [Path.abs_path base; bucket]);
  if negb directory then mret ids
  else files ← list_ (Path.join_strings [Path.abs_path base; bucket]);
       mret (ids ++ omap (fun file => doc_of_file file) files).

Lemma bucket_spec ids b : Path.clean b ->
  exists l, bucket_ids ids b d = (Ok (ids ++ l), d) /\ NoDup l /\
    forall id, id ∈ l <-> b = shelf id /\ is_Some (m !! id).
Proof.
  intros Hb. assert (Forall Path.clean (base ++ [b])) as Hc by by apply shelf_path_clean.
  assert (forall id, is_Some (m !! id) -> TTID.is_ttid id = true) as Hkeys.
  { intros id [o Ho]. by destruct (drawer_keys _ _ _ holds id o Ho). }
  assert (forall id, TTID.is_ttid id = true ->
    is_Some (look d ((base ++ [b]) ++ [file_of id])) <-> b = shelf id /\ is_Some (m !! id)) as Hrec.
  { intros id Hid. rewrite <- app_assoc. cbn [app]. rewrite (drawer_docs _ _ _ holds) by done. case_decide as E.
    - rewrite fmap_is_Some. tauto.
    - split; [by intros []|tauto]. }
  unfold bucket_ids. rewrite Path.join_clean by (done || by rewrite Forall_singleton).
  run (law_isDirectory d _ d_wf Hc). case_bool_decide as Hdir; cbn [negb].
  - destruct (law_list d _ d_wf Hc Hdir) as (names & Hrun & _ & Hnd & Hin). run Hrun.
    exists (omap (fun file => doc_of_file file) names). split_and!; [done| |].
    + apply NoDup_omap; [|done]. intros x y z Hx Hy.
      apply Hin in Hx as [_ Hx]. apply Hin in Hy as [_ Hy].
      intros [_ ->]%doc_of_file_spec [_ ->]%doc_of_file_spec; done.
    + intros id. rewrite list_elem_of_omap. split.
      * intros (x & [Hs Hx]%Hin & [Hid ->]%doc_of_file_spec); [|done]. by apply Hrec.
      * intros [-> Hm]. pose proof (Hkeys id Hm) as Hid. exists (file_of id). split.
        -- apply Hin. split; [by apply Hrec|by apply file_of_clean].
        -- by apply doc_of_file_spec; [apply file_of_clean|].
  - exists []. rewrite app_nil_r. split_and!; [done|constructor|]. intros id. rewrite elem_of_nil. split; [done|].
    intros [-> Hm]. pose proof (Hkeys id Hm) as Hid. apply Hdir. apply (look_parent d _ (file_of id)); [done| |by apply Hrec].
    rewrite <- app_assoc. by apply record_clean.
Qed.

Lemma buckets_spec names ids : NoDup names -> Forall Path.clean names -> NoDup ids ->
  (forall id, id ∈ ids -> is_Some (m !! id) /\ shelf id ∉ names) ->
  exists l, fold_m bucket_ids names ids d = (Ok l, d) /\ NoDup l /\
    forall id, id ∈ l <-> id ∈ ids \/ (shelf id ∈ names /\ is_Some (m !! id)).
Proof.
  revert ids. induction names as [|b names IH]; intros ids Hnd Hc Hids Hin; cbn [fold_m].
  { exists ids. split_and!; [done|done|]. intros id. rewrite elem_of_nil. tauto. }
  apply NoDup_cons in Hnd as [Hb Hnd]. apply Forall_cons in Hc as [Hcb Hc].
  destruct (bucket_spec ids b Hcb) as (l & Hrun & Hl & Hlin). run Hrun.
  destruct (IH (ids ++ l)) as (out & Hout & Hnd' & Hout_in); [done|done| | |].
  - apply NoDup_app. split_and!; [done| |done]. intros id [_ Hid]%Hin [-> _]%Hlin. apply Hid. by left.
  - intros id [[Hm Hid]%Hin|[-> Hm]%Hlin]%elem_of_app; [|done]. split; [done|]. intros ?. apply Hid. by right.
  - exists out. split_and!; [done|done|]. intros id. rewrite Hout_in, elem_of_app, Hlin, elem_of_cons. naive_solver.
Qed.

(** The directory's listing names the records, each once. *)
Lemma list_records :
  exists l, listBucketedDocIds (Path.abs_path base) d = (Ok l, d) /\ NoDup l /\ forall id, id ∈ l <-> is_Some (m !! id).
Proof.
  pose proof (drawer_there _ _ _ holds) as Ht. unfold listBucketedDocIds. run (law_exists d _ d_wf base_clean).
  rewrite Ht, bool_decide_true by by eexists. cbn [negb].
  destruct (law_list d _ d_wf base_clean Ht) as (names & Hrun & _ & Hnd & Hin). run Hrun.
  destruct (buckets_spec names [] Hnd) as (l & Hl & Hnd' & Hlin).
  - apply Forall_forall. intros x [_ Hx]%Hin. done.
  - constructor.
  - intros id Hid. by apply elem_of_nil in Hid.
  - exists l. split_and!; [exact Hl|done|]. intros id. rewrite Hlin, elem_of_nil. split; [by intros [|[_ ?]]|].
    intros Hm. right. split; [|done]. destruct Hm as [o Hm]. destruct (drawer_keys _ _ _ holds id o Hm) as [Hid _].
    apply Hin. split; [|by apply shelf_spec]. exists Dir. apply (look_parent d _ (file_of id)); [done| |].
    + rewrite <- app_assoc. by apply place_clean.
    + rewrite <- app_assoc. cbn [app]. fold (place base id). apply (drawer_has d base m id holds Hid). by eexists.
Qed.

End Drawer.
End Buckets.
