(* ===== verification/Metadata.v ===== *)
(** Document metadata: [src/browser/core/metadata.js], one sidecar file per document over
    any filesystem. *)

From S2P Require Import Prelude PathUtil JsNum JsValue Utf8 Json Shard Ttid Filesystem.

Module Metadata.

(** [/^[A-Za-z0-9][A-Za-z0-9._-]{0,63}$/] *)
Definition meta_char (c : N) : bool := is_alnum c || (c =? 46)%N || (c =? 95)%N || (c =? 45)%N.
Definition META_NAME (name : jstr) : bool :=
  match name with
  | c :: r => is_alnum c && forallb meta_char r && (length r <=? 63)
  | [] => false
  end.

Definition MAX_META_VALUE_BYTES : N := 60 * 1024.

Definition plain_object_error : js_error := Error (js "Metadata must be a plain object of name/value pairs").
Definition name_error : js_error := Error
  (js "Metadata name must be 1-64 characters: letters, digits, " ++
   [34%N; 46%N; 34%N] ++ js ", " ++ [34%N; 95%N; 34%N] ++ js " or " ++ [34%N; 45%N; 34%N] ++
   js ", starting with a letter or digit").
Definition serializable_error : js_error := Error (js "Metadata values must be JSON-serializable").
Definition size_error : js_error := Error (js "Metadata values must be at most 60 KiB when JSON-encoded").

Definition validate_entry (name : jstr) (v : value) : outcome () :=
  if negb (META_NAME name) then Throw name_error
  else match v with
       | VNull => Ok ()
       | _ => match Json.stringify v with
              | None => Throw serializable_error
              | Some encoded =>
                  if (MAX_META_VALUE_BYTES <? N.of_nat (length (Utf8.encode encoded)))%N then Throw size_error else Ok ()
              end
       end.

Fixpoint validate_entries (o : object) : outcome () :=
  match o with
  | [] => Ok ()
  | (name, v) :: rest => _ ← validate_entry name v; validate_entries rest
  end.

Definition validateMetadataRecord (record : value) : outcome () :=
  match record with VObj o => validate_entries o | _ => Throw plain_object_error end.

(** [delete values[name]] for [null], else [values[name] = copySafeJson(value)]. *)
Definition apply_meta (values : object) (kv : jstr * value) : object :=
  match snd kv with
  | VNull => obj_delete (fst kv) values
  | v => obj_set (fst kv) (copySafeJson v) values
  end.

(** [values] of the parsed sidecar: a record, or nothing; [null] passes the code's test
    and is copied as it is. *)
Definition values_of (parsed : value) : value :=
  if truthy parsed then
    match prop parsed (js "values") with
    | VObj o => copySafeJson (VObj o)
    | VNull => VNull
    | _ => VObj safeRecord
    end
  else VObj safeRecord.

Definition updatedAt_of (parsed : value) : Num.num :=
  match prop parsed (js "updatedAt") with VNum n => n | _ => Num.zero end.

Section Store.
  Context {D : Type} `{FyloFilesystem D, Clock D}.
  Context (collectionRoot : jstr -> outcome jstr).

Definition root (collection : jstr) : outcome jstr :=
  base ← collectionRoot collection; Ok (Path.join_strings [base; js ".metadata"]).

Definition path (collection id : jstr) : outcome jstr :=
  if negb (TTID.is_ttid id) then Throw (Error (js "Invalid document ID: " ++ id))
  else
    root ← root collection;
    shard ← Shard.defaultShardOf id;
    let target := Path.join_strings [root; shard; id ++ js ".json"] in
    _ ← Path.assertPathInside root target;
    Ok target.

Definition legacyPath (collection id : jstr) : outcome jstr :=
  root ← root collection;
  shard ← Shard.legacyShardOf id;
  let target := Path.join_strings [root; shard; id ++ js ".json"] in
  _ ← Path.assertPathInside root target;
  Ok target.

Definition existingPath (collection id : jstr) : M D jstr :=
  canonical ← lift (path collection id);
  found ← exists_ canonical;
  if found : bool then mret canonical
  else
    legacy ← lift (legacyPath collection id);
    if jeqb legacy canonical then mret canonical
    else found ← exists_ legacy; mret (if found : bool then legacy else canonical).

(** [read(collection, id)]: the values and [updatedAt]. *)
Definition read (collection id : jstr) : M D (value * Num.num) :=
  target ← existingPath collection id;
  found ← exists_ target;
  if negb found then mret (VObj safeRecord, Num.zero)
  else
    text ← readText target;
    parsed ← lift (Json.parse text);
    mret (values_of parsed, updatedAt_of parsed).

Definition write (collection id : jstr) (values : value) (updatedAt : Num.num) : M D (value * Num.num) :=
  target ← lift (path collection id);
  root ← lift (root collection);
  shard ← lift (Shard.defaultShardOf id);
  _ ← mkdir (Path.join_strings [root; shard]) true;
  _ ← writeText target (Json.text (Json.carried (VObj [(js "values", values); (js "updatedAt", VNum updatedAt)])));
  legacy ← lift (legacyPath collection id);
  _ ← (if jeqb legacy target then mret () else found ← exists_ legacy; when found (remove legacy));
  mret (values, updatedAt).

(** [Math.max(a, b)] *)
Definition max_num (a b : Num.num) : Num.num :=
  match a, b with
  | SpecFloat.S754_nan, _ | _, SpecFloat.S754_nan => Num.nan
  | _, _ => if Num.lt a b then b else a
  end.

(** The loop over [mutations]; [values] is [null] only if a sidecar says so, and then a
    write to it throws. *)
Definition apply_mutations (values : value) (mutations : object) : outcome value :=
  match values, mutations with
  | VObj o, _ => Ok (VObj (fold_left apply_meta mutations o))
  | _, [] => Ok values
  | _, _ => Throw (type_error (js "Cannot convert undefined or null to object"))
  end.

Definition mutate (collection id : jstr) (mutations : value) : M D (value * Num.num) :=
  _ ← lift (validateMetadataRecord mutations);
  current ← read collection id;
  values ← lift (apply_mutations (copySafeJson (fst current)) (entries mutations));
  t ← now;
  write collection id values (max_num (Num.of_Z t) (Num.add (snd current) (Num.of_Z 1))).

End Store.
(** ** Bounds *)

(** A pair that may be stored: a short name and a value of bounded text. *)
Definition bounded (kv : jstr * value) : Prop :=
  1 <= length (fst kv) <= 64 /\
  (exists text, Json.stringify (snd kv) = Some text /\ (N.of_nat (length (Utf8.encode text)) <= 61440)%N).

Lemma name_length name : META_NAME name = true -> 1 <= length name <= 64.
Proof.
  destruct name as [|c r]; [done|]. unfold META_NAME. rewrite !andb_true_iff. intros [_ Hr%Nat.leb_le]. cbn [length]. lia.
Qed.

Lemma validate_entries_ok o : validate_entries o = Ok () ->
  Forall (fun kv => META_NAME (fst kv) = true /\ (snd kv = VNull \/ bounded kv)) o.
Proof.
  induction o as [|[name v] o IH]; cbn [validate_entries]; [constructor|]. unfold validate_entry.
  destruct (META_NAME name) eqn:Hn; cbn [negb]; [|done]. intros Hv. apply Forall_cons.
  assert (forall x : outcome (), (_ ← x; validate_entries o) = Ok () -> x = Ok () /\ validate_entries o = Ok ()) as Hb by by intros [[]|].
  apply Hb in Hv as [Hv Ho]. split; [|by apply IH]. split; [done|]. cbn [fst snd].
  destruct (decide (v = VNull)) as [|Hne]; [by left|right]. split; [by apply name_length|]. cbn [snd].
  destruct (Json.stringify v) as [t|] eqn:Ht; [|by destruct v].
  destruct (MAX_META_VALUE_BYTES <? N.of_nat (length (Utf8.encode t)))%N eqn:Hs; [by destruct v|].
  exists t. split; [done|]. unfold MAX_META_VALUE_BYTES in Hs. lia.
Qed.

Lemma bounded_delete k values : Forall bounded values -> Forall bounded (obj_delete k values).
Proof.
  unfold obj_delete. induction 1 as [|[k' v] o Hv Ho IH]; cbn [alist_remove]; [constructor|].
  destruct (decide (k = k')); [done|]. by constructor.
Qed.

Lemma NoDup_delete {A} k (o : list (jstr * A)) : NoDup (keys o) -> NoDup (keys (obj_delete k o)).
Proof.
  unfold obj_delete. induction o as [|[k' v] o IH]; cbn [alist_remove keys map fst]; [done|].
  intros [Hk Ho]%NoDup_cons. destruct (decide (k = k')); [done|]. cbn [keys map fst]. apply NoDup_cons. split; [|by apply IH].
  intros Hin. apply Hk. clear -Hin. induction o as [|[k2 v2] o IH]; [done|]. cbn [alist_remove] in Hin.
  cbn [map fst] in *. destruct (decide (k = k2)); [by right|]. cbn [map fst] in Hin.
  apply elem_of_cons in Hin as [->|Hin]; [by left|right; by apply IH].
Qed.

(** The mutations one by one. *)
Lemma apply_all m values :
  Forall (fun kv => snd kv = VNull \/ bounded kv) m -> forallb (fun kv => wf_value (snd kv)) m = true -> NoDup (keys m) ->
  NoDup (keys values) -> Forall bounded values ->
  Forall bounded (fold_left apply_meta m values) /\
  (forall name, name ∉ keys m -> alist_get name (fold_left apply_meta m values) = alist_get name values) /\
  (forall name, alist_get name m = Some VNull -> alist_get name (fold_left apply_meta m values) = None).
Proof.
  intros Hm. revert values. induction Hm as [|[k v] m Hkv _ IH]; intros values Hwf Hnd Hv Hb; cbn [fold_left]; [done|].
  cbn [forallb snd] in Hwf. apply andb_true_iff in Hwf as [Hwv Hwf]. cbn [keys map fst] in Hnd. apply NoDup_cons in Hnd as [Hk Hnd].
  assert (NoDup (keys (apply_meta values (k, v))) /\ Forall bounded (apply_meta values (k, v)) /\
    (forall name, name <> k -> alist_get name (apply_meta values (k, v)) = alist_get name values) /\
    (v = VNull -> alist_get k (apply_meta values (k, v)) = None)) as (Hv1 & Hb1 & Hne1 & Hnull).
  { cbn [snd] in Hkv. destruct (decide (v = VNull)) as [->|Hne].
    - unfold apply_meta. cbn [fst snd]. split_and!; [by apply NoDup_delete|by apply bounded_delete| |].
      + intros name Hn. by apply alist_get_delete_ne.
      + intros _. by apply alist_get_delete_eq.
    - destruct Hkv as [|Hbv]; [done|].
      assert (apply_meta values (k, v) = obj_set k v values) as ->.
      { unfold apply_meta. cbn [fst snd]. destruct v; try done; by rewrite copySafeJson_wf. }
      split_and!; [by apply NoDup_obj_set|by apply Forall_obj_set| |done].
      intros name Hn. by rewrite alist_get_obj_set, decide_False. }
  destruct (IH _ Hwf Hnd Hv1 Hb1) as (Hb2 & Hother & Hnulls). split_and!; [done| |].
  - intros name Hn. cbn [keys map fst] in Hn. apply not_elem_of_cons in Hn as [Hn Hni]. by rewrite Hother, Hne1.
  - intros name. cbn [alist_get]. destruct (decide (name = k)) as [->|Hn]; [|apply Hnulls].
    intros [= ->]. rewrite Hother by done. by apply Hnull.
Qed.

(** C33: a mutation that is accepted keeps a document's metadata bounded: every pair
    stored has a name of 1 to 64 characters and a value whose JSON text is at most 61440
    bytes, every other pair is what it was, and a [null] removes its name. *)
Theorem metadata_bounded values m : validateMetadataRecord (VObj m) = Ok () -> wf_value (VObj m) = true ->
  NoDup (keys values) -> Forall bounded values ->
  exists o, apply_mutations (VObj values) m = Ok (VObj o) /\ Forall bounded o /\
    (forall name, name ∉ keys m -> alist_get name o = alist_get name values) /\
    (forall name, alist_get name m = Some VNull -> alist_get name o = None).
Proof.
  intros Hval%validate_entries_ok [Hk Hwf]%andb_true_iff Hv Hb. exists (fold_left apply_meta m values). split.
  - by destruct m.
  - apply apply_all; [|done|by apply ordered_keys_NoDup|done|done].
    eapply Forall_impl; [exact Hval|]. by intros kv [_ H].
Qed.

Lemma metadata_bounded_witness :
  exists o, apply_mutations (VObj [(js "tag", VStr (js "red")); (js "old", VBool true)])
              [(js "size", VNum (Num.of_Z 3)); (js "old", VNull)] = Ok (VObj o) /\ Forall bounded o /\
    (forall name, name ∉ keys [(js "size", VNum (Num.of_Z 3)); (js "old", VNull)] ->
       alist_get name o = alist_get name [(js "tag", VStr (js "red")); (js "old", VBool true)]) /\
    (forall name, alist_get name [(js "size", VNum (Num.of_Z 3)); (js "old", VNull)] = Some VNull -> alist_get name o = None).
Proof.
  apply (metadata_bounded [(js "tag", VStr (js "red")); (js "old", VBool true)]
           [(js "size", VNum (Num.of_Z 3)); (js "old", VNull)]).
  - by vm_compute.
  - by vm_compute.
  - apply (bool_decide_unpack _). by vm_compute.
  - repeat (apply Forall_cons; split; [split; [vm_compute; lia|eexists; split; [vm_compute; reflexivity|by vm_compute]]|]). constructor.
Defined.

End Metadata.
