(* ===== verification/Events.v ===== *)
(** The event journal and its subscribers: class [BrowserEventBus] of
    [src/browser/core/event-bus.js].  Listeners are numbered; what each was called with
    is kept in order. *)

From S2P Require Import Prelude PathUtil JsValue Json Utf8 Filesystem.

Module Events.

(** The [EventTarget]: the handlers added and not removed, in order, and the calls made. *)
Record bus := mkBus {
  handlers : list (nat * jstr);
  next_handler : nat;
  calls : list (nat * value)
}.

Definition new_bus : bus := mkBus [] 0 [].

(** [this.target.dispatchEvent(new CustomEvent(collection, { detail: event }))] *)
Definition dispatch (collection : jstr) (event : value) (b : bus) : bus :=
  mkBus (handlers b) (next_handler b)
    (calls b ++ omap (fun h => if decide (snd h = collection) then Some (fst h, event) else None) (handlers b)).

(** [subscribe(collection, listener)]: the listener's number, which [unsubscribe] takes. *)
Definition subscribe (collection : jstr) (b : bus) : nat * bus :=
  (next_handler b, mkBus (handlers b ++ [(next_handler b, collection)]) (S (next_handler b)) (calls b)).

Definition unsubscribe (n : nat) (b : bus) : bus :=
  mkBus (filter (fun h => fst h <> n) (handlers b)) (next_handler b) (calls b).

(** What a listener has been called with. *)
Definition received (n : nat) (b : bus) : list value :=
  omap (fun c => if decide (fst c = n) then Some (snd c) else None) (calls b).

(** [listen(collection)]: the generator's queue between its listener and its consumer. *)
Record listening := mkListening { queue : list value; yielded : list value }.

(** The listener pushes; a consumer that asks for the next value takes the first of the
    queue, or waits for the wake. *)
Definition push (event : value) (l : listening) : listening := mkListening (queue l ++ [event]) (yielded l).
Definition pull (l : listening) : option listening :=
  match queue l with
  | [] => None
  | event :: rest => Some (mkListening rest (yielded l ++ [event]))
  end.

Section Journal.
  Context {D : Type} `{FyloFilesystem D}.
  Context (rootForCollection : jstr -> outcome jstr).

Definition journalPath (collection : jstr) : outcome jstr :=
  root ← rootForCollection collection;
  Ok (Path.join_strings [root; js "events"; collection ++ js ".ndjson"]).

(** [`${JSON.stringify(event)}\n`] *)
Definition journal_line (event : value) : jstr := Json.text (Json.carried event) ++ [10%N].

(** [publish(collection, event)]: the journal first, then the subscribers. *)
Definition publish (collection : jstr) (event : value) : M (D * bus) () := fun s =>
  let '(d, b) := s in
  match journalPath collection with
  | Throw e => (Throw e, s)
  | Ok path =>
      match appendText path (journal_line event) d with
      | (Throw e, d') => (Throw e, (d', b))
      | (Ok _, d') => (Ok (), (d', dispatch collection event b))
      end
  end.

End Journal.
(** ** Who hears what *)

Inductive bus_op := Subscribe (collection : jstr) | Unsubscribe (n : nat) | Dispatch (collection : jstr) (event : value).

Definition bus_step (b : bus) (op : bus_op) : bus :=
  match op with
  | Subscribe collection => snd (subscribe collection b)
  | Unsubscribe n => unsubscribe n b
  | Dispatch collection event => dispatch collection event b
  end.

(** The events the listener [n] should get: those of its collection between its
    subscription, the [n]-th, and its end.  [next] counts the subscriptions so far and
    [on] is the collection it listens to. *)
Fixpoint heard (n next : nat) (on : option jstr) (ops : list bus_op) : list value :=
  match ops with
  | [] => []
  | Subscribe collection :: rest => heard n (S next) (if decide (next = n) then Some collection else on) rest
  | Unsubscribe m :: rest => heard n next (if decide (m = n) then None else on) rest
  | Dispatch collection event :: rest => (if decide (on = Some collection) then [event] else []) ++ heard n next on rest
  end.

(** What the bus knows of the listener [n]. *)
Record knows (n : nat) (on : option jstr) (b : bus) : Prop := {
  known_nodup : NoDup (map fst (handlers b));
  known_below : Forall (fun h => fst h < next_handler b) (handlers b);
  known_on collection : (n, collection) ∈ handlers b <-> on = Some collection
}.

Lemma deliver n on collection event hs : NoDup (map fst hs) ->
  (forall c, (n, c) ∈ hs <-> on = Some c) ->
  omap (fun c : nat * value => if decide (fst c = n) then Some (snd c) else None)
    (omap (fun h : nat * jstr => if decide (snd h = collection) then Some (fst h, event) else None) hs) =
  if decide (on = Some collection) then [event] else [].
Proof.
  revert on. induction hs as [|[m c] hs IH]; intros on Hnd Hon.
  { rewrite decide_False; [done|]. intros E. apply Hon in E. by apply elem_of_nil in E. }
  cbn [map fst] in Hnd. apply NoDup_cons in Hnd as [Hm Hnd]. cbn [omap list_omap fst snd].
  destruct (decide (m = n)) as [->|Hne].
  - assert (on = Some c) as -> by (apply Hon; by left).
    pose proof (IH None Hnd) as IHn. rewrite (decide_False (P := @None jstr = Some collection)) in IHn by done.
    destruct (decide (c = collection)) as [->|Hc]; cbn [omap list_omap fst snd].
    + rewrite !decide_True by done. rewrite IHn; [done|]. intros c'. split; [|done]. intros Hin. destruct Hm.
      apply list_elem_of_fmap. by exists (n, c').
    + rewrite (decide_False (P := Some c = Some collection)) by congruence. apply IHn. intros c'. split; [|done].
      intros Hin. destruct Hm. apply list_elem_of_fmap. by exists (n, c').
  - rewrite <- (IH on Hnd).
    + destruct (decide (c = collection)); cbn [omap list_omap fst snd]; [by rewrite decide_False|done].
    + intros c'. rewrite <- Hon, elem_of_cons. split; [by right|]. by intros [[= -> _]|].
Qed.

Lemma received_run n on b ops : knows n on b ->
  received n (fold_left bus_step ops b) = received n b ++ heard n (next_handler b) on ops.
Proof.
  revert on b. induction ops as [|op ops IH]; intros on b [Hnd Hb Hon]; cbn [fold_left heard]; [by rewrite app_nil_r|].
  destruct op as [collection|m|collection event]; cbn [bus_step].
  - rewrite (IH (if decide (next_handler b = n) then Some collection else on)); [done|]. cbn [snd subscribe]. constructor; cbn [handlers next_handler].
    + rewrite map_app. apply NoDup_app. split_and!; [done| |by apply NoDup_singleton].
      intros x (h & -> & Hh)%list_elem_of_fmap Hx%list_elem_of_singleton. cbn [fst] in Hx.
      rewrite Forall_forall in Hb. apply Hb in Hh. lia.
    + apply Forall_app. split; [|by apply Forall_singleton; cbn; lia]. eapply Forall_impl; [exact Hb|]. cbn. lia.
    + intros c. rewrite elem_of_app, list_elem_of_singleton, Hon. destruct (decide (next_handler b = n)) as [<-|Hne].
      * split; [|by intros [= ->]; right]. intros [->|[= ->]]; [|done]. exfalso.
        assert ((next_handler b, c) ∈ handlers b) as Hin by by apply Hon. rewrite Forall_forall in Hb. apply Hb in Hin. cbn in Hin. lia.
      * split; [|by left]. intros [?|[= E _]]; [done|]. by subst.
  - rewrite (IH (if decide (m = n) then None else on)); [done|]. constructor; cbn [handlers next_handler unsubscribe].
    + clear IH Hon Hb. induction (handlers b) as [|h hs IHh]; [done|]. cbn [map] in Hnd. apply NoDup_cons in Hnd as [Hh Hnd].
      rewrite filter_cons. destruct (decide (fst h <> m)); [|by apply IHh]. cbn [map]. apply NoDup_cons. split; [|by apply IHh].
      intros (x & Hx & [_ Hin]%list_elem_of_filter)%list_elem_of_fmap. apply Hh. rewrite Hx. apply list_elem_of_fmap. by exists x.
    + apply Forall_forall. intros h [_ Hh]%list_elem_of_filter. rewrite Forall_forall in Hb. by apply Hb.
    + intros c. rewrite list_elem_of_filter, Hon. cbn [fst]. destruct (decide (m = n)) as [->|Hne]; [|naive_solver]. split; [by intros [? _]|done].
  - rewrite (IH on); [|by constructor]. unfold received, dispatch. cbn [calls next_handler].
    rewrite omap_app, <- app_assoc. do 2 f_equal. by apply deliver.
Qed.

(** Every subscriber hears exactly the events of its collection that were dispatched
    between its subscription and its end, each once and in order, whatever the other
    subscribers do. *)
Theorem subscribers_hear n ops : received n (fold_left bus_step ops new_bus) = heard n 0 None ops.
Proof.
  apply (received_run n None new_bus). constructor; [constructor|constructor|]. intros c. split; [|done]. by intros ?%elem_of_nil.
Qed.

(** A listening generator yields what was pushed, in order. *)
Inductive turn := Push (event : value) | Pull.
Definition turn_step (l : listening) (t : turn) : listening :=
  match t with Push event => push event l | Pull => default l (pull l) end.
Definition pushed (ts : list turn) : list value := omap (fun t => match t with Push e => Some e | Pull => None end) ts.

Lemma listen_in_order ts l :
  yielded (fold_left turn_step ts l) ++ queue (fold_left turn_step ts l) = yielded l ++ queue l ++ pushed ts.
Proof.
  revert l. induction ts as [|t ts IH]; intros l; cbn [fold_left]; [by rewrite app_nil_r|]. rewrite IH.
  destruct t as [e|]; cbn [turn_step pushed omap list_omap push queue yielded].
  - by rewrite <- app_assoc.
  - unfold pull. destruct (queue l) as [|x q] eqn:E; cbn [default from_option id queue yielded]; [by rewrite E|]. by rewrite <- app_assoc.
Qed.

End Events.
