(* ===== verification/Engine.v ===== *)
(** The browser core: class [BrowserCore] of [src/browser/core/engine.js], which composes
    the documents, the metadata, the events, the prefix index and the query evaluator over
    one filesystem, and [appendGroup] of [src/core/extensions.js]. *)

From stdpp Require Import gmap.
From S2P Require Import Prelude PathUtil JsNum JsValue Like Json Shard Ttid Parser Plan Codec Filesystem PrefixIndex.
From S2P Require Import Query Documents Metadata Events.

Module Extensions.

Definition plain_record (v : value) : bool := match v with VObj _ => true | _ => false end.

(** One turn of the loop over the source's groups. *)
Definition append_step (result : object) (entry : jstr * value) : outcome object :=
  let '(sourceId, sourceGroup) := entry in
  match alist_get sourceId result with
  | None =>
      Ok (obj_set sourceId
            (match sourceGroup with VObj o => VObj (copySafeRecord o) | _ => sourceGroup end) result)
  | Some current =>
      if is_nullish sourceGroup then Throw (type_error (js "Cannot convert undefined or null to object"))
      else
        let base := match current with VObj o => copySafeRecord o | _ => safeRecord end in
        Ok (obj_set sourceId (VObj (fold_left (fun g kv => obj_set (fst kv) (snd kv) g) (entries sourceGroup) base)) result)
  end.

(** [appendGroup(target, source)] *)
Definition appendGroup (target source : value) : outcome value :=
  VObj <$> Codec.fold_outcome append_step (copySafeRecord (entries target)) (entries source).

(** Merging two groups that are lists of identifiers, which is what grouped results
    hold when only identifiers are asked for, loses the first list and turns the second
    into a record by position. *)
Theorem appendGroup_loses_ids group first second :
  appendGroup (VObj [(group, VArr [first])]) (VObj [(group, VArr [second])]) =
  Ok (VObj [(group, VObj [(js "0", second)])]).
Proof.
  unfold appendGroup, append_step, copySafeRecord, obj_set.
  cbn -[decide js]. rewrite !decide_True by done. cbn -[decide js]. by rewrite ?decide_True by done.
Qed.

End Extensions.

Module Engine.
Import Documents Events.

(** ** The plans *)

Inductive BROWSER_OPERATION :=
| noop | putInsert | putUpdate | op_delete | op_restore
| errWormUpdate | errWormDelete | errWormRestore | errSoftDeleted
| errRestoreActiveExists | errRestoreMissingTombstone.

Definition planPutOperation (existing worm deleted : bool) : BROWSER_OPERATION :=
  if deleted then errSoftDeleted
  else if worm && existing then errWormUpdate
  else if existing then putUpdate else putInsert.

Definition planDeleteOperation (existing worm : bool) : BROWSER_OPERATION :=
  if worm then errWormDelete else if existing then op_delete else noop.

Definition planRestoreOperation (activeExists deletedExists worm : bool) : BROWSER_OPERATION :=
  if worm then errWormRestore
  else if activeExists then errRestoreActiveExists
  else if negb deletedExists then errRestoreMissingTombstone
  else op_restore.

(** [explicitDocumentEntry(value)] *)
Definition explicitDocumentEntry (data : object) : outcome (option (jstr * object)) :=
  match data with
  | [(candidate, doc)] =>
      if negb (TTID.is_ttid candidate) then Ok None
      else match doc with
           | VObj o => Ok (Some (candidate, o))
           | _ => Throw (Error (js "Explicit TTID document payload must be an object"))
           end
  | _ => Ok None
  end.

Definition validateDocId : jstr -> outcome () := Documents.validateDocId.

(** ** Joins *)

Definition JOIN_COMPARATORS : list (jstr * (value -> value -> bool)) :=
  [(js "$eq", strict_eq);
   (js "$ne", fun l r => negb (strict_eq l r));
   (js "$gt", fun l r => Num.gt (to_num l) (to_num r));
   (js "$lt", fun l r => Num.lt (to_num l) (to_num r));
   (js "$gte", fun l r => Num.ge (to_num l) (to_num r));
   (js "$lte", fun l r => Num.le (to_num l) (to_num r))].

(** The modes by name; the merging ones assign the right fields over the left. *)
Definition JOIN_MODES : list (jstr * (object -> object -> object)) :=
  [(js "inner", fun l r => obj_assign (obj_assign safeRecord l) r);
   (js "outer", fun l r => obj_assign (obj_assign safeRecord l) r);
   (js "left", fun l _ => l);
   (js "right", fun _ r => r)].

Definition joinRowMatches (join : value) (leftData rightData : object) : outcome bool :=
  let on := prop join (js "$on") in
  if is_nullish on then Throw (type_error (js "Cannot convert undefined or null to object"))
  else Ok (existsb (fun '(field, operand) =>
         truthy operand &&
         existsb (fun '(opKey, compare) =>
           let rightField := prop operand opKey in
           truthy rightField &&
           compare (Query.getValueByPath (VObj leftData) field)
                   (Query.getValueByPath (VObj rightData) (to_str rightField))) JOIN_COMPARATORS) (entries on)).

(** [JOIN_MODES] is an ordinary object, so a mode can also name what every object inherits, which
    is called as a combiner: [Object] gives back the left document, [toString] a text, and the
    others, called on [undefined], throw; [__proto__] is no function. *)
Definition inherited_mode (mode : jstr) (leftData : object) : option (outcome value) :=
  if jeqb mode (js "constructor") then Some (Ok (VObj leftData))
  else if jeqb mode (js "toString") then Some (Ok (VStr (js "[object Undefined]")))
  else if jeqb mode (js "__proto__") then Some (Throw (type_error (js "combine is not a function")))
  else if existsb (fun name => jeqb mode (js name))
            ["hasOwnProperty"; "isPrototypeOf"; "propertyIsEnumerable"; "toLocaleString"; "valueOf"; "__defineGetter__"; "__defineSetter__";
             "__lookupGetter__"; "__lookupSetter__"]%string
       then Some (Throw (type_error (js "Cannot convert undefined or null to object")))
  else None.

(** The row of a pair, [undefined] for an unknown mode, then [$select] and [$rename]. *)
Definition projectJoinRow (join : value) (leftData rightData : object) : outcome value :=
  let mode := to_str (prop join (js "$mode")) in
  projected ← (match alist_get mode JOIN_MODES with
               | Some combine => Ok (VObj (combine leftData rightData))
               | None => default (Ok VUndef) (inherited_mode mode leftData)
               end);
  if Query.selects join || truthy (prop join (js "$rename")) then
    if is_nullish projected then Throw (type_error (js "Cannot convert undefined or null to object"))
    else Ok (VObj (Query.project join (entries projected)))
  else Ok projected.

Definition reached (limit : value) (count : nat) : bool :=
  truthy limit && Num.ge (Num.of_Z (Z.of_nat count)) (to_num limit).

(** The inner loop, for one left document: stops once the limit is reached. *)
Fixpoint join_right (join : value) (leftId : jstr) (leftData : object) (rights : list (jstr * object)) (docs : object)
    : outcome object :=
  match rights with
  | [] => Ok docs
  | (rightId, rightData) :: rest =>
      matched ← joinRowMatches join leftData rightData;
      if negb matched then join_right join leftId leftData rest docs
      else
        row ← projectJoinRow join leftData rightData;
        let docs' := obj_set (leftId ++ js ", " ++ rightId) row docs in
        if reached (prop join (js "$limit")) (length docs') then Ok docs'
        else join_right join leftId leftData rest docs'
  end.

Fixpoint join_left (join : value) (lefts rights : list (jstr * object)) (docs : object) : outcome object :=
  match lefts with
  | [] => Ok docs
  | (leftId, leftData) :: rest =>
      docs' ← join_right join leftId leftData rights docs;
      if reached (prop join (js "$limit")) (length docs') then Ok docs' else join_left join rest rights docs'
  end.

(** [data[groupby]] of a row: an object's own field, or a text's length or character. *)
Definition row_field (data : value) (groupby : jstr) : value :=
  match data with
  | VStr s => if jeqb groupby (js "length") then VNum (Num.of_Z (Z.of_nat (length s))) else default VUndef (alist_get groupby (entries data))
  | _ => prop data groupby
  end.

(** [groupJoinedDocs(join, docs)] *)
Definition group_step (groupby : jstr) (grouped : list (jstr * object)) (row : jstr * value) : outcome (list (jstr * object)) :=
  let '(ids, data) := row in
  if is_nullish data then Throw (type_error (js "Cannot read properties of undefined"))
  else
    let key := to_str (row_field data groupby) in
    Ok (obj_set key (obj_set ids data (default [] (alist_get key grouped))) grouped).

Definition groupJoinedDocs (join : value) (docs : object) : outcome value :=
  grouped ← Codec.fold_outcome (group_step (to_str (prop join (js "$groupby")))) [] docs;
  Ok (VObj (map (fun g => (fst g, if truthy (prop join (js "$onlyIds")) then Query.ids_value (snd g) else VObj (snd g))) grouped)).

Definition join_result (join : value) (docs : object) : outcome value :=
  if truthy (prop join (js "$groupby")) then groupJoinedDocs join docs
  else if truthy (prop join (js "$onlyIds")) then Ok (Query.ids_value docs)
  else Ok (VObj docs).

(** ** The core's state *)

Record core (D : Type) := mkCore { core_index : PrefixIndex.index_state D; core_bus : bus }.
Arguments mkCore {D}. Arguments core_index {D}. Arguments core_bus {D}.

Definition new_core {D} (d : D) : core D := mkCore (PrefixIndex.new_index d) new_bus.

Definition core_disk {D} (s : core D) : D := PrefixIndex.index_disk (core_index s).

(** A call into the index, or into the filesystem. *)
Definition on_index {D A} (m : M (PrefixIndex.index_state D) A) : M (core D) A := fun s =>
  let '(r, i) := m (core_index s) in (r, mkCore i (core_bus s)).
Definition on_fs {D A} (m : M D A) : M (core D) A := on_index (PrefixIndex.on_disk m).

Section Core.
  Context {D : Type} `{FyloFilesystem D, Clock D, Performance D}.
  Context (sha256Hex : jstr -> jstr) (indexScannerFactory : option PrefixIndex.scanner_factory).
  (** [options.root] and [options.worm.mode === 'strict'] *)
  Context (root : jstr) (wormEnabled : bool).

Definition assertCollectionName (collection : jstr) : outcome () := Collection.validateCollectionName collection.

Definition collectionRoot (collection : jstr) : outcome jstr :=
  _ ← assertCollectionName collection;
  Ok (Path.join_strings [root; js ".collections"; collection]).

Definition docsRoot (collection : jstr) : outcome jstr :=
  base ← collectionRoot collection; Ok (Path.join_strings [base; js "docs"]).
Definition deletedRoot (collection : jstr) : outcome jstr :=
  base ← collectionRoot collection; Ok (Path.join_strings [base; js ".deleted"]).
Definition metaRoot (collection : jstr) : outcome jstr := collectionRoot collection.

Definition sharded_path (rootOf : jstr -> outcome jstr) (collection docId : jstr) : outcome jstr :=
  _ ← validateDocId docId;
  base ← rootOf collection;
  shard ← Shard.defaultShardOf docId;
  let target := Path.join_strings [base; shard; docId ++ js ".json"] in
  _ ← Path.assertPathInside base target;
  Ok target.
Definition docPath : jstr -> jstr -> outcome jstr := sharded_path docsRoot.
Definition deletedPath : jstr -> jstr -> outcome jstr := sharded_path deletedRoot.

(** [withCollectionWriteLane]: the body, when its turn in the lane comes ([Lanes]). *)
Definition withCollectionWriteLane {A} (collection : jstr) (action : M (core D) A) : M (core D) A := action.

Definition ensureCollection (collection : jstr) : M D () :=
  _ ← lift (assertCollectionName collection);
  base ← lift (collectionRoot collection); _ ← mkdir base true;
  docs ← lift (docsRoot collection); _ ← mkdir docs true;
  deleted ← lift (deletedRoot collection); _ ← mkdir deleted true;
  meta ← lift (Metadata.root collectionRoot collection); _ ← mkdir meta true;
  _ ← mkdir (Path.join_strings [base; js "events"]) true;
  PrefixIndex.ensureCollection collectionRoot collection.

Definition createCollection (collection : jstr) : M (core D) () := on_fs (ensureCollection collection).

Definition hasCollection (collection : jstr) : M (core D) bool :=
  base ← lift (collectionRoot collection); on_fs (exists_ base).

Definition requireCollection (collection : jstr) : M (core D) () :=
  found ← hasCollection collection;
  if found : bool then mret () else throw (Collection.CollectionNotFoundError collection).

(** The documents, the metadata, the index and the events of this core. *)
Definition readStoredDoc (collection id : jstr) : M (core D) (option StoredDoc) :=
  on_fs (Documents.readStoredDoc docsRoot docPath collection id).
Definition readDeletedDoc (collection id : jstr) : M (core D) (option DeletedDoc) :=
  on_fs (Documents.readDeletedDoc deletedRoot deletedPath collection id).
Definition writeStoredDoc (collection id : jstr) (doc : object) : M (core D) () :=
  on_fs (Documents.writeStoredDoc docsRoot deletedRoot docPath deletedPath ensureCollection collection id doc).
Definition index_put (collection id : jstr) (doc : object) : M (core D) () :=
  on_index (PrefixIndex.putDocument sha256Hex collectionRoot collection id doc).
Definition index_remove (collection id : jstr) (doc : object) : M (core D) () :=
  on_index (PrefixIndex.removeDocument sha256Hex collectionRoot collection id doc).
Definition listDocIds (collection : jstr) : M (core D) (list jstr) :=
  on_fs (Documents.listDocIds docsRoot collection).
Definition listDeletedDocIds (collection : jstr) : M (core D) (list jstr) :=
  on_fs (Documents.listDeletedDocIds deletedRoot collection).
Definition publish (collection : jstr) (event : value) : M (core D) () := fun s =>
  let '(r, (d, b)) := Events.publish collectionRoot collection event (core_disk s, core_bus s) in
  (r, mkCore (PrefixIndex.set_disk d (core_index s)) b).
Definition date_now : M (core D) Z := on_fs now.

#[local] Instance core_candidates : Query.BrowserPrefixIndexLike (core D) := fun collection fieldPath operand =>
  on_index (PrefixIndex.candidateDocIds sha256Hex collectionRoot indexScannerFactory collection fieldPath operand).

(** ** Collections *)

Definition dropCollection (collection : jstr) : M (core D) () :=
  _ ← lift (assertCollectionName collection);
  _ ← requireCollection collection;
  held ← (if wormEnabled then docs ← listDocIds collection; mret (negb (bool_decide (docs = []))) else mret false);
  _ ← throw_if held (Error (js "Drop is not allowed for a non-empty WORM collection"));
  _ ← on_index (PrefixIndex.forgetCollection collection);
  base ← lift (collectionRoot collection);
  on_fs (rmdir base true).

Record inspection := mkInspection {
  inspect_collection : jstr; inspect_exists : bool; inspect_worm : bool;
  docsStored : nat; deletedDocs : nat; indexedDocs : nat;
  indexAcceleration : PrefixIndex.acceleration_status
}.

Definition inspectCollection (collection : jstr) : M (core D) inspection :=
  found ← hasCollection collection;
  if negb found then
    status ← on_index (PrefixIndex.accelerationStatus indexScannerFactory);
    mret (mkInspection collection false false 0 0 0 status)
  else
    docIds ← listDocIds collection;
    deletedDocIds ← listDeletedDocIds collection;
    indexed ← on_index (PrefixIndex.countDocuments collectionRoot collection);
    status ← on_index (PrefixIndex.accelerationStatus indexScannerFactory);
    mret (mkInspection collection true wormEnabled (length docIds) (length deletedDocIds) indexed status).

Record rebuild := mkRebuild { rebuild_collection : jstr; rebuild_worm : bool; docsScanned : nat; rebuilt : nat }.

Definition rebuildCollection (collection : jstr) : M (core D) rebuild :=
  _ ← requireCollection collection;
  withCollectionWriteLane collection (
    _ ← on_fs (ensureCollection collection);
    docIds ← listDocIds collection;
    _ ← on_index (PrefixIndex.resetCollection collectionRoot collection);
    count ← fold_m (fun count docId =>
      stored ← readStoredDoc collection docId;
      match stored with
      | None => mret count
      | Some r => _ ← index_put collection docId (stored_data r); mret (S count)
      end) docIds 0;
    mret (mkRebuild collection wormEnabled (length docIds) count)).

(** ** Writing documents *)

(** An event's [ts]: [stored?.updatedAt ?? Date.now()]. *)
Definition event_ts (stored : option StoredDoc) : M (core D) Z :=
  match stored with Some r => mret (stored_updatedAt r) | None => date_now end.

Definition insert_event (ts : Z) (id : jstr) (doc : object) : value :=
  VObj [(js "ts", VNum (Num.of_Z ts)); (js "action", VStr (js "insert")); (js "id", VStr id); (js "doc", VObj doc)].

(** The body of [putData] in its lane. *)
Definition put_body (collection id : jstr) (doc : object) (meta : option value) : M (core D) jstr :=
  _ ← on_fs (ensureCollection collection);
  deleted ← readDeletedDoc collection id;
  existing ← readStoredDoc collection id;
  _ ← (match planPutOperation (bool_decide (is_Some existing)) wormEnabled (bool_decide (is_Some deleted)), existing with
       | errSoftDeleted, _ => throw (Error (js "Document is soft-deleted; restore it before writing: " ++ id))
       | errWormUpdate, _ => throw (Error (js "Update is not allowed in WORM mode"))
       | putUpdate, Some r => index_remove collection id (stored_data r)
       | _, _ => mret ()
       end);
  _ ← writeStoredDoc collection id doc;
  _ ← try_catch
        (match meta with
         | Some m => _ ← on_fs (Metadata.mutate collectionRoot collection id m); mret ()
         | None => mret ()
         end)
        (fun error =>
           _ ← (match existing with
                | Some r =>
                    _ ← writeStoredDoc collection id (stored_data r);
                    index_put collection id (stored_data r)
                | None => on_fs (Documents.removeStoredDoc docsRoot docPath collection id)
                end);
           throw error);
  _ ← index_put collection id doc;
  _ ← when wormEnabled (on_fs (Documents.makeStoredDocReadOnly collection id));
  stored ← readStoredDoc collection id;
  ts ← event_ts stored;
  _ ← publish collection (insert_event ts id doc);
  mret id.

Definition putData (collection : jstr) (data : object) (meta : option value) : M (core D) jstr :=
  _ ← lift (match meta with Some m => Metadata.validateMetadataRecord m | None => Ok () end);
  _ ← requireCollection collection;
  explicit ← lift (explicitDocumentEntry data);
  target ← (match explicit with
            | Some entry => mret entry
            | None => time ← on_fs timeNow; id ← lift (TTID.generate time None false); mret (id, data)
            end);
  _ ← lift (validateDocId (fst target));
  withCollectionWriteLane collection (put_body collection (fst target) (snd target) meta).

Definition batchPutData (collection : jstr) (batch : list object) : M (core D) (list jstr) :=
  fold_m (fun ids data => id ← putData collection data None; mret (ids ++ [id])) batch [].

Definition not_found (id : jstr) : js_error := Error (js "Document not found: " ++ id).

Definition getDocMeta (collection id : jstr) : M (core D) value :=
  _ ← lift (validateDocId id);
  _ ← requireCollection collection;
  stored ← readStoredDoc collection id;
  match stored with
  | None => throw (not_found id)
  | Some r =>
      found ← on_fs (Metadata.read collectionRoot collection id);
      match copySafeJson (fst found) with
      | VObj metadata =>
          mret (VObj (obj_set (js "createdAt") (VNum (Num.of_Z (stored_createdAt r)))
                     (obj_set (js "updatedAt") (VNum (Num.of_Z (stored_updatedAt r)))
                     (obj_set (js "mtime") (VNum (Num.of_Z (stored_updatedAt r)))
                     (obj_set (js "id") (VStr (stored_id r)) metadata)))))
      | _ => throw (type_error (js "Cannot set properties of null"))
      end
  end.

Definition setDocMetaRecord (collection id : jstr) (record : value) : M (core D) value :=
  _ ← lift (validateDocId id);
  _ ← requireCollection collection;
  withCollectionWriteLane collection (
    stored ← readStoredDoc collection id;
    match stored with
    | None => throw (not_found id)
    | Some _ =>
        result ← on_fs (Metadata.mutate collectionRoot collection id record);
        _ ← publish collection
              (VObj [(js "ts", VNum (snd result)); (js "action", VStr (js "meta")); (js "id", VStr id);
                     (js "meta", copySafeJson (fst result))]);
        mret (copySafeJson (fst result))
    end).

(** [{ ...previous, ...patch }] *)
Definition spread (previous patch : value) : object := obj_assign (obj_assign [] (entries previous)) (entries patch).

Definition patchDoc (collection : jstr) (newDoc oldDoc : object) : M (core D) jstr :=
  _ ← throw_if wormEnabled (Error (js "Update is not allowed in WORM mode"));
  _ ← requireCollection collection;
  match keys newDoc with
  | [] | [] :: _ => throw (Error (js "this document does not contain an TTID"))
  | id :: _ =>
      _ ← lift (validateDocId id);
      stored ← readStoredDoc collection id;
      let previous := match prop (VObj oldDoc) id with
                      | VUndef | VNull => match stored with Some r => VObj (stored_data r) | None => VUndef end
                      | v => v
                      end in
      match stored with
      | Some _ =>
          if truthy previous then
            putData collection [(id, VObj (spread previous (prop (VObj newDoc) id)))] None
          else mret id
      | None => mret id
      end
  end.

Definition delDoc (collection id : jstr) : M (core D) () :=
  _ ← lift (validateDocId id);
  _ ← requireCollection collection;
  withCollectionWriteLane collection (
    stored ← readStoredDoc collection id;
    match planDeleteOperation (bool_decide (is_Some stored)) wormEnabled, stored with
    | errWormDelete, _ => throw (Error (js "Delete is not allowed in WORM mode"))
    | noop, _ | _, None => mret ()
    | _, Some r =>
        _ ← index_remove collection id (stored_data r);
        deletedAt ← date_now;
        _ ← on_fs (Documents.softDeleteStoredDoc docsRoot deletedRoot docPath deletedPath collection id deletedAt);
        publish collection
          (VObj [(js "ts", VNum (Num.of_Z deletedAt)); (js "action", VStr (js "delete")); (js "id", VStr id);
                 (js "doc", VObj (stored_data r)); (js "createdAt", VNum (Num.of_Z (stored_createdAt r)));
                 (js "updatedAt", VNum (Num.of_Z (stored_updatedAt r)))])
    end).

Definition restoreDoc (collection id : jstr) : M (core D) jstr :=
  _ ← lift (validateDocId id);
  _ ← requireCollection collection;
  withCollectionWriteLane collection (
    active ← readStoredDoc collection id;
    deleted ← readDeletedDoc collection id;
    match planRestoreOperation (bool_decide (is_Some active)) (bool_decide (is_Some deleted)) wormEnabled, deleted with
    | errWormRestore, _ => throw (Error (js "Restore is not allowed in WORM mode"))
    | errRestoreActiveExists, _ => throw (Error (js "Cannot restore document because it already exists: " ++ id))
    | errRestoreMissingTombstone, _ | _, None => throw (Error (js "Deleted document not found: " ++ id))
    | _, Some r =>
        _ ← date_now;
        _ ← on_fs (Documents.restoreStoredDoc docsRoot deletedRoot docPath deletedPath collection id);
        _ ← index_put collection id (deleted_data r);
        stored ← readStoredDoc collection id;
        ts ← event_ts stored;
        _ ← publish collection (insert_event ts id (deleted_data r));
        mret id
    end).

(** ** Reading documents *)

Definition listQueryableDocIds (collection : jstr) : M (core D) (list jstr) :=
  _ ← requireCollection collection; listDocIds collection.

Definition times_of (r : StoredDoc) : Query.timestamps :=
  Query.Timestamps (Num.of_Z (stored_createdAt r)) (Num.of_Z (stored_updatedAt r)).

(** The loop over the identifiers, with its early end. *)
Fixpoint collect_matching (collection : jstr) (query : value) (ids : list jstr) (results : list (jstr * object))
    : M (core D) (list (jstr * object)) :=
  match ids with
  | [] => mret results
  | id :: rest =>
      stored ← readStoredDoc collection id;
      match stored with
      | None => collect_matching collection query rest results
      | Some r =>
          if Query.matchesQuery (VObj (stored_data r)) query (times_of r) then
            let results' := results ++ [(id, stored_data r)] in
            if reached (prop query (js "$limit")) (length results') then mret results'
            else collect_matching collection query rest results'
          else collect_matching collection query rest results
      end
  end.

Definition docResults (collection : jstr) (query : value) : M (core D) (list (jstr * object)) :=
  _ ← requireCollection collection;
  candidateIds ← Query.candidateDocIdsForQuery collection query;
  ids ← (match candidateIds with
         | Some ids => mret ids
         | None => listQueryableDocIds collection
         end);
  collect_matching collection query ids [].

Fixpoint collect_deleted (collection : jstr) (query : value) (ids : list jstr) (results : list (jstr * object))
    : M (core D) (list (jstr * object)) :=
  match ids with
  | [] => mret results
  | id :: rest =>
      deleted ← readDeletedDoc collection id;
      match deleted with
      | None => collect_deleted collection query rest results
      | Some r =>
          matched ← lift (Query.matchesDeletedQuery (VObj (deleted_data r)) query
                            (Num.of_Z (deleted_createdAt r)) (deletedAt r));
          if matched : bool then
            let results' := results ++ [(id, deleted_data r)] in
            if reached (prop query (js "$limit")) (length results') then mret results'
            else collect_deleted collection query rest results'
          else collect_deleted collection query rest results
      end
  end.

Definition deletedDocResults (collection : jstr) (query : value) : M (core D) (list (jstr * object)) :=
  _ ← requireCollection collection;
  ids ← listDeletedDocIds collection;
  collect_deleted collection query ids [].

(** [getDoc(collection, id, onlyId).once()] and [getLatest]. *)
Definition one_doc (collection id : jstr) (onlyId : bool) : M (core D) value :=
  _ ← requireCollection collection;
  stored ← readStoredDoc collection id;
  mret (match stored with
        | None => if onlyId then VNull else VObj []
        | Some r => if onlyId then VStr (stored_id r) else VObj [(stored_id r, VObj (stored_data r))]
        end).
Definition getDoc_once (collection id : jstr) (onlyId : bool) : M (core D) value :=
  _ ← lift (validateDocId id); one_doc collection id onlyId.
Definition getLatest (collection id : jstr) (onlyId : bool) : M (core D) value :=
  _ ← lift (validateDocId id); one_doc collection id onlyId.

(** What a listening reader yields for one event. *)
Definition event_action (event : value) (action : jstr) : bool := bool_decide (prop event (js "action") = VStr action).
Definition getDoc_event (id : jstr) (onlyId : bool) (event : value) : option value :=
  if negb (event_action event (js "insert")) || negb (bool_decide (prop event (js "id") = VStr id)) ||
     negb (truthy (prop event (js "doc"))) then None
  else Some (if onlyId then VStr id else VObj [(id, prop event (js "doc"))]).
Definition getDoc_onDelete (id : jstr) (event : value) : option value :=
  if event_action event (js "delete") && bool_decide (prop event (js "id") = VStr id) then Some (VStr id) else None.

(** [findDocs(collection, query).collect()] and [findDeletedDocs(collection, query)]. *)
Definition findDocs (collection : jstr) (query : value) : M (core D) (list value) :=
  docs ← docResults collection query;
  mret (omap (fun doc => Query.processDoc [doc] query) docs).
Definition findDeletedDocs (collection : jstr) (query : value) : M (core D) (list value) :=
  docs ← deletedDocResults collection query;
  mret (omap (fun doc => Query.processDoc [doc] query) docs).

Definition findDocs_event (collection : jstr) (query event : value) : M (core D) (option value) :=
  match prop event (js "id"), prop event (js "doc") with
  | VStr id, VObj doc =>
      if negb (event_action event (js "insert")) then mret None
      else
        stored ← readStoredDoc collection id;
        mret (match stored with
              | Some r => if Query.matchesQuery (VObj doc) query (times_of r) then Query.processDoc [(id, doc)] query else None
              | None => None
              end)
  | _, _ => mret None
  end.

Definition findDocs_onDelete (query event : value) : option value :=
  if negb (event_action event (js "delete")) || negb (truthy (prop event (js "doc"))) then None
  else
    let time name := match prop event (js name) with
                     | VUndef | VNull => to_num (prop event (js "ts"))
                     | v => to_num v
                     end in
    if Query.matchesQuery (prop event (js "doc")) query (Query.Timestamps (time "createdAt"%string) (time "updatedAt"%string))
    then Some (prop event (js "id")) else None.

Definition subscribe (collection : jstr) : M (core D) nat := fun s =>
  match assertCollectionName collection with
  | Throw e => (Throw e, s)
  | Ok _ => let '(n, b) := Events.subscribe collection (core_bus s) in (Ok n, mkCore (core_index s) b)
  end.

(** ** Writing by query *)

Definition patchDocs (collection : jstr) (update : value) : M (core D) nat :=
  let where_ := match prop update (js "$where") with VUndef | VNull => VObj [] | w => w end in
  found ← findDocs collection where_;
  fold_m (fun count v =>
    match v with
    | VObj ((id, current) :: _) =>
        if negb (jeqb id []) && truthy current then
          _ ← patchDoc collection [(id, prop update (js "$set"))] [(id, current)];
          mret (S count)
        else mret count
    | _ => mret count
    end) found 0.

Definition delDocs (collection : jstr) (deleteSchema : value) : M (core D) nat :=
  found ← findDocs collection deleteSchema;
  fold_m (fun count v =>
    match v with
    | VObj o =>
        match List.find TTID.is_ttid (keys o) with
        | Some id => _ ← delDoc collection id; mret (S count)
        | None => mret count
        end
    | _ => mret count
    end) found 0.

Definition join (j : value) : M (core D) value :=
  lefts ← docResults (to_str (prop j (js "$leftCollection"))) (VObj []);
  rights ← docResults (to_str (prop j (js "$rightCollection"))) (VObj []);
  docs ← lift (join_left j lefts rights []);
  lift (join_result j docs).

(** ** SQL *)

(** [sql.includes('JOIN')] *)
Fixpoint includes (needle s : jstr) : bool :=
  starts_with needle s || match s with [] => false | _ :: r => includes needle r end.

(** The rows of a SELECT gathered into one record, or a list of identifiers. *)
Definition gather_row (docs : value) (data : value) : outcome value :=
  if is_objectlike data then Extensions.appendGroup docs data
  else match docs with
       | VArr l => Ok (VArr (l ++ [VStr (to_str data)]))
       | _ => Ok docs
       end.

Definition without_collection (parsed : value) : value :=
  match parsed with VObj o => VObj (obj_delete (js "$collection") o) | _ => parsed end.

Definition count_value (n : nat) : value := VNum (Num.of_Z (Z.of_nat n)).

Definition executeSqlPlan (plan : Plan.plan) : M (core D) value :=
  let operation := Plan.plan_operation plan in
  let parsed := Plan.plan_ast plan in
  let collection := to_str (prop parsed (js "$collection")) in
  if jeqb operation (js "CREATE") then _ ← createCollection collection; mret VUndef
  else if jeqb operation (js "DROP") then _ ← dropCollection collection; mret VUndef
  else if jeqb operation (js "SELECT") then
    if includes (js "JOIN") (Plan.plan_sql plan) then join parsed
    else
      let query := without_collection parsed in
      found ← findDocs collection query;
      lift (Codec.fold_outcome gather_row (if truthy (prop query (js "$onlyIds")) then VArr [] else VObj []) found)
  else if jeqb operation (js "INSERT") then
    match prop parsed (js "$values") with
    | VObj values => id ← putData collection values None; mret (VStr id)
    | _ => throw (type_error (js "Cannot convert undefined or null to object"))
    end
  else if jeqb operation (js "UPDATE") then
    count ← patchDocs collection (without_collection parsed); mret (count_value count)
  else if jeqb operation (js "DELETE") then
    count ← delDocs collection (without_collection parsed); mret (count_value count)
  else throw (Error (js "Invalid Operation")).

Definition executeSQL (SQL : value) : M (core D) value :=
  plan ← lift (Plan.prepare SQL);
  if Plan.plan_explain plan && negb (Plan.plan_analyze plan) then mret (Plan.describe plan)
  else
    startedAt ← on_fs performanceNow;
    result ← executeSqlPlan plan;
    if negb (Plan.plan_explain plan) then mret result
    else
      endedAt ← on_fs performanceNow;
      mret (VObj (obj_assign (entries (Plan.describe plan))
                    [(js "executed", VBool true); (js "elapsedMs", VNum (Num.sub endedAt startedAt)); (js "result", result)])).

End Core.
End Engine.
