(* ===== verification/Lifecycle.v ===== *)
(** The life of a document in the browser core: what [put], [patch], [delete], [restore]
    and [get] of [src/browser/core/engine.js] do to the files, the index and the
    subscribers, against a map of active documents and a map of tombstones. *)

From stdpp Require Import gmap.
From S2P Require Import Prelude PathUtil JsNum JsValue Utf8 Json Shard Ttid Codec Filesystem MemFs MemFsLaws.
From S2P Require Import PrefixIndex IndexComplete IndexKeys IndexStore IndexQuery Query Documents Metadata Events Engine Buckets.

Module Lifecycle.
Import Documents Events Engine Buckets.

(** ** Documents as they are stored *)

Definition UPDATED : jstr := js "_updatedAt".
Definition DELETED : jstr := js "_deletedAt".

(** No field of the store's own. *)
Definition plain (o : object) : bool := negb (has_own UPDATED o) && negb (has_own DELETED o).

Definition tombstone (o : object) (t : Num.num) : object := obj_set DELETED (VNum t) o.

Lemma alist_remove_none {A} k (o : list (jstr * A)) : alist_get k o = None -> alist_remove k o = o.
Proof.
  induction o as [|[k' v] o IH]; cbn [alist_get alist_remove]; [done|].
  destruct (decide (k = k')); [done|]. intros Hn. by rewrite IH.
Qed.

Lemma not_own k (o : object) : has_own k o = false <-> alist_get k o = None.
Proof. unfold has_own. by destruct (alist_get k o). Qed.

Lemma strip_plain o : plain o = true -> stripInternalFields o = o.
Proof.
  unfold plain. rewrite andb_true_iff, !negb_true_iff, !not_own. intros [Hu Hd].
  unfold stripInternalFields, obj_delete. by rewrite (alist_remove_none (js "_updatedAt")), alist_remove_none.
Qed.

Lemma tombstone_app o t : plain o = true -> tombstone o t = o ++ [(DELETED, VNum t)].
Proof.
  unfold plain. rewrite andb_true_iff, !negb_true_iff, !not_own. intros [_ Hd].
  unfold tombstone, obj_set. rewrite Hd. apply insert_key_last. apply forallb_forall. intros k _.
  unfold key_before. replace (array_index DELETED) with (@None N) by (by vm_compute). done.
Qed.

Lemma strip_tombstone o t : plain o = true -> stripInternalFields (tombstone o t) = o.
Proof.
  intros Hp. rewrite tombstone_app by done. unfold plain in Hp.
  rewrite andb_true_iff, !negb_true_iff, !not_own in Hp. destruct Hp as [Hu Hd].
  unfold stripInternalFields, obj_delete. rewrite (alist_remove_none (js "_updatedAt")).
  - change (js "_deletedAt") with DELETED. clear Hu. induction o as [|[k v] o IH]; cbn [app alist_remove].
    + by rewrite decide_True.
    + cbn [alist_get] in Hd. destruct (decide (DELETED = k)); [done|]. by rewrite IH.
  - change (js "_updatedAt") with UPDATED. clear Hd. induction o as [|[k v] o IH]; cbn [app alist_get].
    + by rewrite decide_False.
    + cbn [alist_get] in Hu. destruct (decide (UPDATED = k)); [done|]. by apply IH.
Qed.

Lemma jsonable_tombstone o t :
  Json.jsonable (VObj o) = true -> Json.number_ok t = true -> Json.jsonable (VObj (tombstone o t)) = true.
Proof.
  cbn [Json.jsonable]. rewrite !andb_true_iff. intros [Hk Ho] Ht. split; [by apply ordered_obj_set|].
  rewrite forallb_forall in Ho |- *. intros kv Hin%list_elem_of_In.
  assert (Forall (fun kv => Utf8.code_units (fst kv) && Json.jsonable (snd kv) = true) (tombstone o t)) as Hall.
  { apply Forall_obj_set; [by cbn; rewrite Ht|]. apply Forall_forall. intros x Hx. apply Ho. by apply list_elem_of_In. }
  rewrite Forall_forall in Hall. by apply Hall.
Qed.

Lemma jsonable_untomb o t : plain o = true -> Json.jsonable (VObj (tombstone o t)) = true -> Json.jsonable (VObj o) = true.
Proof.
  intros Hp. rewrite tombstone_app by done. cbn [Json.jsonable]. unfold keys.
  rewrite map_app, forallb_app, !andb_true_iff. intros [Hk [Ho _]]. split; [|done]. by apply ordered_keys_app_l in Hk.
Qed.

Lemma tombstone_time o t : plain o = true -> prop (VObj (tombstone o t)) (js "_deletedAt") = VNum t.
Proof. intros _. cbn [prop]. unfold tombstone. rewrite alist_get_obj_set. by rewrite decide_True. Qed.

Lemma jsonable_units v : Json.jsonable v = true -> Keys.units v = true.
Proof.
  induction v as [| |b|n|s|l IH|o IH] using value_rect'; cbn [Json.jsonable Keys.units]; intros Hj; try done.
  - induction IH as [|v l Hv _ IHl]; [done|]. cbn [forallb] in *. apply andb_true_iff in Hj as [H1 H2].
    by rewrite Hv, IHl.
  - apply andb_true_iff in Hj as [_ Hj]. induction IH as [|[k v] l Hv _ IHl]; [done|].
    cbn [forallb fst snd] in *. rewrite !andb_true_iff in Hj. destruct Hj as [[H1 H2] H3]. by rewrite H1, Hv, IHl.
Qed.

(** ** Where a collection's parts stand *)

Definition COLLECTIONS : jstr := js ".collections".
Definition DOCS : jstr := js "docs".
Definition DEAD : jstr := js ".deleted".
Definition META : jstr := js ".metadata".
Definition EVENTS : jstr := js "events".
Definition INDEX : jstr := js "index".

Section Collection.
  Context (rr : path) (c : jstr).
  Hypothesis rr_clean : Forall Path.clean rr.
  Hypothesis c_valid : Collection.valid_name c.

Definition root_path : jstr := Path.abs_path rr.
Definition home : path := rr ++ [COLLECTIONS; c].
Definition room (name : jstr) : path := home ++ [name].

Lemma home_clean : Forall Path.clean home.
Proof.
  apply Forall_app. split; [done|]. rewrite !Forall_cons. split_and!; [by apply (bool_decide_unpack _)| |constructor].
  by apply Collection.valid_name_clean.
Qed.

Lemma room_clean name : name ∈ [DOCS; DEAD; META; EVENTS; INDEX] -> Forall Path.clean (room name).
Proof.
  intros Hn. apply Forall_app. split; [by apply home_clean|]. rewrite Forall_singleton. revert Hn.
  rewrite !elem_of_cons, elem_of_nil. intros [->|[->|[->|[->|[->|[]]]]]]; by apply (bool_decide_unpack _).
Qed.

Lemma collectionRoot_eq : collectionRoot root_path c = Ok (Path.abs_path home).
Proof.
  unfold collectionRoot, assertCollectionName. rewrite c_valid. cbn [mbind outcome_bind].
  unfold root_path. rewrite Path.join_clean; [done|done|]. pose proof home_clean as Hc. by apply Forall_app in Hc as [_ ?].
Qed.

Lemma room_eq name : name ∈ [DOCS; DEAD; META; EVENTS; INDEX] ->
  Path.join_strings [Path.abs_path home; name] = Path.abs_path (room name).
Proof.
  intros Hn. rewrite Path.join_clean; [done|apply home_clean|]. pose proof (room_clean name Hn) as Hc.
  by apply Forall_app in Hc as [_ ?].
Qed.

Lemma docsRoot_eq : docsRoot root_path c = Ok (Path.abs_path (room DOCS)).
Proof. unfold docsRoot. rewrite collectionRoot_eq. cbn [mbind outcome_bind]. rewrite <- room_eq; [done|set_solver]. Qed.
Lemma deletedRoot_eq : deletedRoot root_path c = Ok (Path.abs_path (room DEAD)).
Proof. unfold deletedRoot. rewrite collectionRoot_eq. cbn [mbind outcome_bind]. rewrite <- room_eq; [done|set_solver]. Qed.
Lemma metadataRoot_eq : Metadata.root (collectionRoot root_path) c = Ok (Path.abs_path (room META)).
Proof. unfold Metadata.root. rewrite collectionRoot_eq. cbn [mbind outcome_bind]. rewrite <- room_eq; [done|set_solver]. Qed.

Lemma validateDocId_ok id : TTID.is_ttid id = true -> Documents.validateDocId id = Ok ().
Proof. unfold Documents.validateDocId. by intros ->. Qed.

Lemma sharded_eq rootOf base id : rootOf c = Ok (Path.abs_path base) -> Forall Path.clean base ->
  TTID.is_ttid id = true -> sharded_path rootOf c id = Ok (Path.abs_path (place base id)).
Proof.
  intros Hr Hb Hid. unfold sharded_path, validateDocId. rewrite (validateDocId_ok id Hid), Hr. cbn [mbind outcome_bind].
  destruct (shelf_spec id Hid) as (-> & _). cbn [mbind outcome_bind].
  destruct (place_eq base id Hb Hid) as [Hj Hi]. unfold file_of, json_suffix in Hj. by rewrite Hj, Hi.
Qed.

Lemma docPath_eq id : TTID.is_ttid id = true -> docPath root_path c id = Ok (Path.abs_path (place (room DOCS) id)).
Proof. apply sharded_eq; [apply docsRoot_eq|apply room_clean; set_solver]. Qed.
Lemma deletedPath_eq id : TTID.is_ttid id = true -> deletedPath root_path c id = Ok (Path.abs_path (place (room DEAD) id)).
Proof. apply sharded_eq; [apply deletedRoot_eq|apply room_clean; set_solver]. Qed.

Definition journal : path := room EVENTS ++ [c ++ js ".ndjson"].

Lemma journal_clean : Forall Path.clean journal.
Proof.
  apply Forall_app. split; [apply room_clean; set_solver|]. rewrite Forall_singleton.
  destruct (Collection.valid_name_clean c c_valid) as (Hne & _ & _ & Hs). split_and!.
  - by destruct c.
  - intros E%(f_equal length). rewrite length_app in E. cbn in E. lia.
  - intros E%(f_equal length). rewrite length_app in E. cbn in E. lia.
  - rewrite not_elem_of_app. split; [done|]. by apply includes_char_false.
Qed.

Lemma journalPath_eq : Events.journalPath (collectionRoot root_path) c = Ok (Path.abs_path journal).
Proof.
  unfold Events.journalPath. rewrite collectionRoot_eq. cbn [mbind outcome_bind].
  rewrite Path.join_clean; [|apply home_clean|].
  - unfold journal, room. by rewrite <- app_assoc.
  - pose proof journal_clean as Hc. unfold journal, room in Hc. rewrite <- app_assoc in Hc. by apply Forall_app in Hc as [_ ?].
Qed.

(** ** The documents on disk *)

Section Disk.
  Context {D : Type} `{FilesystemLaws D}.

Record store := mkStore {
  active : gmap jstr object;                (* the documents *)
  dead : gmap jstr (object * Num.num)       (* the deleted ones, with the time *)
}.

Definition graves (st : store) : gmap jstr object := (fun r => tombstone (fst r) (snd r)) <$> dead st.

(** The collection's directories hold the store. *)
Record holds (d : D) (st : store) : Prop := {
  holds_wf : wf d;
  holds_docs : drawer d (room DOCS) (active st);
  holds_dead : drawer d (room DEAD) (graves st);
  holds_meta : look d (room META) = Some Dir;
  holds_events : look d (room EVENTS) = Some Dir;
  holds_journal : look d journal <> Some Dir;
  holds_apart id : active st !! id = None \/ dead st !! id = None;
  holds_plain id o : active st !! id = Some o -> plain o = true;
  holds_plain_dead id o t : dead st !! id = Some (o, t) -> plain o = true
}.

(** A change outside the rooms of the documents and the journal. *)
Definition same_rooms (d d' : D) : Prop :=
  forall q, Forall Path.clean q -> home `prefix_of` q -> ~ room INDEX `prefix_of` q -> look d' q = look d q.

Lemma room_prefix name (q : path) : room name `prefix_of` q -> home `prefix_of` q.
Proof. intros Hq. etransitivity; [|exact Hq]. by eexists. Qed.

Lemma room_apart x y (q : path) : x <> y -> room x `prefix_of` q -> ~ room y `prefix_of` q.
Proof. apply apart. Qed.

Lemma holds_same d d' st : wf d' -> same_rooms d d' -> holds d st -> holds d' st.
Proof.
  intros Hw Hs Hh.
  assert (forall x q, x <> INDEX -> Forall Path.clean q -> room x `prefix_of` q -> look d' q = look d q) as Hroom.
  { intros x q Hx Hq Hp. apply Hs; [done|by eapply room_prefix|by eapply room_apart]. }
  assert (forall x, x ∈ [DOCS; DEAD; META; EVENTS] -> look d' (room x) = look d (room x)) as Hr.
  { intros x Hx. apply (Hroom x); [|apply room_clean; set_solver|done].
    intros ->. revert Hx. apply (bool_decide_unpack (INDEX ∉ _)). by vm_compute. }
  destruct Hh as [_ Hdo Hde Hm He Hj Ha Hp Hpd]. constructor; try done.
  - eapply drawer_same; [apply room_clean; set_solver| |exact Hdo]. intros q Hq Hpre. by apply (Hroom DOCS).
  - eapply drawer_same; [apply room_clean; set_solver| |exact Hde]. intros q Hq Hpre. by apply (Hroom DEAD).
  - rewrite Hr; [done|set_solver].
  - rewrite Hr; [done|set_solver].
  - rewrite (Hroom EVENTS); [done|done|apply journal_clean|by eexists].
Qed.

Context (d : D) (st : store).
Hypothesis d_holds : holds d st.

Let d_wf := holds_wf d st d_holds.
Let docs_clean : Forall Path.clean (room DOCS).
Proof. apply room_clean. set_solver. Qed.
Let dead_clean : Forall Path.clean (room DEAD).
Proof. apply room_clean. set_solver. Qed.

Abbreviation readStored := (Documents.readStoredDoc (docsRoot root_path) (docPath root_path) c).
Abbreviation readDeleted := (Documents.readDeletedDoc (deletedRoot root_path) (deletedPath root_path) c).

Lemma read_active id : TTID.is_ttid id = true ->
  exists r, readStored id d = (Ok r, d) /\ stored_data <$> r = active st !! id /\
    (forall x, r = Some x -> stored_id x = id).
Proof.
  intros Hid. pose proof (holds_docs _ _ d_holds) as Hd. unfold Documents.readStoredDoc.
  rewrite (validateDocId_ok id Hid), docsRoot_eq, (docPath_eq id Hid). run_pure.
  run (existing_record d (room DOCS) (active st) d_wf docs_clean Hd id Hid).
  destruct (place_eq (room DOCS) id docs_clean Hid) as [_ ->]. run_pure.
  run (exists_record d (room DOCS) (active st) d_wf docs_clean Hd id Hid).
  destruct (active st !! id) as [o|] eqn:E.
  - rewrite bool_decide_true by by eexists. cbn [negb].
    destruct (read_record d (room DOCS) (active st) d_wf docs_clean Hd id o E) as (Ht & Hp & t & Hm).
    destruct (ttid_times id Hid) as [times Htimes].
    run Ht. rewrite Hp, Htimes. run_pure. run Hm. eexists. split_and!; [reflexivity| |by intros ? [= <-]].
    cbn. f_equal. by apply strip_plain, (holds_plain _ _ d_holds id).
  - rewrite bool_decide_false by by intros [? ?]. cbn [negb]. by exists None.
Qed.

Lemma read_dead id : TTID.is_ttid id = true ->
  exists r, readDeleted id d = (Ok r, d) /\ (fun x => (deleted_data x, deletedAt x)) <$> r = dead st !! id /\
    (forall x, r = Some x -> deleted_id x = id).
Proof.
  intros Hid. pose proof (holds_dead _ _ d_holds) as Hd. unfold Documents.readDeletedDoc.
  rewrite (validateDocId_ok id Hid), deletedRoot_eq, (deletedPath_eq id Hid). run_pure.
  run (existing_record d (room DEAD) (graves st) d_wf dead_clean Hd id Hid).
  destruct (place_eq (room DEAD) id dead_clean Hid) as [_ ->]. run_pure.
  run (exists_record d (room DEAD) (graves st) d_wf dead_clean Hd id Hid).
  assert (graves st !! id = (fun r => tombstone (fst r) (snd r)) <$> (dead st !! id)) as Hg by apply lookup_fmap.
  destruct (dead st !! id) as [[o t]|] eqn:E; cbn [fmap option_fmap option_map fst snd] in Hg; rewrite Hg.
  - rewrite bool_decide_true by by eexists. cbn [negb].
    destruct (read_record d (room DEAD) (graves st) d_wf dead_clean Hd id _ Hg) as (Ht & Hp & _).
    destruct (ttid_times id Hid) as [times Htimes]. pose proof (holds_plain_dead _ _ d_holds id o t E) as Hpl.
    run Ht. rewrite Hp, Htimes. run_pure. rewrite tombstone_time, strip_tombstone by done.
    eexists. split_and!; [reflexivity|done|by intros ? [= <-]].
  - rewrite bool_decide_false by by intros [? ?]. cbn [negb]. by exists None.
Qed.

Lemma list_active :
  exists l, Documents.listDocIds (docsRoot root_path) c d = (Ok l, d) /\ NoDup l /\
    forall id, id ∈ l <-> is_Some (active st !! id).
Proof.
  unfold Documents.listDocIds. rewrite docsRoot_eq. run_pure.
  apply (list_records d (room DOCS) (active st) d_wf docs_clean), d_holds.
Qed.

Lemma list_dead :
  exists l, Documents.listDeletedDocIds (deletedRoot root_path) c d = (Ok l, d) /\ NoDup l /\
    forall id, id ∈ l <-> is_Some (dead st !! id).
Proof.
  unfold Documents.listDeletedDocIds. rewrite deletedRoot_eq. run_pure.
  destruct (list_records d (room DEAD) (graves st) d_wf dead_clean) as (l & Hl & Hnd & Hin); [apply d_holds|].
  exists l. split_and!; [done|done|]. intros id. rewrite Hin. unfold graves. by rewrite lookup_fmap, fmap_is_Some.
Qed.

(** ** Ensuring the directories *)

Definition same_room (name : jstr) (a b : D) : Prop :=
  forall q, Forall Path.clean q -> room name `prefix_of` q -> look b q = look a q.

Lemma same_room_but name x (a b : D) : x <> name -> same_but (room x) a b -> same_room name a b.
Proof. intros Hne Hs q Hq Hp. apply Hs; [done|]. eapply room_apart; [|exact Hp]. done. Qed.

Lemma ensure_there sn w : Store.files_there home d sn w ->
  exists d', ensureCollection root_path c d = (Ok (), d') /\ wf d' /\ Store.same_tree d d'.
Proof.
  intros Hf. pose proof (drawer_there _ _ _ (holds_docs _ _ d_holds)) as Hdo.
  pose proof (drawer_there _ _ _ (holds_dead _ _ d_holds)) as Hde.
  pose proof (holds_meta _ _ d_holds) as Hme. pose proof (holds_events _ _ d_holds) as Hev.
  assert (look d home = Some Dir) as Hho by (apply (look_prefix d home (room DOCS)); [done|done|done|by eexists]).
  assert (forall s p, Store.same_tree d s -> wf s -> Forall Path.clean p -> p <> [] -> look d p = Some Dir ->
    exists s', mkdir (Path.abs_path p) true s = (Ok (), s') /\ wf s' /\ Store.same_tree d s') as Hmk.
  { intros s p Hs Hw Hc Hne Hd. destruct (mkdir_there s p Hw Hc Hne) as (s' & Hrun & Hw' & Hl); [by rewrite Hs|].
    exists s'. split_and!; [done|done|]. intros q Hq. by rewrite Hl, Hs. }
  assert (forall x, x ∈ [DOCS; DEAD; META; EVENTS; INDEX] -> Forall Path.clean (room x) /\ room x <> []) as Hroom.
  { intros x Hx. split; [by apply room_clean|]. unfold room, home. by destruct rr. }
  destruct (Hmk d home) as (d1 & R1 & W1 & S1); [done|done|apply home_clean|unfold home; by destruct rr|done|].
  destruct (Hmk d1 (room DOCS)) as (d2 & R2 & W2 & S2); [done|done|apply Hroom; set_solver..|done|].
  destruct (Hmk d2 (room DEAD)) as (d3 & R3 & W3 & S3); [done|done|apply Hroom; set_solver..|done|].
  destruct (Hmk d3 (room META)) as (d4 & R4 & W4 & S4); [done|done|apply Hroom; set_solver..|done|].
  destruct (Hmk d4 (room EVENTS)) as (d5 & R5 & W5 & S5); [done|done|apply Hroom; set_solver..|done|].
  destruct (Store.ensureCollection_there (collectionRoot root_path) c home collectionRoot_eq home_clean d5 sn w)
    as (d6 & R6 & F6 & S6); [by apply (Store.files_there_same (collectionRoot root_path) c home collectionRoot_eq home_clean d)|].
  exists d6. split_and!; [|apply F6|intros q Hq; by rewrite S6, S5].
  unfold ensureCollection, assertCollectionName. rewrite c_valid, collectionRoot_eq, docsRoot_eq, deletedRoot_eq, metadataRoot_eq.
  run_pure. run R1. run_pure. run R2. run_pure. run R3. run_pure. run R4.
  change (js "events") with EVENTS. rewrite room_eq by set_solver. run R5. exact R6.
Qed.

Lemma same_tree_rooms a b : Store.same_tree a b -> same_rooms a b.
Proof. intros Hs q Hq _ _. by apply Hs. Qed.

(** ** Writing *)

(** What a change of the documents or the tombstones leaves alone. *)
Record calm (a b : D) : Prop := {
  calm_meta : look b (room META) = look a (room META);
  calm_events : look b (room EVENTS) = look a (room EVENTS);
  calm_journal : look b journal = look a journal;
  calm_index : same_room INDEX a b
}.

Lemma calm_but x a b : x ∈ [DOCS; DEAD] -> same_but (room x) a b -> calm a b.
Proof.
  intros Hx Hs.
  assert (forall y q, y ∉ [DOCS; DEAD] -> Forall Path.clean q -> room y `prefix_of` q -> look b q = look a q) as Hy.
  { intros y q Hny Hq Hp. apply Hs; [done|]. eapply room_apart; [|exact Hp]. by intros ->. }
  constructor.
  - apply (Hy META); [by apply (bool_decide_unpack _)|apply room_clean; set_solver|done].
  - apply (Hy EVENTS); [by apply (bool_decide_unpack _)|apply room_clean; set_solver|done].
  - apply (Hy EVENTS); [by apply (bool_decide_unpack _)|apply journal_clean|by eexists].
  - intros q. apply Hy. by apply (bool_decide_unpack _).
Qed.

Lemma calm_trans a b e : calm a b -> calm b e -> calm a e.
Proof.
  intros [Ha1 Ha2 Ha3 Ha4] [Hb1 Hb2 Hb3 Hb4]. constructor; [congruence..|]. intros q Hq Hp. by rewrite Hb4, Ha4.
Qed.

Lemma holds_calm a b (s s' : store) : holds a s -> wf b -> calm a b ->
  drawer b (room DOCS) (active s') -> drawer b (room DEAD) (graves s') ->
  (forall id, active s' !! id = None \/ dead s' !! id = None) ->
  (forall id o, active s' !! id = Some o -> plain o = true) ->
  (forall id o t, dead s' !! id = Some (o, t) -> plain o = true) -> holds b s'.
Proof.
  intros Hh Hw [H1' H2' H3' _] Hdo Hde Ha Hp Hpd. constructor; try done.
  - rewrite H1'. apply Hh.
  - rewrite H2'. apply Hh.
  - rewrite H3'. apply Hh.
Qed.

Lemma stringify_storable o : Json.jsonable (VObj o) = true ->
  stringify_object o = Json.text (VObj o) /\ assertJsonDocumentText (Json.text (VObj o)) = Ok ().
Proof.
  intros Hj. destruct (Json.store_roundtrip _ Hj) as [Hs Hp]. rewrite Json.decode_text in Hp by done. split.
  - unfold stringify_object. by rewrite Hs.
  - unfold assertJsonDocumentText, parseJsonDocumentText. by rewrite Hp.
Qed.

Abbreviation writeStored := (Documents.writeStoredDoc (docsRoot root_path) (deletedRoot root_path)
  (docPath root_path) (deletedPath root_path) (ensureCollection root_path) c).
Abbreviation softDelete := (Documents.softDeleteStoredDoc (docsRoot root_path) (deletedRoot root_path)
  (docPath root_path) (deletedPath root_path) c).
Abbreviation restoreStored := (Documents.restoreStoredDoc (docsRoot root_path) (deletedRoot root_path)
  (docPath root_path) (deletedPath root_path) c).

Lemma write_active id o sn w : Store.files_there home d sn w -> TTID.is_ttid id = true ->
  Json.jsonable (VObj o) = true -> plain o = true -> dead st !! id = None ->
  exists d', writeStored id o d = (Ok (), d') /\ holds d' (mkStore (<[id := o]> (active st)) (dead st)) /\
    same_room INDEX d d'.
Proof.
  intros Hf Hid Hj Hp Hnone. destruct (ensure_there sn w Hf) as (d1 & R1 & W1 & S1).
  pose proof (holds_same d d1 st W1 (same_tree_rooms _ _ S1) d_holds) as Hh1.
  destruct (write_record d1 (room DOCS) (active st) W1 docs_clean (holds_docs _ _ Hh1) id o Hid Hj) as (d2 & R2 & W2 & Dr2 & S2).
  assert (holds d2 (mkStore (<[id := o]> (active st)) (dead st))) as Hh2.
  { pose proof (holds_dead _ _ Hh1) as Hde1.
    apply (holds_calm d1 d2 st); [done|done|apply (calm_but DOCS); [set_solver|done]|done| | | |]; cbn [active dead].
    - by apply (drawer_sibling d1 d2 home DEAD DOCS); [|apply dead_clean|..].
    - intros i. destruct (decide (i = id)) as [->|Hne]; [by right|]. rewrite lookup_insert_ne by done. apply Hh1.
    - intros i x [[<- <-]|[_ Hx]]%lookup_insert_Some; [done|]. by apply (holds_plain _ _ Hh1 i).
    - apply Hh1. }
  exists d2. split_and!; [|done|].
  - unfold Documents.writeStoredDoc. rewrite (validateDocId_ok id Hid). run_pure. run R1.
    rewrite (docPath_eq id Hid), docsRoot_eq. run_pure.
    destruct (place_eq (room DOCS) id docs_clean Hid) as [_ ->]. run_pure.
    destruct (stringify_storable o Hj) as [-> ->]. run_pure. run R2.
    run (no_legacy_copy d2 (room DOCS) _ W2 docs_clean Dr2 id Hid).
    rewrite (deletedPath_eq id Hid), deletedRoot_eq. run_pure.
    pose proof (holds_dead _ _ Hh2) as Hde2.
    run (exists_record d2 (room DEAD) _ W2 dead_clean Hde2 id Hid).
    unfold graves. cbn [dead]. rewrite lookup_fmap, Hnone. rewrite bool_decide_false by by intros [? ?]. cbn [when]. run_pure.
    by apply (no_legacy_copy d2 (room DEAD) _ W2 dead_clean Hde2 id Hid).
  - intros q Hq Hpre. rewrite (same_room_but INDEX DOCS d1 d2) by (done || by intros [=]). by apply S1.
Qed.

Lemma bury id o t : active st !! id = Some o -> Json.number_ok (Num.of_Z t) = true ->
  exists r d', softDelete id t d = (Ok r, d') /\
    holds d' (mkStore (delete id (active st)) (<[id := (o, Num.of_Z t)]> (dead st))) /\ same_room INDEX d d'.
Proof.
  intros Hact Ht. pose proof (holds_docs _ _ d_holds) as Hdo. pose proof (holds_plain _ _ d_holds id o Hact) as Hp.
  destruct (drawer_keys _ _ _ Hdo id o Hact) as [Hid Hj].
  assert (dead st !! id = None) as Hnone by (destruct (holds_apart _ _ d_holds id); congruence).
  set (grave := tombstone o (Num.of_Z t)).
  assert (Json.jsonable (VObj grave) = true) as Hjg by by apply jsonable_tombstone.
  destruct (write_record d (room DEAD) (graves st) d_wf dead_clean (holds_dead _ _ d_holds) id grave Hid Hjg) as (d1 & R1 & W1 & Dr1 & S1).
  assert (drawer d1 (room DOCS) (active st)) as Hdo1 by (by apply (drawer_sibling d d1 home DOCS DEAD); [|apply docs_clean|..]).
  destruct (remove_record d1 (room DOCS) (active st) W1 docs_clean Hdo1 id o Hact) as (d2 & R2 & W2 & Dr2 & S2).
  assert (calm d d2) as Hcalm.
  { apply (calm_trans d d1); [apply (calm_but DEAD)|apply (calm_but DOCS)]; (done || set_solver). }
  exists (Path.abs_path (place (room DEAD) id)), d2. split_and!.
  - unfold Documents.softDeleteStoredDoc. rewrite (validateDocId_ok id Hid), docsRoot_eq, (docPath_eq id Hid). run_pure.
    run (existing_record d (room DOCS) (active st) d_wf docs_clean Hdo id Hid).
    rewrite (deletedPath_eq id Hid), deletedRoot_eq. run_pure.
    destruct (place_eq (room DOCS) id docs_clean Hid) as [_ ->]. run_pure.
    destruct (place_eq (room DEAD) id dead_clean Hid) as [_ ->]. run_pure.
    run (exists_record d (room DOCS) (active st) d_wf docs_clean Hdo id Hid).
    rewrite Hact, bool_decide_true by by eexists. cbn [negb].
    destruct (read_record d (room DOCS) (active st) d_wf docs_clean Hdo id o Hact) as (Hr & Hpa & _). run Hr. rewrite Hpa. run_pure.
    change (obj_set (js "_deletedAt") (VNum (Num.of_Z t)) o) with grave.
    destruct (stringify_storable grave Hjg) as [-> ->]. run_pure. run R1. by run R2.
  - apply (holds_calm d d2 st); [done|done|done|done| | | |]; cbn [active dead].
    + unfold graves. cbn [dead]. rewrite fmap_insert. by apply (drawer_sibling d1 d2 home DEAD DOCS); [|apply dead_clean|..].
    + intros i. destruct (decide (i = id)) as [->|Hne]; [left; apply lookup_delete_eq|].
      rewrite lookup_delete_ne, lookup_insert_ne by done. apply d_holds.
    + intros i x [_ Hx]%lookup_delete_Some. by apply (holds_plain _ _ d_holds i).
    + intros i x u [[_ [= <- _]]|[_ Hx]]%lookup_insert_Some; [done|]. by apply (holds_plain_dead _ _ d_holds i x u).
  - apply Hcalm.
Qed.

Lemma unbury id o t : dead st !! id = Some (o, t) ->
  exists r d', restoreStored id d = (Ok r, d') /\
    holds d' (mkStore (<[id := o]> (active st)) (delete id (dead st))) /\ same_room INDEX d d'.
Proof.
  intros Hdead. pose proof (holds_dead _ _ d_holds) as Hde. pose proof (holds_plain_dead _ _ d_holds id o t Hdead) as Hp.
  assert (graves st !! id = Some (tombstone o t)) as Hg by (unfold graves; by rewrite lookup_fmap, Hdead).
  destruct (drawer_keys _ _ _ Hde id _ Hg) as [Hid Hjg].
  assert (active st !! id = None) as Hnone by (destruct (holds_apart _ _ d_holds id); congruence).
  assert (Json.jsonable (VObj o) = true) as Hj by by apply (jsonable_untomb o t).
  destruct (write_record d (room DOCS) (active st) d_wf docs_clean (holds_docs _ _ d_holds) id o Hid Hj) as (d1 & R1 & W1 & Dr1 & S1).
  assert (drawer d1 (room DEAD) (graves st)) as Hde1 by (by apply (drawer_sibling d d1 home DEAD DOCS); [|apply dead_clean|..]).
  destruct (remove_record d1 (room DEAD) (graves st) W1 dead_clean Hde1 id _ Hg) as (d2 & R2 & W2 & Dr2 & S2).
  assert (calm d d2) as Hcalm.
  { apply (calm_trans d d1); [apply (calm_but DOCS)|apply (calm_but DEAD)]; (done || set_solver). }
  exists (Path.abs_path (place (room DOCS) id)), d2. split_and!.
  - unfold Documents.restoreStoredDoc. rewrite (validateDocId_ok id Hid), deletedRoot_eq, (deletedPath_eq id Hid). run_pure.
    run (existing_record d (room DEAD) (graves st) d_wf dead_clean Hde id Hid).
    rewrite (docPath_eq id Hid), docsRoot_eq. run_pure.
    destruct (place_eq (room DEAD) id dead_clean Hid) as [_ ->]. run_pure.
    destruct (place_eq (room DOCS) id docs_clean Hid) as [_ ->]. run_pure.
    run (exists_record d (room DEAD) (graves st) d_wf dead_clean Hde id Hid).
    rewrite Hg, bool_decide_true by by eexists. cbn [negb].
    destruct (read_record d (room DEAD) (graves st) d_wf dead_clean Hde id _ Hg) as (Hr & Hpa & _). run Hr. rewrite Hpa. run_pure.
    rewrite strip_tombstone by done. destruct (stringify_storable o Hj) as [-> ->]. run_pure. run R1. by run R2.
  - apply (holds_calm d d2 st); [done|done|done| | | | |]; cbn [active dead].
    + by apply (drawer_sibling d1 d2 home DOCS DEAD); [|apply docs_clean|..].
    + unfold graves. cbn [dead]. by rewrite fmap_delete.
    + intros i. destruct (decide (i = id)) as [->|Hne]; [right; apply lookup_delete_eq|].
      rewrite lookup_delete_ne, lookup_insert_ne by done. apply d_holds.
    + intros i x [[<- <-]|[_ Hx]]%lookup_insert_Some; [done|]. by apply (holds_plain _ _ d_holds i).
    + intros i x u [_ Hx]%lookup_delete_Some. by apply (holds_plain_dead _ _ d_holds i x u).
  - apply Hcalm.
Qed.

End Disk.
(** ** The core over the disk *)

Section Core.
  Context {D : Type} `{FilesystemLaws D, Performance D}.
  Context (sha256Hex : jstr -> jstr) (wormEnabled : bool).

Definition set_core_disk (d : D) (s : core D) : core D := mkCore (PrefixIndex.set_disk d (core_index s)) (core_bus s).

Lemma on_fs_ok {A} (m : M D A) (s : core D) a d :
  m (core_disk s) = (Ok a, d) -> on_fs m s = (Ok a, set_core_disk d s).
Proof. intros Hm. unfold on_fs, on_index. by rewrite (Store.on_disk_ok m (core_index s) a d Hm). Qed.

Lemma on_fs_read {A} (m : M D A) (s : core D) a :
  m (core_disk s) = (Ok a, core_disk s) -> on_fs m s = (Ok a, s).
Proof. intros Hm. rewrite (on_fs_ok m s a _ Hm). by destruct s as [[] ?]. Qed.

Lemma on_index_ok {A} (m : M (PrefixIndex.index_state D) A) (s : core D) a i :
  m (core_index s) = (Ok a, i) -> on_index m s = (Ok a, mkCore i (core_bus s)).
Proof. intros Hm. unfold on_index. by rewrite Hm. Qed.

Abbreviation indexes := (Store.indexes c home sha256Hex).

(** The files hold the store and the index holds the documents [docs]. *)
Record tied (s : core D) (st : store) (docs : gmap jstr object) : Prop := {
  tied_holds : holds (core_disk s) st;
  tied_index : indexes (core_index s) docs
}.

Lemma tied_bus s s' st docs : core_index s' = core_index s -> tied s st docs -> tied s' st docs.
Proof. intros Hi [Hh Hx]. constructor; [unfold core_disk|]; by rewrite Hi. Qed.

Definition represents (s : core D) (st : store) : Prop := tied s st (active st).

Lemma indexes_frame (i : PrefixIndex.index_state D) docs d : indexes i docs -> wf d ->
  same_room INDEX (PrefixIndex.index_disk i) d -> indexes (PrefixIndex.set_disk d i) docs.
Proof.
  intros (ks & ms & Hs & Ht) Hw Hsame. exists ks, ms. split; [|done]. apply Store.stored_set_disk; [done|].
  pose proof (Store.stored_files _ _ _ _ _ Hs) as [_ Hd [b Hm] Hsn Hwal].
  pose proof (Store.index_clean home home_clean) as Hic.
  assert (forall f, f ∈ [PrefixIndex.LOCAL_FS_MANIFEST; PrefixIndex.LOCAL_FS_SNAPSHOT; PrefixIndex.LOCAL_FS_WAL] ->
    look d (Store.index_dir home ++ [f]) = look (PrefixIndex.index_disk i) (Store.index_dir home ++ [f])) as Hf.
  { intros f Hf. apply Hsame; [by apply Store.file_clean; [apply home_clean|]|by eexists]. }
  constructor; [done|..].
  - rewrite Hsame; [done|done|done].
  - exists b. unfold Store.manifest_at. rewrite Hf by set_solver. done.
  - unfold Store.snapshot_at. rewrite Hf by set_solver. done.
  - unfold Store.wal_at. rewrite Hf by set_solver. done.
Qed.

(** The filesystem alone changes, and not under the index. *)
Lemma tied_disk s st st' docs d : tied s st docs -> holds d st' -> same_room INDEX (core_disk s) d ->
  tied (set_core_disk d s) st' docs.
Proof. intros [_ Hi] Hh Hs. constructor; [done|]. by apply indexes_frame; [|apply Hh|]. Qed.

Lemma tied_same s st docs d : tied s st docs -> wf d -> Store.same_tree (core_disk s) d -> tied (set_core_disk d s) st docs.
Proof.
  intros Ht Hw Hs. eapply tied_disk; [exact Ht| |by intros q Hq _; apply Hs].
  apply (holds_same (core_disk s)); [done|by apply same_tree_rooms|apply Ht].
Qed.

(** The index alone changes. *)
Lemma tied_indexed s st docs docs' i : tied s st docs -> indexes i docs' ->
  Store.same_outside home (core_disk s) (PrefixIndex.index_disk i) -> tied (mkCore i (core_bus s)) st docs'.
Proof.
  intros [Hh _] Hi Ho. constructor; [|done]. apply (holds_same (core_disk s)); [|by intros q Hq _; apply Ho|done].
  destruct Hi as (ks & ms & Hs & _). apply Hs.
Qed.

Lemma tied_files s st docs : tied s st docs -> exists sn w, Store.files_there home (core_disk s) sn w.
Proof. intros [_ (ks & ms & Hs & _)]. eexists _, _. apply Hs. Qed.

(** A document the core may store: plain data that JSON carries whole and whose strings
    the index can encode. *)
Definition good (id : jstr) (o : object) : Prop :=
  Json.jsonable (VObj o) = true /\ plain o = true /\ is_ok (Codec.entriesForDocument sha256Hex id o) = true.

Hypothesis sha256_uri : forall s, forallb Utf8.uri_char (sha256Hex s) = true.

Lemma good_keys id o : TTID.is_ttid id = true -> good id o -> exists ks, Store.keys_of sha256Hex id o ks.
Proof.
  intros Hid (Hj & _ & Hok). destruct (Codec.entriesForDocument sha256Hex id o) as [ks|] eqn:E; [|done].
  exists ks. split_and!; [done|done|]. eapply Keys.entries_doc_keys; [done|by apply jsonable_units|done].
Qed.

Lemma index_put_tied s st docs id o : tied s st docs -> docs !! id = None -> TTID.is_ttid id = true -> good id o ->
  exists s', index_put sha256Hex root_path c id o s = (Ok (), s') /\ tied s' st (<[id := o]> docs) /\ core_bus s' = core_bus s.
Proof.
  intros Ht Hnone Hid Hg. destruct (good_keys id o Hid Hg) as [ks Hks].
  destruct (Store.putDocument_spec (collectionRoot root_path) c home collectionRoot_eq home_clean sha256Hex
              (core_index s) docs id o ks (tied_index _ _ _ Ht) Hnone Hks) as (i & Hrun & Hi & Ho).
  eexists. split_and!; [by apply on_index_ok| |done]. by eapply tied_indexed.
Qed.

Lemma index_remove_tied s st docs id o : tied s st docs -> docs !! id = Some o ->
  exists s', index_remove sha256Hex root_path c id o s = (Ok (), s') /\ tied s' st (delete id docs) /\ core_bus s' = core_bus s.
Proof.
  intros Ht Hsome. destruct (Store.indexes_docs c home sha256Hex _ _ id o (tied_index _ _ _ Ht) Hsome) as [ks Hks].
  destruct (Store.removeDocument_spec (collectionRoot root_path) c home collectionRoot_eq home_clean sha256Hex
              (core_index s) docs id o ks (tied_index _ _ _ Ht) Hsome Hks) as (i & Hrun & Hi & Ho).
  eexists. split_and!; [by apply on_index_ok| |done]. by eapply tied_indexed.
Qed.

Lemma publish_tied s st docs ev : tied s st docs ->
  exists s', publish root_path c ev s = (Ok (), s') /\ tied s' st docs /\ core_bus s' = dispatch c ev (core_bus s).
Proof.
  intros Ht. pose proof (tied_holds _ _ _ Ht) as Hh. pose proof Hh as [Hw Hdo Hde Hm He Hj Ha Hp Hpd].
  assert (clear_above (look (core_disk s)) journal) as Hclear by by apply clear_under; [|apply room_clean; set_solver|].
  destruct (law_appendText (core_disk s) journal (journal_line ev) Hw journal_clean) as (d & Hrun & Hw' & Hl);
    [by unfold journal; destruct (room EVENTS)|done|done|].
  assert (same_but (room EVENTS) (core_disk s) d) as Hs.
  { intros q Hq Hni. rewrite (Hl q Hq). unfold journal. rewrite grown_under by (done || (apply room_clean; set_solver)).
    rewrite decide_False; [done|]. intros ->. apply Hni. by eexists. }
  assert (forall x, x <> EVENTS -> same_room x (core_disk s) d) as Hx by (intros x Hne; by apply (same_room_but x EVENTS)).
  eexists. split_and!.
  - unfold publish, Events.publish. rewrite journalPath_eq, Hrun. reflexivity.
  - apply (tied_bus (set_core_disk d s)); [done|]. apply (tied_disk s st st docs d Ht); [|by apply Hx]. constructor; try done.
    + eapply drawer_same; [apply room_clean; set_solver| |exact Hdo]. intros q Hq Hpre. by apply (Hx DOCS).
    + eapply drawer_same; [apply room_clean; set_solver| |exact Hde]. intros q Hq Hpre. by apply (Hx DEAD).
    + rewrite (Hx META); [done|done|apply room_clean; set_solver|done].
    + rewrite Hl by (apply room_clean; set_solver). unfold journal. rewrite grown_under by (done || (apply room_clean; set_solver)).
      rewrite decide_False; [done|]. by intros E%app_not_self.
    + rewrite Hl by apply journal_clean. unfold grown. by rewrite decide_True.
  - done.
Qed.

Lemma now_tied s st docs : tied s st docs ->
  exists t s', date_now s = (Ok t, s') /\ tied s' st docs /\ core_bus s' = core_bus s /\
    exists d, now (core_disk s) = (Ok t, d).
Proof.
  intros Ht. destruct (law_now (core_disk s)) as (t & d & Hrun & Hw & Hl); [apply (tied_holds _ _ _ Ht)|].
  exists t, (set_core_disk d s). split_and!; [by apply on_fs_ok| |done|by eexists].
  apply tied_same; [done|done|]. by intros q _.
Qed.

(** ** The methods on a tied core *)

Abbreviation put_method := (putData sha256Hex root_path wormEnabled c).

Lemma require_tied s st docs : tied s st docs -> requireCollection root_path c s = (Ok (), s).
Proof.
  intros Ht. pose proof (tied_holds _ _ _ Ht) as Hh. pose proof (holds_wf _ _ Hh) as Hw.
  assert (look (core_disk s) home = Some Dir) as Hho.
  { apply (look_prefix _ home (room DOCS)); [done|apply room_clean; set_solver|apply (holds_docs _ _ Hh)|by eexists]. }
  unfold requireCollection, hasCollection. rewrite collectionRoot_eq.
  assert (on_fs (exists_ (Path.abs_path home)) s = (Ok true, s)) as He.
  { apply on_fs_read. rewrite law_exists by (done || apply home_clean). by rewrite Hho, bool_decide_true by by eexists. }
  rewrite (M_bind_ok (base ← lift (Ok (Path.abs_path home)); on_fs (exists_ base)) _ s s true); [done|]. by run_pure.
Qed.

Lemma ensure_tied s st docs : tied s st docs ->
  exists s', on_fs (ensureCollection root_path c) s = (Ok (), s') /\ tied s' st docs /\ core_bus s' = core_bus s.
Proof.
  intros Ht. destruct (tied_files s st docs Ht) as (sn & w & Hf).
  destruct (ensure_there (core_disk s) st (tied_holds _ _ _ Ht) sn w Hf) as (d & Hrun & Hw & Hs).
  eexists. split_and!; [by apply on_fs_ok|by apply tied_same|done].
Qed.

Lemma read_tied s st docs id : tied s st docs -> TTID.is_ttid id = true ->
  exists r, readStoredDoc root_path c id s = (Ok r, s) /\ stored_data <$> r = active st !! id /\
    (forall x, r = Some x -> stored_id x = id).
Proof.
  intros Ht Hid. destruct (read_active (core_disk s) st (tied_holds _ _ _ Ht) id Hid) as (r & Hrun & Hr & Hx).
  exists r. split_and!; [by apply on_fs_read|done|done].
Qed.

Lemma read_dead_tied s st docs id : tied s st docs -> TTID.is_ttid id = true ->
  exists r, readDeletedDoc root_path c id s = (Ok r, s) /\
    (fun x => (deleted_data x, deletedAt x)) <$> r = dead st !! id /\ (forall x, r = Some x -> deleted_id x = id).
Proof.
  intros Ht Hid. destruct (read_dead (core_disk s) st (tied_holds _ _ _ Ht) id Hid) as (r & Hrun & Hr & Hx).
  exists r. split_and!; [by apply on_fs_read|done|done].
Qed.

Lemma write_tied s st docs id o : tied s st docs -> TTID.is_ttid id = true ->
  Json.jsonable (VObj o) = true -> plain o = true -> dead st !! id = None ->
  exists s', writeStoredDoc root_path c id o s = (Ok (), s') /\
    tied s' (mkStore (<[id := o]> (active st)) (dead st)) docs /\ core_bus s' = core_bus s.
Proof.
  intros Ht Hid Hj Hp Hnone. destruct (tied_files s st docs Ht) as (sn & w & Hf).
  destruct (write_active (core_disk s) st (tied_holds _ _ _ Ht) id o sn w Hf Hid Hj Hp Hnone) as (d & Hrun & Hh & Hs).
  eexists. split_and!; [by apply on_fs_ok|by eapply tied_disk|done].
Qed.

Lemma event_ts_tied s st docs r : tied s st docs ->
  exists t s', event_ts r s = (Ok t, s') /\ tied s' st docs /\ core_bus s' = core_bus s.
Proof.
  intros Ht. destruct r as [r|]; [by exists (stored_updatedAt r), s|].
  destruct (now_tied s st docs Ht) as (t & s' & Hrun & Ht' & Hb & _). by exists t, s'.
Qed.

(** The reading and the announcement that end a successful write. *)
Lemma announce_tied s st docs id o : tied s st docs -> TTID.is_ttid id = true ->
  exists s' ev, (stored ← readStoredDoc root_path c id; ts ← event_ts stored;
                 _ ← publish root_path c (insert_event ts id o); mret id) s = (Ok id, s') /\
    tied s' st docs /\ core_bus s' = dispatch c ev (core_bus s) /\
    (prop ev (js "action"), prop ev (js "id"), prop ev (js "doc")) = (VStr (js "insert"), VStr id, VObj o).
Proof.
  intros Ht Hid. destruct (read_tied s st docs id Ht Hid) as (r & R1 & _ & _). run R1.
  destruct (event_ts_tied s st docs r Ht) as (t & s1 & R2 & Ht1 & B1). run R2.
  destruct (publish_tied s1 st docs (insert_event t id o) Ht1) as (s2 & R3 & Ht2 & B2). run R3.
  exists s2, (insert_event t id o). split_and!; [done|done|by rewrite B2, B1|done].
Qed.

(** ** What the methods do to the store *)

Inductive request :=
| Put (id : jstr) (doc : object)
| Patch (id : jstr) (fields : object)
| Delete (id : jstr)
| Restore (id : jstr)
| Get (id : jstr).

Definition run_request (r : request) : M (core D) value :=
  match r with
  | Put id doc => VStr <$> putData sha256Hex root_path wormEnabled c [(id, VObj doc)] None
  | Patch id fields => VStr <$> patchDoc sha256Hex root_path wormEnabled c [(id, VObj fields)] []
  | Delete id => (fun _ => VUndef) <$> delDoc sha256Hex root_path wormEnabled c id
  | Restore id => VStr <$> restoreDoc sha256Hex root_path wormEnabled c id
  | Get id => getDoc_once root_path c id false
  end.

Definition invalid_id (id : jstr) : js_error := Error (js "Invalid document ID: " ++ id).
Definition soft_deleted (id : jstr) : js_error := Error (js "Document is soft-deleted; restore it before writing: " ++ id).
Definition worm_update : js_error := Error (js "Update is not allowed in WORM mode").
Definition worm_delete : js_error := Error (js "Delete is not allowed in WORM mode").
Definition worm_restore : js_error := Error (js "Restore is not allowed in WORM mode").
Definition restore_exists (id : jstr) : js_error := Error (js "Cannot restore document because it already exists: " ++ id).
Definition restore_missing (id : jstr) : js_error := Error (js "Deleted document not found: " ++ id).

(** What a subscriber learns: the action, the identifier, the document. *)
Definition note : Type := value * value * value.
Definition note_of (event : value) : note := (prop event (js "action"), prop event (js "id"), prop event (js "doc")).
Definition inserted (id : jstr) (o : object) : note := (VStr (js "insert"), VStr id, VObj o).
Definition deleted (id : jstr) (o : object) : note := (VStr (js "delete"), VStr id, VObj o).

Definition answer : Type := outcome value * store * list note.

Definition spec_put (id : jstr) (o : object) (st : store) : answer :=
  if bool_decide (is_Some (dead st !! id)) then (Throw (soft_deleted id), st, [])
  else if wormEnabled && bool_decide (is_Some (active st !! id)) then (Throw worm_update, st, [])
  else (Ok (VStr id), mkStore (<[id := o]> (active st)) (dead st), [inserted id o]).

(** The specification; [t] is the time a deletion notes. *)
Definition spec (t : Num.num) (r : request) (st : store) : answer :=
  match r with
  | Put id o => spec_put id o st
  | Patch id fields =>
      if wormEnabled then (Throw worm_update, st, [])
      else if negb (TTID.is_ttid id) then (Throw (invalid_id id), st, [])
      else match active st !! id with
           | None => (Ok (VStr id), st, [])
           | Some o => spec_put id (obj_assign (obj_assign [] o) fields) st
           end
  | Delete id =>
      if negb (TTID.is_ttid id) then (Throw (invalid_id id), st, [])
      else if wormEnabled then (Throw worm_delete, st, [])
      else match active st !! id with
           | None => (Ok VUndef, st, [])
           | Some o => (Ok VUndef, mkStore (delete id (active st)) (<[id := (o, t)]> (dead st)), [deleted id o])
           end
  | Restore id =>
      if negb (TTID.is_ttid id) then (Throw (invalid_id id), st, [])
      else if wormEnabled then (Throw worm_restore, st, [])
      else if bool_decide (is_Some (active st !! id)) then (Throw (restore_exists id), st, [])
      else match dead st !! id with
           | None => (Throw (restore_missing id), st, [])
           | Some (o, _) => (Ok (VStr id), mkStore (<[id := o]> (active st)) (delete id (dead st)), [inserted id o])
           end
  | Get id =>
      if negb (TTID.is_ttid id) then (Throw (invalid_id id), st, [])
      else (Ok (VObj (match active st !! id with Some o => [(id, VObj o)] | None => [] end)), st, [])
  end.

(** The calls considered: a document is put under an identifier, and what is stored is
    good. *)
Definition allowed (r : request) (st : store) : Prop :=
  match r with
  | Put id o => TTID.is_ttid id = true /\ good id o
  | Patch id fields => id <> [] /\ forall o, active st !! id = Some o -> good id (obj_assign (obj_assign [] o) fields)
  | _ => True
  end.

(** The core [s] answers as the specification does, and the subscribers of the
    collection are told so. *)
Definition answers (out : outcome value * core D) (s : core D) (a : answer) : Prop :=
  let '(r, s') := out in
  let '(r0, st, notes) := a in
  r = r0 /\ represents s' st /\
  exists events, map note_of events = notes /\
    core_bus s' = fold_left (fun b event => dispatch c event b) events (core_bus s).

Lemma answers_quiet s s' st r : represents s' st -> core_bus s' = core_bus s -> answers (r, s') s (r, st, []).
Proof. intros Hr Hb. split_and!; [done|done|by exists []]. Qed.

Lemma answers_noted s s' st r ev : represents s' st -> core_bus s' = dispatch c ev (core_bus s) ->
  answers (r, s') s (r, st, [note_of ev]).
Proof. intros Hr Hb. split_and!; [done|done|by exists [ev]]. Qed.

Lemma fmap_ok {A B} (f : A -> B) (m : M (core D) A) s a s' : m s = (Ok a, s') -> (f <$> m) s = (Ok (f a), s').
Proof. intros Hm. unfold fmap, M_fmap. by rewrite Hm. Qed.
Lemma fmap_throw {A B} (f : A -> B) (m : M (core D) A) s e s' : m s = (Throw e, s') -> (f <$> m) s = (Throw e, s').
Proof. intros Hm. unfold fmap, M_fmap. by rewrite Hm. Qed.

Lemma some_fmap {A B} (f : A -> B) (o : option A) (x : option B) : f <$> o = x -> bool_decide (is_Some o) = bool_decide (is_Some x).
Proof. intros <-. apply bool_decide_ext. by rewrite fmap_is_Some. Qed.

Lemma put_enters s st id o : represents s st -> TTID.is_ttid id = true ->
  put_method [(id, VObj o)] None s = put_body sha256Hex root_path wormEnabled c id o None s.
Proof.
  intros Hr Hid. unfold putData. run_pure. run (require_tied s st _ Hr).
  unfold explicitDocumentEntry. rewrite Hid. cbn [negb]. run_pure. cbn [fst snd].
  unfold validateDocId. rewrite (validateDocId_ok id Hid). run_pure. done.
Qed.

Lemma put_refused s st id o e : represents s st -> TTID.is_ttid id = true ->
  (forall r, stored_data <$> r = active st !! id -> forall g, (fun x => (deleted_data x, deletedAt x)) <$> g = dead st !! id ->
    planPutOperation (bool_decide (is_Some r)) wormEnabled (bool_decide (is_Some g)) = errSoftDeleted /\ e = soft_deleted id \/
    planPutOperation (bool_decide (is_Some r)) wormEnabled (bool_decide (is_Some g)) = errWormUpdate /\ e = worm_update) ->
  exists s', put_body sha256Hex root_path wormEnabled c id o None s = (Throw e, s') /\ represents s' st /\ core_bus s' = core_bus s.
Proof.
  intros Hr Hid Hplan. unfold put_body.
  destruct (ensure_tied s st _ Hr) as (s1 & R1 & Ht1 & B1). run R1.
  destruct (read_dead_tied s1 st _ id Ht1 Hid) as (g & R2 & Hg & _). run R2.
  destruct (read_tied s1 st _ id Ht1 Hid) as (r & R3 & Hrd & _). run R3.
  exists s1. split_and!; [|done|done].
  destruct (Hplan r Hrd g Hg) as [[-> ->]|[-> ->]]; done.
Qed.

Lemma put_accepted s st id o : represents s st -> TTID.is_ttid id = true -> good id o ->
  dead st !! id = None -> (wormEnabled = true -> active st !! id = None) ->
  exists s' ev, put_body sha256Hex root_path wormEnabled c id o None s = (Ok id, s') /\
    represents s' (mkStore (<[id := o]> (active st)) (dead st)) /\ core_bus s' = dispatch c ev (core_bus s) /\
    note_of ev = inserted id o.
Proof.
  intros Hr Hid Hgood Hnone Hworm. unfold put_body.
  destruct (ensure_tied s st _ Hr) as (s1 & R1 & Ht1 & B1). run R1.
  destruct (read_dead_tied s1 st _ id Ht1 Hid) as (g & R2 & Hg & _). run R2.
  destruct (read_tied s1 st _ id Ht1 Hid) as (r & R3 & Hrd & _). run R3.
  rewrite Hnone in Hg. destruct g; [done|]. clear Hg.
  assert (exists s2, (match planPutOperation (bool_decide (is_Some r)) wormEnabled (bool_decide (is_Some (@None DeletedDoc))), r with
       | errSoftDeleted, _ => throw (Error (js "Document is soft-deleted; restore it before writing: " ++ id))
       | errWormUpdate, _ => throw (Error (js "Update is not allowed in WORM mode"))
       | putUpdate, Some r => index_remove sha256Hex root_path c id (stored_data r)
       | _, _ => mret ()
       end) s1 = (Ok (), s2) /\ tied s2 st (delete id (active st)) /\ core_bus s2 = core_bus s1) as (s2 & R4 & Ht2 & B2).
  { destruct r as [r|].
    - destruct wormEnabled; [by rewrite Hworm in Hrd|]. cbn [fmap option_fmap option_map] in Hrd.
      apply (index_remove_tied s1 st (active st) id (stored_data r)); done.
    - exists s1. split_and!; [by destruct wormEnabled| |done]. rewrite delete_id; [done|]. by rewrite <- Hrd. }
  pose proof Hgood as (Hj & Hp & _). run R4. destruct (write_tied s2 st _ id o Ht2 Hid Hj Hp Hnone) as (s3 & R5 & Ht3 & B3). run R5.
  rewrite (M_bind_ok _ _ s3 s3 ()) by done.
  destruct (index_put_tied s3 _ _ id o Ht3 (lookup_delete_eq _ _) Hid Hgood) as (s4 & R6 & Ht4 & B4). run R6.
  assert (represents s4 (mkStore (<[id := o]> (active st)) (dead st))) as Hr4.
  { unfold represents. cbn [active]. by rewrite insert_delete_eq in Ht4. }
  rewrite (M_bind_ok _ _ s4 s4 ()) by (destruct wormEnabled; [by apply on_fs_read|done]).
  destruct (announce_tied s4 _ _ id o Hr4 Hid) as (s5 & ev & R7 & Ht5 & B5 & Hev).
  exists s5, ev. split_and!; [exact R7|exact Ht5|by rewrite B5, B4, B3, B2, B1|exact Hev].
Qed.

Lemma put_answers s st id o : represents s st -> TTID.is_ttid id = true -> good id o ->
  answers ((VStr <$> put_method [(id, VObj o)] None) s) s (spec_put id o st).
Proof.
  intros Hr Hid Hgood. unfold spec_put. case_bool_decide as Hdead.
  - destruct (put_refused s st id o (soft_deleted id) Hr Hid) as (s' & Hrun & Hr' & Hb).
    { intros r _ g Hg. left. split; [|done]. rewrite (some_fmap _ g _ Hg), (bool_decide_true _ Hdead). done. }
    rewrite (fmap_throw VStr _ s (soft_deleted id) s') by by rewrite (put_enters s st). by apply answers_quiet.
  - apply eq_None_not_Some in Hdead. destruct (wormEnabled && _) eqn:Hw.
    + apply andb_true_iff in Hw as [Hw Hact%bool_decide_eq_true].
      destruct (put_refused s st id o worm_update Hr Hid) as (s' & Hrun & Hr' & Hb).
      { intros r Hrd g Hg. right. split; [|done]. rewrite (some_fmap _ g _ Hg), (some_fmap _ r _ Hrd), Hdead, Hw.
        by rewrite (bool_decide_true _ Hact). }
      rewrite (fmap_throw VStr _ s worm_update s') by by rewrite (put_enters s st). by apply answers_quiet.
    + destruct (put_accepted s st id o Hr Hid Hgood Hdead) as (s' & ev & Hrun & Hr' & Hb & Hn).
      { intros Hw'. rewrite Hw' in Hw. cbn [andb] in Hw. apply bool_decide_eq_false in Hw. by apply eq_None_not_Some. }
      rewrite (fmap_ok VStr _ s id s') by by rewrite (put_enters s st). rewrite <- Hn. by apply answers_noted.
Qed.

Lemma validate_bad id : TTID.is_ttid id = false -> Documents.validateDocId id = Throw (invalid_id id).
Proof. unfold Documents.validateDocId. by intros ->. Qed.

Lemma get_answers t s st id : represents s st -> answers (getDoc_once root_path c id false s) s (spec t (Get id) st).
Proof.
  intros Hr. cbn [spec]. unfold getDoc_once, validateDocId. destruct (TTID.is_ttid id) eqn:Hid; cbn [negb].
  - rewrite (validateDocId_ok id Hid). run_pure. unfold one_doc. run (require_tied s st _ Hr).
    destruct (read_tied s st _ id Hr Hid) as (r & Hrun & Hrd & Hids). run Hrun. rewrite <- Hrd.
    destruct r as [r|]; [|by apply answers_quiet]. rewrite (Hids r eq_refl). by apply answers_quiet.
  - rewrite (validate_bad id Hid). by apply answers_quiet.
Qed.

Lemma patch_answers t s st id fields : represents s st -> allowed (Patch id fields) st ->
  answers (run_request (Patch id fields) s) s (spec t (Patch id fields) st).
Proof.
  intros Hr [Hne Hgood]. cbn [spec run_request]. unfold patchDoc. destruct wormEnabled eqn:Hw; cbn [throw_if].
  { rewrite (fmap_throw VStr _ s worm_update s) by done. by apply answers_quiet. }
  assert (keys [(id, VObj fields)] = [id]) as -> by done. destruct id as [|u id']; [done|]. set (id := u :: id') in *.
  destruct (TTID.is_ttid id) eqn:Hid; cbn [negb].
  - destruct (read_tied s st _ id Hr Hid) as (r & Hrun & Hrd & _).
    assert (forall A (k : option StoredDoc -> M (core D) A), (_ ← throw_if false (Error (js "Update is not allowed in WORM mode"));
        _ ← requireCollection root_path c; _ ← lift (validateDocId id); stored ← readStoredDoc root_path c id; k stored) s = k r s) as Hk.
    { intros A k. cbn [throw_if]. run_pure. run (require_tied s st _ Hr). unfold validateDocId.
      rewrite (validateDocId_ok id Hid). run_pure. by run Hrun. }
    unfold fmap, M_fmap. rewrite Hk. cbn [prop alist_get default].
    destruct r as [r|]; cbn [fmap option_fmap option_map] in Hrd; rewrite <- Hrd.
    + cbn [truthy]. unfold spread. cbn [entries prop alist_get]. rewrite decide_True by done. cbn [default entries].
      pose proof (put_answers s st id _ Hr Hid (Hgood _ (eq_sym Hrd))) as Hp. rewrite Hw in Hp. exact Hp.
    + by apply answers_quiet.
  - unfold fmap, M_fmap. cbn [throw_if]. run_pure. run (require_tied s st _ Hr). unfold validateDocId.
    rewrite (validate_bad id Hid). by apply answers_quiet.
Qed.

(** The clock's times are numbers that JSON writes and reads back. *)
Hypothesis clock_prints : forall d t d', now d = (Ok t, d') -> Json.number_ok (Num.of_Z t) = true.

Lemma delete_answers s st id : represents s st -> exists t,
  answers (run_request (Delete id) s) s (spec (Num.of_Z t) (Delete id) st).
Proof.
  intros Hr. cbn [spec run_request]. unfold delDoc, validateDocId. destruct (TTID.is_ttid id) eqn:Hid; cbn [negb].
  2:{ exists 0%Z. rewrite (fmap_throw _ _ s (invalid_id id) s) by by rewrite (validate_bad id Hid). by apply answers_quiet. }
  rewrite (validateDocId_ok id Hid). destruct (read_tied s st _ id Hr Hid) as (r & R1 & Hrd & _).
  unfold fmap, M_fmap. run_pure. run (require_tied s st _ Hr). unfold withCollectionWriteLane. run R1.
  destruct wormEnabled; [exists 0%Z; by apply answers_quiet|]. unfold planDeleteOperation.
  destruct r as [r|]; cbn [fmap option_fmap option_map] in Hrd; rewrite <- Hrd.
  2:{ exists 0%Z. by apply answers_quiet. }
  rewrite bool_decide_true by by eexists.
  destruct (index_remove_tied s st _ id (stored_data r) Hr (eq_sym Hrd)) as (s1 & R2 & Ht1 & B1). run R2.
  destruct (now_tied s1 st _ Ht1) as (t & s2 & R3 & Ht2 & B2 & d & Hnow). run R3. apply clock_prints in Hnow.
  destruct (bury (core_disk s2) st (tied_holds _ _ _ Ht2) id (stored_data r) t (eq_sym Hrd) Hnow) as (p & d3 & R4 & Hh3 & Hs3).
  pose proof (tied_disk s2 st _ _ d3 Ht2 Hh3 Hs3) as Ht3. run (on_fs_ok _ s2 p d3 R4).
  set (ev := VObj _). destruct (publish_tied (set_core_disk d3 s2) _ _ ev Ht3) as (s4 & R5 & Ht4 & B4). rewrite R5.
  exists t. change (deleted id (stored_data r)) with (note_of ev). apply answers_noted; [exact Ht4|].
  cbn [core_bus set_core_disk] in B4. by rewrite B4, B2, B1.
Qed.

(** The deleted documents could be put again. *)
Definition revivable (st : store) : Prop := forall id o t, dead st !! id = Some (o, t) -> good id o.

Lemma restore_answers t s st id : represents s st -> revivable st ->
  answers (run_request (Restore id) s) s (spec t (Restore id) st).
Proof.
  intros Hr Hrev. cbn [spec run_request]. unfold restoreDoc, validateDocId. destruct (TTID.is_ttid id) eqn:Hid; cbn [negb].
  2:{ rewrite (fmap_throw _ _ s (invalid_id id) s) by by rewrite (validate_bad id Hid). by apply answers_quiet. }
  rewrite (validateDocId_ok id Hid). destruct (read_tied s st _ id Hr Hid) as (r & R1 & Hrd & _).
  destruct (read_dead_tied s st _ id Hr Hid) as (g & R2 & Hg & _).
  unfold fmap, M_fmap. run_pure. run (require_tied s st _ Hr). unfold withCollectionWriteLane. run R1. run R2.
  unfold planRestoreOperation. rewrite (some_fmap _ r _ Hrd). destruct wormEnabled; [by apply answers_quiet|].
  case_bool_decide as Hact; [by apply answers_quiet|].
  destruct g as [g|]; cbn [fmap option_fmap option_map] in Hg; rewrite <- Hg; [|by apply answers_quiet].
  rewrite bool_decide_true by by eexists. cbn [negb].
  destruct (now_tied s st _ Hr) as (u & s1 & R3 & Ht1 & B1 & _). run R3.
  destruct (unbury (core_disk s1) st (tied_holds _ _ _ Ht1) id _ _ (eq_sym Hg)) as (p & d2 & R4 & Hh2 & Hs2).
  pose proof (tied_disk s1 st _ _ d2 Ht1 Hh2 Hs2) as Ht2. run (on_fs_ok _ s1 p d2 R4).
  apply eq_None_not_Some in Hact.
  destruct (index_put_tied _ _ _ id (deleted_data g) Ht2 Hact Hid (Hrev _ _ _ (eq_sym Hg))) as (s3 & R5 & Ht3 & B3). run R5.
  destruct (announce_tied s3 _ _ id (deleted_data g) Ht3 Hid) as (s4 & ev & R6 & Ht4 & B4 & Hev).
  rewrite R6. fold (note_of ev) in Hev. change (inserted id (deleted_data g)) with (VStr (js "insert"), VStr id, VObj (deleted_data g)).
  rewrite <- Hev. apply answers_noted; [exact Ht4|]. cbn [core_bus set_core_disk] in B4, B3. by rewrite B4, B3, B1.
Qed.

(** ** The refinement *)

Definition new_store (a : answer) : store := snd (fst a).

Lemma spec_put_dead id o st : dead (new_store (spec_put id o st)) = dead st.
Proof. unfold spec_put. by repeat case_match. Qed.

Lemma active_good s st id o : represents s st -> active st !! id = Some o -> good id o.
Proof.
  intros Hr Ho. pose proof (tied_holds _ _ _ Hr) as Hh.
  destruct (drawer_keys _ _ _ (holds_docs _ _ Hh) id o Ho) as [_ Hj].
  destruct (Store.indexes_docs c home sha256Hex _ _ id o (tied_index _ _ _ Hr) Ho) as [ks (_ & He & _)].
  split_and!; [done|by apply (holds_plain _ _ Hh id)|by rewrite He].
Qed.

Lemma spec_revivable t r s st : represents s st -> revivable st -> revivable (new_store (spec t r st)).
Proof.
  intros Hr Hrev. destruct r as [id o|id fields|id|id|id]; cbn [spec].
  - unfold revivable. by rewrite spec_put_dead.
  - destruct wormEnabled, (TTID.is_ttid id), (active st !! id); cbn [negb]; try done. unfold revivable. by rewrite spec_put_dead.
  - destruct (TTID.is_ttid id), wormEnabled; try done. cbn [negb]. destruct (active st !! id) as [o|] eqn:E; [|done].
    intros i x u. cbn [new_store fst snd dead]. intros [[<- [= <- _]]|[_ Hx]]%lookup_insert_Some; [by eapply active_good|by eapply Hrev].
  - destruct (TTID.is_ttid id), wormEnabled; try done. cbn [negb]. case_bool_decide; [done|].
    destruct (dead st !! id) as [[o u]|] eqn:E; [|done].
    intros i x v. cbn [new_store fst snd dead]. intros [_ Hx]%lookup_delete_Some. by eapply Hrev.
  - by destruct (TTID.is_ttid id).
Qed.

Lemma request_answers r s st : represents s st -> revivable st -> allowed r st ->
  exists t, answers (run_request r s) s (spec (Num.of_Z t) r st).
Proof.
  intros Hr Hrev Ha. destruct r as [id o|id fields|id|id|id].
  - exists 0%Z. destruct Ha as [Hid Hg]. by apply put_answers.
  - exists 0%Z. by apply patch_answers.
  - by apply delete_answers.
  - exists 0%Z. by apply restore_answers.
  - exists 0%Z. by apply get_answers.
Qed.


(** ** A put is not atomic *)

(** C40: a document whose strings the index cannot encode (a lone surrogate) is refused
    with an error after its file was written: the document is stored and read back though
    the call failed, the index does not know it, and from then on it can be neither
    deleted nor replaced. *)
Theorem put_not_atomic s st id o e : represents s st -> TTID.is_ttid id = true ->
  Json.jsonable (VObj o) = true -> plain o = true -> Codec.entriesForDocument sha256Hex id o = Throw e ->
  active st !! id = None -> dead st !! id = None -> wormEnabled = false ->
  exists s', run_request (Put id o) s = (Throw e, s') /\
    tied s' (mkStore (<[id := o]> (active st)) (dead st)) (active st) /\
    run_request (Get id) s' = (Ok (VObj [(id, VObj o)]), s') /\
    fst (run_request (Delete id) s') = Throw e /\ forall o', fst (run_request (Put id o') s') = Throw e.
Proof.
  intros Hr Hid Hj Hp He Hact Hdead Hworm.
  assert (forall s0, index_put sha256Hex root_path c id o s0 = (Throw e, mkCore (core_index s0) (core_bus s0))) as Hput.
  { intros s0. unfold index_put, on_index, PrefixIndex.putDocument. by rewrite He. }
  assert (forall s0, index_remove sha256Hex root_path c id o s0 = (Throw e, mkCore (core_index s0) (core_bus s0))) as Hrem.
  { intros s0. unfold index_remove, on_index, PrefixIndex.removeDocument. by rewrite He. }
  destruct (ensure_tied s st _ Hr) as (s1 & R1 & Ht1 & _).
  destruct (read_dead_tied s1 st _ id Ht1 Hid) as (g & R2 & Hg & _).
  destruct (read_tied s1 st _ id Ht1 Hid) as (r & R3 & Hrd & _).
  rewrite Hdead in Hg. destruct g; [done|]. rewrite Hact in Hrd. destruct r; [done|].
  destruct (write_tied s1 st _ id o Ht1 Hid Hj Hp Hdead) as (s2 & R4 & Ht2 & _).
  set (st2 := mkStore (<[id := o]> (active st)) (dead st)) in *.
  assert (tied (mkCore (core_index s2) (core_bus s2)) st2 (active st)) as Ht3 by by apply (tied_bus s2).
  exists (mkCore (core_index s2) (core_bus s2)). split_and!; [|done|..].
  - cbn [run_request]. apply fmap_throw. rewrite (put_enters s st) by done. unfold put_body. run R1. run R2. run R3.
    rewrite Hworm. rewrite (M_bind_ok _ _ s1 s1 ()) by done. run R4. rewrite (M_bind_ok _ _ s2 s2 ()) by done.
    by rewrite (M_bind_throw _ _ _ _ _ (Hput s2)).
  - cbn [run_request]. unfold getDoc_once, validateDocId. rewrite (validateDocId_ok id Hid). run_pure. unfold one_doc.
    run (require_tied _ st2 _ Ht3). destruct (read_tied _ st2 _ id Ht3 Hid) as (r & Hrun & Hr3 & Hids). run Hrun.
    unfold st2 in Hr3. cbn [active] in Hr3. rewrite lookup_insert_eq in Hr3. destruct r as [r|]; [|done].
    injection Hr3 as ->. by rewrite (Hids r eq_refl).
  - cbn [run_request]. unfold delDoc, validateDocId. rewrite (validateDocId_ok id Hid).
    destruct (read_tied _ st2 _ id Ht3 Hid) as (r & Hrun & Hr3 & _).
    unfold st2 in Hr3. cbn [active] in Hr3. rewrite lookup_insert_eq in Hr3. destruct r as [r|]; [|done]. injection Hr3 as Hr3.
    unfold fmap, M_fmap. run_pure. run (require_tied _ st2 _ Ht3). unfold withCollectionWriteLane. run Hrun. rewrite Hworm.
    unfold planDeleteOperation. rewrite bool_decide_true by by eexists. rewrite Hr3. by rewrite (M_bind_throw _ _ _ _ _ (Hrem _)).
  - intros o'. cbn [run_request]. unfold putData, fmap, M_fmap. run_pure. run (require_tied _ st2 _ Ht3).
    unfold explicitDocumentEntry. rewrite Hid. cbn [negb]. run_pure. cbn [fst snd].
    unfold validateDocId. rewrite (validateDocId_ok id Hid). run_pure. unfold withCollectionWriteLane, put_body.
    destruct (ensure_tied _ st2 _ Ht3) as (s4 & R5 & Ht4 & _). run R5.
    destruct (read_dead_tied s4 st2 _ id Ht4 Hid) as (g & R6 & Hg4 & _). run R6.
    destruct (read_tied s4 st2 _ id Ht4 Hid) as (r & R7 & Hr4 & _). run R7.
    unfold st2 in Hg4, Hr4. cbn [active dead] in Hg4, Hr4. rewrite Hdead in Hg4. rewrite lookup_insert_eq in Hr4.
    destruct g; [done|]. destruct r as [r|]; [|done]. injection Hr4 as Hr4. rewrite Hworm, Hr4.
    change (planPutOperation (bool_decide (is_Some (Some r))) false (bool_decide (is_Some (@None DeletedDoc)))) with putUpdate.
    cbn iota. by rewrite (M_bind_throw _ _ _ _ _ (Hrem s4)).
Qed.

(** ** A new collection *)

(** Under the collection's directory there are these directories and nothing else. *)
Definition only_dirs (d : D) (l : list path) : Prop :=
  wf d /\ forall q, Forall Path.clean q -> home `prefix_of` q -> look d q = if decide (q ∈ l) then Some Dir else None.

Lemma only_home d : wf d -> look d home = None -> clear_above (look d) home ->
  exists d', mkdir (Path.abs_path home) true d = (Ok (), d') /\ only_dirs d' [home].
Proof.
  intros Hw Hnone Hclear.
  destruct (law_mkdir d home Hw home_clean) as (d' & Hrun & Hw' & Hl); [by unfold home; destruct rr|by rewrite Hnone|done|].
  exists d'. split; [done|]. split; [done|]. intros q Hq Hp. rewrite Hl by done. unfold grown.
  destruct (decide (q = home)) as [->|Hne]; [by rewrite decide_True by by left|].
  rewrite decide_False by (intros [Hp' _]; apply Hne; by apply (anti_symm prefix)).
  rewrite decide_False by by rewrite list_elem_of_singleton.
  destruct (look d q) eqn:E; [|done]. rewrite (look_above d home q) in Hnone; [done|done|done|split; [done|congruence]|by eexists].
Qed.

Lemma more_dirs d l x : only_dirs d l -> home ∈ l -> x ∈ [DOCS; DEAD; META; EVENTS; INDEX] -> room x ∉ l ->
  exists d', mkdir (Path.abs_path (room x)) true d = (Ok (), d') /\ only_dirs d' (room x :: l).
Proof.
  intros [Hw Hl] Hh Hx Hni. pose proof (room_clean x Hx) as Hc.
  destruct (mkdir_in d home x Hw Hc) as (d' & Hrun & Hw' & Hl').
  - rewrite Hl; [by rewrite decide_True|apply home_clean|done].
  - rewrite Hl; [by rewrite decide_False|done|by eexists].
  - exists d'. split; [done|]. split; [done|]. intros q Hq Hp. rewrite Hl' by done. fold (room x).
    destruct (decide (q = room x)) as [->|Hne]; [by rewrite decide_True by by left|]. rewrite Hl by done.
    destruct (decide (q ∈ l)); [by rewrite decide_True by by right|]. by rewrite decide_False by by rewrite elem_of_cons; intros [].
Qed.

Lemma room_inj x y : room x = room y -> x = y.
Proof. intros E%app_inj_tail. by destruct E. Qed.

Lemma empty_drawer d l x : only_dirs d l -> (forall q, q ∈ l -> length q <= S (length home)) -> room x ∈ l ->
  x ∈ [DOCS; DEAD] -> drawer d (room x) ∅.
Proof.
  intros [Hw Hl] Hlen Hin Hx. assert (Forall Path.clean (room x)) as Hc by (apply room_clean; set_solver).
  assert (forall q, Forall Path.clean q -> room x `prefix_of` q -> S (length home) < length q -> look d q = None) as Hno.
  { intros q Hq Hp Hlt. rewrite Hl; [|done|by eapply room_prefix]. rewrite decide_False; [done|]. intros Hi%Hlen. lia. }
  constructor.
  - rewrite Hl; [by rewrite decide_True|done|by eexists].
  - intros b id Hb Hid. rewrite lookup_empty. rewrite Hno; [by case_decide|by apply record_clean|by eexists|].
    unfold room. rewrite !length_app. cbn. lia.
  - intros id Hid. rewrite Hno; [done|by apply shelf_path_clean; [|by apply shelf_spec]|by eexists|].
    unfold room. rewrite !length_app. cbn. lia.
  - intros id o Hm. by rewrite lookup_empty in Hm.
Qed.

Definition empty_store : store := mkStore ∅ ∅.

Lemma create_represents d : wf d -> look d home = None -> clear_above (look d) home ->
  exists s, createCollection root_path c (new_core d) = (Ok (), s) /\ represents s empty_store /\ core_bus s = new_bus.
Proof.
  intros Hw Hnone Hclear. destruct (only_home d Hw Hnone Hclear) as (d1 & R1 & O1).
  assert (forall x l, x ∉ l -> room x ∉ map room l ++ [home]) as Hfresh.
  { intros x l Hx. rewrite elem_of_app, list_elem_of_singleton. intros [(y & ->%room_inj & Hy)%list_elem_of_fmap|E]; [done|].
    apply (f_equal length) in E. unfold room in E. rewrite length_app in E. cbn in E. lia. }
  destruct (more_dirs d1 [home] DOCS) as (d2 & R2 & O2); [done|set_solver|set_solver|by apply (Hfresh DOCS []), not_elem_of_nil|].
  destruct (more_dirs d2 _ DEAD O2) as (d3 & R3 & O3); [set_solver|set_solver|by apply (Hfresh DEAD [DOCS]), (bool_decide_unpack _)|].
  destruct (more_dirs d3 _ META O3) as (d4 & R4 & O4); [set_solver|set_solver|by apply (Hfresh META [DEAD; DOCS]), (bool_decide_unpack _)|].
  destruct (more_dirs d4 _ EVENTS O4) as (d5 & R5 & O5); [set_solver|set_solver|by apply (Hfresh EVENTS [META; DEAD; DOCS]), (bool_decide_unpack _)|].
  pose proof (Hfresh INDEX [EVENTS; META; DEAD; DOCS] ltac:(by apply (bool_decide_unpack _))) as Hni.
  cbn [map app] in Hni. pose proof O5 as [W5 L5].
  destruct (Store.fresh_spec (collectionRoot root_path) c home collectionRoot_eq home_clean sha256Hex d5 W5) as (d6 & R6 & Hi & Ho).
  { rewrite L5; [by rewrite decide_True by set_solver|apply home_clean|done]. }
  { change (Store.index_dir home) with (room INDEX). rewrite L5; [by rewrite decide_False|apply room_clean; set_solver|by eexists]. }
  assert (W6 : wf d6) by (destruct Hi as (? & ? & Hs & _); apply (Store.stored_files _ _ _ _ _ Hs)).
  assert (holds d5 empty_store) as Hh.
  { assert (forall q, q ∈ [room EVENTS; room META; room DEAD; room DOCS; home] -> length q <= S (length home)) as Hlen.
    { intros q. rewrite !elem_of_cons, elem_of_nil. unfold room.
      intros [->|[->|[->|[->|[->|[]]]]]]; rewrite ?length_app; cbn; lia. }
    constructor; [done|..].
    - apply (empty_drawer d5 _ DOCS O5 Hlen); set_solver.
    - unfold graves. cbn [dead empty_store]. rewrite fmap_empty. apply (empty_drawer d5 _ DEAD O5 Hlen); set_solver.
    - rewrite L5; [by rewrite decide_True by set_solver|apply room_clean; set_solver|by eexists].
    - rewrite L5; [by rewrite decide_True by set_solver|apply room_clean; set_solver|by eexists].
    - rewrite L5; [|apply journal_clean|unfold journal, room; by eexists [_; _]; rewrite <- app_assoc].
      rewrite decide_False; [done|]. intros Hin%Hlen. unfold journal, room in Hin. rewrite !length_app in Hin. cbn in Hin. lia.
    - intros id. by left.
    - intros id o Hm. cbn [active dead empty_store] in Hm. by rewrite lookup_empty in Hm.
    - intros id o t Hm. cbn [active dead empty_store] in Hm. by rewrite lookup_empty in Hm. }
  exists (set_core_disk d6 (new_core d)). split_and!; [|split; [|exact Hi]|done].
  - apply on_fs_ok. change (core_disk (new_core d)) with d. unfold ensureCollection, assertCollectionName.
    rewrite c_valid, collectionRoot_eq, docsRoot_eq, deletedRoot_eq, metadataRoot_eq.
    run_pure. run R1. run_pure. run R2. run_pure. run R3. run_pure. run R4.
    change (js "events") with EVENTS. rewrite room_eq by set_solver. run R5. exact R6.
  - apply (holds_same d5 d6); [done| |done]. intros q Hq _. by apply Ho.
Qed.

(** ** Sequences of requests *)

(** The answers to the requests, one after the other; an error ends its own request only. *)
Fixpoint run_all (requests : list request) (s : core D) : list (outcome value) * core D :=
  match requests with
  | [] => ([], s)
  | r :: rest =>
      let '(o, s1) := run_request r s in
      let '(outs, s2) := run_all rest s1 in (o :: outs, s2)
  end.

(** A run of the specification, with the times of its deletions. *)
Inductive served : store -> list request -> list (outcome value) -> list note -> store -> Prop :=
| served_nil st : served st [] [] [] st
| served_cons t r rest st o notes st1 outs notes' st2 :
    spec (Num.of_Z t) r st = (o, st1, notes) -> served st1 rest outs notes' st2 ->
    served st (r :: rest) (o :: outs) (notes ++ notes') st2.

(** Every request is allowed where it comes. *)
Fixpoint all_allowed (requests : list request) (st : store) : Prop :=
  match requests with
  | [] => True
  | r :: rest => allowed r st /\ forall t : Num.num, all_allowed rest (new_store (spec t r st))
  end.

Lemma run_all_served requests s st : represents s st -> revivable st -> all_allowed requests st ->
  exists outs s' notes st' events, run_all requests s = (outs, s') /\ served st requests outs notes st' /\
    represents s' st' /\ map note_of events = notes /\
    core_bus s' = fold_left (fun b event => dispatch c event b) events (core_bus s).
Proof.
  revert s st. induction requests as [|r rest IH]; intros s st Hr Hrev Ha.
  { exists [], s, [], st, []. split_and!; [done|constructor|done..]. }
  destruct Ha as [Ha Hrest]. destruct (request_answers r s st Hr Hrev Ha) as (t & Hans).
  pose proof (spec_revivable (Num.of_Z t) r s st Hr Hrev) as Hrev1. specialize (Hrest (Num.of_Z t)).
  destruct (spec (Num.of_Z t) r st) as [[o st1] notes] eqn:Hspec. unfold new_store in Hrev1, Hrest. cbn [fst snd] in Hrev1, Hrest.
  destruct (run_request r s) as [o' s1] eqn:Hrun. destruct Hans as (-> & Hr1 & events & Hn & Hb).
  destruct (IH s1 st1 Hr1 Hrev1 Hrest) as (outs & s2 & notes' & st2 & events' & Hrun2 & Hserved & Hr2 & Hn2 & Hb2).
  exists (o :: outs), s2, (notes ++ notes'), st2, (events ++ events'). split_and!; [|by econstructor|done| |].
  - cbn [run_all]. by rewrite Hrun, Hrun2.
  - by rewrite map_app, Hn, Hn2.
  - by rewrite fold_left_app, <- Hb.
Qed.

(** C1: the core refines a store of active and deleted documents.  From a filesystem without the
    collection, creating it and then any sequence of allowed puts, patches, deletes, restores
    and reads answers each call exactly as the specification does, errors (soft deletion, WORM
    mode, restore conflicts, invalid identifiers) included; afterwards the files and the index
    hold exactly the specified store, also for a new core opened over the same files, and the
    subscribers of the collection were sent exactly the specified notes, in order.  A put is
    allowed under a valid identifier and without metadata, and what is stored must be a
    document that JSON and the index can encode, with no field of the names [_updatedAt] and
    [_deletedAt]; [put_not_atomic] says what happens to one the index cannot encode. *)
Theorem core_refines_store d requests :
  wf d -> look d home = None -> clear_above (look d) home -> all_allowed requests empty_store ->
  exists s0 outs s notes st events,
    createCollection root_path c (new_core d) = (Ok (), s0) /\
    run_all requests s0 = (outs, s) /\ served empty_store requests outs notes st /\
    represents s st /\ represents (new_core (core_disk s)) st /\
    map note_of events = notes /\ core_bus s = fold_left (fun b event => dispatch c event b) events new_bus.
Proof.
  intros Hw Hnone Hclear Ha. destruct (create_represents d Hw Hnone Hclear) as (s0 & R0 & Hr0 & B0).
  assert (revivable empty_store) as Hrev by (intros id o t Hm; cbn [dead empty_store] in Hm; by rewrite lookup_empty in Hm).
  destruct (run_all_served requests s0 empty_store Hr0 Hrev Ha) as (outs & s & notes & st & events & R & Hs & Hr & Hn & Hb).
  exists s0, outs, s, notes, st, events. split_and!; [done|done|done|done| |done|by rewrite Hb, B0].
  split; [apply Hr|]. apply (Store.reopen_spec c home sha256Hex (core_index s)), Hr.
Qed.

End Core.
End Collection.

(** ** A witness: people in memory *)

Definition noon (n : nat) : Z := 1700000000000.
#[local] Instance noon_fs : FyloFilesystem MemFs.state := MemFs.memory noon.
#[local] Instance noon_clock : Clock MemFs.state := MemFs.memory_clock noon.
#[local] Instance noon_laws : FilesystemLaws MemFs.state := MemFsLaws.memory_laws noon.
#[local] Instance noon_performance : Performance MemFs.state := {
  timeNow := mret (js "4ndzw6p09a8");
  performanceNow := mret Num.zero
}.

Definition people : jstr := js "people".
Definition ann_id : jstr := js "4VLN5QUCDP0".
Definition ann : object := [(js "name", VStr (js "Ann")); (js "tags", VArr [VStr (js "red")])].
Definition older : object := [(js "age", VNum (Num.of_Z 40))].
Definition visits : list request :=
  [Put ann_id ann; Patch ann_id older; Get ann_id; Delete ann_id; Put ann_id ann; Get ann_id; Restore ann_id;
   Restore ann_id; Delete (js "nobody"); Get ann_id].

Lemma noon_prints d t d' : now d = (Ok t, d') -> Json.number_ok (Num.of_Z t) = true.
Proof. intros [= <- _]. by vm_compute. Qed.

Lemma empty_clear : clear_above (look (MemFs.init noon)) (home [] people).
Proof.
  intros q [[r Hr] Hne]. destruct q as [|x [|y q]]; [by vm_compute| |].
  - cbn in Hr. injection Hr as <- _. by vm_compute.
  - cbn in Hr. injection Hr as <- <- Hr. destruct q; [|by cbn in Hr]. by destruct Hne.
Qed.

(** Compute the store a request leaves. *)
Ltac next_request :=
  intros ?; try (match goal with |- context [new_store ?a] => let st := eval vm_compute in (new_store a) in change (new_store a) with st end).

Lemma ann_good : TTID.is_ttid ann_id = true /\ good Complete.length_digest ann_id ann.
Proof. split_and!; [by vm_compute|]. split_and!; by vm_compute. Qed.

Lemma visits_allowed : all_allowed Complete.length_digest false visits empty_store.
Proof.
  cbn [all_allowed visits allowed]. split; [exact ann_good|]. next_request.
  split. { split; [done|]. intros o Ho. vm_compute in Ho. injection Ho as <-. split_and!; by vm_compute. }
  repeat first [exact I | split; [exact I|] | split; [exact ann_good|] | next_request].
Qed.

Lemma core_refines_store_witness :
  exists s0 outs s notes st events,
    createCollection (root_path []) people (new_core (MemFs.init noon)) = (Ok (), s0) /\
    run_all [] people Complete.length_digest false visits s0 = (outs, s) /\
    served false empty_store visits outs notes st /\
    represents [] people Complete.length_digest s st /\
    represents [] people Complete.length_digest (new_core (core_disk s)) st /\
    map note_of events = notes /\ core_bus s = fold_left (fun b event => dispatch people event b) events new_bus.
Proof.
  apply (core_refines_store [] people (Forall_nil_2 _) eq_refl Complete.length_digest false Answers.length_digest_uri
           noon_prints (MemFs.init noon) visits).
  - apply MemFsLaws.init_wf.
  - by vm_compute.
  - apply empty_clear.
  - apply visits_allowed.
Defined.

Definition keeper : core MemFs.state :=
  snd (run_request [] people Complete.length_digest true (Put ann_id ann)
    (snd (createCollection (root_path []) people (new_core (MemFs.init noon))))).
Lemma older_good : TTID.is_ttid ann_id = true /\ good Complete.length_digest ann_id older.
Proof. split_and!; [by vm_compute|]. split_and!; by vm_compute. Qed.

Definition torn : object := [(js "name", VStr [55296%N])].
Definition people_core : core MemFs.state := snd (createCollection (root_path []) people (new_core (MemFs.init noon))).

Lemma people_represented : represents [] people Complete.length_digest people_core empty_store.
Proof.
  destruct (create_represents [] people (Forall_nil_2 _) eq_refl Complete.length_digest Answers.length_digest_uri noon_prints (MemFs.init noon)) as (s & Hrun & Hr & _);
    [apply MemFsLaws.init_wf|by vm_compute|apply empty_clear|]. unfold people_core. by rewrite Hrun.
Qed.

Lemma keeper_represented : represents [] people Complete.length_digest keeper (mkStore {[ann_id := ann]} ∅).
Proof.
  destruct ann_good as [Hid Hg].
  pose proof (put_answers [] people (Forall_nil_2 _) eq_refl Complete.length_digest true Answers.length_digest_uri
                people_core empty_store ann_id ann people_represented Hid Hg) as Hans.
  change (VStr <$> putData Complete.length_digest (root_path []) true people [(ann_id, VObj ann)] None)
    with (run_request [] people Complete.length_digest true (Put ann_id ann)) in Hans.
  unfold keeper. fold people_core. destruct (run_request _ _ _ _ _ _) as [o s]. by destruct Hans as (_ & Hr & _).
Qed.

Lemma put_not_atomic_witness :
  exists s', run_request [] people Complete.length_digest false (Put ann_id torn) people_core = (Throw Utf8.uri_error, s') /\
    tied [] people Complete.length_digest s' (mkStore {[ann_id := torn]} ∅) ∅ /\
    run_request [] people Complete.length_digest false (Get ann_id) s' = (Ok (VObj [(ann_id, VObj torn)]), s') /\
    fst (run_request [] people Complete.length_digest false (Delete ann_id) s') = Throw Utf8.uri_error /\
    forall o', fst (run_request [] people Complete.length_digest false (Put ann_id o') s') = Throw Utf8.uri_error.
Proof.
  apply (put_not_atomic [] people (Forall_nil_2 _) eq_refl Complete.length_digest false Answers.length_digest_uri people_core empty_store
           ann_id torn Utf8.uri_error people_represented); by vm_compute.
Defined.

(** What the visits answer. *)
Example visits_answers :
  fst (run_all [] people Complete.length_digest false visits
         (snd (createCollection (root_path []) people (new_core (MemFs.init noon))))) =
  [Ok (VStr ann_id); Ok (VStr ann_id); Ok (VObj [(ann_id, VObj (ann ++ older))]); Ok VUndef;
   Throw (soft_deleted ann_id); Ok (VObj []); Ok (VStr ann_id); Throw (restore_exists ann_id);
   Throw (invalid_id (js "nobody")); Ok (VObj [(ann_id, VObj (ann ++ older))])].
Proof. by vm_compute. Qed.

End Lifecycle.
