(* ===== verification/Protocol.v ===== *)
(** The request protocol of [src/browser/core/protocol.js]: requests as plain data, one
    handler per operation, the response envelope.  The engine behind it is an interface,
    the method surface the handlers call; [BrowserCore] implements it at the end. *)

From stdpp Require Import gmap.
From S2P Require Import Prelude PathUtil JsNum JsValue Codec Filesystem MemFs PrefixIndex IndexComplete.
From S2P Require Import Query Documents Metadata Events Engine Lifecycle.

Module Protocol.
Import Engine.

Definition FYLO_BROWSER_PROTOCOL_VERSION : Z := 1.

(** The methods a handler calls on [fylo]. *)
Class FyloSurface (S : Type) := {
  executeSQL : jstr -> M S value;
  createCollection : jstr -> M S ();
  dropCollection : jstr -> M S ();
  inspectCollection : jstr -> M S value;
  rebuildCollection : jstr -> M S value;
  getDoc_once : jstr -> jstr -> bool -> M S value;
  getLatest : jstr -> jstr -> bool -> M S value;
  getDocMeta : jstr -> jstr -> M S value;
  setDocMetaRecord : jstr -> jstr -> object -> M S value;
  findDocs_collect : jstr -> object -> M S (list value);
  findDeletedDocs_collect : jstr -> object -> M S (list value);
  join : object -> M S value;
  putData : jstr -> object -> option object -> M S value;
  batchPutData : jstr -> list object -> M S value;
  patchDoc : jstr -> object -> object -> M S value;
  patchDocs : jstr -> object -> M S value;
  delDoc : jstr -> jstr -> M S ();
  restoreDoc : jstr -> jstr -> M S value;
  delDocs : jstr -> object -> M S value
}.

(** ** Checks on a request *)

Definition isRecord (v : value) : bool := match v with VObj _ => true | _ => false end.

Definition field_error (field what : jstr) : js_error :=
  Error (js "FYLO browser request field " ++ [34%N] ++ field ++ [34%N] ++ what).

Definition requireString (request : value) (field : jstr) : outcome jstr :=
  match prop request field with
  | VStr s => if bool_decide (trim s = []) then Throw (field_error field (js " must be a non-empty string")) else Ok s
  | _ => Throw (field_error field (js " must be a non-empty string"))
  end.

Definition requireObject (request : value) (field : jstr) : outcome object :=
  match prop request field with
  | VObj o => Ok o
  | _ => Throw (field_error field (js " must be an object"))
  end.

Definition object_of (v : value) : option object := match v with VObj o => Some o | _ => None end.

Definition requireObjectArray (request : value) (field : jstr) : outcome (list object) :=
  match prop request field with
  | VArr l => if forallb isRecord l then Ok (omap (fun v => object_of v) l)
              else Throw (field_error field (js " must be an array of objects"))
  | _ => Throw (field_error field (js " must be an array of objects"))
  end.

Definition isBrowserRequest (v : value) : bool :=
  isRecord v && match prop v (js "op") with VStr _ => true | _ => false end.

(** [isRecord(request[field]) ? request[field] : {}] *)
Definition object_or_empty (request : value) (field : jstr) : object := default [] (object_of (prop request field)).

Section Handlers.
  Context {S : Type} `{FyloSurface S}.
  (** What the handlers' table inherits under a name, called as a handler. *)
  Context (inherited : jstr -> option (value -> M S value)).

(** The loop of [collectFindDocs] and [collectDeletedDocs]. *)
Definition gather (query : object) (found : list value) : outcome value :=
  Codec.fold_outcome (fun docs v => if is_undef v then Ok docs else gather_row docs v)
    (if truthy (prop (VObj query) (js "$onlyIds")) then VArr [] else VObj safeRecord) found.

Definition collectFindDocs (collection : jstr) (query : object) : M S value :=
  found ← findDocs_collect collection query; lift (gather query found).
Definition collectDeletedDocs (collection : jstr) (query : object) : M S value :=
  found ← findDeletedDocs_collect collection query; lift (gather query found).

Definition only_id (request : value) : bool := bool_decide (prop request (js "onlyId") = VBool true).

(** The handlers by name. *)
Definition BROWSER_OPERATIONS : list (jstr * (value -> M S value)) :=
  let collection request := requireString request (js "collection") in
  let id request := requireString request (js "id") in
  [(js "executeSQL", fun request => sql ← lift (requireString request (js "sql")); executeSQL sql);
   (js "createCollection", fun request =>
      c ← lift (collection request); _ ← createCollection c; mret (VObj [(js "collection", VStr c)]));
   (js "dropCollection", fun request =>
      c ← lift (collection request); _ ← dropCollection c; mret (VObj [(js "collection", VStr c)]));
   (js "inspectCollection", fun request => c ← lift (collection request); inspectCollection c);
   (js "rebuildCollection", fun request => c ← lift (collection request); rebuildCollection c);
   (js "getDoc", fun request =>
      c ← lift (collection request); i ← lift (id request); getDoc_once c i (only_id request));
   (js "getLatest", fun request =>
      c ← lift (collection request); i ← lift (id request); getLatest c i (only_id request));
   (js "getMeta", fun request => c ← lift (collection request); i ← lift (id request); getDocMeta c i);
   (js "setMeta", fun request =>
      c ← lift (collection request); i ← lift (id request); m ← lift (requireObject request (js "meta"));
      setDocMetaRecord c i m);
   (js "findDocs", fun request =>
      c ← lift (collection request); collectFindDocs c (object_or_empty request (js "query")));
   (js "findDeletedDocs", fun request =>
      c ← lift (collection request); collectDeletedDocs c (object_or_empty request (js "query")));
   (js "joinDocs", fun request => j ← lift (requireObject request (js "join")); join j);
   (js "putData", fun request =>
      c ← lift (collection request); d ← lift (requireObject request (js "data"));
      let hasMeta := match request with VObj o => has_own (js "meta") o | _ => false end in
      m ← (if hasMeta then m ← lift (requireObject request (js "meta")); mret (Some m) else mret None);
      putData c d m);
   (js "batchPutData", fun request =>
      c ← lift (collection request); b ← lift (requireObjectArray request (js "batch")); batchPutData c b);
   (js "patchDoc", fun request =>
      c ← lift (collection request); n ← lift (requireObject request (js "newDoc"));
      patchDoc c n (object_or_empty request (js "oldDoc")));
   (js "patchDocs", fun request =>
      c ← lift (collection request); u ← lift (requireObject request (js "update")); patchDocs c u);
   (js "delDoc", fun request =>
      c ← lift (collection request); i ← lift (id request); _ ← delDoc c i;
      mret (VObj [(js "deleted", VBool true)]));
   (js "restoreDoc", fun request =>
      c ← lift (collection request); i ← lift (id request); restored ← restoreDoc c i;
      mret (VObj [(js "restored", VBool true); (js "id", restored)]));
   (js "delDocs", fun request =>
      c ← lift (collection request); d ← lift (requireObject request (js "delete")); delDocs c d)].

(** [BROWSER_OPERATIONS[op]] *)
Definition handler_of (op : jstr) : option (value -> M S value) :=
  match alist_get op BROWSER_OPERATIONS with Some h => Some h | None => inherited op end.

Definition executeBrowserOperation (request : value) : M S value :=
  if negb (isBrowserRequest request) then throw (Error (js "FYLO browser request body must be an object"))
  else
    let op := to_str (prop request (js "op")) in
    match handler_of op with
    | None => throw (Error (js "Unsupported FYLO browser operation: " ++ op))
    | Some operation => operation request
    end.

(** ** The envelope *)

Definition string_or_null (v : value) : value := match v with VStr _ => v | _ => VNull end.
Definition non_empty_or (s fallback : jstr) : jstr := if jeqb s [] then fallback else s.

Definition success_response (request : value) (durationMs : Z) (result : value) : value :=
  VObj [(js "protocolVersion", VNum (Num.of_Z FYLO_BROWSER_PROTOCOL_VERSION)); (js "ok", VBool true);
        (js "op", prop request (js "op")); (js "requestId", string_or_null (prop request (js "requestId")));
        (js "durationMs", VNum (Num.of_Z durationMs)); (js "result", result)].

Definition error_value (failure : js_error) : value :=
  VObj ([(js "name", VStr (non_empty_or (err_name failure) (js "Error")));
         (js "message", VStr (non_empty_or (err_message failure) (js "Unknown error")))] ++
        match err_code failure with Some code => [(js "code", VStr code)] | None => [] end).

Definition error_response (request : value) (durationMs : Z) (failure : js_error) : value :=
  VObj [(js "protocolVersion", VNum (Num.of_Z FYLO_BROWSER_PROTOCOL_VERSION)); (js "ok", VBool false);
        (js "op", string_or_null (prop request (js "op")));
        (js "requestId", string_or_null (prop request (js "requestId")));
        (js "durationMs", VNum (Num.of_Z durationMs)); (js "error", error_value failure)].

(** [runBrowserRequest(fylo, request)]; fields of a request that is not a record read as
    absent. *)
Definition runBrowserRequest `{Clock S} (request : value) : M S value :=
  startedAt ← now;
  try_catch
    (result ← executeBrowserOperation request;
     endedAt ← now;
     mret (success_response request (endedAt - startedAt) result))
    (fun failure => endedAt ← now; mret (error_response request (endedAt - startedAt) failure)).

End Handlers.

(** ** The core as a surface *)

Definition state_value (st : PrefixIndex.acceleration_state) : value :=
  VStr (match st with
        | PrefixIndex.Loading => js "loading" | PrefixIndex.Active => js "active"
        | PrefixIndex.Fallback => js "fallback"
        end).

Definition metrics_value (m : PrefixIndex.metrics) : value :=
  VObj [(js "snapshotReads", count_value (PrefixIndex.snapshotReads m));
        (js "snapshotBytes", count_value (PrefixIndex.snapshotBytes m));
        (js "walReads", count_value (PrefixIndex.walReads m)); (js "walBytes", count_value (PrefixIndex.walBytes m));
        (js "snapshotLoads", count_value (PrefixIndex.snapshotLoads m)); (js "scans", count_value (PrefixIndex.scans m))].

(** The object [accelerationStatus()] returns, less its timings. *)
Definition status_value (status : PrefixIndex.acceleration_status) : value :=
  match status with
  | PrefixIndex.StatusOff => VObj [(js "mode", VStr (js "javascript")); (js "state", VStr (js "off"))]
  | PrefixIndex.StatusWasm st error counters =>
      VObj ([(js "mode", VStr (js "wasm")); (js "state", state_value st); (js "metrics", metrics_value counters)] ++
            match error with
            | Some (code, (_ :: _) as message) => [(js "reasonCode", VStr code); (js "error", VStr message)]
            | _ => []
            end)
  end.

Definition inspection_value (i : inspection) : value :=
  VObj [(js "collection", VStr (inspect_collection i)); (js "exists", VBool (inspect_exists i));
        (js "worm", VBool (inspect_worm i)); (js "docsStored", count_value (docsStored i));
        (js "deletedDocs", count_value (deletedDocs i)); (js "indexedDocs", count_value (indexedDocs i));
        (js "indexAcceleration", status_value (indexAcceleration i))].

Definition rebuild_value (r : rebuild) : value :=
  VObj [(js "collection", VStr (rebuild_collection r)); (js "worm", VBool (rebuild_worm r));
        (js "docsScanned", count_value (docsScanned r)); (js "indexedDocs", count_value (rebuilt r))].

Section CoreSurface.
  Context {D : Type} `{FyloFilesystem D, Clock D, Performance D}.
  Context (sha256Hex : jstr -> jstr) (indexScannerFactory : option PrefixIndex.scanner_factory).
  Context (root : jstr) (wormEnabled : bool).

#[local] Instance core_clock : Clock (core D) := date_now.

#[local] Instance core_surface : FyloSurface (core D) := {
  executeSQL sql := Engine.executeSQL sha256Hex indexScannerFactory root wormEnabled (VStr sql);
  createCollection := Engine.createCollection root;
  dropCollection := Engine.dropCollection root wormEnabled;
  inspectCollection c := inspection_value <$> Engine.inspectCollection indexScannerFactory root wormEnabled c;
  rebuildCollection c := rebuild_value <$> Engine.rebuildCollection sha256Hex root wormEnabled c;
  getDoc_once := Engine.getDoc_once root;
  getLatest := Engine.getLatest root;
  getDocMeta := Engine.getDocMeta root;
  setDocMetaRecord c id meta := Engine.setDocMetaRecord root c id (VObj meta);
  findDocs_collect c query := Engine.findDocs sha256Hex indexScannerFactory root c (VObj query);
  findDeletedDocs_collect c query := Engine.findDeletedDocs root c (VObj query);
  join j := Engine.join sha256Hex indexScannerFactory root (VObj j);
  putData c data meta := VStr <$> Engine.putData sha256Hex root wormEnabled c data (VObj <$> meta);
  batchPutData c batch := (fun ids => VArr (map VStr ids)) <$> Engine.batchPutData sha256Hex root wormEnabled c batch;
  patchDoc c newDoc oldDoc := VStr <$> Engine.patchDoc sha256Hex root wormEnabled c newDoc oldDoc;
  patchDocs c update := count_value <$> Engine.patchDocs sha256Hex indexScannerFactory root wormEnabled c (VObj update);
  delDoc := Engine.delDoc sha256Hex root wormEnabled;
  restoreDoc c id := VStr <$> Engine.restoreDoc sha256Hex root wormEnabled c id;
  delDocs c query := count_value <$> Engine.delDocs sha256Hex indexScannerFactory root wormEnabled c (VObj query)
}.

(** A request served by the core. *)
Definition serve (inherited : jstr -> option (value -> M (core D) value)) (request : value) : M (core D) value :=
  runBrowserRequest inherited request.

End CoreSurface.
(** ** Requests that are refused *)

Inductive field_kind := Text | Fields | FieldsList | OptionalFields.

(** The fields an operation needs, in the order they are checked. *)
Definition required : list (jstr * list (jstr * field_kind)) :=
  let one := [(js "collection", Text)] in
  let two := [(js "collection", Text); (js "id", Text)] in
  [(js "executeSQL", [(js "sql", Text)]);
   (js "createCollection", one); (js "dropCollection", one); (js "inspectCollection", one); (js "rebuildCollection", one);
   (js "getDoc", two); (js "getLatest", two); (js "getMeta", two); (js "setMeta", two ++ [(js "meta", Fields)]);
   (js "findDocs", one); (js "findDeletedDocs", one); (js "joinDocs", [(js "join", Fields)]);
   (js "putData", one ++ [(js "data", Fields); (js "meta", OptionalFields)]);
   (js "batchPutData", one ++ [(js "batch", FieldsList)]);
   (js "patchDoc", one ++ [(js "newDoc", Fields)]); (js "patchDocs", one ++ [(js "update", Fields)]);
   (js "delDoc", two); (js "restoreDoc", two); (js "delDocs", one ++ [(js "delete", Fields)])].

Definition field_ok (request : value) (f : jstr * field_kind) : bool :=
  let v := prop request (fst f) in
  match snd f with
  | Text => match v with VStr s => negb (bool_decide (trim s = [])) | _ => false end
  | Fields => isRecord v
  | FieldsList => match v with VArr l => forallb isRecord l | _ => false end
  | OptionalFields =>
      negb (match request with VObj o => has_own (fst f) o | _ => false end) || isRecord v
  end.

(** A request the core takes up: a record with a known operation and its fields. *)
Definition accepted (request : value) : bool :=
  isBrowserRequest request &&
  match alist_get (to_str (prop request (js "op"))) required with
  | Some fields => forallb (field_ok request) fields
  | None => false
  end.

Section Refusals.
  Context {S : Type} `{FyloSurface S}.

Definition nothing_inherited : jstr -> option (value -> M S value) := fun _ => None.

Lemma requireString_ok request field : is_ok (requireString request field) = field_ok request (field, Text).
Proof. unfold requireString, field_ok. cbn [fst snd]. destruct (prop request field); try done. by case_bool_decide. Qed.
Lemma requireObject_ok request field : is_ok (requireObject request field) = field_ok request (field, Fields).
Proof. unfold requireObject, field_ok. cbn [fst snd]. by destruct (prop request field). Qed.
Lemma requireObjectArray_ok request field : is_ok (requireObjectArray request field) = field_ok request (field, FieldsList).
Proof. unfold requireObjectArray, field_ok. cbn [fst snd]. destruct (prop request field); try done. by destruct (forallb _ _). Qed.

(** A check that fails ends the handler before it calls the core. *)
Lemma check_first {A} (o : outcome A) (k : A -> M S value) (s : S) (rest : bool) :
  (forall a, rest = false -> exists e, k a s = (Throw e, s)) ->
  is_ok o && rest = false -> exists e, (lift o ≫= k) s = (Throw e, s).
Proof.
  intros Hk. destruct o as [a|e]; cbn [is_ok andb]; [intros Hr; by apply Hk|by exists e].
Qed.

(** C22: a request without a known operation, or with a missing or malformed field, is
    refused before the core is called: nothing changes.  Whatever the table of operations
    inherits from its prototype, the operation of the request is none of those names. *)
Theorem refused_requests_change_nothing inherited request (s : S) : inherited (to_str (prop request (js "op"))) = None -> accepted request = false ->
  exists e, executeBrowserOperation inherited request s = (Throw e, s).
Proof.
  intros Hno.
  unfold accepted, executeBrowserOperation, handler_of. destruct (isBrowserRequest request); cbn [negb andb]; [|by eexists].
  set (op := to_str _) in *. clearbody op. unfold BROWSER_OPERATIONS, required.
  repeat (cbn [alist_get map fst snd app]; match goal with |- context [decide (op = ?w)] => destruct (decide (op = w)) as [_|_] end;
    [cbn [alist_get forallb];
     rewrite <- ?requireString_ok, <- ?requireObject_ok, <- ?requireObjectArray_ok;
     repeat (apply check_first; intros ?); try discriminate|]).
  { unfold field_ok. cbn [fst snd]. rewrite andb_true_r. set (given := match request with VObj o => has_own (js "meta") o | _ => false end).
    destruct given; cbn [negb orb]; [|discriminate]. intros Hm. unfold requireObject. destruct (prop request (js "meta")); first [discriminate Hm | by eexists]. }
  intros _. rewrite Hno. by eexists.
Qed.

End Refusals.

(** ** The envelope of every answer *)

Section Envelope.
  Context {S : Type} `{FyloSurface S, Clock S}.
  Context (inherited : jstr -> option (value -> M S value)).

(** An answer to the request: the version, the request's identifier, and either success or
    an error that says something. *)
Definition envelope (request v : value) : Prop :=
  prop v (js "protocolVersion") = VNum (Num.of_Z FYLO_BROWSER_PROTOCOL_VERSION) /\
  prop v (js "requestId") = string_or_null (prop request (js "requestId")) /\
  (prop v (js "ok") = VBool true /\ prop v (js "op") = prop request (js "op") \/
   prop v (js "ok") = VBool false /\ prop v (js "op") = string_or_null (prop request (js "op")) /\
   exists message, prop (prop v (js "error")) (js "message") = VStr message /\ message <> []).

Lemma error_message failure : exists message,
  prop (error_value failure) (js "message") = VStr message /\ message <> [].
Proof.
  exists (non_empty_or (err_message failure) (js "Unknown error")). split; [done|].
  unfold non_empty_or. destruct (jeqb (err_message failure) []) eqn:E; [done|].
  intros Hn. rewrite Hn in E. by vm_compute in E.
Qed.

Lemma runBrowserRequest_answers request s : (forall s : S, exists t s', now s = (Ok t, s')) ->
  exists v s', runBrowserRequest inherited request s = (Ok v, s').
Proof.
  intros Hclock. unfold runBrowserRequest, mbind, M_bind. destruct (Hclock s) as (t & s1 & ->). unfold try_catch.
  destruct (executeBrowserOperation inherited request s1) as [[result|e] s2];
    destruct (Hclock s2) as (u & s3 & ->); by eexists _, _.
Qed.

(** C21: every request is answered: whatever it holds and whatever its operation does,
    [runBrowserRequest] returns an envelope and throws nothing; the envelope says success
    exactly when the operation succeeded, and then carries its result, and carries the
    error's code otherwise. *)
Theorem every_request_answered request s : (forall s : S, exists t s', now s = (Ok t, s')) ->
  exists v t s1 s', now s = (Ok t, s1) /\
    runBrowserRequest inherited request s = (Ok v, s') /\ envelope request v /\
    match fst (executeBrowserOperation inherited request s1) with
    | Ok result => prop v (js "ok") = VBool true /\ prop v (js "result") = result
    | Throw e => prop v (js "ok") = VBool false /\
        prop (prop v (js "error")) (js "code") = match err_code e with Some code => VStr code | None => VUndef end
    end.
Proof.
  intros Hclock. destruct (Hclock s) as (t & s1 & R1). unfold runBrowserRequest. unfold try_catch.
  destruct (executeBrowserOperation inherited request s1) as [[result|e] s2] eqn:R2; destruct (Hclock s2) as (u & s3 & R3).
  - exists (success_response request (u - t) result), t, s1, s3. split_and!; [done| | |by rewrite R2].
    + run R1. rewrite (M_bind_ok _ _ _ _ _ R2). by rewrite (M_bind_ok _ _ _ _ _ R3).
    + split_and!; [done|done|]. left. done.
  - exists (error_response request (u - t) e), t, s1, s3. split_and!; [done| | |].
    + run R1. rewrite (M_bind_throw _ _ _ _ _ R2). by rewrite (M_bind_ok _ _ _ _ _ R3).
    + split_and!; [done|done|]. right. split_and!; [done|done|]. apply error_message.
    + rewrite R2. cbn [fst]. by destruct e as [name message [code|]].
Qed.

End Envelope.

(** ** Witnesses: the core in memory *)

#[local] Existing Instance Lifecycle.noon_fs.
#[local] Existing Instance Lifecycle.noon_clock.
#[local] Existing Instance Lifecycle.noon_performance.
#[local] Instance memory_clock : Clock (core MemFs.state) := core_clock.
#[local] Instance memory_surface : FyloSurface (core MemFs.state) :=
  core_surface Complete.length_digest None (Lifecycle.root_path []) false.

Definition lost_request : value := VObj [(js "op", VStr (js "getDoc")); (js "collection", VStr (js "people"))].
Definition read_request : value :=
  VObj [(js "op", VStr (js "getDoc")); (js "collection", VStr (js "people")); (js "id", VStr Lifecycle.ann_id);
        (js "requestId", VStr (js "7"))].

(** A prototype that has a [constructor], as every object's. *)
Definition constructor_inherited {S} (op : jstr) : option (value -> M S value) := if jeqb op (js "constructor") then Some mret else None.

Lemma refused_requests_change_nothing_witness :
  exists e, executeBrowserOperation constructor_inherited lost_request Lifecycle.people_core = (Throw e, Lifecycle.people_core).
Proof. apply (refused_requests_change_nothing constructor_inherited lost_request Lifecycle.people_core); by vm_compute. Defined.

Lemma every_request_answered_witness :
  exists v t s1 s', now Lifecycle.people_core = (Ok t, s1) /\
    runBrowserRequest nothing_inherited read_request Lifecycle.people_core = (Ok v, s') /\ envelope read_request v /\
    match fst (executeBrowserOperation nothing_inherited read_request s1) with
    | Ok result => prop v (js "ok") = VBool true /\ prop v (js "result") = result
    | Throw e => prop v (js "ok") = VBool false /\
        prop (prop v (js "error")) (js "code") = match err_code e with Some code => VStr code | None => VUndef end
    end.
Proof.
  apply (every_request_answered nothing_inherited read_request Lifecycle.people_core).
  intros s. eexists _, _. reflexivity.
Defined.

End Protocol.
