(* ===== verification/Worker.v ===== *)
(** The browser worker: storage descriptions ([src/browser/storage.js]), the worker's side
    of the message protocol ([src/browser/worker/runtime.js]) and the page's side
    ([src/browser/worker/client.js]).  Messages are plain values.  An [async] handler is cut
    at its awaits: the part up to an await runs at once and leaves a stage to resume, and a
    run is a sequence of arrivals and resumptions in any order. *)

From stdpp Require Import gmap.
From S2P Require Import Prelude PathUtil JsNum JsValue Shard Codec Filesystem MemFs PrefixIndex IndexComplete.
From S2P Require Import Plan Query Documents Metadata Events Engine Lifecycle Protocol.

(** * Storage descriptions *)

Module Storage.
Import Plan.

Definition is_text (v : value) (s : jstr) : bool := bool_decide (v = VStr s).

Inductive NormalizedBrowserStorage := Memory | Opfs | Fsa (handle : value) (overlay : bool).

Definition normalizeBrowserStorage (storage : value) : outcome NormalizedBrowserStorage :=
  let v := match storage with VStr t => VObj [(js "type", VStr t)] | _ => storage end in
  if negb (is_objectlike v) then Throw (Error (js "Invalid browser storage configuration"))
  else
    let type := prop v (js "type") in
    let handle := prop v (js "handle") in
    if is_text type (js "memory") then Ok Memory
    else if is_text type (js "opfs") then Ok Opfs
    else if negb (is_text type (js "fsa")) then Throw (Error (js "Unsupported browser storage type: " ++ to_str type))
    else if negb (truthy handle) || negb (is_text (prop handle (js "kind")) (js "directory")) then
      Throw (Error (js "File System Access storage requires a directory handle"))
    else
      let access := nullish (prop v (js "access")) (VStr (js "overlay")) in
      if is_text access (js "overlay") then Ok (Fsa handle true)
      else if is_text access (js "readwrite") then Ok (Fsa handle false)
      else Throw (Error (js "Unsupported File System Access mode: " ++ to_str access)).

(** What a normalised description reads as. *)
Definition storage_value (s : NormalizedBrowserStorage) : value :=
  match s with
  | Memory => VObj [(js "type", VStr (js "memory"))]
  | Opfs => VObj [(js "type", VStr (js "opfs"))]
  | Fsa handle overlay =>
      VObj [(js "type", VStr (js "fsa")); (js "handle", handle);
            (js "access", VStr (if overlay then js "overlay" else js "readwrite"))]
  end.

Section Create.
  (** The filesystems: in memory, in the origin's private storage under a namespace, on a
      directory handle, and a handle's overlay. *)
  Context {F : Type} (memory : F) (opfs : jstr -> F) (fsa overlay : value -> F).

Definition createBrowserFilesystem (storage : NormalizedBrowserStorage) (namespace : jstr) : F :=
  match storage with
  | Memory => memory
  | Opfs => opfs namespace
  | Fsa handle true => overlay handle
  | Fsa handle false => fsa handle
  end.
End Create.

(** Normalising is done once: a normalised description is its own normal form. *)
Lemma normalize_storage_idem v s :
  normalizeBrowserStorage v = Ok s -> normalizeBrowserStorage (storage_value s) = Ok s.
Proof.
  unfold normalizeBrowserStorage. set (w := match v with VStr t => _ | _ => v end).
  destruct (is_objectlike w); [cbn [negb]|done].
  destruct (is_text (prop w (js "type")) (js "memory")); [by intros [= <-]|].
  destruct (is_text (prop w (js "type")) (js "opfs")); [by intros [= <-]|].
  destruct (is_text (prop w (js "type")) (js "fsa")); [cbn [negb]|done].
  set (h := prop w (js "handle")). destruct (truthy h) eqn:Ht; [cbn [negb orb]|done].
  destruct (is_text (prop h (js "kind")) (js "directory")) eqn:Hk; [cbn [negb]|done].
  assert (forall b, normalizeBrowserStorage (storage_value (Fsa h b)) = Ok (Fsa h b)) as Hb.
  { intros b. unfold normalizeBrowserStorage. cbn [storage_value is_objectlike negb].
    assert (prop (storage_value (Fsa h b)) (js "handle") = h) as E by done. cbn [storage_value] in E. rewrite E, Ht, Hk.
    by destruct b; vm_compute. }
  destruct (is_text (nullish _ _) (js "overlay")); [intros [= <-]; apply Hb|].
  destruct (is_text (nullish _ _) (js "readwrite")); [intros [= <-]; apply Hb|done].
Qed.

End Storage.

(** * The worker's side *)

(** What the runtime asks of a core: to be opened on a storage, with the options of the
    message that names it; its lifecycle; requests; subscriptions, with the calls its
    subscribers got so far. *)
Class HostedCore (C : Type) := {
  open_core : Storage.NormalizedBrowserStorage -> jstr -> value -> value -> value -> C;
  core_ready : M C ();
  core_close : M C ();
  core_request : value -> M C value;
  core_subscribe : jstr -> M C nat;
  core_unsubscribe : nat -> C -> C;
  core_calls : C -> list (nat * value)
}.

Module Runtime.
Import Storage Plan.

(** Ports are numbered, and so are core objects: a handler that is waiting keeps its core
    when another message removes it from [cores]. *)
Abbreviation port := nat (only parsing).
Abbreviation obj := nat (only parsing).

(** What a handler waits for. *)
Inductive stage :=
| Readying (o : obj)
| Subscribing (o : obj) (key collection : jstr)
| Serving (o : obj) (request : value)
| Answering (o : obj) (request : value)
| Closing (o : option obj) (coreKey : jstr).

Record task := mkTask { task_port : port; task_envelope : value; task_stage : stage }.

(** The listener the runtime gives a core: what it closes over. *)
Record listener := mkListener {
  listener_core : obj; listener_number : nat;
  listener_key : jstr; listener_namespace : value; listener_collection : jstr
}.

Record runtime (C : Type) := mkRuntime {
  objects : list C;
  cores : gmap jstr obj;
  subscriptions : gmap jstr (list port);
  coreSubscriptions : gmap jstr (obj * nat);
  listeners : list listener;
  outbox : list (port * value);
  tasks : list task
}.
Arguments mkRuntime {C}. Arguments objects {C}. Arguments cores {C}. Arguments subscriptions {C}.
Arguments coreSubscriptions {C}. Arguments listeners {C}. Arguments outbox {C}. Arguments tasks {C}.

Definition new_runtime {C} : runtime C := mkRuntime [] ∅ ∅ ∅ [] [] [].

Section Runtime.
  Context {C : Type} `{HostedCore C}.

Definition set_objects (l : list C) (s : runtime C) : runtime C :=
  mkRuntime l (cores s) (subscriptions s) (coreSubscriptions s) (listeners s) (outbox s) (tasks s).
Definition set_cores (m : gmap jstr obj) (s : runtime C) : runtime C :=
  mkRuntime (objects s) m (subscriptions s) (coreSubscriptions s) (listeners s) (outbox s) (tasks s).
Definition set_subscriptions (m : gmap jstr (list port)) (s : runtime C) : runtime C :=
  mkRuntime (objects s) (cores s) m (coreSubscriptions s) (listeners s) (outbox s) (tasks s).
Definition set_coreSubscriptions (m : gmap jstr (obj * nat)) (s : runtime C) : runtime C :=
  mkRuntime (objects s) (cores s) (subscriptions s) m (listeners s) (outbox s) (tasks s).
Definition set_listeners (l : list listener) (s : runtime C) : runtime C :=
  mkRuntime (objects s) (cores s) (subscriptions s) (coreSubscriptions s) l (outbox s) (tasks s).
Definition set_outbox (l : list (port * value)) (s : runtime C) : runtime C :=
  mkRuntime (objects s) (cores s) (subscriptions s) (coreSubscriptions s) (listeners s) l (tasks s).
Definition set_tasks (l : list task) (s : runtime C) : runtime C :=
  mkRuntime (objects s) (cores s) (subscriptions s) (coreSubscriptions s) (listeners s) (outbox s) l.

(** [post(port, message)] *)
Definition post (p : port) (message : value) : M (runtime C) () :=
  modify (fun s => set_outbox (outbox s ++ [(p, message)]) s).

Definition done_message (envelope : value) : value :=
  VObj [(js "id", prop envelope (js "id")); (js "ok", VBool true); (js "result", VBool true)].

(** ** Cores *)

Definition namespace_of (envelope : value) : value := nullish (prop envelope (js "namespace")) (VStr (js "fylo")).

Definition coreKey (envelope : value) : jstr :=
  let instanceId := prop envelope (js "instanceId") in
  if truthy instanceId then to_str (namespace_of envelope) ++ js ":" ++ to_str instanceId
  else to_str (namespace_of envelope).

Definition core (envelope : value) : M (runtime C) obj :=
  s ← get;
  match cores s !! coreKey envelope with
  | Some existing => mret existing
  | None =>
      storage ← lift (normalizeBrowserStorage (nullish (prop envelope (js "storage")) (VStr (js "opfs"))));
      let c := open_core storage (to_str (namespace_of envelope))
                 (nullish (prop envelope (js "root")) (VStr (js "/")))
                 (prop envelope (js "worm")) (prop envelope (js "wasm")) in
      let o := length (objects s) in
      _ ← modify (set_objects (objects s ++ [c]));
      _ ← modify (set_cores (<[coreKey envelope := o]> (cores s)));
      mret o
  end.

(** ** Events *)

Definition event_message (l : listener) (event : value) : value :=
  VObj [(js "type", VStr (js "event")); (js "namespace", listener_namespace l);
        (js "collection", VStr (listener_collection l)); (js "event", event)].

(** [broadcast(key, namespace, collection, event)] *)
Definition broadcast (l : listener) (event : value) (s : runtime C) : runtime C :=
  match subscriptions s !! listener_key l with
  | None => s
  | Some ports => set_outbox (outbox s ++ map (fun p => (p, event_message l event)) ports) s
  end.

(** A core calls its subscriber number [fst call]: the runtime's listener, if it is one. *)
Definition hear (o : obj) (s : runtime C) (call : nat * value) : runtime C :=
  fold_left (fun s l => if decide (listener_core l = o /\ listener_number l = fst call)
                        then broadcast l (snd call) s else s) (listeners s) s.

(** A call into the core [o], and what its subscribers post meanwhile. *)
Definition on_core {A} (o : obj) (m : M C A) : M (runtime C) A := fun s =>
  match objects s !! o with
  | None => (Throw (type_error (js "Cannot read properties of undefined")), s)
  | Some c =>
      let '(r, c') := m c in
      (r, fold_left (hear o) (drop (length (core_calls c)) (core_calls c'))
            (set_objects (<[o := c']> (objects s)) s))
  end.

(** The function [core.subscribe] returned, called. *)
Definition drop_listener (on : obj * nat) (s : runtime C) : runtime C :=
  match objects s !! fst on with
  | None => s
  | Some c => set_objects (<[fst on := core_unsubscribe (snd on) c]> (objects s)) s
  end.

(** [subscriptions.delete(key); coreSubscriptions.get(key)?.(); coreSubscriptions.delete(key)] *)
Definition forget_key (key : jstr) (s : runtime C) : runtime C :=
  let s1 := set_subscriptions (delete key (subscriptions s)) s in
  let s2 := match coreSubscriptions s1 !! key with Some on => drop_listener on s1 | None => s1 end in
  set_coreSubscriptions (delete key (coreSubscriptions s2)) s2.

(** ** Subscriptions *)

Definition subscription_key (envelope : value) (collection : value) : jstr :=
  coreKey envelope ++ js ":" ++ to_str collection.

(** [subscribe] up to its await. *)
Definition subscribe (p : port) (envelope : value) : M (runtime C) (option stage) :=
  let collection := prop envelope (js "collection") in
  if negb (truthy collection) then throw (Error (js "FYLO worker subscribe requires collection"))
  else
    let key := subscription_key envelope collection in
    s ← get;
    let ports := default [] (subscriptions s !! key) in
    let ports' := if decide (p ∈ ports) then ports else ports ++ [p] in
    _ ← modify (set_subscriptions (<[key := ports']> (subscriptions s)));
    match coreSubscriptions s !! key with
    | Some _ => _ ← post p (done_message envelope); mret None
    | None => o ← core envelope; mret (Some (Subscribing o key (to_str collection)))
    end.

(** [subscribe] after its await. *)
Definition subscribe_core (o : obj) (key : jstr) (envelope : value) (collection : jstr) : M (runtime C) () :=
  n ← on_core o (core_subscribe collection);
  _ ← modify (fun s => set_listeners (listeners s ++ [mkListener o n key (namespace_of envelope) collection]) s);
  modify (fun s => set_coreSubscriptions (<[key := (o, n)]> (coreSubscriptions s)) s).

Definition unsubscribe (p : port) (envelope : value) : M (runtime C) () :=
  let collection := prop envelope (js "collection") in
  if negb (truthy collection) then mret ()
  else
    let key := subscription_key envelope collection in
    s ← get;
    match subscriptions s !! key with
    | None => mret ()
    | Some ports =>
        let rest := filter (fun q => q <> p) ports in
        _ ← modify (set_subscriptions (<[key := rest]> (subscriptions s)));
        when (bool_decide (rest = [])) (modify (forget_key key))
    end.

(** [closeCore] after its await. *)
Definition forget_core (coreKey : jstr) : M (runtime C) () :=
  modify (fun s =>
    fold_left (fun s key => if starts_with (coreKey ++ js ":") key then forget_key key s else s)
      (map fst (map_to_list (subscriptions s))) s).

(** ** Messages *)

(** [{ id: envelope.id, ...response }] *)
Definition response_message (envelope response : value) : value :=
  VObj (obj_assign [(js "id", prop envelope (js "id"))] (entries response)).

(** [dispatch] up to its first await: what it waits for, or nothing when it is finished. *)
Definition dispatch (p : port) (envelope : value) : M (runtime C) (option stage) :=
  let type := prop envelope (js "type") in
  let done_ := _ ← post p (done_message envelope); mret None in
  if is_nullish envelope then throw (type_error (js "Cannot read properties of " ++ to_str envelope ++ js " (reading 'type')"))
  else if is_text type (js "close") then
    if negb (truthy (prop envelope (js "instanceId"))) then done_
    else
      s ← get;
      let key := coreKey envelope in
      _ ← modify (set_cores (delete key (cores s)));
      mret (Some (Closing (cores s !! key) key))
  else if is_text type (js "ready") then o ← core envelope; mret (Some (Readying o))
  else if is_text type (js "subscribe") then subscribe p envelope
  else if is_text type (js "unsubscribe") then _ ← unsubscribe p envelope; done_
  else
    let request := prop envelope (js "request") in
    if negb (truthy request) then throw (Error (js "FYLO worker request envelope is missing request"))
    else o ← core envelope; mret (Some (Serving o request)).

(** What follows an await: the next one, or nothing. *)
Definition resume (t : task) : M (runtime C) (option stage) :=
  let p := task_port t in
  let envelope := task_envelope t in
  let done_ := _ ← post p (done_message envelope); mret None in
  match task_stage t with
  | Readying o => _ ← on_core o core_ready; done_
  | Subscribing o key collection =>
      _ ← on_core o core_ready; _ ← subscribe_core o key envelope collection; done_
  | Serving o request => _ ← on_core o core_ready; mret (Some (Answering o request))
  | Answering o request =>
      response ← on_core o (core_request request);
      _ ← post p (response_message envelope response); mret None
  | Closing o key =>
      _ ← (match o with Some o => on_core o core_close | None => mret () end);
      _ ← forget_core key; done_
  end.

Definition failure_message (envelope : value) (failure : js_error) : value :=
  VObj [(js "id", prop envelope (js "id")); (js "ok", VBool false);
        (js "error", VObj [(js "name", VStr (Protocol.non_empty_or (err_name failure) (js "Error")));
                           (js "message", VStr (Protocol.non_empty_or (err_message failure) (js "Unknown error")))])].

(** [handleWorkerMessage], around either part: a stage is left to resume, an error is
    posted. *)
Definition handleWorkerMessage (p : port) (envelope : value) (part : M (runtime C) (option stage)) : M (runtime C) () :=
  try_catch
    (next ← part;
     match next with
     | Some st => modify (fun s => set_tasks (tasks s ++ [mkTask p envelope st]) s)
     | None => mret ()
     end)
    (fun failure => post p (failure_message envelope failure)).

(** ** Turns of the event loop *)

Inductive turn := Arrive (p : port) (message : value) | Resume (n : nat).

Definition turn_step (s : runtime C) (t : turn) : runtime C :=
  match t with
  | Arrive p message => snd (handleWorkerMessage p message (dispatch p message) s)
  | Resume n =>
      match tasks s !! n with
      | None => s
      | Some k => snd (handleWorkerMessage (task_port k) (task_envelope k) (resume k) (set_tasks (delete n (tasks s)) s))
      end
  end.

Definition run_turns (ts : list turn) (s : runtime C) : runtime C := fold_left turn_step ts s.

End Runtime.
End Runtime.

(** ** Every message is answered once *)

(** What a core promises: its responses carry no [id] and no [type] of their own. *)
Class HostedCoreReplies (C : Type) `{HostedCore C} := {
  response_plain r c v c' : core_request r c = (Ok v, c') ->
    alist_get (js "id") (entries v) = None /\ alist_get (js "type") (entries v) = None
}.

Module Answered.
Import Storage Runtime.

Section Answered.
  Context {C : Type} `{HostedCoreReplies C}.
  (** A port and the identifier of a message. *)
  Context (p : nat) (i : value).

Definition is_event (message : value) : bool := is_text (prop message (js "type")) (js "event").

(** An answer to [p] that names [i]; a task that owes one; an arrival that asks for one. *)
Definition answer_to (m : nat * value) : bool :=
  bool_decide (fst m = p) && bool_decide (prop (snd m) (js "id") = i) && negb (is_event (snd m)).
Definition owed (t : task) : bool :=
  bool_decide (task_port t = p) && bool_decide (prop (task_envelope t) (js "id") = i).
Definition asked (t : turn) : bool :=
  match t with Arrive q m => bool_decide (q = p) && bool_decide (prop m (js "id") = i) | Resume _ => false end.

Definition count_if {A} (f : A -> bool) (l : list A) : nat := length (filter (fun x => f x = true) l).

Definition answers (s : runtime C) : nat := count_if answer_to (outbox s).
Definition waiting (s : runtime C) : nat := count_if owed (tasks s).

Lemma count_if_app {A} (f : A -> bool) (l r : list A) : count_if f (l ++ r) = count_if f l + count_if f r.
Proof. unfold count_if. by rewrite filter_app, length_app. Qed.
Lemma count_if_one {A} (f : A -> bool) (x : A) : count_if f [x] = if f x then 1 else 0.
Proof. unfold count_if. rewrite filter_cons, filter_nil. by destruct (f x). Qed.
Lemma count_if_none {A} (f : A -> bool) (l : list A) : (forall x, x ∈ l -> f x = false) -> count_if f l = 0.
Proof.
  intros Hf. unfold count_if. induction l as [|x l IH]; [done|]. rewrite filter_cons, (Hf x) by (by left).
  apply IH. intros y Hy. apply Hf. by right.
Qed.
Lemma count_if_delete {A} (f : A -> bool) (l : list A) n x : l !! n = Some x ->
  count_if f l = count_if f (delete n l) + (if f x then 1 else 0).
Proof.
  intros Hn. rewrite <- (take_drop_middle l n x Hn) at 1. rewrite delete_take_drop, !count_if_app.
  change (x :: drop (S n) l) with ([x] ++ drop (S n) l). rewrite count_if_app, count_if_one. lia.
Qed.

(** A part of the runtime that answers nobody and takes on no task. *)
Definition quiet {A} (m : M (runtime C) A) : Prop := forall a w, preserves (fun s => answers s = a /\ waiting s = w) m.

Lemma quiet_ret {A} (a : A) : quiet (mret a).
Proof. intros x w s Hs. exact Hs. Qed.
Lemma quiet_throw {A} e : quiet (throw (A := A) e).
Proof. intros x w s Hs. exact Hs. Qed.
Lemma quiet_lift {A} (o : outcome A) : quiet (lift o).
Proof. intros x w s Hs. exact Hs. Qed.
Lemma quiet_get : quiet get.
Proof. intros x w s Hs. exact Hs. Qed.
Lemma quiet_modify f : (forall s, answers (f s) = answers s /\ waiting (f s) = waiting s) -> quiet (modify f).
Proof. intros Hf x w s Hs. cbn [modify snd]. by destruct (Hf s) as [-> ->]. Qed.
Lemma quiet_bind {A B} (m : M (runtime C) A) (f : A -> M (runtime C) B) :
  quiet m -> (forall a, quiet (f a)) -> quiet (m ≫= f).
Proof. intros Hm Hf x w. apply preserves_bind; [apply Hm|intros a; apply Hf]. Qed.
Lemma quiet_when b m : quiet m -> quiet (when b m).
Proof. intros Hm x w. apply preserves_when, Hm. Qed.

Lemma answers_broadcast l event s : answers (broadcast l event s) = answers s /\ waiting (broadcast l event s) = waiting s.
Proof.
  unfold broadcast. destruct (subscriptions s !! listener_key l) as [ports|]; [|done]. split; [|done].
  unfold answers. cbn [outbox set_outbox]. rewrite count_if_app, (count_if_none _ (map _ _)); [lia|].
  intros m (q & -> & _)%list_elem_of_fmap. unfold answer_to. cbn [fst snd].
  replace (is_event (event_message l event)) with true by done. by rewrite andb_false_r.
Qed.

Lemma answers_fold {X} (f : runtime C -> X -> runtime C) l s :
  (forall s x, answers (f s x) = answers s /\ waiting (f s x) = waiting s) ->
  answers (fold_left f l s) = answers s /\ waiting (fold_left f l s) = waiting s.
Proof. intros Hf. revert s. induction l as [|x l IH]; intros s; [done|]. cbn [fold_left]. destruct (IH (f s x)), (Hf s x). by split; congruence. Qed.

Lemma quiet_on_core {A} o (m : M C A) : quiet (on_core o m).
Proof.
  intros a w s [Ha Hw]. unfold on_core. destruct (objects s !! o) as [c|]; [|done]. destruct (m c) as [r c'].
  cbn [snd]. set (s0 := set_objects _ s).
  destruct (answers_fold (hear o) (drop (length (core_calls c)) (core_calls c')) s0) as [-> ->].
  - intros s1 call. unfold hear. apply answers_fold. intros s2 l. case_decide; [apply answers_broadcast|done].
  - done.
Qed.

Lemma answers_forget_key key s : answers (forget_key key s) = answers s /\ waiting (forget_key key s) = waiting s.
Proof.
  unfold forget_key. destruct (coreSubscriptions _ !! key) as [on|]; [|done].
  unfold drop_listener. by destruct (objects _ !! fst on).
Qed.

Lemma quiet_core envelope : quiet (core envelope).
Proof.
  unfold core. apply quiet_bind; [apply quiet_get|]. intros s. destruct (cores s !! _); [apply quiet_ret|].
  apply quiet_bind; [apply quiet_lift|]. intros st. apply quiet_bind; [by apply quiet_modify|]. intros _.
  apply quiet_bind; [by apply quiet_modify|]. intros _. apply quiet_ret.
Qed.

(** A part that ends the handling of a message answers it exactly when it is finished:
    not when it waits, and not when it throws. *)
Definition answers_last (q : nat) (envelope : value) (m : M (runtime C) (option stage)) : Prop :=
  forall s, waiting (snd (m s)) = waiting s /\
    answers (snd (m s)) = answers s +
      match fst (m s) with Ok None => if owed (mkTask q envelope (Readying 0)) then 1 else 0 | _ => 0 end.

Lemma last_bind_ok {A} q envelope (m : M (runtime C) A) f :
  quiet m -> (forall s a s', m s = (Ok a, s') -> answers_last q envelope (f a)) -> answers_last q envelope (m ≫= f).
Proof.
  intros Hm Hf s. unfold mbind, M_bind. pose proof (Hm (answers s) (waiting s) s (conj eq_refl eq_refl)) as [Ha Hw].
  destruct (m s) as [[a|e] s'] eqn:R; cbn [fst snd] in *; [|by rewrite Nat.add_0_r].
  destruct (Hf s a s' R s') as [Hw' Ha']. by rewrite Hw', Ha', Ha, Hw.
Qed.
Lemma last_bind {A} q envelope (m : M (runtime C) A) f :
  quiet m -> (forall a, answers_last q envelope (f a)) -> answers_last q envelope (m ≫= f).
Proof. intros Hm Hf. by apply last_bind_ok. Qed.
Lemma last_waits q envelope st : answers_last q envelope (mret (Some st)).
Proof. intros s. split; [done|]. cbn. lia. Qed.
Lemma last_throws q envelope e : answers_last q envelope (throw e).
Proof. intros s. split; [done|]. cbn. lia. Qed.

Lemma last_posts q envelope message : prop message (js "id") = prop envelope (js "id") -> is_event message = false ->
  answers_last q envelope (_ ← post q message; mret None).
Proof.
  intros Hid Hev s. unfold post. run_pure. split; [done|]. cbn [fst snd]. unfold answers. cbn [outbox set_outbox mret M_ret fst snd].
  rewrite count_if_app, count_if_one. unfold answer_to, owed. cbn [fst snd task_port task_envelope]. rewrite Hid, Hev.
  by rewrite andb_true_r.
Qed.
Lemma last_done q envelope : answers_last q envelope (_ ← post q (done_message envelope); mret None).
Proof. by apply last_posts. Qed.

Lemma alist_get_assign {A} k (b a : list (jstr * A)) : alist_get k b = None -> alist_get k (obj_assign a b) = alist_get k a.
Proof.
  unfold obj_assign. revert a. induction b as [|[k' v] b IH]; intros a Hb; [done|]. cbn [alist_get] in Hb.
  destruct (decide (k = k')); [done|]. cbn [fold_left fst snd]. rewrite IH by done. rewrite alist_get_obj_set.
  by rewrite decide_False.
Qed.

Lemma quiet_subscribe_core o key envelope collection : quiet (subscribe_core o key envelope collection).
Proof.
  unfold subscribe_core. apply quiet_bind; [apply quiet_on_core|]. intros n.
  apply quiet_bind; [by apply quiet_modify|]. intros _. by apply quiet_modify.
Qed.

Lemma quiet_unsubscribe q envelope : quiet (unsubscribe q envelope).
Proof.
  unfold unsubscribe. destruct (negb _); [apply quiet_ret|]. apply quiet_bind; [apply quiet_get|]. intros s.
  destruct (subscriptions s !! _); [|apply quiet_ret]. apply quiet_bind; [by apply quiet_modify|]. intros _.
  apply quiet_when, quiet_modify, answers_forget_key.
Qed.

Lemma quiet_forget_core key : quiet (forget_core key).
Proof. apply quiet_modify. intros s. apply answers_fold. intros s' k. destruct (starts_with _ k); [apply answers_forget_key|done]. Qed.

Lemma last_subscribe q envelope : answers_last q envelope (subscribe q envelope).
Proof.
  unfold subscribe. destruct (negb _); [apply last_throws|]. apply last_bind; [apply quiet_get|]. intros s.
  apply last_bind; [by apply quiet_modify|]. intros _. destruct (coreSubscriptions s !! _); [apply last_done|].
  apply last_bind; [apply quiet_core|]. intros o. apply last_waits.
Qed.

Lemma last_dispatch q envelope : answers_last q envelope (dispatch q envelope).
Proof.
  unfold dispatch. destruct (is_nullish envelope); [apply last_throws|].
  destruct (is_text _ (js "close")).
  { destruct (negb _); [apply last_done|]. apply last_bind; [apply quiet_get|]. intros s.
    apply last_bind; [by apply quiet_modify|]. intros _. apply last_waits. }
  destruct (is_text _ (js "ready")); [apply last_bind; [apply quiet_core|]; intros o; apply last_waits|].
  destruct (is_text _ (js "subscribe")); [apply last_subscribe|].
  destruct (is_text _ (js "unsubscribe")); [apply last_bind; [apply quiet_unsubscribe|]; intros _; apply last_done|].
  destruct (negb _); [apply last_throws|]. apply last_bind; [apply quiet_core|]. intros o. apply last_waits.
Qed.

Lemma last_resume t : answers_last (task_port t) (task_envelope t) (resume t).
Proof.
  destruct t as [q envelope [o|o key collection|o request|o request|o key]]; cbn [resume task_port task_envelope task_stage].
  - apply last_bind; [apply quiet_on_core|]. intros _. apply last_done.
  - apply last_bind; [apply quiet_on_core|]. intros _. apply last_bind; [apply quiet_subscribe_core|]. intros _. apply last_done.
  - apply last_bind; [apply quiet_on_core|]. intros _. apply last_waits.
  - apply last_bind_ok; [apply quiet_on_core|]. intros s v s1 R.
    unfold on_core in R. destruct (objects s !! o) as [c|]; [|done].
    destruct (core_request request c) as [r c'] eqn:Rc. injection R as -> _.
    destruct (response_plain _ _ _ _ Rc) as [Hid Hty].
    apply last_posts; unfold response_message, is_event; cbn [prop];
      rewrite alist_get_assign by done; [done|]. by vm_compute.
  - apply last_bind; [destruct o; [apply quiet_on_core|apply quiet_ret]|]. intros _.
    apply last_bind; [apply quiet_forget_core|]. intros _. apply last_done.
Qed.

(** A handled part leaves what it owes in one place or the other. *)
Lemma handled_once q envelope m s : answers_last q envelope m ->
  answers (snd (handleWorkerMessage q envelope m s)) + waiting (snd (handleWorkerMessage q envelope m s)) =
  answers s + waiting s + (if owed (mkTask q envelope (Readying 0)) then 1 else 0).
Proof.
  intros Hm. destruct (Hm s) as [Hw Ha]. unfold handleWorkerMessage, try_catch, mbind, M_bind.
  destruct (m s) as [[[st|]|e] s']; cbn [fst snd modify mret M_ret post] in *.
  - unfold answers, waiting in *. cbn [outbox tasks set_tasks]. rewrite count_if_app, count_if_one.
    change (owed (mkTask q envelope st)) with (owed (mkTask q envelope (Readying 0))). lia.
  - lia.
  - unfold answers, waiting in *. cbn [outbox tasks set_outbox]. rewrite count_if_app, count_if_one.
    replace (answer_to (q, failure_message envelope e)) with (owed (mkTask q envelope (Readying 0))).
    + destruct (owed _); lia.
    + unfold answer_to, owed. cbn [fst snd task_port task_envelope].
      replace (is_event (failure_message envelope e)) with false by done. by rewrite andb_true_r.
Qed.

Lemma turn_once s t : answers (turn_step s t) + waiting (turn_step s t) = answers s + waiting s + (if asked t then 1 else 0).
Proof.
  destruct t as [q message|n]; cbn [turn_step asked].
  - by rewrite (handled_once q message (dispatch q message) s (last_dispatch q message)).
  - destruct (tasks s !! n) as [t|] eqn:Hn; [|lia].
    rewrite (handled_once _ _ _ _ (last_resume t)). unfold answers, waiting. cbn [outbox tasks set_tasks].
    rewrite (count_if_delete owed (tasks s) n t Hn).
    change (owed (mkTask (task_port t) (task_envelope t) (Readying 0))) with (owed t). lia.
Qed.

(** C24: the worker answers every message exactly once: in whatever order the waiting
    handlers resume, the answers posted to a port under an identifier and the handlers
    still waiting for it are together as many as the messages that arrived from that port
    under it, errors, unknown types and messages that are not records included. *)
Theorem every_message_answered_once ts :
  answers (run_turns ts new_runtime) + waiting (run_turns ts new_runtime) = count_if asked ts.
Proof.
  unfold run_turns. assert (forall s, answers (fold_left turn_step ts s) + waiting (fold_left turn_step ts s) =
    answers s + waiting s + count_if asked ts) as Hts; [|apply Hts].
  induction ts as [|t ts IH]; intros s; cbn [fold_left].
  { change (count_if asked []) with 0. lia. }
  change (t :: ts) with ([t] ++ ts). rewrite IH, turn_once, count_if_app, count_if_one. lia.
Qed.

End Answered.
End Answered.

(** ** Who hears what *)

(** What subscribers numbered [hs] are called with when the events [ds] are dispatched. *)
Definition deliveries (hs : list (nat * jstr)) (ds : list (jstr * value)) : list (nat * value) :=
  concat (map (fun d => omap (fun h => if decide (snd h = fst d) then Some (fst h, snd d) else None) hs) ds).

(** What a core promises of its events: subscribers keep their number, a request calls them
    with the events it dispatches and the rest of the interface calls nobody. *)
Class HostedCoreEvents (C : Type) `{HostedCore C} := {
  core_handlers : C -> list (nat * jstr);
  core_next : C -> nat;
  (** Names of collections a core subscribes to, and what a request dispatches. *)
  core_accepts : jstr -> bool;
  core_dispatches : value -> C -> list (jstr * value) -> Prop;
  calm (c c' : C) := core_handlers c' = core_handlers c /\ core_next c' = core_next c /\ core_calls c' = core_calls c;
  accepts_plain name : core_accepts name = true -> (58%N) ∉ name;
  open_silent st ns r w x : core_handlers (open_core st ns r w x) = [];
  ready_calm c : exists c', core_ready c = (Ok (), c') /\ calm c c';
  close_calm c : exists c', core_close c = (Ok (), c') /\ calm c c';
  subscribe_adds name c : core_accepts name = true -> exists c',
    core_subscribe name c = (Ok (core_next c), c') /\
    core_handlers c' = core_handlers c ++ [(core_next c, name)] /\ core_next c' = S (core_next c) /\ core_calls c' = core_calls c;
  unsubscribe_drops n c : core_handlers (core_unsubscribe n c) = filter (fun h => fst h <> n) (core_handlers c) /\
    core_next (core_unsubscribe n c) = core_next c /\ core_calls (core_unsubscribe n c) = core_calls c;
  request_answers r c : exists v c', core_request r c = (Ok v, c');
  request_dispatches r c : exists ds, core_dispatches r c ds;
  dispatches_plain r c ds : core_dispatches r c ds -> Forall (fun d => (58%N) ∉ fst d) ds;
  dispatches_calls r c ds : core_dispatches r c ds -> let c' := snd (core_request r c) in
    core_handlers c' = core_handlers c /\ core_next c' = core_next c /\
    core_calls c' = core_calls c ++ deliveries (core_handlers c) ds
}.

Module Audience.
Import Storage Runtime.

Ltac fields := cbn [objects cores subscriptions coreSubscriptions listeners outbox tasks set_objects set_cores
  set_subscriptions set_coreSubscriptions set_listeners set_outbox set_tasks] in *.

Section Audience.
  Context {C : Type} `{HostedCoreEvents C}.

(** A message served to its end before the next one arrives. *)
Definition attend (s : runtime C) (m : nat * value) : runtime C :=
  run_turns [Arrive (fst m) (snd m); Resume 0; Resume 0] s.

(** The specification: what a message does to the subscription of the port [q] to [key],
    and whether [q] is subscribed after the messages, the newest first. *)
Definition effect_on (q : nat) (key : jstr) (m : nat * value) : option bool :=
  let '(p, envelope) := m in
  let type := prop envelope (js "type") in
  let collection := prop envelope (js "collection") in
  let own := truthy collection && bool_decide (p = q) && bool_decide (subscription_key envelope collection = key) in
  if is_nullish envelope then None
  else if is_text type (js "close") then
    if truthy (prop envelope (js "instanceId")) && starts_with (coreKey envelope ++ js ":") key then Some false else None
  else if is_text type (js "ready") then None
  else if is_text type (js "subscribe") then if own then Some true else None
  else if is_text type (js "unsubscribe") then if own then Some false else None
  else None.

Fixpoint subscribed (q : nat) (key : jstr) (newest_first : list (nat * value)) : bool :=
  match newest_first with
  | [] => false
  | m :: older => default (subscribed q key older) (effect_on q key m)
  end.

(** A subscription that can succeed: its storage can be opened and its name is one. *)
Definition sound (m : nat * value) : Prop :=
  let '(_, envelope) := m in
  is_text (prop envelope (js "type")) (js "subscribe") = true -> truthy (prop envelope (js "collection")) = true ->
  is_ok (normalizeBrowserStorage (Plan.nullish (prop envelope (js "storage")) (VStr (js "opfs")))) = true /\
  core_accepts (to_str (prop envelope (js "collection"))) = true.

(** Between messages, in a worker that serves one at a time. *)
Record tidy (s : runtime C) : Prop := {
  tidy_tasks : tasks s = [];
  tidy_cores ck o : cores s !! ck = Some o -> is_Some (objects s !! o);
  tidy_cores_inj ck ck' o : cores s !! ck = Some o -> cores s !! ck' = Some o -> ck = ck';
  tidy_keys key : is_Some (subscriptions s !! key) <-> is_Some (coreSubscriptions s !! key);
  tidy_ports key ports : subscriptions s !! key = Some ports -> NoDup ports;
  tidy_on key o n : coreSubscriptions s !! key = Some (o, n) -> exists ck name ns c,
    key = ck ++ js ":" ++ name /\ core_accepts name = true /\ cores s !! ck = Some o /\ objects s !! o = Some c /\
    (n, name) ∈ core_handlers c /\ mkListener o n key ns name ∈ listeners s;
  tidy_handlers o c n name : objects s !! o = Some c -> (n, name) ∈ core_handlers c ->
    exists key, coreSubscriptions s !! key = Some (o, n);
  tidy_numbers o c : objects s !! o = Some c -> NoDup (map fst (core_handlers c)) /\ Forall (fun h => fst h < core_next c) (core_handlers c);
  tidy_listeners : NoDup (map (fun l => (listener_core l, listener_number l)) (listeners s));
  tidy_below l : l ∈ listeners s -> exists c, objects s !! listener_core l = Some c /\ listener_number l < core_next c
}.

Definition audience (s : runtime C) (q : nat) (key : jstr) : Prop := q ∈ default [] (subscriptions s !! key).
Definition hears (s : runtime C) (q : nat) (key : jstr) : bool := bool_decide (q ∈ default [] (subscriptions s !! key)).

Lemma tidy_new : tidy new_runtime.
Proof.
  split; cbn [new_runtime tasks cores objects subscriptions coreSubscriptions listeners]; try done.
  - intros key. by rewrite !lookup_empty, !is_Some_alt.
  - constructor.
  - intros l Hl. by apply elem_of_nil in Hl.
Qed.

(** *** A message's turns *)

Lemma set_tasks_set (s : runtime C) t : tasks s = [] -> set_tasks [] (set_tasks t s) = s.
Proof. destruct s. fields. by intros ->. Qed.
Lemma set_tasks_same (s : runtime C) : tasks s = [] -> set_tasks [] s = s.
Proof. destruct s. fields. by intros ->. Qed.

Lemma resume_nothing (s : runtime C) : tasks s = [] -> turn_step s (Resume 0) = s.
Proof. intros Ht. cbn [turn_step]. by rewrite Ht. Qed.

Lemma handle_end p envelope part (s s1 : runtime C) :
  part s = (Ok None, s1) -> snd (handleWorkerMessage p envelope part s) = s1.
Proof. intros R. unfold handleWorkerMessage, try_catch. by run R. Qed.
Lemma handle_wait p envelope part (s s1 : runtime C) st :
  part s = (Ok (Some st), s1) -> tasks s1 = [] -> snd (handleWorkerMessage p envelope part s) = set_tasks [mkTask p envelope st] s1.
Proof. intros R Ht. unfold handleWorkerMessage, try_catch. run R. cbn [modify snd]. by rewrite Ht. Qed.
Lemma handle_throw p envelope part (s s1 : runtime C) e :
  part s = (Throw e, s1) -> snd (handleWorkerMessage p envelope part s) = set_outbox (outbox s1 ++ [(p, failure_message envelope e)]) s1.
Proof. intros R. unfold handleWorkerMessage, try_catch. by rewrite (M_bind_throw _ _ _ _ _ R). Qed.

Lemma attend_turns s p envelope : attend s (p, envelope) = turn_step (turn_step (turn_step s (Arrive p envelope)) (Resume 0)) (Resume 0).
Proof. done. Qed.
Lemma arrive (s : runtime C) p envelope : turn_step s (Arrive p envelope) = snd (handleWorkerMessage p envelope (dispatch p envelope) s).
Proof. done. Qed.

Lemma attend_end s p envelope s1 : dispatch p envelope s = (Ok None, s1) -> tasks s1 = [] -> attend s (p, envelope) = s1.
Proof.
  intros R Ht. rewrite attend_turns, arrive, (handle_end _ _ _ _ _ R).
  by rewrite !(resume_nothing s1 Ht).
Qed.
Lemma attend_throw s p envelope s1 e : dispatch p envelope s = (Throw e, s1) -> tasks s1 = [] ->
  attend s (p, envelope) = set_outbox (outbox s1 ++ [(p, failure_message envelope e)]) s1.
Proof.
  intros R Ht. rewrite attend_turns, arrive, (handle_throw _ _ _ _ _ _ R).
  set (s2 := set_outbox _ _).
  assert (tasks s2 = []) as Ht2 by done. by rewrite !(resume_nothing s2 Ht2).
Qed.

(** The turn that resumes the only task. *)
Lemma resume_only s t : tasks s = [] ->
  turn_step (set_tasks [t] s) (Resume 0) = snd (handleWorkerMessage (task_port t) (task_envelope t) (resume t) s).
Proof. intros Ht. cbn [turn_step tasks set_tasks lookup list_lookup]. cbn [delete list_delete]. by rewrite set_tasks_set. Qed.

Lemma attend_wait s p envelope s1 st s2 : dispatch p envelope s = (Ok (Some st), s1) -> tasks s1 = [] ->
  resume (mkTask p envelope st) s1 = (Ok None, s2) -> tasks s2 = [] -> attend s (p, envelope) = s2.
Proof.
  intros R Ht R2 Ht2. rewrite attend_turns, arrive, (handle_wait _ _ _ _ _ _ R Ht).
  rewrite resume_only by done. cbn [task_port task_envelope]. rewrite (handle_end _ _ _ _ _ R2). by apply resume_nothing.
Qed.
Lemma attend_wait2 s p envelope s1 st s2 st2 s3 : dispatch p envelope s = (Ok (Some st), s1) -> tasks s1 = [] ->
  resume (mkTask p envelope st) s1 = (Ok (Some st2), s2) -> tasks s2 = [] ->
  resume (mkTask p envelope st2) s2 = (Ok None, s3) -> attend s (p, envelope) = s3.
Proof.
  intros R Ht R2 Ht2 R3. rewrite attend_turns, arrive, (handle_wait _ _ _ _ _ _ R Ht).
  rewrite resume_only by done. cbn [task_port task_envelope]. rewrite (handle_wait _ _ _ _ _ _ R2 Ht2).
  rewrite resume_only by done. cbn [task_port task_envelope]. by rewrite (handle_end _ _ _ _ _ R3).
Qed.

(** *** Cores *)

Lemma on_core_calm {A} (s : runtime C) o c (m : M C A) r c' : objects s !! o = Some c -> m c = (r, c') ->
  core_calls c' = core_calls c -> on_core o m s = (r, set_objects (<[o := c']> (objects s)) s).
Proof. intros Ho R Hc. unfold on_core. rewrite Ho, R, Hc. by rewrite drop_all. Qed.

Lemma tidy_outbox s l : tidy s -> tidy (set_outbox l s).
Proof. intros []. by split. Qed.

(** A core replaced by itself after a calm call. *)
Lemma tidy_replace s o c c' : tidy s -> objects s !! o = Some c ->
  core_handlers c' = core_handlers c -> core_next c' = core_next c -> tidy (set_objects (<[o := c']> (objects s)) s).
Proof.
  intros Hs Ho Hh Hn. assert (forall o2 c2, <[o := c']> (objects s) !! o2 = Some c2 ->
    exists c3, objects s !! o2 = Some c3 /\ core_handlers c2 = core_handlers c3 /\ core_next c2 = core_next c3) as Hback.
  { intros o2 c2. destruct (decide (o2 = o)) as [->|Hne].
    - rewrite list_lookup_insert_eq by (by apply lookup_lt_Some with c). intros [= <-]. by exists c.
    - rewrite list_lookup_insert_ne by done. intros E. by exists c2. }
  assert (forall o2 c2, objects s !! o2 = Some c2 ->
    exists c3, <[o := c']> (objects s) !! o2 = Some c3 /\ core_handlers c3 = core_handlers c2 /\ core_next c3 = core_next c2) as Hforth.
  { intros o2 c2 E. destruct (decide (o2 = o)) as [->|Hne].
    - rewrite list_lookup_insert_eq by (by apply lookup_lt_Some with c). rewrite Ho in E. injection E as <-. by exists c'.
    - rewrite list_lookup_insert_ne by done. by exists c2. }
  destruct Hs as [H1 H2 H3 H4 H5 H6 H7 H8 H9 H10]. split; fields; try done.
  - intros ck o2 E. destruct (H2 _ _ E) as [c2 E2]. destruct (Hforth _ _ E2) as (c3 & E3 & _). by rewrite E3.
  - intros key o2 n E. destruct (H6 _ _ _ E) as (ck & name & ns & c2 & -> & Ha & Hc & E2 & Hin & Hl).
    destruct (Hforth _ _ E2) as (c3 & E3 & Eh & _). exists ck, name, ns, c3. rewrite Eh. done.
  - intros o2 c2 n name E Hin. destruct (Hback _ _ E) as (c3 & E3 & Eh & _). rewrite Eh in Hin. by eapply H7.
  - intros o2 c2 E. destruct (Hback _ _ E) as (c3 & E3 & -> & ->). exact (H8 _ _ E3).
  - intros l Hl. destruct (H10 l Hl) as (c2 & E2 & Hlt). destruct (Hforth _ _ E2) as (c3 & E3 & _ & En). exists c3. by rewrite En.
Qed.

(** A core is there for every message whose storage can be opened, and a new one has no
    subscribers. *)
Lemma tidy_core s envelope : tidy s ->
  match core envelope s with
  | (Ok o, s') => tidy s' /\ cores s' !! coreKey envelope = Some o /\
      (exists l m, s' = set_cores m (set_objects l s))
  | (Throw e, s') => s' = s /\
      is_ok (normalizeBrowserStorage (Plan.nullish (prop envelope (js "storage")) (VStr (js "opfs")))) = false
  end.
Proof.
  intros Hs. unfold core. run_pure. destruct (cores s !! coreKey envelope) as [o|] eqn:Hck.
  { split_and!; [done|done|]. exists (objects s), (cores s). by destruct s. }
  destruct (normalizeBrowserStorage _) as [st|e]; [|by run_pure]. run_pure.
  set (c := open_core _ _ _ _ _). assert (core_handlers c = []) as Hc by apply open_silent.
  assert (forall o x, objects s !! o = Some x -> (objects s ++ [c]) !! o = Some x) as Hkeep by (intros; by apply lookup_app_l_Some).
  assert (forall o x, (objects s ++ [c]) !! o = Some x -> objects s !! o = Some x \/ (o = length (objects s) /\ x = c)) as Hback.
  { intros o x [E|(E & Hx)]%lookup_app_Some; [by left|]. apply list_lookup_singleton_Some in Hx as [Hx <-]. right. split; [lia|done]. }
  cbn [mret M_ret]. fields. split_and!; [|by rewrite lookup_insert_eq|by eexists _, _].
  destruct Hs as [H1 H2 H3 H4 H5 H6 H7 H8 H9 H10]. split; fields; try done.
  - intros ck o. destruct (decide (ck = coreKey envelope)) as [->|Hne].
    + rewrite lookup_insert_eq. intros [= <-]. exists c. by rewrite list_lookup_middle.
    + rewrite lookup_insert_ne by done. intros E. destruct (H2 _ _ E) as [x Ex]. exists x. by apply Hkeep.
  - assert (forall ck, cores s !! ck <> Some (length (objects s))) as Hfresh.
    { intros ck E. destruct (H2 _ _ E) as [x Ex]. apply lookup_lt_Some in Ex. lia. }
    intros ck ck' o. destruct (decide (ck = coreKey envelope)) as [->|Hne], (decide (ck' = coreKey envelope)) as [->|Hne'];
      rewrite ?lookup_insert_eq, ?(lookup_insert_ne _ _ ck), ?(lookup_insert_ne _ _ ck') by done; [done| | |apply H3];
      [intros [= <-] E|intros E [= <-]]; by destruct (Hfresh _ E).
  - intros key o n E. destruct (H6 _ _ _ E) as (ck & name & ns & c2 & -> & Ha & Hco & E2 & Hin & Hl).
    exists ck, name, ns, c2. split_and!; [done|done| |by apply Hkeep|done|done]. rewrite lookup_insert_ne; [done|]. congruence.
  - intros o x n name [E|[-> ->]]%Hback Hin; [by eapply H7|]. rewrite Hc in Hin. by apply elem_of_nil in Hin.
  - intros o x [E|[-> ->]]%Hback; [exact (H8 _ _ E)|]. rewrite Hc. split; [constructor|by apply Forall_nil_2].
  - intros l Hl. destruct (H10 l Hl) as (x & E & Hlt). exists x. split; [by apply Hkeep|done].
Qed.

(** *** Subscribing *)

(** The number a core gives its next subscriber is new to the runtime. *)
Lemma fresh_number s o c : tidy s -> objects s !! o = Some c ->
  (forall key, coreSubscriptions s !! key <> Some (o, core_next c)) /\
  (o, core_next c) ∉ map (fun l => (listener_core l, listener_number l)) (listeners s).
Proof.
  intros Hs Ho. split.
  - intros key E. destruct (tidy_on s Hs _ _ _ E) as (ck & name & ns & c2 & _ & _ & _ & E2 & Hin & _). rewrite Ho in E2. injection E2 as <-.
    destruct (tidy_numbers s Hs _ _ Ho) as [_ Hb]. rewrite Forall_forall in Hb. apply Hb in Hin. cbn in Hin. lia.
  - intros (l & E & Hl)%list_elem_of_fmap. destruct (tidy_below s Hs l Hl) as (c2 & E2 & Hlt).
    injection E as E1 En. rewrite <- E1, Ho in E2. injection E2 as <-. lia.
Qed.

(** A port that is the first of its key, on the core [o] that gave it the next number. *)
Definition first_subscription (p o : nat) (c' : C) (n : nat) (key name : jstr) (ns : value) (s : runtime C) : runtime C :=
  mkRuntime (<[o := c']> (objects s)) (cores s) (<[key := [p]]> (subscriptions s)) (<[key := (o, n)]> (coreSubscriptions s))
    (listeners s ++ [mkListener o n key ns name]) (outbox s) (tasks s).

Lemma tidy_first s p o c c' ck name ns : tidy s ->
  coreSubscriptions s !! (ck ++ js ":" ++ name) = None -> core_accepts name = true ->
  cores s !! ck = Some o -> objects s !! o = Some c ->
  core_handlers c' = core_handlers c ++ [(core_next c, name)] -> core_next c' = S (core_next c) ->
  tidy (first_subscription p o c' (core_next c) (ck ++ js ":" ++ name) name ns s).
Proof.
  intros Hs Hkey Hname Hck Ho Hh Hn. set (key := ck ++ js ":" ++ name) in *. set (n := core_next c) in *.
  assert (o < length (objects s)) as Hlt by (by apply lookup_lt_Some with c).
  destruct (fresh_number s o c Hs Ho) as [Hnew Hnewl]. fold n in Hnew, Hnewl.
  assert (forall o2 c2, objects s !! o2 = Some c2 -> exists c3, <[o := c']> (objects s) !! o2 = Some c3 /\
    (forall h, h ∈ core_handlers c2 -> h ∈ core_handlers c3) /\ core_next c2 <= core_next c3) as Hforth.
  { intros o2 c2 E. destruct (decide (o2 = o)) as [->|Hne].
    - rewrite list_lookup_insert_eq by done. rewrite Ho in E. injection E as <-. exists c'. rewrite Hh, Hn.
      split_and!; [done| |fold n; lia]. intros h Hin. apply elem_of_app. by left.
    - rewrite list_lookup_insert_ne by done. by exists c2. }
  destruct Hs as [H1 H2 H3 H4 H5 H6 H7 H8 H9 H10]. unfold first_subscription. split; fields; try done.
  - intros ck2 o2 E. destruct (H2 _ _ E) as [c2 E2]. destruct (Hforth _ _ E2) as (c3 & E3 & _). by rewrite E3.
  - intros k. destruct (decide (k = key)) as [->|Hne]; [by rewrite !lookup_insert_eq|]. by rewrite !lookup_insert_ne.
  - intros k ports. destruct (decide (k = key)) as [->|Hne].
    + rewrite lookup_insert_eq. intros [= <-]. apply NoDup_singleton.
    + rewrite lookup_insert_ne by done. apply H5.
  - intros k o2 n2. destruct (decide (k = key)) as [->|Hne].
    + rewrite lookup_insert_eq. intros [= <- <-]. exists ck, name, ns, c'. rewrite list_lookup_insert_eq, Hh by done.
      split_and!; try done; apply elem_of_app; right; by left.
    + rewrite lookup_insert_ne by done. intros E. destruct (H6 _ _ _ E) as (ck2 & name2 & ns2 & c2 & -> & Ha & Hc & E2 & Hin & Hl).
      destruct (Hforth _ _ E2) as (c3 & E3 & Hsub & _). exists ck2, name2, ns2, c3. split_and!; try done; [by apply Hsub|].
      apply elem_of_app. by left.
  - intros o2 c2 n2 name2 E Hin. destruct (decide (o2 = o)) as [->|Hne].
    + rewrite list_lookup_insert_eq in E by done. injection E as <-. rewrite Hh in Hin. apply elem_of_app in Hin as [Hin|Hin].
      * destruct (H7 _ _ _ _ Ho Hin) as [k E]. exists k. rewrite lookup_insert_ne; [done|]. congruence.
      * apply list_elem_of_singleton in Hin. injection Hin as -> ->. exists key. by rewrite lookup_insert_eq.
    + rewrite list_lookup_insert_ne in E by done. destruct (H7 _ _ _ _ E Hin) as [k Ek]. exists k. rewrite lookup_insert_ne; [done|]. congruence.
  - intros o2 c2 E. destruct (decide (o2 = o)) as [->|Hne].
    + rewrite list_lookup_insert_eq in E by done. injection E as <-. destruct (H8 _ _ Ho) as [Hnd Hb]. rewrite Hh, Hn. split.
      * rewrite map_app. apply NoDup_app. split_and!; [done| |by apply NoDup_singleton].
        intros x (h & -> & Hin)%list_elem_of_fmap Hx%list_elem_of_singleton. rewrite Forall_forall in Hb. apply Hb in Hin. cbn in Hx. lia.
      * apply Forall_app. split; [|by apply Forall_singleton; cbn; lia]. eapply Forall_impl; [exact Hb|]. cbn. lia.
    + rewrite list_lookup_insert_ne in E by done. exact (H8 _ _ E).
  - rewrite map_app. apply NoDup_app. split_and!; [done| |by apply NoDup_singleton].
    intros x Hx Hx2%list_elem_of_singleton. subst x. by apply Hnewl.
  - intros l [Hl|Hl%list_elem_of_singleton]%elem_of_app.
    + destruct (H10 l Hl) as (c2 & E2 & Hlt2). destruct (Hforth _ _ E2) as (c3 & E3 & _ & Hle). exists c3. split; [done|lia].
    + subst l. cbn [listener_core listener_number]. exists c'. rewrite list_lookup_insert_eq by done. split; [done|]. rewrite Hn. fold n. lia.
Qed.

(** A key with other ports. *)
Lemma tidy_other_ports s key ports ports' : tidy s -> subscriptions s !! key = Some ports -> NoDup ports' ->
  tidy (set_subscriptions (<[key := ports']> (subscriptions s)) s).
Proof.
  intros [H1 H2 H3 H4 H5 H6 H7 H8 H9 H10] Hk Hnd. split; fields; try done.
  - intros k. destruct (decide (k = key)) as [->|Hne]; [|by rewrite lookup_insert_ne].
    rewrite lookup_insert_eq, <- H4, Hk. by split.
  - intros k ports2. destruct (decide (k = key)) as [->|Hne]; [rewrite lookup_insert_eq; by intros [= <-]|].
    rewrite lookup_insert_ne by done. apply H5.
Qed.

(** *** Forgetting *)

Lemma number_of_key s key key' on : tidy s -> coreSubscriptions s !! key = Some on -> coreSubscriptions s !! key' = Some on -> key = key'.
Proof.
  intros Hs. destruct on as [o n]. intros E E'.
  destruct (tidy_on s Hs _ _ _ E) as (? & name & ns & c & _ & _ & _ & _ & _ & Hl).
  destruct (tidy_on s Hs _ _ _ E') as (? & name' & ns' & c' & _ & _ & _ & _ & _ & Hl').
  apply list_elem_of_lookup in Hl as [i Hi]. apply list_elem_of_lookup in Hl' as [j Hj].
  assert (i = j) as ->; [|by rewrite Hi in Hj; injection Hj].
  eapply (NoDup_lookup _ _ _ (o, n) (tidy_listeners s Hs)); by rewrite list_lookup_fmap, ?Hi, ?Hj.
Qed.

Lemma tidy_forget_key s key : tidy s -> tidy (forget_key key s) /\
  subscriptions (forget_key key s) = delete key (subscriptions s) /\
  coreSubscriptions (forget_key key s) = delete key (coreSubscriptions s) /\ cores (forget_key key s) = cores s.
Proof.
  intros Hs. unfold forget_key. fields. destruct (coreSubscriptions s !! key) as [[o n]|] eqn:Hon.
  2: { fields. split_and!; [|done..]. pose proof (tidy_keys s Hs key) as Hk. rewrite Hon in Hk.
       assert (subscriptions s !! key = None) as Hsub by (apply eq_None_not_Some; intros Hx; by apply Hk, is_Some_None in Hx).
       rewrite !delete_id by done. by destruct s. }
  destruct (tidy_on s Hs _ _ _ Hon) as (ck & name & ns & c & _ & _ & _ & Ho & _ & _).
  unfold drop_listener. cbn [fst snd]. fields. rewrite Ho. fields. split_and!; [|done..].
  destruct (unsubscribe_drops n c) as (Hh & Hn & _). set (c' := core_unsubscribe n c) in *.
  assert (o < length (objects s)) as Hlt by (by apply lookup_lt_Some with c).
  assert (forall k o2 n2, delete key (coreSubscriptions s) !! k = Some (o2, n2) ->
    coreSubscriptions s !! k = Some (o2, n2) /\ ~ (o2 = o /\ n2 = n)) as Hrest.
  { intros k o2 n2 [Hne E]%lookup_delete_Some. split; [done|]. intros [-> ->]. destruct Hne. by eapply number_of_key. }
  pose proof (number_of_key s) as Hnum. specialize (fun k k' on => Hnum k k' on Hs).
  destruct Hs as [H1 H2 H3 H4 H5 H6 H7 H8 H9 H10]. split; fields; try done.
  - intros ck2 o2 E. destruct (H2 _ _ E) as [c2 E2]. destruct (decide (o2 = o)) as [->|Hne];
      [by rewrite list_lookup_insert_eq|by rewrite list_lookup_insert_ne, E2].
  - intros k. destruct (decide (k = key)) as [->|Hne]; [by rewrite !lookup_delete_eq|]. by rewrite !lookup_delete_ne.
  - intros k ports [_ E]%lookup_delete_Some. by apply H5 in E.
  - intros k o2 n2 [E Hne]%Hrest. destruct (H6 _ _ _ E) as (ck2 & name2 & ns2 & c2 & -> & Ha & Hc & E2 & Hin & Hl).
    destruct (decide (o2 = o)) as [->|Hne2].
    + rewrite Ho in E2. injection E2 as <-. exists ck2, name2, ns2, c'. rewrite list_lookup_insert_eq, Hh by done.
      split_and!; try done. apply list_elem_of_filter. split; [cbn; naive_solver|done].
    + exists ck2, name2, ns2, c2. by rewrite list_lookup_insert_ne.
  - intros o2 c2 n2 name2 E Hin. assert (exists k, coreSubscriptions s !! k = Some (o2, n2) /\ ~ (o2 = o /\ n2 = n)) as (k & Ek & Hne).
    { destruct (decide (o2 = o)) as [->|Hne].
      - rewrite list_lookup_insert_eq in E by done. injection E as <-. rewrite Hh in Hin. apply list_elem_of_filter in Hin as [Hn2 Hin].
        destruct (H7 _ _ _ _ Ho Hin) as [k Ek]. exists k. split; [done|]. cbn in Hn2. naive_solver.
      - rewrite list_lookup_insert_ne in E by done. destruct (H7 _ _ _ _ E Hin) as [k Ek]. exists k. split; [done|naive_solver]. }
    exists k. rewrite lookup_delete_ne; [done|]. intros ->. rewrite Hon in Ek. injection Ek as <- <-. by destruct Hne.
  - intros o2 c2 E. destruct (decide (o2 = o)) as [->|Hne].
    + rewrite list_lookup_insert_eq in E by done. injection E as <-. destruct (H8 _ _ Ho) as [Hnd Hb]. rewrite Hh, Hn. split.
      * eapply sublist_NoDup; [exact Hnd|]. apply (fmap_sublist fst), sublist_filter.
      * apply Forall_forall. intros h [_ Hin]%list_elem_of_filter. rewrite Forall_forall in Hb. by apply Hb.
    + rewrite list_lookup_insert_ne in E by done. exact (H8 _ _ E).
  - intros l Hl. destruct (H10 l Hl) as (c2 & E2 & Hlt2). destruct (decide (listener_core l = o)) as [E|Hne].
    + exists c'. rewrite E in E2 |- *. rewrite Ho in E2. injection E2 as <-. rewrite list_lookup_insert_eq, Hn by done. done.
    + exists c2. by rewrite list_lookup_insert_ne.
Qed.

Definition forget_keys (P : jstr -> bool) (ks : list jstr) (s : runtime C) : runtime C :=
  fold_left (fun s key => if P key then forget_key key s else s) ks s.

Lemma tidy_forget_keys P ks s : tidy s -> tidy (forget_keys P ks s) /\
  (forall k, subscriptions (forget_keys P ks s) !! k = if P k && bool_decide (k ∈ ks) then None else subscriptions s !! k) /\
  cores (forget_keys P ks s) = cores s.
Proof.
  unfold forget_keys. revert s. induction ks as [|key ks IH]; intros s Hs; cbn [fold_left].
  { split_and!; [done| |done]. intros k. by rewrite andb_false_r. }
  destruct (P key) eqn:HP.
  - destruct (tidy_forget_key s key Hs) as (Hs1 & Hsub & _ & Hc). destruct (IH _ Hs1) as (Hs2 & Hk & Hc2).
    split_and!; [done| |by rewrite Hc2]. intros k. rewrite Hk, Hsub. destruct (decide (k = key)) as [->|Hne].
    + rewrite HP, lookup_delete_eq, (bool_decide_eq_true_2 (key ∈ key :: ks)) by (by left). by destruct (_ && _).
    + rewrite lookup_delete_ne by done. replace (bool_decide (k ∈ key :: ks)) with (bool_decide (k ∈ ks)); [done|].
      apply bool_decide_ext. rewrite elem_of_cons. naive_solver.
  - destruct (IH _ Hs) as (Hs2 & Hk & Hc2). split_and!; [done| |done]. intros k. rewrite Hk.
    destruct (decide (k = key)) as [->|Hne]; [by rewrite HP|].
    replace (bool_decide (k ∈ key :: ks)) with (bool_decide (k ∈ ks)); [done|]. apply bool_decide_ext. rewrite elem_of_cons. naive_solver.
Qed.

Lemma forget_keys_cores P ks s m : forget_keys P ks (set_cores m s) = set_cores m (forget_keys P ks s).
Proof.
  unfold forget_keys. revert s. induction ks as [|key ks IH]; intros s; [done|]. cbn [fold_left]. destruct (P key); [|apply IH].
  rewrite <- IH. f_equal. unfold forget_key. fields. destruct (coreSubscriptions s !! key) as [on|]; [|done].
  unfold drop_listener. fields. by destruct (objects s !! fst on).
Qed.

(** A core that has no keys left can go. *)
Lemma tidy_close s ck : tidy s -> (forall key, starts_with (ck ++ js ":") key = true -> subscriptions s !! key = None) ->
  tidy (set_cores (delete ck (cores s)) s).
Proof.
  intros [H1 H2 H3 H4 H5 H6 H7 H8 H9 H10] Hgone. split; fields; try done.
  - intros ck2 o [_ E]%lookup_delete_Some. by eapply H2.
  - intros ck2 ck3 o [_ E]%lookup_delete_Some [_ E2]%lookup_delete_Some. by eapply H3.
  - intros key o n E. destruct (H6 _ _ _ E) as (ck2 & name & ns & c & -> & Ha & Hc & Ho & Hin & Hl).
    exists ck2, name, ns, c. split_and!; try done. rewrite lookup_delete_ne; [done|]. intros ->.
    destruct (proj2 (H4 (ck2 ++ js ":" ++ name))) as [ports Hp]; [by rewrite E|].
    rewrite (Hgone (ck2 ++ js ":" ++ name)) in Hp; [done|]. rewrite app_assoc. apply starts_with_app.
Qed.

(** *** What a message does *)

(** After a message the worker is tidy and the port's subscriptions are what the message
    says of them. *)
Definition attended (s : runtime C) (m : nat * value) : Prop :=
  tidy (attend s m) /\
  forall q key, audience (attend s m) q key <-> match effect_on q key m with Some b => b = true | None => audience s q key end.

Lemma attended_outbox (s s1 : runtime C) m l : attend s m = set_outbox l s1 -> tidy s1 ->
  (forall q key, audience s1 q key <-> match effect_on q key m with Some b => b = true | None => audience s q key end) ->
  attended s m.
Proof. intros E Hs Ha. unfold attended. rewrite E. split; [by apply tidy_outbox|]. exact Ha. Qed.

Definition untouched (m : nat * value) : Prop := forall q key, effect_on q key m = None.

(** A message that throws before it changed a subscription. *)
Lemma attended_throw s p envelope e : tidy s -> untouched (p, envelope) -> dispatch p envelope s = (Throw e, s) -> attended s (p, envelope).
Proof.
  intros Hs Hu R. eapply attended_outbox; [exact (attend_throw _ _ _ _ _ R (tidy_tasks s Hs))|done|].
  intros q key. by rewrite Hu.
Qed.

Lemma post_done (s : runtime C) p envelope :
  (_ ← post p (done_message envelope); mret (M := M (runtime C)) (A := option stage) None) s =
  (Ok None, set_outbox (outbox s ++ [(p, done_message envelope)]) s).
Proof. done. Qed.

(** A message that wants a core, when that core is ready. *)
Lemma core_then_ready (s s' : runtime C) envelope o : tidy s -> core envelope s = (Ok o, s') ->
  exists c, objects s' !! o = Some c /\ tidy s' /\ cores s' !! coreKey envelope = Some o /\
  subscriptions s' = subscriptions s /\ coreSubscriptions s' = coreSubscriptions s /\ outbox s' = outbox s.
Proof.
  intros Hs R. pose proof (tidy_core s envelope Hs) as Hc. rewrite R in Hc. destruct Hc as (Hs' & Hck & l & m & E).
  destruct (tidy_cores s' Hs' _ _ Hck) as [c Ho]. exists c. rewrite E. by rewrite E in Ho, Hs', Hck.
Qed.

Lemma ready_call (s : runtime C) o c : tidy s -> objects s !! o = Some c -> exists c',
  on_core o core_ready s = (Ok (), set_objects (<[o := c']> (objects s)) s) /\ calm c c' /\
  tidy (set_objects (<[o := c']> (objects s)) s).
Proof.
  intros Hs Ho. destruct (ready_calm c) as (c' & R & Hh & Hn & Hc). exists c'.
  split_and!; [by apply on_core_calm with c|done|by apply tidy_replace with c].
Qed.

Lemma attended_ready s p envelope : tidy s -> is_nullish envelope = false ->
  is_text (prop envelope (js "type")) (js "close") = false -> is_text (prop envelope (js "type")) (js "ready") = true ->
  attended s (p, envelope).
Proof.
  intros Hs Hnull Hclose Hready. assert (untouched (p, envelope)) as Hu.
  { intros q key. cbn [effect_on]. by rewrite Hnull, Hclose, Hready. }
  assert (dispatch p envelope s = (o ← core envelope; mret (Some (Readying o))) s) as Hd.
  { unfold dispatch. by rewrite Hnull, Hclose, Hready. }
  destruct (core envelope s) as [[o|e] s'] eqn:R.
  - destruct (core_then_ready s s' envelope o Hs R) as (c & Ho & Hs' & _ & Esub & _).
    destruct (ready_call s' o c Hs' Ho) as (c' & R2 & _ & Hs2).
    eapply attended_outbox; [|exact Hs2|].
    + eapply attend_wait; [by rewrite Hd; run R|apply tidy_tasks, Hs'| |].
      { cbn [resume task_stage task_port task_envelope]. run R2. apply post_done. }
      apply (tidy_tasks _ Hs2).
    + intros q key. rewrite Hu. unfold audience. fields. by rewrite Esub.
  - pose proof (tidy_core s envelope Hs) as Hc. rewrite R in Hc. destruct Hc as [-> _].
    apply attended_throw with e; [done|done|]. rewrite Hd. by rewrite (M_bind_throw _ _ _ _ _ R).
Qed.

Lemma attended_close s p envelope : tidy s -> is_nullish envelope = false ->
  is_text (prop envelope (js "type")) (js "close") = true -> attended s (p, envelope).
Proof.
  intros Hs Hnull Hclose. destruct (truthy (prop envelope (js "instanceId"))) eqn:Hi.
  2: { eapply attended_outbox; [|exact Hs|].
       - apply attend_end; [|apply (tidy_tasks s Hs)]. unfold dispatch. rewrite Hnull, Hclose, Hi. apply post_done.
       - intros q key. cbn [effect_on]. by rewrite Hnull, Hclose, Hi. }
  set (ck := coreKey envelope). set (P := starts_with (ck ++ js ":")).
  assert (exists s1, tidy s1 /\ cores s1 = cores s /\ subscriptions s1 = subscriptions s /\
    (match cores s !! ck with Some o => on_core o core_close | None => mret () end) (set_cores (delete ck (cores s)) s) =
    (Ok (), set_cores (delete ck (cores s)) s1)) as (s1 & Hs1 & Ec & Esub & R).
  { destruct (cores s !! ck) as [o|] eqn:Hck; [|by exists s]. destruct (tidy_cores s Hs _ _ Hck) as [c Ho].
    destruct (close_calm c) as (c' & R & Hh & Hn & Hcalls). exists (set_objects (<[o := c']> (objects s)) s).
    split_and!; [by apply tidy_replace with c|done|done|]. by rewrite (on_core_calm _ o c _ (Ok ()) c'). }
  destruct (tidy_forget_keys P (map fst (map_to_list (subscriptions s))) s1 Hs1) as (Hs2 & Hsub & Ec2).
  set (s2 := forget_keys _ _ s1) in *.
  assert (forall k, subscriptions s2 !! k = if P k then None else subscriptions s !! k) as Hgone.
  { intros k. rewrite Hsub, Esub. destruct (P k); [|done]. case_bool_decide as Hin; [done|].
    apply eq_None_not_Some. intros [ports Hp]. destruct Hin. apply list_elem_of_fmap. exists (k, ports). split; [done|].
    by apply elem_of_map_to_list. }
  eapply attended_outbox; [|apply (tidy_close s2 ck Hs2)|].
  - eapply attend_wait.
    + unfold dispatch. rewrite Hnull, Hclose, Hi. run_pure. reflexivity.
    + apply (tidy_tasks s Hs).
    + cbn [resume task_stage task_port task_envelope]. fold ck. run R. unfold forget_core. run_pure. fields. rewrite Esub.
      change (fold_left _ _ _) with (forget_keys P (map fst (map_to_list (subscriptions s))) (set_cores (delete ck (cores s)) s1)).
      rewrite forget_keys_cores. fold s2. rewrite <- Ec, <- Ec2. apply post_done.
    + apply (tidy_tasks s2 Hs2).
  - intros key Hkey. rewrite Hgone. unfold P. by rewrite Hkey.
  - intros q key. unfold audience. fields. rewrite Hgone. cbn [effect_on]. rewrite Hnull, Hclose, Hi. cbn [andb].
    fold ck. unfold P. destruct (starts_with _ key); [|done]. split; [by intros ?%elem_of_nil|done].
Qed.

Lemma subscribe_core_run (s : runtime C) o c name key envelope : objects s !! o = Some c -> core_accepts name = true -> exists c',
  subscribe_core o key envelope name s =
    (Ok (), mkRuntime (<[o := c']> (objects s)) (cores s) (subscriptions s) (<[key := (o, core_next c)]> (coreSubscriptions s))
              (listeners s ++ [mkListener o (core_next c) key (namespace_of envelope) name]) (outbox s) (tasks s)) /\
  core_handlers c' = core_handlers c ++ [(core_next c, name)] /\ core_next c' = S (core_next c).
Proof.
  intros Ho Hname. destruct (subscribe_adds name c Hname) as (c' & R & Hh & Hn & Hc). exists c'. split; [|done].
  unfold subscribe_core. run (on_core_calm s o c _ _ c' Ho R Hc). run_pure. done.
Qed.

Lemma core_subscriptions s m envelope : core envelope (set_subscriptions m s) =
  let '(r, s') := core envelope s in (r, set_subscriptions m s').
Proof.
  unfold core. run_pure. fields. destruct (cores s !! coreKey envelope); [done|].
  by destruct (normalizeBrowserStorage _).
Qed.

Lemma attended_subscribe s p envelope : tidy s -> sound (p, envelope) -> is_nullish envelope = false ->
  is_text (prop envelope (js "type")) (js "close") = false -> is_text (prop envelope (js "type")) (js "ready") = false ->
  is_text (prop envelope (js "type")) (js "subscribe") = true -> attended s (p, envelope).
Proof.
  intros Hs Hsound Hnull Hclose Hready Hsubs. specialize (Hsound Hsubs). set (collection := prop envelope (js "collection")) in *.
  assert (dispatch p envelope s = subscribe p envelope s) as Hd by (unfold dispatch; by rewrite Hnull, Hclose, Hready, Hsubs).
  unfold subscribe in Hd. fold collection in Hd. destruct (truthy collection) eqn:Ht; cbn [negb] in Hd.
  2: { eapply attended_throw; [done| |exact Hd]. intros q key. cbn [effect_on]. rewrite Hnull, Hclose, Hready, Hsubs.
       fold collection. by rewrite Ht. }
  destruct (Hsound eq_refl) as [Hst Hname]. clear Hsound.
  set (key := subscription_key envelope collection) in *.
  assert (forall q k, effect_on q k (p, envelope) = if bool_decide (p = q) && bool_decide (key = k) then Some true else None) as Heff.
  { intros q k. cbn [effect_on]. rewrite Hnull, Hclose, Hready, Hsubs. fold collection. by rewrite Ht. }
  revert Hd. run_pure. intros Hd. destruct (coreSubscriptions s !! key) as [on|] eqn:Hkey.
  - destruct (proj2 (tidy_keys s Hs key)) as [ports Hp]; [by rewrite Hkey|]. rewrite Hp in Hd. cbn [default from_option id] in Hd.
    set (ports' := if decide (p ∈ ports) then ports else ports ++ [p]) in *.
    assert (forall q, q ∈ ports' <-> q = p \/ q ∈ ports) as Hin.
    { intros q. unfold ports'. case_decide; [naive_solver|]. rewrite elem_of_app, list_elem_of_singleton. tauto. }
    eapply attended_outbox; [apply (attend_end _ _ _ _ Hd), (tidy_tasks s Hs)| |].
    + apply tidy_other_ports with ports; [done|done|]. pose proof (tidy_ports s Hs _ _ Hp) as Hnd. unfold ports'. case_decide; [done|].
      apply NoDup_app. split_and!; [done| |by apply NoDup_singleton]. by intros q Hq ->%list_elem_of_singleton.
    + intros q k. rewrite Heff. unfold audience. fields. destruct (decide (k = key)) as [->|Hne].
      * rewrite lookup_insert_eq, Hp. cbn [default from_option id]. rewrite Hin, (bool_decide_eq_true_2 (key = key)) by done. rewrite andb_true_r.
        case_bool_decide; naive_solver.
      * rewrite lookup_insert_ne, (bool_decide_eq_false_2 (key = k)) by done. by rewrite andb_false_r.
  - assert (subscriptions s !! key = None) as Hp by (apply eq_None_not_Some; intros Hx%(tidy_keys s Hs); by rewrite Hkey in Hx; apply is_Some_None in Hx).
    rewrite Hp in Hd. cbn [default from_option id] in Hd. rewrite decide_False in Hd by apply not_elem_of_nil. cbn [app] in Hd.
    set (m := <[key := [p]]> (subscriptions s)) in *. unfold mbind at 1, M_bind at 1 in Hd. rewrite core_subscriptions in Hd.
    destruct (core envelope s) as [[o|e] s'] eqn:R.
    2: { pose proof (tidy_core s envelope Hs) as Hc. rewrite R in Hc. destruct Hc as [_ Hc]. rewrite Hst in Hc. done. }
    destruct (core_then_ready s s' envelope o Hs R) as (c & Ho & Hs' & Hck & Esub & Ecs & _).
    destruct (ready_calm c) as (c1 & R1 & Hh1 & Hn1 & Hc1).
    assert (o < length (objects s')) as Hlt by (by apply lookup_lt_Some with c).
    destruct (subscribe_core_run (set_objects (<[o := c1]> (objects s')) (set_subscriptions m s')) o c1 (to_str collection) key envelope)
      as (c2 & R2 & Hh2 & Hn2); [by fields; rewrite list_lookup_insert_eq|done|].
    eapply attended_outbox; [|apply (tidy_first s' p o c c2 (coreKey envelope) (to_str collection) (namespace_of envelope) Hs')|].
    + eapply attend_wait; [exact Hd|apply (tidy_tasks s' Hs')| |].
      { cbn [resume task_stage task_port task_envelope].
        run (on_core_calm (set_subscriptions m s') o c core_ready (Ok ()) c1 Ho R1 Hc1). run R2. rewrite post_done. fields.
        rewrite list_insert_insert_eq, Hn1. unfold first_subscription, m. rewrite <- Esub. reflexivity. }
      apply (tidy_tasks s' Hs').
    + by rewrite Ecs.
    + done.
    + done.
    + done.
    + by rewrite Hh2, Hh1, Hn1.
    + by rewrite Hn2, Hn1.
    + intros q k. rewrite Heff. unfold audience, first_subscription. fields. rewrite Esub. change (coreKey envelope ++ js ":" ++ to_str collection) with key.
      destruct (decide (k = key)) as [->|Hne].
      * rewrite lookup_insert_eq, Hp. cbn [default from_option id]. rewrite list_elem_of_singleton, (bool_decide_eq_true_2 (key = key)) by done. rewrite andb_true_r.
        case_bool_decide; [by naive_solver|]. rewrite elem_of_nil. naive_solver.
      * rewrite lookup_insert_ne, (bool_decide_eq_false_2 (key = k)) by done. by rewrite andb_false_r.
Qed.

Lemma attended_unsubscribe s p envelope : tidy s -> is_nullish envelope = false ->
  is_text (prop envelope (js "type")) (js "close") = false -> is_text (prop envelope (js "type")) (js "ready") = false ->
  is_text (prop envelope (js "type")) (js "subscribe") = false -> is_text (prop envelope (js "type")) (js "unsubscribe") = true ->
  attended s (p, envelope).
Proof.
  intros Hs Hnull Hclose Hready Hsubs Hunsub. set (collection := prop envelope (js "collection")).
  set (key := subscription_key envelope collection).
  assert (forall q k, effect_on q k (p, envelope) = if truthy collection && bool_decide (p = q) && bool_decide (key = k) then Some false else None) as Heff.
  { intros q k. cbn [effect_on]. rewrite Hnull, Hclose, Hready, Hsubs, Hunsub. done. }
  assert (exists s1, unsubscribe p envelope s = (Ok (), s1) /\ tidy s1 /\ forall q k,
    audience s1 q k <-> (if truthy collection && bool_decide (p = q) && bool_decide (key = k) then False else audience s q k)) as (s1 & R & Hs1 & Ha).
  2: { eapply attended_outbox; [|exact Hs1|].
       - apply attend_end; [|apply (tidy_tasks s1 Hs1)]. unfold dispatch. rewrite Hnull, Hclose, Hready, Hsubs, Hunsub. run R. apply post_done.
       - intros q k. rewrite Ha, Heff. by destruct (truthy collection && bool_decide (p = q) && bool_decide (key = k)). }
  unfold unsubscribe. fold collection key. destruct (truthy collection); cbn [negb andb]; [|by exists s]. run_pure.
  assert (forall ports q k, audience (set_subscriptions (<[key := ports]> (subscriptions s)) s) q k <->
    if decide (k = key) then q ∈ ports else audience s q k) as Hins.
  { intros ports q k. unfold audience. fields. case_decide as E; [by rewrite E, lookup_insert_eq|by rewrite lookup_insert_ne]. }
  destruct (subscriptions s !! key) as [ports|] eqn:Hp.
  2: { exists s. split_and!; [done|done|]. intros q k. destruct (bool_decide (p = q) && bool_decide (key = k)) eqn:E; [|done].
       apply andb_true_iff in E as [_ E]. apply bool_decide_eq_true in E as <-. unfold audience. rewrite Hp. cbn. split; [by intros ?%elem_of_nil|done]. }
  set (rest := filter (fun q => q <> p) ports). pose proof (tidy_ports s Hs _ _ Hp) as Hnd.
  assert (tidy (set_subscriptions (<[key := rest]> (subscriptions s)) s)) as Hs1 by (apply tidy_other_ports with ports; [done|done|by apply NoDup_filter]).
  assert (forall q, q ∈ rest <-> q <> p /\ q ∈ ports) as Hrest by (intros q; unfold rest; by rewrite list_elem_of_filter).
  assert (forall q k, (if decide (k = key) then q ∈ rest else audience s q k) <->
    if bool_decide (p = q) && bool_decide (key = k) then False else audience s q k) as Hgoal.
  { intros q k. destruct (decide (k = key)) as [->|Hne]; [|rewrite (bool_decide_eq_false_2 (key = k)) by done; by rewrite andb_false_r].
    rewrite (bool_decide_eq_true_2 (key = key)), andb_true_r by done. unfold audience. rewrite Hp. cbn [default from_option id]. rewrite Hrest.
    case_bool_decide; naive_solver. }
  run_pure. unfold when. case_bool_decide as Hnil; run_pure.
  - destruct (tidy_forget_key _ key Hs1) as (Hs2 & Esub & _). eexists. split_and!; [reflexivity|exact Hs2|]. intros q k. rewrite <- Hgoal, <- Hins.
    unfold audience. rewrite Esub. destruct (decide (k = key)) as [->|Hne]; [|by rewrite lookup_delete_ne].
    rewrite lookup_delete_eq. fields. by rewrite lookup_insert_eq, Hnil.
  - eexists. split_and!; [reflexivity|exact Hs1|]. intros q k. by rewrite <- Hgoal, <- Hins.
Qed.

(** *** Broadcasting *)

(** What a port is told of events: the collection and the event of each message. *)
Definition told (q : nat) (l : list (nat * value)) : list (value * value) :=
  omap (fun m => if decide (fst m = q /\ Answered.is_event (snd m) = true)
                 then Some (prop (snd m) (js "collection"), prop (snd m) (js "event")) else None) l.

Lemma told_app q l r : told q (l ++ r) = told q l ++ told q r.
Proof. apply omap_app. Qed.

Lemma told_ports q l event ports : NoDup ports ->
  told q (map (fun p => (p, event_message l event)) ports) =
  if decide (q ∈ ports) then [(VStr (listener_collection l), event)] else [].
Proof.
  induction ports as [|p ports IH]; intros Hnd; [by rewrite decide_False by apply not_elem_of_nil|].
  apply NoDup_cons in Hnd as [Hp Hnd]. cbn [map told omap list_omap fst snd]. fold (told q (map (fun p => (p, event_message l event)) ports)).
  rewrite IH by done. destruct (decide (p = q)) as [->|Hne].
  - rewrite decide_True by done. rewrite decide_False by done. by rewrite decide_True by (by left).
  - rewrite decide_False by naive_solver. destruct (decide (q ∈ ports)); [rewrite decide_True by (by right)|rewrite decide_False]; [done|done|].
    rewrite elem_of_cons. naive_solver.
Qed.

Lemma hear_nobody o n e (ls : list listener) (s : runtime C) : (o, n) ∉ map (fun l => (listener_core l, listener_number l)) ls ->
  fold_left (fun s l => if decide (listener_core l = o /\ listener_number l = n) then broadcast l e s else s) ls s = s.
Proof.
  revert s. induction ls as [|l ls IH]; intros s Hn; [done|]. cbn [map] in Hn. apply not_elem_of_cons in Hn as [Hl Hn].
  cbn [fold_left]. rewrite decide_False; [by apply IH|]. intros [<- <-]. by apply Hl.
Qed.

Lemma hear_one o n e l (s : runtime C) : NoDup (map (fun l => (listener_core l, listener_number l)) (listeners s)) ->
  l ∈ listeners s -> listener_core l = o -> listener_number l = n -> hear o s (n, e) = broadcast l e s.
Proof.
  intros Hnd [l1 [l2 E]]%list_elem_of_split Ho Hn. unfold hear. cbn [fst snd]. rewrite E in Hnd |- *.
  rewrite map_app in Hnd. cbn [map] in Hnd. apply NoDup_app in Hnd as (_ & Hd & Hnd). apply NoDup_cons in Hnd as [Hl2 _].
  rewrite fold_left_app. cbn [fold_left]. rewrite (hear_nobody o n e l1).
  - rewrite decide_True by done. apply hear_nobody. by rewrite Ho, Hn in Hl2.
  - intros Hin. apply (Hd _ Hin). rewrite Ho, Hn. by left.
Qed.

(** The subscribers of one core under one name are at most one. *)
Lemma deliver_one hs (on : option nat) name e : NoDup (map fst hs) ->
  (forall n, (n, name) ∈ hs <-> on = Some n) ->
  omap (fun h : nat * jstr => if decide (snd h = name) then Some (fst h, e) else None) hs =
  match on with Some n => [(n, e : value)] | None => [] end.
Proof.
  revert on. induction hs as [|[m c] hs IH]; intros on Hnd Hon.
  { destruct on as [n|]; [|done]. exfalso. apply (not_elem_of_nil (n, name)). by apply Hon. }
  cbn [map fst] in Hnd. apply NoDup_cons in Hnd as [Hm Hnd]. cbn [omap list_omap fst snd].
  destruct (decide (c = name)) as [->|Hc].
  - assert (on = Some m) as -> by (apply Hon; by left). rewrite (IH None Hnd); [done|]. intros n. split; [|done]. intros Hin.
    assert (Some m = Some n) as [= <-] by (apply Hon; by right). destruct Hm. apply list_elem_of_fmap. by exists (m, name).
  - apply IH; [done|]. intros n. rewrite <- Hon, elem_of_cons. split; [by right|]. by intros [[= _ ->]|].
Qed.

(** A key says which core and which collection it is for. *)
Lemma key_parts ck ck' (name name' : jstr) : (58%N) ∉ name -> (58%N) ∉ name' ->
  ck ++ js ":" ++ name = ck' ++ js ":" ++ name' -> ck = ck' /\ name = name'.
Proof.
  intros Hn Hn' E. change (js ":") with [58%N] in E. cbn [app] in E.
  pose proof (last_index_of_app 58 ck name Hn) as L. rewrite E, (last_index_of_app 58 ck' name' Hn') in L.
  injection L as L. apply app_inj_1 in E as [-> E]; [|done]. by injection E.
Qed.

(** The core's subscriber for a name, if its key is subscribed. *)
Lemma handler_of_key s ck o c name : tidy s -> cores s !! ck = Some o -> objects s !! o = Some c -> (58%N) ∉ name ->
  (forall n, (n, name) ∈ core_handlers c <-> coreSubscriptions s !! (ck ++ js ":" ++ name) = Some (o, n)) /\
  forall o' n, coreSubscriptions s !! (ck ++ js ":" ++ name) = Some (o', n) -> o' = o /\
    exists ns, mkListener o n (ck ++ js ":" ++ name) ns name ∈ listeners s.
Proof.
  intros Hs Hck Ho Hname. assert (forall o' n, coreSubscriptions s !! (ck ++ js ":" ++ name) = Some (o', n) ->
    o' = o /\ (n, name) ∈ core_handlers c /\ exists ns, mkListener o n (ck ++ js ":" ++ name) ns name ∈ listeners s) as Hkey.
  { intros o' n E. destruct (tidy_on s Hs _ _ _ E) as (ck2 & name2 & ns & c2 & Ek & Ha & Hc & Ho2 & Hin & Hl).
    apply key_parts in Ek as [<- <-]; [|done|by apply accepts_plain]. rewrite Hck in Hc. injection Hc as <-.
    rewrite Ho in Ho2. injection Ho2 as <-. split_and!; [done|done|by exists ns]. }
  split; [|by intros o' n E; destruct (Hkey o' n E) as (? & _ & ?)]. intros n. split; [|by intros E; apply Hkey in E as (_ & ? & _)].
  intros Hin. destruct (tidy_handlers s Hs _ _ _ _ Ho Hin) as [key E].
  destruct (tidy_on s Hs _ _ _ E) as (ck2 & name2 & ns & c2 & -> & Ha & Hc & Ho2 & Hin2 & _).
  rewrite Ho in Ho2. injection Ho2 as <-. rewrite (tidy_cores_inj s Hs ck ck2 o Hck Hc).
  destruct (tidy_numbers s Hs _ _ Ho) as [Hnd _]. apply list_elem_of_lookup in Hin as [i Hi]. apply list_elem_of_lookup in Hin2 as [j Hj].
  assert (i = j) as ->; [|by rewrite Hi in Hj; injection Hj as ->].
  eapply (NoDup_lookup _ _ _ n Hnd); by rewrite list_lookup_fmap, ?Hi, ?Hj.
Qed.

Lemma hear_deliveries ds s ck o c : tidy s -> cores s !! ck = Some o -> objects s !! o = Some c ->
  Forall (fun d => (58%N) ∉ fst d) ds -> exists l,
  fold_left (hear o) (deliveries (core_handlers c) ds) s = set_outbox (outbox s ++ l) s /\
  Forall (fun m => Answered.is_event (snd m) = true) l /\ forall q,
  told q l = omap (fun d => if hears s q (ck ++ js ":" ++ fst d) then Some (VStr (fst d), snd d) else None) ds.
Proof.
  intros Hs Hck Ho. revert s Hs Hck Ho. induction ds as [|[name e] ds IH]; intros s Hs Hck Ho Hds.
  { exists []. split; [|by split; [apply Forall_nil_2|]]. rewrite app_nil_r. by destruct s. }
  apply Forall_cons in Hds as [Hname Hds]. cbn [fst] in Hname.
  destruct (handler_of_key s ck o c name Hs Hck Ho Hname) as [Hhs Hon]. set (key := ck ++ js ":" ++ name) in *.
  unfold deliveries. cbn [map concat fst snd]. fold (deliveries (core_handlers c) ds). rewrite fold_left_app.
  destruct (tidy_numbers s Hs _ _ Ho) as [Hnd _].
  assert (exists l, fold_left (hear o) (omap (fun h => if decide (snd h = name) then Some (fst h, e) else None) (core_handlers c)) s =
    set_outbox (outbox s ++ l) s /\ Forall (fun m => Answered.is_event (snd m) = true) l /\
    forall q, told q l = if hears s q key then [(VStr name, e)] else []) as (l1 & E1 & V1 & T1).
  { destruct (coreSubscriptions s !! key) as [[o' n]|] eqn:Hkey.
    - destruct (Hon o' n eq_refl) as (-> & ns & Hl). rewrite (deliver_one _ (Some n)); [|done|by intros m; rewrite Hhs; naive_solver].
      destruct (proj2 (tidy_keys s Hs key)) as [ports Hp]; [by rewrite Hkey|]. exists (map (fun p => (p, event_message (mkListener o n key ns name) e)) ports).
      cbn [fold_left]. rewrite (hear_one o n e _ s (tidy_listeners s Hs) Hl) by done. unfold broadcast. cbn [listener_key]. rewrite Hp.
      split_and!; [done|by apply Forall_forall; intros m (q & -> & _)%list_elem_of_fmap|].
      intros q. rewrite told_ports by by apply (tidy_ports s Hs key). unfold hears. rewrite Hp. by case_decide; case_bool_decide.
    - rewrite (deliver_one _ None); [|done|by intros m; rewrite Hhs]. exists []. rewrite app_nil_r. split_and!; [by destruct s|by apply Forall_nil_2|].
      intros q. unfold hears. replace (subscriptions s !! key) with (@None (list nat)); [done|].
      symmetry. apply eq_None_not_Some. intros Hx%(tidy_keys s Hs). rewrite Hkey in Hx. by apply is_Some_None in Hx. }
  rewrite E1. destruct (IH (set_outbox (outbox s ++ l1) s)) as (l2 & E2 & V2 & T2); [by apply tidy_outbox|done|done|done|].
  exists (l1 ++ l2). split_and!; [rewrite E2; fields; by rewrite <- app_assoc|by apply Forall_app|]. intros q. rewrite told_app, T1, T2.
  cbn [omap list_omap fst snd]. fold key. change (hears (set_outbox (outbox s ++ l1) s) q) with (hears s q).
  by destruct (hears s q key).
Qed.

(** *** Requests *)

Definition is_request (envelope : value) : bool :=
  negb (is_nullish envelope) && forallb (fun t => negb (is_text (prop envelope (js "type")) t)) [js "close"; js "ready"; js "subscribe"; js "unsubscribe"] &&
  truthy (prop envelope (js "request")).

Lemma dispatch_request (p : nat) envelope (s : runtime C) : is_request envelope = true ->
  dispatch p envelope s = (o ← core envelope; mret (Some (Serving o (prop envelope (js "request"))))) s.
Proof.
  unfold is_request. cbn [forallb]. rewrite !andb_true_iff, !negb_true_iff. intros [[Hn (E1 & E2 & E3 & E4 & _)] Hr].
  unfold dispatch. by rewrite Hn, E1, E2, E3, E4, Hr.
Qed.

(** A request on the core [o], served. *)
Lemma attend_request s s' p envelope o : tidy s -> is_request envelope = true -> core envelope s = (Ok o, s') -> exists c c1 c2 ds s2 l m,
  objects s' !! o = Some c /\ core_ready c = (Ok (), c1) /\ core_request (prop envelope (js "request")) c1 = (Ok m, c2) /\
  Forall (fun m => Answered.is_event (snd m) = true) l /\ core_dispatches (prop envelope (js "request")) c1 ds /\ tidy s2 /\
  subscriptions s2 = subscriptions s /\ attend s (p, envelope) = set_outbox (outbox s ++ l ++ [(p, response_message envelope m)]) s2 /\
  forall q, told q l = omap (fun d => if hears s q (coreKey envelope ++ js ":" ++ fst d) then Some (VStr (fst d), snd d) else None) ds.
Proof.
  intros Hs Hreq R. set (r := prop envelope (js "request")). destruct (core_then_ready s s' envelope o Hs R) as (c & Ho & Hs' & Hck & Esub & _ & Eout).
  destruct (ready_calm c) as (c1 & R1 & Hh1 & Hn1 & Hc1). pose proof (tidy_replace s' o c c1 Hs' Ho Hh1 Hn1) as Hs1.
  assert (o < length (objects s')) as Hlt by (by apply lookup_lt_Some with c).
  assert (objects (set_objects (<[o := c1]> (objects s')) s') !! o = Some c1) as Ho1 by by fields; rewrite list_lookup_insert_eq.
  set (s1 := set_objects _ s') in *. destruct (request_dispatches r c1) as [ds Hds].
  pose proof (dispatches_calls r c1 ds Hds) as Hcalls. destruct (request_answers r c1) as (v & c2 & R2). rewrite R2 in Hcalls.
  destruct Hcalls as (Hh2 & Hn2 & Hc2). cbn [snd] in Hh2, Hn2, Hc2. pose proof (tidy_replace s1 o c1 c2 Hs1 Ho1 Hh2 Hn2) as Hs2.
  set (s2 := set_objects _ s1) in *.
  assert (objects s2 !! o = Some c2) as Ho2 by (unfold s2, s1; fields; rewrite list_insert_insert_eq, list_lookup_insert_eq; done).
  destruct (hear_deliveries ds s2 (coreKey envelope) o c2 Hs2 Hck Ho2 (dispatches_plain r c1 ds Hds)) as (l & Ehear & Hev & Htold).
  exists c, c1, c2, ds, s2, l, v. split_and!; [done|done|done|done|done|done|done| |].
  - eapply attend_wait2.
    + rewrite dispatch_request by done. run R. reflexivity.
    + apply (tidy_tasks s' Hs').
    + cbn [resume task_stage task_port task_envelope]. run (on_core_calm s' o c core_ready (Ok ()) c1 Ho R1 Hc1). reflexivity.
    + apply (tidy_tasks s' Hs').
    + cbn [resume task_stage task_port task_envelope]. fold s1 r.
      assert (on_core o (core_request r) s1 = (Ok v, set_outbox (outbox s2 ++ l) s2)) as R3.
      { unfold on_core. rewrite Ho1, R2, Hc2, drop_app_length, <- Hh2. fold s2. by rewrite Ehear. }
      run R3. unfold post. run_pure. fields. rewrite <- app_assoc. change (outbox s2) with (outbox s'). by rewrite Eout.
  - intros q. rewrite Htold. unfold hears. change (subscriptions s2) with (subscriptions s'). by rewrite Esub.
Qed.

Lemma attended_request s p envelope : tidy s -> is_request envelope = true -> attended s (p, envelope).
Proof.
  intros Hs Hreq. assert (untouched (p, envelope)) as Hu.
  { unfold is_request in Hreq. cbn [forallb] in Hreq. revert Hreq. rewrite !andb_true_iff, !negb_true_iff. intros [[Hn (E1 & E2 & E3 & E4 & _)] _].
    intros q key. cbn [effect_on]. by rewrite Hn, E1, E2, E3, E4. }
  destruct (core envelope s) as [[o|e] s'] eqn:R.
  - destruct (attend_request s s' p envelope o Hs Hreq R) as (c & c1 & c2 & ds & s2 & l & m & _ & _ & _ & _ & _ & Hs2 & Esub & E & _).
    eapply attended_outbox; [exact E|done|]. intros q key. rewrite Hu. unfold audience. by rewrite Esub.
  - pose proof (tidy_core s envelope Hs) as Hc. rewrite R in Hc. destruct Hc as [-> _].
    apply attended_throw with e; [done|done|]. rewrite dispatch_request by done. by rewrite (M_bind_throw _ _ _ _ _ R).
Qed.

Lemma attended_all s m : tidy s -> sound m -> attended s m.
Proof.
  intros Hs Hsound. destruct m as [p envelope]. destruct (is_nullish envelope) eqn:Hnull.
  { eapply attended_throw; [done| |unfold dispatch; by rewrite Hnull]. intros q key. cbn [effect_on]. by rewrite Hnull. }
  destruct (is_text (prop envelope (js "type")) (js "close")) eqn:Hclose; [by apply attended_close|].
  destruct (is_text (prop envelope (js "type")) (js "ready")) eqn:Hready; [by apply attended_ready|].
  destruct (is_text (prop envelope (js "type")) (js "subscribe")) eqn:Hsubs; [by apply attended_subscribe|].
  destruct (is_text (prop envelope (js "type")) (js "unsubscribe")) eqn:Hunsub; [by apply attended_unsubscribe|].
  destruct (truthy (prop envelope (js "request"))) eqn:Hreq.
  - apply attended_request; [done|]. unfold is_request. cbn [forallb]. by rewrite Hnull, Hclose, Hready, Hsubs, Hunsub, Hreq.
  - eapply attended_throw; [done| |unfold dispatch; by rewrite Hnull, Hclose, Hready, Hsubs, Hunsub, Hreq].
    intros q key. cbn [effect_on]. by rewrite Hnull, Hclose, Hready, Hsubs, Hunsub.
Qed.

Definition attend_all (ms : list (nat * value)) : runtime C := fold_left attend ms new_runtime.

Lemma attend_all_tidy ms : Forall sound ms -> tidy (attend_all ms) /\
  forall q key, hears (attend_all ms) q key = subscribed q key (rev ms).
Proof.
  unfold attend_all. induction ms as [|m ms IH] using rev_ind; intros Hms; [split; [apply tidy_new|done]|].
  apply Forall_app in Hms as [Hms Hm]. apply Forall_cons in Hm as [Hm _]. destruct (IH Hms) as [Hs Ha]. clear IH.
  rewrite fold_left_app, rev_app_distr. cbn [fold_left rev app subscribed]. destruct (attended_all _ m Hs Hm) as [Hs2 Ha2].
  split; [done|]. intros q key. specialize (Ha2 q key). specialize (Ha q key). unfold hears, audience in *.
  destruct (effect_on q key m) as [b|]; cbn [default from_option id].
  - destruct b; [apply bool_decide_eq_true|apply bool_decide_eq_false]; naive_solver.
  - rewrite <- Ha. by apply bool_decide_ext.
Qed.

(** C23: in a worker that has served any messages one at a time, a request tells every port
    exactly the events it dispatches on the collections the port is subscribed to, each
    once and in order, before it is answered: subscribed by its own messages, through the
    core the request names, more recently than it unsubscribed or that core was closed. *)
Theorem ports_hear_their_subscriptions ms p envelope o s' : Forall sound ms -> is_request envelope = true ->
  core envelope (attend_all ms) = (Ok o, s') -> exists c c1 ds l m,
  objects s' !! o = Some c /\ core_ready c = (Ok (), c1) /\ core_dispatches (prop envelope (js "request")) c1 ds /\
  outbox (attend (attend_all ms) (p, envelope)) = outbox (attend_all ms) ++ l ++ [(p, response_message envelope m)] /\
  forall q, told q l = omap (fun d => if subscribed q (coreKey envelope ++ js ":" ++ fst d) (rev ms)
                                      then Some (VStr (fst d), snd d) else None) ds.
Proof.
  intros Hms Hreq R. destruct (attend_all_tidy ms Hms) as [Hs Ha].
  destruct (attend_request _ s' p envelope o Hs Hreq R) as (c & c1 & c2 & ds & s2 & l & m & Ho & R1 & _ & _ & Hds & _ & _ & E & Ht).
  exists c, c1, ds, l, m. split_and!; [done|done|done|by rewrite E|]. intros q. rewrite Ht. clear -Ha.
  induction ds as [|d ds IH]; [done|]. cbn [omap list_omap]. by rewrite Ha, IH.
Qed.

End Audience.
End Audience.
