(* ===== verification/Hosted.v ===== *)
(** The browser core as the worker's runtime hosts it: what its operations do to its
    subscribers, and the laws of [Worker.HostedCore] for it. *)

From stdpp Require Import gmap.
From S2P Require Import Prelude PathUtil JsNum JsValue Shard Codec Filesystem MemFs MemFsLaws PrefixIndex IndexComplete IndexQuery.
From S2P Require Import Plan Query Documents Metadata Events Engine Lifecycle Protocol Worker.

Module Hosted.
Import Events Engine.

(** ** What an operation dispatches *)

Definition dispatch_all (ds : list (jstr * value)) (b : bus) : bus := fold_left (fun b d => dispatch (fst d) (snd d) b) ds b.

Lemma dispatch_all_bus ds b : handlers (dispatch_all ds b) = handlers b /\
  next_handler (dispatch_all ds b) = next_handler b /\ calls (dispatch_all ds b) = calls b ++ deliveries (handlers b) ds.
Proof.
  unfold dispatch_all. revert b. induction ds as [|d ds IH]; intros b; [by rewrite app_nil_r|]. cbn [fold_left].
  destruct (IH (dispatch (fst d) (snd d) b)) as (-> & -> & ->). unfold dispatch, deliveries. cbn [handlers next_handler calls map concat].
  by rewrite <- app_assoc.
Qed.

Lemma plain_name name : is_ok (Collection.validateCollectionName name) = true -> (58%N) ∉ name.
Proof.
  destruct (Collection.validateCollectionName name) as [[]|e] eqn:E; [|done]. intros _ Hin.
  apply (Collection.name_pattern_chars name 58 (Collection.valid_name_pattern _ E)) in Hin. lia.
Qed.

Section Blind.
  Context {D : Type} `{FyloFilesystem D, Clock D, Performance D}.

Definition with_bus (b : bus) (c : core D) : core D := mkCore (core_index c) b.

(** From the core [c] the computation ends the same way whoever listens, having dispatched
    [ds]. *)
Definition tells {A} (m : M (core D) A) (c : core D) (ds : list (jstr * value)) : Prop :=
  exists r i, forall b, m (with_bus b c) = (r, mkCore i (dispatch_all ds b)).

(** Names of collections the core takes. *)
Definition proper (ds : list (jstr * value)) : Prop := Forall (fun d => is_ok (Collection.validateCollectionName (fst d)) = true) ds.

(** A computation that never looks at the subscribers. *)
Definition blind {A} (m : M (core D) A) : Prop := forall c, exists ds, proper ds /\ tells m c ds.

Lemma blind_quiet {A} (m : M (core D) A) : (forall i, exists r i', forall b, m (mkCore i b) = (r, mkCore i' b)) -> blind m.
Proof.
  intros Hm c. exists []. split; [constructor|]. destruct (Hm (core_index c)) as (r & i & E). by exists r, i.
Qed.
Lemma blind_ret {A} (a : A) : blind (mret a).
Proof. apply blind_quiet. intros i. by exists (Ok a), i. Qed.
Lemma blind_throw {A} e : blind (throw (A := A) e).
Proof. apply blind_quiet. intros i. by exists (Throw e), i. Qed.
Lemma blind_lift {A} (o : outcome A) : blind (lift o).
Proof. apply blind_quiet. intros i. by exists o, i. Qed.
Lemma blind_throw_if t e : blind (throw_if t e).
Proof. destruct t; [apply blind_throw|apply blind_ret]. Qed.
Lemma blind_on_index {A} (m : M (PrefixIndex.index_state D) A) : blind (on_index m).
Proof. apply blind_quiet. intros i. destruct (m i) as [r i'] eqn:E. exists r, i'. intros b. unfold on_index. cbn [core_index core_bus]. by rewrite E. Qed.
Lemma blind_on_fs {A} (m : M D A) : blind (on_fs m).
Proof. apply blind_on_index. Qed.

Lemma dispatch_all_app d1 d2 b : dispatch_all (d1 ++ d2) b = dispatch_all d2 (dispatch_all d1 b).
Proof. apply fold_left_app. Qed.

Lemma blind_bind {A B} (m : M (core D) A) (f : A -> M (core D) B) : blind m -> (forall a, blind (f a)) -> blind (m ≫= f).
Proof.
  intros Hm Hf c. destruct (Hm c) as (d1 & P1 & [a|e] & i & E).
  - destruct (Hf a (mkCore i (core_bus c))) as (d2 & P2 & r & i2 & E2). exists (d1 ++ d2). split; [by apply Forall_app|].
    exists r, i2. intros b. unfold mbind, M_bind. rewrite E, dispatch_all_app. apply (E2 (dispatch_all d1 b)).
  - exists d1. split; [done|]. exists (Throw e), i. intros b. unfold mbind, M_bind. by rewrite E.
Qed.
Lemma blind_fmap {A B} (f : A -> B) (m : M (core D) A) : blind m -> blind (f <$> m).
Proof.
  intros Hm c. destruct (Hm c) as (ds & P & r & i & E). exists ds. split; [done|].
  exists (match r with Ok a => Ok (f a) | Throw e => Throw e end), i. intros b. unfold fmap, M_fmap. rewrite E. by destruct r.
Qed.
Lemma blind_try {A} (m : M (core D) A) h : blind m -> (forall e, blind (h e)) -> blind (try_catch m h).
Proof.
  intros Hm Hh c. destruct (Hm c) as (d1 & P1 & [a|e] & i & E).
  - exists d1. split; [done|]. exists (Ok a), i. intros b. unfold try_catch. by rewrite E.
  - destruct (Hh e (mkCore i (core_bus c))) as (d2 & P2 & r & i2 & E2). exists (d1 ++ d2). split; [by apply Forall_app|].
    exists r, i2. intros b. unfold try_catch. rewrite E, dispatch_all_app. apply (E2 (dispatch_all d1 b)).
Qed.
Lemma blind_when t (m : M (core D) ()) : blind m -> blind (when t m).
Proof. intros Hm. destruct t; [done|apply blind_ret]. Qed.
Lemma blind_fold_m {A B} (f : B -> A -> M (core D) B) l acc : (forall a x, blind (f a x)) -> blind (fold_m f l acc).
Proof.
  intros Hf. revert acc. induction l as [|x l IH]; intros acc; cbn [fold_m]; [apply blind_ret|].
  apply blind_bind; [apply Hf|intros a; apply IH].
Qed.

Lemma blind_publish root collection event : blind (publish root collection event).
Proof.
  intros c. set (d := core_disk c).
  set (out := match journalPath (collectionRoot root) collection with
              | Throw e => (Throw e, d, [])
              | Ok path => match appendText path (journal_line event) d with
                           | (Throw e, d') => (Throw e, d', [])
                           | (Ok _, d') => (Ok (), d', [(collection, event)])
                           end
              end).
  exists (snd out). split.
  - unfold out, journalPath, collectionRoot, assertCollectionName.
    destruct (Collection.validateCollectionName collection) as [[]|e] eqn:Ev; [|constructor].
    cbn [mbind outcome_bind]. destruct (appendText _ _ d) as [[u|e] d']; [|constructor].
    apply Forall_singleton. cbn [fst]. by rewrite Ev.
  - exists (fst (fst out)), (PrefixIndex.set_disk (snd (fst out)) (core_index c)). intros b.
    unfold publish, Events.publish. change (core_disk (with_bus b c)) with d. change (core_bus (with_bus b c)) with b.
    change (core_index (with_bus b c)) with (core_index c). unfold out.
    destruct (journalPath _ collection) as [path|e]; [|done]. by destruct (appendText path _ d) as [[u|e] d'].
Qed.

Ltac look := repeat first
  [ progress intros
  | assumption
  | apply blind_ret | apply blind_throw | apply blind_lift | apply blind_throw_if | apply blind_on_fs | apply blind_on_index
  | apply blind_publish
  | solve [eauto with blind]
  | apply blind_bind | apply blind_try | apply blind_when | apply blind_fmap | apply blind_fold_m
  | match goal with |- blind (match ?x with _ => _ end) => destruct x end ].

Create HintDb blind discriminated.

(** ** Every operation of the core *)

Section Operations.
  Context (sha256Hex : jstr -> jstr) (scanners : option PrefixIndex.scanner_factory) (root : jstr) (worm : bool).

Lemma blind_readStoredDoc c id : blind (readStoredDoc root c id).
Proof. apply blind_on_fs. Qed.
Lemma blind_readDeletedDoc c id : blind (readDeletedDoc root c id).
Proof. apply blind_on_fs. Qed.
Lemma blind_writeStoredDoc c id doc : blind (writeStoredDoc root c id doc).
Proof. apply blind_on_fs. Qed.
Lemma blind_index_put c id doc : blind (index_put sha256Hex root c id doc).
Proof. apply blind_on_index. Qed.
Lemma blind_index_remove c id doc : blind (index_remove sha256Hex root c id doc).
Proof. apply blind_on_index. Qed.
Lemma blind_listDocIds c : blind (listDocIds root c).
Proof. apply blind_on_fs. Qed.
Lemma blind_listDeletedDocIds c : blind (listDeletedDocIds root c).
Proof. apply blind_on_fs. Qed.
Lemma blind_date_now : blind date_now.
Proof. apply blind_on_fs. Qed.
Lemma blind_requireCollection c : blind (requireCollection root c).
Proof. unfold requireCollection, hasCollection. look. Qed.
Lemma blind_event_ts stored : blind (event_ts stored).
Proof. unfold event_ts, date_now. look. Qed.
#[local] Hint Resolve blind_readStoredDoc blind_readDeletedDoc blind_writeStoredDoc blind_index_put blind_index_remove
  blind_listDocIds blind_listDeletedDocIds blind_date_now blind_requireCollection blind_event_ts : blind.

Lemma blind_createCollection c : blind (createCollection root c).
Proof. apply blind_on_fs. Qed.
Lemma blind_dropCollection c : blind (dropCollection root worm c).
Proof. unfold dropCollection. look. Qed.
Lemma blind_inspectCollection c : blind (inspectCollection scanners root worm c).
Proof. unfold inspectCollection, hasCollection. look. Qed.
Lemma blind_rebuildCollection c : blind (rebuildCollection sha256Hex root worm c).
Proof. unfold rebuildCollection, withCollectionWriteLane. look. Qed.
Lemma blind_putData c data meta : blind (putData sha256Hex root worm c data meta).
Proof. unfold putData, withCollectionWriteLane, put_body. look. Qed.
#[local] Hint Resolve blind_createCollection blind_dropCollection blind_putData : blind.
Lemma blind_batchPutData c batch : blind (batchPutData sha256Hex root worm c batch).
Proof. unfold batchPutData. look. Qed.
Lemma blind_getDocMeta c id : blind (getDocMeta root c id).
Proof. unfold getDocMeta. look. Qed.
Lemma blind_setDocMetaRecord c id record : blind (setDocMetaRecord root c id record).
Proof. unfold setDocMetaRecord, withCollectionWriteLane. look. Qed.
Lemma blind_patchDoc c newDoc oldDoc : blind (patchDoc sha256Hex root worm c newDoc oldDoc).
Proof. unfold patchDoc. look. Qed.
Lemma blind_delDoc c id : blind (delDoc sha256Hex root worm c id).
Proof. unfold delDoc, withCollectionWriteLane. look. Qed.
Lemma blind_restoreDoc c id : blind (restoreDoc sha256Hex root worm c id).
Proof. unfold restoreDoc, withCollectionWriteLane. look. Qed.
Lemma blind_one_doc c id onlyId : blind (one_doc root c id onlyId).
Proof. unfold one_doc. look. Qed.
#[local] Hint Resolve blind_patchDoc blind_delDoc blind_one_doc : blind.
Lemma blind_getDoc_once c id onlyId : blind (getDoc_once root c id onlyId).
Proof. unfold getDoc_once. look. Qed.
Lemma blind_getLatest c id onlyId : blind (getLatest root c id onlyId).
Proof. unfold getLatest. look. Qed.

(** *** Queries *)

#[local] Instance asks : Query.BrowserPrefixIndexLike (core D) := core_candidates sha256Hex scanners root.

Lemma blind_candidates c field operand : blind (Query.candidateDocIds c field operand).
Proof. apply blind_on_index. Qed.
#[local] Hint Resolve blind_candidates : blind.

Lemma blind_with_ranges c field operand ks ids rest : (forall o, blind (rest o)) ->
  blind (Query.with_ranges c field operand ks ids rest).
Proof. intros Hrest. revert ids. induction ks as [|k ks IH]; intros ids; cbn [Query.with_ranges]; look. Qed.

Lemma blind_forOperand c field operand : blind (Query.candidateDocIdsForOperand c field operand).
Proof.
  unfold Query.candidateDocIdsForOperand. apply blind_bind; [look|]. intros ids. apply blind_with_ranges. look.
Qed.
#[local] Hint Resolve blind_forOperand : blind.

Lemma blind_forOperation c operation : blind (Query.candidateDocIdsForOperation c operation).
Proof. unfold Query.candidateDocIdsForOperation. look. Qed.
#[local] Hint Resolve blind_forOperation : blind.

Lemma blind_union c ops ids : blind (Query.union_candidates c ops ids).
Proof. revert ids. induction ops as [|op ops IH]; intros ids; cbn [Query.union_candidates]; look. Qed.
#[local] Hint Resolve blind_union : blind.

Lemma blind_collect_matching c query ids results : blind (collect_matching root c query ids results).
Proof. revert results. induction ids as [|id ids IH]; intros results; cbn [collect_matching]; look. Qed.
Lemma blind_collect_deleted c query ids results : blind (collect_deleted root c query ids results).
Proof. revert results. induction ids as [|id ids IH]; intros results; cbn [collect_deleted]; look. Qed.
#[local] Hint Resolve blind_collect_matching blind_collect_deleted : blind.

Lemma blind_docResults c query : blind (docResults sha256Hex scanners root c query).
Proof. unfold docResults, Query.candidateDocIdsForQuery, listQueryableDocIds. look. Qed.
#[local] Hint Resolve blind_docResults : blind.
Lemma blind_findDocs c query : blind (findDocs sha256Hex scanners root c query).
Proof. unfold findDocs. look. Qed.
Lemma blind_findDeletedDocs c query : blind (findDeletedDocs root c query).
Proof. unfold findDeletedDocs, deletedDocResults. look. Qed.
#[local] Hint Resolve blind_findDocs : blind.
Lemma blind_patchDocs c update : blind (patchDocs sha256Hex scanners root worm c update).
Proof. unfold patchDocs. look. Qed.
Lemma blind_delDocs c query : blind (delDocs sha256Hex scanners root worm c query).
Proof. unfold delDocs. look. Qed.
Lemma blind_join j : blind (join sha256Hex scanners root j).
Proof. unfold join. look. Qed.
#[local] Hint Resolve blind_patchDocs blind_delDocs blind_join : blind.
Lemma blind_executeSQL sql : blind (executeSQL sha256Hex scanners root worm sql).
Proof. unfold executeSQL, executeSqlPlan. look. Qed.

End Operations.
(** *** Requests *)

Section Requests.
  Context (sha256Hex : jstr -> jstr) (scanners : option PrefixIndex.scanner_factory) (root : jstr) (worm : bool).
  (** What the handlers' table inherits does not look at the subscribers either. *)
  Context (inherited : jstr -> option (value -> M (core D) value)).
  Context (inherited_blind : forall op h request, inherited op = Some h -> blind (h request)).

#[local] Hint Resolve blind_executeSQL blind_createCollection blind_dropCollection blind_inspectCollection
  blind_rebuildCollection blind_getDoc_once blind_getLatest blind_getDocMeta blind_setDocMetaRecord
  blind_findDocs blind_findDeletedDocs blind_join blind_putData blind_batchPutData blind_patchDoc
  blind_patchDocs blind_delDoc blind_restoreDoc blind_delDocs : blind.

Lemma blind_operations : Forall (fun h => forall request, blind (snd h request))
  (Protocol.BROWSER_OPERATIONS (H := Protocol.core_surface sha256Hex scanners root worm)).
Proof.
  unfold Protocol.BROWSER_OPERATIONS, Protocol.collectFindDocs, Protocol.collectDeletedDocs.
  cbn [Protocol.executeSQL Protocol.createCollection Protocol.dropCollection Protocol.inspectCollection
    Protocol.rebuildCollection Protocol.getDoc_once Protocol.getLatest Protocol.getDocMeta Protocol.setDocMetaRecord
    Protocol.findDocs_collect Protocol.findDeletedDocs_collect Protocol.join Protocol.putData Protocol.batchPutData
    Protocol.patchDoc Protocol.patchDocs Protocol.delDoc Protocol.restoreDoc Protocol.delDocs Protocol.core_surface].
  repeat (apply Forall_cons; split; [intros request; cbn [snd]; look|]). apply Forall_nil_2.
Qed.

Lemma blind_serve request : blind (Protocol.serve sha256Hex scanners root worm inherited request).
Proof.
  unfold Protocol.serve, Protocol.runBrowserRequest, now, Protocol.core_clock. pose proof blind_date_now as Hnow.
  assert (blind (Protocol.executeBrowserOperation (H := Protocol.core_surface sha256Hex scanners root worm) inherited request)) as Hop.
  { unfold Protocol.executeBrowserOperation. destruct (negb _); [apply blind_throw|].
    destruct (Protocol.handler_of _ _) as [h|] eqn:E; [|apply blind_throw]. unfold Protocol.handler_of in E.
    destruct (alist_get _ _) as [h'|] eqn:E'; [|by eapply inherited_blind]. injection E as ->.
    exact (proj1 (Forall_forall _ _) blind_operations _ (alist_get_Some _ _ _ E') request). }
  look.
Qed.

End Requests.
End Blind.

(** ** The core of a worker *)

(** A core with its options. *)
Record hosted (D : Type) := mkHosted {
  host_root : jstr;
  host_worm : bool;
  host_scanners : option PrefixIndex.scanner_factory;
  host_core : core D
}.
Arguments mkHosted {D}. Arguments host_root {D}. Arguments host_worm {D}. Arguments host_scanners {D}. Arguments host_core {D}.

Section Hosting.
  Context {D : Type} `{FyloFilesystem D, Clock D, Performance D}.
  Context (clock_runs : forall d : D, exists t d', now d = (Ok t, d')).
  Context (sha256Hex : jstr -> jstr) (wasm_factory : value -> PrefixIndex.scanner_factory).
  Context (open_disk : Storage.NormalizedBrowserStorage -> jstr -> D).
  Context (inherited : jstr -> option (value -> M (core D) value)).
  Context (inherited_blind : forall op h request, inherited op = Some h -> blind (h request)).

Definition on_host {A} (h : hosted D) (m : M (core D) A) : outcome A * hosted D :=
  let '(r, c) := m (host_core h) in (r, mkHosted (host_root h) (host_worm h) (host_scanners h) c).

Definition serve_host (request : value) (h : hosted D) : M (core D) value :=
  Protocol.serve sha256Hex (host_scanners h) (host_root h) (host_worm h) inherited request.

(** [new BrowserCore({ fs, root, worm, indexScannerFactory })] and its methods. *)
#[local] Instance browser_core : HostedCore (hosted D) := {
  open_core storage namespace root worm wasm :=
    mkHosted (to_str root) (Storage.is_text (prop worm (js "mode")) (js "strict"))
      (if truthy wasm then Some (wasm_factory wasm) else None) (new_core (open_disk storage namespace));
  core_ready h := on_host h (on_index (PrefixIndex.ready (host_scanners h)));
  core_close h := on_host h (on_index PrefixIndex.close);
  core_request request h := on_host h (serve_host request h);
  core_subscribe collection h := on_host h (subscribe collection);
  core_unsubscribe n h :=
    mkHosted (host_root h) (host_worm h) (host_scanners h)
      (mkCore (core_index (host_core h)) (Events.unsubscribe n (core_bus (host_core h))));
  core_calls h := calls (core_bus (host_core h))
}.

#[local] Instance browser_core_replies : HostedCoreReplies (hosted D).
Proof.
  split. intros r h v h' R. cbn [core_request browser_core] in R. unfold on_host, serve_host, Protocol.serve in R.
  destruct (Protocol.runBrowserRequest _ _ _) as [o c] eqn:E. injection R as -> _.
  unfold Protocol.runBrowserRequest, mbind, M_bind in E. destruct (now (host_core h)) as [[t|e] c1]; [|done].
  unfold try_catch in E. destruct (Protocol.executeBrowserOperation _ _ _) as [[result|e] c2].
  - destruct (now c2) as [[u|e] c3]; [injection E as <- _; done|]. destruct (now c3) as [[u|e'] c4]; [injection E as <- _; done|done].
  - destruct (now c2) as [[u|e'] c3]; [injection E as <- _; done|done].
Qed.

Lemma index_call (h : hosted D) (m : M (PrefixIndex.index_state D) ()) : (forall i, exists i', m i = (Ok (), i')) -> exists h',
  on_host h (on_index m) = (Ok (), h') /\ core_bus (host_core h') = core_bus (host_core h).
Proof.
  intros Hm. destruct (Hm (core_index (host_core h))) as [i' E]. unfold on_host, on_index. rewrite E. by eexists.
Qed.

Lemma ready_succeeds scanners (i : PrefixIndex.index_state D) : exists i', PrefixIndex.ready scanners i = (Ok (), i').
Proof.
  unfold PrefixIndex.ready. run_pure. destruct scanners as [f|]; [|by exists i].
  destruct (PrefixIndex.accelerationState i); try (by exists i); by destruct (PrefixIndex.factory_ready f); eexists.
Qed.

Lemma serve_succeeds request (h : hosted D) : exists v c', serve_host request h (host_core h) = (Ok v, c').
Proof.
  unfold serve_host, Protocol.serve.
  assert (forall c : core D, exists t c', date_now c = (Ok t, c')) as Hclock.
  { intros c. destruct (clock_runs (core_disk c)) as (t & d' & E). exists t. unfold date_now, on_fs, on_index, PrefixIndex.on_disk.
    unfold core_disk in E. rewrite E. by eexists. }
  by apply Protocol.runBrowserRequest_answers.
Qed.

#[local] Instance browser_core_events : HostedCoreEvents (hosted D).
Proof.
  refine {|
    core_handlers h := handlers (core_bus (host_core h));
    core_next h := next_handler (core_bus (host_core h));
    core_accepts name := is_ok (Collection.validateCollectionName name);
    core_dispatches r h ds := proper ds /\ tells (serve_host r h) (host_core h) ds
  |}.
  - intros name Hn. apply plain_name in Hn. exact Hn.
  - done.
  - intros h. destruct (index_call h (PrefixIndex.ready (host_scanners h)) (ready_succeeds _)) as (h' & E & Eb).
    exists h'. cbn [core_calls browser_core]. by rewrite Eb.
  - intros h. destruct (index_call h PrefixIndex.close) as (h' & E & Eb); [by eexists|].
    exists h'. cbn [core_calls browser_core]. by rewrite Eb.
  - intros name h Hn. cbn [core_subscribe browser_core]. unfold on_host, subscribe, assertCollectionName.
    destruct (Collection.validateCollectionName name); [|done]. by eexists.
  - done.
  - intros r h. destruct (serve_succeeds r h) as (v & c' & E). cbn [core_request browser_core]. unfold on_host. rewrite E. by eexists _, _.
  - intros r h. exact (blind_serve sha256Hex _ _ _ inherited inherited_blind r (host_core h)).
  - intros r h ds [Hp _]. eapply Forall_impl; [exact Hp|]. intros d. apply plain_name.
  - intros r h ds [_ (o & i & E)]. specialize (E (core_bus (host_core h))). cbn [core_request core_calls browser_core].
    unfold on_host. replace (with_bus (core_bus (host_core h)) (host_core h)) with (host_core h) in E by (by destruct (host_core h)).
    rewrite E. cbn [snd host_core core_bus]. apply dispatch_all_bus.
Defined.

End Hosting.
(** ** A worker on memory *)

#[local] Existing Instance Lifecycle.noon_fs.
#[local] Existing Instance Lifecycle.noon_clock.
#[local] Existing Instance Lifecycle.noon_performance.

Lemma noon_runs (d : MemFs.state) : exists t d', now d = (Ok t, d').
Proof. by eexists _, _. Qed.

Definition no_inheritance : jstr -> option (value -> M (core MemFs.state) value) := fun _ => None.
Lemma no_inheritance_blind op h request : no_inheritance op = Some h -> blind (h request).
Proof. done. Qed.

Definition fresh_disk (storage : Storage.NormalizedBrowserStorage) (namespace : jstr) : MemFs.state := MemFs.init Lifecycle.noon.

#[local] Instance memory_core : HostedCore (hosted MemFs.state) :=
  browser_core Complete.length_digest (fun _ => Answers.line_scanner) fresh_disk no_inheritance.
#[local] Instance memory_core_replies : HostedCoreReplies (hosted MemFs.state) :=
  browser_core_replies Complete.length_digest (fun _ => Answers.line_scanner) fresh_disk no_inheritance.
#[local] Instance memory_core_events : HostedCoreEvents (hosted MemFs.state) :=
  browser_core_events noon_runs Complete.length_digest (fun _ => Answers.line_scanner) fresh_disk no_inheritance no_inheritance_blind.

Definition people : value := VStr (js "people").
(** Messages of one page to its worker; the core's index scanner is a WebAssembly module, which
    [ready] waits for. *)
Definition message (id : string) (rest : object) : value :=
  VObj ([(js "id", VStr (js id)); (js "namespace", VStr (js "app")); (js "storage", VStr (js "memory")); (js "wasm", VBool true)] ++ rest).
Definition subscribe_people (id : string) : value := message id [(js "type", VStr (js "subscribe")); (js "collection", people)].
Definition unsubscribe_people (id : string) : value := message id [(js "type", VStr (js "unsubscribe")); (js "collection", people)].
Definition create_people (id : string) : value :=
  message id [(js "request", VObj [(js "op", VStr (js "createCollection")); (js "collection", people)])].
Definition put_ann (id : string) : value :=
  message id [(js "request", VObj [(js "op", VStr (js "putData")); (js "collection", people);
                                   (js "data", VObj [(Lifecycle.ann_id, VObj Lifecycle.ann)])])].
Definition ann_event : value := insert_event (Lifecycle.noon 0) Lifecycle.ann_id Lifecycle.ann.


Import Runtime.

Definition listeners_left (s : runtime (hosted MemFs.state)) : list (list (nat * jstr)) := map core_handlers (objects s).

(** Two ports that subscribe to a collection while the core is getting ready both
    register with the core: each event is posted twice to each port, and when both have
    unsubscribed the core still calls a listener; served one after the other they hear the
    event once and nothing is left. *)
Theorem simultaneous_subscribers_hear_twice :
  let created := [Arrive 0 (create_people "1"); Resume 0; Resume 0] in
  let together := [Arrive 0 (subscribe_people "2"); Arrive 1 (subscribe_people "3"); Resume 0; Resume 0] in
  let apart := [Arrive 0 (subscribe_people "2"); Resume 0; Arrive 1 (subscribe_people "3")] in
  let put := [Arrive 0 (put_ann "4"); Resume 0; Resume 0] in
  let over := [Arrive 0 (unsubscribe_people "5"); Arrive 1 (unsubscribe_people "6")] in
  let run ts := run_turns ts (new_runtime (C := hosted MemFs.state)) in
  Audience.told 1 (outbox (run (created ++ together ++ put))) = [(people, ann_event); (people, ann_event)] /\
  listeners_left (run (created ++ together ++ put ++ over)) = [[(0, js "people")]] /\
  Audience.told 1 (outbox (run (created ++ apart ++ put))) = [(people, ann_event)] /\
  listeners_left (run (created ++ apart ++ put ++ over)) = [[]].
Proof. split_and!; vm_compute; reflexivity. Qed.

(** ** Witnesses *)

Lemma every_message_answered_once_witness :
  let ts := [Arrive 0 (create_people "1"); Arrive 1 (subscribe_people "1"); Resume 1; Arrive 0 (put_ann "1"); Resume 1] in
  Answered.answers 0 (VStr (js "1")) (run_turns ts (new_runtime (C := hosted MemFs.state))) +
  Answered.waiting 0 (VStr (js "1")) (run_turns ts (new_runtime (C := hosted MemFs.state))) = 2.
Proof. intros ts. exact (Answered.every_message_answered_once 0 (VStr (js "1")) ts). Defined.

Definition mornings : list (nat * value) :=
  [(0, create_people "1"); (0, subscribe_people "2"); (1, subscribe_people "1"); (0, unsubscribe_people "3")].

Lemma mornings_sound : Forall Audience.sound mornings.
Proof.
  repeat apply Forall_cons_2; [| | | |by apply Forall_nil_2]; intros Ht; vm_compute in Ht; try discriminate Ht;
    intros _; split; vm_compute; reflexivity.
Qed.

Lemma mornings_open :
  exists o s', core (put_ann "4") (Audience.attend_all mornings) = (Ok o, s').
Proof.
  destruct (Audience.attend_all_tidy mornings mornings_sound) as [Hs _].
  pose proof (Audience.tidy_core (Audience.attend_all mornings) (put_ann "4") Hs) as Hc.
  destruct (core (put_ann "4") (Audience.attend_all mornings)) as [[o|e] s']; [by exists o, s'|].
  destruct Hc as [_ Hc]. vm_compute in Hc. discriminate Hc.
Qed.

Lemma ports_hear_their_subscriptions_witness : exists o s' c c1 ds l m,
  core (put_ann "4") (Audience.attend_all mornings) = (Ok o, s') /\
  objects s' !! o = Some c /\ core_ready c = (Ok (), c1) /\ core_dispatches (prop (put_ann "4") (js "request")) c1 ds /\
  outbox (Audience.attend (Audience.attend_all mornings) (0, put_ann "4")) =
    outbox (Audience.attend_all mornings) ++ l ++ [(0, response_message (put_ann "4") m)] /\
  forall q, Audience.told q l = omap (fun d => if Audience.subscribed q (coreKey (put_ann "4") ++ js ":" ++ fst d) (rev mornings)
                                      then Some (VStr (fst d), snd d) else None) ds.
Proof.
  destruct mornings_open as (o & s' & R). exists o, s'.
  destruct (Audience.ports_hear_their_subscriptions mornings 0 (put_ann "4") o s' mornings_sound) as (c & c1 & ds & l & m & H).
  - vm_compute. reflexivity.
  - exact R.
  - exists c, c1, ds, l, m. split; [exact R|exact H].
Defined.

End Hosted.
