(* ===== verification/Client.v ===== *)
(** The page's side of the worker protocol: class [FyloWorkerClient] of
    [src/browser/worker/client.js].  Promises and listeners are numbered; what was posted,
    how each promise settled and what each listener heard are kept in order. *)

From stdpp Require Import gmap.
From S2P Require Import Prelude PathUtil JsNum JsValue Ttid Codec Plan Events Engine Protocol Worker Hosted.

Module Client.
Import Plan.

(** [FyloWorkerClientOptions] *)
Record options := mkOptions {
  opt_namespace : value; opt_storage : value; opt_instanceId : value;
  opt_root : value; opt_worm : value; opt_wasm : value
}.

Record client := mkClient {
  sequence : nat;
  pending : gmap jstr nat;
  promises : nat;
  listeners : gmap jstr (list nat);
  posted : list value;
  settled : gmap nat (outcome value);
  heard : list (nat * value)
}.

Definition new_client : client := mkClient 0 ∅ 0 ∅ [] ∅ [].

Definition set_pending (m : gmap jstr nat) (c : client) : client :=
  mkClient (sequence c) m (promises c) (listeners c) (posted c) (settled c) (heard c).
Definition set_listeners (m : gmap jstr (list nat)) (c : client) : client :=
  mkClient (sequence c) (pending c) (promises c) m (posted c) (settled c) (heard c).
Definition set_heard (l : list (nat * value)) (c : client) : client :=
  mkClient (sequence c) (pending c) (promises c) (listeners c) (posted c) (settled c) l.
Definition settle (k : nat) (o : outcome value) (c : client) : client :=
  mkClient (sequence c) (pending c) (promises c) (listeners c) (posted c) (<[k := o]> (settled c)) (heard c).

(** [`${Date.now()}-${this.sequence}`], the sequence counted up. *)
Definition id_text (time : Z) (n : nat) : jstr := Num.to_string (Num.of_Z time) ++ js "-" ++ Num.dec_nat n.

(** What a reply does to the promise it names. *)
Definition reply_outcome (envelope : value) : outcome value :=
  match prop envelope (js "ok") with
  | VBool false =>
      Throw (Error (to_str (nullish (prop (prop envelope (js "error")) (js "message"))
                                    (VStr (js "FYLO worker request failed")))))
  | _ => Ok envelope
  end.

Definition is_event (envelope : value) : bool := Storage.is_text (prop envelope (js "type")) (js "event").
(** [String(envelope.id ?? '')] *)
Definition reply_id (envelope : value) : jstr := to_str (nullish (prop envelope (js "id")) (VStr [])).

(** [receive(message)]; a message that is not an object reads as one without fields, and
    [null] throws in the port's event handler. *)
Definition receive (envelope : value) (c : client) : client :=
  if is_nullish envelope then c
  else if is_event envelope then
    set_heard (heard c ++ map (fun l => (l, prop envelope (js "event")))
                 (default [] (listeners c !! to_str (prop envelope (js "collection"))))) c
  else
    match pending c !! reply_id envelope with
    | None => c
    | Some k => settle k (reply_outcome envelope) (set_pending (delete (reply_id envelope) (pending c)) c)
    end.

Section Sending.
  Context (o : options).

(** [{ id, namespace, ..., ...envelope }] *)
Definition payload (id : jstr) (envelope : object) : value :=
  VObj (obj_assign [(js "id", VStr id); (js "namespace", opt_namespace o); (js "storage", opt_storage o);
                    (js "instanceId", opt_instanceId o); (js "root", opt_root o); (js "worm", opt_worm o);
                    (js "wasm", opt_wasm o)] envelope).

(** [send(envelope)] at a time: the number of the promise. *)
Definition send (time : Z) (envelope : object) (c : client) : nat * client :=
  let n := S (sequence c) in
  let id := id_text time n in
  (promises c,
   mkClient n (<[id := promises c]> (pending c)) (S (promises c)) (listeners c)
     (posted c ++ [payload id envelope]) (settled c) (heard c)).

Definition envelope (time : Z) (request : value) : client -> nat * client := send time [(js "request", request)].
Definition ready (time : Z) : client -> nat * client := send time [(js "type", VStr (js "ready"))].

(** [subscribe(collection, listener)] *)
Definition subscribe (time : Z) (collection : jstr) (l : nat) (c : client) : client :=
  let c1 := match listeners c !! collection with
            | Some _ => c
            | None => snd (send time [(js "type", VStr (js "subscribe")); (js "collection", VStr collection)]
                             (set_listeners (<[collection := []]> (listeners c)) c))
            end in
  let current := default [] (listeners c1 !! collection) in
  set_listeners (<[collection := if decide (l ∈ current) then current else current ++ [l]]> (listeners c1)) c1.

(** The function it returns. *)
Definition unsubscribe (time : Z) (collection : jstr) (l : nat) (c : client) : client :=
  match listeners c !! collection with
  | None => c
  | Some current =>
      let rest := filter (fun m => m <> l) current in
      if bool_decide (rest = []) then
        snd (send time [(js "type", VStr (js "unsubscribe")); (js "collection", VStr collection)]
               (set_listeners (delete collection (listeners c)) c))
      else set_listeners (<[collection := rest]> (listeners c)) c
  end.

(** [close()]: its message is only sent for a core of the page's own; the port is closed
    either way, and an error of the answer is swallowed. *)
Definition close (time : Z) (c : client) : option nat * client :=
  if truthy (opt_instanceId o) then
    let '(k, c') := send time [(js "type", VStr (js "close"))] c in (Some k, c')
  else (None, c).

End Sending.

(** [request(request)], once its envelope's promise has settled. *)
Definition request_result (answer : outcome value) : outcome value :=
  response ← answer;
  if truthy (prop response (js "ok")) then Ok (prop response (js "result"))
  else Throw (Error (to_str (prop (prop response (js "error")) (js "message")))).

(** ** Promises *)

(** What happens to a client: calls of its methods and messages of its port. *)
Inductive op :=
| Send (time : Z) (message : object)
| Receive (message : value)
| Subscribe (time : Z) (collection : jstr) (l : nat)
| Unsubscribe (time : Z) (collection : jstr) (l : nat)
| Close (time : Z).

Definition op_step (o : options) (c : client) (p : op) : client :=
  match p with
  | Send time message => snd (send o time message c)
  | Receive message => receive message c
  | Subscribe time collection l => subscribe o time collection l c
  | Unsubscribe time collection l => unsubscribe o time collection l c
  | Close time => snd (close o time c)
  end.

(** The specification: the first reply that carries the identifier. *)
Fixpoint first_reply (id : jstr) (ops : list op) : option (outcome value) :=
  match ops with
  | [] => None
  | Receive m :: rest =>
      if negb (is_nullish m) && negb (is_event m) && bool_decide (reply_id m = id) then Some (reply_outcome m)
      else first_reply id rest
  | _ :: rest => first_reply id rest
  end.

Lemma dec_nat_dash n : (45%N) ∉ Num.dec_nat n.
Proof.
  intros Hin. apply TTID.digits_acc_elem in Hin as [H|(d & _ & H)]; [by apply elem_of_nil in H| |done].
  by apply (TTID.digit_char_not_dash d).
Qed.

Lemma id_text_inj t t' n n' : id_text t n = id_text t' n' -> n = n'.
Proof.
  unfold id_text. change (js "-") with [45%N]. cbn [app]. intros E.
  pose proof (last_index_of_app 45 (Num.to_string (Num.of_Z t)) _ (dec_nat_dash n)) as L.
  rewrite E, (last_index_of_app 45 _ _ (dec_nat_dash n')) in L. injection L as L.
  apply app_inj_1 in E as [_ E]; [|done]. injection E as E. apply Num.dec_inj in E. lia.
Qed.

(** A reachable client: the waiting promises are of messages sent, each of its own, and
    have not settled. *)
Record orderly (c : client) : Prop := {
  orderly_ids id k : pending c !! id = Some k -> exists t n, id = id_text t n /\ n <= sequence c;
  orderly_pending id k : pending c !! id = Some k -> k < promises c /\ settled c !! k = None;
  orderly_inj id id' k : pending c !! id = Some k -> pending c !! id' = Some k -> id = id';
  orderly_settled k r : settled c !! k = Some r -> k < promises c
}.

Lemma orderly_new : orderly new_client.
Proof. split; intros *; cbn [new_client pending settled]; by rewrite lookup_empty. Qed.

(** A number no message has been sent under. *)
Lemma fresh_id c t : orderly c -> pending c !! id_text t (S (sequence c)) = None.
Proof.
  intros Hc. apply eq_None_not_Some. intros [k E]. destruct (orderly_ids c Hc _ _ E) as (t' & n & E' & Hn).
  apply id_text_inj in E'. lia.
Qed.

Lemma orderly_send o t m c : orderly c -> orderly (snd (send o t m c)).
Proof.
  intros [H1 H2 H3 H4]. split; cbn [send snd pending settled promises sequence].
  - intros id k. rewrite lookup_insert_Some. intros [[<- <-]|[_ E]]; [by exists t, (S (sequence c))|].
    destruct (H1 _ _ E) as (t' & n & -> & Hn). exists t', n. split; [done|lia].
  - intros id k. rewrite lookup_insert_Some. intros [[<- <-]|[_ E]].
    + split; [lia|]. apply eq_None_not_Some. intros [r E]. apply H4 in E. lia.
    + destruct (H2 _ _ E) as [? ?]. split; [lia|done].
  - intros id id' k. rewrite !lookup_insert_Some. intros [[<- <-]|[_ E]] [[<- E2]|[_ E2]]; [done|..|by eapply H3].
    + apply H2 in E2. lia.
    + apply H2 in E. lia.
  - intros k r E. apply H4 in E. lia.
Qed.

Lemma orderly_listeners m c : orderly c -> orderly (set_listeners m c).
Proof. intros []. by split. Qed.

Lemma orderly_receive m c : orderly c -> orderly (receive m c).
Proof.
  intros Hc. unfold receive. destruct (is_nullish m); [done|]. destruct (is_event m); [by destruct Hc; split|].
  destruct (pending c !! reply_id m) as [k|] eqn:E; [|done]. destruct Hc as [H1 H2 H3 H4].
  split; cbn [settle set_pending pending settled promises sequence].
  - intros id j [_ Ej]%lookup_delete_Some. by apply H1 in Ej.
  - intros id j [Hne Ej]%lookup_delete_Some. destruct (H2 _ _ Ej) as [? ?]. split; [done|].
    rewrite lookup_insert_ne; [done|]. intros ->. apply Hne. by eapply H3.
  - intros id id' j [_ Ej]%lookup_delete_Some [_ Ej']%lookup_delete_Some. by eapply H3.
  - intros j r. rewrite lookup_insert_Some. intros [[<- _]|[_ Ej]]; [by apply H2 in E as [? _]|by apply H4 in Ej].
Qed.

Lemma orderly_step o p c : orderly c -> orderly (op_step o c p).
Proof.
  intros Hc. destruct p as [t m|m|t col l|t col l|t]; cbn [op_step]; [by apply orderly_send|by apply orderly_receive| | |].
  - unfold subscribe. apply orderly_listeners. destruct (listeners c !! col); [done|]. by apply orderly_send, orderly_listeners.
  - unfold unsubscribe. destruct (listeners c !! col); [|done]. case_bool_decide; [by apply orderly_send, orderly_listeners|by apply orderly_listeners].
  - unfold close. destruct (truthy _); [|done]. pose proof (orderly_send o t [(js "type", VStr (js "close"))] c Hc) as Hs. by destruct (send _ _ _ _).
Qed.

(** The promise [k], named by [id]: not settled, or settled for good. *)
Definition awaits (id : jstr) (k : nat) (answer : option (outcome value)) (c : client) : Prop :=
  orderly c /\ k < promises c /\ settled c !! k = answer /\
  match answer with None => pending c !! id = Some k | Some _ => forall id', pending c !! id' <> Some k end.

Lemma awaits_send o t m id k a c : awaits id k a c -> awaits id k a (snd (send o t m c)).
Proof.
  intros (Hc & Hk & Hs & Hp). pose proof (fresh_id c t Hc) as Hf. split_and!; [by apply orderly_send|cbn; lia|done|].
  cbn [send snd pending]. destruct a as [r|].
  - intros id'. rewrite lookup_insert_Some. intros [[_ E]|[_ E]]; [lia|by eapply Hp].
  - rewrite lookup_insert_ne; [done|]. intros E. rewrite E in Hf. by rewrite Hf in Hp.
Qed.
Lemma awaits_listeners m id k a c : awaits id k a c -> awaits id k a (set_listeners m c).
Proof. intros (Hc & ? & ? & ?). split_and!; [by apply orderly_listeners|done..]. Qed.

Lemma awaits_receive m id k a c : awaits id k a c ->
  awaits id k (match a with Some _ => a | None => first_reply id [Receive m] end) (receive m c).
Proof.
  intros (Hc & Hk & Hs & Hp). pose proof (orderly_receive m c Hc) as Hc'. unfold awaits. split; [done|].
  unfold receive in *. cbn [first_reply]. destruct (is_nullish m); [by destruct a|]. destruct (is_event m); [by destruct a|].
  cbn [negb andb]. destruct (pending c !! reply_id m) as [j|] eqn:E.
  - cbn [settle set_pending promises settled pending]. split; [done|]. destruct a as [r|].
    + rewrite lookup_insert_ne by (intros ->; by eapply Hp). split; [done|]. intros id' [_ E']%lookup_delete_Some. by eapply Hp.
    + case_bool_decide as Hid.
      * subst id. rewrite E in Hp. injection Hp as ->. rewrite lookup_insert_eq. split; [done|].
        intros id' [Hne E']%lookup_delete_Some. apply Hne. by apply (orderly_inj c Hc _ _ k).
      * assert (j <> k) as Hj by (intros ->; apply Hid; by apply (orderly_inj c Hc _ _ k)).
        rewrite lookup_insert_ne, lookup_delete_ne by done. done.
  - split; [done|]. destruct a as [r|]; [done|]. rewrite bool_decide_eq_false_2; [done|]. intros Hid. rewrite Hid in E. by rewrite E in Hp.
Qed.

Lemma awaits_step o p id k a c : awaits id k a c ->
  awaits id k (match a with Some _ => a | None => first_reply id [p] end) (op_step o c p).
Proof.
  intros Ha. assert (forall c', awaits id k a c' -> awaits id k (match a with Some _ => a | None => None end) c') as Hsame by (by destruct a).
  destruct p as [t m|m|t col l|t col l|t]; cbn [op_step].
  - by apply Hsame, awaits_send.
  - by apply awaits_receive.
  - apply Hsame. unfold subscribe. apply awaits_listeners. destruct (listeners c !! col); [done|]. by apply awaits_send, awaits_listeners.
  - apply Hsame. unfold unsubscribe. destruct (listeners c !! col); [|done].
    case_bool_decide; [by apply awaits_send, awaits_listeners|by apply awaits_listeners].
  - apply Hsame. unfold close. destruct (truthy _); [|done].
    pose proof (awaits_send o t [(js "type", VStr (js "close"))] id k a c Ha) as Hs. by destruct (send _ _ _ _).
Qed.

Lemma first_reply_cons id p ops : first_reply id (p :: ops) =
  match first_reply id [p] with Some r => Some r | None => first_reply id ops end.
Proof. destruct p; try done. cbn [first_reply]. by destruct (_ && _). Qed.

Lemma awaits_run o ops id k a c : awaits id k a c ->
  awaits id k (match a with Some _ => a | None => first_reply id ops end) (fold_left (op_step o) ops c).
Proof.
  revert a c. induction ops as [|p ops IH]; intros a c Ha; [by destruct a|]. cbn [fold_left].
  apply (awaits_step o p) in Ha. apply IH in Ha. destruct a as [r|]; [done|]. rewrite first_reply_cons. by destruct (first_reply id [p]).
Qed.

Lemma orderly_run o ops : orderly (fold_left (op_step o) ops new_client).
Proof.
  rewrite <- (rev_involutive ops). induction (rev ops) as [|p ps IH]; [apply orderly_new|].
  cbn [rev]. rewrite fold_left_app. by apply orderly_step.
Qed.

Lemma awaits_sent o t m c : orderly c ->
  awaits (id_text t (S (sequence c))) (promises c) None (snd (send o t m c)).
Proof.
  intros Hc. split_and!; [by apply orderly_send|cbn; lia| |cbn [send snd pending]; by rewrite lookup_insert_eq].
  cbn [send snd settled]. apply eq_None_not_Some. intros [r E]. apply (orderly_settled c Hc) in E. lia.
Qed.

(** Whatever a page does and its port receives, the promise of a message settles with
    the first reply that carries the message's identifier, once and for good, and waits
    while there is none: replies in another order, replies twice, replies to others and
    events do not change it. *)
Theorem promise_settles_with_its_reply o before t m later :
  let c := fold_left (op_step o) before new_client in
  let '(k, c') := send o t m c in
  settled (fold_left (op_step o) later c') !! k = first_reply (id_text t (S (sequence c))) later.
Proof.
  intros c. pose proof (awaits_sent o t m c (orderly_run o before)) as Ha. cbn [send].
  apply (awaits_run o later) in Ha. destruct Ha as (_ & _ & E & _). exact E.
Qed.

(** ** A call through a worker *)

(** The port [p] delivers its messages, in order. *)
Definition deliver (p : nat) (messages : list (nat * value)) (c : client) : client :=
  fold_left (fun c m => if decide (fst m = p) then receive (snd m) c else c) messages c.

Lemma awaits_events p l id k c : Forall (fun m => is_event (snd m) = true) l -> awaits id k None c -> awaits id k None (deliver p l c).
Proof.
  intros Hl. revert c. induction l as [|m l IH]; intros c Ha; [done|]. apply Forall_cons in Hl as [Hm Hl].
  apply (IH Hl). destruct (decide (fst m = p)); [|done]. apply (awaits_receive (snd m)) in Ha. cbn [first_reply] in Ha.
  rewrite Hm, andb_false_r in Ha. exact Ha.
Qed.

(** What a request's message reads as. *)
Lemma payload_request o id r : let m := payload o id [(js "request", r)] in
  prop m (js "id") = VStr id /\ prop m (js "request") = r /\ prop m (js "type") = VUndef /\ is_nullish m = false.
Proof.
  cbv zeta. unfold payload, obj_assign.
  rewrite (fold_obj_set_append [(js "request", r)] _ (eq_refl : ordered_keys (keys ([(js "id", VStr id); (js "namespace", opt_namespace o);
    (js "storage", opt_storage o); (js "instanceId", opt_instanceId o); (js "root", opt_root o); (js "worm", opt_worm o);
    (js "wasm", opt_wasm o)] ++ [(js "request", r)])) = true)).
  done.
Qed.

Section Calling.
  Context {C : Type} `{HostedCoreReplies C, !HostedCoreEvents C}.

(** C5: a request sent through a worker settles with the core's answer: whatever the page
    did before and the worker served before, the promise of the request settles with what
    the core of the page's namespace answers to it, the events the request caused having
    been delivered first. *)
Theorem request_through_worker o before t r ms p ob s' : Forall Audience.sound ms -> truthy r = true ->
  let c := fold_left (op_step o) before new_client in
  let id := id_text t (S (sequence c)) in
  let message := payload o id [(js "request", r)] in
  let served := Audience.attend_all (C := C) ms in
  let '(k, c') := envelope o t r c in
  Runtime.core message served = (Ok ob, s') -> exists core0 core1 core2 response,
    Runtime.objects s' !! ob = Some core0 /\ core_ready core0 = (Ok (), core1) /\
    core_request r core1 = (Ok response, core2) /\
    settled (deliver p (drop (length (Runtime.outbox served)) (Runtime.outbox (Audience.attend served (p, message)))) c') !! k =
      Some (reply_outcome (Runtime.response_message message response)).
Proof.
  intros Hms Hr c id message served. unfold envelope. pose proof (awaits_sent o t [(js "request", r)] c (orderly_run o before)) as Ha.
  destruct (send o t [(js "request", r)] c) as [k c'] eqn:Es. injection Es as <- Ec. cbn [snd] in Ha. fold id in Ha. intros R.
  destruct (payload_request o id r) as (Hid & Hreq & Htype & Hnull). fold message in Hid, Hreq, Htype, Hnull.
  assert (Audience.is_request message = true) as His.
  { unfold Audience.is_request. cbn [forallb]. by rewrite Hnull, Htype, Hreq, Hr. }
  destruct (Audience.attend_all_tidy ms Hms) as [Hs _].
  destruct (Audience.attend_request served s' p message ob Hs His R) as (c0 & c1 & c2 & ds & s2 & l & v & Ho & R1 & R2 & Hev & _ & _ & _ & E & _).
  rewrite Hreq in R2. exists c0, c1, c2, v. split_and!; [done|done|done|]. rewrite E. cbn [Runtime.outbox Runtime.set_outbox].
  rewrite drop_app_length. unfold deliver. rewrite fold_left_app. fold (deliver p l c'). cbn [fold_left fst snd]. rewrite decide_True by done.
  destruct (response_plain _ _ _ _ R2) as [Hvid Hvty].
  pose proof (awaits_receive (Runtime.response_message message v) _ _ _ _ (awaits_events p l id _ c' Hev Ha)) as (_ & _ & Hset & _).
  rewrite Hset. cbn [first_reply]. replace (is_nullish (Runtime.response_message message v)) with false by done.
  replace (is_event (Runtime.response_message message v)) with false.
  2: { unfold is_event, Runtime.response_message. cbn [prop]. rewrite Answered.alist_get_assign by done. by vm_compute. }
  rewrite bool_decide_eq_true_2; [done|]. unfold reply_id, Runtime.response_message. cbn [prop].
  rewrite Answered.alist_get_assign by done. cbn [alist_get]. rewrite decide_True by done. by rewrite Hid.
Qed.

End Calling.

(** ** Witnesses *)

#[local] Existing Instance Hosted.memory_core.
#[local] Existing Instance Hosted.memory_core_replies.
#[local] Existing Instance Hosted.memory_core_events.

Definition page : options := mkOptions (VStr (js "app")) (VStr (js "memory")) VUndef VUndef VUndef (VBool true).
Definition reading : value := prop (Hosted.put_ann "9") (js "request").
Definition first_message : value := payload page (id_text 0 1) [(js "request", reading)].

Lemma page_core : exists ob s', Runtime.core first_message (Audience.attend_all Hosted.mornings) = (Ok ob, s').
Proof.
  destruct (Audience.attend_all_tidy Hosted.mornings Hosted.mornings_sound) as [Hs _].
  pose proof (Audience.tidy_core (Audience.attend_all Hosted.mornings) first_message Hs) as Hc.
  destruct (Runtime.core first_message (Audience.attend_all Hosted.mornings)) as [[o|e] s']; [by exists o, s'|].
  destruct Hc as [_ Hc]. vm_compute in Hc. discriminate Hc.
Qed.

Lemma request_through_worker_witness :
  let c := fold_left (op_step page) [] new_client in
  let '(k, c') := envelope page 0 reading c in
  exists response core0 core1 core2,
    core_ready core0 = (Ok (), core1) /\ core_request reading core1 = (Ok response, core2) /\
    settled (deliver 2 (drop (length (Runtime.outbox (Audience.attend_all Hosted.mornings)))
      (Runtime.outbox (Audience.attend (Audience.attend_all Hosted.mornings) (2, first_message)))) c') !! k =
      Some (reply_outcome (Runtime.response_message first_message response)).
Proof.
  destruct page_core as (ob & s' & R).
  destruct (request_through_worker page [] 0 reading Hosted.mornings 2 ob s' Hosted.mornings_sound eq_refl R)
    as (core0 & core1 & core2 & response & _ & R1 & R2 & Hset).
  exists response, core0, core1, core2. split; [exact R1|split; [exact R2|exact Hset]].
Defined.

End Client.
