(* ===== verification/Browser.v ===== *)
(** The page's runtime: [src/browser/fylo.js].  How a call of [FyloBrowser] or of a
    collection facade becomes a request of the protocol, on a core of the page's own or
    through a worker, and what comes back. *)

From stdpp Require Import gmap.
From S2P Require Import Prelude PathUtil JsNum JsValue Shard Codec Filesystem MemFs PrefixIndex IndexComplete.
From S2P Require Import Plan Query Documents Metadata Events Engine Lifecycle Protocol Worker Client.

Module Browser.
Import Plan.

(** * Which runtime *)

(** What the page's globals have. *)
Record globals := mkGlobals { has_window : bool; has_URL : bool; has_SharedWorker : bool; has_Worker : bool }.

Definition shouldUseWorker (g : globals) (requested : bool) : bool :=
  requested && has_window g && has_URL g && (has_SharedWorker g || has_Worker g).

Inductive worker_kind := Shared | Dedicated.
Definition createWorkerClient (g : globals) : outcome worker_kind :=
  if has_SharedWorker g then Ok Shared
  else if has_Worker g then Ok Dedicated
  else Throw (Error (js "FYLO browser workers are not available in this runtime")).

(** The fields the constructor sets before its proxy. *)
Record runtime_options := mkRuntimeOptions {
  rt_namespace : value; rt_root : value; rt_storage : Storage.NormalizedBrowserStorage;
  rt_worker : option (worker_kind * Client.options)
}.

(** [`${Date.now()}-${crypto.randomUUID?.() ?? Math.random()}`] *)
Definition instance_id (time : Z) (random : jstr) : jstr := Num.to_string (Num.of_Z time) ++ js "-" ++ random.

Definition FyloBrowser (g : globals) (time : Z) (random : jstr) (options : value) : outcome runtime_options :=
  let namespace := nullish (prop options (js "namespace")) (VStr (js "fylo")) in
  let root := nullish (prop options (js "root")) (VStr (js "/")) in
  let useWorker := shouldUseWorker g (truthy (nullish (prop options (js "worker")) (VBool true))) in
  storage ← Storage.normalizeBrowserStorage
              (nullish (prop options (js "storage")) (VStr (if useWorker then js "opfs" else js "memory")));
  if useWorker then
    kind ← createWorkerClient g;
    Ok (mkRuntimeOptions namespace root storage (Some (kind,
      Client.mkOptions namespace (Storage.storage_value storage)
        (match storage with Storage.Fsa _ _ => VStr (instance_id time random) | _ => VUndef end)
        root (prop options (js "worm")) (prop options (js "wasm")))))
  else Ok (mkRuntimeOptions namespace root storage None).

(** A page that wants a worker and can have one always gets one. *)
Lemma worker_available g : shouldUseWorker g true = true -> is_ok (createWorkerClient g) = true.
Proof. unfold shouldUseWorker, createWorkerClient. by destruct g as [[] [] [] []]. Qed.

(** ** Property names *)

(** [Object.getOwnPropertyNames(Object.prototype)] *)
Definition object_names : list jstr :=
  map js ["constructor"; "__defineGetter__"; "__defineSetter__"; "hasOwnProperty"; "__lookupGetter__";
          "__lookupSetter__"; "isPrototypeOf"; "propertyIsEnumerable"; "toString"; "valueOf"; "__proto__";
          "toLocaleString"]%string.
(** [Object.getOwnPropertyNames(FyloBrowser.prototype)] *)
Definition prototype_names : list jstr :=
  map js ["constructor"; "ready"; "close"; "createSqlTag"; "createCollectionProxy"; "_sql"; "request"; "dispatch";
          "createCollection"; "dropCollection"; "inspectCollection"; "rebuildCollection"; "getDoc"; "getLatest";
          "getDocMeta"; "setDocMetaRecord"; "findDocs"; "findDeletedDocs"; "join"; "putData"; "batchPutData";
          "patchDoc"; "patchDocs"; "delDoc"; "restoreDoc"; "delDocs"; "subscribe"]%string.
(** [Object.getOwnPropertyNames(this)] when the constructor reads it. *)
Definition own_names : list jstr := map js ["core"; "worker"; "namespace"; "root"; "storage"; "sql"]%string.

Inductive property := Member | CollectionFacade (name : jstr) | Absent.

(** The proxy the constructor returns, for a property named by a string. *)
Definition browser_property (name : jstr) : property :=
  if bool_decide (name ∈ map js ["then"; "constructor"; "prototype"]%string ++ object_names ++ prototype_names ++ own_names)
  then Member else CollectionFacade name.

(** [createCollectionProxy()]: its [get] and its [has]. *)
Definition collection_reserved (name : jstr) : bool :=
  bool_decide (name ∈ map js ["then"; "db"; "constructor"; "prototype"; "toString"; "valueOf"]%string ++
                      object_names ++ prototype_names ++ own_names).
Definition collection_property (name : jstr) : outcome property :=
  if collection_reserved name then Throw (Error (js "Collection name collides with reserved db property: " ++ name))
  else Ok (CollectionFacade name).
Definition collection_has (name : jstr) : bool := negb (collection_reserved name).

(** Collections that can be created and not reached: their names are valid, the
    runtime's property of that name is its own method or field, and [db]'s throws. *)
Theorem shadowed_collections name :
  name ∈ map js ["core"; "worker"; "namespace"; "root"; "storage"; "request"; "dispatch"; "subscribe"]%string ->
  Collection.validateCollectionName name = Ok () /\ browser_property name = Member /\ is_ok (collection_property name) = false.
Proof.
  intros Hin. repeat (apply elem_of_cons in Hin as [->|Hin]; [split_and!; by vm_compute|]). by apply elem_of_nil in Hin.
Qed.

Lemma shadowed_collections_witness :
  Collection.validateCollectionName (js "storage") = Ok () /\ browser_property (js "storage") = Member /\
  is_ok (collection_property (js "storage")) = false.
Proof. apply (shadowed_collections (js "storage")). do 4 right. by left. Defined.

(** Every other valid name is reached by its property. *)
Lemma reached_collections name : collection_has name = true -> browser_property name = CollectionFacade name /\ collection_property name = Ok (CollectionFacade name).
Proof.
  unfold collection_has, collection_property, browser_property. intros Hn%negb_true_iff. rewrite Hn. split; [|done].
  rewrite bool_decide_eq_false_2; [done|]. intros Hin. apply bool_decide_eq_false in Hn. apply Hn. revert Hin.
  rewrite !elem_of_app. intros [Hin|?]; [|tauto]. left. revert Hin. set_solver.
Qed.

End Browser.

(** * A put that takes its metadata later

    [browserMetadataPutOperation(write, writeMetadata)]: the write starts in a microtask
    after the first use, which is either an [await] or a call of [metadata]. *)

Module LazyPut.

Record state := mkState {
  metadata : value;
  hasMetadata : bool;
  (* [operation]: absent, to start, writing, settled *)
  operation : option (option (option (outcome value)));
  (* the arguments of the calls of [write] and [writeMetadata] *)
  writes : list (value * bool);
  metadata_writes : list value;
  (* the records of the calls of [metadata] that wait for the operation *)
  waiting : list value
}.

Definition new_put : state := mkState VUndef false None [] [] [].

Inductive event :=
| Then                                 (* [then], which [await] calls *)
| Metadata (record : value)            (* [metadata(record)] *)
| Microtask                            (* the start: [write(metadata, hasMetadata)] *)
| Written (result : outcome value)     (* the write settles *)
| Wake.                                (* the first waiting call of [metadata] goes on *)

(** [start()] *)
Definition start (s : state) : state :=
  mkState (metadata s) (hasMetadata s) (match operation s with None => Some None | o => o end)
    (writes s) (metadata_writes s) (waiting s).

Definition step (s : state) (e : event) : state :=
  match e with
  | Then => start s
  | Metadata record =>
      match operation s with
      | None => start (mkState record true None (writes s) (metadata_writes s) (waiting s))
      | Some _ => mkState (metadata s) (hasMetadata s) (operation s) (writes s) (metadata_writes s) (waiting s ++ [record])
      end
  | Microtask =>
      match operation s with
      | Some None => mkState (metadata s) (hasMetadata s) (Some (Some None)) (writes s ++ [(metadata s, hasMetadata s)])
                       (metadata_writes s) (waiting s)
      | _ => s
      end
  | Written result =>
      match operation s with
      | Some (Some None) => mkState (metadata s) (hasMetadata s) (Some (Some (Some result))) (writes s) (metadata_writes s) (waiting s)
      | _ => s
      end
  | Wake =>
      match operation s, waiting s with
      | Some (Some (Some (Ok _))), record :: rest =>
          mkState (metadata s) (hasMetadata s) (operation s) (writes s) (metadata_writes s ++ [record]) rest
      | Some (Some (Some (Throw _))), record :: rest =>
          mkState (metadata s) (hasMetadata s) (operation s) (writes s) (metadata_writes s) rest
      | _, _ => s
      end
  end.

Definition run (es : list event) : state := fold_left step es new_put.

(** The specification: the first use decides what the document is written with, and the
    records of later calls are written after it. *)
Fixpoint first_use (es : list event) : option (value * bool) :=
  match es with
  | [] => None
  | Then :: _ => Some (VUndef, false)
  | Metadata record :: _ => Some (record, true)
  | _ :: rest => first_use rest
  end.
Fixpoint later_records (es : list event) : list value :=
  match es with
  | [] => []
  | Then :: rest | Metadata _ :: rest => omap (fun e => match e with Metadata record => Some record | _ => None end) rest
  | _ :: rest => later_records rest
  end.

Definition records_of (es : list event) : list value :=
  omap (fun e => match e with Metadata record => Some record | _ => None end) es.

(** After the first use [use], with the later records so far. *)
Record used (use : value * bool) (later : list value) (s : state) : Prop := {
  used_values : (metadata s, hasMetadata s) = use;
  used_started : operation s <> None;
  used_writes : writes s = match operation s with Some (Some _) => [use] | _ => [] end;
  used_later : match operation s with
               | Some (Some (Some (Ok _))) => metadata_writes s ++ waiting s = later
               | Some (Some (Some (Throw _))) => metadata_writes s = [] /\ exists gone, later = gone ++ waiting s
               | _ => metadata_writes s = [] /\ waiting s = later
               end
}.

Lemma used_step use later s e : used use later s ->
  used use (later ++ records_of [e]) (step s e).
Proof.
  destruct s as [m h op ws mws wt]. intros [Hv Hs Hw Hl].
  cbn [metadata hasMetadata operation writes metadata_writes waiting] in *.
  destruct e as [|record| |result|];
    cbn [records_of omap list_omap step start metadata hasMetadata operation writes metadata_writes waiting]; rewrite ?app_nil_r.
  - by destruct op; split.
  - destruct op as [o|]; [|done]. split; cbn; [done|done|done|].
    destruct o as [[[a|e]|]|]; [by rewrite app_assoc, Hl|destruct Hl as [-> [g ->]]; split; [done|by exists g; rewrite app_assoc]|..];
      destruct Hl as [-> ->]; done.
  - destruct op as [[o|]|]; [by split| |done]. split; cbn; [done|done| |done]. by rewrite Hw, Hv.
  - destruct op as [[[o|]|]|]; [by split| |by split|done]. split; cbn; [done|done|done|].
    destruct Hl as [-> ->]. destruct result; [done|]. split; [done|]. by exists [].
  - destruct op as [[[[a|e]|]|]|]; try (by split).
    + destruct wt as [|r rest]; [by split|]. split; cbn; [done|done|done|]. by rewrite <- app_assoc.
    + destruct wt as [|r rest]; [by split|]. split; cbn; [done|done|done|].
      destruct Hl as [-> [g ->]]. split; [done|]. exists (g ++ [r]). by rewrite <- app_assoc.
Qed.

Lemma used_run use es later s : used use later s -> used use (later ++ records_of es) (fold_left step es s).
Proof.
  revert later s. induction es as [|e es IH]; intros later s Hs; [by rewrite app_nil_r|]. cbn [fold_left].
  change (e :: es) with ([e] ++ es). unfold records_of at 1. rewrite omap_app, app_assoc. by apply IH, used_step.
Qed.

Lemma run_uses es : match first_use es with
  | None => run es = new_put
  | Some use => used use (later_records es) (run es)
  end.
Proof.
  unfold run. induction es as [|e es IH]; [done|]. cbn [first_use later_records fold_left].
  destruct e as [|record| |result|]; cbn [step new_put start operation]; try exact IH.
  - apply (used_run (VUndef, false) es []). by split.
  - apply (used_run (record, true) es []). by split.
Qed.

(** A put is written at most once, whatever its uses and when its promises settle: not
    before it is used; with the record of its first use when that is a call of [metadata]
    and without one otherwise.  The records of later calls are written, in order, after
    the document was, and none of them when it could not be. *)
Theorem put_is_written_once es :
  let s := run es in
  match first_use es with
  | None => writes s = [] /\ metadata_writes s = []
  | Some use =>
      (writes s = [] \/ writes s = [use]) /\
      match operation s with
      | Some (Some (Some (Ok _))) => writes s = [use] /\ metadata_writes s ++ waiting s = later_records es
      | _ => metadata_writes s = []
      end
  end.
Proof.
  cbv zeta. pose proof (run_uses es) as Hu. destruct (first_use es) as [use|]; [|by rewrite Hu].
  destruct Hu as [_ Hs Hw Hl]. rewrite Hw. destruct (operation (run es)) as [[[[a|e]|]|]|]; cbn in *.
  all: split; [first [by left|by right]|]; first [by destruct Hl|done].
Qed.

End LazyPut.

(** * Calls as requests *)

Module Calls.
Import Plan Protocol.

Definition asking (op : string) (fields : object) : value := VObj ((js "op", VStr (js op)) :: fields).
Definition on_collection (collection : jstr) : object := [(js "collection", VStr collection)].
Definition on_document (collection id : jstr) : object := on_collection collection ++ [(js "id", VStr id)].

(** The request each method dispatches. *)
Definition ask_sql (statement : jstr) : value := asking "executeSQL" [(js "sql", VStr statement)].
Definition ask_createCollection (c : jstr) : value := asking "createCollection" (on_collection c).
Definition ask_dropCollection (c : jstr) : value := asking "dropCollection" (on_collection c).
Definition ask_inspectCollection (c : jstr) : value := asking "inspectCollection" (on_collection c).
Definition ask_rebuildCollection (c : jstr) : value := asking "rebuildCollection" (on_collection c).
Definition ask_getDoc (c id : jstr) (onlyId : bool) : value := asking "getDoc" (on_document c id ++ [(js "onlyId", VBool onlyId)]).
Definition ask_getLatest (c id : jstr) (onlyId : bool) : value := asking "getLatest" (on_document c id ++ [(js "onlyId", VBool onlyId)]).
Definition ask_getDocMeta (c id : jstr) : value := asking "getMeta" (on_document c id).
Definition ask_setDocMetaRecord (c id : jstr) (meta : value) : value := asking "setMeta" (on_document c id ++ [(js "meta", meta)]).
Definition ask_findDocs (c : jstr) (query : value) : value := asking "findDocs" (on_collection c ++ [(js "query", query)]).
Definition ask_findDeletedDocs (c : jstr) (query : value) : value := asking "findDeletedDocs" (on_collection c ++ [(js "query", query)]).
Definition ask_join (j : value) : value := asking "joinDocs" [(js "join", j)].
(** [putData(collection, data, meta, metaPresent)]: [Some meta] when it is present. *)
Definition ask_putData (c : jstr) (data : value) (meta : option value) : value :=
  asking "putData" (on_collection c ++ [(js "data", data)] ++ match meta with Some m => [(js "meta", m)] | None => [] end).
Definition ask_batchPutData (c : jstr) (batch : list value) : value := asking "batchPutData" (on_collection c ++ [(js "batch", VArr batch)]).
Definition ask_patchDoc (c : jstr) (newDoc oldDoc : value) : value :=
  asking "patchDoc" (on_collection c ++ [(js "newDoc", newDoc); (js "oldDoc", oldDoc)]).
Definition ask_patchDocs (c : jstr) (update : value) : value := asking "patchDocs" (on_collection c ++ [(js "update", update)]).
Definition ask_delDoc (c id : jstr) : value := asking "delDoc" (on_document c id).
Definition ask_restoreDoc (c id : jstr) : value := asking "restoreDoc" (on_document c id).
Definition ask_delDocs (c : jstr) (query : value) : value := asking "delDocs" (on_collection c ++ [(js "delete", query)]).

(** ** What comes back *)

Definition NOT_FOUND : jstr := js "FYLO_COLLECTION_NOT_FOUND".
Definition not_found_prefix : jstr := js "Collection not found: ".

(** [message.replace(/^Collection not found: /, '')] *)
Definition strip_prefix (message : jstr) : jstr :=
  if starts_with not_found_prefix message then drop (length not_found_prefix) message else message.

Definition browserProtocolError (error : value) : js_error :=
  if negb (is_objectlike error) then Error (js "Unknown browser protocol error")
  else if Storage.is_text (prop error (js "code")) NOT_FOUND then
    Collection.CollectionNotFoundError
      (match prop error (js "message") with VStr m => strip_prefix m | _ => [] end)
  else
    JsError (match prop error (js "name") with VStr n => n | _ => js "Error" end)
      (match prop error (js "message") with VStr m => m | _ => js "Request failed" end) None.

(** [dispatch] on a core of the page's own, once the response is there. *)
Definition local_result (response : value) : outcome value :=
  if truthy (prop response (js "ok")) then Ok (prop response (js "result"))
  else Throw (browserProtocolError (prop response (js "error"))).

(** [dispatch] through a worker: what the page makes of the message that answers. *)
Definition remote_result (envelope response : value) : outcome value :=
  Client.request_result (Client.reply_outcome (Runtime.response_message envelope response)).

(** [findDocs(...)] and [findDeletedDocs(...)] through a worker: the values the iterator
    yields. *)
Definition remote_rows (docs : value) : list value :=
  match docs with
  | VArr ids => ids
  | _ => map (fun kv => VObj [(fst kv, snd kv)]) (entries docs)
  end.

(** [getDoc(...)] through a worker: whether its iterator yields the document. *)
Definition yields_doc (doc : value) : bool :=
  truthy doc && match doc with VStr _ => true | _ => 0 <? length (entries doc) end.

Section Local.
  Context {S : Type} `{FyloSurface S, Clock S}.
  Context (inherited : jstr -> option (value -> M S value)).

Definition dispatch (request : value) : M S value :=
  response ← Protocol.runBrowserRequest inherited request; lift (local_result response).

(** The instance itself as the surface of [request(request)]: its methods dispatch, its
    readers go to the core, and it has no method [executeSQL], so that property is a
    collection's facade, which cannot be called. *)
Definition text_result (v : value) : value := match v with VStr _ => v | _ => VStr (to_str (prop v (js "id"))) end.
#[local] Instance browser_surface : FyloSurface S := {
  executeSQL sql := throw (type_error (js "fylo.executeSQL is not a function"));
  createCollection c := _ ← dispatch (ask_createCollection c); mret ();
  dropCollection c := _ ← dispatch (ask_dropCollection c); mret ();
  inspectCollection c := dispatch (ask_inspectCollection c);
  rebuildCollection c := dispatch (ask_rebuildCollection c);
  getDoc_once c id onlyId := Protocol.getDoc_once c id onlyId;
  getLatest c id onlyId := dispatch (ask_getLatest c id onlyId);
  getDocMeta c id := dispatch (ask_getDocMeta c id);
  setDocMetaRecord c id meta := dispatch (ask_setDocMetaRecord c id (VObj meta));
  findDocs_collect c query := Protocol.findDocs_collect c query;
  findDeletedDocs_collect c query := Protocol.findDeletedDocs_collect c query;
  join j := dispatch (ask_join (VObj j));
  putData c data meta := dispatch (ask_putData c (VObj data) (VObj <$> meta));
  batchPutData c batch := dispatch (ask_batchPutData c (map VObj batch));
  patchDoc c newDoc oldDoc := dispatch (ask_patchDoc c (VObj newDoc) (VObj oldDoc));
  patchDocs c update := dispatch (ask_patchDocs c (VObj update));
  delDoc c id := _ ← dispatch (ask_delDoc c id); mret ();
  restoreDoc c id := text_result <$> dispatch (ask_restoreDoc c id);
  delDocs c query := dispatch (ask_delDocs c (VObj query))
}.

(** [request(request)] *)
Definition request (r : value) : M S value := Protocol.runBrowserRequest (H := browser_surface) inherited r.

End Local.

(** ** A collection's facade *)

(** [put(dataOrId, data)] by the first argument and the number of arguments. *)
Inductive put_call :=
| PutMetadata (id : jstr)
| PutLater (id : jstr) (data : value)
| PutNow (data : value).
Definition facade_put (dataOrId : value) (arguments : nat) (data : value) : put_call :=
  match dataOrId with
  | VStr id => if arguments =? 1 then PutMetadata id else PutLater id data
  | _ => PutNow dataOrId
  end.

(** The requests of a facade's put: its [write] and its [writeMetadata]. *)
Definition put_write (c id : jstr) (data record : value) (present : bool) : value :=
  ask_putData c (VObj [(id, data)]) (if present then Some record else None).
Definition put_writeMetadata (c id : jstr) (record : value) : value := ask_setDocMetaRecord c id record.
Definition facade_patch (c id : jstr) (patchData oldDoc : value) : value :=
  ask_patchDoc c (VObj [(id, patchData)]) (match oldDoc with VUndef => VObj [] | v => v end).

(** ** The requests fit the protocol *)

Definition solid (name : jstr) : bool := negb (bool_decide (trim name = [])).
Definition all_records (l : list value) : bool := forallb isRecord l.

(** Every method of the runtime asks for an operation the protocol knows, under the
    field names its handler reads: with names that are not blank and records where records
    are due, no request of the runtime is refused for its form. *)
Theorem requests_fit_the_protocol c id statement (a b : object) (meta : option object) batch onlyId :
  solid c = true -> solid id = true -> solid statement = true -> all_records batch = true ->
  Forall (fun r => accepted r = true)
    [ask_sql statement; ask_createCollection c; ask_dropCollection c; ask_inspectCollection c; ask_rebuildCollection c;
     ask_getDoc c id onlyId; ask_getLatest c id onlyId; ask_getDocMeta c id; ask_setDocMetaRecord c id (VObj a);
     ask_findDocs c (VObj a); ask_findDeletedDocs c (VObj a); ask_join (VObj a); ask_putData c (VObj a) (VObj <$> meta);
     ask_batchPutData c batch; ask_patchDoc c (VObj a) (VObj b); ask_patchDocs c (VObj a); ask_delDoc c id;
     ask_restoreDoc c id; ask_delDocs c (VObj a);
     put_write c id (VObj a) (VObj b) true; facade_patch c id (VObj a) VUndef].
Proof.
  unfold solid, all_records. intros Hc Hid Hs Hb. apply negb_true_iff in Hc, Hid, Hs.
  destruct meta as [m|]; repeat apply Forall_cons_2; try apply Forall_nil_2;
    cbv -[trim bool_decide] in Hc, Hid, Hs, Hb |- *; rewrite ?Hc, ?Hid, ?Hs, ?Hb; reflexivity.
Qed.

(** ** Errors on their way to the caller *)

Lemma strip_not_found c : strip_prefix (not_found_prefix ++ c) = c.
Proof. unfold strip_prefix. rewrite starts_with_app. by rewrite drop_app_length. Qed.

(** The error a caller sees for an error of the core. *)
Definition carried (e : js_error) : js_error := browserProtocolError (error_value e).

Lemma carried_not_found c : carried (Collection.CollectionNotFoundError c) = Collection.CollectionNotFoundError c.
Proof.
  unfold carried, browserProtocolError. change (prop (error_value _) (js "code")) with (VStr NOT_FOUND).
  change (prop (error_value _) (js "message")) with (VStr (not_found_prefix ++ c)). cbn [is_objectlike error_value negb].
  replace (Storage.is_text (VStr NOT_FOUND) NOT_FOUND) with true by (by vm_compute). by rewrite strip_not_found.
Qed.

Lemma carried_other e : err_code e <> Some NOT_FOUND ->
  carried e = JsError (non_empty_or (err_name e) (js "Error")) (non_empty_or (err_message e) (js "Unknown error")) None.
Proof.
  intros Hc. unfold carried, browserProtocolError. cbn [is_objectlike error_value negb].
  replace (Storage.is_text (prop (error_value e) (js "code")) NOT_FOUND) with false; [done|].
  symmetry. unfold Storage.is_text. apply bool_decide_eq_false. intros E. apply Hc. revert E.
  unfold error_value. destruct (err_code e) as [code|]; [|done]. by intros [= ->].
Qed.

Section Transparent.
  Context {S : Type} `{FyloSurface S, Clock S}.
  Context (inherited : jstr -> option (value -> M S value)).

(** A call on a core of the page's own is the operation itself: it throws exactly when
    the operation throws and returns the operation's result otherwise; a missing
    collection's error comes back as it was thrown, any other error keeps its name and its
    message and loses its code. *)
Theorem dispatch_is_the_operation r s : (forall s : S, exists t s', now s = (Ok t, s')) ->
  exists t s1 s', now s = (Ok t, s1) /\
  match fst (executeBrowserOperation inherited r s1) with
  | Ok v => dispatch inherited r s = (Ok v, s')
  | Throw e => dispatch inherited r s = (Throw (carried e), s')
  end /\
  (forall c, carried (Collection.CollectionNotFoundError c) = Collection.CollectionNotFoundError c) /\
  (forall e, err_code e <> Some NOT_FOUND ->
     carried e = JsError (non_empty_or (err_name e) (js "Error")) (non_empty_or (err_message e) (js "Unknown error")) None).
Proof.
  intros Hclock. destruct (Hclock s) as (t & s1 & R1). unfold dispatch, runBrowserRequest.
  destruct (executeBrowserOperation inherited r s1) as [[v|e] s2] eqn:R2; destruct (Hclock s2) as (u & s3 & R3);
    exists t, s1, s3; (split_and!; [done| |apply carried_not_found|apply carried_other]); cbn [fst];
    unfold mbind, M_bind, try_catch; by rewrite R1, R2, R3.
Qed.

(** The instance's own [request] cannot run SQL on a core of the page's own: such a
    request is answered as failed, whatever its statement, and the core is not called. *)
Theorem request_refuses_sql statement s : solid statement = true -> (forall s : S, exists t s', now s = (Ok t, s')) ->
  exists v t s1 u s', now s = (Ok t, s1) /\ now s1 = (Ok u, s') /\ request inherited (ask_sql statement) s = (Ok v, s') /\
    prop v (js "ok") = VBool false /\ prop (prop v (js "error")) (js "message") = VStr (js "fylo.executeSQL is not a function").
Proof.
  intros Hs Hclock. destruct (Hclock s) as (t & s1 & R1). destruct (Hclock s1) as (u & s' & R2).
  eexists _, t, s1, u, s'. split_and!; [done|done| | |].
  - unfold request, runBrowserRequest, mbind, M_bind. rewrite R1. unfold try_catch.
    assert (executeBrowserOperation (H := browser_surface inherited) inherited (ask_sql statement) s1 =
            (Throw (type_error (js "fylo.executeSQL is not a function")), s1)) as ->.
    { unfold executeBrowserOperation. replace (isBrowserRequest (ask_sql statement)) with true by done. cbn [negb].
      replace (to_str (prop (ask_sql statement) (js "op"))) with (js "executeSQL") by done. unfold handler_of, BROWSER_OPERATIONS.
      cbn [alist_get]. rewrite decide_True by done. unfold requireString. change (prop (ask_sql statement) (js "sql")) with (VStr statement).
      cbn match. unfold solid in Hs. apply negb_true_iff in Hs. by rewrite Hs. }
    rewrite R2. reflexivity.
  - done.
  - done.
Qed.

End Transparent.

(** Through a worker a failure keeps its message and loses the rest: where a core of
    the page's own throws the missing collection's error with its name and its code, the
    page that has a worker sees a plain error; successful answers are the same. *)
Theorem worker_loses_error_codes envelope r d c result :
  local_result (success_response r d result) = Ok result /\
  remote_result envelope (success_response r d result) = Ok result /\
  local_result (error_response r d (Collection.CollectionNotFoundError c)) = Throw (Collection.CollectionNotFoundError c) /\
  remote_result envelope (error_response r d (Collection.CollectionNotFoundError c)) = Throw (Error (not_found_prefix ++ c)).
Proof.
  assert (forall v, ordered_keys (js "id" :: keys (entries v)) = true -> forall k, k <> js "id" ->
    prop (Runtime.response_message envelope v) k = prop (VObj (entries v)) k) as Hprop.
  { intros v Hv k Hk. unfold Runtime.response_message, obj_assign.
    rewrite (fold_obj_set_append (entries v) [(js "id", prop envelope (js "id"))] Hv). cbn [app prop alist_get]. by rewrite decide_False. }
  unfold remote_result, Client.request_result, Client.reply_outcome.
  split_and!; [done| | |].
  - rewrite Hprop; [|by vm_compute|by vm_compute]. cbn [entries success_response].
    change (prop (VObj _) (js "ok")) with (VBool true). cbn match. cbn [mbind outcome_bind].
    rewrite !Hprop; by vm_compute.
  - unfold local_result. change (prop (error_response r d _) (js "ok")) with (VBool false). cbn [truthy].
    change (prop (error_response r d _) (js "error")) with (error_value (Collection.CollectionNotFoundError c)).
    exact (f_equal Throw (carried_not_found c)).
  - rewrite !Hprop by by vm_compute. cbn [entries error_response].
    change (prop (VObj _) (js "ok")) with (VBool false). cbn match. cbn [mbind outcome_bind].
    change (prop (VObj _) (js "error")) with (error_value (Collection.CollectionNotFoundError c)).
    change (prop (error_value _) (js "message")) with (VStr (not_found_prefix ++ c)). done.
Qed.

(** ** Rows through a worker *)

(** The rows of a search without grouping: one record per document. *)
Definition row (kv : jstr * object) : value := VObj [(fst kv, VObj (snd kv))].

Lemma append_row (acc : object) (kv : jstr * object) (rest : list jstr) :
  ordered_keys (keys acc ++ fst kv :: rest) = true -> ordered_keys (keys (snd kv)) = true ->
  Extensions.appendGroup (VObj acc) (row kv) = Ok (VObj (acc ++ [(fst kv, VObj (snd kv))])).
Proof.
  intros Hacc Hdoc. unfold Extensions.appendGroup, row. cbn [entries Codec.fold_outcome].
  rewrite copySafeRecord_id by by apply ordered_keys_app_l in Hacc.
  destruct (ordered_keys_mid _ _ _ Hacc) as [Hni _].
  unfold Extensions.append_step at 1. assert (alist_get (fst kv) acc = None) as -> by (by apply alist_get_None).
  rewrite copySafeRecord_id by done. cbn [mbind outcome_bind fmap outcome_fmap].
  assert (exists r : object, keys r = rest) as [r Er].
  { exists (map (fun k => (k, VUndef)) rest). unfold keys. rewrite map_map. apply map_id. }
  by rewrite (obj_set_last (fst kv) (VObj (snd kv)) acc r) by by rewrite Er.
Qed.

(** What a page with a worker iterates over is what the core found: the documents, or
    the identifiers where only they were asked for, each once and in the order of the
    search (identifiers that are integers, which no document has, would come first). *)
Theorem rows_survive_the_worker query (rows : list (jstr * object)) (ids : list jstr) :
  ordered_keys (keys rows) = true -> Forall (fun kv => ordered_keys (keys (snd kv)) = true) rows ->
  (truthy (prop (VObj query) (js "$onlyIds")) = false ->
     exists docs, gather query (map row rows) = Ok docs /\ remote_rows docs = map row rows) /\
  (truthy (prop (VObj query) (js "$onlyIds")) = true ->
     exists docs, gather query (map VStr ids) = Ok docs /\ remote_rows docs = map VStr ids).
Proof.
  intros Hkeys Hdocs. unfold gather. split; intros Hids; rewrite Hids.
  - exists (VObj (map (fun kv => (fst kv, VObj (snd kv))) rows)). split; [|cbn [remote_rows entries]; by rewrite map_map].
    assert (forall acc : object, ordered_keys (keys acc ++ keys rows) = true ->
      Codec.fold_outcome (fun docs v => if is_undef v then Ok docs else Engine.gather_row docs v) (VObj acc) (map row rows) =
      Ok (VObj (acc ++ map (fun kv => (fst kv, VObj (snd kv))) rows))) as Hgo; [|by apply (Hgo [])].
    clear Hkeys. induction Hdocs as [|kv rows Hkv Hdocs IH]; intros acc Hacc; [by rewrite app_nil_r|].
    cbn [map Codec.fold_outcome]. change (keys (kv :: rows)) with (fst kv :: keys rows) in Hacc.
    change (if is_undef (row kv) then _ else _) with (Extensions.appendGroup (VObj acc) (row kv)).
    rewrite (append_row acc kv (keys rows) Hacc Hkv). cbn [mbind outcome_bind]. rewrite IH.
    + by rewrite <- app_assoc.
    + unfold keys in *. rewrite map_app, <- app_assoc. exact Hacc.
  - exists (VArr (map VStr ids)). split; [|done].
    assert (forall acc, Codec.fold_outcome (fun docs v => if is_undef v then Ok docs else Engine.gather_row docs v) (VArr acc) (map VStr ids) =
      Ok (VArr (acc ++ map VStr ids))) as Hgo; [|by apply (Hgo [])].
    induction ids as [|i ids IH]; intros acc; [by rewrite app_nil_r|]. cbn [map Codec.fold_outcome is_undef Engine.gather_row is_objectlike to_str].
    cbn [mbind outcome_bind]. rewrite IH. by rewrite <- app_assoc.
Qed.

(** ** Witnesses *)

#[local] Existing Instance Lifecycle.noon_fs.
#[local] Existing Instance Lifecycle.noon_clock.
#[local] Existing Instance Lifecycle.noon_performance.
#[local] Instance page_clock : Clock (Engine.core MemFs.state) := core_clock.
#[local] Instance page_surface : FyloSurface (Engine.core MemFs.state) :=
  core_surface Complete.length_digest None (Lifecycle.root_path []) false.
Definition nothing : jstr -> option (value -> M (Engine.core MemFs.state) value) := fun _ => None.

Lemma page_clock_runs (s : Engine.core MemFs.state) : exists t s', now s = (Ok t, s').
Proof. eexists _, _. reflexivity. Qed.

Lemma requests_fit_the_protocol_witness :
  accepted (ask_delDocs (js "people") (VObj [])) = true.
Proof.
  assert (Forall (fun r => accepted r = true) _) as Hall
    by exact (requests_fit_the_protocol (js "people") Lifecycle.ann_id (js "SELECT * FROM people") [] [] None [VObj []] false
                eq_refl eq_refl eq_refl eq_refl).
  do 18 (apply Forall_cons in Hall as [_ Hall]). by apply Forall_cons in Hall as [Hall _].
Defined.

Lemma dispatch_is_the_operation_witness :
  exists t s1 s', now Lifecycle.people_core = (Ok t, s1) /\
  match fst (executeBrowserOperation nothing (ask_inspectCollection (js "people")) s1) with
  | Ok v => dispatch nothing (ask_inspectCollection (js "people")) Lifecycle.people_core = (Ok v, s')
  | Throw e => dispatch nothing (ask_inspectCollection (js "people")) Lifecycle.people_core = (Throw (carried e), s')
  end.
Proof.
  destruct (dispatch_is_the_operation nothing (ask_inspectCollection (js "people")) Lifecycle.people_core page_clock_runs)
    as (t & s1 & s' & R & Hd & _).
  by exists t, s1, s'.
Defined.

Lemma request_refuses_sql_witness : exists v s',
  request nothing (ask_sql (js "SELECT * FROM people")) Lifecycle.people_core = (Ok v, s') /\ prop v (js "ok") = VBool false.
Proof.
  destruct (request_refuses_sql nothing (js "SELECT * FROM people") Lifecycle.people_core eq_refl page_clock_runs)
    as (v & t & s1 & u & s' & _ & _ & R & Hok & _).
  by exists v, s'.
Defined.

Lemma rows_survive_the_worker_witness :
  exists docs, gather [] (map row [(Lifecycle.ann_id, Lifecycle.ann)]) = Ok docs /\
    remote_rows docs = map row [(Lifecycle.ann_id, Lifecycle.ann)].
Proof.
  apply (rows_survive_the_worker [] [(Lifecycle.ann_id, Lifecycle.ann)] []).
  - by vm_compute.
  - apply Forall_cons_2; [by vm_compute|by apply Forall_nil_2].
  - by vm_compute.
Defined.

End Calls.
