(* ===== verification/Direct.v ===== *)
(** The root-level browser client: [src/browser/client.js], on top of a browser runtime, which
    is an interface; the runtime of [Browser] on a core of the page's own implements it, and
    the client implements what the bridge of [Mobile] calls. *)

From stdpp Require Import gmap.
From S2P Require Import Prelude PathUtil JsNum JsValue Json Shard Filesystem MemFs IndexComplete Engine Lifecycle Protocol Browser Mobile.

Module Direct.
Import Browser.Browser.

Definition RESERVED : list jstr := map js
  ["then"; "browser"; "collection"; "configure"; "close"; "ready"; "request"; "sql"; "_sql"; "inspect"; "rebuild"; "create"; "drop";
   "toString"; "valueOf"; "constructor"; "prototype"]%string.

(** [normalizeOptions(options)]; [has_opfs] is [hasOpfs(globalThis.navigator)]. *)
Definition normalizeOptions (has_opfs has_window : bool) (options : object) : object :=
  let given name := default VUndef (alist_get (js name) options) in
  let storage := if is_nullish (given "storage"%string) then VStr (js (if has_opfs then "opfs" else "memory")%string) else given "storage"%string in
  let worker := if is_nullish (given "worker"%string) then VBool has_window else given "worker"%string in
  obj_set (js "worker") worker (obj_set (js "storage") storage options).

(** *** Names on the client *)

(** The client's own fields, and the methods of [BrowserFyloClient.prototype]. *)
Definition client_fields : list jstr := map js ["options"; "browser"; "readyPromise"; "collections"; "sql"]%string.
Definition client_methods : list jstr := map js
  ["constructor"; "ready"; "close"; "_sql"; "request"; "collection"; "createCollection"; "dropCollection"; "inspectCollection"; "rebuildCollection"]%string.
Definition in_target (name : jstr) : bool := bool_decide (name ∈ client_fields ++ client_methods ++ object_names).

(** [get] and [has] of the proxy, for a name that is a string. *)
Definition client_property (name : jstr) : property :=
  if bool_decide (name ∈ RESERVED) || in_target name then Member else CollectionFacade name.
Definition client_has (name : jstr) : bool := negb (bool_decide (name ∈ RESERVED)) || in_target name.

(** What [createBrowserFylo(options)] gave. *)
Class Runtime (S : Type) := {
  browser_ready : M S ();
  browser_close : M S ();
  browser_request : value -> M S value;
  browser_sql : jstr -> M S value;
  browser_createCollection : jstr -> M S ();
  browser_dropCollection : jstr -> M S ();
  browser_inspectCollection : jstr -> M S value;
  browser_rebuildCollection : jstr -> M S value
}.

Record client (S : Type) := mkClient { browser : S; readyPromise : option (outcome ()); collections : list jstr }.
Arguments mkClient {S}. Arguments browser {S}. Arguments readyPromise {S}. Arguments collections {S}.

(** [{ op, collection, ...fields }] *)
Definition asked (op collection : jstr) (fields : object) : value :=
  VObj (obj_assign [(js "op", VStr op); (js "collection", VStr collection)] fields).

(** What is made of a response. *)
Definition response_result (fallback : string) (res : value) : outcome value :=
  if truthy (prop res (js "ok")) then Ok (prop res (js "result"))
  else
    let message := prop (prop res (js "error")) (js "message") in
    Throw (Error (if is_nullish message then js fallback else to_str message)).

(** The rows of [collect()] of a search, and of a search of deleted documents. *)
Definition row (kv : jstr * value) : value := VObj [kv].
Definition active_rows (docs : value) : list value :=
  match docs with VArr ids => ids | VObj o => map row o | _ => [] end.
Definition deleted_rows (docs : value) : list value :=
  match docs with VArr _ | VObj _ => map row (entries docs) | _ => [] end.
Definition yields (doc : value) : bool := is_objectlike doc && (0 <? length (entries doc)).

Section Client.
  Context {S : Type} `{Runtime S}.

Abbreviation state := (client S) (only parsing).

Definition on_browser {A} (m : M S A) : M state A := fun s => let '(r, b) := m (browser s) in (r, mkClient b (readyPromise s) (collections s)).

(** [this.readyPromise ??= this.browser.ready(); await this.readyPromise] *)
Definition ready : M state () :=
  s ← get;
  match readyPromise s with
  | Some settled => lift settled
  | None => fun s =>
      let '(r, b) := browser_ready (browser s) in
      (r, mkClient b (Some r) (collections s))
  end.
Definition close : M state () := on_browser browser_close.
Definition _sql (statement : jstr) : M state value := _ ← ready; on_browser (browser_sql statement).
Definition request (r : value) : M state value := _ ← ready; on_browser (browser_request r).
Definition collection (name : jstr) : M state () :=
  modify (fun s => if bool_decide (name ∈ collections s) then s else mkClient (browser s) (readyPromise s) (collections s ++ [name])).
Definition createCollection (c : jstr) : M state () := _ ← ready; on_browser (browser_createCollection c).
Definition dropCollection (c : jstr) : M state () := _ ← ready; on_browser (browser_dropCollection c).
Definition inspectCollection (c : jstr) : M state value := _ ← ready; on_browser (browser_inspectCollection c).
Definition rebuildCollection (c : jstr) : M state value := _ ← ready; on_browser (browser_rebuildCollection c).

(** *** A collection's facade *)

Definition req (c : jstr) (op : string) (fields : list (string * value)) : M state value :=
  _ ← ready;
  res ← request (asked (js op) c (map (fun f => (js (fst f), snd f)) fields));
  lift (response_result "browser request failed" res).

Definition create (c : jstr) : M state value := _ ← createCollection c; mret VUndef.
Definition drop (c : jstr) : M state value := _ ← dropCollection c; mret VUndef.
Definition inspect : jstr -> M state value := inspectCollection.
Definition rebuild : jstr -> M state value := rebuildCollection.

(** [put(dataOrId, data)] and what its result does: the metadata of a document, a write that
    starts later (see [LazyPut]) or a write at once. *)
Definition put (dataOrId : value) (arguments : nat) (data : value) : Calls.put_call := Calls.facade_put dataOrId arguments data.
(** The operation of a write that starts later: the same as the facade's of [Browser]. *)
Definition directMetadataPutOperation : list LazyPut.event -> LazyPut.state := LazyPut.run.
Definition put_now (c : jstr) (data : value) : M state value := req c "putData" [("data"%string, data)].
Definition put_metadata (c id : jstr) (record : value) : M state value := req c "setMeta" [("id"%string, VStr id); ("meta"%string, record)].
Definition put_write (c id : jstr) (data record : value) (present : bool) : M state value :=
  req c "putData" (("data"%string, VObj [(id, data)]) :: if present then [("meta"%string, record)] else []).
Definition put_writeMetadata (c id : jstr) (record : value) : M state value := _ ← put_metadata c id record; mret (VStr id).

Definition batchPut (c : jstr) (batch : value) : M state value := req c "batchPutData" [("batch"%string, batch)].
Definition patch (c id : jstr) (patch oldDoc : value) : M state value :=
  req c "patchDoc" [("newDoc"%string, VObj [(id, patch)]); ("oldDoc"%string, if is_undef oldDoc then VObj [] else oldDoc)].
Definition patchMany (c : jstr) (update : value) : M state value := req c "patchDocs" [("update"%string, update)].
Definition delete (c id : jstr) : M state value := _ ← req c "delDoc" [("id"%string, VStr id)]; mret VUndef.
Definition deleteMany (c : jstr) (query : value) : M state value := req c "delDocs" [("query"%string, query)].
Definition restore (c id : jstr) : M state value :=
  res ← req c "restoreDoc" [("id"%string, VStr id)];
  mret (if is_nullish (prop res (js "id")) then res else prop res (js "id")).

Definition get_once (c id : jstr) (onlyId : bool) : M state value :=
  res ← request (asked (js "getDoc") c [(js "id", VStr id); (js "onlyId", VBool onlyId)]);
  lift (response_result "browser getDoc failed" res).
Definition get_metadata (c id : jstr) : M state value := req c "getMeta" [("id"%string, VStr id)].
Definition get_collect (c id : jstr) (onlyId : bool) : M state (list value) :=
  doc ← get_once c id onlyId; mret (if yields doc then [doc] else []).
Definition latest (c id : jstr) (onlyId : bool) : M state value := req c "getLatest" [("id"%string, VStr id); ("onlyId"%string, VBool onlyId)].

Definition findActive_collect (c : jstr) (query : value) : M state (list value) :=
  res ← request (asked (js "findDocs") c [(js "query", if is_undef query then VObj [] else query)]);
  docs ← lift (response_result "browser findDocs failed" res);
  mret (active_rows docs).
Definition findDeleted_collect (c : jstr) (query : value) : M state (list value) :=
  res ← request (asked (js "findDeletedDocs") c [(js "query", if is_undef query then VObj [] else query)]);
  docs ← lift (response_result "browser findDeletedDocs failed" res);
  mret (deleted_rows docs).

End Client.

(** *** What the mobile bridge calls *)

Section Bridge.
  Context {S : Type} `{Runtime S}.
  (** [createBrowserFylo(options)], which replaces the runtime, and the globals it looks at. *)
  Context (createBrowserFylo : object -> M S ()) (has_opfs has_window : bool).

Definition createBrowserClient (options : object) : M (client S) () :=
  _ ← on_browser (createBrowserFylo (normalizeOptions has_opfs has_window options));
  modify (fun s => mkClient (browser s) None []).

(** [client[name]], and a method of what it gives: the client's own members have none of the
    methods the bridge calls, but [collections] is a [Map]. *)
Definition get_property (name : jstr) : M (client S) () :=
  match client_property name with CollectionFacade c => collection c | _ => mret () end.
Definition not_callable (method : string) : js_error := type_error (js "col." ++ js method ++ js " is not a function").
Definition facade (name : jstr) (method : string) {A} (m : M (client S) A) : M (client S) A :=
  match client_property name with CollectionFacade _ => m | _ => throw (not_callable method) end.
Definition delete_facade (id : jstr) : M (client S) value :=
  s ← get;
  _ ← modify (fun s => mkClient (browser s) (readyPromise s) (filter (fun c => c <> id) (collections s)));
  mret (VBool (bool_decide (id ∈ collections s))).

#[local] Instance direct_client : Mobile.BrowserClient (client S) := {
  createBrowserClient := createBrowserClient;
  ready := ready;
  lookup v := get_property (to_str v);
  col_create c := facade c "create" (create c);
  col_drop c := facade c "drop" (drop c);
  col_inspect c := facade c "inspect" (inspect c);
  col_rebuild c := facade c "rebuild" (rebuild c);
  col_put c v := facade c "put" (put_now c v);
  col_get_once c id := facade c "get" (get_once c id false);
  col_get_metadata c id := facade c "get" (get_metadata c id);
  col_put_metadata c id meta := facade c "put" (put_metadata c id meta);
  col_latest c id := facade c "latest" (latest c id false);
  col_patch c id newDoc := facade c "patch" (patch c id newDoc VUndef);
  col_delete c id := if jeqb c (js "collections") then delete_facade id else facade c "delete" (delete c id);
  col_restore c id := facade c "restore" (restore c id);
  col_find_collect c query := facade c "find" (findActive_collect c query);
  client_sql := _sql
}.

End Bridge.

(** *** A runtime on a core of the page's own *)

Section Local.
  Context {S : Type} `{Protocol.FyloSurface S, Clock S}.
  Context (inherited : jstr -> option (value -> M S value)) (core_ready core_close : M S ()).

Definition local_runtime : Runtime S := {|
  browser_ready := core_ready;
  browser_close := core_close;
  browser_request := Calls.request inherited;
  browser_sql statement := Calls.dispatch inherited (Calls.ask_sql statement);
  browser_createCollection c := _ ← Calls.dispatch inherited (Calls.ask_createCollection c); mret ();
  browser_dropCollection c := _ ← Calls.dispatch inherited (Calls.ask_dropCollection c); mret ();
  browser_inspectCollection c := Calls.dispatch inherited (Calls.ask_inspectCollection c);
  browser_rebuildCollection c := Calls.dispatch inherited (Calls.ask_rebuildCollection c)
|}.

End Local.

(** ** The runtime is made ready once *)

Section Laws.
  Context {S : Type} `{Runtime S}.

Lemma ready_settled (s : client S) r : readyPromise s = Some r -> ready s = (r, s).
Proof. intros Hr. unfold ready. rewrite get_bind, Hr. done. Qed.

Lemma ready_once (s : client S) : readyPromise (snd (ready s)) = Some (fst (ready s)).
Proof.
  unfold ready. rewrite get_bind. destruct (readyPromise s) as [r|] eqn:Hr; [done|]. by destruct (browser_ready (browser s)).
Qed.

Lemma request_ready r (s : client S) : readyPromise s = Some (Ok ()) -> request r s = on_browser (browser_request r) s.
Proof. intros Hs. unfold request. by rewrite (M_bind_ok _ _ _ _ _ (ready_settled s _ Hs)). Qed.

Lemma req_ready c op fields (s : client S) v b : readyPromise s = Some (Ok ()) ->
  browser_request (asked (js op) c (map (fun f => (js (fst f), snd f)) fields)) (browser s) = (v, b) ->
  req c op fields s = (match v with Ok res => response_result "browser request failed" res | Throw e => Throw e end, mkClient b (readyPromise s) (collections s)).
Proof.
  intros Hs Hb. unfold req. rewrite (M_bind_ok _ _ _ _ _ (ready_settled s _ Hs)). unfold mbind, M_bind. rewrite request_ready by done.
  unfold on_browser. rewrite Hb. by destruct v.
Qed.

(** A client whose runtime could not be made ready answers every call with that failure. *)
Lemma failed_start_stays c op fields (s : client S) e : readyPromise s = Some (Throw e) -> req c op fields s = (Throw e, s).
Proof. intros Hs. unfold req. by rewrite (M_bind_throw _ _ _ _ _ (ready_settled s _ Hs)). Qed.

(** Two calls of [ready] are as one. *)
Lemma ready_idempotent (s : client S) : (_ ← ready; ready) s = ready s.
Proof.
  pose proof (ready_once s) as Ho. destruct (ready s) as [[[]|e] s1] eqn:Hr; unfold mbind, M_bind; rewrite Hr; [|done].
  cbn [fst snd] in Ho. by apply ready_settled.
Qed.

End Laws.

(** ** Calls and operations *)

Section Calls.
  Context {S : Type} `{Protocol.FyloSurface S, Clock S}.
  Context (inherited : jstr -> option (value -> M S value)) (core_ready core_close : M S ()).

#[local] Instance page_runtime : Runtime S := local_runtime inherited core_ready core_close.

Lemma response_success r d v fallback : response_result fallback (Protocol.success_response r d v) = Ok v.
Proof. done. Qed.

Lemma response_failure r d e fallback :
  response_result fallback (Protocol.error_response r d e) = Throw (Error (Protocol.non_empty_or (err_message e) (js "Unknown error"))).
Proof. done. Qed.

(** C25: on a core of the page's own, a call of a collection's facade is the operation of its
    request: the operation runs in the state the clock leaves, the runtime is left as the
    operation and a second reading of the clock leave it, and the call gives the operation's
    result when that succeeds and fails when that fails, then with the failure's message alone:
    its name and its code are gone. *)
Theorem call_is_the_operation c op fields (s : client S) : readyPromise s = Some (Ok ()) -> (forall s : S, exists t s', now s = (Ok t, s')) ->
  let r := asked (js op) c (map (fun f => (js (fst f), snd f)) fields) in
  exists t s1 o s2 u b, now (browser s) = (Ok t, s1) /\
  Protocol.executeBrowserOperation (H := Calls.browser_surface inherited) inherited r s1 = (o, s2) /\ now s2 = (Ok u, b) /\
  req c op fields s =
    (match o with Ok v => Ok v | Throw e => Throw (Error (Protocol.non_empty_or (err_message e) (js "Unknown error"))) end,
     mkClient b (readyPromise s) (collections s)).
Proof.
  intros Hs Hclock r. destruct (Hclock (browser s)) as (t & s1 & R1).
  destruct (Protocol.executeBrowserOperation (H := Calls.browser_surface inherited) inherited r s1) as [o s2] eqn:R2. destruct (Hclock s2) as (u & b & R3).
  exists t, s1, o, s2, u, b. split_and!; [done..|].
  assert (browser_request r (browser s) = (Ok (match o with Ok v => Protocol.success_response r (u - t) v | Throw e => Protocol.error_response r (u - t) e end), b)) as Hr.
  { cbn [browser_request page_runtime local_runtime]. unfold Calls.request, Protocol.runBrowserRequest, mbind, M_bind, try_catch.
    rewrite R1, R2. by destruct o; rewrite R3. }
  rewrite (req_ready c op fields s _ _ Hs Hr). by destruct o.
Qed.

(** [deleteMany] deletes nothing: it sends its query under a name the protocol does not
    read, so every call fails for its form before the core is called. *)
Theorem deleteMany_never_deletes c query (s : client S) : readyPromise s = Some (Ok ()) -> Calls.solid c = true ->
  (forall s : S, exists t s', now s = (Ok t, s')) ->
  exists t s1 u b, now (browser s) = (Ok t, s1) /\ now s1 = (Ok u, b) /\
    deleteMany c query s = (Throw (Protocol.field_error (js "delete") (js " must be an object")), mkClient b (readyPromise s) (collections s)).
Proof.
  intros Hs Hc Hclock. destruct (Hclock (browser s)) as (t & s1 & R1). destruct (Hclock s1) as (u & b & R2). exists t, s1, u, b. split; [done|]. split; [done|].
  set (r := asked (js "delDocs") c [(js "query", query)]).
  assert (Protocol.executeBrowserOperation (H := Calls.browser_surface inherited) inherited r s1 =
    (Throw (Protocol.field_error (js "delete") (js " must be an object")), s1)) as R.
  { unfold Protocol.executeBrowserOperation. replace (Protocol.isBrowserRequest r) with true by done. cbn [negb].
    replace (to_str (prop r (js "op"))) with (js "delDocs") by done. unfold Protocol.handler_of, Protocol.BROWSER_OPERATIONS.
    cbn [alist_get]. repeat (rewrite decide_False by done). rewrite decide_True by done. unfold Protocol.requireString.
    change (prop r (js "collection")) with (VStr c). cbn match. unfold Calls.solid in Hc. apply negb_true_iff in Hc. rewrite Hc. done. }
  assert (browser_request r (browser s) = (Ok (Protocol.error_response r (u - t) (Protocol.field_error (js "delete") (js " must be an object"))), b)) as Hr.
  { cbn [browser_request page_runtime local_runtime]. unfold Calls.request, Protocol.runBrowserRequest, mbind, M_bind, try_catch. by rewrite R1, R, R2. }
  exact (req_ready c "delDocs" [("query"%string, query)] s _ _ Hs Hr).
Qed.

End Calls.

(** ** Searches through the bridge *)

Section Searches.
  Context {S : Type} `{Runtime S}.
  Context (createBrowserFylo : object -> M S ()) (has_opfs has_window : bool).

#[local] Instance bridged : Mobile.BrowserClient (client S) := direct_client createBrowserFylo has_opfs has_window.

Lemma spread_row o kv : Mobile.spread o (row kv) = obj_set (fst kv) (snd kv) o.
Proof. by destruct kv. Qed.

Lemma collect_rows (o : object) : ordered_keys (keys o) = true -> Mobile.collect (map row o) = VObj o.
Proof.
  intros Ho. unfold Mobile.collect. f_equal. change (fun (out : object) page => fold_left _ (entries page) out) with Mobile.spread.
  assert (forall acc, fold_left Mobile.spread (map row o) acc = fold_left (fun acc kv => obj_set (fst kv) (snd kv) acc) o acc) as ->.
  { clear Ho. induction o as [|kv o IH]; intros acc; [done|]. cbn [map fold_left]. by rewrite spread_row, IH. }
  by apply (fold_obj_set_append o []).
Qed.

(** C26: a search the native side asks for answers, over the client, with the documents the
    runtime found, under their identifiers and in their order.  A search for identifiers
    alone does not: [collect] takes each identifier for a page and copies its characters, so
    that of several identifiers only the last is left, one character per property. *)
Theorem native_search c query (s : Mobile.bridge (client S)) d docs b :
  Mobile.collection_ok c -> client_property c = CollectionFacade c -> Mobile.db s = true -> readyPromise (Mobile.world s) = Some (Ok ()) ->
  browser_request (asked (js "findDocs") c [(js "query", VObj query)]) (browser (Mobile.world s)) =
    (Ok (Protocol.success_response (asked (js "findDocs") c [(js "query", VObj query)]) d docs), b) ->
  exists r s', Mobile.route (js "findDocs") (VObj [(js "collection", VStr c); (js "query", VObj query)]) s = (Ok r, s') /\
  (forall o, docs = VObj o -> ordered_keys (keys o) = true -> r = docs) /\
  (forall ids t, docs = VArr (map VStr (ids ++ [t])) -> Forall (fun i => length i = length t) ids ->
     forall k, prop r k = prop (Mobile.collect [VStr t]) k).
Proof.
  intros Hc Hp Hdb Hs Hb. set (rq := asked (js "findDocs") c [(js "query", VObj query)]) in *.
  assert (exists w1, Mobile.lookup (VStr c) (Mobile.world s) = (Ok (), w1) /\ readyPromise w1 = Some (Ok ()) /\ browser w1 = browser (Mobile.world s)) as (w1 & Hl & Hs1 & Hb1).
  { eexists. cbn [Mobile.lookup bridged direct_client]. unfold get_property. cbn [to_str]. rewrite Hp. split; [done|]. cbn [snd].
    by destruct (bool_decide _). }
  assert (Mobile.col_find_collect c (VObj query) w1 = (Ok (active_rows docs), mkClient b (readyPromise w1) (collections w1))) as Hf.
  { cbn [Mobile.col_find_collect bridged direct_client]. unfold facade. rewrite Hp. unfold findActive_collect. cbn [is_undef]. fold rq.
    unfold mbind, M_bind. rewrite request_ready by done. unfold on_browser. by rewrite Hb1, Hb. }
  pose proof (Mobile.search_route c query s w1 _ (active_rows docs) Hc Hdb Hl Hf) as Hr. eexists _, _. split; [exact Hr|]. split.
  - intros o -> Ho. by apply collect_rows.
  - intros ids t -> Hids k. cbn [active_rows]. by apply Mobile.collect_strings.
Qed.

End Searches.

(** Collections the client's own names shadow: they can be created and not reached. *)
Lemma shadowed_by_the_client name : name ∈ map js ["options"; "collections"; "request"; "browser"; "configure"; "inspect"]%string ->
  Collection.validateCollectionName name = Ok () /\ client_property name = Member.
Proof. intros Hin. repeat (apply elem_of_cons in Hin as [->|Hin]; [split; by vm_compute|]). by apply elem_of_nil in Hin. Qed.

(** ** The bridge on the client on the engine *)

Module Stack.

#[local] Existing Instance Lifecycle.noon_fs.
#[local] Existing Instance Lifecycle.noon_clock.
#[local] Existing Instance Lifecycle.noon_performance.
Abbreviation core := (Engine.core MemFs.state).
#[local] Instance page_clock : Clock core := Protocol.core_clock.
#[local] Instance page_surface : Protocol.FyloSurface core := Protocol.core_surface Complete.length_digest None (Lifecycle.root_path []) false.
#[local] Instance people_runtime : Runtime core := local_runtime Calls.nothing (mret ()) (mret ()).
#[local] Instance people_client : Mobile.BrowserClient (client core) := direct_client (fun _ => mret ()) false true.

Lemma root_clock_runs (s : core) : exists t s', now s = (Ok t, s').
Proof. eexists _, _. reflexivity. Qed.

Definition people : jstr := js "people".
Definition ann_id : jstr := js "4VLN5QUCDP0".
Definition ann : value := VObj [(js "name", VStr (js "ann"))].
Definition loaded : Mobile.bridge (client core) := Mobile.mkBridge (mkClient Lifecycle.people_core None []) false [].
Definition put_ann : string * value := ("putData"%string, VObj [(js "collection", VStr people); (js "data", VObj [(ann_id, ann)])]).
Definition find (query : object) : string * value := ("findDocs"%string, VObj [(js "collection", VStr people); (js "query", VObj query)]).
Definition onlyIds : object := [(js "$onlyIds", VBool true)].
Definition session (calls : list (string * value)) : Mobile.bridge (client core) :=
  snd (fold_left (fun '(n, s) call => (Nat.succ n, snd (Mobile.dispatch (Mobile.wire (Mobile.request (Num.of_Z (Z.of_nat n)) (js (fst call)) (snd call))) s)))
         calls (1, loaded)).
Definition answers (calls : list (string * value)) : list (outcome value) := map (fun t => (fun a => prop a (js "result")) <$> Json.parse t) (Mobile.posted (session calls)).

(** A document put by the native side is found again; searched for by identifier it is not. *)
Example native_session : answers [put_ann; find []; find onlyIds] =
  [Ok (VStr ann_id); Ok (VObj [(ann_id, ann)]); Ok (VObj (imap (fun i c => (Num.dec_nat i, VStr [c])) ann_id))].
Proof. by vm_compute. Qed.

(** *** Witnesses *)

Definition connected : Mobile.bridge (client core) := session [put_ann].
Definition find_request (query : object) : value := asked (js "findDocs") people [(js "query", VObj query)].
Definition found (query : object) : outcome value * core := browser_request (find_request query) (browser (Mobile.world connected)).

Lemma people_ok : Mobile.collection_ok people /\ client_property people = CollectionFacade people.
Proof. split; [split_and!; by vm_compute|by vm_compute]. Qed.
Lemma connected_ready : Mobile.db connected = true /\ readyPromise (Mobile.world connected) = Some (Ok ()).
Proof. split; by vm_compute. Qed.
Lemma found_ann : browser_request (find_request []) (browser (Mobile.world connected)) =
  (Ok (Protocol.success_response (find_request []) 0 (VObj [(ann_id, ann)])), snd (found [])).
Proof.
  assert (fst (found []) = Ok (Protocol.success_response (find_request []) 0 (VObj [(ann_id, ann)]))) as Hf by (by vm_compute).
  unfold found in *. destruct (browser_request _ _) as [o b]. cbn [fst snd] in *. by rewrite Hf.
Qed.
Lemma ann_ordered : ordered_keys (keys [(ann_id, ann)]) = true.
Proof. by vm_compute. Qed.

Lemma native_search_witness : exists r s',
  Mobile.route (js "findDocs") (VObj [(js "collection", VStr people); (js "query", VObj [])]) connected = (Ok r, s') /\
  r = VObj [(ann_id, ann)].
Proof.
  pose proof (native_search (fun _ => mret ()) false true people [] connected 0 (VObj [(ann_id, ann)]) (snd (found []))
    (proj1 people_ok) (proj2 people_ok) (proj1 connected_ready) (proj2 connected_ready) found_ann) as (r & s' & Hr & Hdocs & _).
  exists r, s'. split; [exact Hr|]. exact (Hdocs [(ann_id, ann)] eq_refl ann_ordered).
Defined.

Definition at_rest : client core := mkClient Lifecycle.people_core (Some (Ok ())) [].

Lemma call_is_the_operation_witness : exists b,
  req (H := page_runtime Calls.nothing (mret ()) (mret ())) people "getMeta" [("id"%string, VStr (js "nobody"))] at_rest =
  (Throw (Error (js "Invalid document ID: nobody")), mkClient b (Some (Ok ())) []).
Proof.
  destruct (call_is_the_operation Calls.nothing (mret ()) (mret ()) people "getMeta" [("id"%string, VStr (js "nobody"))] at_rest eq_refl root_clock_runs)
    as (t & s1 & o & s2 & u & b & R1 & R2 & _ & Hb).
  injection R1 as <- <-. exists b. apply (f_equal fst) in R2. cbn [fst] in R2.
  assert (match o with Throw e => Some (err_message e) | Ok _ => None end = Some (js "Invalid document ID: nobody")) as Ho by (rewrite <- R2; by vm_compute).
  destruct o as [|e]; [done|]. injection Ho as He. rewrite He in Hb. exact Hb.
Defined.

Lemma deleteMany_never_deletes_witness : exists b,
  deleteMany (H := page_runtime Calls.nothing (mret ()) (mret ())) people (VObj []) at_rest =
    (Throw (Protocol.field_error (js "delete") (js " must be an object")), mkClient b (Some (Ok ())) []).
Proof.
  destruct (deleteMany_never_deletes Calls.nothing (mret ()) (mret ()) people (VObj []) at_rest eq_refl eq_refl root_clock_runs)
    as (t & s1 & u & b & _ & _ & Hd).
  exists b. exact Hd.
Defined.

End Stack.
End Direct.
