(* ===== verification/Containment.v ===== *)
(** What the browser core may touch: every path it hands to its filesystem lies below its
    root, and below one collection for a request about that collection, whatever the
    request holds.  Stated for any invariant of the filesystem that operations on such paths
    keep. *)

From stdpp Require Import gmap.
From S2P Require Import Prelude PathUtil JsNum JsValue Json Utf8 Shard Ttid Codec Filesystem PrefixIndex IndexStore Buckets.
From S2P Require Import Plan Query Documents Metadata Events Engine Lifecycle Protocol.

(** ** Triples *)

Module Triple.

(** From a state with [I], [m] ends in one with [I], and what it returns has [Q]. *)
Definition keeps {S A} (I : S -> Prop) (m : M S A) (Q : A -> Prop) : Prop :=
  forall s, I s -> I (snd (m s)) /\ forall a, fst (m s) = Ok a -> Q a.

Definition any {A} : A -> Prop := fun _ => True.

Section Rules.
  Context {S : Type} (I : S -> Prop).

Lemma keeps_weaken {A} (m : M S A) (P Q : A -> Prop) : keeps I m P -> (forall a, P a -> Q a) -> keeps I m Q.
Proof. intros Hm HPQ s Hs. destruct (Hm s Hs) as [Hi Hp]. split; [done|]. intros a E. by apply HPQ, Hp. Qed.
Lemma keeps_any {A} (m : M S A) (Q : A -> Prop) : keeps I m Q -> keeps I m any.
Proof. intros Hm. by apply (keeps_weaken m Q). Qed.
Lemma keeps_ret {A} (a : A) (Q : A -> Prop) : Q a -> keeps I (mret a) Q.
Proof. intros Hq s Hs. split; [done|]. intros b E. cbn in E. apply Ok_inj in E as <-. done. Qed.
Lemma keeps_ret_any {A} (a : A) : keeps I (mret a) any.
Proof. by apply keeps_ret. Qed.
Lemma keeps_throw {A} e (Q : A -> Prop) : keeps I (throw e) Q.
Proof. intros s Hs. by split. Qed.
Lemma keeps_lift {A} (o : outcome A) : keeps I (lift o) any.
Proof. intros s Hs. by split. Qed.
Lemma keeps_throw_if b e : keeps I (throw_if b e) any.
Proof. intros s Hs. by destruct b. Qed.
Lemma keeps_gets {A} (f : S -> A) : keeps I (gets f) any.
Proof. intros s Hs. by split. Qed.
Lemma keeps_get : keeps I get any.
Proof. intros s Hs. by split. Qed.
Lemma keeps_modify f : (forall s, I s -> I (f s)) -> keeps I (modify f) any.
Proof. intros Hf s Hs. split; [by apply Hf|done]. Qed.
Lemma keeps_bind {A B} (m : M S A) (f : A -> M S B) (P : A -> Prop) (Q : B -> Prop) :
  keeps I m P -> (forall a, P a -> keeps I (f a) Q) -> keeps I (m ≫= f) Q.
Proof.
  intros Hm Hf s Hs. destruct (Hm s Hs) as [Hi Hp]. unfold mbind, M_bind.
  destruct (m s) as [[a|e] s']; [apply Hf; [by apply Hp|done]|by split].
Qed.
Lemma keeps_lift_bind {A B} (o : outcome A) (f : A -> M S B) (Q : B -> Prop) :
  (forall a, o = Ok a -> keeps I (f a) Q) -> keeps I (lift o ≫= f) Q.
Proof. intros Hf s Hs. destruct o as [a|e]; [exact (Hf a eq_refl s Hs)|by split]. Qed.
Lemma keeps_fmap {A B} (f : A -> B) (m : M S A) P : keeps I m P -> keeps I (f <$> m) any.
Proof.
  intros Hm s Hs. destruct (Hm s Hs) as [Hi _]. split; [|done]. unfold fmap, M_fmap. destruct (m s) as [[a|e] s']; done.
Qed.
Lemma keeps_try {A} (m : M S A) h (Q : A -> Prop) : keeps I m Q -> (forall e, keeps I (h e) Q) -> keeps I (try_catch m h) Q.
Proof.
  intros Hm Hh s Hs. destruct (Hm s Hs) as [Hi Hq]. unfold try_catch.
  destruct (m s) as [[a|e] s']; [by split|by apply Hh].
Qed.
Lemma keeps_when b (m : M S ()) : keeps I m any -> keeps I (when b m) any.
Proof. intros Hm. destruct b; [done|apply keeps_ret_any]. Qed.
Lemma keeps_fold_m {A B} (f : B -> A -> M S B) (P : A -> Prop) l acc : Forall P l ->
  (forall a x, P x -> keeps I (f a x) any) -> keeps I (fold_m f l acc) any.
Proof.
  intros Hl Hf. revert acc. induction Hl as [|x l Hx Hl IH]; intros acc; cbn [fold_m]; [apply keeps_ret_any|].
  apply (keeps_bind _ _ any); [by apply Hf|]. intros a _. apply IH.
Qed.
Lemma keeps_fold_any {A B} (f : B -> A -> M S B) l acc : (forall a x, keeps I (f a x) any) -> keeps I (fold_m f l acc) any.
Proof. intros Hf. apply (keeps_fold_m f any); [by apply Forall_true|]. intros a x _. apply Hf. Qed.

End Rules.

Create HintDb contained discriminated.

(** One goal after the other through a computation. *)
Ltac contain := repeat first
  [ progress intros
  | assumption
  | apply keeps_ret_any | apply keeps_throw | apply keeps_lift | apply keeps_throw_if | apply keeps_gets | apply keeps_get
  | solve [eauto with contained]
  | apply keeps_lift_bind | (eapply keeps_bind; [solve [eauto with contained]|])
  | apply (keeps_bind _ _ _ any) | apply keeps_try | apply keeps_when | (apply keeps_fmap with (P := any)) | apply keeps_fold_any
  | match goal with |- keeps _ (match ?x with _ => _ end) _ => destruct x eqn:? end ].

End Triple.

Module Containment.
Import Triple Engine Buckets Lifecycle.

(** ** Paths below a directory *)

(** [p] names something in the tree below [K], or [K] itself. *)
Definition within (K : path) (p : jstr) : Prop := exists q, Forall Path.clean (K ++ q) /\ p = Path.abs_path (K ++ q).

(** What the operations below [K] keep; a listing gives names, not paths. *)
Record guarded {D} `{FyloFilesystem D, Clock D, Performance D} (K : path) (I : D -> Prop) : Prop := {
  guarded_exists p : within K p -> keeps I (exists_ p) any;
  guarded_isDirectory p : within K p -> keeps I (isDirectory p) any;
  guarded_mtimeMs p : within K p -> keeps I (mtimeMs p) any;
  guarded_readText p : within K p -> keeps I (readText p) any;
  guarded_readBytes p : within K p -> keeps I (readBytes p) any;
  guarded_list p : within K p -> keeps I (list_ p) (Forall Path.clean);
  guarded_mkdir p : within K p -> keeps I (mkdir p true) any;
  guarded_rmdir p : within K p -> keeps I (rmdir p true) any;
  guarded_writeText p text : within K p -> keeps I (writeText p text) any;
  guarded_appendText p text : within K p -> keeps I (appendText p text) any;
  guarded_remove p : within K p -> keeps I (remove p) any;
  guarded_now : keeps I now any;
  guarded_timeNow : keeps I timeNow any;
  guarded_performanceNow : keeps I performanceNow any
}.

Lemma within_below (K base : path) : K `prefix_of` base -> Forall Path.clean base -> within K (Path.abs_path base).
Proof. intros [r ->] Hc. by exists r. Qed.

Lemma within_join (K : path) p segs : within K p -> Forall Path.clean segs -> within K (Path.join_strings (p :: segs)).
Proof.
  intros (q & Hq & ->) Hs. rewrite Path.join_clean by done. apply within_below.
  - rewrite <- app_assoc. by apply prefix_app_r.
  - by apply Forall_app.
Qed.

Lemma validated id u : Documents.validateDocId id = Ok u -> TTID.is_ttid id = true.
Proof. unfold Documents.validateDocId. by destruct (TTID.is_ttid id). Qed.

Lemma record_name id : TTID.is_ttid id = true -> Path.clean (id ++ js ".json").
Proof. intros Hid. exact (Forall_inv (Forall_inv_tail (place_clean [] id (Forall_nil_2 _) Hid))). Qed.

Lemma sharded_within (K : path) p shard id : within K p -> Path.clean shard -> TTID.is_ttid id = true ->
  within K (Path.join_strings [p; shard; id ++ js ".json"]).
Proof. intros Hp Hs Hid. apply within_join; [done|]. rewrite !Forall_cons. split_and!; [done|by apply record_name|constructor]. Qed.

Lemma legacy_within (K : path) p id u legacy : within K p -> Documents.validateDocId id = Ok u ->
  Documents.legacy_path p id = Ok legacy -> within K legacy.
Proof.
  intros Hp Hid%validated E. unfold Documents.legacy_path in E. destruct (old_shelf_spec id Hid) as (Es & Hs & _). rewrite Es in E.
  cbn [mbind outcome_bind] in E. destruct (Path.assertPathInside _ _); [|done]. apply Ok_inj in E as <-. by apply sharded_within.
Qed.

(** ** The paths of a core *)

Section Core.
  Context {D : Type} `{FyloFilesystem D, Clock D, Performance D}.
  Context (R K : path) (I : D -> Prop).
  Context (R_clean : Forall Path.clean R).
  Context (I_guarded : guarded K I).

Abbreviation root := (Path.abs_path R).

(** The directory of the collection [c] lies in [K]. *)
Definition in_scope (c : jstr) : Prop := K `prefix_of` home R c.

Lemma collectionRoot_ok c base : collectionRoot root c = Ok base -> Collection.valid_name c /\ base = Path.abs_path (home R c).
Proof.
  intros E. assert (Collection.valid_name c) as Hv.
  { unfold collectionRoot, assertCollectionName in E. unfold Collection.valid_name. by destruct (Collection.validateCollectionName c) as [[]|e]. }
  split; [done|]. pose proof (collectionRoot_eq R c R_clean Hv) as E'. unfold root_path in E'. rewrite E in E'. by apply Ok_inj in E'.
Qed.

Lemma collection_within c base : in_scope c -> collectionRoot root c = Ok base -> within K base.
Proof. intros Hc E. destruct (collectionRoot_ok c base E) as [Hv ->]. apply within_below; [done|]. by apply home_clean. Qed.

Lemma room_within c name p : in_scope c -> Path.clean name ->
  (base ← collectionRoot root c; Ok (Path.join_strings [base; name])) = Ok p -> within K p.
Proof.
  intros Hc Hn E. destruct (collectionRoot root c) as [b|e] eqn:Eb; [|done]. cbn [mbind outcome_bind] in E. apply Ok_inj in E as <-.
  apply within_join; [by eapply collection_within|]. by apply Forall_singleton.
Qed.

Lemma docsRoot_within c p : in_scope c -> docsRoot root c = Ok p -> within K p.
Proof. intros Hc. apply room_within; [done|]. by apply (bool_decide_unpack _). Qed.
Lemma deletedRoot_within c p : in_scope c -> deletedRoot root c = Ok p -> within K p.
Proof. intros Hc. apply room_within; [done|]. by apply (bool_decide_unpack _). Qed.
Lemma metadataRoot_within c p : in_scope c -> Metadata.root (collectionRoot root) c = Ok p -> within K p.
Proof. intros Hc. apply room_within; [done|]. by apply (bool_decide_unpack _). Qed.
Lemma indexRoot_within c p : in_scope c -> PrefixIndex.root (collectionRoot root) c = Ok p -> within K p.
Proof. intros Hc. apply room_within; [done|]. by apply (bool_decide_unpack _). Qed.

Lemma sharded_path_within rootOf c id p : (forall b, rootOf c = Ok b -> within K b) -> sharded_path rootOf c id = Ok p -> within K p.
Proof.
  intros Hr E. unfold sharded_path in E. destruct (Engine.validateDocId id) as [u|] eqn:Ev; [|done]. apply validated in Ev.
  cbn [mbind outcome_bind] in E. destruct (rootOf c) as [b|] eqn:Eb; [|done]. cbn [mbind outcome_bind] in E.
  destruct (shelf_spec id Ev) as (Es & Hs & _). rewrite Es in E. cbn [mbind outcome_bind] in E.
  destruct (Path.assertPathInside _ _); [|done]. apply Ok_inj in E as <-. apply sharded_within; [by apply Hr|done..].
Qed.
Lemma docPath_within c id p : in_scope c -> docPath root c id = Ok p -> within K p.
Proof. intros Hc. apply sharded_path_within. intros b. by apply docsRoot_within. Qed.
Lemma deletedPath_within c id p : in_scope c -> deletedPath root c id = Ok p -> within K p.
Proof. intros Hc. apply sharded_path_within. intros b. by apply deletedRoot_within. Qed.

Lemma metadata_path_within c id p : in_scope c -> Metadata.path (collectionRoot root) c id = Ok p ->
  within K p /\ TTID.is_ttid id = true.
Proof.
  intros Hc E. unfold Metadata.path in E. destruct (TTID.is_ttid id) eqn:Hid; [|done]. split; [|done]. cbn [negb] in E.
  destruct (Metadata.root _ c) as [b|] eqn:Eb; [|done]. cbn [mbind outcome_bind] in E.
  destruct (shelf_spec id Hid) as (Es & Hs & _). rewrite Es in E. cbn [mbind outcome_bind] in E.
  destruct (Path.assertPathInside _ _); [|done]. apply Ok_inj in E as <-. apply sharded_within; [by eapply metadataRoot_within|done..].
Qed.
Lemma metadata_legacy_within c id p l : in_scope c -> Metadata.path (collectionRoot root) c id = Ok p ->
  Metadata.legacyPath (collectionRoot root) c id = Ok l -> within K l.
Proof.
  intros Hc [_ Hid]%metadata_path_within E; [|done]. unfold Metadata.legacyPath in E.
  destruct (Metadata.root _ c) as [b|] eqn:Eb; [|done]. cbn [mbind outcome_bind] in E.
  destruct (old_shelf_spec id Hid) as (Es & Hs & _). rewrite Es in E. cbn [mbind outcome_bind] in E.
  destruct (Path.assertPathInside _ _); [|done]. apply Ok_inj in E as <-. apply sharded_within; [by eapply metadataRoot_within|done..].
Qed.

Lemma index_file_within c name p : in_scope c -> Path.clean name ->
  (base ← PrefixIndex.root (collectionRoot root) c; Ok (Path.join_strings [base; name])) = Ok p -> within K p.
Proof.
  intros Hc Hn E. destruct (PrefixIndex.root _ c) as [b|] eqn:Eb; [|done]. cbn [mbind outcome_bind] in E. apply Ok_inj in E as <-.
  apply within_join; [by eapply indexRoot_within|]. by apply Forall_singleton.
Qed.
Lemma manifest_within c p : in_scope c -> PrefixIndex.manifestPath (collectionRoot root) c = Ok p -> within K p.
Proof. intros Hc. apply index_file_within; [done|]. by apply (bool_decide_unpack _). Qed.
Lemma snapshot_within c p : in_scope c -> PrefixIndex.snapshotPath (collectionRoot root) c = Ok p -> within K p.
Proof. intros Hc. apply index_file_within; [done|]. by apply (bool_decide_unpack _). Qed.
Lemma wal_within c p : in_scope c -> PrefixIndex.walPath (collectionRoot root) c = Ok p -> within K p.
Proof. intros Hc. apply index_file_within; [done|]. by apply (bool_decide_unpack _). Qed.

Lemma journal_within c p : in_scope c -> Events.journalPath (collectionRoot root) c = Ok p -> within K p.
Proof.
  intros Hc E. assert (Collection.valid_name c) as Hv.
  { unfold Events.journalPath in E. destruct (collectionRoot root c) as [b|] eqn:Eb; [|done]. by eapply collectionRoot_ok. }
  pose proof (journalPath_eq R c R_clean Hv) as E'. unfold root_path in E'. rewrite E in E'. apply Ok_inj in E' as ->.
  apply within_below; [|by apply journal_clean]. etrans; [exact Hc|]. apply prefix_app_r, prefix_app_r. done.
Qed.

(** ** The filesystem *)

Lemma keeps_exists p : within K p -> keeps I (exists_ p) any.
Proof. apply (guarded_exists _ _ I_guarded). Qed.
Lemma keeps_isDirectory p : within K p -> keeps I (isDirectory p) any.
Proof. apply (guarded_isDirectory _ _ I_guarded). Qed.
Lemma keeps_mtimeMs p : within K p -> keeps I (mtimeMs p) any.
Proof. apply (guarded_mtimeMs _ _ I_guarded). Qed.
Lemma keeps_readText p : within K p -> keeps I (readText p) any.
Proof. apply (guarded_readText _ _ I_guarded). Qed.
Lemma keeps_readBytes p : within K p -> keeps I (readBytes p) any.
Proof. apply (guarded_readBytes _ _ I_guarded). Qed.
Lemma keeps_list p : within K p -> keeps I (list_ p) (Forall Path.clean).
Proof. apply (guarded_list _ _ I_guarded). Qed.
Lemma keeps_mkdir p : within K p -> keeps I (mkdir p true) any.
Proof. apply (guarded_mkdir _ _ I_guarded). Qed.
Lemma keeps_rmdir p : within K p -> keeps I (rmdir p true) any.
Proof. apply (guarded_rmdir _ _ I_guarded). Qed.
Lemma keeps_writeText p text : within K p -> keeps I (writeText p text) any.
Proof. apply (guarded_writeText _ _ I_guarded). Qed.
Lemma keeps_appendText p text : within K p -> keeps I (appendText p text) any.
Proof. apply (guarded_appendText _ _ I_guarded). Qed.
Lemma keeps_remove p : within K p -> keeps I (remove p) any.
Proof. apply (guarded_remove _ _ I_guarded). Qed.
Lemma keeps_now : keeps I now any.
Proof. apply (guarded_now _ _ I_guarded). Qed.
Lemma keeps_timeNow : keeps I timeNow any.
Proof. apply (guarded_timeNow _ _ I_guarded). Qed.
Lemma keeps_performanceNow : keeps I performanceNow any.
Proof. apply (guarded_performanceNow _ _ I_guarded). Qed.

#[local] Hint Resolve keeps_exists keeps_isDirectory keeps_mtimeMs keeps_readText keeps_readBytes keeps_list keeps_mkdir
  keeps_rmdir keeps_writeText keeps_appendText keeps_remove keeps_now keeps_timeNow keeps_performanceNow : contained.
#[local] Hint Resolve collection_within docsRoot_within deletedRoot_within metadataRoot_within indexRoot_within docPath_within
  deletedPath_within manifest_within snapshot_within wal_within journal_within legacy_within metadata_legacy_within : contained.
#[local] Hint Extern 1 (within _ _) => eapply metadata_path_within : contained.

(** ** Documents *)

Lemma keeps_existingPath p canonical id u : within K p -> within K canonical -> Documents.validateDocId id = Ok u ->
  keeps I (Documents.existingPath p canonical id) (within K).
Proof.
  intros Hp Hcan Hid. unfold Documents.existingPath. apply (keeps_bind _ _ _ any); [contain|]. intros found _.
  destruct found; [by apply keeps_ret|]. apply keeps_lift_bind. intros legacy El.
  assert (within K legacy) by eauto with contained. destruct (jeqb legacy canonical); [by apply keeps_ret|].
  apply (keeps_bind _ _ _ any); [contain|]. intros [] _; by apply keeps_ret.
Qed.
Lemma keeps_removeLegacyCopy p canonical id u : within K p -> Documents.validateDocId id = Ok u ->
  keeps I (Documents.removeLegacyCopy p canonical id) any.
Proof. intros Hp Hid. unfold Documents.removeLegacyCopy. contain. Qed.
#[local] Hint Resolve keeps_existingPath keeps_removeLegacyCopy : contained.

Section Collection.
  Context (c : jstr) (c_in_scope : in_scope c).

Lemma keeps_readStoredDoc_fs id : keeps I (Documents.readStoredDoc (docsRoot root) (docPath root) c id) any.
Proof. unfold Documents.readStoredDoc. contain. Qed.

Lemma keeps_readDeletedDoc_fs id : keeps I (Documents.readDeletedDoc (deletedRoot root) (deletedPath root) c id) any.
Proof. unfold Documents.readDeletedDoc. contain. Qed.
Lemma keeps_removeStoredDoc id : keeps I (Documents.removeStoredDoc (docsRoot root) (docPath root) c id) any.
Proof. unfold Documents.removeStoredDoc. contain. Qed.
Lemma keeps_softDeleteStoredDoc id t :
  keeps I (Documents.softDeleteStoredDoc (docsRoot root) (deletedRoot root) (docPath root) (deletedPath root) c id t) any.
Proof. unfold Documents.softDeleteStoredDoc. contain. Qed.
Lemma keeps_restoreStoredDoc id :
  keeps I (Documents.restoreStoredDoc (docsRoot root) (deletedRoot root) (docPath root) (deletedPath root) c id) any.
Proof. unfold Documents.restoreStoredDoc. contain. Qed.
Lemma keeps_listBucketed p : within K p -> keeps I (Documents.listBucketedDocIds p) any.
Proof.
  intros Hp. unfold Documents.listBucketedDocIds. apply (keeps_bind _ _ _ any); [contain|]. intros found _.
  destruct (negb found); [apply keeps_ret_any|]. apply (keeps_bind _ _ _ (Forall Path.clean)); [contain|]. intros buckets Hb.
  apply (keeps_fold_m _ _ Path.clean); [done|]. intros ids bucket Hbucket.
  assert (within K (Path.join_strings [p; bucket])) by (apply within_join; [done|by apply Forall_singleton]). contain.
Qed.

(** ** The index, the metadata, the journal *)

Lemma keeps_writeIfMissing p text : within K p -> keeps I (PrefixIndex.writeIfMissing p text) any.
Proof. intros Hp. unfold PrefixIndex.writeIfMissing. contain. Qed.
Lemma keeps_readTextIfExists p : within K p -> keeps I (PrefixIndex.readTextIfExists p) any.
Proof. intros Hp. unfold PrefixIndex.readTextIfExists. contain. Qed.
#[local] Hint Resolve keeps_writeIfMissing keeps_readTextIfExists keeps_listBucketed : contained.
Lemma keeps_index_ensure : keeps I (PrefixIndex.ensureCollection (collectionRoot root) c) any.
Proof. unfold PrefixIndex.ensureCollection. contain. Qed.
#[local] Hint Resolve keeps_index_ensure : contained.
Lemma keeps_ensureCollection : keeps I (ensureCollection root c) any.
Proof.
  unfold ensureCollection. contain. apply keeps_mkdir, within_join; [eauto with contained|].
  apply Forall_singleton. by apply (bool_decide_unpack _).
Qed.
#[local] Hint Resolve keeps_ensureCollection : contained.
Lemma keeps_writeStoredDoc_fs id doc :
  keeps I (Documents.writeStoredDoc (docsRoot root) (deletedRoot root) (docPath root) (deletedPath root) (ensureCollection root) c id doc) any.
Proof. unfold Documents.writeStoredDoc. contain. Qed.

Lemma keeps_metadata_existing id : keeps I (Metadata.existingPath (collectionRoot root) c id) (within K).
Proof.
  unfold Metadata.existingPath. apply keeps_lift_bind. intros canonical Ec. assert (within K canonical) by eauto with contained.
  apply (keeps_bind _ _ _ any); [contain|]. intros found _. destruct found; [by apply keeps_ret|].
  apply keeps_lift_bind. intros legacy El. assert (within K legacy) by eauto with contained.
  destruct (jeqb legacy canonical); [by apply keeps_ret|]. apply (keeps_bind _ _ _ any); [contain|]. intros [] _; by apply keeps_ret.
Qed.
#[local] Hint Resolve keeps_metadata_existing : contained.
Lemma keeps_metadata_read id : keeps I (Metadata.read (collectionRoot root) c id) any.
Proof. unfold Metadata.read. contain. Qed.
Lemma keeps_metadata_write id values t : keeps I (Metadata.write (collectionRoot root) c id values t) any.
Proof.
  unfold Metadata.write. contain. apply keeps_mkdir, within_join; [eauto with contained|]. apply Forall_singleton.
  match goal with E : Shard.defaultShardOf _ = Ok _ |- _ => exact (Shard.shardOf_clean _ _ _ E) end.
Qed.
#[local] Hint Resolve keeps_metadata_read keeps_metadata_write : contained.
Lemma keeps_metadata_mutate id mutations : keeps I (Metadata.mutate (collectionRoot root) c id mutations) any.
Proof. unfold Metadata.mutate. contain. Qed.

(** ** The index in memory *)

Definition index_keeps (i : PrefixIndex.index_state D) : Prop := I (PrefixIndex.index_disk i).

Lemma keeps_on_disk {A} (m : M D A) Q : keeps I m Q -> keeps index_keeps (PrefixIndex.on_disk m) Q.
Proof.
  intros Hm i Hi. destruct (Hm _ Hi) as [Hi' Hq]. unfold PrefixIndex.on_disk. destruct (m (PrefixIndex.index_disk i)) as [r d]. by split.
Qed.
Lemma keeps_memory f : (forall i, PrefixIndex.index_disk (f i) = PrefixIndex.index_disk i) -> keeps index_keeps (modify f) any.
Proof. intros Hf. apply keeps_modify. intros i. unfold index_keeps. by rewrite Hf. Qed.
#[local] Hint Resolve keeps_on_disk : contained.
#[local] Hint Extern 2 (keeps index_keeps (modify _) _) => apply keeps_memory; reflexivity : contained.

Lemma keeps_disable e code : keeps index_keeps (PrefixIndex.disableAcceleration e code) any.
Proof. unfold PrefixIndex.disableAcceleration, PrefixIndex.close. contain. Qed.
#[local] Hint Resolve keeps_disable : contained.
Lemma keeps_ready scanners : keeps index_keeps (PrefixIndex.ready scanners) any.
Proof. unfold PrefixIndex.ready. contain. Qed.
#[local] Hint Resolve keeps_ready : contained.
Lemma keeps_scannerFor scanners : keeps index_keeps (PrefixIndex.scannerFor scanners c) any.
Proof. unfold PrefixIndex.scannerFor. contain. Qed.
Lemma keeps_forget : keeps index_keeps (PrefixIndex.forgetCollection c) any.
Proof. unfold PrefixIndex.forgetCollection. contain. Qed.
#[local] Hint Resolve keeps_scannerFor keeps_forget : contained.
Lemma keeps_resetCollection : keeps index_keeps (PrefixIndex.resetCollection (collectionRoot root) c) any.
Proof. unfold PrefixIndex.resetCollection. contain. Qed.
Lemma keeps_readSnapshotBytes : keeps index_keeps (PrefixIndex.readSnapshotBytes (collectionRoot root) c) any.
Proof. unfold PrefixIndex.readSnapshotBytes. contain. Qed.
#[local] Hint Resolve keeps_readSnapshotBytes : contained.
Lemma keeps_loadKeySet : keeps index_keeps (PrefixIndex.loadKeySet (collectionRoot root) c) any.
Proof. unfold PrefixIndex.loadKeySet. contain. Qed.
#[local] Hint Resolve keeps_loadKeySet : contained.
Lemma keeps_compact : keeps index_keeps (PrefixIndex.compact (collectionRoot root) c) any.
Proof. unfold PrefixIndex.compact. contain. Qed.
#[local] Hint Resolve keeps_compact : contained.
Lemma keeps_compactIfNeeded : keeps index_keeps (PrefixIndex.compactIfNeeded (collectionRoot root) c) any.
Proof. unfold PrefixIndex.compactIfNeeded. contain. Qed.
#[local] Hint Resolve keeps_compactIfNeeded : contained.
Lemma keeps_appendMutations ms : keeps index_keeps (PrefixIndex.appendMutations (collectionRoot root) c ms) any.
Proof.
  unfold PrefixIndex.appendMutations. contain. apply keeps_memory. intros i. by destruct (_ !! c).
Qed.
#[local] Hint Resolve keeps_appendMutations : contained.
Lemma keeps_putDocument sha id doc : keeps index_keeps (PrefixIndex.putDocument sha (collectionRoot root) c id doc) any.
Proof. unfold PrefixIndex.putDocument. contain. Qed.
Lemma keeps_removeDocument sha id doc : keeps index_keeps (PrefixIndex.removeDocument sha (collectionRoot root) c id doc) any.
Proof. unfold PrefixIndex.removeDocument. contain. Qed.
Lemma keeps_countDocuments : keeps index_keeps (PrefixIndex.countDocuments (collectionRoot root) c) any.
Proof. unfold PrefixIndex.countDocuments. contain. Qed.
Lemma keeps_loadWalOverlay : keeps index_keeps (PrefixIndex.loadWalOverlay (collectionRoot root) c) any.
Proof. unfold PrefixIndex.loadWalOverlay. contain. Qed.
#[local] Hint Resolve keeps_loadWalOverlay : contained.
Lemma keeps_scan_with_scanner factory snapshot full range :
  keeps index_keeps (PrefixIndex.scan_with_scanner factory c snapshot full range) any.
Proof. unfold PrefixIndex.scan_with_scanner. contain. Qed.
#[local] Hint Resolve keeps_scan_with_scanner : contained.
Lemma keeps_prefix_candidates scanners field o snapshot entry :
  keeps index_keeps (PrefixIndex.prefix_candidates scanners c field o snapshot entry) any.
Proof. unfold PrefixIndex.prefix_candidates. contain. Qed.
#[local] Hint Resolve keeps_prefix_candidates : contained.
Lemma keeps_candidateDocIds sha scanners field operand :
  keeps index_keeps (PrefixIndex.candidateDocIds sha (collectionRoot root) scanners c field operand) any.
Proof. unfold PrefixIndex.candidateDocIds. contain. Qed.

(** ** The core *)

Definition core_keeps (s : core D) : Prop := I (core_disk s).

Lemma keeps_on_index {A} (m : M (PrefixIndex.index_state D) A) Q : keeps index_keeps m Q -> keeps core_keeps (on_index m) Q.
Proof. intros Hm s Hs. destruct (Hm _ Hs) as [Hi Hq]. unfold on_index. destruct (m (core_index s)) as [r i]. by split. Qed.
Lemma keeps_on_fs {A} (m : M D A) Q : keeps I m Q -> keeps core_keeps (on_fs m) Q.
Proof. intros Hm. by apply keeps_on_index, keeps_on_disk. Qed.
#[local] Hint Resolve keeps_on_index keeps_on_fs : contained.
#[local] Hint Resolve keeps_readStoredDoc_fs keeps_readDeletedDoc_fs keeps_removeStoredDoc keeps_softDeleteStoredDoc
  keeps_restoreStoredDoc keeps_writeStoredDoc_fs keeps_metadata_mutate keeps_resetCollection keeps_putDocument
  keeps_removeDocument keeps_countDocuments keeps_candidateDocIds : contained.

Lemma keeps_publish event : keeps core_keeps (publish root c event) any.
Proof.
  intros s Hs. split; [|done]. unfold publish, Events.publish. destruct (Events.journalPath _ c) as [p|e] eqn:E; [|done].
  destruct (keeps_appendText p (Events.journal_line event) (journal_within c p c_in_scope E) _ Hs) as [Hi _].
  by destruct (appendText _ _ _) as [[u|e] d].
Qed.
Lemma keeps_date_now : keeps core_keeps date_now any.
Proof. unfold date_now. contain. Qed.
Lemma keeps_readStoredDoc id : keeps core_keeps (readStoredDoc root c id) any.
Proof. unfold readStoredDoc. contain. Qed.
Lemma keeps_readDeletedDoc id : keeps core_keeps (readDeletedDoc root c id) any.
Proof. unfold readDeletedDoc. contain. Qed.
Lemma keeps_writeStoredDoc id doc : keeps core_keeps (writeStoredDoc root c id doc) any.
Proof. unfold writeStoredDoc. contain. Qed.
Lemma keeps_index_put sha id doc : keeps core_keeps (index_put sha root c id doc) any.
Proof. unfold index_put. contain. Qed.
Lemma keeps_index_remove sha id doc : keeps core_keeps (index_remove sha root c id doc) any.
Proof. unfold index_remove. contain. Qed.
Lemma keeps_listDocIds : keeps core_keeps (listDocIds root c) any.
Proof. unfold listDocIds, Documents.listDocIds. apply keeps_on_fs. contain. Qed.
Lemma keeps_listDeletedDocIds : keeps core_keeps (listDeletedDocIds root c) any.
Proof. unfold listDeletedDocIds, Documents.listDeletedDocIds. apply keeps_on_fs. contain. Qed.
#[local] Hint Resolve keeps_publish keeps_date_now keeps_readStoredDoc keeps_readDeletedDoc keeps_writeStoredDoc
  keeps_index_put keeps_index_remove keeps_listDocIds keeps_listDeletedDocIds : contained.
Lemma keeps_hasCollection : keeps core_keeps (hasCollection root c) any.
Proof. unfold hasCollection. contain. Qed.
#[local] Hint Resolve keeps_hasCollection : contained.
Lemma keeps_requireCollection : keeps core_keeps (requireCollection root c) any.
Proof. unfold requireCollection. contain. Qed.
Lemma keeps_event_ts stored : keeps core_keeps (event_ts stored) any.
Proof. unfold event_ts. contain. Qed.
#[local] Hint Resolve keeps_requireCollection keeps_event_ts : contained.

Section Options.
  Context (sha256Hex : jstr -> jstr) (scanners : option PrefixIndex.scanner_factory) (worm : bool).

Lemma keeps_createCollection : keeps core_keeps (createCollection root c) any.
Proof. unfold createCollection. contain. Qed.
Lemma keeps_dropCollection : keeps core_keeps (dropCollection root worm c) any.
Proof. unfold dropCollection. contain. Qed.
Lemma keeps_status : keeps core_keeps (on_index (PrefixIndex.accelerationStatus scanners)) any.
Proof. apply keeps_on_index, keeps_gets. Qed.
#[local] Hint Resolve keeps_status : contained.
Lemma keeps_inspectCollection : keeps core_keeps (inspectCollection scanners root worm c) any.
Proof. unfold inspectCollection. contain. Qed.
Lemma keeps_rebuildCollection : keeps core_keeps (rebuildCollection sha256Hex root worm c) any.
Proof. unfold rebuildCollection, withCollectionWriteLane. contain. Qed.
Lemma keeps_putData data meta : keeps core_keeps (putData sha256Hex root worm c data meta) any.
Proof. unfold putData, withCollectionWriteLane, put_body, Documents.makeStoredDocReadOnly. contain. Qed.
#[local] Hint Resolve keeps_putData : contained.
Lemma keeps_batchPutData batch : keeps core_keeps (batchPutData sha256Hex root worm c batch) any.
Proof. unfold batchPutData. contain. Qed.
Lemma keeps_getDocMeta id : keeps core_keeps (getDocMeta root c id) any.
Proof. unfold getDocMeta. contain. Qed.
Lemma keeps_setDocMetaRecord id record : keeps core_keeps (setDocMetaRecord root c id record) any.
Proof. unfold setDocMetaRecord, withCollectionWriteLane. contain. Qed.
Lemma keeps_patchDoc newDoc oldDoc : keeps core_keeps (patchDoc sha256Hex root worm c newDoc oldDoc) any.
Proof. unfold patchDoc. contain. Qed.
Lemma keeps_delDoc id : keeps core_keeps (delDoc sha256Hex root worm c id) any.
Proof. unfold delDoc, withCollectionWriteLane. contain. Qed.
Lemma keeps_restoreDoc id : keeps core_keeps (restoreDoc sha256Hex root worm c id) any.
Proof. unfold restoreDoc, withCollectionWriteLane. contain. Qed.
Lemma keeps_one_doc id onlyId : keeps core_keeps (one_doc root c id onlyId) any.
Proof. unfold one_doc. contain. Qed.
#[local] Hint Resolve keeps_one_doc keeps_patchDoc keeps_delDoc : contained.
Lemma keeps_getDoc_once id onlyId : keeps core_keeps (getDoc_once root c id onlyId) any.
Proof. unfold getDoc_once. contain. Qed.
Lemma keeps_getLatest id onlyId : keeps core_keeps (getLatest root c id onlyId) any.
Proof. unfold getLatest. contain. Qed.

(** *** Queries *)

#[local] Instance asks : Query.BrowserPrefixIndexLike (core D) := core_candidates sha256Hex scanners root.

Lemma keeps_candidates field operand : keeps core_keeps (Query.candidateDocIds c field operand) any.
Proof. unfold Query.candidateDocIds, asks, core_candidates. contain. Qed.
#[local] Hint Resolve keeps_candidates : contained.
Lemma keeps_with_ranges field operand ks ids rest : (forall o, keeps core_keeps (rest o) any) ->
  keeps core_keeps (Query.with_ranges c field operand ks ids rest) any.
Proof. intros Hrest. revert ids. induction ks as [|k ks IH]; intros ids; cbn [Query.with_ranges]; contain. Qed.
Lemma keeps_forOperand field operand : keeps core_keeps (Query.candidateDocIdsForOperand c field operand) any.
Proof.
  unfold Query.candidateDocIdsForOperand. apply (keeps_bind _ _ _ any); [contain|]. intros ids _. apply keeps_with_ranges. contain.
Qed.
#[local] Hint Resolve keeps_forOperand : contained.
Lemma keeps_forOperation operation : keeps core_keeps (Query.candidateDocIdsForOperation c operation) any.
Proof. unfold Query.candidateDocIdsForOperation. contain. Qed.
#[local] Hint Resolve keeps_forOperation : contained.
Lemma keeps_union ops ids : keeps core_keeps (Query.union_candidates c ops ids) any.
Proof. revert ids. induction ops as [|op ops IH]; intros ids; cbn [Query.union_candidates]; contain. Qed.
Lemma keeps_collect_matching query ids results : keeps core_keeps (collect_matching root c query ids results) any.
Proof. revert results. induction ids as [|id ids IH]; intros results; cbn [collect_matching]; contain. Qed.
Lemma keeps_collect_deleted query ids results : keeps core_keeps (collect_deleted root c query ids results) any.
Proof. revert results. induction ids as [|id ids IH]; intros results; cbn [collect_deleted]; contain. Qed.
#[local] Hint Resolve keeps_union keeps_collect_matching keeps_collect_deleted : contained.
Lemma keeps_docResults query : keeps core_keeps (docResults sha256Hex scanners root c query) any.
Proof. unfold docResults, Query.candidateDocIdsForQuery, listQueryableDocIds. contain. Qed.
#[local] Hint Resolve keeps_docResults : contained.
Lemma keeps_findDocs query : keeps core_keeps (findDocs sha256Hex scanners root c query) any.
Proof. unfold findDocs. contain. Qed.
Lemma keeps_findDeletedDocs query : keeps core_keeps (findDeletedDocs root c query) any.
Proof. unfold findDeletedDocs, deletedDocResults. contain. Qed.
#[local] Hint Resolve keeps_findDocs : contained.
Lemma keeps_patchDocs update : keeps core_keeps (patchDocs sha256Hex scanners root worm c update) any.
Proof. unfold patchDocs. contain. Qed.
Lemma keeps_delDocs query : keeps core_keeps (delDocs sha256Hex scanners root worm c query) any.
Proof. unfold delDocs. contain. Qed.

End Options.
End Collection.

(** ** Requests *)

Section Requests.
  Context (sha256Hex : jstr -> jstr) (scanners : option PrefixIndex.scanner_factory) (worm : bool).
  (** What the handlers' table inherits keeps [I] as well. *)
  Context (inherited : jstr -> option (value -> M (core D) value)).
  Context (inherited_keeps : forall op h request, inherited op = Some h -> keeps core_keeps (h request) any).

#[local] Hint Resolve keeps_createCollection keeps_dropCollection keeps_inspectCollection keeps_rebuildCollection keeps_putData
  keeps_batchPutData keeps_getDocMeta keeps_setDocMetaRecord keeps_patchDoc keeps_delDoc keeps_restoreDoc keeps_getDoc_once
  keeps_getLatest keeps_findDocs keeps_findDeletedDocs keeps_patchDocs keeps_delDocs keeps_docResults : contained.

Lemma keeps_join j : (forall c, in_scope c) -> keeps core_keeps (join sha256Hex scanners root j) any.
Proof. intros Hall. unfold join. contain. Qed.
#[local] Hint Resolve keeps_join : contained.
Lemma keeps_executeSQL sql : (forall c, in_scope c) -> keeps core_keeps (executeSQL sha256Hex scanners root worm sql) any.
Proof.
  intros Hall. unfold executeSQL. contain; [apply keeps_on_fs, keeps_performanceNow|unfold executeSqlPlan; contain|].
  apply keeps_on_fs, keeps_performanceNow.
Qed.
#[local] Hint Resolve keeps_executeSQL : contained.

(** The operations that find the names of their collections elsewhere. *)
Definition wanders (op : jstr) : bool := bool_decide (op ∈ [js "executeSQL"; js "joinDocs"]).

(** The collections a request can be about are in scope. *)
Definition request_in_scope (op : jstr) (request : value) : Prop :=
  (forall c, prop request (js "collection") = VStr c -> in_scope c) /\ (wanders op = true -> forall c, in_scope c).

Lemma requireString_text request field s : Protocol.requireString request field = Ok s -> prop request field = VStr s.
Proof. unfold Protocol.requireString. destruct (prop request field); try done. case_bool_decide; [done|]. by intros ->%Ok_inj. Qed.

Lemma named_in_scope op request c : request_in_scope op request -> Protocol.requireString request (js "collection") = Ok c -> in_scope c.
Proof. intros [Hs _] E%requireString_text. by apply Hs. Qed.
#[local] Hint Resolve named_in_scope : contained.

Lemma keeps_operations : Forall (fun h => forall request, request_in_scope (fst h) request -> keeps core_keeps (snd h request) any)
  (Protocol.BROWSER_OPERATIONS (H := Protocol.core_surface sha256Hex scanners root worm)).
Proof.
  unfold Protocol.BROWSER_OPERATIONS, Protocol.collectFindDocs, Protocol.collectDeletedDocs.
  cbn [Protocol.executeSQL Protocol.createCollection Protocol.dropCollection Protocol.inspectCollection
    Protocol.rebuildCollection Protocol.getDoc_once Protocol.getLatest Protocol.getDocMeta Protocol.setDocMetaRecord
    Protocol.findDocs_collect Protocol.findDeletedDocs_collect Protocol.join Protocol.putData Protocol.batchPutData
    Protocol.patchDoc Protocol.patchDocs Protocol.delDoc Protocol.restoreDoc Protocol.delDocs Protocol.core_surface].
  repeat (apply Forall_cons; split; [intros request Hscope; cbn [fst snd] in *;
    try (assert (forall c, in_scope c) by (apply Hscope; reflexivity)); contain|]). apply Forall_nil_2.
Qed.

Lemma keeps_serve request : request_in_scope (to_str (prop request (js "op"))) request ->
  keeps core_keeps (Protocol.serve sha256Hex scanners root worm inherited request) any.
Proof.
  intros Hscope. unfold Protocol.serve, Protocol.runBrowserRequest, now, Protocol.core_clock.
  assert (keeps core_keeps (Protocol.executeBrowserOperation (H := Protocol.core_surface sha256Hex scanners root worm) inherited request) any) as Hop.
  { unfold Protocol.executeBrowserOperation. destruct (negb _); [apply keeps_throw|].
    destruct (Protocol.handler_of _ _) as [h|] eqn:E; [|apply keeps_throw]. unfold Protocol.handler_of in E.
    destruct (alist_get _ _) as [h'|] eqn:E'; [|by eapply inherited_keeps]. injection E as ->.
    exact (proj1 (Forall_forall _ _) keeps_operations _ (alist_get_Some _ _ _ E') request Hscope). }
  pose proof keeps_date_now as Hnow. contain.
Qed.

End Requests.
End Core.
End Containment.
