(* ===== verification/Isolation.v ===== *)
(** The containment of the browser core over the memory filesystem: a request leaves
    everything outside the core's root, and outside the collection it is about, as it was. *)

From stdpp Require Import gmap sets.
From S2P Require Import Prelude PathUtil JsNum JsValue Utf8 Shard Filesystem MemFs MemFsLaws PrefixIndex IndexComplete.
From S2P Require Import Engine Lifecycle Protocol Containment.

Module Isolation.
Import MemFs MemFsLaws Triple Containment.

Section Memory.
  Context (clock : nat -> Z).

#[local] Instance mem_fs : FyloFilesystem MemFs.state := MemFs.memory clock.
#[local] Instance mem_clock : Clock MemFs.state := MemFs.memory_clock clock.

(** Outside [K] the tree is as it was, but for directories made on the way to [K]. *)
Definition undisturbed (K : path) (s s' : MemFs.state) : Prop := forall q, Forall Path.clean q -> ~ K `prefix_of` q ->
  look s' q = look s q \/ (look s q = None /\ look s' q = Some Dir /\ q `prefix_of` K).

Lemma undisturbed_refl K s : undisturbed K s s.
Proof. by left. Qed.

Lemma undisturbed_trans K a b e : undisturbed K a b -> undisturbed K b e -> undisturbed K a e.
Proof.
  intros Hab Hbe q Hq Hk. destruct (Hbe q Hq Hk) as [->|(Eb & Ee & Hp)]; [by apply Hab|].
  right. destruct (Hab q Hq Hk) as [Ea|(_ & Eb' & _)]; [|congruence]. by rewrite <- Ea.
Qed.

(** A change below [K]. *)
Lemma undisturbed_below K s s' : (forall q, Forall Path.clean q -> ~ K `prefix_of` q ->
    files s' !! Path.abs_path q = files s !! Path.abs_path q /\ (Path.abs_path q ∈ dirs s' <-> Path.abs_path q ∈ dirs s)) ->
  undisturbed K s s'.
Proof.
  intros Hs q Hq Hk. left. destruct (Hs q Hq Hk) as [Ef Ed]. unfold look. rewrite Ef. by rewrite (bool_decide_ext _ _ Ed).
Qed.

(** The node at [p], below [K], changes. *)
Lemma undisturbed_node K p s s' : Forall Path.clean p -> K `prefix_of` p ->
  (forall k, k <> Path.abs_path p -> files s' !! k = files s !! k) -> dirs s' = dirs s -> undisturbed K s s'.
Proof.
  intros Hp Hk Hf Hd. apply undisturbed_below. intros q Hq Hn. rewrite Hd. split; [|done]. apply Hf.
  intros E. apply Path.abs_path_inj in E as ->; done.
Qed.

(** Directories made on the way to [p]. *)
Lemma undisturbed_dirs K p s s' : Forall Path.clean p -> K `prefix_of` p -> files s' = files s ->
  (forall k, k ∈ dirs s -> k ∈ dirs s') ->
  (forall k, k ∈ dirs s' -> k ∈ dirs s \/ exists r, r `prefix_of` p /\ k = Path.abs_path r) -> undisturbed K s s'.
Proof.
  intros Hp Hk Hf Hmore Hfrom q Hq Hn. unfold look. rewrite Hf. destruct (files s !! _); [by left|].
  destruct (decide (Path.abs_path q ∈ dirs s)) as [Hd|Hd].
  - left. rewrite !bool_decide_true; [done|done|by apply Hmore].
  - rewrite (bool_decide_false _ Hd). case_bool_decide as Hd'; [|by left]. right. split_and!; [done..|].
    destruct (Hfrom _ Hd') as [?|(r & Hr & E)]; [done|].
    assert (Forall Path.clean r) as Hrc by (destruct Hr as [t ->]; by apply Forall_app in Hp as [? _]).
    apply Path.abs_path_inj in E as ->; [|done..]. destruct (prefix_weak_total r K p Hr Hk) as [|]; done.
Qed.

(** *** One operation *)

Definition grows (p : path) (s s' : MemFs.state) : Prop := files s' = files s /\
  (forall k, k ∈ dirs s -> k ∈ dirs s') /\
  (forall k, k ∈ dirs s' -> k ∈ dirs s \/ exists r, r `prefix_of` p /\ k = Path.abs_path r).

Lemma grows_refl p s : grows p s s.
Proof. split_and!; [done|done|by left]. Qed.

Lemma make_dirs_grows rest p s : grows (p ++ rest) s (snd (make_dirs clock (cursor p) rest s)).
Proof.
  revert p s. induction rest as [|x rest IH]; intros p s; [apply grows_refl|].
  rewrite make_dirs_cons. destruct (has_file _ s); [apply grows_refl|].
  specialize (IH (p ++ [x]) (touched clock (Path.abs_path (p ++ [x])) (add_dir (Path.abs_path (p ++ [x])) s))).
  rewrite <- app_assoc in IH. destruct IH as (Hf & Hmore & Hfrom). split_and!; [by rewrite Hf| |].
  - intros k Hk. apply Hmore. cbn. set_solver.
  - intros k Hk. destruct (Hfrom k Hk) as [Hd|?]; [|by right]. cbn in Hd. apply elem_of_union in Hd as [->%elem_of_singleton|?]; [|by left].
    right. exists (p ++ [x]). split; [|done]. apply prefix_app. by exists rest.
Qed.

Lemma ensureParents_grows p s : Forall Path.clean p -> grows p s (snd (ensureParents clock (Path.abs_path p) s)).
Proof.
  intros Hp. unfold ensureParents, mbind, M_bind, get. destruct (path_snoc p) as [->|(dir & x & ->)].
  - change (Path.dirname (Path.abs_path [])) with (Path.abs_path []). destruct (has_file _ s); [apply grows_refl|].
    destruct (has_dir _ s); [apply grows_refl|]. rewrite split_path_abs by done. apply (make_dirs_grows [] [] s).
  - rewrite dirname_abs by done. destruct (has_file _ s); [apply grows_refl|]. destruct (has_dir _ s); [apply grows_refl|].
    apply Forall_app in Hp as [Hp _]. rewrite split_path_abs by done.
    destruct (make_dirs_grows dir [] s) as (Hf & Hmore & Hfrom). split_and!; [done|done|]. intros k Hk.
    destruct (Hfrom k Hk) as [?|(r & Hr & ->)]; [by left|right]. exists r. split; [|done]. by apply prefix_app_r.
Qed.

Section Below.
  Context (K q : path) (s : MemFs.state).
  Context (p_clean : Forall Path.clean (K ++ q)) (s_wf : wf s).
Abbreviation p := (K ++ q).
Abbreviation P := (Path.abs_path p).

Lemma key_p : key P = P.
Proof. by apply key_abs_path. Qed.
Lemma below : K `prefix_of` p.
Proof. by exists q. Qed.

Lemma grows_undisturbed s' : grows p s s' -> undisturbed K s s'.
Proof. intros (Hf & Hmore & Hfrom). apply (undisturbed_dirs K p); [done|apply below|done..]. Qed.

(** What [writeBytes] and [appendText] share. *)
Lemma write_undisturbed (b : MemFs.state -> list N) :
  undisturbed K s (snd ((_ ← ensureParents clock P; s1 ← get; _ ← modify (set_file P (b s1)); touch clock P) s)).
Proof.
  pose proof (grows_undisturbed _ (ensureParents_grows p s p_clean)) as Hg. unfold mbind at 1, M_bind at 1.
  destruct (ensureParents clock P s) as [[u|e] s1]; [|exact Hg]. eapply undisturbed_trans; [exact Hg|].
  run_pure. rewrite touch_eq.
  apply (undisturbed_node K p); [done|apply below| |done]. intros k Hk. cbn. by rewrite lookup_insert_ne.
Qed.

Lemma mkdir_undisturbed : undisturbed K s (snd (mkdir clock P true s)).
Proof.
  unfold mkdir. rewrite key_p. unfold mbind, M_bind, get. destruct (has_file P s); [apply undisturbed_refl|].
  destruct (has_dir P s); [apply undisturbed_refl|]. rewrite split_path_abs by done.
  apply grows_undisturbed, (make_dirs_grows p []).
Qed.

Lemma writeText_undisturbed text : undisturbed K s (snd (writeText clock P text s)).
Proof.
  unfold writeText, writeBytes. rewrite key_p. unfold mbind at 1, M_bind at 1, get.
  destruct (has_dir P s); [apply undisturbed_refl|]. apply (write_undisturbed (fun _ => Utf8.encode text)).
Qed.

Lemma appendText_undisturbed text : undisturbed K s (snd (appendText clock P text s)).
Proof.
  unfold appendText. rewrite key_p. unfold mbind at 1, M_bind at 1, get at 1.
  destruct (has_dir P s); [apply undisturbed_refl|].
  apply (write_undisturbed (fun s1 => default [] (files s1 !! P) ++ Utf8.encode text)).
Qed.

Lemma remove_undisturbed : undisturbed K s (snd (remove P s)).
Proof.
  unfold remove. rewrite key_p. unfold mbind, M_bind, get. destruct (has_file P s).
  - apply (undisturbed_node K p); [done|apply below| |done]. intros k Hk. cbn. by rewrite lookup_delete_ne.
  - destruct (has_dir P s); apply undisturbed_refl.
Qed.

Lemma rmdir_undisturbed : undisturbed K s (snd (rmdir clock P true s)).
Proof.
  unfold rmdir. rewrite key_p. unfold mbind at 1, M_bind at 1, get. destruct (negb (has_dir P s)).
  { destruct (has_file P s); apply undisturbed_refl. }
  apply undisturbed_below. intros r Hr Hk. rewrite removeSubtree_files, removeSubtree_dirs.
  assert (covered P (Path.abs_path r) = false) as Hcov.
  { apply not_true_is_false. intros Hc. apply covered_spec in Hc; [|done..]. apply Hk. etrans; [apply below|done]. }
  split.
  - rewrite map_lookup_filter. destruct (files s !! _) as [b|]; [|done]. cbn [mbind option_bind fst]. by rewrite Hcov.
  - rewrite elem_of_union, elem_of_filter, elem_of_singleton, Hcov. pose proof (wf_root s s_wf). split; [|by right].
    by intros [->|[_ ?]].
Qed.

End Below.
(** *** All of them *)

Section Requests.
  Context `{Performance MemFs.state}.
  (** The host's timers know nothing of the files. *)
  Context (timeNow_apart : pure_state (S := MemFs.state) timeNow) (performanceNow_apart : pure_state (S := MemFs.state) performanceNow).

Definition untouched (K : path) (s0 s : MemFs.state) : Prop := wf s /\ undisturbed K s0 s.

Lemma step_untouched {A} K s0 (m : M MemFs.state A) : (forall s, wf s -> wf (snd (m s)) /\ undisturbed K s (snd (m s))) ->
  keeps (untouched K s0) m any.
Proof. intros Hm s [Hw Hu]. destruct (Hm s Hw) as [Hw' Hu']. split; [|done]. split; [done|]. by eapply undisturbed_trans. Qed.

Lemma read_untouched {A} K s0 (m : M MemFs.state A) : pure_state m -> keeps (untouched K s0) m any.
Proof. intros Hm. apply step_untouched. intros s Hw. rewrite Hm. split; [done|apply undisturbed_refl]. Qed.

Lemma list_names p : Forall Path.clean p -> forall s, wf s -> snd (list_ (Path.abs_path p) s) = s /\
  forall names, fst (list_ (Path.abs_path p) s) = Ok names -> Forall Path.clean names.
Proof.
  intros Hp s Hw. unfold MemFs.list_. rewrite key_abs_path by done. unfold mbind, M_bind, get. destruct (negb _); [done|].
  split; [done|]. intros names E. cbn in E. apply Ok_inj in E as <-. apply Forall_forall. intros x Hx.
  apply names_under_spec in Hx as (r & Hr & _); [|done..]. apply Forall_app in Hr as [_ Hr]. by apply Forall_cons in Hr as [? _].
Qed.

Lemma memory_guarded K s0 : guarded K (untouched K s0).
Proof.
  split.
  - intros p _. by apply read_untouched.
  - intros p _. by apply read_untouched.
  - intros p _. apply read_untouched. intros s. unfold Filesystem.mtimeMs, mem_fs, MemFs.memory, MemFs.mtimeMs, mbind, M_bind, get.
    by destruct (_ && _).
  - intros p _. apply read_untouched. intros s. unfold Filesystem.readText, mem_fs, MemFs.memory, MemFs.readText, MemFs.readBytes.
    unfold fmap, M_fmap, mbind, M_bind, get. by destruct (_ !! _).
  - intros p _. apply read_untouched. intros s. unfold Filesystem.readBytes, mem_fs, MemFs.memory, MemFs.readBytes, mbind, M_bind, get.
    by destruct (_ !! _).
  - intros p (q & Hq & ->) s [Hw Hu]. destruct (list_names _ Hq s Hw) as [E Hn]. cbn [Filesystem.list_ mem_fs MemFs.memory]. rewrite E.
    by split.
  - intros p (q & Hq & ->). apply step_untouched. intros s Hw. split; [|by apply mkdir_undisturbed].
    by apply mkdir_wf, Path.isAbsolute_abs_path.
  - intros p (q & Hq & ->). apply step_untouched. intros s Hw. split; [|by apply rmdir_undisturbed].
    by apply rmdir_wf, Path.isAbsolute_abs_path.
  - intros p text (q & Hq & ->). apply step_untouched. intros s Hw. split; [|by apply writeText_undisturbed].
    by apply writeBytes_wf, Path.isAbsolute_abs_path.
  - intros p text (q & Hq & ->). apply step_untouched. intros s Hw. split; [|by apply appendText_undisturbed].
    apply (run_wf clock (OAppendText _ text)); [apply Path.isAbsolute_abs_path|done].
  - intros p (q & Hq & ->). apply step_untouched. intros s Hw. split; [|by apply remove_undisturbed].
    by apply remove_wf, Path.isAbsolute_abs_path.
  - apply step_untouched. intros s Hw. split; [by apply wf_reads|]. by apply undisturbed_below.
  - by apply read_untouched.
  - by apply read_untouched.
Qed.

Section Served.
  Context (R : path) (R_clean : Forall Path.clean R).
  Context (sha256Hex : jstr -> jstr) (scanners : option PrefixIndex.scanner_factory) (worm : bool).
  Context (inherited : jstr -> option (value -> M (Engine.core MemFs.state) value)).
  (** The methods every object inherits do not reach the files. *)
  Context (inherited_apart : forall op h request s, inherited op = Some h -> Engine.core_disk (snd (h request s)) = Engine.core_disk s).

(** The core whose root is the directory [R] serves a request. *)
Definition serve_at (request : value) : M (Engine.core MemFs.state) value :=
  Protocol.serve sha256Hex scanners (Path.abs_path R) worm inherited request.

Lemma serve_untouched K s0 request : request_in_scope R K (to_str (prop request (js "op"))) request ->
  keeps (core_keeps (untouched K s0)) (serve_at request) any.
Proof.
  intros Hscope. apply keeps_serve with (K := K); [done|apply memory_guarded| |done].
  intros op h r Hin s Hs. split; [|done]. unfold core_keeps. by rewrite (inherited_apart op).
Qed.

(** C10: a request about one collection, other than a join or SQL, leaves the files and
    directories outside that collection's directory as they were, whatever else it holds:
    only directories on the way to the collection may appear. *)
Theorem requests_stay_in_their_collection c request (s : Engine.core MemFs.state) :
  wf (Engine.core_disk s) -> prop request (js "collection") = VStr c -> wanders (to_str (prop request (js "op"))) = false ->
  let s' := snd (serve_at request s) in
  wf (Engine.core_disk s') /\ undisturbed (R ++ [Lifecycle.COLLECTIONS; c]) (Engine.core_disk s) (Engine.core_disk s').
Proof.
  intros Hw Hc Ho. apply (serve_untouched (Lifecycle.home R c) (Engine.core_disk s)); [|split; [done|apply undisturbed_refl]].
  split; [|by rewrite Ho]. intros c' Hc'. rewrite Hc in Hc'. injection Hc' as <-. exists []. by rewrite app_nil_r.
Qed.

(** C9: whatever requests a core serves one after the other, joins and SQL included, the
    filesystem stays a tree and nothing outside the core's root changes. *)
Theorem requests_stay_below_the_root requests (s : Engine.core MemFs.state) :
  wf (Engine.core_disk s) ->
  let s' := fold_left (fun s request => snd (serve_at request s)) requests s in
  wf (Engine.core_disk s') /\ undisturbed R (Engine.core_disk s) (Engine.core_disk s').
Proof.
  intros Hw. assert (untouched R (Engine.core_disk s) (Engine.core_disk s)) as Hu by (split; [done|apply undisturbed_refl]).
  revert Hu. generalize (Engine.core_disk s) at 1 3 as s0. clear Hw. revert s. induction requests as [|request requests IH]; intros s s0 Hu; [exact Hu|].
  cbn [fold_left]. apply IH. apply (serve_untouched R s0 request); [|exact Hu].
  split; intros; unfold in_scope, Lifecycle.home; by apply prefix_app_r.
Qed.

End Served.
End Requests.
End Memory.
(** ** A core on memory *)

Definition put_ann : value :=
  VObj [(js "op", VStr (js "putData")); (js "collection", VStr Lifecycle.people); (js "data", VObj [(Lifecycle.ann_id, VObj Lifecycle.ann)])].
Definition climb : value := VObj [(js "op", VStr (js "createCollection")); (js "collection", VStr (js "../../etc"))].

Definition shelf_core : Engine.core MemFs.state := Engine.new_core (MemFs.init Lifecycle.noon).
Definition serve_shelf : value -> M (Engine.core MemFs.state) value :=
  serve_at Lifecycle.noon (H := Lifecycle.noon_performance) [js "data"] IndexComplete.Complete.length_digest None false (fun _ => None).

Lemma requests_stay_in_their_collection_witness :
  prop put_ann (js "collection") = VStr Lifecycle.people /\
  let s' := snd (serve_shelf put_ann shelf_core) in
  wf (Engine.core_disk s') /\
  undisturbed ([js "data"] ++ [Lifecycle.COLLECTIONS; Lifecycle.people]) (Engine.core_disk shelf_core) (Engine.core_disk s').
Proof.
  split; [reflexivity|].
  refine (requests_stay_in_their_collection Lifecycle.noon _ _ [js "data"] _ _ _ _ _ _ Lifecycle.people put_ann shelf_core _ _ _).
  - intros s. reflexivity.
  - intros s. reflexivity.
  - by apply (bool_decide_unpack _).
  - intros op h request s Hin. discriminate Hin.
  - exact (init_wf Lifecycle.noon).
  - reflexivity.
  - reflexivity.
Defined.

Lemma requests_stay_below_the_root_witness :
  let s' := fold_left (fun s request => snd (serve_shelf request s)) [climb; put_ann] shelf_core in
  wf (Engine.core_disk s') /\ undisturbed [js "data"] (Engine.core_disk shelf_core) (Engine.core_disk s').
Proof.
  refine (requests_stay_below_the_root Lifecycle.noon _ _ [js "data"] _ _ _ _ _ _ [climb; put_ann] shelf_core _).
  - intros s. reflexivity.
  - intros s. reflexivity.
  - by apply (bool_decide_unpack _).
  - intros op h request s Hin. discriminate Hin.
  - exact (init_wf Lifecycle.noon).
Defined.

End Isolation.
