(* ===== verification/Overlay.v ===== *)
(** The copy-on-write overlay of [src/browser/fsa-filesystem.js]: reads fall through to a
    base filesystem, writes land in a layer in memory. *)

From stdpp Require Import gmap.
From S2P Require Import Prelude PathUtil JsNum JsValue Utf8 Filesystem MemFs MemFsLaws PrefixIndex IndexComplete.
From S2P Require Import Engine Lifecycle Protocol Containment Isolation.

Module Overlay.

(** The base, the layer, and the set [removed] of normalised paths. *)
Record overlay (B : Type) := mkOverlay { base : B; layer : MemFs.state; removed : gset jstr }.
Arguments mkOverlay {B}. Arguments base {B}. Arguments layer {B}. Arguments removed {B}.

Section Overlay.
  Context {B : Type} `{FyloFilesystem B}.
  Context (clock : nat -> Z).

Abbreviation state := (overlay B) (only parsing).

Definition on_base {A} (m : M B A) : M state A := fun s =>
  let '(r, b) := m (base s) in (r, mkOverlay b (layer s) (removed s)).
Definition on_layer {A} (m : M MemFs.state A) : M state A := fun s =>
  let '(r, l) := m (layer s) in (r, mkOverlay (base s) l (removed s)).

Definition key (path : jstr) : jstr := Path.normalize path.
Definition hide (path : jstr) : M state () := modify (fun s => mkOverlay (base s) (layer s) ({[key path]} ∪ removed s)).
Definition show (path : jstr) : M state () := modify (fun s => mkOverlay (base s) (layer s) (removed s ∖ {[key path]})).
Definition hidden (path : jstr) : M state bool := gets (fun s => bool_decide (key path ∈ removed s)).

Definition in_layer (path : jstr) : M state bool := on_layer (MemFs.exists_ path).

Definition inBase (path : jstr) : M state bool :=
  gone ← hidden path;
  if gone : bool then mret false else on_base (Filesystem.exists_ path).

Definition copyUp (path : jstr) : M state () :=
  here ← in_layer path;
  if here : bool then mret ()
  else
    there ← inBase path;
    when there (bytes ← on_base (Filesystem.readBytes path); on_layer (MemFs.writeBytes clock path bytes)).

(** A read: of the layer where it has the path, of the base otherwise. *)
Definition through {A} (path : jstr) (ofLayer : M MemFs.state A) (ofBase : M B A) : M state A :=
  here ← in_layer path;
  if here : bool then on_layer ofLayer else on_base ofBase.

Definition exists_ (path : jstr) : M state bool :=
  here ← in_layer path; if here : bool then mret true else inBase path.

Definition isDirectory (path : jstr) : M state bool :=
  here ← in_layer path;
  if here : bool then on_layer (MemFs.isDirectory path)
  else
    gone ← hidden path;
    if gone : bool then mret false else on_base (Filesystem.isDirectory path).

Definition mtimeMs (path : jstr) : M state Z := through path (MemFs.mtimeMs path) (Filesystem.mtimeMs path).
Definition size (path : jstr) : M state nat := through path (MemFs.size path) (Filesystem.size path).
Definition readText (path : jstr) : M state jstr := through path (MemFs.readText path) (Filesystem.readText path).
Definition readBytes (path : jstr) : M state (list N) := through path (MemFs.readBytes path) (Filesystem.readBytes path).

Definition mkdir (path : jstr) (recursive : bool) : M state () := on_layer (MemFs.mkdir clock path recursive).

(** The names of a set kept in order of insertion. *)
Definition add_name (names : list jstr) (name : jstr) : list jstr := if decide (name ∈ names) then names else names ++ [name].

Definition list_ (path : jstr) : M state (list jstr) :=
  gone ← hidden path;
  names ← (if gone : bool then mret []
           else try_catch
                  (found ← on_base (Filesystem.list_ path);
                   fold_m (fun names name =>
                     out ← hidden (path ++ Path.SEPARATOR ++ name);
                     mret (if out : bool then names else add_name names name)) found [])
                  (fun _ => mret []));
  names' ← try_catch (found ← on_layer (MemFs.list_ path); mret (fold_left add_name found names)) (fun _ => mret names);
  mret (sort_strings names').

Definition rmdir (path : jstr) (recursive : bool) : M state () :=
  _ ← hide path; try_catch (on_layer (MemFs.rmdir clock path recursive)) (fun _ => mret ()).

Definition writeText (path data : jstr) : M state () := _ ← show path; on_layer (MemFs.writeText clock path data).
Definition writeBytes (path : jstr) (data : list N) : M state () := _ ← show path; on_layer (MemFs.writeBytes clock path data).
Definition appendText (path data : jstr) : M state () :=
  _ ← copyUp path; _ ← show path; on_layer (MemFs.appendText clock path data).

Definition remove (path : jstr) : M state () :=
  _ ← hide path; try_catch (on_layer (MemFs.remove path)) (fun _ => mret ()).

Definition move (source target : jstr) : M state () :=
  _ ← copyUp source; _ ← on_layer (MemFs.move clock source target); _ ← hide source; show target.

Definition withSession {A} (path : jstr) (body : M state A) : M state A := body.

(** [createOverlayFilesystem(base)] *)
Definition createOverlayFilesystem (b : B) : state := mkOverlay b (MemFs.init clock) ∅.

#[export] Instance overlay_fs : FyloFilesystem state := {
  Filesystem.exists_ := exists_;
  Filesystem.isDirectory := isDirectory;
  Filesystem.mtimeMs := mtimeMs;
  Filesystem.size := size;
  Filesystem.mkdir := mkdir;
  Filesystem.list_ := list_;
  Filesystem.rmdir := rmdir;
  Filesystem.readText := readText;
  Filesystem.readBytes := readBytes;
  Filesystem.writeText := writeText;
  Filesystem.writeBytes := writeBytes;
  Filesystem.appendText := appendText;
  Filesystem.remove := remove;
  Filesystem.move := move
}.

#[export] Instance overlay_clock : Clock state := on_layer (now (Clock := MemFs.memory_clock clock)).

(** ** The base is only read *)

Section ReadOnly.
  Import Triple Containment.
  Context `{Performance state}.
  Context (timeNow_apart : pure_state (S := state) timeNow) (performanceNow_apart : pure_state (S := state) performanceNow).
  Context (R : path) (R_clean : Forall Path.clean R) (b0 : B).

(** Reading the base leaves it alone, and its listings hold names. *)
Record readable : Prop := {
  readable_exists p : snd (Filesystem.exists_ p b0) = b0;
  readable_isDirectory p : snd (Filesystem.isDirectory p b0) = b0;
  readable_mtimeMs p : snd (Filesystem.mtimeMs p b0) = b0;
  readable_size p : snd (Filesystem.size p b0) = b0;
  readable_readText p : snd (Filesystem.readText p b0) = b0;
  readable_readBytes p : snd (Filesystem.readBytes p b0) = b0;
  readable_list p : snd (Filesystem.list_ p b0) = b0;
  readable_names p names : within R p -> fst (Filesystem.list_ p b0) = Ok names -> Forall Path.clean names
}.
Context (b0_readable : readable).

Definition over (s : state) : Prop := base s = b0 /\ MemFsLaws.wf (layer s).

Lemma over_base {A} (m : M B A) : snd (m b0) = b0 -> keeps over (on_base m) (fun a => fst (m b0) = Ok a).
Proof.
  intros Hm s [<- Hw]. unfold on_base. destruct (m (base s)) as [r b]. cbn [fst snd] in *. subst b. by destruct s.
Qed.
Lemma over_layer {A} (m : M MemFs.state A) Q : keeps MemFsLaws.wf m Q -> keeps over (on_layer m) Q.
Proof. intros Hm s [Hb Hw]. unfold on_layer. destruct (Hm _ Hw) as [Hw' Hq]. destruct (m (layer s)) as [r l]. by split. Qed.
Lemma over_any {A} (m : M B A) : snd (m b0) = b0 -> keeps over (on_base m) any.
Proof. intros Hm. by eapply keeps_any, over_base. Qed.
Lemma layer_pure {A} (m : M MemFs.state A) : pure_state m -> keeps over (on_layer m) any.
Proof. intros Hm. apply over_layer. intros l Hl. rewrite Hm. by split. Qed.
Lemma over_set f : (forall s : state, base (f s) = base s /\ layer (f s) = layer s) -> keeps over (modify f) any.
Proof. intros Hf. apply keeps_modify. intros s [Hb Hw]. destruct (Hf s) as [Eb El]. split; congruence. Qed.

Lemma over_in_layer p : keeps over (in_layer p) any.
Proof. by apply layer_pure. Qed.
Lemma over_hidden p : keeps over (hidden p) any.
Proof. apply keeps_gets. Qed.
Lemma over_hide p : keeps over (hide p) any.
Proof. by apply over_set. Qed.
Lemma over_show p : keeps over (show p) any.
Proof. by apply over_set. Qed.
#[local] Hint Resolve over_in_layer over_hidden over_hide over_show : contained.

Lemma over_exists_base p : keeps over (on_base (Filesystem.exists_ p)) any.
Proof. apply over_any, (readable_exists b0_readable). Qed.
#[local] Hint Resolve over_exists_base : contained.
Lemma over_inBase p : keeps over (inBase p) any.
Proof. unfold inBase. contain. Qed.
#[local] Hint Resolve over_inBase : contained.

(** What writes to the layer, at an absolute path. *)
Lemma over_write op : MemFsLaws.absolute op = true -> keeps over (on_layer (MemFsLaws.run clock op)) any.
Proof. intros Ha. apply over_layer. intros l Hl. split; [by apply MemFsLaws.run_wf|done]. Qed.

Lemma over_copyUp p : within R p -> keeps over (copyUp p) any.
Proof.
  intros (q & Hq & ->). unfold copyUp. contain; [apply over_any, (readable_readBytes b0_readable)|].
  apply (over_write (MemFsLaws.OWriteBytes _ _)), Path.isAbsolute_abs_path.
Qed.
#[local] Hint Resolve over_copyUp : contained.

Lemma mem_readBytes p : pure_state (MemFs.readBytes p).
Proof. intros l. unfold MemFs.readBytes, mbind, M_bind, get. by destruct (_ !! _). Qed.
Lemma mem_readText p : pure_state (MemFs.readText p).
Proof. intros l. pose proof (mem_readBytes p l) as E. unfold MemFs.readText, fmap, M_fmap. by destruct (MemFs.readBytes p l) as [[a|e] l']. Qed.
Lemma mem_mtimeMs p : pure_state (MemFs.mtimeMs p).
Proof. intros l. unfold MemFs.mtimeMs, mbind, M_bind, get. by destruct (_ && _). Qed.

Lemma over_through {A} p (m : M MemFs.state A) (n : M B A) : pure_state m -> snd (n b0) = b0 -> keeps over (through p m n) any.
Proof. intros Hm Hn. unfold through. contain; [by apply layer_pure|by apply over_any]. Qed.

Lemma add_names found : forall names, Forall Path.clean names -> Forall Path.clean found -> Forall Path.clean (fold_left add_name found names).
Proof.
  induction found as [|x found IH]; intros names Hn Hf; [done|]. apply Forall_cons in Hf as [Hx Hf]. cbn [fold_left]. apply IH; [|done].
  unfold add_name. destruct (decide _); [done|]. apply Forall_app. split; [done|by apply Forall_singleton].
Qed.

Lemma clean_sorted names : Forall Path.clean names -> Forall Path.clean (sort_strings names).
Proof. intros Hn. apply Forall_forall. intros x. rewrite sort_strings_perm. by apply Forall_forall. Qed.

Lemma mem_names p : Forall Path.clean p -> keeps MemFsLaws.wf (MemFs.list_ (Path.abs_path p)) (Forall Path.clean).
Proof. intros Hp l Hl. destruct (Isolation.list_names p Hp l Hl) as [-> Hn]. by split. Qed.

Lemma over_list p : within R p -> keeps over (list_ p) (Forall Path.clean).
Proof.
  intros Hp. unfold list_. apply (keeps_bind _ _ _ any); [apply over_hidden|]. intros gone _.
  apply (keeps_bind _ _ _ (Forall Path.clean)).
  - destruct gone; [by apply keeps_ret|]. apply keeps_try; [|intros e; by apply keeps_ret].
    apply (keeps_bind _ _ _ (Forall Path.clean)).
    { eapply keeps_weaken; [apply over_base, (readable_list b0_readable)|]. intros names. by apply (readable_names b0_readable). }
    intros found Hf. generalize (Forall_nil_2 Path.clean). generalize (@nil jstr).
    induction Hf as [|x found Hx Hf IH]; intros names Hn; cbn [fold_m]; [by apply keeps_ret|].
    apply (keeps_bind _ _ _ (Forall Path.clean)); [|done]. apply (keeps_bind _ _ _ any); [apply over_hidden|]. intros out _.
    apply keeps_ret. destruct out; [done|]. apply (add_names [x]); [done|by apply Forall_singleton].
  - intros names Hn. apply (keeps_bind _ _ _ (Forall Path.clean)); [|intros names' Hn'; by apply keeps_ret, clean_sorted].
    apply keeps_try; [|intros e; by apply keeps_ret]. destruct Hp as (q & Hq & ->).
    apply (keeps_bind _ _ _ (Forall Path.clean)); [by apply over_layer, mem_names|]. intros found Hf. by apply keeps_ret, add_names.
Qed.

Lemma overlay_guarded : guarded R over.
Proof.
  split.
  - intros p _. change (keeps over (exists_ p) any). unfold exists_. contain.
  - intros p _. change (keeps over (isDirectory p) any). unfold isDirectory. contain; [by apply layer_pure|].
    apply over_any, (readable_isDirectory b0_readable).
  - intros p _. exact (over_through p _ _ (mem_mtimeMs p) (readable_mtimeMs b0_readable p)).
  - intros p _. exact (over_through p _ _ (mem_readText p) (readable_readText b0_readable p)).
  - intros p _. exact (over_through p _ _ (mem_readBytes p) (readable_readBytes b0_readable p)).
  - apply over_list.
  - intros p (q & Hq & ->). apply (over_write (MemFsLaws.OMkdir _ true)), Path.isAbsolute_abs_path.
  - intros p (q & Hq & ->). change (keeps over (rmdir (Path.abs_path (R ++ q)) true) any). unfold rmdir. contain.
    apply (over_write (MemFsLaws.ORmdir _ true)), Path.isAbsolute_abs_path.
  - intros p text (q & Hq & ->). change (keeps over (writeText (Path.abs_path (R ++ q)) text) any). unfold writeText. contain.
    apply (over_write (MemFsLaws.OWriteText _ _)), Path.isAbsolute_abs_path.
  - intros p text Hp. change (keeps over (appendText p text) any). unfold appendText. contain. destruct Hp as (q & Hq & ->).
    apply (over_write (MemFsLaws.OAppendText _ _)), Path.isAbsolute_abs_path.
  - intros p (q & Hq & ->). change (keeps over (remove (Path.abs_path (R ++ q))) any). unfold remove. contain.
    apply (over_write (MemFsLaws.ORemove _)), Path.isAbsolute_abs_path.
  - apply over_layer. intros l Hl. split; [by apply MemFsLaws.wf_reads|done].
  - intros s Hs. by rewrite timeNow_apart.
  - intros s Hs. by rewrite performanceNow_apart.
Qed.

Section Served.
  Import Engine Lifecycle.
  Context (sha256Hex : jstr -> jstr) (scanners : option PrefixIndex.scanner_factory) (worm : bool).
  Context (inherited : jstr -> option (value -> M (core state) value)).
  (** The methods every object inherits do not reach the files. *)
  Context (inherited_apart : forall op h request s, inherited op = Some h -> core_disk (snd (h request s)) = core_disk s).

(** The core over an overlay serves a request. *)
Definition serve_over (request : value) : M (core state) value :=
  Protocol.serve sha256Hex scanners (Path.abs_path R) worm inherited request.

(** C11: over an overlay a core leaves the base as it is, whatever requests it serves:
    documents, journals, index files and removals all stay in memory. *)
Theorem overlay_never_writes_the_base requests :
  let s' := fold_left (fun s request => snd (serve_over request s)) requests (new_core (createOverlayFilesystem b0)) in
  base (core_disk s') = b0.
Proof.
  assert (core_keeps over (new_core (createOverlayFilesystem b0))) as Hs by (split; [done|apply MemFsLaws.init_wf]).
  revert Hs. generalize (new_core (createOverlayFilesystem b0)) as s. induction requests as [|request requests IH]; intros s Hs; [by destruct Hs|].
  cbn [fold_left]. apply IH. apply (keeps_serve R R over R_clean overlay_guarded); [| |exact Hs].
  - intros op h r Hin c Hc. split; [|done]. unfold core_keeps. by rewrite (inherited_apart op).
  - split; intros; unfold in_scope, home; by apply prefix_app_r.
Qed.

End Served.
End ReadOnly.
End Overlay.
(** ** Over a directory in memory *)

Section Picked.
Import Engine Lifecycle.

#[local] Existing Instance noon_fs.
#[local] Existing Instance noon_clock.
#[local] Existing Instance noon_performance.
#[local] Instance picked_fs : FyloFilesystem (overlay MemFs.state) := overlay_fs noon.
#[local] Instance picked_clock : Clock (overlay MemFs.state) := overlay_clock noon.
#[local] Instance picked_performance : Performance (overlay MemFs.state) := {
  timeNow := mret (js "4ndzw6p09a8");
  performanceNow := mret Num.zero
}.

(** A directory with the collection [people] and one document, as a core wrote it. *)
Definition picked : MemFs.state :=
  core_disk (snd (putData Complete.length_digest (root_path []) false people [(ann_id, VObj ann)] None people_core)).
Definition explorer : core (overlay MemFs.state) := new_core (createOverlayFilesystem noon picked).

Definition drop_and_create {D} `{FyloFilesystem D, Clock D} (s : core D) : core D :=
  snd (createCollection (root_path []) people (snd (dropCollection (root_path []) false people s))).

(** Over an overlay a collection that is dropped and created again has its old documents
    back, since a removal hides one path and not what is below it; straight on the directory
    it is empty. *)
Theorem dropped_collection_returns :
  let ask D `{FyloFilesystem D, Clock D} (s : core D) := fst (getDoc_once (root_path []) people ann_id false s) in
  ask _ explorer = Ok (VObj [(ann_id, VObj ann)]) /\
  is_ok (ask _ (snd (dropCollection (root_path []) false people explorer))) = false /\
  ask _ (drop_and_create explorer) = Ok (VObj [(ann_id, VObj ann)]) /\
  ask _ (drop_and_create (new_core picked)) = Ok (VObj []).
Proof. cbv zeta. split_and!; by vm_compute. Qed.

Lemma memory_readable R d : MemFsLaws.wf d -> readable R d.
Proof.
  intros Hw. split; try done.
  - intros p. apply mem_mtimeMs.
  - intros p. unfold Filesystem.size, noon_fs, MemFs.memory, MemFs.size, mbind, M_bind, get. by destruct (_ !! _).
  - intros p. apply mem_readText.
  - intros p. apply mem_readBytes.
  - intros p. unfold Filesystem.list_, noon_fs, MemFs.memory, MemFs.list_, mbind, M_bind, get. by destruct (negb _).
  - intros p names (q & Hq & ->). by apply Isolation.list_names.
Qed.

Lemma overlay_never_writes_the_base_witness :
  base (core_disk (fold_left (fun s request =>
    snd (serve_over noon [js "data"] Complete.length_digest None false (fun _ => None) request s))
    [Isolation.climb; Isolation.put_ann] (new_core (createOverlayFilesystem noon (MemFs.init noon))))) = MemFs.init noon.
Proof.
  refine (overlay_never_writes_the_base noon _ _ [js "data"] _ (MemFs.init noon) _ _ _ _ _ _ [Isolation.climb; Isolation.put_ann]).
  - intros s. reflexivity.
  - intros s. reflexivity.
  - by apply (bool_decide_unpack _).
  - apply memory_readable, MemFsLaws.init_wf.
  - intros op h request s Hin. discriminate Hin.
Defined.

End Picked.
End Overlay.
