(* ===== verification/Opfs.v ===== *)
(** The filesystems of the browser's File System API: class [OpfsFilesystem] of
    [src/browser/opfs-filesystem.js] and [FsaFilesystem] of [src/browser/fsa-filesystem.js],
    which differ in where their root comes from.  The API is a parameter. *)

From stdpp Require Import gmap.
From S2P Require Import Prelude PathUtil JsNum JsValue Utf8 Shard Filesystem MemFs PrefixIndex IndexComplete Engine Lifecycle.

Module Opfs.
Import Utf8.

(** What the filesystem calls of the API, with handles of directories [DH], of files [FH],
    writable streams [W] and synchronous access handles [X]. *)
Class FileSystemApi (S DH FH W X : Type) := {
  getDirectory : M S DH;                              (* navigator.storage.getDirectory *)
  getDirectoryHandle : DH -> jstr -> bool -> M S DH;
  getFileHandle : DH -> jstr -> bool -> M S FH;
  removeEntry : DH -> jstr -> bool -> M S ();
  entry_names : DH -> M S (list jstr);                (* keys *)
  lastModified : FH -> M S Z;                         (* getFile, then lastModified *)
  file_size : FH -> M S nat;
  arrayBuffer : FH -> M S (list N);
  createWritable : FH -> M S W;
  write : W -> list N -> M S ();
  close : W -> M S ();
  hasSyncAccess : FH -> bool;                         (* 'createSyncAccessHandle' in handle *)
  createSyncAccessHandle : FH -> M S X;
  access_getSize : X -> M S nat;
  access_write : X -> list N -> nat -> M S ();
  access_flush : X -> M S ();
  access_close : X -> M S ()
}.

(** The fields of the class; [rootHandle] is the one a [FsaFilesystem] was given. *)
Record opfs (S DH : Type) := mkOpfs {
  api : S;
  rootHandle : option DH;
  rootPromise : option (outcome DH);
  dirCache : gmap jstr DH
}.
Arguments mkOpfs {S DH}. Arguments api {S DH}. Arguments rootHandle {S DH}. Arguments rootPromise {S DH}. Arguments dirCache {S DH}.

Definition unavailable : js_error := Error (js "OPFS is not available in this browser context").
Definition isNotFound (error : js_error) : bool := jeqb (err_name error) (js "NotFoundError").

Definition key (path : jstr) : jstr :=
  let normalised := Path.normalize path in
  if starts_with Path.SEPARATOR normalised then drop 1 normalised else normalised.

Definition basename (path : jstr) : jstr :=
  let k := key path in
  match last_index_of PathUtil.c_slash k with None => k | Some index => drop (S index) k end.

(** [key || '/'] *)
Definition cache_key (path : jstr) : jstr := if jeqb (key path) [] then Path.SEPARATOR else key path.
(** [key.split('/').filter(Boolean)] *)
Definition segments (k : jstr) : list jstr := filter (fun s => s <> []) (split_on PathUtil.c_slash k).

Section Opfs.
  Context {S DH FH W X : Type} `{FileSystemApi S DH FH W X}.
  (** [hasOpfs(globalThis.navigator)], [this.namespace], and whether there is no document. *)
  Context (hasOpfs : bool) (namespace : jstr) (inWorker : bool).

Abbreviation state := (opfs S DH) (only parsing).

Definition on_api {A} (m : M S A) : M state A := fun s =>
  let '(r, a) := m (api s) in (r, mkOpfs a (rootHandle s) (rootPromise s) (dirCache s)).
Definition set_rootPromise (o : outcome DH) (s : state) : state := mkOpfs (api s) (rootHandle s) (Some o) (dirCache s).
Definition set_dirCache (k : jstr) (h : DH) (s : state) : state :=
  mkOpfs (api s) (rootHandle s) (rootPromise s) (<[k := h]> (dirCache s)).

(** [root()]: a promise is kept, also one that was rejected. *)
Definition root : M state DH :=
  s ← get;
  match rootHandle s with
  | Some h => mret h
  | None =>
      match rootPromise s with
      | Some o => lift o
      | None =>
          if negb hasOpfs then throw unavailable
          else
            o ← try_catch (h ← on_api getDirectory; h' ← on_api (getDirectoryHandle h namespace true); mret (Ok h'))
                          (fun e => mret (Throw e));
            _ ← modify (set_rootPromise o);
            lift o
      end
  end.

Definition directoryHandle (path : jstr) (create : bool) : M state DH :=
  s ← get;
  match dirCache s !! cache_key path with
  | Some cached => mret cached
  | None =>
      handle ← root;
      if jeqb (key path) [] || jeqb (key path) dot then mret handle
      else
        handle' ← fold_m (fun handle segment => on_api (getDirectoryHandle handle segment create)) (segments (key path)) handle;
        _ ← modify (set_dirCache (cache_key path) handle');
        mret handle'
  end.

Definition fileHandle (path : jstr) (create : bool) : M state FH :=
  dir ← directoryHandle (Path.dirname path) create;
  on_api (getFileHandle dir (basename path) create).

Definition exists_ (path : jstr) : M state bool :=
  try_catch (_ ← fileHandle path false; mret true)
    (fun err =>
       if isNotFound err then mret false
       else try_catch (_ ← directoryHandle path false; mret true)
              (fun directoryErr => if isNotFound directoryErr then mret false else throw directoryErr)).

Definition isDirectory (path : jstr) : M state bool :=
  try_catch (_ ← directoryHandle path false; mret true)
    (fun err => if isNotFound err then mret false else throw err).

Definition mtimeMs (path : jstr) : M state Z := h ← fileHandle path false; on_api (lastModified h).
Definition size (path : jstr) : M state nat := h ← fileHandle path false; on_api (file_size h).
Definition mkdir (path : jstr) (recursive : bool) : M state () := _ ← directoryHandle path recursive; mret ().
Definition list_ (path : jstr) : M state (list jstr) :=
  dir ← directoryHandle path false; names ← on_api (entry_names dir); mret (sort_strings names).

Definition unless_not_found (m : M state ()) : M state () :=
  try_catch m (fun err => if isNotFound err then mret () else throw err).

Definition rmdir (path : jstr) (recursive : bool) : M state () :=
  parent ← directoryHandle (Path.dirname path) false;
  unless_not_found (on_api (removeEntry parent (basename path) recursive)).

Definition readBytes (path : jstr) : M state (list N) := h ← fileHandle path false; on_api (arrayBuffer h).
Definition readText (path : jstr) : M state jstr := bytes ← readBytes path; mret (decode bytes).

Definition writeBytes (path : jstr) (data : list N) : M state () :=
  handle ← fileHandle path true;
  writable ← on_api (createWritable handle);
  finally (on_api (write writable data)) (on_api (close writable)).
Definition writeText (path data : jstr) : M state () := writeBytes path (encode data).

Definition appendText (path data : jstr) : M state () :=
  handle ← fileHandle path true;
  if inWorker && hasSyncAccess handle then
    access ← on_api (createSyncAccessHandle handle);
    finally (at_ ← on_api (access_getSize access);
             _ ← on_api (access_write access (encode data) at_);
             on_api (access_flush access))
            (on_api (access_close access))
  else
    found ← exists_ path;
    existing ← (if found : bool then readBytes path else mret []);
    writeBytes path (existing ++ encode data).

Definition remove (path : jstr) : M state () :=
  parent ← directoryHandle (Path.dirname path) false;
  unless_not_found (on_api (removeEntry parent (basename path) false)).

Definition move (source target : jstr) : M state () :=
  bytes ← readBytes source; _ ← writeBytes target bytes; remove source.

Definition withSession {A} (path : jstr) (body : M state A) : M state A := body.

(** [createOpfsFilesystem({ namespace })] and [new FsaFilesystem(rootHandle)] *)
Definition createOpfsFilesystem (s : S) : state := mkOpfs s None None ∅.
Definition FsaFilesystem (s : S) (handle : DH) : state := mkOpfs s (Some handle) None ∅.

#[export] Instance opfs_fs : FyloFilesystem state := {
  Filesystem.exists_ := exists_;
  Filesystem.isDirectory := isDirectory;
  Filesystem.mtimeMs := mtimeMs;
  Filesystem.size := size;
  Filesystem.mkdir := mkdir;
  Filesystem.list_ := list_;
  Filesystem.rmdir := rmdir;
  Filesystem.readText := readText;
  Filesystem.readBytes := readBytes;
  Filesystem.writeText := writeText;
  Filesystem.writeBytes := writeBytes;
  Filesystem.appendText := appendText;
  Filesystem.remove := remove;
  Filesystem.move := move
}.

(** ** The cache of directory handles *)

(** The loop of [directoryHandle], from the root. *)
Definition walk (names : list jstr) (create : bool) (handle : DH) : M state DH :=
  fold_m (fun handle segment => on_api (getDirectoryHandle handle segment create)) names handle.

Lemma cached_handle path create s h : dirCache s !! cache_key path = Some h -> directoryHandle path create s = (Ok h, s).
Proof. intros E. unfold directoryHandle. run_pure. by rewrite E. Qed.

(** What neither reads nor writes the cache. *)
Definition apart {A} (m : M state A) : Prop := forall s, dirCache (snd (m s)) = dirCache s.

Lemma apart_api {A} (m : M S A) : apart (on_api m).
Proof. intros s. unfold on_api. by destruct (m (api s)). Qed.
Lemma apart_bind {A B} (m : M state A) (f : A -> M state B) : apart m -> (forall a, apart (f a)) -> apart (m ≫= f).
Proof.
  intros Hm Hf s. specialize (Hm s). unfold mbind, M_bind. destruct (m s) as [[a|e] s']; [|exact Hm]. cbn [snd] in Hm. by rewrite Hf.
Qed.
Lemma apart_walk names create h : apart (walk names create h).
Proof. revert h. induction names as [|x names IH]; intros h; [by intros s|]. apply apart_bind; [apply apart_api|done]. Qed.
Lemma apart_root : apart root.
Proof.
  intros s. unfold root. run_pure. destruct (rootHandle s); [done|]. destruct (rootPromise s); [done|]. destruct (negb hasOpfs); [done|].
  unfold mbind, M_bind. destruct (try_catch _ _ s) as [[o|e] s1] eqn:E.
  - assert (dirCache s1 = dirCache s) as Ec; [|cbn; by destruct o].
    revert E. unfold try_catch, mbind, M_bind, on_api. destruct (getDirectory (api s)) as [[d|e] a]; cbn [api rootHandle rootPromise dirCache].
    + destruct (getDirectoryHandle d namespace true a) as [[d'|e] a']; by intros [= _ <-].
    + by intros [= _ <-].
  - revert E. unfold try_catch, mbind, M_bind. destruct (on_api getDirectory s) as [[d|e'] s2]; [|done].
    by destruct (on_api _ s2) as [[d'|e'] s3].
Qed.

Section Kept.
  Context (k : jstr) (h : DH).

Definition holds_handle (s : state) : Prop := dirCache s !! k = Some h.

Lemma kept_apart {A} (m : M state A) : apart m -> preserves holds_handle m.
Proof. intros Hm s Hs. unfold holds_handle. by rewrite Hm. Qed.
Lemma kept_api {A} (m : M S A) : preserves holds_handle (on_api m).
Proof. apply kept_apart, apart_api. Qed.

Lemma kept_directoryHandle path create : preserves holds_handle (directoryHandle path create).
Proof.
  intros s Hs. unfold directoryHandle. run_pure. destruct (dirCache s !! cache_key path) eqn:Ec; [done|].
  pose proof (apart_root s) as Er. unfold mbind at 1, M_bind at 1. unfold holds_handle in *.
  destruct (root s) as [[r|e] s1]; cbn [snd] in Er; [|cbn [snd]; congruence]. destruct (_ || _); [cbn [snd mret M_ret]; congruence|].
  pose proof (apart_walk (segments (key path)) create r s1) as Ew. unfold walk in Ew. unfold mbind, M_bind.
  destruct (fold_m _ _ r s1) as [[r'|e] s2]; cbn [snd] in Ew; [|cbn [snd]; congruence].
  cbn. rewrite Ew, Er. rewrite lookup_insert_ne; [done|]. intros E. congruence.
Qed.

End Kept.

(** A directory whose handle is cached stays a directory for this object after [rmdir],
    whatever the API did: [isDirectory] is true and [mkdir] does not make it again. *)
Theorem removed_directory_stays_cached path recursive (s : state) h :
  dirCache s !! cache_key path = Some h ->
  let s1 := snd (rmdir path recursive s) in
  isDirectory path s1 = (Ok true, s1) /\ mkdir path true s1 = (Ok (), s1).
Proof.
  intros Hc s1. assert (holds_handle (cache_key path) h s1) as Hc1.
  { unfold s1, rmdir. apply (preserves_bind (holds_handle (cache_key path) h)); [apply kept_directoryHandle| |exact Hc].
    intros parent. apply preserves_try; [apply kept_api|]. intros e. destruct (isNotFound e); [apply preserves_ret|apply preserves_throw]. }
  unfold isDirectory, mkdir. split.
  - unfold try_catch. by rewrite (M_bind_ok _ _ _ _ _ (cached_handle path false s1 h Hc1)).
  - by rewrite (M_bind_ok _ _ _ _ _ (cached_handle path true s1 h Hc1)).
Qed.

(** ** Until something is removed, the cache changes nothing *)

Section Stable.
  (** [grow a b]: [b] comes after [a] with nothing removed on the way; directories found in
      [a] are found again in [b]. *)
  Context (grow : S -> S -> Prop) `{!PreOrder grow}.
  Context (getDirectoryHandle_again : forall h n c c' a h' a1 a2,
    getDirectoryHandle h n c a = (Ok h', a1) -> grow a1 a2 -> getDirectoryHandle h n c' a2 = (Ok h', a2)).

(** What removes nothing. *)
Definition grows {A} (m : M S A) : Prop := forall a, grow a (snd (m a)).
Context (getDirectoryHandle_grows : forall h n c, grows (getDirectoryHandle h n c))
        (getFileHandle_grows : forall h n c, grows (getFileHandle h n c)) (entry_names_grows : forall h, grows (entry_names h))
        (lastModified_grows : forall f, grows (lastModified f)) (file_size_grows : forall f, grows (file_size f))
        (arrayBuffer_grows : forall f, grows (arrayBuffer f)) (createWritable_grows : forall f, grows (createWritable f))
        (write_grows : forall w b, grows (write w b)) (close_grows : forall w, grows (close w))
        (createSyncAccessHandle_grows : forall f, grows (createSyncAccessHandle f))
        (access_getSize_grows : forall x, grows (access_getSize x)) (access_write_grows : forall x b n, grows (access_write x b n))
        (access_flush_grows : forall x, grows (access_flush x)) (access_close_grows : forall x, grows (access_close x)).

(** The loop on the API alone. *)
Definition walk_api (names : list jstr) (create : bool) (handle : DH) : M S DH :=
  fold_m (fun handle segment => getDirectoryHandle handle segment create) names handle.

Lemma walk_on_api names create h s : walk names create h s = on_api (walk_api names create h) s.
Proof.
  revert h s. induction names as [|x names IH]; intros h s; [by destruct s|].
  change (walk (x :: names) create h) with (on_api (getDirectoryHandle h x create) ≫= walk names create).
  change (walk_api (x :: names) create h) with (getDirectoryHandle h x create ≫= walk_api names create).
  unfold mbind, M_bind, on_api at 1 2. destruct (getDirectoryHandle h x create (api s)) as [[h'|e] a]; [|done].
  rewrite IH. done.
Qed.

Lemma walk_grows names create h : grows (walk_api names create h).
Proof.
  revert h. induction names as [|x names IH]; intros h a; [reflexivity|].
  change (walk_api (x :: names) create h) with (getDirectoryHandle h x create ≫= walk_api names create).
  pose proof (getDirectoryHandle_grows h x create a) as Hg. unfold mbind, M_bind.
  destruct (getDirectoryHandle h x create a) as [[h'|e] a']; [|done]. etrans; [exact Hg|apply IH].
Qed.

Lemma walk_again names c c' h r a a1 a2 : walk_api names c h a = (Ok r, a1) -> grow a1 a2 -> walk_api names c' h a2 = (Ok r, a2).
Proof.
  revert h a. induction names as [|x names IH]; intros h a E Hg.
  { apply pair_equal_spec in E as [E _]. apply Ok_inj in E as <-. done. }
  change (walk_api (x :: names) c h) with (getDirectoryHandle h x c ≫= walk_api names c) in E.
  change (walk_api (x :: names) c' h) with (getDirectoryHandle h x c' ≫= walk_api names c').
  unfold mbind, M_bind in E. destruct (getDirectoryHandle h x c a) as [[h'|e] a'] eqn:Ed; [|done].
  pose proof (walk_grows names c h' a') as Hw. rewrite E in Hw.
  rewrite (M_bind_ok _ _ _ _ _ (getDirectoryHandle_again h x c c' a h' a' a2 Ed (transitivity Hw Hg))). by eapply IH.
Qed.

(** The root, once it is known. *)
Definition known_root (s : state) : option DH :=
  match rootHandle s with
  | Some r => Some r
  | None => match rootPromise s with Some (Ok r) => Some r | _ => None end
  end.

Lemma root_known s r : known_root s = Some r -> root s = (Ok r, s).
Proof.
  unfold known_root, root. run_pure. destruct (rootHandle s); [by intros [= ->]|]. destruct (rootPromise s) as [[r'|e]|]; [|done..].
  by intros [= ->].
Qed.

(** Every cached handle is what the loop finds. *)
Definition sound (s : state) : Prop := forall k h, dirCache s !! k = Some h -> k <> dot /\ exists r, known_root s = Some r /\
  forall a c, grow (api s) a -> walk_api (segments k) c r a = (Ok h, a).

Lemma sound_api {A} (m : M S A) : grows m -> preserves sound (on_api m).
Proof.
  intros Hm s Hs k h. unfold on_api. specialize (Hm (api s)). destruct (m (api s)) as [o a]. cbn [snd dirCache]. intros Hk.
  destruct (Hs k h Hk) as (Hd & r & Hr & Hw). split; [exact Hd|]. exists r. split; [exact Hr|]. intros a2 c Ha. apply Hw. by etrans.
Qed.

Lemma sound_root : preserves sound root.
Proof.
  intros s Hs k h Hk. rewrite (apart_root s) in Hk. destruct (Hs k h Hk) as (Hd & r & Hr & Hw). split; [exact Hd|]. exists r. by rewrite (root_known s r Hr).
Qed.

Lemma root_found s r s1 : root s = (Ok r, s1) -> known_root s1 = Some r.
Proof.
  unfold root. run_pure. destruct (rootHandle s) as [d|] eqn:Eh; [intros [= -> <-]; unfold known_root; by rewrite Eh|].
  destruct (rootPromise s) as [o|] eqn:Ep.
  { intros E. unfold lift in E. injection E as -> <-. unfold known_root. by rewrite Eh, Ep. }
  destruct (negb hasOpfs); [done|]. unfold try_catch, mbind, M_bind, on_api.
  destruct (getDirectory (api s)) as [[d|e] a]; cbn [api rootHandle rootPromise dirCache].
  - destruct (getDirectoryHandle d namespace true a) as [[d'|e] a']; cbn; [|done]. intros [= -> <-]. unfold known_root. cbn. by rewrite Eh.
  - by cbn.
Qed.

Lemma sound_directoryHandle path create : preserves sound (directoryHandle path create).
Proof.
  intros s Hs. unfold directoryHandle. run_pure. destruct (dirCache s !! cache_key path) eqn:Ec; [done|].
  pose proof (sound_root s Hs) as Hs1. unfold mbind at 1, M_bind at 1. destruct (root s) as [[r|e] s1] eqn:Er; [|done].
  apply root_found in Er. cbn [snd] in Hs1. destruct (_ || _) eqn:Ek; [done|]. apply orb_false_iff in Ek as [Ek Ed].
  fold (walk (segments (key path)) create r). unfold mbind, M_bind. rewrite walk_on_api.
  pose proof (sound_api _ (walk_grows (segments (key path)) create r) s1 Hs1) as Hs2. revert Hs2. unfold on_api.
  destruct (walk_api (segments (key path)) create r (api s1)) as [[r'|e] a] eqn:Ew; intros Hs2; [|done].
  intros k h. cbn. intros [[<- <-]|[_ Hk]]%lookup_insert_Some; [|by apply Hs2].
  unfold cache_key. rewrite Ek. split; [intros E; apply (proj2 (jeqb_true (key path) dot)) in E; congruence|].
  exists r. split; [exact Er|]. intros a2 c Ha. by eapply walk_again.
Qed.

(** *** Calls that remove nothing *)

Lemma sound_fileHandle path create : preserves sound (fileHandle path create).
Proof. apply preserves_bind; [apply sound_directoryHandle|]. intros d. apply sound_api, getFileHandle_grows. Qed.

Lemma sound_finally {A} (m : M state A) c : preserves sound m -> preserves sound c -> preserves sound (finally m c).
Proof.
  intros Hm Hc s Hs. specialize (Hm s Hs). unfold finally. destruct (m s) as [o s1]. specialize (Hc s1 Hm).
  by destruct (c s1) as [[u|e] s2].
Qed.

Ltac soundly := repeat first
  [ progress intros
  | apply sound_directoryHandle | apply sound_fileHandle | apply sound_finally
  | apply preserves_ret | apply preserves_throw | apply preserves_bind | apply preserves_try
  | (apply sound_api; solve [eauto])
  | match goal with |- preserves _ (if ?b then _ else _) => destruct b end ].

(** The calls but [rmdir], [remove] and [move]. *)
Inductive call :=
| CExists (p : jstr) | CIsDirectory (p : jstr) | CMtimeMs (p : jstr) | CSize (p : jstr) | CMkdir (p : jstr) (recursive : bool)
| CList (p : jstr) | CReadText (p : jstr) | CReadBytes (p : jstr) | CWriteText (p t : jstr)
| CWriteBytes (p : jstr) (b : list N) | CAppendText (p t : jstr).

Definition run_call (c : call) : M state () :=
  match c with
  | CExists p => _ ← exists_ p; mret ()
  | CIsDirectory p => _ ← isDirectory p; mret ()
  | CMtimeMs p => _ ← mtimeMs p; mret ()
  | CSize p => _ ← size p; mret ()
  | CMkdir p r => mkdir p r
  | CList p => _ ← list_ p; mret ()
  | CReadText p => _ ← readText p; mret ()
  | CReadBytes p => _ ← readBytes p; mret ()
  | CWriteText p t => writeText p t
  | CWriteBytes p b => writeBytes p b
  | CAppendText p t => appendText p t
  end.

Lemma sound_exists p : preserves sound (exists_ p).
Proof. unfold exists_. soundly. Qed.
Lemma sound_readBytes p : preserves sound (readBytes p).
Proof. unfold readBytes. soundly. Qed.
Lemma sound_writeBytes p b : preserves sound (writeBytes p b).
Proof. unfold writeBytes. soundly. Qed.

Lemma sound_call c : preserves sound (run_call c).
Proof.
  destruct c as [p|p|p|p|p r|p|p|p|p t|p b|p t]; cbn [run_call].
  - apply preserves_bind; [apply sound_exists|soundly].
  - unfold isDirectory. soundly.
  - unfold mtimeMs. soundly.
  - unfold size. soundly.
  - unfold mkdir. soundly.
  - unfold list_. soundly.
  - unfold readText. apply preserves_bind; [apply preserves_bind; [apply sound_readBytes|soundly]|soundly].
  - apply preserves_bind; [apply sound_readBytes|soundly].
  - apply sound_writeBytes.
  - apply sound_writeBytes.
  - unfold appendText. apply preserves_bind; [apply sound_fileHandle|]. intros f. destruct (inWorker && _); [soundly|].
    apply preserves_bind; [apply sound_exists|]. intros found. apply preserves_bind; [|intros b; apply sound_writeBytes].
    destruct found; [apply sound_readBytes|soundly].
Qed.

(** [directoryHandle] with no cache. *)
Definition fresh_handle (path : jstr) (create : bool) : M state DH :=
  handle ← root;
  if jeqb (key path) [] || jeqb (key path) dot then mret handle else walk (segments (key path)) create handle.

Lemma sound_start (s : state) : dirCache s = ∅ -> sound s.
Proof. intros E k h Hk. by rewrite E, lookup_empty in Hk. Qed.

(** C12: after any calls that remove nothing, whether they succeed or fail, a directory's
    handle is the one found by walking from the root, and the API is left as the walk
    leaves it: the cache changes nothing. *)
Theorem cache_is_transparent (s : state) calls path create :
  dirCache s = ∅ ->
  let s1 := fold_left (fun s c => snd (run_call c s)) calls s in
  fst (directoryHandle path create s1) = fst (fresh_handle path create s1) /\
  api (snd (directoryHandle path create s1)) = api (snd (fresh_handle path create s1)).
Proof.
  intros E s1. assert (sound s1) as Hs.
  { unfold s1. apply sound_start in E. revert E. clear s1. revert s. induction calls as [|c calls IH]; intros s Hs; [exact Hs|].
    cbn [fold_left]. by apply IH, sound_call. }
  revert Hs. generalize s1. clear s s1 calls E. intros s Hs. destruct (dirCache s !! cache_key path) as [h|] eqn:Ec.
  - rewrite (cached_handle path create s h Ec). destruct (Hs _ _ Ec) as (Hd & r & Hr & Hw). unfold fresh_handle.
    rewrite (M_bind_ok _ _ _ _ _ (root_known s r Hr)). specialize (Hw (api s) create (reflexivity _)).
    destruct (jeqb (key path) []) eqn:Ek.
    + unfold cache_key in Hw, Ec. rewrite Ek in Hw. cbn [orb]. change (segments Path.SEPARATOR) with (@nil jstr) in Hw.
      unfold walk_api in Hw. cbn [fold_m] in Hw. apply pair_equal_spec in Hw as [Hw _]. apply Ok_inj in Hw as ->. done.
    + unfold cache_key in Hw, Hd. rewrite Ek in Hw, Hd. cbn [orb]. rewrite (jeqb_neq _ _ Hd), walk_on_api. unfold on_api. by rewrite Hw.
  - unfold directoryHandle, fresh_handle. run_pure. rewrite Ec.
    destruct (root s) as [[r|e] s1] eqn:Er; [|by rewrite !(M_bind_throw _ _ _ _ _ Er)]. rewrite !(M_bind_ok _ _ _ _ _ Er). destruct (_ || _); [done|]. fold (walk (segments (key path)) create r).
    unfold mbind, M_bind. by destruct (walk (segments (key path)) create r s1) as [[r'|e] s2].
Qed.

End Stable.
End Opfs.
(** ** A disk that answers the API as its standard describes it *)

Module Disk.

(** Handles are locators: the names from the root.  [swap] holds what open writables have
    been given. *)
Record disk := mkDisk { dirs : gset path; files : gmap path (list N); swap : gmap path (list N) }.

Definition dom_error (name : string) : js_error := {| err_name := js name; err_message := []; err_code := None |}.
Definition NotFound : js_error := dom_error "NotFoundError".
Definition TypeMismatch : js_error := dom_error "TypeMismatchError".
Definition InvalidModification : js_error := dom_error "InvalidModificationError".

Definition has_dir (p : path) (d : disk) : bool := bool_decide (p = [] \/ p ∈ dirs d).
Definition has_file (p : path) (d : disk) : bool := bool_decide (is_Some (files d !! p)).
Definition below (p q : path) : bool := bool_decide (p `prefix_of` q).
Definition set_file (p : path) (b : list N) (d : disk) : disk := mkDisk (dirs d) (<[p := b]> (files d)) (swap d).

Definition directory (h : path) (n : jstr) (create : bool) : M disk path :=
  d ← get;
  if negb (bool_decide (Path.clean n)) then throw (type_error (js "Name is not allowed"))
  else if negb (has_dir h d) then throw NotFound
  else if has_dir (h ++ [n]) d then mret (h ++ [n])
  else if has_file (h ++ [n]) d then throw TypeMismatch
  else if create then _ ← modify (fun d => mkDisk ({[h ++ [n]]} ∪ dirs d) (files d) (swap d)); mret (h ++ [n])
  else throw NotFound.

Definition file (h : path) (n : jstr) (create : bool) : M disk path :=
  d ← get;
  if negb (bool_decide (Path.clean n)) then throw (type_error (js "Name is not allowed"))
  else if negb (has_dir h d) then throw NotFound
  else if has_file (h ++ [n]) d then mret (h ++ [n])
  else if has_dir (h ++ [n]) d then throw TypeMismatch
  else if create then _ ← modify (set_file (h ++ [n]) []); mret (h ++ [n])
  else throw NotFound.

Definition removal (h : path) (n : jstr) (recursive : bool) : M disk () :=
  d ← get;
  let p := h ++ [n] in
  if negb (bool_decide (Path.clean n)) then throw (type_error (js "Name is not allowed"))
  else if negb (has_dir h d) then throw NotFound
  else if has_file p d then modify (fun d => mkDisk (dirs d) (delete p (files d)) (swap d))
  else if negb (has_dir p d) then throw NotFound
  else if negb recursive && (existsb (fun q => below p q && negb (bool_decide (q = p))) (elements (dirs d)) ||
                             existsb (fun kv => below p (fst kv)) (map_to_list (files d)))
  then throw InvalidModification
  else modify (fun d => mkDisk (filter (fun q => below p q = false) (dirs d))
                               (filter (fun kv => below p (fst kv) = false) (files d)) (swap d)).

(** The name of [q] among the entries of [h]. *)
Definition entry_of (h q : path) : option jstr :=
  match q with [] => None | _ => if bool_decide (removelast q = h) then last q else None end.
Definition names (h : path) : M disk (list jstr) :=
  d ← get;
  if negb (has_dir h d) then throw NotFound
  else mret (omap (entry_of h) (elements (dirs d)) ++ omap (fun kv => entry_of h (fst kv)) (map_to_list (files d))).

Definition bytes_of (p : path) : M disk (list N) :=
  d ← get; match files d !! p with Some b => mret b | None => throw NotFound end.

Definition update (p : path) (f : list N -> list N) : M disk () :=
  d ← get; match files d !! p with Some b => modify (set_file p (f b)) | None => throw NotFound end.

#[export] Instance disk_api : FileSystemApi disk path path path path := {
  getDirectory := mret [];
  getDirectoryHandle := directory;
  getFileHandle := file;
  removeEntry := removal;
  entry_names := names;
  lastModified p := _ ← bytes_of p; mret 0%Z;
  file_size p := b ← bytes_of p; mret (length b);
  arrayBuffer := bytes_of;
  createWritable p := _ ← bytes_of p; _ ← modify (fun d => mkDisk (dirs d) (files d) (<[p := []]> (swap d))); mret p;
  write p b := modify (fun d => mkDisk (dirs d) (files d) (<[p := default [] (swap d !! p) ++ b]> (swap d)));
  close p := d ← get; update p (fun _ => default [] (swap d !! p));
  hasSyncAccess _ := true;
  createSyncAccessHandle p := _ ← bytes_of p; mret p;
  access_getSize p := b ← bytes_of p; mret (length b);
  access_write p b at_ := update p (fun old => take at_ old ++ b ++ drop (at_ + length b) old);
  access_flush _ := mret ();
  access_close _ := mret ()
}.

Definition empty : disk := mkDisk ∅ ∅ ∅.

(** *** The cache on it *)

Definition keeps_dirs (a b : disk) : Prop := forall p, has_dir p a = true -> has_dir p b = true.

Lemma keeps_dirs_preorder : PreOrder keeps_dirs.
Proof. split; [by intros a p|]. intros a b e Hab Hbe p Hp. by apply Hbe, Hab. Qed.

Lemma same_dirs (a b : disk) : dirs b = dirs a -> keeps_dirs a b.
Proof. intros E p. unfold has_dir. by rewrite E. Qed.

Lemma keeps_read {A} (m : M disk A) : pure_state m -> grows keeps_dirs m.
Proof. intros Hm a. rewrite Hm. by apply same_dirs. Qed.
Lemma pure_bytes p : pure_state (bytes_of p).
Proof. intros d. unfold bytes_of, mbind, M_bind, get. by destruct (_ !! _). Qed.
Lemma pure_then {A B} (m : M disk A) (f : A -> M disk B) : pure_state m -> (forall a, pure_state (f a)) -> pure_state (m ≫= f).
Proof. intros Hm Hf d. specialize (Hm d). unfold mbind, M_bind. destruct (m d) as [[a|e] d']; [|exact Hm]. cbn [snd] in Hm. by rewrite Hf. Qed.
Lemma keeps_update p f : grows keeps_dirs (update p f).
Proof. intros d. unfold update, mbind, M_bind, get. destruct (_ !! _); by apply same_dirs. Qed.

Lemma keeps_directory h n c : grows keeps_dirs (directory h n c).
Proof.
  intros d. unfold directory. run_pure. repeat (destruct (negb _); [by apply same_dirs|]). destruct (has_dir _ d); [by apply same_dirs|].
  destruct (has_file _ d); [by apply same_dirs|]. destruct c; [|by apply same_dirs]. run_pure.
  intros p. unfold has_dir. cbn. rewrite !bool_decide_eq_true. intros [->|Hp]; [by left|right; apply elem_of_union; by right].
Qed.
Lemma keeps_file h n c : grows keeps_dirs (file h n c).
Proof.
  intros d. unfold file. run_pure. repeat (destruct (negb _); [by apply same_dirs|]). destruct (has_file _ d); [by apply same_dirs|].
  destruct (has_dir _ d); [by apply same_dirs|]. destruct c; by apply same_dirs.
Qed.
Lemma keeps_names h : grows keeps_dirs (names h).
Proof. intros d. unfold names, mbind, M_bind, get. by destruct (negb _); apply same_dirs. Qed.

(** A directory that was found is found again. *)
Lemma directory_again h n c c' a h' a1 a2 : directory h n c a = (Ok h', a1) -> keeps_dirs a1 a2 ->
  directory h n c' a2 = (Ok h', a2).
Proof.
  intros E Hk. assert (bool_decide (Path.clean n) = true /\ h' = h ++ [n] /\ has_dir h a1 = true /\ has_dir (h ++ [n]) a1 = true) as (En & -> & Hh & Hd).
  { revert E. unfold directory, mbind, M_bind, get. destruct (bool_decide (Path.clean n)); [|done]. destruct (has_dir h a) eqn:Eh; [|done].
    cbn [negb]. destruct (has_dir (h ++ [n]) a) eqn:Ed; [by intros [= <- <-]|]. destruct (has_file _ a); [done|]. destruct c; [|done].
    intros [= <- <-]. split_and!; [done|done| |]; unfold has_dir in *; rewrite bool_decide_eq_true in *; cbn.
    - destruct Eh as [->|Hp]; [by left|right; apply elem_of_union; by right].
    - right. apply elem_of_union. left. by apply elem_of_singleton. }
  unfold directory. run_pure. by rewrite En, (Hk _ Hh), (Hk _ Hd).
Qed.

Definition site : opfs disk path := createOpfsFilesystem empty.
Definition visits : list call :=
  [CWriteText (js "/a/b.txt") (js "x"); CExists (js "/a/c.txt"); CAppendText (js "/a/d/e.txt") (js "y"); CMkdir (js "/none/deep") false].

Lemma cache_is_transparent_witness :
  dirCache (fold_left (fun s c => snd (run_call true (js "fylo") true c s)) visits site) !! js "a/d" = Some [js "fylo"; js "a"; js "d"] /\
  let s1 := fold_left (fun s c => snd (run_call true (js "fylo") true c s)) visits site in
  fst (directoryHandle true (js "fylo") (js "/a/d") false s1) = fst (fresh_handle true (js "fylo") (js "/a/d") false s1) /\
  api (snd (directoryHandle true (js "fylo") (js "/a/d") false s1)) = api (snd (fresh_handle true (js "fylo") (js "/a/d") false s1)).
Proof.
  split; [by vm_compute|].
  refine (cache_is_transparent true (js "fylo") true keeps_dirs (PreOrder0 := keeps_dirs_preorder) directory_again keeps_directory
            keeps_file keeps_names _ _ _ _ _ _ _ _ _ _ _ site visits (js "/a/d") false _).
  - intros p. apply keeps_read, pure_then; [apply pure_bytes|done].
  - intros p. apply keeps_read, pure_then; [apply pure_bytes|done].
  - intros p. apply keeps_read, pure_bytes.
  - intros p d. cbn. unfold bytes_of, mbind, M_bind, get. destruct (_ !! _); by apply same_dirs.
  - intros p b d. by apply same_dirs.
  - intros p d. cbn. unfold mbind, M_bind, get. apply keeps_update.
  - intros p. apply keeps_read, pure_then; [apply pure_bytes|done].
  - intros p. apply keeps_read, pure_then; [apply pure_bytes|done].
  - intros p b n. apply keeps_update.
  - intros p. by apply keeps_read.
  - intros p. by apply keeps_read.
  - reflexivity.
Defined.

Lemma removed_directory_stays_cached_witness :
  let s := snd (writeText true (js "fylo") (js "/a/b.txt") (js "x") site) in
  let s1 := snd (rmdir true (js "fylo") (js "/a") true s) in
  has_dir [js "fylo"; js "a"] (api s1) = false /\
  isDirectory true (js "fylo") (js "/a") s1 = (Ok true, s1) /\ mkdir true (js "fylo") (js "/a") true s1 = (Ok (), s1).
Proof.
  intros s s1. split; [by vm_compute|].
  apply (removed_directory_stays_cached true (js "fylo") (js "/a") true s [js "fylo"; js "a"]). by vm_compute.
Defined.

(** *** A core on it *)

Section Core.
Import Engine Lifecycle.

#[local] Instance site_fs : FyloFilesystem (opfs disk path) := opfs_fs true (js "fylo") true.
#[local] Instance site_clock : Clock (opfs disk path) := mret 1700000000000%Z.
#[local] Instance memory_fs : FyloFilesystem MemFs.state := MemFs.memory noon.
#[local] Instance memory_now : Clock MemFs.state := MemFs.memory_clock noon.

Definition again {D} `{FyloFilesystem D, Clock D} (s : core D) : outcome () :=
  let s1 := snd (createCollection (root_path []) people s) in
  let s2 := snd (dropCollection (root_path []) false people s1) in
  fst (createCollection (root_path []) people s2).

(** On the origin private file system a collection that was dropped cannot be created
    again while the core lives: the handles of its directories are still cached, and their
    directories are gone.  In memory it can. *)
Theorem dropped_collection_cannot_return :
  again (new_core site) = Throw NotFound /\ again (new_core (MemFs.init noon)) = Ok ().
Proof. split; by vm_compute. Qed.

End Core.
End Disk.
End Opfs.
