(* ===== verification/Bridge.v ===== *)
(** The bridge between the engine's Worker and the Worker that owns OPFS:
    [src/browser/opfs-bridge.mjs] and the loop of [src/browser/opfs-bridge-worker.mjs].
    Two threads share a buffer; each call is written into it, announced and waited for. *)

From S2P Require Import Prelude PathUtil JsNum JsValue Utf8 Json.

Module Bridge.
Import Utf8.

(** ** Paths *)

Definition strip_leading : jstr -> jstr := drop_while (fun c => (c =? PathUtil.c_slash)%N).
Definition strip_trailing (s : jstr) : jstr := reverse (strip_leading (reverse s)).
Definition parts_of (path : jstr) : list jstr := filter (fun p => p <> []) (split_on PathUtil.c_slash path).
Definition non_empty (s other : jstr) : jstr := if jeqb s [] then other else s.
(** [path.slice(0, path.lastIndexOf('/'))] and [path.slice(path.lastIndexOf('/') + 1)] *)
Definition before_last_slash (path : jstr) : jstr :=
  match last_index_of PathUtil.c_slash path with Some i => take i path | None => drop_last 1 path end.
Definition after_last_slash (path : jstr) : jstr :=
  match last_index_of PathUtil.c_slash path with Some i => drop (S i) path | None => path end.

Definition access_error (message : jstr) : js_error := {| err_name := js "Error"; err_message := message; err_code := Some (js "EACCES") |}.
Definition is_traversal (part : jstr) : bool := jeqb part dot || jeqb part dotdot.

Definition leasePrefix (root : jstr) : jstr :=
  let basename := default (js "root") (last (parts_of root)) in
  let parent := if jeqb root Path.SEPARATOR then Path.SEPARATOR else non_empty (before_last_slash root) Path.SEPARATOR in
  (if jeqb parent Path.SEPARATOR then [] else parent) ++ js "/." ++ basename ++ js ".fylo-root-owner.lock".

Definition relativeBridgePath (path rootPath : jstr) : outcome jstr :=
  if negb (starts_with Path.SEPARATOR rootPath) then Throw (access_error (js "bridge paths and roots must be absolute strings"))
  else
    let root := non_empty (strip_trailing rootPath) Path.SEPARATOR in
    let lease := leasePrefix root in
    if jeqb path lease || jeqb path (lease ++ js ".json") then Ok (after_last_slash path)
    else
      let contained := if jeqb root Path.SEPARATOR then starts_with Path.SEPARATOR path
                       else jeqb path root || starts_with (root ++ Path.SEPARATOR) path in
      if negb contained then Throw (access_error (js "bridge path escapes the granted root: " ++ path))
      else
        let relative := if jeqb root Path.SEPARATOR then drop 1 path else strip_leading (drop (length root) path) in
        let parts := parts_of relative in
        if existsb is_traversal parts then Throw (access_error (js "bridge path contains a traversal component: " ++ path))
        else Ok (join_with Path.SEPARATOR parts).

(** [pathParts(path)] of the bridge's Worker. *)
Definition pathParts (path : jstr) : outcome (list jstr) :=
  let parts := parts_of path in
  if existsb is_traversal parts then Throw (access_error (js "OPFS path contains a traversal component: " ++ path)) else Ok parts.

(** *** What crosses *)

Lemma parts_app a b : parts_of (a ++ PathUtil.c_slash :: b) = parts_of a ++ parts_of b.
Proof. unfold parts_of. by rewrite Path.split_on_sep_app, filter_app. Qed.

Lemma parts_slash b : parts_of (PathUtil.c_slash :: b) = parts_of b.
Proof. exact (parts_app [] b). Qed.

Lemma parts_strip_leading s : parts_of (strip_leading s) = parts_of s.
Proof.
  unfold strip_leading. induction s as [|x s IH]; [done|]. cbn [drop_while]. destruct (N.eqb_spec x PathUtil.c_slash) as [->|]; [|done].
  by rewrite parts_slash.
Qed.

Lemma strip_trailing_parts s : parts_of (strip_trailing s) = parts_of s.
Proof.
  unfold strip_trailing. rewrite <- (reverse_involutive s) at 2. generalize (reverse s). clear s. intros s.
  unfold strip_leading. induction s as [|x s IH]; [done|]. cbn [drop_while]. destruct (N.eqb_spec x PathUtil.c_slash) as [->|]; [|done].
  rewrite IH, reverse_cons, parts_app. by rewrite app_nil_r.
Qed.

Lemma parts_elem p path : p ∈ parts_of path -> p <> [] /\ PathUtil.c_slash ∉ p.
Proof. unfold parts_of. rewrite list_elem_of_filter. intros [Hne Hin]. split; [done|]. by eapply split_on_elem. Qed.

Lemma parts_clean path : existsb is_traversal (parts_of path) = false -> Forall Path.clean (parts_of path).
Proof.
  intros Ht. apply Forall_forall. intros p Hp. destruct (parts_elem p path Hp) as [Hne Hs].
  assert (is_traversal p = false) as Hn.
  { destruct (is_traversal p) eqn:E; [|done]. rewrite <- Ht. symmetry. apply existsb_exists. exists p. split; [by apply list_elem_of_In|done]. }
  apply orb_false_iff in Hn as [H1 H2]. split_and!; [done| | |done]; intros ->; [by vm_compute in H1|by vm_compute in H2].
Qed.

Lemma parts_join l : Forall Path.clean l -> parts_of (join_with Path.SEPARATOR l) = l.
Proof.
  intros Hl. induction Hl as [|p l Hp Hl IH]; [done|]. destruct l as [|q l].
  - cbn [join_with]. unfold parts_of. rewrite Path.split_clean by done. destruct Hp as [Hne _]. by rewrite filter_cons_True by done.
  - rewrite join_with_cons by done. change (p ++ Path.SEPARATOR ++ ?r) with (p ++ PathUtil.c_slash :: r). rewrite parts_app, IH.
    unfold parts_of. rewrite Path.split_clean by done. destruct Hp as [Hne _]. by rewrite filter_cons_True by done.
Qed.

Lemma clean_passes path : Forall Path.clean (parts_of path) -> pathParts path = Ok (parts_of path).
Proof.
  intros Hc. unfold pathParts. destruct (existsb is_traversal (parts_of path)) eqn:E; [|done]. exfalso.
  apply existsb_exists in E as (p & Hp & Ht). rewrite Forall_forall in Hc. apply list_elem_of_In, Hc in Hp as (_ & H1 & H2 & _).
  unfold is_traversal in Ht. by rewrite (jeqb_neq _ _ H1), (jeqb_neq _ _ H2) in Ht.
Qed.

(** The root as [relativeBridgePath] takes it. *)
Definition granted (rootPath : jstr) : jstr := non_empty (strip_trailing rootPath) Path.SEPARATOR.

Lemma granted_parts rootPath : parts_of (granted rootPath) = parts_of rootPath.
Proof.
  unfold granted, non_empty. destruct (jeqb (strip_trailing rootPath) []) eqn:E; [|apply strip_trailing_parts].
  apply jeqb_true in E. rewrite <- (strip_trailing_parts rootPath), E. by vm_compute.
Qed.

Lemma after_slash a b : PathUtil.c_slash ∉ b -> after_last_slash (a ++ PathUtil.c_slash :: b) = b.
Proof.
  intros Hb. unfold after_last_slash. rewrite last_index_of_app by done. by rewrite cons_middle, app_assoc, drop_app_length' by (rewrite length_app; cbn; lia).
Qed.

(** The name of the lease, and of its record. *)
Lemma lease_name root suffix : PathUtil.c_slash ∉ suffix -> exists name,
  after_last_slash (leasePrefix root ++ suffix) = name /\ Path.clean name.
Proof.
  intros Hs. unfold leasePrefix. set (base := default (js "root") (last (parts_of root))).
  assert (PathUtil.c_slash ∉ base) as Hb.
  { unfold base. destruct (last (parts_of root)) as [p|] eqn:E; [|by apply (bool_decide_unpack _)].
    apply last_Some_elem_of in E. by apply parts_elem in E as [_ ?]. }
  set (parent := if jeqb _ _ then [] else _). exists (46%N :: base ++ js ".fylo-root-owner.lock" ++ suffix).
  assert (PathUtil.c_slash ∉ (46%N :: base ++ js ".fylo-root-owner.lock" ++ suffix)) as Hn.
  { rewrite not_elem_of_cons, !not_elem_of_app. split_and!; [done|done|by apply (bool_decide_unpack _)|done]. }
  split.
  - rewrite <- !app_assoc. change (js "/." ++ ?r) with (PathUtil.c_slash :: 46%N :: r). by apply after_slash.
  - split_and!; [done| | |done]; intros E%(f_equal length); cbn [length] in E; rewrite !length_app in E;
      assert (length (js ".fylo-root-owner.lock") = 21%nat) as El by (by vm_compute); rewrite El in E; vm_compute (length _) in E; lia.
Qed.

(** A path the bridge lets through names a file below the root it was granted, by names
    none of which climbs, and the other side takes it as those names; or it is one of the two
    files of the root's lease, which stand beside the root and are kept inside it. *)
Theorem relative_path_stays_inside path rootPath rel : relativeBridgePath path rootPath = Ok rel ->
  exists names, pathParts rel = Ok names /\ Forall Path.clean names /\
    (parts_of path = parts_of rootPath ++ names \/
     path ∈ [leasePrefix (granted rootPath); leasePrefix (granted rootPath) ++ js ".json"] /\ names = [rel]).
Proof.
  unfold relativeBridgePath. destruct (negb _); [done|]. fold (granted rootPath). set (root := granted rootPath).
  destruct (jeqb path (leasePrefix root) || jeqb path (leasePrefix root ++ js ".json")) eqn:El.
  { intros E. apply Ok_inj in E as <-.
    assert (exists suffix, path = leasePrefix root ++ suffix /\ PathUtil.c_slash ∉ suffix /\
              path ∈ [leasePrefix root; leasePrefix root ++ js ".json"]) as (suffix & -> & Hs & Hin).
    { apply orb_true_iff in El as [->%jeqb_true| ->%jeqb_true].
      - exists []. rewrite app_nil_r. split_and!; [done|by apply not_elem_of_nil|by left].
      - exists (js ".json"). split_and!; [done|by apply (bool_decide_unpack _)|right; by left]. }
    destruct (lease_name root suffix Hs) as (name & -> & Hn). exists [name].
    assert (parts_of name = [name]) as Ep by (apply (parts_join [name]); by apply Forall_singleton).
    split_and!; [rewrite clean_passes; rewrite Ep; [done|by apply Forall_singleton]|by apply Forall_singleton|by right]. }
  clear El. set (inner := if jeqb root _ then drop 1 path else _).
  destruct (negb (if jeqb root _ then _ else _)) eqn:Ec; [done|]. apply negb_false_iff in Ec.
  destruct (existsb is_traversal (parts_of inner)) eqn:Et; [done|]. intros E. apply Ok_inj in E as <-.
  apply parts_clean in Et. exists (parts_of inner). split_and!; [|done|left].
  { rewrite clean_passes; by rewrite parts_join. }
  rewrite <- (granted_parts rootPath). fold root. unfold inner. destruct (jeqb root Path.SEPARATOR) eqn:Er.
  - apply jeqb_true in Er. rewrite Er. apply starts_with_spec in Ec as [r ->].
    change (Path.SEPARATOR ++ r) with (PathUtil.c_slash :: r). rewrite parts_slash. by vm_compute.
  - apply orb_true_iff in Ec as [Ec|Ec].
    + apply jeqb_true in Ec. rewrite Ec, parts_strip_leading, drop_all. by rewrite app_nil_r.
    + apply starts_with_spec in Ec as [r ->]. rewrite parts_strip_leading, <- app_assoc, drop_app_length.
      change (Path.SEPARATOR ++ r) with (PathUtil.c_slash :: r). by rewrite parts_app, parts_slash.
Qed.

(** ** The shared buffer *)

Definition CONTROL_SLOTS : nat := 5.
Definition STATE : nat := 0.
Definition REQUEST_LEN : nat := 1.
Definition PAYLOAD_LEN : nat := 2.
Definition STATUS : nat := 3.
Definition RESULT : nat := 4.

Definition STATE_IDLE : Z := 0.
Definition STATE_REQUEST : Z := 1.
Definition STATE_RESPONSE : Z := 2.

Definition BRIDGE_BYTES : N := 64 * 1024 * 1024.

Record shared := mkShared { control : list Z; data : list N }.

(** An [Int32Array] keeps the low 32 bits, signed. *)
Definition int32 (z : Z) : Z := (z + 2 ^ 31) mod 2 ^ 32 - 2 ^ 31.

(** [Atomics.load], [Atomics.store], [data.set] and [data.slice]. *)
Definition load (i : nat) (m : shared) : Z := default 0%Z (control m !! i).
Definition store (i : nat) (z : Z) (m : shared) : shared := mkShared (<[i := int32 z]> (control m)) (data m).
Definition set_bytes (at_ : nat) (b : list N) (m : shared) : shared :=
  mkShared (control m) (take at_ (data m) ++ b ++ drop (at_ + length b) (data m)).
Definition slice (from to : nat) (m : shared) : list N := take (to - from) (drop from (data m)).

(** [createBridgeBuffer()], of any size. *)
Definition createBridgeBuffer (bytes : nat) : shared := mkShared (replicate CONTROL_SLOTS 0%Z) (replicate bytes 0%N).

(** ** Calls *)

(** A request, as the value it is, and its payload. *)
Definition call : Type := value * list N.

Definition encoded (c : call) : list N := encode (Json.text (fst c)).

Definition too_big (bytes : nat) : js_error :=
  {| err_name := js "Error"; err_message := js "bridge request exceeds " ++ Num.dec (N.of_nat bytes) ++ js " bytes"; err_code := Some (js "EFBIG") |}.
Definition fits (bytes : nat) (c : call) : bool := length (encoded c) + length (snd c) <=? bytes.

(** What the Worker answers: [status], [result] and the bytes, from how [perform] ended. *)
Definition status_of (error : js_error) : Z :=
  if jeqb (err_name error) (js "NotFoundError") then -2
  else if bool_decide (err_code error = Some (js "EEXIST")) then -17 else -5.
Definition refusal (bytes : nat) : list N := encode (js "bridge response exceeds " ++ Num.dec (N.of_nat bytes) ++ js " bytes").
Definition response (bytes : nat) (o : outcome (Z * list N)) : Z * Z * list N :=
  let '(status, result, answer) := match o with
                                   | Ok (result, answer) => (0%Z, result, answer)
                                   | Throw e => (status_of e, 0%Z, encode (err_message e))
                                   end in
  if bytes <? length answer then ((-5)%Z, result, refusal bytes)
  else (status, result, answer).

(** What [call] makes of it. *)
Definition code_of (status : Z) : jstr :=
  if (status =? -2)%Z then js "ENOENT" else if (status =? -17)%Z then js "EEXIST" else js "EIO".
Definition call_result (c : call) (status result : Z) (answer : list N) : outcome (Z * list N) :=
  if (status =? 0)%Z then Ok (result, answer)
  else Throw {| err_name := js "Error";
                err_message := non_empty (decode answer) (js "bridge call failed: " ++ to_str (prop (fst c) (js "op")));
                err_code := Some (code_of status) |}.

(** ** The two threads *)

(** Where the engine's Worker stands in [call]. *)
Inductive client_pc :=
| Ready                                          (* between calls *)
| PutPayload (c : call) | PutRequestLength (c : call) | PutPayloadLength (c : call) | Announce (c : call) | Notify (c : call)
| CheckState (c : call) | Wait (c : call) | Parked (c : call)
| ReadStatus (c : call) | ReadResult (c : call) (status : Z) | ReadLength (c : call) (status result : Z)
| ReadAnswer (c : call) (status result length : Z) | Release (c : call) (status result : Z) (answer : list N).

(** Where the bridge's Worker stands in [serve]. *)
Inductive server_pc :=
| Observe | Decide (observed : Z) | Asleep | Poll
| CopyRequest (requestLength payloadLength : Z) | LoadLengths | LoadPayloadLength (requestLength : Z)
| Perform (request : value) (payload : list N)
| PutAnswer (status result : Z) (answer : list N) | PutStatus (status result : Z) (answer : list N)
| PutResult (result : Z) (answer : list N) | PutLength (answer : list N) | Respond | NotifyClient
| Dead (error : js_error).

Section System.
  Context {C : Type}.
  (** [perform(context, request, payload)] *)
  Context (perform : C -> value -> list N -> outcome (Z * list N) * C).
  (** The bytes of the payload area, and whether the host has [Atomics.waitAsync]. *)
  Context (bytes : nat) (waitAsync : bool).

Record system := mkSystem {
  memory : shared;
  client : client_pc;
  server : server_pc;
  context : C;
  todo : list call;                              (* the calls the engine has yet to make *)
  answers : list (outcome (Z * list N))          (* what the calls made returned *)
}.

(** [Atomics.notify(control, STATE)] wakes whoever waits. *)
Definition wake_client (p : client_pc) : client_pc := match p with Parked c => CheckState c | _ => p end.
Definition wake_server (p : server_pc) : server_pc := match p with Asleep => Poll | _ => p end.

(** One step of the engine's Worker; none while it is parked or has nothing to call. *)
Definition client_step (s : system) : option system :=
  let go p := Some (mkSystem (memory s) p (server s) (context s) (todo s) (answers s)) in
  let put m p := Some (mkSystem m p (server s) (context s) (todo s) (answers s)) in
  match client s with
  | Ready =>
      match todo s with
      | [] => None
      | c :: rest =>
          if fits bytes c
          then Some (mkSystem (set_bytes 0 (encoded c) (memory s)) (PutPayload c) (server s) (context s) rest (answers s))
          else Some (mkSystem (memory s) Ready (server s) (context s) rest (answers s ++ [Throw (too_big bytes)]))
      end
  | PutPayload c => put (if 0 <? length (snd c) then set_bytes (length (encoded c)) (snd c) (memory s) else memory s) (PutRequestLength c)
  | PutRequestLength c => put (store REQUEST_LEN (Z.of_nat (length (encoded c))) (memory s)) (PutPayloadLength c)
  | PutPayloadLength c => put (store PAYLOAD_LEN (Z.of_nat (length (snd c))) (memory s)) (Announce c)
  | Announce c => put (store STATE STATE_REQUEST (memory s)) (Notify c)
  | Notify c => Some (mkSystem (memory s) (CheckState c) (wake_server (server s)) (context s) (todo s) (answers s))
  | CheckState c => go (if (load STATE (memory s) =? STATE_RESPONSE)%Z then ReadStatus c else Wait c)
  | Wait c => go (if (load STATE (memory s) =? STATE_REQUEST)%Z then Parked c else CheckState c)
  | Parked _ => None
  | ReadStatus c => go (ReadResult c (load STATUS (memory s)))
  | ReadResult c status => go (ReadLength c status (load RESULT (memory s)))
  | ReadLength c status result => go (ReadAnswer c status result (load PAYLOAD_LEN (memory s)))
  | ReadAnswer c status result length => go (Release c status result (slice 0 (Z.to_nat length) (memory s)))
  | Release c status result answer =>
      Some (mkSystem (store STATE STATE_IDLE (memory s)) Ready (server s) (context s) (todo s)
              (answers s ++ [call_result c status result answer]))
  end.

(** One step of the bridge's Worker; none while it sleeps or after it died. *)
Definition server_step (s : system) : option system :=
  let go p := Some (mkSystem (memory s) (client s) p (context s) (todo s) (answers s)) in
  let put m p := Some (mkSystem m (client s) p (context s) (todo s) (answers s)) in
  match server s with
  | Observe | Poll => go (Decide (load STATE (memory s)))
  | Decide observed =>
      if (observed =? STATE_REQUEST)%Z then go LoadLengths
      else go (if waitAsync && (load STATE (memory s) =? observed)%Z then Asleep else Poll)
  | Asleep => None
  | LoadLengths => go (LoadPayloadLength (load REQUEST_LEN (memory s)))
  | LoadPayloadLength n => go (CopyRequest n (load PAYLOAD_LEN (memory s)))
  | CopyRequest n m =>
      match Json.parse (decode (slice 0 (Z.to_nat n) (memory s))) with
      | Ok request => go (Perform request (slice (Z.to_nat n) (Z.to_nat (n + m)) (memory s)))
      | Throw e => go (Dead e)
      end
  | Perform request payload =>
      let '(o, k) := perform (context s) request payload in
      let '(status, result, answer) := response bytes o in
      Some (mkSystem (memory s) (client s) (PutAnswer status result answer) k (todo s) (answers s))
  | PutAnswer status result answer => put (set_bytes 0 answer (memory s)) (PutStatus status result answer)
  | PutStatus status result answer => put (store STATUS status (memory s)) (PutResult result answer)
  | PutResult result answer => put (store RESULT result (memory s)) (PutLength answer)
  | PutLength answer => put (store PAYLOAD_LEN (Z.of_nat (length answer)) (memory s)) Respond
  | Respond => put (store STATE STATE_RESPONSE (memory s)) NotifyClient
  | NotifyClient => Some (mkSystem (memory s) (wake_client (client s)) Observe (context s) (todo s) (answers s))
  | Dead _ => None
  end.

(** The threads run in any order. *)
Inductive step (s s' : system) : Prop :=
| client_moves : client_step s = Some s' -> step s s'
| server_moves : server_step s = Some s' -> step s s'.

Definition start (k : C) (calls : list call) : system := mkSystem (createBridgeBuffer bytes) Ready Observe k calls [].

Definition reachable (k : C) (calls : list call) (s : system) : Prop := rtc step (start k calls) s.

(** ** What a call should do: the same without threads *)

Definition direct (k : C) (c : call) : outcome (Z * list N) * C :=
  if fits bytes c then
    let '(o, k') := perform k (fst c) (snd c) in
    let '(status, result, answer) := response bytes o in
    (call_result c (int32 status) (int32 result) answer, k')
  else (Throw (too_big bytes), k).

Fixpoint direct_all (k : C) (calls : list call) : list (outcome (Z * list N)) * C :=
  match calls with
  | [] => ([], k)
  | c :: rest => let '(o, k1) := direct k c in let '(os, k2) := direct_all k1 rest in (o :: os, k2)
  end.

(** ** The buffer *)

Record sized (m : shared) : Prop := { sized_control : length (control m) = CONTROL_SLOTS; sized_data : length (data m) = bytes }.

Lemma load_store i z m : sized m -> i < CONTROL_SLOTS -> load i (store i z m) = int32 z.
Proof. intros [Hc _] Hi. unfold load, store. cbn. by rewrite list_lookup_insert_eq by lia. Qed.
Lemma load_store_ne i j z m : i <> j -> load i (store j z m) = load i m.
Proof. intros Hne. unfold load, store. cbn. by rewrite list_lookup_insert_ne. Qed.
Lemma data_store i z m : data (store i z m) = data m.
Proof. done. Qed.
Lemma load_set_bytes i at_ b m : load i (set_bytes at_ b m) = load i m.
Proof. done. Qed.
Lemma sized_store i z m : sized m -> sized (store i z m).
Proof. intros [Hc Hd]. split; cbn; [by rewrite length_insert|done]. Qed.
Lemma sized_set_bytes at_ b m : sized m -> at_ + length b <= bytes -> sized (set_bytes at_ b m).
Proof. intros [Hc Hd] Hl. split; cbn; [done|]. rewrite !length_app, length_take, length_drop. lia. Qed.
Lemma sized_start : sized (createBridgeBuffer bytes).
Proof. split; cbn; [done|apply length_replicate]. Qed.

Lemma int32_id z : (-2147483648 <= z < 2147483648)%Z -> int32 z = z.
Proof. intros Hz. unfold int32. change (2 ^ 31)%Z with 2147483648%Z. change (2 ^ 32)%Z with 4294967296%Z. rewrite Z.mod_small by lia. lia. Qed.

Lemma set_bytes_start b m : data (set_bytes 0 b m) = b ++ drop (length b) (data m).
Proof. done. Qed.
Lemma slice_first a r m : data m = a ++ r -> slice 0 (length a) m = a.
Proof. intros E. unfold slice. rewrite E, drop_0, Nat.sub_0_r. apply take_app_length. Qed.
Lemma slice_second a b r m : data m = a ++ b ++ r -> slice (length a) (length a + length b) m = b.
Proof. intros E. unfold slice. rewrite E, drop_app_length. replace (length a + length b - length a) with (length b) by lia. apply take_app_length. Qed.

#[local] Arguments int32 : simpl never.
#[local] Arguments encoded : simpl never.
#[local] Arguments response : simpl never.
#[local] Arguments refusal : simpl never.
#[local] Arguments too_big : simpl never.

(** ** What holds at every step *)

Section Invariant.
  Context (k0 : C) (calls : list call).
  Context (bytes_small : (Z.of_nat bytes < 2147483648)%Z) (calls_json : Forall (fun c => Json.jsonable (fst c) = true) calls).

Definition current (p : client_pc) : list call :=
  match p with
  | Ready => []
  | PutPayload c | PutRequestLength c | PutPayloadLength c | Announce c | Notify c | CheckState c | Wait c | Parked c
  | ReadStatus c | ReadResult c _ | ReadLength c _ _ | ReadAnswer c _ _ _ | Release c _ _ _ => [c]
  end.

(** The Worker of the bridge has no request in hand. *)
Definition resting (p : server_pc) : Prop :=
  match p with
  | Observe | Poll | Asleep | NotifyClient => True
  | Decide v => v <> STATE_REQUEST
  | _ => False
  end.

Definition request_there (c : call) (m : shared) : Prop := exists rest, data m = encoded c ++ snd c ++ rest.
Definition lengths_there (c : call) (m : shared) : Prop :=
  load REQUEST_LEN m = Z.of_nat (length (encoded c)) /\ load PAYLOAD_LEN m = Z.of_nat (length (snd c)).

(** How [perform] ends for [c], and the context it leaves. *)
Definition outcome_of (k : C) (c : call) : Z * Z * list N := response bytes (fst (perform k (fst c) (snd c))).
Definition context_after (k : C) (c : call) : C := snd (perform k (fst c) (snd c)).

Definition answer_there (k : C) (c : call) (m : shared) : Prop := exists status result answer rest,
  outcome_of k c = (status, result, answer) /\ data m = answer ++ rest /\ load STATUS m = int32 status /\
  load RESULT m = int32 result /\ load PAYLOAD_LEN m = Z.of_nat (length answer).

(** The call has been announced and not answered. *)
Definition asked (k : C) (c : call) (s : system) : Prop :=
  let m := memory s in
  load STATE m = STATE_REQUEST /\
  match server s with
  | Observe | Poll | Decide _ | NotifyClient | LoadLengths => context s = k /\ request_there c m /\ lengths_there c m
  | Asleep => client s = Notify c /\ context s = k /\ request_there c m /\ lengths_there c m
  | LoadPayloadLength n => context s = k /\ request_there c m /\ lengths_there c m /\ n = Z.of_nat (length (encoded c))
  | CopyRequest n l => context s = k /\ request_there c m /\ lengths_there c m /\ n = Z.of_nat (length (encoded c)) /\ l = Z.of_nat (length (snd c))
  | Perform request payload => context s = k /\ request = fst c /\ payload = snd c
  | PutAnswer status result answer => context s = context_after k c /\ outcome_of k c = (status, result, answer)
  | PutStatus status result answer => context s = context_after k c /\ outcome_of k c = (status, result, answer) /\
      exists rest, data m = answer ++ rest
  | PutResult result answer => context s = context_after k c /\ exists status rest, outcome_of k c = (status, result, answer) /\
      data m = answer ++ rest /\ load STATUS m = int32 status
  | PutLength answer => context s = context_after k c /\ exists status result rest, outcome_of k c = (status, result, answer) /\
      data m = answer ++ rest /\ load STATUS m = int32 status /\ load RESULT m = int32 result
  | Respond => context s = context_after k c /\ answer_there k c m
  | Dead _ => False
  end.

(** The call has been answered. *)
Definition answered (k : C) (c : call) (s : system) : Prop :=
  load STATE (memory s) = STATE_RESPONSE /\ resting (server s) /\ context s = context_after k c /\ answer_there k c (memory s).

Definition waiting (k : C) (c : call) (s : system) : Prop :=
  asked k c s \/ answered k c s /\ (client s = Parked c -> server s = NotifyClient).

Definition idle (k : C) (s : system) : Prop := load STATE (memory s) = STATE_IDLE /\ resting (server s) /\ context s = k.

Definition consistent (k : C) (s : system) : Prop :=
  let m := memory s in
  match client s with
  | Ready => idle k s
  | PutPayload c => idle k s /\ fits bytes c = true /\ exists rest, data m = encoded c ++ rest
  | PutRequestLength c => idle k s /\ fits bytes c = true /\ request_there c m
  | PutPayloadLength c => idle k s /\ fits bytes c = true /\ request_there c m /\ load REQUEST_LEN m = Z.of_nat (length (encoded c))
  | Announce c => idle k s /\ fits bytes c = true /\ request_there c m /\ lengths_there c m
  | Notify c | CheckState c | Wait c | Parked c => fits bytes c = true /\ waiting k c s
  | ReadStatus c => fits bytes c = true /\ answered k c s
  | ReadResult c status' => fits bytes c = true /\ answered k c s /\ status' = load STATUS m
  | ReadLength c status' result' => fits bytes c = true /\ answered k c s /\ status' = load STATUS m /\ result' = load RESULT m
  | ReadAnswer c status' result' length' =>
      fits bytes c = true /\ answered k c s /\ status' = load STATUS m /\ result' = load RESULT m /\ length' = load PAYLOAD_LEN m
  | Release c status' result' answer' =>
      fits bytes c = true /\ answered k c s /\ exists status result, outcome_of k c = (status, result, answer') /\
      status' = int32 status /\ result' = int32 result
  end.

Record invariant (s : system) : Prop := {
  inv_sized : sized (memory s);
  inv_split : exists past, calls = past ++ current (client s) ++ todo s /\ answers s = fst (direct_all k0 past) /\
    consistent (snd (direct_all k0 past)) s
}.

Lemma direct_all_snoc k past c : direct_all k (past ++ [c]) =
  (fst (direct_all k past) ++ [fst (direct (snd (direct_all k past)) c)], snd (direct (snd (direct_all k past)) c)).
Proof.
  revert k. induction past as [|d past IH]; intros k; cbn [direct_all app].
  - cbn [fst snd app]. by destruct (direct k c).
  - destruct (direct k d) as [o k1]. rewrite IH. by destruct (direct_all k1 past) as [os k2].
Qed.

Lemma invariant_start : invariant (start k0 calls).
Proof.
  split; [apply sized_start|]. exists []. split_and!; [done|done|]. split_and!; [reflexivity|exact I|reflexivity].
Qed.

(** *** The bridge's Worker moves *)

Context (refusal_fits : length (refusal bytes) <= bytes).

Lemma fits_length c : fits bytes c = true -> length (encoded c) + length (snd c) <= bytes.
Proof. intros Hf. by apply Nat.leb_le in Hf. Qed.

Lemma response_fits o status result answer : response bytes o = (status, result, answer) -> length answer <= bytes.
Proof.
  unfold response. destruct (match o with Ok (r, a) => _ | Throw e => _ end) as [[st r] a].
  destruct (bytes <? length a) eqn:Hl; intros [= <- <- <-]; [exact refusal_fits|by apply Nat.ltb_ge].
Qed.

Definition set_server (p : server_pc) (s : system) : system :=
  mkSystem (memory s) (client s) p (context s) (todo s) (answers s).

(** The call the engine's Worker waits for. *)
Definition awaiting (p : client_pc) : option call :=
  match p with Notify c | CheckState c | Wait c | Parked c => Some c | _ => None end.

(** The Worker looks at the state, or sleeps, or is about to notify. *)
Definition quiet (p : server_pc) : bool :=
  match p with Observe | Poll | Asleep | NotifyClient | Decide _ => true | _ => false end.

Lemma consistent_awaiting k c s : awaiting (client s) = Some c -> consistent k s <-> fits bytes c = true /\ waiting k c s.
Proof. unfold consistent. destruct (client s); cbn; intros [= <-]; done. Qed.

Lemma not_awaiting_rests k s : awaiting (client s) = None -> consistent k s -> resting (server s).
Proof. unfold consistent, idle, answered. destruct (client s); cbn; try done; tauto. Qed.

Lemma quiet_moves k s p : consistent k s -> quiet (server s) = true -> quiet p = true ->
  (p = Decide STATE_REQUEST -> load STATE (memory s) = STATE_REQUEST) ->
  (p = Asleep -> load STATE (memory s) <> STATE_REQUEST) ->
  server s <> NotifyClient -> consistent k (set_server p s).
Proof.
  intros Hc Hq Hp Hd Ha Hn.
  assert (load STATE (memory s) <> STATE_REQUEST -> resting p) as Hrest.
  { intros Hs. destruct p; try done. intros ->. by apply Hs, Hd. }
  destruct (awaiting (client s)) as [c|] eqn:Ew.
  - apply (consistent_awaiting k c s Ew) in Hc as [Hf [[Hs Hask]|[(Hs & Hr & Hrest2) Hpark]]].
    + apply (consistent_awaiting k c (set_server p s) Ew). split; [done|]. left. split; [done|]. cbn.
      assert (context s = k /\ request_there c (memory s) /\ lengths_there c (memory s)) as Hthere by (destruct (server s); try done; tauto).
      destruct p; try done. by destruct (Ha eq_refl).
    + apply (consistent_awaiting k c (set_server p s) Ew). split; [done|]. right. split; [|intros E; cbn in E; by apply Hpark in E].
      split; [done|]. split; [|done]. cbn. apply Hrest. rewrite Hs. done.
  - assert (load STATE (memory s) <> STATE_REQUEST) as Hs.
    { unfold consistent, idle, answered in Hc. destruct (client s); try done; intros E; rewrite E in Hc; destruct_and?; done. }
    specialize (Hrest Hs). unfold consistent, idle, answered in *. cbn. destruct (client s); try done; tauto.
Qed.

(** Waking the other side changes nothing else. *)
Lemma notify_moves k s : consistent k s -> server s = NotifyClient ->
  consistent k (mkSystem (memory s) (wake_client (client s)) Observe (context s) (todo s) (answers s)).
Proof.
  intros Hc En. destruct (awaiting (client s)) as [c|] eqn:Ew.
  - apply (consistent_awaiting k c s Ew) in Hc as [Hf Hw].
    assert (awaiting (wake_client (client s)) = Some c) as Ew' by (by destruct (client s)).
    apply (consistent_awaiting k c (mkSystem _ _ _ _ _ _) Ew'). split; [done|].
    destruct Hw as [[Hs Hask]|[(Hs & Hr & Hrest) _]].
    + left. split; [done|]. rewrite En in Hask. exact Hask.
    + right. split; [done|]. cbn. by destruct (client s).
  - pose proof (not_awaiting_rests k s Ew Hc) as Hr. unfold consistent, idle, answered in *. cbn. destruct (client s); try done; cbn; tauto.
Qed.

(** The Worker handles a request. *)
Definition busy (p : server_pc) : bool :=
  match p with Observe | Poll | Asleep | NotifyClient => false | Decide v => (v =? STATE_REQUEST)%Z | _ => true end.

Lemma busy_not_resting p : busy p = true -> ~ resting p.
Proof. destruct p; cbn; try done; [|by intros _ []..]. intros Hv Hn. by apply Hn, Z.eqb_eq. Qed.

Lemma busy_asked k s : consistent k s -> busy (server s) = true -> exists c,
  awaiting (client s) = Some c /\ fits bytes c = true /\ asked k c s.
Proof.
  intros Hc Hb. pose proof (busy_not_resting _ Hb) as Hn.
  destruct (awaiting (client s)) as [c|] eqn:Ew; [|by destruct (Hn (not_awaiting_rests k s Ew Hc))].
  exists c. apply (consistent_awaiting k c s Ew) in Hc as [Hf [Ha|[(_ & Hr & _) _]]]; done.
Qed.

Lemma still_asked k c s : awaiting (client s) = Some c -> fits bytes c = true -> asked k c s -> consistent k s.
Proof. intros Ew Hf Ha. apply (consistent_awaiting k c s Ew). split; [done|by left]. Qed.

Lemma request_read c : Json.jsonable (fst c) = true -> Json.parse (decode (encoded c)) = Ok (fst c).
Proof. intros Hj. by apply Json.store_roundtrip. Qed.

Lemma busy_moves k s s' : sized (memory s) -> consistent k s -> Forall (fun c => Json.jsonable (fst c) = true) (current (client s)) ->
  busy (server s) = true -> server_step s = Some s' ->
  sized (memory s') /\ client s' = client s /\ todo s' = todo s /\ answers s' = answers s /\ consistent k s'.
Proof.
  intros Hz Hc Hj Hb Hstep. destruct (busy_asked k s Hc Hb) as (c & Ew & Hf & Hs & Hask).
  assert (Json.jsonable (fst c) = true) as Hjc by (destruct (client s); cbn in Ew, Hj; try done; injection Ew as ->; exact (Forall_inv Hj)).
  pose proof (fits_length c Hf) as Hlen.
  destruct s as [m cl sv x td an]. cbn [memory client server context todo answers] in *. unfold server_step in Hstep.
  cbn [memory client server context todo answers] in Hstep.
  destruct sv as [|v| | |n l| |n|request payload|status result answer|status result answer|result answer|answer| | |e]; try done.
  - cbn in Hb. rewrite Hb in Hstep. injection Hstep as <-. split_and!; [done..|]. by apply (still_asked k c).
  - destruct Hask as (Hx & (rest & Hd) & Hl & -> & ->).
    assert (slice 0 (Z.to_nat (Z.of_nat (length (encoded c)))) m = encoded c) as E1 by (rewrite Nat2Z.id; by eapply slice_first).
    assert (slice (Z.to_nat (Z.of_nat (length (encoded c)))) (Z.to_nat (Z.of_nat (length (encoded c)) + Z.of_nat (length (snd c)))) m = snd c) as E2.
    { rewrite <- Nat2Z.inj_add, !Nat2Z.id. by eapply slice_second. }
    rewrite E1, E2, (request_read c Hjc) in Hstep. injection Hstep as <-. split_and!; [done..|]. by apply (still_asked k c).
  - injection Hstep as <-. split_and!; [done..|]. apply (still_asked k c); [done..|]. split; [done|]. cbn. destruct Hask as (Hx & Hr & Hl). split_and!; [done..|apply Hl].
  - injection Hstep as <-. split_and!; [done..|]. apply (still_asked k c); [done..|]. split; [done|]. cbn. destruct Hask as (Hx & Hr & Hl & Hn). split_and!; [done..|apply Hl].
  - destruct Hask as (-> & -> & ->). destruct (perform k (fst c) (snd c)) as [o x'] eqn:Ep. destruct (response bytes o) as [[st r] a] eqn:Er.
    injection Hstep as <-. split_and!; [done..|]. apply (still_asked k c); [done..|]. split; [done|]. cbn. unfold context_after, outcome_of. by rewrite Ep.
  - destruct Hask as (Hx & Ho). injection Hstep as <-. pose proof (response_fits _ _ _ _ Ho) as Hla.
    split_and!; [by apply sized_set_bytes|done..|]. apply (still_asked k c); [done..|]. split; [done|]. cbn. split_and!; [done..|]. by eexists.
  - destruct Hask as (Hx & Ho & rest & Hd). injection Hstep as <-. split_and!; [by apply sized_store|done..|].
    apply (still_asked k c); [done..|]. split; [cbn; by rewrite load_store_ne|]. cbn [server context memory]. split; [done|]. exists status, rest.
    split_and!; [done|by rewrite data_store|]. by apply load_store; [|cbv; lia].
  - destruct Hask as (Hx & st & rest & Ho & Hd & Hst). injection Hstep as <-. split_and!; [by apply sized_store|done..|].
    apply (still_asked k c); [done..|]. split; [cbn; by rewrite load_store_ne|]. cbn [server context memory]. split; [done|]. exists st, result, rest.
    split_and!; [done|by rewrite data_store|by rewrite load_store_ne|]. by apply load_store; [|cbv; lia].
  - destruct Hask as (Hx & st & r & rest & Ho & Hd & Hst & Hr). injection Hstep as <-. split_and!; [by apply sized_store|done..|].
    apply (still_asked k c); [done..|]. split; [cbn; by rewrite load_store_ne|]. cbn [server context memory]. split; [done|]. exists st, r, answer, rest.
    split_and!; [done|by rewrite data_store|by rewrite load_store_ne|by rewrite load_store_ne|].
    rewrite load_store by (done || (cbv; lia)). apply int32_id. pose proof (response_fits _ _ _ _ Ho). lia.
  - destruct Hask as (Hx & st & r & a & rest & Ho & Hd & Hst & Hr & Hl). injection Hstep as <-. split_and!; [by apply sized_store|done..|].
    apply (consistent_awaiting k c (mkSystem _ _ _ _ _ _) Ew). split; [done|]. right. split; [|done]. split.
    { cbn. by rewrite load_store by (done || (cbv; lia)). }
    split_and!; [done|done|]. exists st, r, a, rest. cbn. split_and!; [done|done|by rewrite load_store_ne..].
Qed.

(** *** The engine's Worker moves *)

Definition set_client (p : client_pc) (s : system) : system :=
  mkSystem (memory s) p (server s) (context s) (todo s) (answers s).

Lemma asked_awake k c p s : asked k c s -> client s <> Notify c -> asked k c (set_client p s).
Proof. intros [Hs Ha] Hn. split; [done|]. cbn. destruct (server s); try done. by destruct Ha. Qed.

(** While it waits. *)
Lemma waiting_moves k c p s : waiting k c s -> client s <> Notify c -> (p = Parked c -> load STATE (memory s) = STATE_REQUEST) ->
  waiting k c (set_client p s).
Proof.
  intros [Ha|[Ha _]] Hn Hp; [left; by apply asked_awake|right]. split; [exact Ha|]. cbn. intros E. apply Hp in E.
  destruct Ha as [Hs _]. by rewrite E in Hs.
Qed.

Lemma waiting_answered k c s : waiting k c s -> load STATE (memory s) = STATE_RESPONSE -> answered k c s.
Proof. intros [[Hs _]|[Ha _]] E; [by rewrite E in Hs|done]. Qed.

Lemma idle_store k s i z p : idle k s -> i <> STATE -> idle k (mkSystem (store i z (memory s)) p (server s) (context s) (todo s) (answers s)).
Proof. intros (Hs & Hr & Hx) Hi. split_and!; [|done|done]. cbn. by rewrite load_store_ne. Qed.

(** A step inside one call. *)
Lemma within_call k s s' c : sized (memory s) -> current (client s) = [c] -> consistent k s ->
  client_step s = Some s' -> client s' <> Ready ->
  sized (memory s') /\ current (client s') = [c] /\ todo s' = todo s /\ answers s' = answers s /\ consistent k s'.
Proof.
  intros Hz Hcur Hc Hstep Hnr. destruct s as [m cl sv x td an]. unfold client_step in Hstep.
  cbn [memory client server context todo answers] in *.
  destruct cl as [|d|d|d|d|d|d|d|d|d|d st|d st r|d st r l|d st r a]; cbn [current] in Hcur; try done; injection Hcur as ->.
  - destruct Hc as (Hi & Hf & rest & Hd). cbn [memory] in Hd. pose proof (fits_length c Hf) as Hlen. injection Hstep as <-.
    cbn [memory client todo answers current]. destruct (0 <? length (snd c)) eqn:El.
    + split_and!; [by apply sized_set_bytes|done..|]. split; [exact Hi|]. split; [exact Hf|]. unfold request_there. cbn [memory set_bytes data].
      eexists. rewrite Hd, take_app_length. reflexivity.
    + apply Nat.ltb_ge in El. split_and!; [done..|]. split; [exact Hi|]. split; [exact Hf|]. exists rest. cbn [memory]. rewrite Hd. by destruct (snd c); [|cbn in El; lia].
  - destruct Hc as (Hi & Hf & Hr). pose proof (fits_length c Hf) as Hlen. injection Hstep as <-.
    split_and!; [by apply sized_store|done..|]. split; [exact (idle_store k _ REQUEST_LEN _ _ Hi ltac:(done))|]. split; [exact Hf|]. split; [exact Hr|].
    cbn. rewrite load_store by (done || (cbv; lia)). apply int32_id. lia.
  - destruct Hc as (Hi & Hf & Hr & Hn). pose proof (fits_length c Hf) as Hlen. injection Hstep as <-.
    split_and!; [by apply sized_store|done..|]. split; [exact (idle_store k _ PAYLOAD_LEN _ _ Hi ltac:(done))|]. split; [exact Hf|]. split; [exact Hr|].
    split; cbn; [by rewrite load_store_ne|]. rewrite load_store by (done || (cbv; lia)). apply int32_id. lia.
  - destruct Hc as ((Hs & Hres & Hx) & Hf & Hr & Hn1 & Hn2). injection Hstep as <-.
    split_and!; [by apply sized_store|done..|]. split; [exact Hf|]. left. split; [cbn; by rewrite load_store by (done || (cbv; lia))|].
    cbn in *. assert (request_there c (store STATE STATE_REQUEST m) /\ lengths_there c (store STATE STATE_REQUEST m)) as [Hthere Hlens].
    { split; [exact Hr|]. split; cbn; by rewrite load_store_ne. }
    destruct sv; first [exact (False_ind _ Hres)|exact (conj Hx (conj Hthere Hlens))|exact (conj eq_refl (conj Hx (conj Hthere Hlens)))].
  - destruct Hc as (Hf & Hw). injection Hstep as <-. split_and!; [done..|]. split; [exact Hf|].
    destruct Hw as [[Hs Ha]|[(Hs & Hr & Hrest) _]].
    + left. split; [exact Hs|]. cbn in *. destruct sv; first [exact Ha|exact (proj2 Ha)].
    + right. split; [|done]. split; [exact Hs|]. split; [|exact Hrest]. cbn in *. destruct sv; exact Hr.
  - destruct Hc as (Hf & Hw). destruct (load STATE m =? STATE_RESPONSE)%Z eqn:El; injection Hstep as <-; split_and!; try done.
    + apply Z.eqb_eq in El. split; [exact Hf|]. exact (waiting_answered k c _ Hw El).
    + split; [exact Hf|]. exact (waiting_moves k c (Wait c) _ Hw ltac:(done) ltac:(done)).
  - destruct Hc as (Hf & Hw). destruct (load STATE m =? STATE_REQUEST)%Z eqn:El; injection Hstep as <-; split_and!; try done.
    + apply Z.eqb_eq in El. split; [exact Hf|]. exact (waiting_moves k c (Parked c) _ Hw ltac:(done) (fun _ => El)).
    + split; [exact Hf|]. exact (waiting_moves k c (CheckState c) _ Hw ltac:(done) ltac:(done)).
  - destruct Hc as (Hf & Ha). injection Hstep as <-. split_and!; [done..|]. exact (conj Hf (conj Ha eq_refl)).
  - destruct Hc as (Hf & Ha & E1). injection Hstep as <-. split_and!; [done..|]. exact (conj Hf (conj Ha (conj E1 eq_refl))).
  - destruct Hc as (Hf & Ha & E1 & E2). injection Hstep as <-. split_and!; [done..|].
    exact (conj Hf (conj Ha (conj E1 (conj E2 eq_refl)))).
  - destruct Hc as (Hf & Ha & E1 & E2 & E3). injection Hstep as <-. split_and!; [done..|]. split; [exact Hf|]. split; [exact Ha|].
    destruct Ha as (_ & _ & _ & st' & r' & a & rest & Ho & Hd & Hst & Hr & Hl). exists st', r'. cbn [memory] in *.
    rewrite E3, Hl, Nat2Z.id, (slice_first a rest m Hd). exact (conj Ho (conj (eq_trans E1 Hst) (eq_trans E2 Hr))).
  - injection Hstep as <-. destruct (Hnr eq_refl).
Qed.

(** *** Both *)

Lemma direct_answered k c status result answer : fits bytes c = true -> outcome_of k c = (status, result, answer) ->
  direct k c = (call_result c (int32 status) (int32 result) answer, context_after k c).
Proof.
  intros Hf Ho. unfold direct, outcome_of, context_after in *. rewrite Hf. destruct (perform k (fst c) (snd c)) as [o k']. cbn [fst snd] in *.
  by rewrite Ho.
Qed.

Lemma refused k c : fits bytes c = false -> direct k c = (Throw (too_big bytes), k).
Proof. intros Hf. unfold direct. by rewrite Hf. Qed.

Lemma client_keeps s s' : invariant s -> client_step s = Some s' -> invariant s'.
Proof.
  intros [Hz (past & Hcalls & Han & Hc)] Hstep. destruct (client s) eqn:Ecl; cbn [current] in Hcalls;
    try (unfold client_step in Hstep; rewrite Ecl in Hstep; discriminate Hstep);
    try (destruct (within_call (snd (direct_all k0 past)) s s' c Hz ltac:(by rewrite Ecl) Hc Hstep) as (Hz' & Hcur & Htd & Han' & Hc');
         [by (unfold client_step in Hstep; rewrite Ecl in Hstep; injection Hstep as <-; cbn; try destruct (_ =? _)%Z)|
          split; [exact Hz'|]; exists past; rewrite Hcur, Htd, Han'; split_and!; done]).
  - unfold client_step in Hstep. rewrite Ecl in Hstep. destruct (todo s) as [|c rest] eqn:Etd; [done|].
    unfold consistent in Hc. rewrite Ecl in Hc. destruct (fits bytes c) eqn:Hf; injection Hstep as <-.
    + pose proof (fits_length c Hf). split; [apply sized_set_bytes; [done|lia]|]. exists past. split_and!; [done|done|].
      split; [exact Hc|]. split; [exact Hf|]. eexists. apply set_bytes_start.
    + split; [exact Hz|]. exists (past ++ [c]). rewrite direct_all_snoc, (refused _ _ Hf). cbn [client current todo answers fst snd].
      split_and!; [by rewrite <- app_assoc|by rewrite Han|exact Hc].
  - unfold client_step in Hstep. rewrite Ecl in Hstep. injection Hstep as <-. unfold consistent in Hc. rewrite Ecl in Hc.
    destruct Hc as (Hf & (Hs & Hr & Hx & _) & st & r & Ho & -> & ->). split; [by apply sized_store|]. exists (past ++ [c]).
    rewrite direct_all_snoc, (direct_answered _ c st r answer Hf Ho). cbn [client current todo answers fst snd].
    split_and!; [by rewrite <- app_assoc|by rewrite Han|].
    split; [|split; [exact Hr|exact Hx]]. cbn. by rewrite load_store by (done || (cbv; lia)).
Qed.

Lemma server_keeps s s' : invariant s -> server_step s = Some s' -> invariant s'.
Proof.
  intros [Hz (past & Hcalls & Han & Hc)] Hstep. destruct (busy (server s)) eqn:Eb.
  - assert (Forall (fun c => Json.jsonable (fst c) = true) (current (client s))) as Hj.
    { rewrite Hcalls in calls_json. apply Forall_app in calls_json as [_ Hj]. by apply Forall_app in Hj as [Hj _]. }
    destruct (busy_moves _ s s' Hz Hc Hj Eb Hstep) as (Hz' & Ecl & Etd & Ean & Hc').
    split; [exact Hz'|]. exists past. by rewrite Ecl, Etd, Ean.
  - unfold server_step in Hstep. destruct (server s) as [|v| | |n l| |n|request payload|st r a|st r a|r a|a| | |e] eqn:Esv; try done.
    + injection Hstep as <-. split; [exact Hz|]. exists past. split_and!; [done|done|].
      apply (quiet_moves _ s (Decide (load STATE (memory s)))); rewrite ?Esv; try done. by intros [= E].
    + cbn in Eb. rewrite Eb in Hstep. injection Hstep as <-. split; [exact Hz|]. exists past. split_and!; [done|done|].
      apply (quiet_moves _ s); rewrite ?Esv; try done; destruct (waitAsync && _) eqn:Ew; try done.
      apply andb_true_iff in Ew as [_ Ew]. apply Z.eqb_eq in Ew. rewrite Ew. intros _. by apply Z.eqb_neq.
    + injection Hstep as <-. split; [exact Hz|]. exists past. split_and!; [done|done|].
      apply (quiet_moves _ s (Decide (load STATE (memory s)))); rewrite ?Esv; try done. by intros [= E].
    + injection Hstep as <-. split; [exact Hz|]. exists past. pose proof (notify_moves _ s Hc Esv) as Hc'.
      split_and!; [|done|exact Hc']. rewrite Hcalls. by destruct (client s).
Qed.

Lemma invariant_step s s' : invariant s -> step s s' -> invariant s'.
Proof. intros Hi [Hs|Hs]; [by apply (client_keeps s)|by apply (server_keeps s)]. Qed.

Lemma reachable_invariant s : reachable k0 calls s -> invariant s.
Proof.
  intros Hr. pose proof invariant_start as Hi. unfold reachable in Hr. revert Hi. generalize (start k0 calls), Hr.
  clear Hr. intros a Hr. induction Hr as [a|a b e Hs Hr IH]; intros Hi; [done|]. by apply IH, (invariant_step a).
Qed.

Definition finished (s : system) : Prop := client s = Ready /\ todo s = [].

Lemma direct_all_app k a b : direct_all k (a ++ b) =
  (fst (direct_all k a) ++ fst (direct_all (snd (direct_all k a)) b), snd (direct_all (snd (direct_all k a)) b)).
Proof.
  revert k. induction a as [|c a IH]; intros k; cbn [direct_all app fst snd]; [by destruct (direct_all k b)|].
  destruct (direct k c) as [o k1]. rewrite IH. by destruct (direct_all k1 a) as [os k2].
Qed.

(** C13: however the two threads interleave, the answers the engine's Worker has got so far
    are those of calling the other side directly, one call after the other, and once it has
    made all its calls it has all of them, and the bridge's Worker is left as direct calls
    leave it. *)
Theorem bridge_refines_direct_calls s : reachable k0 calls s ->
  answers s `prefix_of` fst (direct_all k0 calls) /\
  (finished s -> answers s = fst (direct_all k0 calls) /\ context s = snd (direct_all k0 calls)).
Proof.
  intros Hr. destruct (reachable_invariant s Hr) as [Hz (past & Hcalls & Han & Hc)]. split.
  - rewrite Hcalls, direct_all_app, Han. cbn [fst]. by apply prefix_app_r.
  - intros [Ecl Etd]. rewrite Ecl, Etd in Hcalls. cbn in Hcalls. rewrite app_nil_r in Hcalls. rewrite Hcalls.
    split; [done|]. unfold consistent in Hc. rewrite Ecl in Hc. by destruct Hc as (_ & _ & ?).
Qed.

(** *** No call hangs *)

Lemma moves_or_finished s : invariant s -> finished s \/ exists s', step s s'.
Proof.
  intros [Hz (past & Hcalls & Han & Hc)].
  assert (is_Some (server_step s) -> finished s \/ exists s', step s s') as Hserver by (intros [s' E]; right; exists s'; by apply server_moves).
  destruct (client_step s) as [s'|] eqn:Ecs; [right; exists s'; by apply client_moves|].
  destruct (client s) eqn:Ecl; unfold client_step in Ecs; rewrite Ecl in Ecs; try done.
  - destruct (todo s) as [|c rest] eqn:Etd; [by left|]. by destruct (fits bytes c).
  - apply Hserver. unfold consistent in Hc. rewrite Ecl in Hc. destruct Hc as [Hf [[Hs Ha]|[_ Hp]]].
    + revert Ha. unfold server_step. destruct (server s) as [|v| | |n l| |n|request payload|st r a|st r a|r a|a| | |e]; intros Ha; try exact (mk_is_Some _ _ eq_refl).
      * destruct (v =? STATE_REQUEST)%Z; exact (mk_is_Some _ _ eq_refl).
      * destruct Ha as [Ha _]. congruence.
      * destruct (Json.parse _); exact (mk_is_Some _ _ eq_refl).
      * destruct (perform _ _ _) as [o k']. destruct (response bytes o) as [[st r] a]. exact (mk_is_Some _ _ eq_refl).
      * by destruct Ha.
    + unfold server_step. by rewrite (Hp Ecl).
Qed.

(** Work left: of the calls, of the two threads. *)
Definition client_work (st : Z) (p : client_pc) : nat :=
  let answered := (st =? STATE_RESPONSE)%Z in
  match p with
  | Ready => 0
  | PutPayload _ => 93 | PutRequestLength _ => 92 | PutPayloadLength _ => 91 | Announce _ => 90 | Notify _ => 60
  | CheckState _ => if answered then 51 else 55
  | Wait _ => if answered then 52 else 54
  | Parked _ => if answered then 50 else 53
  | ReadStatus _ => 45 | ReadResult _ _ => 44 | ReadLength _ _ _ => 43 | ReadAnswer _ _ _ _ => 42 | Release _ _ _ _ => 41
  end.

Definition server_work (st : Z) (p : server_pc) : nat :=
  let base := if (st =? STATE_REQUEST)%Z then 20 else 0 in
  match p with
  | Asleep => base
  | Decide v => if (v =? STATE_REQUEST)%Z then 20 else if (v =? st)%Z then base + 1 else base + 3
  | Observe | Poll => base + 2
  | NotifyClient => base + 8
  | LoadLengths => 19 | LoadPayloadLength _ => 18 | CopyRequest _ _ => 17 | Perform _ _ => 16
  | PutAnswer _ _ _ => 15 | PutStatus _ _ _ => 14 | PutResult _ _ => 13 | PutLength _ => 12 | Respond => 11
  | Dead _ => 0
  end.

Definition work (s : system) : nat :=
  let st := load STATE (memory s) in 100 * length (todo s) + client_work st (client s) + server_work st (server s).

Ltac states := repeat match goal with |- context [(?a =? ?b)%Z] => destruct (Z.eqb_spec a b) end; lia.

Lemma state_changes st st' p : resting p -> server_work st' p <= server_work st p + 22.
Proof.
  intros Hr. destruct p as [|v| | | | | | | | | | | | |]; cbn in *; try done; unfold STATE_REQUEST, STATE_IDLE in *; states.
Qed.
Lemma state_cleared st p : resting p -> server_work STATE_IDLE p <= server_work st p + 2.
Proof.
  intros Hr. destruct p as [|v| | | | | | | | | | | | |]; cbn in *; try done; unfold STATE_REQUEST, STATE_IDLE in *; states.
Qed.
Lemma notified st p : server_work st (wake_server p) <= server_work st p + 2.
Proof. destruct p; cbn; lia. Qed.
Lemma woken st p : client_work st (wake_client p) <= client_work st p + 2.
Proof. destruct p; cbn; try lia. destruct (_ =? _)%Z; lia. Qed.

Lemma waiting_state k c s : waiting k c s -> load STATE (memory s) = STATE_REQUEST \/ load STATE (memory s) = STATE_RESPONSE.
Proof. intros [[Hs _]|[[Hs _] _]]; auto. Qed.

Lemma client_work_left s s' : invariant s -> client_step s = Some s' -> work s' < work s.
Proof.
  intros [Hz (past & Hcalls & Han & Hc)] Hstep. destruct s as [m cl sv x td an]. unfold client_step, work, consistent in *.
  cbn [memory client server context todo answers] in *.
  destruct cl as [|c|c|c|c|c|c|c|c|c|c st|c st r|c st r l|c st r a]; try done; try (injection Hstep as <-; cbn [memory client server todo client_work]; lia).
  - destruct td as [|c rest]; [done|]. destruct (fits bytes c); injection Hstep as <-; cbn [memory client server todo client_work length]; rewrite ?load_set_bytes; lia.
  - destruct (0 <? length (snd c)); injection Hstep as <-; cbn [memory client server todo client_work]; rewrite ?load_set_bytes; lia.
  - injection Hstep as <-. cbn [memory client server todo client_work]. rewrite load_store_ne by done. lia.
  - injection Hstep as <-. cbn [memory client server todo client_work]. rewrite load_store_ne by done. lia.
  - destruct Hc as ((Hs & Hr & _) & _). injection Hstep as <-. cbn [memory client server todo client_work] in *.
    pose proof (state_changes (load STATE m) (load STATE (store STATE STATE_REQUEST m)) sv Hr). lia.
  - injection Hstep as <-. cbn [memory client server todo client_work] in *. pose proof (notified (load STATE m) sv).
    destruct (_ =? _)%Z; lia.
  - injection Hstep as <-. cbn [memory client server todo] in *. destruct (load STATE m =? STATE_RESPONSE)%Z eqn:E; cbn [client_work]; rewrite E; lia.
  - injection Hstep as <-. destruct Hc as [_ [Hs|Hs]%waiting_state]; cbn [memory client server todo] in *; rewrite Hs; cbn; lia.
  - destruct Hc as (_ & (Hs & Hr & _) & _). injection Hstep as <-. cbn [memory client server todo client_work] in *.
    rewrite load_store by (done || (cbv; lia)). change (int32 STATE_IDLE) with STATE_IDLE. pose proof (state_cleared (load STATE m) sv Hr). lia.
Qed.

Lemma server_work_left s s' : waitAsync = true -> invariant s -> server_step s = Some s' -> work s' < work s.
Proof.
  intros Hwait [Hz (past & Hcalls & Han & Hc)] Hstep. destruct (busy (server s)) eqn:Eb.
  - destruct (busy_asked _ s Hc Eb) as (c & Ew & Hf & Hs & _). destruct s as [m cl sv x td an]. unfold server_step, work in *.
    cbn [memory client server context todo answers] in *. rewrite Hs.
    destruct sv as [|v| | |n l| |n|request payload|st r a|st r a|r a|a| | |e]; try done.
    + cbn in Eb. rewrite Eb in Hstep. injection Hstep as <-. cbn [memory client server todo server_work]. rewrite Hs, Eb. lia.
    + destruct (Json.parse _); injection Hstep as <-; cbn [memory client server todo server_work]; rewrite Hs; lia.
    + injection Hstep as <-. cbn [memory client server todo server_work]. rewrite Hs. lia.
    + injection Hstep as <-. cbn [memory client server todo server_work]. rewrite Hs. lia.
    + destruct (perform x request payload) as [o x']. destruct (response bytes o) as [[st r] a]. injection Hstep as <-.
      cbn [memory client server todo server_work]. rewrite Hs. lia.
    + injection Hstep as <-. cbn [memory client server todo server_work]. rewrite load_set_bytes, Hs. lia.
    + injection Hstep as <-. cbn [memory client server todo server_work]. rewrite load_store_ne, Hs by done. lia.
    + injection Hstep as <-. cbn [memory client server todo server_work]. rewrite load_store_ne, Hs by done. lia.
    + injection Hstep as <-. cbn [memory client server todo server_work]. rewrite load_store_ne, Hs by done. lia.
    + injection Hstep as <-. cbn [memory client server todo server_work]. rewrite load_store by (done || (cbv; lia)).
      change (int32 STATE_RESPONSE) with STATE_RESPONSE. destruct cl; cbn in Ew; try done; cbn; lia.
  - destruct s as [m cl sv x td an]. unfold server_step, work in *. cbn [memory client server context todo answers] in *.
    destruct sv as [|v| | |n l| |n|request payload|st r a|st r a|r a|a| | |e]; try done.
    + injection Hstep as <-. cbn [memory client server todo]. cbn [server_work]. rewrite Z.eqb_refl. destruct (_ =? _)%Z; lia.
    + cbn in Eb. rewrite Eb, Hwait in Hstep. injection Hstep as <-. cbn [memory client server todo andb].
      cbn [server_work]. rewrite Eb. rewrite (Z.eqb_sym v). destruct (load STATE m =? v)%Z; cbn [server_work]; destruct (_ =? _)%Z; lia.
    + injection Hstep as <-. cbn [memory client server todo]. cbn [server_work]. rewrite Z.eqb_refl. destruct (_ =? _)%Z; lia.
    + injection Hstep as <-. cbn [memory client server todo]. cbn [server_work]. pose proof (woken (load STATE m) cl). lia.
Qed.

(** C15: where [Atomics.waitAsync] is available, every run of the two threads is finite, of at most
    a hundred steps for each call and two more, and it does not stop before every call has
    returned: nobody waits for a notification that was lost.  (Without it the serving thread
    polls on a timer, for ever.) *)
Theorem bridge_never_hangs n s : waitAsync = true -> nsteps step n (start k0 calls) s ->
  n <= 100 * length calls + 2 /\ (finished s \/ exists s', step s s').
Proof.
  intros Hw Hn. assert (invariant s) as Hi by (apply reachable_invariant; apply rtc_nsteps; by exists n).
  split; [|by apply moves_or_finished].
  assert (n + work s <= work (start k0 calls)) as Hle.
  { clear Hi. pose proof invariant_start as Hi. revert Hn Hi. generalize (start k0 calls) as a. intros a Hn.
    induction Hn as [a|n a b e Hs Hn IH]; intros Hi; [done|].
    assert (work b < work a) by (destruct Hs as [Hs|Hs]; [by apply client_work_left|by apply server_work_left]).
    specialize (IH (invariant_step a b Hi Hs)). lia. }
  change (work (start k0 calls)) with (100 * length calls + 0 + 2) in Hle. lia.
Qed.

End Invariant.

(** *** A run, by a scheduler *)

(** Whose turn it is: [true] for the engine's Worker; a thread that cannot move passes. *)
Fixpoint schedule (turns : list bool) (s : system) : system :=
  match turns with
  | [] => s
  | t :: turns => schedule turns (default s (if t then client_step s else server_step s))
  end.

Lemma schedule_steps turns s : rtc step s (schedule turns s).
Proof.
  revert s. induction turns as [|t turns IH]; intros s; cbn [schedule]; [reflexivity|].
  destruct t; [destruct (client_step s) as [s1|] eqn:E|destruct (server_step s) as [s1|] eqn:E]; cbn [default]; try apply IH.
  - eapply rtc_l; [by apply client_moves|apply IH].
  - eapply rtc_l; [by apply server_moves|apply IH].
Qed.

End System.

Arguments system : clear implicits.

(** ** Witnesses *)

Lemma relative_path_stays_inside_witness :
  relativeBridgePath (js "/data//a/b") (js "/data/") = Ok (js "a/b") /\
  exists names, pathParts (js "a/b") = Ok names /\ Forall Path.clean names /\
    (parts_of (js "/data//a/b") = parts_of (js "/data/") ++ names \/
     js "/data//a/b" ∈ [leasePrefix (granted (js "/data/")); leasePrefix (granted (js "/data/")) ++ js ".json"] /\ names = [js "a/b"]).
Proof.
  assert (relativeBridgePath (js "/data//a/b") (js "/data/") = Ok (js "a/b")) as E by (vm_compute; reflexivity).
  split; [exact E|exact (relative_path_stays_inside _ _ _ E)].
Defined.

(** A Worker that counts its calls and sends back the payload. *)
Definition echo (n : nat) (request : value) (payload : list N) : outcome (Z * list N) * nat := (Ok (Z.of_nat n, payload), S n).
Definition small_calls : list call := [(VStr (js "a"), [7; 8]%N); (VStr (js "b"), replicate 64 1%N); (VStr (js "c"), [])].
Definition turns : list bool := concat (replicate 60 [true; false; false; true; true; false]).
Definition small_run : system nat := schedule echo 64 true turns (start 64 0 small_calls).

Lemma bridge_refines_direct_calls_witness :
  answers small_run = [Ok (0%Z, [7; 8]%N); Throw (too_big 64); Ok (1%Z, [])] /\ finished small_run /\
  answers small_run `prefix_of` fst (direct_all echo 64 0 small_calls) /\
  (finished small_run -> answers small_run = fst (direct_all echo 64 0 small_calls) /\ context small_run = snd (direct_all echo 64 0 small_calls)).
Proof.
  split; [vm_compute; reflexivity|]. split; [split; vm_compute; reflexivity|].
  refine (bridge_refines_direct_calls echo 64 true 0 small_calls _ _ _ small_run (schedule_steps echo 64 true turns _)).
  - vm_compute. reflexivity.
  - repeat constructor; vm_compute; reflexivity.
  - apply Nat.leb_le. vm_compute. reflexivity.
Defined.

Lemma bridge_never_hangs_witness :
  exists n, nsteps (step echo 64 true) n (start 64 0 small_calls) small_run /\
  n <= 100 * length small_calls + 2 /\ (finished small_run \/ exists s', step echo 64 true small_run s').
Proof.
  assert (exists n, nsteps (step echo 64 true) n (start 64 0 small_calls) small_run) as [n Hn]
    by (apply rtc_nsteps; exact (schedule_steps echo 64 true turns _)).
  exists n. split; [exact Hn|]. refine (bridge_never_hangs echo 64 true 0 small_calls _ _ _ n small_run eq_refl Hn).
  - vm_compute. reflexivity.
  - repeat constructor; vm_compute; reflexivity.
  - apply Nat.leb_le. vm_compute. reflexivity.
Defined.

End Bridge.
