(* ===== verification/BridgeFs.v ===== *)
(** What the bridge's Worker does for a call: [perform] of
    [src/browser/opfs-bridge-worker.mjs] over the File System API, and the operations
    [createBridgeBackend] of [src/browser/opfs-bridge.mjs] offers the engine on top of the
    calls of [Bridge].  The API is a parameter. *)

From stdpp Require Import gmap.
From S2P Require Import Prelude PathUtil JsNum JsValue Utf8 Json Base64 Filesystem MemFs Opfs Bridge.

Module BridgeFs.
Import Utf8 Opfs Bridge.

(** What the Worker calls of the API beside [FileSystemApi]. *)
Class SyncAccess (S DH FH X : Type) := {
  access_read : X -> nat -> nat -> M S (list N);   (* read(new Uint8Array(length), { at }) *)
  access_put : X -> list N -> nat -> M S nat;      (* write(bytes, { at }) *)
  access_truncate : X -> nat -> M S ();
  hasMove : FH -> bool;                            (* typeof source.move === 'function' *)
  move_to : FH -> DH -> jstr -> M S ()
}.

Definition ATTRIBUTE_MANIFEST : jstr := js ".fylo-attributes.json".

(** [context] of [serve]; a handle of a directory has no access handle. *)
Record worker (S DH X : Type) := mkWorker {
  api : S;
  root : DH;
  handles : gmap Z (option X);
  next : Z;
  attributes : option value
}.
Arguments mkWorker {S DH X}. Arguments api {S DH X}. Arguments root {S DH X}. Arguments handles {S DH X}. Arguments next {S DH X}. Arguments attributes {S DH X}.

Definition coded (code : string) (message : jstr) : js_error :=
  {| err_name := js "Error"; err_message := message; err_code := Some (js code) |}.

(** An integer of a request, and one used as a length or an offset. *)
Definition int_of (v : value) : Z := default 0%Z (Num.to_Z (to_num v)).
Definition index_of (v : value) : nat := Z.to_nat (int_of v).
Definition number (z : Z) : value := VNum (Num.of_Z z).

(** *** The manifest as an ordinary object *)

(** What an object without properties inherits, as text. *)
Definition inherited : list jstr := map js
  ["constructor"; "__defineGetter__"; "__defineSetter__"; "hasOwnProperty"; "__lookupGetter__"; "__lookupSetter__";
   "isPrototypeOf"; "propertyIsEnumerable"; "toString"; "valueOf"; "toLocaleString"]%string.
Definition inherited_text (name : jstr) : option jstr :=
  if jeqb name (js "__proto__") then Some (js "[object Object]")
  else if bool_decide (name ∈ inherited) then Some (js "function " ++ (if jeqb name (js "constructor") then js "Object" else name) ++ js "() { [native code] }")
  else None.

(** [manifest[path]], when truthy, as the text [atob] is given. *)
Definition stored_text (manifest : object) (path : jstr) : option jstr :=
  match alist_get path manifest with
  | Some v => if truthy v then Some (to_str v) else None
  | None => inherited_text path
  end.

(** [manifest[path] = text] *)
Definition store_text (path text : jstr) (manifest : object) : object :=
  if jeqb path (js "__proto__") && negb (has_own path manifest) then manifest else obj_set path (VStr text) manifest.

Definition encodeBase64 (bytes : list N) : outcome jstr := Base64.btoa bytes.
Definition decodeBase64 (text : jstr) : outcome (list N) := Base64.atob text.

Section Worker.
  Context {S DH FH W X : Type} `{FileSystemApi S DH FH W X} `{SyncAccess S DH FH X}.

Abbreviation state := (worker S DH X) (only parsing).

Definition on_api {A} (m : M S A) : M state A := fun s =>
  let '(r, a) := m (api s) in (r, mkWorker a (root s) (handles s) (next s) (attributes s)).
Definition set_handle (n : Z) (h : option X) (s : state) : state := mkWorker (api s) (root s) (<[n := h]> (handles s)) (next s) (attributes s).
Definition drop_handle (n : Z) (s : state) : state := mkWorker (api s) (root s) (delete n (handles s)) (next s) (attributes s).
Definition take_number (s : state) : state := mkWorker (api s) (root s) (handles s) (next s + 1) (attributes s).
Definition set_attributes (v : value) (s : state) : state := mkWorker (api s) (root s) (handles s) (next s) (Some v).

Definition directory (path : jstr) (create : bool) : M state DH :=
  parts ← lift (pathParts path);
  s ← get;
  fold_m (fun handle part => on_api (getDirectoryHandle handle part create)) parts (root s).

Definition parentOf (path : jstr) (create : bool) : M state (DH * jstr) :=
  parts ← lift (pathParts path);
  match last parts with
  | None => throw (Error (js "an entry path must name a child of the root"))
  | Some name => parent ← directory (join_with Path.SEPARATOR (removelast parts)) create; mret (parent, name)
  end.

Definition fileHandle (path : jstr) (create : bool) : M state FH :=
  pn ← parentOf path create;
  on_api (getFileHandle (fst pn) (snd pn) create).

Definition exists_ (path : jstr) : M state bool := try_catch (_ ← fileHandle path false; mret true) (fun _ => mret false).

Record entry := mkEntry { kind : Z; len : Z; modifiedMs : Z }.
Definition missing : entry := mkEntry 0 0 0.
Definition entry_value (e : entry) : value :=
  VObj [(js "kind", number (kind e)); (js "len", number (len e)); (js "modifiedMs", number (modifiedMs e))].

Definition stat (path : jstr) : M state entry :=
  if bool_decide (parts_of path = []) then mret (mkEntry 2 0 0)
  else
    try_catch
      (pn ← parentOf path false;
       try_catch (file ← on_api (getFileHandle (fst pn) (snd pn) false);
                  size ← on_api (file_size file);
                  modified ← on_api (lastModified file);
                  mret (mkEntry 1 (Z.of_nat size) modified))
                 (fun _ => _ ← on_api (getDirectoryHandle (fst pn) (snd pn) false); mret (mkEntry 2 0 0)))
      (fun _ => mret missing).

Definition required (handle : value) : M state X :=
  s ← get;
  match handles s !! int_of handle with
  | Some (Some access) => mret access
  | _ => throw (coded "EBADF" (js "unknown handle " ++ to_str handle))
  end.

(** [context.next++], then [context.handles.set(handle, access)]. *)
Definition new_handle : M state Z := s ← get; _ ← modify take_number; mret (next s).

Definition open (path : jstr) (flags : Z) : M state Z :=
  let create := Z.testbit flags 2 in
  let exclusive := Z.testbit flags 3 in
  _ ← (if exclusive then there ← exists_ path; throw_if there (coded "EEXIST" (js "already exists: " ++ path)) else mret ());
  e ← stat path;
  if (kind e =? 2)%Z then handle ← new_handle; _ ← modify (set_handle handle None); mret handle
  else
    file ← fileHandle path (create || exclusive);
    handle ← new_handle;
    access ← on_api (createSyncAccessHandle file);
    _ ← modify (set_handle handle (Some access));
    mret handle.

Definition rename (from to : jstr) : M state () :=
  source ← fileHandle from false;
  pn ← parentOf to true;
  if hasMove source then on_api (move_to source (fst pn) (snd pn))
  else
    bytes ← on_api (arrayBuffer source);
    target ← on_api (getFileHandle (fst pn) (snd pn) true);
    access ← on_api (createSyncAccessHandle target);
    _ ← finally (_ ← on_api (access_truncate access 0); _ ← on_api (access_put access bytes 0); on_api (access_flush access))
                (on_api (access_close access));
    origin ← parentOf from false;
    on_api (removeEntry (fst origin) (snd origin) false).

(** The manifest parsed from its file, or an empty one. *)
Definition loadAttributes : M state value :=
  s ← get;
  match attributes s with
  | Some manifest => mret manifest
  | None =>
      manifest ← try_catch (handle ← on_api (getFileHandle (root s) ATTRIBUTE_MANIFEST false);
                            bytes ← on_api (arrayBuffer handle);
                            lift (Json.parse (decode bytes)))
                           (fun _ => mret (VObj []));
      _ ← modify (set_attributes manifest);
      mret manifest
  end.

Definition saveAttributes (manifest : value) : M state () :=
  _ ← modify (set_attributes manifest);
  s ← get;
  handle ← on_api (getFileHandle (root s) ATTRIBUTE_MANIFEST true);
  access ← on_api (createSyncAccessHandle handle);
  finally (_ ← on_api (access_truncate access 0); _ ← on_api (access_put access (encode (Json.text manifest)) 0); on_api (access_flush access))
          (on_api (access_close access)).

Definition readAttrs (path : jstr) : M state (list N) :=
  manifest ← loadAttributes;
  match manifest with
  | VObj o => match stored_text o path with Some text => lift (decodeBase64 text) | None => mret [] end
  | VUndef | VNull => throw (type_error (js "Cannot read properties of null"))
  | _ => mret []
  end.

(** A manifest that is no object is not one this Worker wrote; assigning to it fails. *)
Definition writeAttrs (path : jstr) (payload : list N) : M state () :=
  manifest ← loadAttributes;
  match manifest with
  | VObj o =>
      changed ← (match payload with
                 | [] => mret (obj_delete path o)
                 | _ => text ← lift (encodeBase64 payload); mret (store_text path text o)
                 end);
      saveAttributes (VObj changed)
  | _ => throw (type_error (js "Cannot set properties of this manifest"))
  end.

Definition text_payload (v : value) : Z * list N := (0%Z, encode (Json.text v)).
Definition nothing : Z * list N := (0%Z, []).

Definition perform (request : value) (payload : list N) : M state (Z * list N) :=
  let field name := prop request (js name) in
  let path := to_str (field "path"%string) in
  let is_op name := bool_decide (field "op"%string = VStr (js name)) in
  if is_op "open"%string then handle ← open path (int_of (field "flags"%string)); mret (handle, [])
  else if is_op "close"%string then
    s ← get;
    _ ← (match handles s !! int_of (field "handle"%string) with Some (Some access) => on_api (access_close access) | _ => mret () end);
    _ ← modify (drop_handle (int_of (field "handle"%string)));
    mret nothing
  else if is_op "noop"%string then mret nothing
  else if is_op "read"%string then
    access ← required (field "handle"%string);
    bytes ← on_api (access_read access (index_of (field "length"%string)) (index_of (field "offset"%string)));
    mret (Z.of_nat (length bytes), bytes)
  else if is_op "write"%string then
    access ← required (field "handle"%string);
    written ← on_api (access_put access payload (index_of (field "offset"%string)));
    mret (Z.of_nat written, [])
  else if is_op "truncate"%string then
    access ← required (field "handle"%string);
    _ ← on_api (access_truncate access (index_of (field "length"%string)));
    mret nothing
  else if is_op "flush"%string then
    s ← get;
    match handles s !! int_of (field "handle"%string) with
    | Some None => mret nothing
    | _ => access ← required (field "handle"%string); _ ← on_api (access_flush access); mret nothing
    end
  else if is_op "stat"%string then
    match field "path"%string with
    | VStr path => e ← stat path; mret (text_payload (entry_value e))
    | _ => throw (type_error (js "path.split is not a function"))
    end
  else if is_op "mkdir"%string then _ ← directory path true; mret nothing
  else if is_op "unlink"%string then
    pn ← parentOf path false; _ ← on_api (removeEntry (fst pn) (snd pn) false); mret nothing
  else if is_op "rmdir"%string then
    pn ← parentOf path false; _ ← on_api (removeEntry (fst pn) (snd pn) (truthy (field "recursive"%string))); mret nothing
  else if is_op "rename"%string then _ ← rename (to_str (field "from"%string)) (to_str (field "to"%string)); mret nothing
  else if is_op "readDir"%string then
    handle ← directory path false;
    names ← on_api (entry_names handle);
    mret (text_payload (VArr (map VStr (filter (fun name => name <> ATTRIBUTE_MANIFEST) names))))
  else if is_op "readAttrs"%string then bytes ← readAttrs path; mret (0%Z, bytes)
  else if is_op "writeAttrs"%string then _ ← writeAttrs path payload; mret nothing
  else throw (Error (js "unknown bridge operation: " ++ to_str (field "op"%string))).

(** [rootDirectory(root)] and the context [serve] starts with. *)
Definition rootDirectory (path : jstr) : M S DH :=
  parts ← lift (pathParts path);
  directory ← getDirectory;
  fold_m (fun handle part => getDirectoryHandle handle part true) parts directory.
Definition initial (s : S) (root : DH) : state := mkWorker s root ∅ 1 None.

(** *** Handle numbers *)

(** Every handle in use has a number below the next one, which is at least the first part of
    [k], and is among those of its second part. *)
Definition numbered (k : Z * list Z) (s : state) : Prop :=
  (fst k <= next s)%Z /\ forall n, is_Some (handles s !! n) -> (n < next s)%Z /\ n ∈ snd k.

Lemma numbered_on_api {A} k (m : M S A) : preserves (numbered k) (on_api m).
Proof. intros s Hs. unfold on_api. by destruct (m (api s)) as [r a]. Qed.
Lemma numbered_get k : preserves (numbered k) get.
Proof. by intros s Hs. Qed.
Lemma numbered_attributes k v : preserves (numbered k) (modify (set_attributes v)).
Proof. by apply preserves_modify. Qed.
Lemma numbered_drop k n : preserves (numbered k) (modify (drop_handle n)).
Proof.
  apply preserves_modify. intros s [Hk Hn]. split; [done|]. intros m. cbn [handles drop_handle].
  rewrite lookup_delete_is_Some. intros [_ Hm]. by apply Hn.
Qed.
Lemma numbered_finally {A} k (m : M state A) c : preserves (numbered k) m -> preserves (numbered k) c -> preserves (numbered k) (finally m c).
Proof.
  intros Hm Hc s Hs. specialize (Hm s Hs). unfold finally. destruct (m s) as [r s1]. specialize (Hc s1 Hm).
  by destruct (c s1) as [[]].
Qed.
#[local] Hint Resolve numbered_on_api numbered_get numbered_attributes numbered_drop numbered_finally : fylo.

(** As [step_m], but a computation with a lemma of its own is not unfolded. *)
Ltac keep := repeat first [progress intros | solve [eauto with fylo] | apply preserves_bind | apply preserves_try | apply numbered_finally].

Lemma numbered_directory k path create : preserves (numbered k) (directory path create).
Proof. unfold directory. keep. Qed.
#[local] Hint Resolve numbered_directory : fylo.
Lemma numbered_parentOf k path create : preserves (numbered k) (parentOf path create).
Proof. unfold parentOf. keep. destruct (last a); keep. Qed.
#[local] Hint Resolve numbered_parentOf : fylo.
Lemma numbered_fileHandle k path create : preserves (numbered k) (fileHandle path create).
Proof. unfold fileHandle. keep. Qed.
#[local] Hint Resolve numbered_fileHandle : fylo.
Lemma numbered_exists k path : preserves (numbered k) (exists_ path).
Proof. unfold exists_. keep. Qed.
Lemma numbered_stat k path : preserves (numbered k) (stat path).
Proof. unfold stat. case_bool_decide; keep. Qed.
Lemma numbered_required k handle : preserves (numbered k) (required handle).
Proof. unfold required. keep. destruct (handles a !! int_of handle) as [[]|]; keep. Qed.
#[local] Hint Resolve numbered_exists numbered_stat numbered_required : fylo.
Lemma numbered_rename k from to : preserves (numbered k) (rename from to).
Proof. unfold rename. keep. destruct (hasMove a); keep. Qed.
Lemma numbered_loadAttributes k : preserves (numbered k) loadAttributes.
Proof. unfold loadAttributes. keep. destruct (attributes a); keep. Qed.
Lemma numbered_saveAttributes k v : preserves (numbered k) (saveAttributes v).
Proof. unfold saveAttributes. keep. Qed.
#[local] Hint Resolve numbered_rename numbered_loadAttributes numbered_saveAttributes : fylo.
Lemma numbered_readAttrs k path : preserves (numbered k) (readAttrs path).
Proof. unfold readAttrs. keep. destruct a as [| | | | | |o]; keep. destruct (stored_text o path); keep. Qed.
Lemma numbered_writeAttrs k path payload : preserves (numbered k) (writeAttrs path payload).
Proof. unfold writeAttrs. keep. destruct a; keep. destruct payload; keep. Qed.
#[local] Hint Resolve numbered_readAttrs numbered_writeAttrs : fylo.

(** A new handle gets the next number, and the one after is the next. *)
Lemma new_handle_spec k h s : numbered k s ->
  new_handle s = (Ok (next s), take_number s) /\ numbered ((next s + 1)%Z, next s :: snd k) (set_handle (next s) h (take_number s)).
Proof.
  intros [Hk Hn]. split; [done|]. split; [cbn; lia|]. intros n. cbn [handles set_handle take_number next snd].
  destruct (decide (n = next s)) as [->|Hne]; [intros _; split; [lia|by left]|]. rewrite lookup_insert_ne by done. intros [Hin Hg]%Hn. split; [lia|by right].
Qed.

Lemma open_numbers path flags k s : numbered k s ->
  match open path flags s with
  | (Ok h, s') => (fst k <= h)%Z /\ numbered ((h + 1)%Z, h :: snd k) s'
  | (Throw _, s') => numbered k s'
  end.
Proof.
  intros Hs. unfold open.
  set (check := if Z.testbit flags 3 then _ else _). assert (preserves (numbered k) check) as Hcheck by (subst check; destruct (Z.testbit flags 3); keep).
  specialize (Hcheck s Hs). unfold mbind at 1, M_bind at 1. destruct (check s) as [[[]|e] s1]; [|done]. clear check. cbn [snd] in Hcheck.
  pose proof (numbered_stat k path s1 Hcheck) as Hstat. unfold mbind at 1, M_bind at 1. destruct (stat path s1) as [[e|e] s2]; [|done]. cbn [snd] in Hstat.
  destruct (kind e =? 2)%Z.
  - destruct (new_handle_spec k None s2 Hstat) as [Hnew Hnum]. rewrite (M_bind_ok _ _ _ _ _ Hnew). run_pure. split; [apply Hstat|done].
  - pose proof (numbered_fileHandle k path (Z.testbit flags 2 || Z.testbit flags 3) s2 Hstat) as Hfile. unfold mbind at 1, M_bind at 1.
    destruct (fileHandle _ _ s2) as [[file|err] s3]; [|done]. cbn [snd] in Hfile. destruct (new_handle_spec k None s3 Hfile) as [Hnew _].
    rewrite (M_bind_ok _ _ _ _ _ Hnew). unfold mbind at 1, M_bind at 1, on_api. destruct (createSyncAccessHandle file (api (take_number s3))) as [[access|err] a].
    + run_pure. split; [apply Hfile|]. apply (new_handle_spec k (Some access) (mkWorker a (root s3) (handles s3) (next s3) (attributes s3)) Hfile).
    + destruct Hfile as [Hk Hn]. split; [cbn; lia|]. intros n [Hin Hg]%Hn. cbn. split; [lia|done].
Qed.

Definition is_open (request : value) : bool := bool_decide (prop request (js "op") = VStr (js "open")).

Lemma open_performed request payload k s : numbered k s -> is_open request = true ->
  match perform request payload s with
  | (Ok (h, _), s') => (fst k <= h)%Z /\ numbered ((h + 1)%Z, h :: snd k) s'
  | (Throw _, s') => numbered k s'
  end.
Proof.
  intros Hs Ho. unfold perform. unfold is_open in Ho. rewrite Ho.
  pose proof (open_numbers (to_str (prop request (js "path"))) (int_of (prop request (js "flags"))) k s Hs) as Hopen.
  unfold mbind at 1, M_bind at 1. by destruct (open _ _ s) as [[h|e] s'].
Qed.

Lemma other_performed request payload k : is_open request = false -> preserves (numbered k) (perform request payload).
Proof.
  intros Ho. unfold perform. unfold is_open in Ho. rewrite Ho.
  repeat match goal with |- preserves _ (if ?b then _ else _) => destruct b end; keep.
  - destruct (handles a !! _) as [[]|]; keep.
  - destruct (handles a !! _) as [[]|]; keep.
  - destruct (prop request (js "path")); keep.
Qed.

(** A run of the Worker, with what each request was answered. *)
Fixpoint performs (requests : list (value * list N)) (s : state) : list (outcome (Z * list N)) * state :=
  match requests with
  | [] => ([], s)
  | (request, payload) :: rest =>
      let '(o, s1) := perform request payload s in let '(os, s2) := performs rest s1 in (o :: os, s2)
  end.

(** The handles its open requests were given. *)
Fixpoint opened (requests : list (value * list N)) (outs : list (outcome (Z * list N))) : list Z :=
  match requests, outs with
  | (request, _) :: requests, o :: outs =>
      match o with
      | Ok (h, _) => if is_open request then h :: opened requests outs else opened requests outs
      | Throw _ => opened requests outs
      end
  | _, _ => []
  end.

Lemma opened_above requests k s : numbered k s ->
  Forall (fun h => (fst k <= h)%Z) (opened requests (fst (performs requests s))) /\ StronglySorted Z.lt (opened requests (fst (performs requests s))) /\
  forall n, is_Some (handles (snd (performs requests s)) !! n) -> n ∈ snd k ++ opened requests (fst (performs requests s)).
Proof.
  revert k s. induction requests as [|[request payload] rest IH]; intros k s Hs; cbn [performs opened fst].
  { split_and!; [constructor..|]. intros n Hn%Hs. rewrite app_nil_r. apply Hn. }
  destruct (is_open request) eqn:Ho.
  - pose proof (open_performed request payload k s Hs Ho) as Hopen. destruct (perform request payload s) as [[[h x]|e] s1].
    + destruct Hopen as [Hk Hnum]. destruct (IH _ s1 Hnum) as (Ha & Hsort & Hend). destruct (performs rest s1) as [os s2]. cbn [fst snd opened] in *. rewrite ?Ho.
      split_and!; [|constructor; [done|]; eapply Forall_impl; [exact Ha|]; cbn; intros; lia|].
      * constructor; [done|]. eapply Forall_impl; [exact Ha|]. cbn; intros; lia.
      * intros n Hn%Hend. clear -Hn. set_solver.
    + destruct (IH k s1 Hopen) as (Ha & Hsort & Hend). destruct (performs rest s1) as [os s2]. by split_and!.
  - pose proof (other_performed request payload k Ho s Hs) as Hother. destruct (perform request payload s) as [o s1]. cbn [snd] in Hother.
    destruct (IH k s1 Hother) as (Ha & Hsort & Hend). destruct (performs rest s1) as [os s2]. cbn [fst snd opened] in *.
    destruct o as [[h x]|e]; [rewrite ?Ho|]; by split_and!.
Qed.

(** C31: whatever is asked of the bridge's Worker, over any file system and whatever fails, the
    handles it gives out are numbered upwards, so no number is used twice, and every handle in
    use is one that a request to open was given. *)
Theorem handles_are_never_reused requests a directory :
  let '(outs, s) := performs requests (initial a directory) in
  StronglySorted Z.lt (opened requests outs) /\ Forall (fun h => (1 <= h)%Z) (opened requests outs) /\
  forall n, is_Some (handles s !! n) -> n ∈ opened requests outs.
Proof.
  assert (numbered (1%Z, []) (initial a directory)) as Hs by (split; [done|]; intros n; cbn; rewrite lookup_empty; by intros []).
  destruct (opened_above requests _ _ Hs) as (Ha & Hsort & Hn). destruct (performs requests (initial a directory)) as [outs s]. by split_and!.
Qed.

(** ** The operations of the engine's side *)

Section Backend.
  Context (bytes : nat) (rootPath : jstr).

Definition call (fields : list (jstr * value)) (payload : list N) : M state (Z * list N) := fun s =>
  direct (fun k request payload => perform request payload k) bytes s (VObj fields, payload).
Definition op (name : string) : jstr * value := (js "op", VStr (js name)).
Definition relative (path : jstr) : M state value := rel ← lift (relativeBridgePath path rootPath); mret (VStr rel).

Definition backend_open (path : jstr) (flags : Z) : M state Z :=
  rel ← relative path; r ← call [op "open"; (js "path", rel); (js "flags", number flags)] []; mret (fst r).
Definition backend_close (handle : Z) : M state () := _ ← call [op "close"; (js "handle", number handle)] []; mret ().
(** The bytes that [into] gets. *)
Definition backend_readAt (handle : Z) (offset length : nat) : M state (list N) :=
  r ← call [op "read"; (js "handle", number handle); (js "offset", number (Z.of_nat offset)); (js "length", number (Z.of_nat length))] [];
  mret (take (Z.to_nat (fst r)) (snd r)).
Definition backend_writeAt (handle : Z) (offset : nat) (from : list N) : M state Z :=
  r ← call [op "write"; (js "handle", number handle); (js "offset", number (Z.of_nat offset))] from; mret (fst r).
Definition backend_truncate (handle : Z) (length : nat) : M state () :=
  _ ← call [op "truncate"; (js "handle", number handle); (js "length", number (Z.of_nat length))] []; mret ().
Definition backend_flush (handle : Z) : M state () := _ ← call [op "flush"; (js "handle", number handle)] []; mret ().
Definition backend_stat (path : jstr) : M state value :=
  rel ← relative path; r ← call [op "stat"; (js "path", rel)] []; lift (Json.parse (decode (snd r))).
Definition backend_mkdir (path : jstr) (recursive : bool) : M state () :=
  rel ← relative path; _ ← call [op "mkdir"; (js "path", rel); (js "recursive", VBool recursive)] []; mret ().
Definition backend_unlink (path : jstr) : M state () := rel ← relative path; _ ← call [op "unlink"; (js "path", rel)] []; mret ().
Definition backend_rmdir (path : jstr) (recursive : bool) : M state () :=
  rel ← relative path; _ ← call [op "rmdir"; (js "path", rel); (js "recursive", VBool recursive)] []; mret ().
Definition backend_rename (from to : jstr) : M state () :=
  from ← relative from; to ← relative to; _ ← call [op "rename"; (js "from", from); (js "to", to)] []; mret ().
Definition backend_readDir (path : jstr) : M state value :=
  rel ← relative path; r ← call [op "readDir"; (js "path", rel)] []; lift (Json.parse (decode (snd r))).
Definition backend_readAttrs (path : jstr) : M state (list N) :=
  rel ← relative path; r ← call [op "readAttrs"; (js "path", rel)] []; mret (snd r).
Definition backend_writeAttrs (path : jstr) (manifest : list N) : M state () :=
  rel ← relative path; _ ← call [op "writeAttrs"; (js "path", rel)] manifest; mret ().

End Backend.
End Worker.

(** ** On the disk of [Opfs] *)

Import Opfs.Disk.

Section Disk.
  (** Whether its files have [move]. *)
  Context (moves : bool).

Definition zeros (n : nat) : list N := replicate n 0%N.

(** A write past the end fills the gap with zeros, and so does a truncation upwards. *)
#[local] Instance disk_access : SyncAccess disk path path path := {
  access_read p n at_ := b ← bytes_of p; mret (take n (drop at_ b));
  access_put p b at_ := _ ← update p (fun old => take at_ (old ++ zeros at_) ++ b ++ drop (at_ + length b) old); mret (length b);
  access_truncate p n := update p (fun old => take n (old ++ zeros n));
  hasMove _ := moves;
  move_to p h n :=
    d ← get;
    if negb (bool_decide (Path.clean n)) then throw (type_error (js "Name is not allowed"))
    else if negb (has_dir h d) then throw NotFound
    else if has_dir (h ++ [n]) d then throw InvalidModification
    else b ← bytes_of p; modify (fun d => mkDisk (dirs d) (<[h ++ [n] := b]> (delete p (files d))) (swap d))
}.

Abbreviation state := (worker disk path path) (only parsing).

(** *** The attributes as a map *)

Definition manifest_path (s : state) : path := root s ++ [ATTRIBUTE_MANIFEST].

Definition proper (A : gmap jstr (list N)) : Prop :=
  map_Forall (fun p l => code_units p = true /\ inherited_text p = None /\ l <> [] /\ Forall (fun b => Base64.byte b = true) l) A.

(** The manifest object that holds the attributes [A]. *)
Record manifest_of (o : object) (A : gmap jstr (list N)) : Prop := {
  manifest_json : Json.jsonable (VObj o) = true;
  manifest_entries p : alist_get p o = (fun l => VStr (Base64.groups l)) <$> A !! p
}.

(** The Worker and its disk hold the attributes [A]: in the manifest it has loaded, if it
    has, and in the file, where no file stands for none. *)
Record holds (s : state) (A : gmap jstr (list N)) : Prop := {
  holds_proper : proper A;
  holds_root : has_dir (root s) (api s) = true;
  holds_file : has_dir (manifest_path s) (api s) = false;
  holds_manifest : exists o, manifest_of o A /\ (attributes s = None \/ attributes s = Some (VObj o)) /\
    (files (api s) !! manifest_path s = Some (encode (Json.text (VObj o))) \/ files (api s) !! manifest_path s = None /\ o = [])
}.

Lemma load_spec s A : holds s A -> exists o, loadAttributes s = (Ok (VObj o), set_attributes (VObj o) s) /\ manifest_of o A /\ holds (set_attributes (VObj o) s) A.
Proof.
  intros [Hp Hr Hd (o & Ho & Hat & Hfile)]. exists o. split_and!; [|done|split; [done|done|done|exists o; auto]].
  unfold loadAttributes. rewrite get_bind. destruct Hat as [Hat|Hat]; rewrite Hat; [|destruct s; cbn in *; by rewrite Hat].
  enough (try_catch (handle ← on_api (getFileHandle (root s) ATTRIBUTE_MANIFEST false); bytes ← on_api (arrayBuffer handle); lift (Json.parse (decode bytes)))
            (fun _ => mret (VObj [])) s = (Ok (VObj o), s)) as Hrun by (rewrite (M_bind_ok _ _ _ _ _ Hrun); by run_pure).
  assert (negb (bool_decide (Path.clean ATTRIBUTE_MANIFEST)) = false) as Hclean by (by vm_compute).
  unfold try_catch, mbind, M_bind, on_api. cbn [getFileHandle disk_api arrayBuffer]. unfold file. rewrite get_bind, Hclean, Hr. cbn [negb].
  fold (manifest_path s). unfold has_file. destruct Hfile as [Hf|[Hf ->]]; rewrite Hf.
  - rewrite bool_decide_true by (by eexists). cbn [mret M_ret]. unfold bytes_of. rewrite get_bind. cbn [api]. rewrite Hf. cbn [mret M_ret].
    unfold lift. rewrite (proj2 (Json.store_roundtrip (VObj o) (manifest_json _ _ Ho))). by destruct s.
  - rewrite bool_decide_false by (by intros []). rewrite Hd. cbn [throw]. unfold throw. by destruct s.
Qed.
Definition with_file (p : path) (b : list N) (s : state) : state :=
  mkWorker (set_file p b (api s)) (root s) (handles s) (next s) (attributes s).

Lemma update_spec p f b (s : state) : files (api s) !! p = Some b ->
  on_api (update p f) s = (Ok (), with_file p (f b) s).
Proof. intros Hf. unfold on_api, update. rewrite get_bind, Hf. done. Qed.

Lemma save_spec s v : has_dir (root s) (api s) = true -> has_dir (manifest_path s) (api s) = false ->
  saveAttributes v s = (Ok (), set_attributes v (with_file (manifest_path s) (encode (Json.text v)) s)).
Proof.
  intros Hr Hd. unfold saveAttributes. run_pure. set (s1 := set_attributes v s).
  assert (negb (bool_decide (Path.clean ATTRIBUTE_MANIFEST)) = false) as Hclean by (by vm_compute).
  assert (exists b, on_api (getFileHandle (root s1) ATTRIBUTE_MANIFEST true) s1 = (Ok (manifest_path s), with_file (manifest_path s) b s1)) as [b Hget].
  { unfold on_api. cbn [getFileHandle disk_api]. unfold file. rewrite get_bind, Hclean. change (root s1) with (root s). change (api s1) with (api s).
    rewrite Hr. cbn [negb]. fold (manifest_path s). unfold has_file. destruct (files (api s) !! manifest_path s) as [b|] eqn:Hf.
    - rewrite bool_decide_true by (by eexists). exists b. unfold with_file, set_file. change (api s1) with (api s). rewrite insert_id by done. by destruct s as [[] ? ? ? ?].
    - rewrite bool_decide_false by (by intros []). rewrite Hd. by exists []. }
  rewrite (M_bind_ok _ _ _ _ _ Hget). set (m := manifest_path s). set (s2 := with_file m b s1).
  assert (files (api s2) !! m = Some b) as Hb by apply lookup_insert_eq.
  assert (on_api (createSyncAccessHandle m) s2 = (Ok m, s2)) as Hopen.
  { unfold on_api. cbn [createSyncAccessHandle disk_api]. unfold bytes_of, mbind, M_bind, get. by rewrite Hb. }
  rewrite (M_bind_ok _ _ _ _ _ Hopen). unfold finally, mbind, M_bind.
  cbn [access_truncate disk_access]. rewrite (update_spec m _ b s2 Hb), take_0.
  assert (on_api (access_put m (encode (Json.text v)) 0) (with_file m [] s2) =
          (Ok (length (encode (Json.text v))), with_file m (encode (Json.text v)) (with_file m [] s2))) as ->.
  { unfold on_api. cbn [access_put disk_access]. unfold update, mbind, M_bind, get. cbn [api with_file files set_file]. rewrite lookup_insert_eq.
    cbn. by rewrite drop_nil, app_nil_r. }
  cbn. unfold with_file, set_file, set_attributes. cbn. by rewrite !insert_insert_eq.
Qed.

Lemma groups_units l : Forall (fun b => Base64.byte b = true) l -> code_units (Base64.groups l) = true.
Proof.
  intros Hl. unfold code_units. apply forallb_forall. intros c Hin%list_elem_of_In. pose proof (Base64.groups_chars l Hl) as Hc.
  rewrite Forall_forall in Hc. apply N.ltb_lt. destruct (Hc c Hin) as [Hb| ->]; [|done]. unfold Base64.base64_char in Hb.
  apply bool_decide_eq_true in Hb as [d Hd]. unfold Base64.digit_of, is_upper, is_lower, is_digit, in_range in Hd.
  repeat match type of Hd with (if ?b then _ else _) = _ => destruct b eqn:? end; try done; lia.
Qed.

Lemma groups_nonempty l : l <> [] -> Base64.groups l <> [].
Proof. by destruct l as [|a [|b [|c l]]]. Qed.

Definition with_attributes (p : jstr) (l : list N) (A : gmap jstr (list N)) : gmap jstr (list N) :=
  match l with [] => delete p A | _ => <[p := l]> A end.

Lemma ordered_remove k (o : object) : ordered_keys (keys o) = true -> ordered_keys (keys (alist_remove k o)) = true.
Proof.
  unfold keys. induction o as [|[k1 v1] o IH]; cbn [alist_remove map ordered_keys fst]; [done|]. intros [H1 H2]%andb_true_iff. specialize (IH H2).
  destruct (decide (k = k1)); [done|]. cbn [map ordered_keys fst]. rewrite IH, andb_true_r. apply forallb_forall. intros x Hx.
  rewrite forallb_forall in H1. apply H1. clear -Hx. apply list_elem_of_In in Hx. apply list_elem_of_In.
  induction o as [|[k2 v2] o IH]; [done|]. cbn [alist_remove] in Hx. destruct (decide (k = k2)); [by right|].
  cbn [map fst] in *. apply elem_of_cons in Hx as [->|Hx]; [by left|right; by apply IH].
Qed.

Lemma Forall_remove (P : jstr * value -> Prop) k o : Forall P o -> Forall P (alist_remove k o).
Proof. induction 1 as [|[k1 v1] o H1 Ho IH]; cbn [alist_remove]; [constructor|]. destruct (decide (k = k1)); [done|by constructor]. Qed.

Lemma jsonable_object o : Json.jsonable (VObj o) = true <->
  ordered_keys (keys o) = true /\ Forall (fun kv => code_units (fst kv) = true /\ Json.jsonable (snd kv) = true) o.
Proof.
  cbn [Json.jsonable]. rewrite andb_true_iff, forallb_forall, Forall_forall. setoid_rewrite andb_true_iff. by setoid_rewrite list_elem_of_In.
Qed.

(** Setting and deleting keep a manifest. *)
Lemma manifest_set o A p l : manifest_of o A -> code_units p = true -> inherited_text p = None -> l <> [] -> Forall (fun b => Base64.byte b = true) l ->
  store_text p (Base64.groups l) o = obj_set p (VStr (Base64.groups l)) o /\ manifest_of (obj_set p (VStr (Base64.groups l)) o) (<[p := l]> A).
Proof.
  intros [Hj He] Hp Hin Hl Hb. split.
  - unfold store_text. unfold inherited_text in Hin. by destruct (jeqb p (js "__proto__")).
  - apply jsonable_object in Hj as [Ho Hf]. split.
    + apply jsonable_object. split; [by apply ordered_obj_set|]. apply Forall_obj_set; [|done]. split; [done|by apply groups_units].
    + intros q. rewrite alist_get_obj_set. destruct (decide (q = p)) as [->|Hne]; [by rewrite lookup_insert_eq|by rewrite lookup_insert_ne, He].
Qed.

Lemma manifest_delete o A p : manifest_of o A -> manifest_of (obj_delete p o) (delete p A).
Proof.
  intros [Hj He]. apply jsonable_object in Hj as [Ho Hf]. split.
  - apply jsonable_object. split; [by apply ordered_remove|by apply Forall_remove].
  - intros q. destruct (decide (q = p)) as [->|Hne].
    + rewrite lookup_delete_eq. apply alist_get_None. unfold obj_delete. pose proof (ordered_keys_NoDup _ Ho) as Hnd. clear He Hf Ho.
      induction o as [|[k v] o IH]; [by apply not_elem_of_nil|]. cbn [keys map fst alist_remove] in *. apply NoDup_cons in Hnd as [Hk Hnd].
      destruct (decide (p = k)) as [->|Hpk]; [done|]. cbn [keys map fst]. apply not_elem_of_cons. split; [done|by apply IH].
    + rewrite lookup_delete_ne by done. rewrite <- He. by apply alist_get_delete_ne.
Qed.

Lemma proper_with p l A : proper A -> code_units p = true -> inherited_text p = None -> Forall (fun b => Base64.byte b = true) l ->
  proper (with_attributes p l A).
Proof.
  intros HA Hp Hin Hl. unfold with_attributes, proper. destruct l as [|b l]; [by apply map_Forall_delete|]. by apply map_Forall_insert_2.
Qed.

Lemma write_spec s A p l : holds s A -> code_units p = true -> inherited_text p = None -> Forall (fun b => Base64.byte b = true) l ->
  exists s', writeAttrs p l s = (Ok (), s') /\ holds s' (with_attributes p l A).
Proof.
  intros Hs Hp Hin Hl. destruct (load_spec s A Hs) as (o & Hload & Ho & Hs1). unfold writeAttrs. rewrite (M_bind_ok _ _ _ _ _ Hload).
  set (s1 := set_attributes (VObj o) s) in *.
  assert (exists o', (match l with [] => mret (obj_delete p o) | _ => text ← lift (encodeBase64 l); mret (store_text p text o) end) s1 = (Ok o', s1) /\
    manifest_of o' (with_attributes p l A)) as (o' & Hrun & Ho').
  { destruct l as [|b l]; [exists (obj_delete p o); split; [done|by apply manifest_delete]|].
    destruct (manifest_set o A p (b :: l) Ho Hp Hin ltac:(done) Hl) as [Hset Hm]. eexists. split; [|exact Hm].
    unfold encodeBase64. rewrite Base64.btoa_ok by done. run_pure. by rewrite Hset. }
  rewrite (M_bind_ok _ _ _ _ _ Hrun). destruct Hs1 as [HA Hr Hd _]. rewrite (save_spec s1 (VObj o') Hr Hd). eexists. split; [done|]. split.
  - by apply proper_with.
  - exact Hr.
  - exact Hd.
  - exists o'. split_and!; [done|by right|left; apply lookup_insert_eq].
Qed.

Lemma read_spec s A p : holds s A -> inherited_text p = None ->
  exists s', readAttrs p s = (Ok (default [] (A !! p)), s') /\ holds s' A.
Proof.
  intros Hs Hin. destruct (load_spec s A Hs) as (o & Hload & Ho & Hs1). eexists. split; [|exact Hs1].
  unfold readAttrs. rewrite (M_bind_ok _ _ _ _ _ Hload). unfold stored_text. rewrite (manifest_entries _ _ Ho). destruct (A !! p) as [l|] eqn:EA; cbn [fmap option_fmap option_map default].
  - destruct (holds_proper _ _ Hs p l EA) as (_ & _ & Hne & Hb). assert (truthy (VStr (Base64.groups l)) = true) as ->.
    { apply groups_nonempty in Hne. cbn. by destruct (Base64.groups l). }
    unfold decodeBase64. cbn [to_str]. by rewrite Base64.atob_groups.
  - by rewrite Hin.
Qed.

(** *** Through the bridge *)

Section Requests.
  Context (bytes : nat) (rootPath : jstr).

Lemma call_spec fields payload s r ans s' : fits bytes (VObj fields, payload) = true ->
  perform (VObj fields) payload s = (Ok (r, ans), s') -> length ans <= bytes -> (-2147483648 <= r < 2147483648)%Z ->
  call bytes fields payload s = (Ok (r, ans), s').
Proof.
  intros Hf Hp Hl Hr. unfold call, direct. rewrite Hf. cbn [fst snd]. rewrite Hp. unfold response.
  rewrite (proj2 (Nat.ltb_ge _ _) Hl). unfold call_result. rewrite (int32_id r Hr). done.
Qed.

(** What the engine does with attributes, and the bridge's Worker being started anew. *)
Inductive request := WriteAttrs (path : jstr) (manifest : list N) | ReadAttrs (path : jstr) | Restart.

Definition run_request (r : request) : M state (list N) :=
  match r with
  | WriteAttrs path manifest => _ ← backend_writeAttrs bytes rootPath path manifest; mret []
  | ReadAttrs path => backend_readAttrs bytes rootPath path
  | Restart => _ ← modify (fun s => initial (api s) (root s)); mret []
  end.

Fixpoint run_requests (rs : list request) (s : state) : list (outcome (list N)) * state :=
  match rs with
  | [] => ([], s)
  | r :: rs => let '(o, s1) := run_request r s in let '(os, s2) := run_requests rs s1 in (o :: os, s2)
  end.

(** The same on a map from the paths the bridge passes on. *)
Definition name_of (path : jstr) : jstr := match relativeBridgePath path rootPath with Ok rel => rel | Throw _ => [] end.
Definition spec_request (r : request) (A : gmap jstr (list N)) : list N * gmap jstr (list N) :=
  match r with
  | WriteAttrs path manifest => ([], with_attributes (name_of path) manifest A)
  | ReadAttrs path => (default [] (A !! name_of path), A)
  | Restart => ([], A)
  end.
Fixpoint spec_requests (rs : list request) (A : gmap jstr (list N)) : list (list N) * gmap jstr (list N) :=
  match rs with
  | [] => ([], A)
  | r :: rs => let '(o, A1) := spec_request r A in let '(os, A2) := spec_requests rs A1 in (o :: os, A2)
  end.

(** A path inside the root whose name an ordinary object does not inherit. *)
Definition ordinary_path (path : jstr) : Prop :=
  is_ok (relativeBridgePath path rootPath) = true /\ code_units (name_of path) = true /\ inherited_text (name_of path) = None.
Definition request_fits (r : request) : Prop :=
  match r with
  | WriteAttrs path manifest => ordinary_path path /\ Forall (fun b => Base64.byte b = true) manifest /\
      fits bytes (VObj [op "writeAttrs"; (js "path", VStr (name_of path))], manifest) = true
  | ReadAttrs path => ordinary_path path /\ fits bytes (VObj [op "readAttrs"; (js "path", VStr (name_of path))], []) = true
  | Restart => True
  end.

Definition within (A : gmap jstr (list N)) : Prop := map_Forall (fun _ l => length l <= bytes) A.

Lemma relative_spec path (s : state) : is_ok (relativeBridgePath path rootPath) = true -> relative rootPath path s = (Ok (VStr (name_of path)), s).
Proof. unfold relative, name_of. by destruct (relativeBridgePath path rootPath). Qed.

Lemma request_spec r s A : holds s A -> within A -> request_fits r ->
  exists s', run_request r s = (Ok (fst (spec_request r A)), s') /\ holds s' (snd (spec_request r A)) /\ within (snd (spec_request r A)).
Proof.
  intros Hs Hw Hr. destruct r as [path manifest|path|]; cbn [run_request spec_request fst snd request_fits] in *.
  - destruct Hr as ((Hok & Hu & Hin) & Hb & Hf). destruct (write_spec s A (name_of path) manifest Hs Hu Hin Hb) as (s' & Hrun & Hs').
    exists s'. split_and!; [|done|].
    + unfold backend_writeAttrs. rewrite (M_bind_ok _ _ s s' ()); [done|]. rewrite (M_bind_ok _ _ _ _ _ (relative_spec path s Hok)).
      rewrite (M_bind_ok _ _ s s' nothing); [done|]. apply call_spec; [done| |cbn; lia|done].
      change (perform (VObj [op "writeAttrs"; (js "path", VStr (name_of path))]) manifest) with (_ ← writeAttrs (name_of path) manifest; @mret (M state) _ _ nothing).
      by rewrite (M_bind_ok _ _ _ _ _ Hrun).
    + unfold with_attributes, within. destruct manifest as [|b l]; [by apply map_Forall_delete|]. apply map_Forall_insert_2; [|done].
      apply fits_length in Hf. cbn [snd] in Hf. lia.
  - destruct Hr as ((Hok & Hu & Hin) & Hf). destruct (read_spec s A (name_of path) Hs Hin) as (s' & Hrun & Hs').
    exists s'. split_and!; [|done|done]. unfold backend_readAttrs. rewrite (M_bind_ok _ _ _ _ _ (relative_spec path s Hok)).
    rewrite (M_bind_ok _ _ s s' (0%Z, default [] (A !! name_of path))); [done|]. apply call_spec; [done| | |done].
    + change (perform (VObj [op "readAttrs"; (js "path", VStr (name_of path))]) []) with (bytes ← readAttrs (name_of path); @mret (M state) _ _ (0%Z, bytes)).
      by rewrite (M_bind_ok _ _ _ _ _ Hrun).
    + destruct (A !! name_of path) as [l|] eqn:EA; [by apply (Hw _ _ EA)|cbn; lia].
  - exists (initial (api s) (root s)). split_and!; [done| |done]. destruct Hs as [HA Hr' Hd (o & Ho & _ & Hf)]. split; [done|done|done|]. exists o. split_and!; [done|by left|done].
Qed.

(** C14: through the bridge, attributes are a map from ordinary paths to bytes: for requests that
    fit the shared buffer, what is read of a path is what was last written, whatever was written
    for other paths in between and however often the bridge's Worker was started anew.  A path
    is ordinary that lies below the root and is not, at the root, a name every object inherits:
    those are in [inherited_name_unreadable]. *)
Theorem attributes_refine_a_map requests s A : holds s A -> within A -> Forall request_fits requests ->
  exists s', run_requests requests s = (map Ok (fst (spec_requests requests A)), s') /\ holds s' (snd (spec_requests requests A)).
Proof.
  intros Hs Hw Hr. revert s A Hs Hw. induction Hr as [|r rs Hr _ IH]; intros s A Hs Hw; cbn [run_requests spec_requests]; [by exists s|].
  destruct (request_spec r s A Hs Hw Hr) as (s1 & Hrun & Hs1 & Hw1). destruct (spec_request r A) as [o A1]. cbn [fst snd] in *. rewrite Hrun.
  destruct (IH s1 A1 Hs1 Hw1) as (s2 & Hrest & Hs2). destruct (spec_requests rs A1) as [os A2]. cbn [fst snd] in *. rewrite Hrest. by exists s2.
Qed.

Lemma inherited_not_base64 name t : inherited_text name = Some t -> exists e, Base64.atob t = Throw e /\ err_name e = js "InvalidCharacterError" /\ err_code e = None.
Proof.
  intros Ht. exists Base64.invalid_character. split; [|done].
  assert (Forall (fun name => forall t, inherited_text name = Some t -> Base64.atob t = Throw Base64.invalid_character) (js "__proto__" :: inherited)) as Hall.
  { unfold inherited. cbn [map]. repeat (apply Forall_cons_2; [intros x Hx; vm_compute in Hx; injection Hx as <-; by vm_compute|]). apply Forall_nil_2. }
  rewrite Forall_forall in Hall. apply (Hall name); [|exact Ht]. unfold inherited_text in Ht. destruct (jeqb name (js "__proto__")) eqn:E; [by apply jeqb_true in E as ->; left|].
  destruct (bool_decide (name ∈ inherited)) eqn:Ei; [|done]. apply bool_decide_eq_true in Ei. by right.
Qed.

(** The attributes of a file at the root whose name every object inherits, such as
    [constructor], cannot be read: the engine gets EIO. *)
Theorem inherited_name_unreadable path s A : holds s A -> is_ok (relativeBridgePath path rootPath) = true ->
  inherited_text (name_of path) <> None -> fits bytes (VObj [op "readAttrs"; (js "path", VStr (name_of path))], []) = true ->
  exists e s', backend_readAttrs bytes rootPath path s = (Throw e, s') /\ err_code e = Some (js "EIO") /\ holds s' A.
Proof.
  intros Hs Hok Hin Hf. destruct (inherited_text (name_of path)) as [t|] eqn:Ht; [clear Hin|done].
  destruct (inherited_not_base64 _ _ Ht) as (e & He & Hname & Hcode).
  destruct (load_spec s A Hs) as (o & Hload & Ho & Hs1). unfold backend_readAttrs. rewrite (M_bind_ok _ _ _ _ _ (relative_spec path s Hok)).
  assert (A !! name_of path = None) as HA.
  { destruct (A !! name_of path) as [l|] eqn:EA; [|done]. destruct (holds_proper _ _ Hs _ _ EA) as (_ & Hno & _). by rewrite Ht in Hno. }
  assert (perform (VObj [op "readAttrs"; (js "path", VStr (name_of path))]) [] s = (Throw e, set_attributes (VObj o) s)) as Hrun.
  { change (perform (VObj [op "readAttrs"; (js "path", VStr (name_of path))]) []) with (bytes ← readAttrs (name_of path); @mret (M state) _ _ (0%Z, bytes)).
    unfold mbind at 1, M_bind at 1, readAttrs. rewrite (M_bind_ok _ _ _ _ _ Hload). unfold stored_text. rewrite (manifest_entries _ _ Ho), HA. cbn [fmap option_fmap option_map].
    rewrite Ht. unfold decodeBase64. by rewrite He. }
  unfold call, direct, mbind, M_bind. rewrite Hf. cbn [fst snd]. rewrite Hrun. unfold response, status_of. rewrite Hname, Hcode.
  destruct (_ <? _); eexists _, _; (split; [reflexivity|split; [reflexivity|exact Hs1]]).
Qed.

End Requests.
End Disk.

(** ** A site *)

Definition site_root : jstr := js "/fylo".
Definition site : worker disk path path := initial empty [].
Definition visits : list request :=
  [WriteAttrs (js "/fylo/users/a.json") [1; 2; 250]%N; ReadAttrs (js "/fylo/users/a.json"); WriteAttrs (js "/fylo/users/b.json") [7]%N; Restart;
   ReadAttrs (js "/fylo//users/a.json"); WriteAttrs (js "/fylo/users/a.json") []; ReadAttrs (js "/fylo/users/a.json"); ReadAttrs (js "/fylo/users/b.json")].

Lemma site_holds : holds site ∅.
Proof.
  split; [apply map_Forall_empty|by vm_compute|by vm_compute|]. exists []. split_and!; [|by left|by right].
  split; [by vm_compute|]. intros p. by rewrite lookup_empty.
Qed.

Lemma visits_fit : Forall (request_fits 1000 site_root) visits.
Proof.
  unfold visits. repeat (apply Forall_cons_2; [first [exact I | cbn [request_fits]; unfold ordinary_path; split_and!; first [by vm_compute | repeat constructor]]|]). apply Forall_nil_2.
Qed.

Lemma attributes_refine_a_map_witness :
  fst (spec_requests site_root visits ∅) = [[]; [1; 2; 250]; []; []; [1; 2; 250]; []; []; [7]]%N /\
  exists s', run_requests true 1000 site_root visits site = (map Ok (fst (spec_requests site_root visits ∅)), s') /\ holds s' (snd (spec_requests site_root visits ∅)).
Proof.
  split; [vm_compute; reflexivity|]. apply (attributes_refine_a_map true 1000 site_root visits site ∅ site_holds); [apply map_Forall_empty|apply visits_fit].
Defined.

Lemma inherited_name_unreadable_witness :
  exists e s', (let access := disk_access true in backend_readAttrs 1000 site_root (js "/fylo/constructor") site) = (Throw e, s') /\
    err_code e = Some (js "EIO") /\ holds s' ∅.
Proof. apply (inherited_name_unreadable true 1000 site_root (js "/fylo/constructor") site ∅ site_holds); by vm_compute. Defined.

(** Renaming a file leaves its attributes under the old name, where the next file of that
    name finds them. *)
Theorem renamed_file_loses_its_attributes :
  let access := disk_access true in
  let run := _ ← backend_open 1000 site_root (js "/fylo/a.json") 7;
             _ ← backend_writeAttrs 1000 site_root (js "/fylo/a.json") [1; 2]%N;
             _ ← backend_rename 1000 site_root (js "/fylo/a.json") (js "/fylo/b.json");
             moved ← backend_readAttrs 1000 site_root (js "/fylo/b.json");
             _ ← backend_open 1000 site_root (js "/fylo/a.json") 7;
             fresh ← backend_readAttrs 1000 site_root (js "/fylo/a.json");
             mret (moved, fresh) in
  fst (run site) = Ok ([], [1; 2]%N).
Proof. vm_compute. reflexivity. Qed.

(** What is written through a handle is read through it. *)
Example written_is_read :
  let access := disk_access false in
  let run := h ← backend_open 1000 site_root (js "/fylo/users/a.json") 7;
             n ← backend_writeAt 1000 h 3 [5; 6]%N;
             b ← backend_readAt 1000 h 0 10;
             _ ← backend_close 1000 h;
             mret (h, n, b) in
  is_ok (fst (backend_mkdir 1000 site_root (js "/fylo/users") true site)) = true /\
  fst (run (snd (backend_mkdir 1000 site_root (js "/fylo/users") true site))) = Ok (1%Z, 2%Z, [0; 0; 0; 5; 6]%N).
Proof. vm_compute. done. Qed.

End BridgeFs.
