(* ===== verification/Kernel.v ===== *)
(** The index scanner compiled to WebAssembly: [IndexSnapshot] and [parse_queries] of
    [crates/fylo-query/src/lib.rs].  It answers as the scan in JavaScript does, identifiers
    in the same order, which is what the prefix index asks of a scanner. *)

From S2P Require Import Prelude PathUtil JsNum JsValue Utf8 Shard Ttid Codec Filesystem PrefixIndex IndexSearch IndexComplete IndexKeys IndexStore IndexQuery.

Module Kernel.
Import Utf8 Codec PrefixIndex Search Complete Keys Store Answers.

Definition slash : N := 47.
Definition carriage_return : N := 13.

(** ** Limits and errors *)

Record QueryLimits := mkLimits {
  max_snapshot_bytes : N; max_key_bytes : N; max_queries : N; max_term_bytes : N;
  max_input_bytes : N; max_matches : N; max_output_bytes : N
}.
Definition default_limits : QueryLimits :=
  mkLimits (256 * 1024 * 1024) (8 * 1024) 64 (8 * 1024) (1024 * 1024) 1000000 (64 * 1024 * 1024).

Inductive QueryErrorCode :=
| InputTooLarge | InvalidQuery | EmptyQuery | TooManyQueries | TermTooLarge | SnapshotTooLarge
| KeyTooLarge | InvalidSnapshot | UnsortedSnapshot | TooManyMatches | OutputTooLarge.

(** [Result<A, QueryError>]; the messages are left out. *)
Inductive result (A : Type) := Good (a : A) | Err (code : QueryErrorCode).
Arguments Good {A} a. Arguments Err {A} code.
#[export] Instance result_bind : MBind result := fun A B f r => match r with Good a => f a | Err e => Err e end.

(** ** Queries *)

Record ScanQuery := mkQuery { prefix : list N; range : option (range_op * list N) }.

Definition size {A} (l : list A) : N := N.of_nat (length l).

Definition validate_query (limits : QueryLimits) (query : ScanQuery) : result () :=
  if (max_term_bytes limits <? size (prefix query))%N then Err TermTooLarge
  else match range query with
       | Some (_, v) => if (max_term_bytes limits <? size v)%N then Err TermTooLarge else Good ()
       | None => Good ()
       end.
Fixpoint validate_all (limits : QueryLimits) (queries : list ScanQuery) : result () :=
  match queries with
  | [] => Good ()
  | q :: rest => _ ← validate_query limits q; validate_all limits rest
  end.
Definition validate_queries (queries : list ScanQuery) (limits : QueryLimits) : result () :=
  match queries with
  | [] => Err EmptyQuery
  | _ => if (max_queries limits <? size queries)%N then Err TooManyQueries else validate_all limits queries
  end.

(** ** The snapshot *)

(** The loop of [IndexSnapshot::from_bytes]; [previous] is the key before. *)
Fixpoint check_keys (limits : QueryLimits) (previous : option (list N)) (keys : list (list N)) : result () :=
  match keys with
  | [] => Good ()
  | key :: rest =>
      match key with
      | [] => check_keys limits previous rest
      | _ =>
          if (max_key_bytes limits <? size key)%N then Err KeyTooLarge
          else if bool_decide (0%N ∈ key) || bool_decide (carriage_return ∈ key) then Err InvalidSnapshot
          else if match previous with Some prior => jleb key prior | None => false end then Err UnsortedSnapshot
          else check_keys limits (Some key) rest
      end
  end.

Definition from_bytes (bytes : list N) (limits : QueryLimits) : result (list N) :=
  if (max_snapshot_bytes limits <? size bytes)%N then Err SnapshotTooLarge
  else _ ← check_keys limits None (split_on newline bytes); Good bytes.

(** [find_first_key_at_or_after]; the two inner loops are those of the JavaScript search. *)
Fixpoint search (fuel : nat) (snapshot prefix : list N) (low high : nat) : nat :=
  match fuel with
  | O => low
  | S f =>
      if low <? high then
        let middle := Nat.div2 (low + high) in
        let start := line_start snapshot middle in
        let end_ := line_end snapshot middle in
        if jltb (subarray snapshot start end_) prefix then search f snapshot prefix (S end_) high
        else search f snapshot prefix low start
      else low
  end.
Definition find_first_key_at_or_after (snapshot prefix : list N) : nat :=
  let low := search (length snapshot) snapshot prefix 0 (length snapshot) in
  if low <? length snapshot then line_start snapshot low else low.

(** The value between the last two slashes against the bound. *)
Definition include_key_in_range (key : list N) (range : option (range_op * list N)) : bool :=
  match range with
  | None => true
  | Some (op, threshold) =>
      match last_index_of slash key with
      | None => false
      | Some last =>
          match last_index_of slash (take last key) with
          | None => false
          | Some previous =>
              let value := subarray key (S previous) last in
              match op with
              | Gt | Lt => jltb threshold value
              | Gte | Lte => jleb threshold value
              end
          end
      end
  end.

(** The loop of [scan_one]; the set [seen] holds what [matches] does. *)
Fixpoint scan_from (fuel : nat) (bytes : list N) (query : ScanQuery) (limits : QueryLimits) (cursor : nat)
    (matches : list (list N)) : result (list (list N)) :=
  match fuel with
  | O => Good matches
  | S f =>
      if cursor <? length bytes then
        let end_ := line_end bytes cursor in
        let key := subarray bytes cursor end_ in
        if negb (starts_with (prefix query) key) then Good matches
        else
          let id := match last_index_of slash key with Some separator => drop (S separator) key | None => [] end in
          if include_key_in_range key (range query) && negb (jeqb id []) && negb (bool_decide (id ∈ matches)) then
            if (max_matches limits <=? size matches)%N then Err TooManyMatches
            else scan_from f bytes query limits (S end_) (matches ++ [id])
          else scan_from f bytes query limits (S end_) matches
      else Good matches
  end.
Definition scan_one (bytes : list N) (query : ScanQuery) (limits : QueryLimits) : result (list (list N)) :=
  scan_from (length bytes) bytes query limits (find_first_key_at_or_after bytes (prefix query)) [].

(** [scan]: the first query gives the order, the others filter. *)
Fixpoint scan_rest (bytes : list N) (queries : list ScanQuery) (limits : QueryLimits)
    (candidates : option (list (list N))) : result (option (list (list N))) :=
  match queries with
  | [] => Good candidates
  | query :: rest =>
      next ← scan_one bytes query limits;
      scan_rest bytes rest limits
        (Some (match candidates with None => next | Some current => filter (fun id => id ∈ next) current end))
  end.
Definition scan (bytes : list N) (queries : list ScanQuery) (limits : QueryLimits) : result (list (list N)) :=
  _ ← validate_queries queries limits;
  candidates ← scan_rest bytes queries limits None;
  Good (default [] candidates).

Definition scan_encoded (bytes : list N) (queries : list ScanQuery) (limits : QueryLimits) : result (list N) :=
  matches ← scan bytes queries limits;
  let output := concat (map (fun id => id ++ [newline]) matches) in
  if (max_output_bytes limits <? size output)%N then Err OutputTooLarge else Good output.

Lemma scan_encoded_size bytes queries limits e :
  scan_encoded bytes queries limits = Good e -> (size e <= max_output_bytes limits)%N.
Proof.
  unfold scan_encoded, mbind, result_bind. destruct (scan bytes queries limits) as [ids|c]; [|done].
  destruct (N.ltb_spec (max_output_bytes limits) (size (concat (map (fun id => id ++ [newline]) ids)))); [done|]. by intros [= <-].
Qed.

(** ** Against the scan in JavaScript *)

(** Bytes of ASCII text are read the same way by both. *)
Lemma ascii_subarray bytes a b : ascii bytes = true -> ascii (subarray bytes a b) = true.
Proof.
  intros Ha. unfold ascii, subarray in *. rewrite forallb_forall in *. intros x Hx.
  apply Ha. apply list_elem_of_In in Hx. apply list_elem_of_In. eapply elem_of_subseteq; [|exact Hx].
  intros y Hy. apply elem_of_take in Hy as (i & Hy & _). rewrite lookup_drop in Hy. by apply list_elem_of_lookup_2 in Hy.
Qed.

Lemma subarray_ascii bytes a b : ascii bytes = true -> decode (subarray bytes a b) = subarray bytes a b.
Proof. intros Ha. by apply decode_ascii, ascii_subarray. Qed.

Lemma search_same fuel bytes p a b : ascii bytes = true -> search fuel bytes p a b = PrefixIndex.search fuel bytes p a b.
Proof.
  intros Ha. revert a b. induction fuel as [|fuel IH]; intros a b; [done|]. cbn [search PrefixIndex.search].
  rewrite subarray_ascii by done. by rewrite !IH.
Qed.

Lemma find_first_same bytes p : ascii bytes = true -> find_first_key_at_or_after bytes p = findFirstKeyAtOrAfter bytes p.
Proof. intros Ha. unfold find_first_key_at_or_after, findFirstKeyAtOrAfter. by rewrite search_same. Qed.

(** Comparing ASCII bytes with encoded text is comparing strings. *)
Lemma encode_cons_ascii c r : (c < 128)%N -> encode (c :: r) = c :: encode r.
Proof.
  intros Hc. unfold encode. assert (is_high c = false /\ is_surrogate c = false) as [Eh Es].
  { unfold is_high, is_surrogate, in_range. split; apply andb_false_iff; left; apply N.leb_gt; lia. }
  assert (code_points (c :: r) = c :: code_points r) as -> by (destruct r as [|d r]; [done|rewrite code_points_cons2; by rewrite Eh]).
  cbn [flat_map]. rewrite Es. unfold utf8_bytes at 1. by rewrite (proj2 (N.ltb_lt c 128) Hc).
Qed.

Lemma utf8_bytes_high cp : (128 <= cp)%N -> exists b rest, utf8_bytes cp = b :: rest /\ (128 <= b)%N.
Proof.
  intros Hc. unfold utf8_bytes. rewrite (proj2 (N.ltb_ge cp 128) Hc).
  destruct (_ <? _)%N; [by eexists _, _; split; [reflexivity|lia]|]. destruct (_ <? _)%N; eexists _, _; (split; [reflexivity|lia]).
Qed.

Lemma encode_cons_high c r : (128 <= c)%N -> exists b rest, encode (c :: r) = b :: rest /\ (128 <= b)%N.
Proof.
  intros Hc. unfold encode. assert (exists cp l, code_points (c :: r) = cp :: l /\ (128 <= cp)%N) as (cp & l & -> & Hcp).
  { destruct r as [|d r]; [by exists c, []|]. rewrite code_points_cons2. destruct (_ && _) eqn:E; [|by eexists _, _].
    eexists _, _. split; [reflexivity|]. unfold combine. lia. }
  cbn [flat_map]. assert (128 <= (if is_surrogate cp then replacement else cp))%N as Hx by (destruct (is_surrogate cp); [done|done]).
  destruct (utf8_bytes_high _ Hx) as (b & rest & -> & Hb). by eexists _, _.
Qed.

Lemma compare_encoded k t : ascii k = true ->
  jleb k (encode t) = jleb k t /\ jleb (encode t) k = jleb t k /\ starts_with (encode t) k = starts_with t k.
Proof.
  revert t. induction k as [|x k IH]; intros [|c t] Ha; try done.
  - destruct (decide (c < 128)%N) as [Hc|Hc]; [by rewrite encode_cons_ascii|].
    destruct (encode_cons_high c t ltac:(lia)) as (b & rest & -> & Hb). done.
  - unfold ascii in Ha. cbn [forallb] in Ha. apply andb_true_iff in Ha as [Hx Ha]. apply N.ltb_lt in Hx.
    destruct (decide (c < 128)%N) as [Hc|Hc].
    + rewrite encode_cons_ascii by done. cbn [jleb starts_with]. by destruct (IH t Ha) as (-> & -> & ->).
    + destruct (encode_cons_high c t ltac:(lia)) as (b & rest & -> & Hb). cbn [jleb starts_with].
      rewrite !(proj2 (N.ltb_lt _ _)) by lia. rewrite !(proj2 (N.ltb_ge _ _)) by lia.
      assert (b =? x = false /\ c =? x = false)%N as [-> ->] by (split; apply N.eqb_neq; lia). done.
Qed.

(** A query as the bytes it is sent as. *)
Definition utf8 (q : ScanQuery) : ScanQuery :=
  mkQuery (encode (prefix q)) (match range q with Some (op, v) => Some (op, encode v) | None => None end).

Lemma find_first_encoded bytes p : ascii bytes = true -> find_first_key_at_or_after bytes (encode p) = find_first_key_at_or_after bytes p.
Proof.
  intros Ha. unfold find_first_key_at_or_after.
  assert (forall fuel a b, search fuel bytes (encode p) a b = search fuel bytes p a b) as ->; [|done].
  induction fuel as [|fuel IH]; intros a b; [done|]. cbn [search]. unfold jltb.
  assert (ascii (subarray bytes (line_start bytes (Nat.div2 (a + b))) (line_end bytes (Nat.div2 (a + b)))) = true) as Hs by (by apply ascii_subarray).
  destruct (compare_encoded _ p Hs) as (_ & -> & _). by rewrite !IH.
Qed.

Lemma drop_after {X} (a : list X) c b : drop (S (length a)) (a ++ c :: b) = b.
Proof. by induction a. Qed.

(** A key with an identifier under a planned prefix has two slashes. *)
Lemma two_slashes path kind v k id : slash ∉ id -> (exists a, k = a ++ slash :: id) ->
  starts_with (root_of path kind ++ v) k = true -> exists x y, k = x ++ slash :: y ++ slash :: id /\ slash ∉ y.
Proof.
  intros Hid [a ->] [r Hr]%starts_with_spec. assert (slash ∈ a) as Hin.
  { destruct (decide (slash ∈ a)) as [|Hn]; [done|exfalso]. apply (f_equal (fun l => length (split_on slash l))) in Hr.
    rewrite Path.split_on_sep_app in Hr. unfold root_of in Hr. rewrite <- !app_assoc in Hr. cbn [app] in Hr.
    rewrite !Path.split_on_sep_app, !length_app in Hr.
    assert (forall l, slash ∉ l -> split_on slash l = [l]) as Hone by (intros l Hl; exact (split_on_id slash l Hl)).
    rewrite !Hone in Hr by done. cbn [length] in Hr.
    assert (forall l, 1 <= length (split_on PathUtil.c_slash l)) as Hlen
      by (intros l; pose proof (split_on_nonempty PathUtil.c_slash l); destruct (split_on PathUtil.c_slash l); [done|cbn; lia]).
    pose proof (Hlen path). pose proof (Hlen kind). pose proof (Hlen (v ++ r)). lia. }
  apply list_elem_of_split_r in Hin as (x & y & -> & Hy). exists x, y. by rewrite <- app_assoc.
Qed.

Lemma range_same x y id q : ascii (x ++ slash :: y ++ slash :: id) = true -> slash ∉ y -> slash ∉ id ->
  include_key_in_range (x ++ slash :: y ++ slash :: id) (range (utf8 q)) = includeKeyInRange (x ++ slash :: y ++ slash :: id) (range q).
Proof.
  intros Ha Hy Hid. cbn [utf8 range]. destruct (range q) as [[op bound]|]; [|done].
  assert (ascii y = true) as Hay by (unfold ascii in *; rewrite forallb_app in Ha; cbn [forallb] in Ha; rewrite forallb_app, !andb_true_iff in Ha; tauto).
  destruct (compare_encoded y bound Hay) as (Hle & Hge & _). unfold include_key_in_range, includeKeyInRange, rangeValueFromKey.
  set (k := x ++ slash :: y ++ slash :: id).
  assert (k = (x ++ slash :: y) ++ slash :: id) as Ek by (unfold k; by rewrite <- app_assoc).
  assert (last_index_of slash k = Some (length (x ++ slash :: y))) as -> by (rewrite Ek; by apply last_index_of_app).
  rewrite Ek at 1. rewrite take_app_length, last_index_of_app by done.
  assert (subarray k (S (length x)) (length (x ++ slash :: y)) = y) as ->.
  { unfold subarray, k. rewrite drop_after.
    rewrite !length_app. cbn [length]. replace (length x + S (length y) - S (length x)) with (length y) by lia. by rewrite take_app_length. }
  assert (default [] (split_on 47 k !! (length (split_on 47 k) - 2)) = y /\ length (split_on 47 k) <? 2 = false) as [Ey El].
  { rewrite Ek. change 47%N with slash. rewrite split_on_snoc, split_on_snoc by done. rewrite !length_app. cbn [length].
    pose proof (split_on_nonempty slash x). destruct (split_on slash x) as [|s l] eqn:Es; [done|]. cbn [length]. split; [|by apply Nat.ltb_ge; lia].
    replace (S (length l) + 1 + 1 - 2) with (length (s :: l)) by (cbn [length]; lia). rewrite <- app_assoc. by rewrite (list_lookup_middle (s :: l) [id] y). }
  rewrite El, Ey. unfold jltb. rewrite Hle, Hge. by destruct op.
Qed.

Section Query.
  Context (path kind v : jstr) (bounds : option (range_op * jstr)) (limits : QueryLimits).
Let full := root_of path kind ++ v.
Let query := mkQuery full bounds.

Lemma starts_encoded k : ascii k = true -> starts_with (encode full) k = starts_with full k.
Proof. intros Ha. by apply compare_encoded. Qed.

Lemma set_add_extends x l : exists e, set_add x l = l ++ e.
Proof. unfold set_add. destruct (bool_decide _); [exists []; by rewrite app_nil_r|by exists [x]]. Qed.

Lemma scan_keys_extends keys root target out : scan_keys keys full root bounds target = Ok out -> exists e, out = target ++ e.
Proof.
  revert target. induction keys as [|k keys IH]; intros target; cbn [scan_keys]; [intros [= <-]; exists []; by rewrite app_nil_r|].
  destruct (negb _); [intros [= <-]; exists []; by rewrite app_nil_r|]. destruct (negb _); [apply IH|].
  destruct (docIdFromKey root k) as [i|e]; [|done]. cbn [mbind outcome_bind]. intros [e ->]%IH.
  destruct (set_add_extends i target) as [e' ->]. exists (e' ++ e). by rewrite app_assoc.
Qed.

Lemma size_app {A} (a b : list A) : size (a ++ b) = (size a + size b)%N.
Proof. unfold size. rewrite length_app. lia. Qed.

(** What the kernel makes of a matching key. *)
Lemma read_key k id : owner id k -> starts_with full k = true ->
  (match last_index_of slash k with Some separator => drop (S separator) k | None => [] end) = id /\
  include_key_in_range k (range (utf8 query)) = includeKeyInRange k bounds.
Proof.
  intros [Hid [Hik Hk]] Hs. pose proof (ttid_no_slash id Hid) as Hns. apply index_key_facts in Hik as (_ & _ & Ha & _).
  destruct (two_slashes path kind v k id Hns Hk Hs) as (x & y & -> & Hy). split; [|by apply (range_same x y id query)].
  replace (x ++ slash :: y ++ slash :: id) with ((x ++ slash :: y) ++ slash :: id) by (by rewrite <- app_assoc).
  rewrite last_index_of_app by done. apply drop_after.
Qed.

Lemma ttid_nonempty id : TTID.is_ttid id = true -> jeqb id [] = false.
Proof. intros Hid. destruct id; [by vm_compute in Hid|done]. Qed.

Lemma scan_from_spec keys fuel c target out : Forall owned keys -> length keys <= c + fuel -> c <= length keys ->
  scan_keys (drop c keys) full (root_of path kind) bounds target = Ok out ->
  scan_from fuel (lines_text keys) (utf8 query) limits (offset keys c) target = Good out \/
  scan_from fuel (lines_text keys) (utf8 query) limits (offset keys c) target = Err TooManyMatches /\ (max_matches limits < size out)%N.
Proof.
  intros Ho. revert c target. induction fuel as [|fuel IH]; intros c target Hf Hc.
  { rewrite drop_ge by lia. intros [= <-]. by left. }
  cbn [scan_from]. destruct (decide (c = length keys)) as [->|Hne].
  { rewrite drop_all, offset_full, Nat.ltb_irrefl. intros [= <-]. by left. }
  destruct (lookup_lt_is_Some_2 keys c ltac:(lia)) as [k Hk]. rewrite (drop_S keys k c Hk).
  assert (offset keys c <? length (lines_text keys) = true) as ->.
  { rewrite <- offset_full. apply Nat.ltb_lt, offset_lt; lia. }
  pose proof (Forall_lookup_1 _ _ _ _ Ho Hk) as Hown. pose proof (owned_index_key k Hown) as (_ & Hnl & Ha & _)%index_key_facts.
  destruct (read_line keys c k (offset keys c) Hk Hnl ltac:(lia)) as (_ & -> & ->). replace (S (offset keys c + length k)) with (offset keys (S c)) by (rewrite (offset_S keys c k Hk); lia).
  cbn [scan_keys]. change (prefix (utf8 query)) with (encode full). rewrite (starts_encoded k Ha). destruct (starts_with full k) eqn:Hs; cbn [negb]; [|intros [= <-]; by left].
  destruct Hown as (id & Hid & Hdk). destruct (read_key k id (conj Hid Hdk) Hs) as [-> ->].
  destruct (includeKeyInRange k bounds) eqn:Hr; cbn [negb andb]; [|apply IH; lia].
  rewrite (id_of_match path kind v bounds k id) by (unfold matches; fold full; by rewrite ?Hs, ?Hr).
  cbn [mbind outcome_bind]. rewrite (ttid_nonempty id Hid). cbn [negb andb]. unfold set_add.
  destruct (bool_decide (id ∈ target)); cbn [negb]; [apply IH; lia|]. intros Hout.
  destruct (N.leb_spec (max_matches limits) (size target)) as [Hle|]; [|by apply IH; [lia..|]].
  right. split; [done|]. destruct (scan_keys_extends _ _ _ _ Hout) as [e ->]. rewrite !size_app. unfold size at 2. cbn [length]. lia.
Qed.

(** What the kernel answers to one query, and what the JavaScript answers. *)
Lemma scan_one_spec keys : Forall owned keys -> Sorted jle keys ->
  exists out, scanSnapshotWithJavaScript (encode (serializeSnapshot keys)) full (root_of path kind) bounds [] = Ok out /\
    (scan_one (encode (serializeSnapshot keys)) (utf8 query) limits = Good out \/
     scan_one (encode (serializeSnapshot keys)) (utf8 query) limits = Err TooManyMatches /\ (max_matches limits < size out)%N).
Proof.
  intros Ho Hs. destruct (scan_snapshot path kind v bounds keys Ho Hs) as (out & Hout & _). exists out. split; [exact Hout|].
  revert Hout. unfold scanSnapshotWithJavaScript, scan_one. pose proof (snapshot_ascii keys Ho) as Ha.
  rewrite (encode_ascii _ Ha), serializeSnapshot_lines in *. fold full. change (prefix (utf8 query)) with (encode full).
  rewrite find_first_encoded, find_first_same by done. destruct (findFirst_spec keys full (owned_keys keys Ho) Hs) as (c & -> & _ & _).
  rewrite stream_spec; [|eapply Forall_impl; [exact (owned_keys keys Ho)|]; by intros k (? & ? & ? & _)%index_key_facts..].
  intros Hout. assert (exists c', offset keys c = offset keys c' /\ c' <= length keys /\ drop c keys = drop c' keys) as (c' & -> & Hc & Ed).
  { destruct (decide (c <= length keys)) as [|Hgt]; [by exists c|]. exists (length keys). unfold offset.
    by rewrite !take_ge, !drop_ge by lia. }
  rewrite Ed in Hout. apply scan_from_spec; [done| |done|done].
  pose proof (offset_full keys) as E. unfold offset in E. clear -E.
  assert (length keys <= length (lines_text keys)); [|lia].
  induction keys as [|k keys IH]; [done|]. change (lines_text (k :: keys)) with ((k ++ [newline]) ++ lines_text keys).
  rewrite !length_app. cbn [length]. specialize (IH (offset_full keys)). lia.
Qed.

(** The bounds an answer can be beyond. *)
Definition beyond (out : list jstr) : Prop :=
  (max_term_bytes limits < size (encode full))%N \/
  (exists op bound, bounds = Some (op, bound) /\ (max_term_bytes limits < size (encode bound))%N) \/
  (max_queries limits < 1)%N \/ (max_matches limits < size out)%N \/ (max_output_bytes limits < size (lines_text out))%N.

Lemma validate_spec out : validate_queries [utf8 query] limits = Good () \/
  exists e, validate_queries [utf8 query] limits = Err e /\ beyond out.
Proof.
  unfold validate_queries. change (size [utf8 query]) with 1%N. destruct (N.ltb_spec (max_queries limits) 1) as [Hq|_].
  { right. eexists. split; [done|]. unfold beyond. tauto. }
  cbn [validate_all]. unfold validate_query, mbind, result_bind. cbn [utf8 prefix range query].
  destruct (N.ltb_spec (max_term_bytes limits) (size (encode full))) as [Ht|_]; [right; eexists; split; [done|by left]|].
  destruct bounds as [[op bound]|] eqn:Eb; [|by left]. destruct (N.ltb_spec (max_term_bytes limits) (size (encode bound))) as [Ht|_]; [|by left].
  right. eexists. split; [done|]. right. left. exists op, bound. by rewrite Eb.
Qed.

Lemma scan_encoded_spec keys : Forall owned keys -> Sorted jle keys ->
  exists out, scanSnapshotWithJavaScript (encode (serializeSnapshot keys)) full (root_of path kind) bounds [] = Ok out /\
    (scan_encoded (encode (serializeSnapshot keys)) [utf8 query] limits = Good (lines_text out) \/
     exists e, scan_encoded (encode (serializeSnapshot keys)) [utf8 query] limits = Err e /\ beyond out).
Proof.
  intros Ho Hs. destruct (scan_one_spec keys Ho Hs) as (out & Hout & Hone). exists out. split; [exact Hout|].
  unfold scan_encoded, scan. destruct (validate_spec out) as [->|(e & -> & Hb)]; [|right; by exists e].
  unfold mbind, result_bind. cbn [scan_rest mbind result_bind].
  destruct Hone as [->|[-> Hm]]; [|right; eexists; split; [done|]; unfold beyond; tauto]. cbn [mbind result_bind default]. unfold id.
  change (concat (map (fun id => id ++ [newline]) out)) with (lines_text out).
  destruct (N.ltb_spec (max_output_bytes limits) (size (lines_text out))) as [Hm|]; [|by left].
  right. eexists. split; [done|]. unfold beyond. tauto.
Qed.

End Query.

(** A snapshot the index writes is accepted, if it is within bounds. *)
Lemma check_keys_accepts limits previous keys :
  Forall (fun k => index_key k = true /\ (size k <= max_key_bytes limits)%N) keys -> StronglySorted jle keys -> NoDup keys ->
  (forall prior, previous = Some prior -> Forall (fun k => jle prior k /\ prior <> k) keys) ->
  check_keys limits previous (keys ++ [[]]) = Good ().
Proof.
  intros Hk Hs Hn. revert previous. induction Hk as [|k keys [Hik Hsz] Hk IH]; intros previous Hp; [done|].
  inversion_clear Hs as [|? ? Hs' Hle]. inversion_clear Hn as [|? ? Hni Hn']. cbn [app check_keys].
  pose proof Hik as (Hne & Hnl & Ha & Hcr)%index_key_facts. destruct k as [|x k]; [done|].
  rewrite (proj2 (N.ltb_ge _ _) Hsz).
  assert (forall c, c = 0%N \/ c = carriage_return -> bool_decide (c ∈ x :: k) = false) as Hc.
  { intros c Hc. apply bool_decide_false. intros Hin. unfold index_key in Hik. apply andb_true_iff in Hik as [_ Hik].
    rewrite forallb_forall in Hik. apply list_elem_of_In, Hik in Hin. unfold key_char, in_range in Hin. apply andb_true_iff in Hin as [Hin _].
    apply N.leb_le in Hin. destruct Hc as [->| ->]; unfold carriage_return in *; lia. }
  rewrite !Hc by auto. cbn [orb].
  assert (match previous with Some prior => jleb (x :: k) prior | None => false end = false) as ->.
  { destruct previous as [prior|]; [|done]. specialize (Hp prior eq_refl). apply Forall_inv in Hp as [Hle' Hd].
    apply not_true_iff_false. intros E. apply Hd. by apply jleb_antisym. }
  apply IH; [done|done|]. intros prior [= <-]. apply Forall_forall. intros y Hy. rewrite Forall_forall in Hle. split; [by apply Hle|by intros <-].
Qed.

Lemma split_snapshot keys : Forall (fun k => index_key k = true) keys -> split_on newline (lines_text keys) = keys ++ [[]].
Proof.
  intros Hk. rewrite <- (app_nil_r (lines_text keys)), lines_text_split; [done|].
  eapply Forall_impl; [exact Hk|]. by intros k (_ & ? & _)%index_key_facts.
Qed.

Lemma from_bytes_accepts limits keys : Forall owned keys -> Sorted jle keys -> NoDup keys ->
  Forall (fun k => (size k <= max_key_bytes limits)%N) keys ->
  (size (encode (serializeSnapshot keys)) <= max_snapshot_bytes limits)%N ->
  from_bytes (encode (serializeSnapshot keys)) limits = Good (encode (serializeSnapshot keys)).
Proof.
  intros Ho Hs Hn Hk Hsz. unfold from_bytes. rewrite (proj2 (N.ltb_ge _ _) Hsz).
  rewrite (encode_ascii _ (snapshot_ascii keys Ho)), serializeSnapshot_lines, split_snapshot by (by apply owned_keys).
  rewrite check_keys_accepts; [done| |apply Sorted_StronglySorted; [exact jleb_trans|done]|done|done].
  pose proof (owned_keys keys Ho) as Hik. rewrite Forall_forall in *. intros k Hin. auto.
Qed.

End Kernel.
