(* ===== verification/Scanner.v ===== *)
(** The WebAssembly index scanner as the browser runs it: the exported functions of
    [src/browser/wasm/src/lib.rs] over a linear memory, and class [WasmIndexScanner] of
    [src/browser/wasm/index-scanner.js] that calls them.  The allocator of the module and the
    JSON parser it is linked with are parameters. *)

From stdpp Require Import gmap.
From S2P Require Import Prelude PathUtil JsNum JsValue Utf8 Json Shard Ttid Codec Filesystem PrefixIndex IndexSearch IndexComplete IndexKeys IndexStore IndexQuery Kernel.

Module Scanner.
Import Utf8 Codec PrefixIndex Search Complete Keys Store Answers Kernel.

(** ** Linear memory *)

(** Bytes [p] to [p + n] of the memory, and a memory with [b] at [p]. *)
Definition bytes_at (p n : nat) (memory : list N) : list N := subarray memory p (p + n).
Definition splice (p : nat) (b memory : list N) : list N := take p memory ++ b ++ drop (p + length b) memory.

(** What the module relies on of its allocator [A], which shares the memory: [malloc] gives a
    block apart from those in use or traps, [dealloc] takes one back, and neither touches the
    bytes of the others; whoever holds a block may write there.  [live] are the blocks in use. *)
Class Allocator (A : Type) := {
  malloc : nat -> A * list N -> option (nat * (A * list N));
  dealloc : nat -> nat -> A * list N -> A * list N;
  live : A -> list (nat * nat);
  sound : A * list N -> Prop;
  one_byte h : sound h -> 0 < length (snd h);
  four_gigabytes h : sound h -> (Z.of_nat (length (snd h)) <= 4294967296)%Z;
  live_inside h p n : sound h -> (p, n) ∈ live (fst h) -> 0 < p /\ 0 < n /\ p + n <= length (snd h);
  live_apart h p n q m l : sound h -> live (fst h) ≡ₚ (p, n) :: (q, m) :: l -> p + n <= q \/ q + m <= p;
  malloc_sound n h p h' : sound h -> 0 < n -> malloc n h = Some (p, h') ->
    sound h' /\ live (fst h') ≡ₚ (p, n) :: live (fst h) /\ length (snd h) <= length (snd h') /\
    forall q m, (q, m) ∈ live (fst h) -> bytes_at q m (snd h') = bytes_at q m (snd h);
  dealloc_sound p n h l : sound h -> live (fst h) ≡ₚ (p, n) :: l ->
    sound (dealloc p n h) /\ live (fst (dealloc p n h)) ≡ₚ l /\ length (snd (dealloc p n h)) = length (snd h) /\
    forall q m, (q, m) ∈ l -> bytes_at q m (snd (dealloc p n h)) = bytes_at q m (snd h);
  write_sound a memory p n b : sound (a, memory) -> (p, n) ∈ live a -> length b <= n -> sound (a, splice p b memory)
}.

Lemma splice_length p b m : p + length b <= length m -> length (splice p b m) = length m.
Proof. intros Hl. unfold splice. rewrite !length_app, length_take, length_drop. lia. Qed.

Lemma splice_here p b m : p + length b <= length m -> bytes_at p (length b) (splice p b m) = b.
Proof.
  intros Hl. unfold bytes_at, subarray, splice. rewrite drop_app_length' by (rewrite length_take; lia).
  replace (p + length b - p) with (length b) by lia. apply take_app_length.
Qed.

Lemma bytes_at_lookup p n m i : i < n -> bytes_at p n m !! i = m !! (p + i).
Proof. intros Hi. unfold bytes_at, subarray. rewrite lookup_take_lt by lia. by rewrite lookup_drop. Qed.

Lemma bytes_at_ext p n a b : length a = length b -> (forall i, p <= i < p + n -> a !! i = b !! i) -> bytes_at p n a = bytes_at p n b.
Proof.
  intros Hl He. apply list_eq. intros i. destruct (decide (i < n)) as [Hi|Hi].
  - rewrite !bytes_at_lookup by done. apply He. lia.
  - rewrite !lookup_ge_None_2; [done|unfold bytes_at, subarray; rewrite length_take, length_drop; lia..].
Qed.

Lemma splice_apart p b q n m : p + length b <= length m -> q + n <= p \/ p + length b <= q -> bytes_at q n (splice p b m) = bytes_at q n m.
Proof.
  intros Hl Ha. apply bytes_at_ext; [by apply splice_length|]. intros i Hi. unfold splice.
  destruct Ha as [Ha|Ha].
  - rewrite lookup_app_l by (rewrite length_take; lia). apply lookup_take_lt. lia.
  - rewrite lookup_app_r by (rewrite length_take; lia). rewrite length_take. rewrite lookup_app_r by lia.
    rewrite lookup_drop. f_equal. lia.
Qed.

Lemma bytes_at_prefix p n k m : k <= n -> bytes_at p k m = take k (bytes_at p n m).
Proof. intros Hk. unfold bytes_at, subarray. rewrite take_take. f_equal. lia. Qed.

(** A pointer or length as JavaScript sees it, an [i32], and back. *)
Definition i32 (n : nat) : Z := let z := Z.of_nat n in if (z <? 2147483648)%Z then z else (z - 4294967296)%Z.
Definition usize (z : Z) : nat := Z.to_nat (z mod 4294967296).

Definition WASM_ERROR : Z := -1.
Definition WASM_ABI_VERSION : Z := 1.
Definition INITIAL_OUTPUT_CAPACITY : nat := 64 * 1024.
Definition MAX_SNAPSHOT_BYTES : N := 256 * 1024 * 1024.
Definition MAX_QUERY_BYTES : N := 1024 * 1024.
Definition MAX_OUTPUT_BYTES : N := 64 * 1024 * 1024.

Section Module_.
  Context {A : Type} `{Allocator A}.
  (** [serde_json::from_slice::<Vec<ScanQuery>>] *)
  Context (from_slice : list N -> option (list ScanQuery)).

(** ** The module's exports *)

(** The state of an instance: its allocator and memory, and [SNAPSHOT]. *)
Record guest := mkGuest { heap : A * list N; SNAPSHOT : option (list N) }.
Definition memory (g : guest) : list N := snd (heap g).

Definition trap : js_error := {| err_name := js "RuntimeError"; err_message := js "unreachable"; err_code := None |}.

(** A vector of capacity zero is not allocated: its pointer is dangling, and one. *)
Definition allocate (length : nat) : M guest Z :=
  if length =? 0 then mret 1%Z
  else
    g ← get;
    match malloc length (heap g) with
    | Some (p, h) => _ ← modify (fun g => mkGuest h (SNAPSHOT g)); mret (i32 p)
    | None => throw trap
    end.

Definition deallocate (pointer : Z) (capacity : nat) : M guest () :=
  if (usize pointer =? 0) || (capacity =? 0) then mret ()
  else modify (fun g => mkGuest (dealloc (usize pointer) capacity (heap g)) (SNAPSHOT g)).

Definition load_snapshot (pointer : Z) (length : nat) : M guest Z :=
  g ← get;
  if (usize pointer =? 0) && (0 <? length) then mret WASM_ERROR
  else
    match from_bytes (bytes_at (usize pointer) length (memory g)) default_limits with
    | Err _ => mret WASM_ERROR
    | Good snapshot => _ ← modify (fun g => mkGuest (heap g) (Some snapshot)); mret 0%Z
    end.

Definition parse_queries (bytes : list N) (limits : QueryLimits) : result (list ScanQuery) :=
  if (max_input_bytes limits <? size bytes)%N then Err InputTooLarge
  else match from_slice bytes with
       | None => Err InvalidQuery
       | Some queries => _ ← validate_queries queries limits; Good queries
       end.

(** [query] and [output] are regions of the memory. *)
Definition scan_queries (query_pointer : Z) (query_length : nat) (output_pointer : Z) (output_capacity : nat) : M guest Z :=
  g ← get;
  if usize query_pointer =? 0 then mret WASM_ERROR
  else
    match parse_queries (bytes_at (usize query_pointer) query_length (memory g)) default_limits with
    | Err _ => mret WASM_ERROR
    | Good queries =>
        match (match SNAPSHOT g with Some snapshot => Some (scan_encoded snapshot queries default_limits) | None => None end) with
        | Some (Good encoded) =>
            let required := length encoded in
            if (2147483647 <? size encoded)%N then mret WASM_ERROR
            else if (output_capacity <? required) || (0 <? required) && (usize output_pointer =? 0) then mret (Z.of_nat required)
            else
              _ ← when (0 <? required)
                    (modify (fun g => mkGuest (fst (heap g), splice (usize output_pointer) encoded (memory g)) (SNAPSHOT g)));
              mret (Z.of_nat required)
        | _ => mret WASM_ERROR
        end
    end.

(** ** The wrapper *)

Record scanner := mkScanner { instance : guest; outputPointer : Z; outputCapacity : nat }.

Definition call {B} (m : M guest B) : M scanner B := fun s =>
  let '(r, g) := m (instance s) in (r, mkScanner g (outputPointer s) (outputCapacity s)).
Definition set_output (pointer : Z) (capacity : nat) (s : scanner) : scanner := mkScanner (instance s) pointer capacity.

Definition wasm_error (code message : string) : js_error :=
  {| err_name := js "FyloWasmError"; err_message := js "[" ++ js code ++ js "] " ++ js message; err_code := Some (js code) |}.
Definition is_wasm_error (e : js_error) : bool := jeqb (err_name e) (js "FyloWasmError").
Definition range_error : js_error :=
  {| err_name := js "RangeError"; err_message := js "allocator returned an invalid linear-memory region"; err_code := None |}.
Definition no_memory (purpose : jstr) : js_error :=
  {| err_name := js "FyloWasmError";
     err_message := js "[EWASM_MEMORY] Unable to allocate Wasm memory for the FYLO " ++ purpose; err_code := Some (js "EWASM_MEMORY") |}.

(** [new Uint8Array(this.memory.buffer, pointer, bytes.byteLength).set(bytes)] *)
Definition copy_in (pointer : Z) (bytes : list N) : M guest () :=
  g ← get;
  if (pointer <? 0)%Z || (length (memory g) <? Z.to_nat pointer + length bytes) then throw range_error
  else modify (fun g => mkGuest (fst (heap g), splice (Z.to_nat pointer) bytes (memory g)) (SNAPSHOT g)).

Definition allocateRegion (length_ : nat) (purpose : jstr) : M scanner Z :=
  try_catch
    (pointer ← call (allocate length_);
     s ← get;
     _ ← throw_if ((pointer <? 0)%Z || (length (memory (instance s)) <? Z.to_nat pointer + length_)) range_error;
     mret pointer)
    (fun cause => if is_wasm_error cause then throw cause else throw (no_memory purpose)).

Definition loadSnapshot (bytes : list N) : M scanner () :=
  _ ← throw_if (MAX_SNAPSHOT_BYTES <? size bytes)%N (wasm_error "EWASM_SNAPSHOT" "FYLO Wasm snapshot exceeds 268435456 bytes");
  pointer ← allocateRegion (length bytes) (js "snapshot");
  finally
    (_ ← when (0 <? length bytes)
           (try_catch (call (copy_in pointer bytes))
              (fun _ => throw (wasm_error "EWASM_MEMORY" "Unable to copy the FYLO index snapshot into Wasm memory")));
     answer ← call (load_snapshot pointer (length bytes));
     throw_if (answer =? WASM_ERROR)%Z (wasm_error "EWASM_SNAPSHOT" "FYLO Wasm index scanner rejected the snapshot"))
    (call (deallocate pointer (length bytes))).

Definition ensureOutput (capacity : nat) : M scanner () :=
  s ← get;
  if capacity <=? outputCapacity s then mret ()
  else
    _ ← throw_if (MAX_OUTPUT_BYTES <? N.of_nat capacity)%N (wasm_error "EWASM_MEMORY" "FYLO Wasm output allocation exceeds 67108864 bytes");
    pointer ← allocateRegion capacity (js "output");
    _ ← when (negb (outputPointer s =? 0)%Z) (call (deallocate (outputPointer s) (outputCapacity s)));
    modify (set_output pointer capacity).

(** [JSON.stringify(queries)] of one query or more. *)
Definition op_name (op : range_op) : jstr := js (match op with Gt => "$gt" | Gte => "$gte" | Lt => "$lt" | Lte => "$lte" end).
Definition query_value (q : ScanQuery) : value :=
  VObj ((js "prefix", VStr (prefix q)) ::
        match range q with Some (op, v) => [(js "range", VObj [(js "op", VStr (op_name op)); (js "value", VStr v)])] | None => [] end).
Definition query_bytes (queries : list ScanQuery) : list N := encode (Json.text (VArr (map query_value queries))).

(** The calls with the query in memory at [inputPointer]. *)
Definition scan_written (inputPointer : Z) (input : nat) : M scanner (list jstr) :=
  let scan := s ← get; call (scan_queries inputPointer input (outputPointer s) (outputCapacity s)) in
  required ← scan;
  _ ← throw_if (required =? WASM_ERROR)%Z (wasm_error "EWASM_QUERY" "FYLO Wasm index scanner rejected the query");
  s ← get;
  required ← (if (Z.of_nat (outputCapacity s) <? required)%Z then
                _ ← throw_if (Z.of_N MAX_OUTPUT_BYTES <? required)%Z (wasm_error "EWASM_MEMORY" "FYLO Wasm scan output exceeds 67108864 bytes");
                _ ← ensureOutput (Z.to_nat required);
                scan
              else mret required);
  s ← get;
  _ ← throw_if ((required =? WASM_ERROR)%Z || (Z.of_nat (outputCapacity s) <? required)%Z)
        (wasm_error "EWASM_MEMORY" "FYLO Wasm index scan failed after resizing its output buffer");
  let output := bytes_at (Z.to_nat (outputPointer s)) (Z.to_nat required) (memory (instance s)) in
  mret (filter (fun line => line <> []) (split_on newline (decode output))).

Definition scanQueries (queries : list ScanQuery) : M scanner (list jstr) :=
  let input := query_bytes queries in
  _ ← throw_if (MAX_QUERY_BYTES <? size input)%N (wasm_error "EWASM_QUERY" "FYLO Wasm query exceeds 1048576 bytes");
  inputPointer ← allocateRegion (length input) (js "query");
  _ ← try_catch (call (copy_in inputPointer input))
        (fun _ => _ ← call (deallocate inputPointer (length input));
                  throw (wasm_error "EWASM_MEMORY" "Unable to copy the FYLO query into Wasm memory"));
  s ← get;
  _ ← ensureOutput (Nat.max (outputCapacity s) INITIAL_OUTPUT_CAPACITY);
  finally (scan_written inputPointer (length input)) (call (deallocate inputPointer (length input))).

Definition close : M scanner () :=
  s ← get;
  _ ← when (negb (outputPointer s =? 0)%Z) (call (deallocate (outputPointer s) (outputCapacity s)));
  modify (set_output 0 0).

(** [new WasmIndexScanner(instance)], whose exports are these. *)
Definition WasmIndexScanner (g : guest) : scanner := mkScanner g 0 0.

(** ** The memory, block by block *)

Lemma usize_of_nat p : (Z.of_nat p < 4294967296)%Z -> usize (Z.of_nat p) = p.
Proof. intros Hp. unfold usize. rewrite Z.mod_small by lia. lia. Qed.

(** *** What a scanner holds *)

(** The scanner's output block, and the blocks of calls under way. *)
Definition output_block (s : scanner) : list (nat * nat) :=
  if (outputPointer s =? 0)%Z then [] else [(Z.to_nat (outputPointer s), outputCapacity s)].

Record holds (l : list (nat * nat)) (s : scanner) : Prop := {
  holds_sound : sound (heap (instance s));
  holds_live : live (fst (heap (instance s))) ≡ₚ l ++ output_block s;
  holds_output : outputPointer s = 0%Z /\ outputCapacity s = 0 \/ (0 < outputPointer s < 2147483648)%Z /\ 0 < outputCapacity s /\ (N.of_nat (outputCapacity s) <= MAX_OUTPUT_BYTES)%N;
  holds_low : Forall (fun b => (Z.of_nat (fst b) < 2147483648)%Z) l
}.

(** What was in those blocks is still there. *)
Definition kept (l : list (nat * nat)) (s s' : scanner) : Prop :=
  SNAPSHOT (instance s') = SNAPSHOT (instance s) /\
  forall q m, (q, m) ∈ l -> bytes_at q m (memory (instance s')) = bytes_at q m (memory (instance s)).

Lemma kept_trans l s1 s2 s3 : kept l s1 s2 -> kept l s2 s3 -> kept l s1 s3.
Proof. intros [Hs Hk] [Hs' Hk']. split; [congruence|]. intros q m Hin. rewrite Hk' by done. by apply Hk. Qed.

Lemma kept_sub l l' s s' : l ⊆ l' -> kept l' s s' -> kept l s s'.
Proof. intros Hl [Hs Hk]. split; [done|]. intros q m Hin. by apply Hk, Hl. Qed.

(** *** Room in the allocator

    A heap after blocks were freed and written. *)
Inductive later : A * list N -> A * list N -> Prop :=
| later_refl h : later h h
| later_free h h' p n : later h h' -> (p, n) ∈ live (fst h') -> later h (dealloc p n h')
| later_write h a m p n b : later h (a, m) -> (p, n) ∈ live a -> length b <= n -> later h (a, splice p b m).

(** The allocator can give [k] more blocks of up to [B] bytes each, below two gigabytes, whatever
    is freed and written in between. *)
Fixpoint room (k B : nat) (h : A * list N) : Prop :=
  match k with
  | 0 => True
  | S k => forall n h', later h h' -> 0 < n <= B ->
             exists p h'', malloc n h' = Some (p, h'') /\ (Z.of_nat p < 2147483648)%Z /\ room k B h''
  end.

Lemma later_trans h1 h2 h3 : later h1 h2 -> later h2 h3 -> later h1 h3.
Proof. intros H1 H2. induction H2; [done|apply later_free; auto|eapply later_write; eauto]. Qed.
Lemma room_later k B h h' : room k B h -> later h h' -> room k B h'.
Proof. destruct k; [done|]. intros Hr Hl n h2 Hl2. apply Hr. by eapply later_trans. Qed.
Lemma room_less k B h : room (S k) B h -> room k B h.
Proof.
  revert h. induction k as [|k IH]; intros h Hr; [done|]. intros n h' Hl Hn.
  destruct (Hr n h' Hl Hn) as (p & h2 & Hm & Hp & Hr2). exists p, h2. split_and!; [done|done|by apply IH].
Qed.
(** What is left of the room after [k] allocations at most. *)
Definition spends (k B : nat) (h h' : A * list N) : Prop := forall j, room (k + j) B h -> room j B h'.
Lemma spends_trans k1 k2 B h1 h2 h3 : spends k1 B h1 h2 -> spends k2 B h2 h3 -> spends (k1 + k2) B h1 h3.
Proof. intros H1 H2 j Hr. apply H2, H1. by rewrite Nat.add_assoc. Qed.
Lemma spends_later B h h' : later h h' -> spends 0 B h h'.
Proof. intros Hl j Hr. by eapply room_later. Qed.
Lemma spends_more k B h h' : spends k B h h' -> spends (S k) B h h'.
Proof. intros Hs j Hr. by apply Hs, room_less. Qed.
Lemma room_malloc k B n h : room (S k) B h -> 0 < n <= B -> exists p h', malloc n h = Some (p, h') /\ (Z.of_nat p < 2147483648)%Z /\ room k B h'.
Proof. intros Hr. apply (Hr n h (later_refl h)). Qed.

Lemma holds_in l s p n : holds l s -> (p, n) ∈ l -> (p, n) ∈ live (fst (heap (instance s))).
Proof. intros [_ -> _ _] Hin. apply elem_of_app. by left. Qed.

Lemma holds_inside l s p n : holds l s -> (p, n) ∈ l -> 0 < p /\ 0 < n /\ p + n <= length (memory (instance s)) /\ (Z.of_nat p < 2147483648)%Z.
Proof.
  intros Hh Hin. destruct (live_inside _ p n (holds_sound _ _ Hh) (holds_in _ _ _ _ Hh Hin)) as (? & ? & ?).
  pose proof (holds_low _ _ Hh) as Hl. rewrite Forall_forall in Hl. specialize (Hl _ Hin). done.
Qed.

(** Writing [b] in a block changes no other. *)
Lemma splice_kept a m p n b l : sound (a, m) -> live a ≡ₚ (p, n) :: l -> length b <= n ->
  sound (a, splice p b m) /\ bytes_at p (length b) (splice p b m) = b /\
  forall q k, (q, k) ∈ l -> bytes_at q k (splice p b m) = bytes_at q k m.
Proof.
  intros Hs Hl Hb. assert ((p, n) ∈ live a) as Hin by (rewrite Hl; by left).
  destruct (live_inside (a, m) p n Hs Hin) as (_ & _ & Hle). cbn [snd] in Hle.
  split_and!; [by apply (write_sound a m p n)|apply splice_here; lia|].
  intros q k Hq. apply elem_of_Permutation in Hq as [l' Hl']. rewrite Hl' in Hl.
  apply splice_apart; [lia|]. destruct (live_apart (a, m) p n q k l' Hs Hl); lia.
Qed.

(** *** Each call *)

Lemma allocateRegion_spec n purpose l s : 0 < n -> holds l s ->
  (exists p s', allocateRegion n purpose s = (Ok (Z.of_nat p), s') /\ holds ((p, n) :: l) s' /\ output_block s' = output_block s /\
     outputCapacity s' = outputCapacity s /\ kept (l ++ output_block s) s s' /\
     forall B, n <= B -> spends 1 B (heap (instance s)) (heap (instance s'))) \/
  (exists s', allocateRegion n purpose s = (Throw (no_memory purpose), s') /\ forall B, n <= B -> ~ room 1 B (heap (instance s))).
Proof.
  intros Hn [Hs Hl Ho Hlow]. unfold allocateRegion, try_catch, call, allocate. rewrite (proj2 (Nat.eqb_neq n 0)) by lia.
  unfold mbind, M_bind, get, modify, throw, throw_if, mret, M_ret. cbn [instance outputPointer outputCapacity heap SNAPSHOT].
  destruct (malloc n (heap (instance s))) as [[p h]|] eqn:Em.
  2: { right. eexists. split; [reflexivity|]. intros B HB Hr. destruct (room_malloc 0 B n _ Hr) as (p & h & Hm & _); [lia|congruence]. }
  destruct (malloc_sound n _ p h Hs Hn Em) as (Hs' & Hl' & Hlen & Hk).
  assert ((p, n) ∈ live (fst h)) as Hin by (rewrite Hl'; by left).
  destruct (live_inside h p n Hs' Hin) as (Hp & _ & Hle). pose proof (four_gigabytes h Hs') as Hfour.
  unfold i32, memory. cbn [instance heap]. destruct (Z.ltb_spec (Z.of_nat p) 2147483648) as [Hlt|Hge].
  - rewrite (proj2 (Z.ltb_ge (Z.of_nat p) 0)) by lia. cbn [orb]. rewrite Nat2Z.id, (proj2 (Nat.ltb_ge _ _) Hle).
    left. eexists p, _. split; [reflexivity|]. split_and!; [|done|done| |].
    + split; cbn [instance outputPointer outputCapacity heap]; [done| |done|by constructor].
      rewrite Hl', Hl. done.
    + split; [done|]. intros q m Hq. apply Hk. by rewrite Hl.
    + intros B HB j Hr. destruct (room_malloc j B n _ Hr) as (p' & h' & Hm & _ & Hr'); [lia|]. rewrite Em in Hm. by injection Hm as <- <-.
  - rewrite (proj2 (Z.ltb_lt (Z.of_nat p - 4294967296) 0)) by lia. cbn [orb]. right. eexists. split; [reflexivity|].
    intros B HB Hr. destruct (room_malloc 0 B n _ Hr) as (p' & h' & Hm & Hlow' & _); [lia|]. rewrite Em in Hm. injection Hm as <- <-. lia.
Qed.

Lemma copy_in_spec p b l s : holds ((p, length b) :: l) s ->
  exists s', call (copy_in (Z.of_nat p) b) s = (Ok (), s') /\ holds ((p, length b) :: l) s' /\ output_block s' = output_block s /\
    outputCapacity s' = outputCapacity s /\ bytes_at p (length b) (memory (instance s')) = b /\ kept (l ++ output_block s) s s' /\
    later (heap (instance s)) (heap (instance s')).
Proof.
  intros Hh. destruct (holds_inside _ s p (length b) Hh ltac:(by left)) as (Hp & Hn & Hle & Hlt).
  destruct s as [[[a m] snap] op oc]. destruct Hh as [Hs Hl Ho Hlow]. unfold memory in *. cbn [instance heap fst snd outputPointer outputCapacity] in *.
  destruct (splice_kept a m p (length b) b (l ++ output_block (mkScanner (mkGuest (a, m) snap) op oc)) Hs Hl ltac:(done)) as (Hs' & Hb & Hk).
  eexists. split.
  { unfold call, copy_in, mbind, M_bind, get, modify, memory. cbn [instance heap fst snd].
    rewrite (proj2 (Z.ltb_ge (Z.of_nat p) 0)) by lia. rewrite Nat2Z.id, (proj2 (Nat.ltb_ge _ _) Hle). reflexivity. }
  cbn [instance heap SNAPSHOT fst snd outputPointer outputCapacity]. split_and!; [by split|done|done|exact Hb|split; [done|exact Hk]|].
  apply (later_write _ a m p (length b) b); [constructor| |done]. rewrite Hl. by left.
Qed.

Lemma deallocate_spec p n l s : holds ((p, n) :: l) s ->
  exists s', call (deallocate (Z.of_nat p) n) s = (Ok (), s') /\ holds l s' /\ output_block s' = output_block s /\
    outputCapacity s' = outputCapacity s /\ kept (l ++ output_block s) s s'.
Proof.
  intros Hh. destruct (holds_inside _ s p n Hh ltac:(by left)) as (Hp & Hn & _ & Hlt). destruct Hh as [Hs Hl Ho Hlow].
  destruct (dealloc_sound p n _ _ Hs Hl) as (Hs' & Hl' & Hlen & Hk). eexists. split.
  { unfold call, deallocate, modify. rewrite usize_of_nat by lia. rewrite !(proj2 (Nat.eqb_neq _ 0)) by lia. reflexivity. }
  cbn [instance outputPointer outputCapacity heap]. split_and!; [split; [done..|by apply Forall_inv_tail in Hlow]|done|done|split; [done|exact Hk]].
Qed.

(** Freeing the output block, as [ensureOutput] and [close] do. *)
Lemma free_output l s : holds l s -> outputPointer s <> 0%Z ->
  exists g, call (deallocate (outputPointer s) (outputCapacity s)) s = (Ok (), mkScanner g (outputPointer s) (outputCapacity s)) /\
    sound (heap g) /\ live (fst (heap g)) ≡ₚ l /\ SNAPSHOT g = SNAPSHOT (instance s) /\
    (forall q m, (q, m) ∈ l -> bytes_at q m (memory g) = bytes_at q m (memory (instance s))) /\ later (heap (instance s)) (heap g).
Proof.
  intros [Hs Hl Ho Hlow] Hne. destruct Ho as [[Ho _]|[Ho Hc]]; [done|].
  unfold output_block in Hl. rewrite (proj2 (Z.eqb_neq _ 0) Hne) in Hl. rewrite Permutation_app_comm in Hl. cbn [app] in Hl.
  destruct (dealloc_sound _ _ _ _ Hs Hl) as (Hs' & Hl' & Hlen & Hk). eexists. split.
  { unfold call, deallocate, modify. replace (usize (outputPointer s)) with (Z.to_nat (outputPointer s)).
    2: { rewrite <- (Z2Nat.id (outputPointer s)) at 2 by lia. rewrite usize_of_nat; lia. }
    rewrite !(proj2 (Nat.eqb_neq _ 0)) by lia. reflexivity. }
  split_and!; [done..|]. cbn [heap]. constructor; [constructor|]. rewrite Hl. by left.
Qed.

Lemma ensureOutput_spec capacity l s : 0 < capacity -> holds l s ->
  (exists s', ensureOutput capacity s = (Ok (), s') /\ holds l s' /\ kept l s s' /\ capacity <= outputCapacity s' /\ outputPointer s' <> 0%Z /\
     forall B, capacity <= B -> spends 1 B (heap (instance s)) (heap (instance s'))) \/
  (exists e s', ensureOutput capacity s = (Throw e, s') /\ is_wasm_error e = true /\
     ((forall B, capacity <= B -> ~ room 1 B (heap (instance s))) \/ (MAX_OUTPUT_BYTES < N.of_nat capacity)%N)).
Proof.
  intros Hn Hh. unfold ensureOutput. run_pure. destruct (Nat.leb_spec capacity (outputCapacity s)) as [Hle|Hgt].
  { left. exists s. split_and!; [done|done|by split|done| |]; [destruct (holds_output _ _ Hh) as [[_ ?]|[? _]]; lia|].
    intros B _. apply spends_more, spends_later. constructor. }
  destruct (N.ltb_spec MAX_OUTPUT_BYTES (N.of_nat capacity)) as [Hbig|Hmax].
  { right. eexists _, s. split; [reflexivity|]. split; [reflexivity|by right]. }
  change (throw_if false ?e) with (mret () : M scanner ()). run_pure.
  destruct (allocateRegion_spec capacity (js "output") l s Hn Hh) as [(p & s1 & Hr & Hh1 & Eo & Ec & Hk1 & Hsp1)|(s1 & Hr & He)].
  2: { right. eexists _, s1. split; [by apply M_bind_throw|]. split; [|by left]. vm_compute. reflexivity. }
  run Hr. left. pose proof (holds_inside _ s1 p capacity Hh1 ltac:(by left)) as (Hp & _ & _ & Hlt).
  assert (outputPointer s1 = outputPointer s) as Ep.
  { revert Hr. unfold allocateRegion, try_catch, call, mbind, M_bind, get, throw_if. destruct (allocate _ _) as [[z|e] g]; cbn [instance].
    - destruct (_ || _); cbn; [destruct (is_wasm_error _); done|]. by intros [= _ <-].
    - by destruct (is_wasm_error _). }
  assert (forall g, sound (heap g) -> live (fst (heap g)) ≡ₚ (p, capacity) :: l -> holds l (mkScanner g (Z.of_nat p) capacity)) as Hnew.
  { intros g Hs Hl. split; cbn [instance outputPointer outputCapacity]; [done| |right; lia|by apply holds_low in Hh1; apply Forall_inv_tail in Hh1].
    unfold output_block. cbn [outputPointer outputCapacity]. rewrite (proj2 (Z.eqb_neq _ 0)) by lia. rewrite Nat2Z.id, Hl. apply Permutation_cons_append. }
  destruct (Z.eqb_spec (outputPointer s) 0) as [E0|Hne]; cbn [negb when].
  - run_pure. eexists. split; [reflexivity|]. unfold set_output. split_and!; [|split; [apply Hk1|]|done|cbn; lia|exact Hsp1].
    + apply Hnew; [apply Hh1|]. rewrite (holds_live _ _ Hh1). unfold output_block. rewrite Ep, E0. cbn. by rewrite app_nil_r.
    + intros q m Hq. apply Hk1. apply elem_of_app. by left.
  - destruct (free_output ((p, capacity) :: l) s1 Hh1 ltac:(congruence)) as (g & Hf & Hs & Hl & Hsn & Hk2 & Hla).
    rewrite Ep, Ec in Hf. run Hf. eexists. split; [reflexivity|]. unfold set_output. cbn [instance].
    split_and!; [by apply Hnew|split; cbn [instance]; [rewrite Hsn; apply Hk1|]|done|cbn; lia|].
    + intros q m Hq. rewrite Hk2 by (by right). apply Hk1. apply elem_of_app. by left.
    + intros B HB. apply (spends_trans 1 0 B _ _ _ (Hsp1 B HB)). by apply spends_later.
Qed.

(** *** A scan *)

(** What the module answers to the input it reads: the encoded identifiers, or an error. *)
Definition module_answer (snapshot : option (list N)) (input : list N) : option (list N) :=
  match parse_queries input default_limits, snapshot with
  | Good queries, Some bytes =>
      match scan_encoded bytes queries default_limits with Good encoded => Some encoded | Err _ => None end
  | _, _ => None
  end.

Lemma answer_size snapshot input e : module_answer snapshot input = Some e -> (size e <= MAX_OUTPUT_BYTES)%N.
Proof.
  unfold module_answer. destruct (parse_queries _ _), snapshot; try done. destruct (scan_encoded _ _ _) eqn:E; [|done]. intros [= <-].
  exact (scan_encoded_size _ _ _ _ E).
Qed.

Lemma scan_queries_spec p n l s : holds ((p, n) :: l) s -> outputPointer s <> 0%Z ->
  let answer := module_answer (SNAPSHOT (instance s)) (bytes_at p n (memory (instance s))) in
  exists s', call (scan_queries (Z.of_nat p) n (outputPointer s) (outputCapacity s)) s =
      (Ok (match answer with Some e => Z.of_nat (length e) | None => WASM_ERROR end), s') /\
    holds ((p, n) :: l) s' /\ outputPointer s' = outputPointer s /\ outputCapacity s' = outputCapacity s /\ kept ((p, n) :: l) s s' /\
    later (heap (instance s)) (heap (instance s')) /\
    forall e, answer = Some e -> length e <= outputCapacity s ->
      bytes_at (Z.to_nat (outputPointer s')) (length e) (memory (instance s')) = e.
Proof.
  intros Hh Hne answer. destruct (holds_inside _ s p n Hh ltac:(by left)) as (Hp & Hn & Hle & Hlt).
  destruct s as [[[a m] snap] op oc]. unfold memory in *. cbn [instance heap fst snd outputPointer outputCapacity SNAPSHOT] in *.
  unfold call, scan_queries, mbind, M_bind, get. unfold memory. cbn [instance heap fst snd outputPointer outputCapacity SNAPSHOT].
  rewrite usize_of_nat by lia. rewrite (proj2 (Nat.eqb_neq p 0)) by lia. unfold answer, module_answer.
  destruct (parse_queries (bytes_at p n m) default_limits) as [queries|e].
  2: { eexists. split; [reflexivity|]. split_and!; [done|done|done|by split|constructor|done]. }
  destruct snap as [bytes|].
  2: { eexists. split; [reflexivity|]. split_and!; [done|done|done|by split|constructor|done]. }
  destruct (scan_encoded bytes queries default_limits) as [e|e] eqn:Ee.
  2: { eexists. split; [reflexivity|]. split_and!; [done|done|done|by split|constructor|done]. }
  assert (size e <= MAX_OUTPUT_BYTES)%N as Hsz by (exact (scan_encoded_size _ _ _ _ Ee)).
  rewrite (proj2 (N.ltb_ge 2147483647 (size e))) by (unfold MAX_OUTPUT_BYTES in Hsz; lia).
  pose proof Hh as [Hs Hl Ho Hlow]. cbn [instance heap fst snd outputPointer outputCapacity] in *.
  destruct Ho as [[? _]|[Hop Hoc]]; [done|].
  assert (usize op = Z.to_nat op) as Eu by (rewrite <- (Z2Nat.id op) at 1 by lia; apply usize_of_nat; lia).
  rewrite Eu, (proj2 (Nat.eqb_neq (Z.to_nat op) 0)), andb_false_r, orb_false_r by lia.
  destruct (Nat.ltb_spec oc (length e)) as [Hbig|Hfit].
  { eexists. split; [reflexivity|]. split_and!; [done|done|done|by split|constructor|]. intros ? [= <-]. lia. }
  destruct (Nat.ltb_spec 0 (length e)) as [Hpos|Hzero]; cbn [when].
  2: { eexists. split; [reflexivity|]. split_and!; [done|done|done|by split|constructor|]. intros ? [= <-] _. destruct e; [|cbn in Hzero; lia]. unfold bytes_at, subarray. cbn [length]. by rewrite Nat.add_0_r, Nat.sub_diag. }
  unfold output_block in Hl. cbn [outputPointer outputCapacity] in Hl. rewrite (proj2 (Z.eqb_neq op 0) Hne) in Hl.
  rewrite Permutation_app_comm in Hl. cbn [app] in Hl.
  destruct (splice_kept a m (Z.to_nat op) oc e ((p, n) :: l) Hs Hl Hfit) as (Hs' & Hb & Hk).
  eexists. split; [reflexivity|]. cbn [instance heap fst snd outputPointer outputCapacity SNAPSHOT memory].
  split_and!; [|done|done|by split| |by intros ? [= <-]].
  2: { apply (later_write _ a m (Z.to_nat op) oc e); [constructor| |done]. rewrite Hl. by left. }
  split; cbn [instance heap fst snd outputPointer outputCapacity]; [done| |by right|done].
  unfold output_block. cbn [outputPointer outputCapacity]. rewrite (proj2 (Z.eqb_neq op 0) Hne), Hl. symmetry. apply (Permutation_app_comm _ [_]).
Qed.

Lemma scan_written_spec p n l s : holds ((p, n) :: l) s -> outputPointer s <> 0%Z ->
  let answer := module_answer (SNAPSHOT (instance s)) (bytes_at p n (memory (instance s))) in
  exists r s', scan_written (Z.of_nat p) n s = (r, s') /\
    match answer with
    | None => (exists e, r = Throw e /\ is_wasm_error e = true) /\ holds ((p, n) :: l) s' /\ kept ((p, n) :: l) s s'
    | Some e => r = Ok (filter (fun line => line <> []) (split_on newline (decode e))) /\ holds ((p, n) :: l) s' /\ kept ((p, n) :: l) s s' \/
                (exists e, r = Throw e /\ is_wasm_error e = true) /\ (forall B, length e <= B -> ~ room 1 B (heap (instance s)))
    end.
Proof.
  intros Hh Hne answer. destruct (scan_queries_spec p n l s Hh Hne) as (s1 & Hr & Hh1 & Ep1 & Ec1 & Hk1 & Hla1 & Hout1).
  fold answer in Hr, Hout1. unfold scan_written.
  assert ((s ← get; call (scan_queries (Z.of_nat p) n (outputPointer s) (outputCapacity s))) s =
          call (scan_queries (Z.of_nat p) n (outputPointer s) (outputCapacity s)) s) as Hg by (by run_pure).
  rewrite Hr in Hg. run Hg. clear Hg Hr.
  destruct answer as [e|] eqn:Ea.
  2: { eexists _, s1. split; [reflexivity|]. split; [by eexists|done]. }
  assert (Z.of_nat (length e) =? WASM_ERROR = false)%Z as Ene by (apply Z.eqb_neq; unfold WASM_ERROR; lia).
  pose proof (answer_size _ _ _ Ea) as Hsz. rewrite Ene. change (throw_if false ?e) with (mret () : M scanner ()). run_pure. rewrite Ec1.
  destruct (Z.ltb_spec (Z.of_nat (outputCapacity s)) (Z.of_nat (length e))) as [Hbig|Hfit].
  - assert (Z.of_N MAX_OUTPUT_BYTES <? Z.of_nat (length e) = false)%Z as Em by (apply Z.ltb_ge; unfold size in Hsz; lia).
    rewrite Em. change (throw_if false ?e) with (mret () : M scanner ()). rewrite Nat2Z.id.
    destruct (ensureOutput_spec (length e) ((p, n) :: l) s1 ltac:(lia) Hh1) as [(s2 & Hr2 & Hh2 & Hk2 & Hcap & Hne2 & _)|(er & s2 & Hr2 & Hw & He)].
    2: { eexists _, s2. split; [apply M_bind_throw; run_pure; by apply M_bind_throw|]. right. split; [by eexists|].
         destruct He as [He|He]; [|unfold size in Hsz; lia]. intros B HB Hr'. apply (He B HB). by eapply room_later. }
    destruct (scan_queries_spec p n l s2 Hh2 Hne2) as (s3 & Hr3 & Hh3 & Ep3 & Ec3 & Hk3 & _ & Hout3).
    assert (module_answer (SNAPSHOT (instance s2)) (bytes_at p n (memory (instance s2))) = Some e) as Ea2.
    { pose proof (kept_trans _ _ _ _ Hk1 Hk2) as [-> Hb]. rewrite (Hb p n) by (by left). exact Ea. }
    rewrite Ea2 in Hr3, Hout3.
    assert ((_ ← (mret () : M scanner ()); _ ← ensureOutput (length e); s ← get; call (scan_queries (Z.of_nat p) n (outputPointer s) (outputCapacity s))) s1 =
            (Ok (Z.of_nat (length e)), s3)) as Hg by (run_pure; run Hr2; by run_pure).
    run Hg. run_pure. rewrite Ene, Ec3. rewrite (proj2 (Z.ltb_ge _ _)) by lia. cbn [orb]. change (throw_if false ?e) with (mret () : M scanner ()). run_pure.
    eexists _, s3. split; [reflexivity|]. left. split; [by rewrite Nat2Z.id, Hout3 by done|]. split; [done|]. eapply kept_trans; [exact Hk1|]. by eapply kept_trans.
  - run_pure. rewrite Ene, Ec1. rewrite (proj2 (Z.ltb_ge _ _)) by lia. cbn [orb]. change (throw_if false ?e) with (mret () : M scanner ()). run_pure.
    eexists _, s1. split; [reflexivity|]. left. split; [by rewrite Nat2Z.id, Hout1 by (done || lia)|done].
Qed.

Lemma query_bytes_nonempty queries : 0 < length (query_bytes queries).
Proof.
  unfold query_bytes. change (Json.text (VArr (map query_value queries))) with
    (91%N :: join_with [44%N] (map Json.text (map query_value queries)) ++ [93%N]).
  rewrite encode_cons_ascii by done. cbn [length]. lia.
Qed.

(** The largest block a scan with the answer [e] asks for. *)
Definition largest (input e : list N) (s : scanner) : nat := Nat.max (length input) (Nat.max (Nat.max (outputCapacity s) INITIAL_OUTPUT_CAPACITY) (length e)).
(** There is no room for the three blocks of a scan. *)
Definition crowded (input e : list N) (s : scanner) : Prop := forall B, largest input e s <= B -> ~ room 3 B (heap (instance s)).

(** What one call of [scanQueries] does, in a scanner with no call under way. *)
Lemma scanQueries_spec queries s : holds [] s -> exists r s', scanQueries queries s = (r, s') /\
  match module_answer (SNAPSHOT (instance s)) (query_bytes queries) with
  | Some e => r = Ok (filter (fun line => line <> []) (split_on newline (decode e))) /\ holds [] s' /\ SNAPSHOT (instance s') = SNAPSHOT (instance s) \/
              (exists e, r = Throw e /\ is_wasm_error e = true) /\ (crowded (query_bytes queries) e s \/ (MAX_QUERY_BYTES < size (query_bytes queries))%N)
  | None => exists e, r = Throw e /\ is_wasm_error e = true
  end.
Proof.
  intros Hh. unfold scanQueries. set (input := query_bytes queries). pose proof (query_bytes_nonempty queries) as Hn. fold input in Hn.
  assert (forall r s', (exists e, r = Throw e /\ is_wasm_error e = true) -> (forall e, crowded input e s) \/ (MAX_QUERY_BYTES < size input)%N ->
    match module_answer (SNAPSHOT (instance s)) input with
    | Some e => r = Ok (filter (fun line => line <> []) (split_on newline (decode e))) /\ holds [] s' /\ SNAPSHOT (instance s') = SNAPSHOT (instance s) \/
                (exists e, r = Throw e /\ is_wasm_error e = true) /\ (crowded input e s \/ (MAX_QUERY_BYTES < size input)%N)
    | None => exists e, r = Throw e /\ is_wasm_error e = true
    end) as Hfail by (intros r s' Hr Hw; destruct (module_answer _ _); [right; split; [done|destruct Hw; auto]|done]).
  destruct (N.ltb_spec MAX_QUERY_BYTES (size input)) as [Hbig|_].
  { eexists _, s. split; [reflexivity|]. apply Hfail; [by eexists|by right]. }
  change (throw_if false ?e) with (mret () : M scanner ()). run_pure.
  destruct (allocateRegion_spec (length input) (js "query") [] s Hn Hh) as [(p & s1 & Hr1 & Hh1 & Eo1 & Ec1 & Hk1 & Hsp1)|(s1 & Hr1 & He)].
  2: { eexists _, s1. split; [by apply M_bind_throw|].
       apply Hfail; [|left; intros e B HB Hr; apply (He B); [unfold largest in HB; lia|by do 2 apply room_less]]. eexists. split; [reflexivity|]. vm_compute. reflexivity. }
  run Hr1. destruct (copy_in_spec p input [] s1 Hh1) as (s2 & Hr2 & Hh2 & Eo2 & Ec2 & Hb2 & Hk2 & Hla2).
  assert (forall h, try_catch (call (copy_in (Z.of_nat p) input)) h s1 = (Ok (), s2)) as Hc by (intros h; unfold try_catch; by rewrite Hr2).
  run (Hc _). run_pure.
  destruct (ensureOutput_spec (Nat.max (outputCapacity s2) INITIAL_OUTPUT_CAPACITY) [(p, length input)] s2) as
    [(s3 & Hr3 & Hh3 & Hk3 & _ & Hne & Hsp3)|(e & s3 & Hr3 & Hw & He)]; [unfold INITIAL_OUTPUT_CAPACITY; lia|done| |].
  2: { eexists _, s3. split; [by apply M_bind_throw|]. apply Hfail; [by eexists|]. destruct He as [He|He]; [left; intros e' B HB Hr|exfalso].
       { unfold largest in HB. rewrite Ec2, Ec1 in He. apply (He B ltac:(lia)). apply room_less, (room_later 2 B (heap (instance s1))); [|done].
         by apply (Hsp1 B ltac:(lia) 2). }
       destruct (holds_output _ _ Hh2) as [[_ E0]|(_ & _ & Hmax)]; unfold INITIAL_OUTPUT_CAPACITY, MAX_OUTPUT_BYTES in *; lia. }
  run Hr3. destruct (scan_written_spec p (length input) [] s3 Hh3 Hne) as (r & s4 & Hr4 & Hans).
  assert (bytes_at p (length input) (memory (instance s3)) = input) as Eb3 by (rewrite (proj2 Hk3) by (by left); exact Hb2).
  assert (SNAPSHOT (instance s3) = SNAPSHOT (instance s)) as Es3.
  { rewrite (proj1 Hk3), (proj1 Hk2). apply Hk1. }
  rewrite Eb3, Es3 in Hans. unfold finally. rewrite Hr4.
  destruct (module_answer (SNAPSHOT (instance s)) input) as [e|].
  - destruct Hans as [(-> & Hh4 & Hk4)|[Hr He]].
    + destruct (deallocate_spec p (length input) [] s4 Hh4) as (s5 & -> & Hh5 & _ & _ & Hk5). eexists _, s5. split; [reflexivity|].
      left. split_and!; [done|done|]. rewrite (proj1 Hk5), (proj1 Hk4). exact Es3.
    + destruct (call (deallocate _ _) s4) as [[[]|e'] s5] eqn:Ed.
      * eexists _, s5. split; [reflexivity|]. right. split; [done|]. left. intros B HB Hroom. unfold largest in HB. apply (He B ltac:(lia)).
        apply (Hsp3 B ltac:(lia) 1), (room_later 2 B (heap (instance s1))); [|done]. by apply (Hsp1 B ltac:(lia) 2).
      * exfalso. revert Ed. unfold call, deallocate. by destruct (_ || _).
  - destruct Hans as (Hr & Hh4 & Hk4). destruct (deallocate_spec p (length input) [] s4 Hh4) as (s5 & -> & _). by eexists _, s5.
Qed.

Lemma from_bytes_is limits bytes b : from_bytes bytes limits = Good b -> b = bytes.
Proof.
  unfold from_bytes, mbind, result_bind. destruct (_ <? _)%N; [done|]. destruct (check_keys _ _ _); [|done]. by intros [= <-].
Qed.

(** What the module makes of a snapshot in its memory. *)
Lemma load_snapshot_spec p n l s : 0 < p -> (Z.of_nat p < 2147483648)%Z -> holds l s ->
  let bytes := bytes_at p n (memory (instance s)) in
  match from_bytes bytes default_limits with
  | Good _ => exists s', call (load_snapshot (Z.of_nat p) n) s = (Ok 0%Z, s') /\ holds l s' /\ SNAPSHOT (instance s') = Some bytes
  | Err _ => call (load_snapshot (Z.of_nat p) n) s = (Ok WASM_ERROR, s)
  end.
Proof.
  intros Hp Hlt Hh bytes. destruct s as [g op oc]. unfold call, load_snapshot, mbind, M_bind, get, modify. cbn [instance outputPointer outputCapacity] in *.
  rewrite usize_of_nat, (proj2 (Nat.eqb_neq p 0)) by lia. cbn [andb]. fold bytes.
  destruct (from_bytes bytes default_limits) as [b|e] eqn:Eb; [|done]. apply from_bytes_is in Eb as ->.
  eexists. split; [reflexivity|]. split; [|done]. destruct Hh. by split.
Qed.

(** What one call of [loadSnapshot] does. *)
Lemma loadSnapshot_spec bytes s : holds [] s -> exists r s', loadSnapshot bytes s = (r, s') /\
  match from_bytes bytes default_limits with
  | Good _ => r = Ok () /\ holds [] s' /\ SNAPSHOT (instance s') = Some bytes \/
              (exists e, r = Throw e /\ is_wasm_error e = true) /\ forall B, length bytes <= B -> ~ room 1 B (heap (instance s))
  | Err _ => exists e, r = Throw e /\ is_wasm_error e = true
  end.
Proof.
  intros Hh. unfold loadSnapshot. destruct (N.ltb_spec MAX_SNAPSHOT_BYTES (size bytes)) as [Hbig|_].
  { eexists _, s. split; [reflexivity|]. unfold from_bytes. change (max_snapshot_bytes default_limits) with MAX_SNAPSHOT_BYTES. rewrite (proj2 (N.ltb_lt _ _) Hbig). by eexists. }
  change (throw_if false ?e) with (mret () : M scanner ()). run_pure.
  assert ((exists p s1 l, allocateRegion (length bytes) (js "snapshot") s = (Ok (Z.of_nat p), s1) /\ 0 < p /\ (Z.of_nat p < 2147483648)%Z /\ holds l s1 /\
            (forall s2, holds l s2 -> exists s3, call (deallocate (Z.of_nat p) (length bytes)) s2 = (Ok (), s3) /\ holds [] s3 /\ SNAPSHOT (instance s3) = SNAPSHOT (instance s2)) /\
            exists s2, (forall h, (when (0 <? length bytes) (try_catch (call (copy_in (Z.of_nat p) bytes)) h)) s1 = (Ok (), s2)) /\ holds l s2 /\
              bytes_at p (length bytes) (memory (instance s2)) = bytes) \/
          (exists e s1, allocateRegion (length bytes) (js "snapshot") s = (Throw e, s1) /\ is_wasm_error e = true /\ forall B, length bytes <= B -> ~ room 1 B (heap (instance s))))
    as [(p & s1 & l & Hr1 & Hp & Hlt & Hh1 & Hfree & s2 & Hr2 & Hh2 & Hb)|(e & s1 & Hr1 & Hw & He)].
  { destruct (decide (length bytes = 0)) as [E0|Hn].
    - left. exists 1, s, []. pose proof (one_byte _ (holds_sound _ _ Hh)) as H1. destruct bytes; [|done]. split_and!; [|lia|lia|done| |].
      + unfold allocateRegion, try_catch, mbind, M_bind, call, allocate, get, throw_if. unfold mret, M_ret, memory. cbn [length Nat.eqb instance].
        rewrite (proj2 (Nat.ltb_ge (length (snd (heap (instance s)))) (Z.to_nat 1 + 0))) by lia. by destruct s.
      + intros s2 Hh2. exists s2. split; [|done]. by destruct s2.
      + exists s. split_and!; [done|done|]. unfold bytes_at, subarray. cbn [length]. by rewrite Nat.add_0_r, Nat.sub_diag.
    - destruct (allocateRegion_spec (length bytes) (js "snapshot") [] s ltac:(lia) Hh) as [(p & s1 & Hr1 & Hh1 & Eo1 & Ec1 & Hk1 & _)|(s1 & Hr1 & He)].
      + left. exists p, s1, [(p, length bytes)]. destruct (holds_inside _ s1 p (length bytes) Hh1 ltac:(by left)) as (Hp & _ & _ & Hlt).
        split_and!; [done|done|done|done| |].
        * intros s2 Hh2. destruct (deallocate_spec p (length bytes) [] s2 Hh2) as (s3 & Hr3 & Hh3 & _ & _ & Hk3). exists s3. split_and!; [done|done|apply Hk3].
        * destruct (copy_in_spec p bytes [] s1 Hh1) as (s2 & Hr2 & Hh2 & _ & _ & Hb2 & _ & _). exists s2. split_and!; [|done|done].
          intros h. rewrite (proj2 (Nat.ltb_lt 0 _)) by lia. unfold when, try_catch. by rewrite Hr2.
      + right. eexists _, s1. split; [exact Hr1|]. split; [|done]. vm_compute. reflexivity. }
  2: { eexists _, s1. split; [by apply M_bind_throw|]. destruct (from_bytes _ _); [right; eauto|by eexists]. }
  run Hr1. unfold finally. rewrite (M_bind_ok _ _ _ _ _ (Hr2 _)).
  pose proof (load_snapshot_spec p (length bytes) l s2 Hp Hlt Hh2) as Hload. cbn zeta in Hload. rewrite Hb in Hload.
  destruct (from_bytes bytes default_limits) as [b|c].
  - destruct Hload as (s3 & Hr3 & Hh3 & Es3). run Hr3. destruct (Hfree s3 Hh3) as (s4 & Hr4 & Hh4 & Es4).
    change ((0 =? WASM_ERROR)%Z) with false. change (throw_if false ?e) with (mret () : M scanner ()). unfold mret, M_ret. rewrite Hr4.
    eexists _, s4. split; [reflexivity|]. left. split_and!; [done|done|congruence].
  - run Hload. destruct (Hfree s2 Hh2) as (s4 & Hr4 & Hh4 & Es4). change ((WASM_ERROR =? WASM_ERROR)%Z) with true.
    unfold throw_if, throw. rewrite Hr4. eexists _, s4. split; [reflexivity|]. by eexists.
Qed.

(** *** Against the scan in JavaScript *)

(** ASCII queries, as the index makes them. *)
Definition plain (q : ScanQuery) : bool := ascii (prefix q) && match range q with Some (_, bound) => ascii bound | None => true end.

(** The JSON parser reads queries as they were written, and reads plain ones. *)
Context (reads_right : forall queries r, from_slice (query_bytes queries) = Some r -> r = map utf8 queries)
        (reads_plain : forall queries, forallb plain queries = true -> is_Some (from_slice (query_bytes queries))).

Lemma owners_lines full bounds keys out : (forall id, id ∈ out <-> owners full bounds keys id) ->
  filter (fun line => line <> []) (split_on newline (decode (lines_text out))) = out.
Proof.
  intros Hout. assert (Forall (fun id => id <> [] /\ newline ∉ id /\ ascii id = true) out) as Hid.
  { apply Forall_forall. intros id Hin. apply Hout in Hin as (k & _ & _ & Hid & Hk & a & ->).
    apply index_key_facts in Hk as (_ & Hnl & Ha & _). split_and!.
    - intros ->. by vm_compute in Hid.
    - intros Hn. apply Hnl. apply elem_of_app. right. by right.
    - unfold ascii in *. rewrite forallb_app in Ha. cbn [forallb] in Ha. rewrite !andb_true_iff in Ha. tauto. }
  clear Hout. assert (ascii (lines_text out) = true) as Ha.
  { induction Hid as [|id out (_ & _ & Ha) _ IH]; [done|]. change (lines_text (id :: out)) with ((id ++ [newline]) ++ lines_text out).
    by rewrite !ascii_app, Ha, IH. }
  rewrite decode_ascii, <- (app_nil_r (lines_text out)), lines_text_split by (done || (eapply Forall_impl; [exact Hid|]; by intros ? (_ & ? & _))).
  cbn [split_on]. rewrite filter_app. cbn. rewrite app_nil_r. clear Ha. induction Hid as [|id out (Hne & _) _ IH]; [done|].
  by rewrite filter_cons_True, IH by done.
Qed.

(** The answer the module gives to one planned query over a snapshot the index wrote. *)
Lemma module_answer_spec path kind v bounds keys : Forall owned keys -> Sorted jle keys ->
  let query := mkQuery (root_of path kind ++ v) bounds in
  exists out, scanSnapshotWithJavaScript (encode (serializeSnapshot keys)) (root_of path kind ++ v) (root_of path kind) bounds [] = Ok out /\
    (forall id, id ∈ out <-> owners (root_of path kind ++ v) bounds keys id) /\
    (module_answer (Some (encode (serializeSnapshot keys))) (query_bytes [query]) = Some (lines_text out) \/
     module_answer (Some (encode (serializeSnapshot keys))) (query_bytes [query]) = None /\
       (plain query = false \/ (MAX_QUERY_BYTES < size (query_bytes [query]))%N \/ beyond path kind v bounds default_limits out)).
Proof.
  intros Ho Hs query. destruct (scan_encoded_spec path kind v bounds default_limits keys Ho Hs) as (out & Hout & Henc).
  destruct (scan_snapshot path kind v bounds keys Ho Hs) as (out' & Hout' & Hids). rewrite Hout in Hout'. apply Ok_inj in Hout' as <-.
  exists out. split_and!; [done|done|]. unfold module_answer, parse_queries. change (max_input_bytes default_limits) with MAX_QUERY_BYTES.
  destruct (N.ltb_spec MAX_QUERY_BYTES (size (query_bytes [query]))); [right; by auto|].
  destruct (from_slice (query_bytes [query])) as [r|] eqn:Ef.
  2: { right. split; [done|]. left. apply not_true_iff_false. intros Hp. destruct (reads_plain [query]) as [r Hr]; [cbn; by rewrite Hp|]. by rewrite Ef in Hr. }
  apply reads_right in Ef as ->. change (map utf8 [query]) with [utf8 (mkQuery (root_of path kind ++ v) bounds)].
  destruct (validate_spec path kind v bounds default_limits out) as [->|(e & -> & Hb)]; [|right; split; [done|]; by auto].
  cbn [mbind result_bind]. destruct Henc as [->|(e & -> & Hb)]; [by left|right; split; [done|]; by auto].
Qed.

(** One query over a snapshot the index wrote, with every reason to fail. *)
Lemma scan_over_snapshot path kind v bounds keys s :
  Forall owned keys -> Sorted jle keys -> holds [] s -> SNAPSHOT (instance s) = Some (encode (serializeSnapshot keys)) ->
  let query := mkQuery (root_of path kind ++ v) bounds in
  exists out r s', scanSnapshotWithJavaScript (encode (serializeSnapshot keys)) (root_of path kind ++ v) (root_of path kind) bounds [] = Ok out /\
    scanQueries [query] s = (r, s') /\
    (r = Ok out /\ holds [] s' /\ SNAPSHOT (instance s') = SNAPSHOT (instance s) \/
     (exists e, r = Throw e /\ is_wasm_error e = true) /\
     (crowded (query_bytes [query]) (lines_text out) s \/ plain query = false \/ (MAX_QUERY_BYTES < size (query_bytes [query]))%N \/ beyond path kind v bounds default_limits out)).
Proof.
  intros Ho Hs Hh Hsn query. destruct (module_answer_spec path kind v bounds keys Ho Hs) as (out & Hout & Hids & Hans). fold query in Hans.
  destruct (scanQueries_spec [query] s Hh) as (r & s' & Hr & Hspec). rewrite Hsn in Hspec |- *. exists out, r, s'. split_and!; [done|done|].
  destruct Hans as [Hans|[Hans Hwhy]]; rewrite Hans in Hspec.
  - rewrite (owners_lines _ _ _ _ Hids) in Hspec. destruct Hspec as [Hok|[Hr' Hwhy]]; [by left|right]. split; [done|]. tauto.
  - right. split; [done|]. tauto.
Qed.


(** The factory whose instances start from [g], as the prefix index uses it. *)
Definition wasm_factory (ready create : outcome ()) (g : guest) : scanner_factory := {|
  factory_ready := ready;
  factory_create := create;
  PrefixIndex.load_snapshot := fun bytes => fst (loadSnapshot bytes (WasmIndexScanner g));
  PrefixIndex.scan_queries := fun bytes full bounds =>
    fst ((_ ← loadSnapshot bytes; scanQueries [mkQuery full bounds]) (WasmIndexScanner g))
|}.

(** A scanner over a new instance keeps what the prefix index relies on: if it answers, it
    names exactly the documents with a key under the prefix and inside the range. *)
Theorem wasm_scanner_honest ready create g : sound (heap g) -> live (fst (heap g)) = [] -> scanner_honest (wasm_factory ready create g).
Proof.
  intros Hs Hl keys path kind v bounds l Ho Hso Hok. cbn in Hok.
  assert (holds [] (WasmIndexScanner g)) as Hh by (split; cbn; [done|by rewrite Hl|by left|done]).
  destruct (loadSnapshot_spec (encode (serializeSnapshot keys)) _ Hh) as (r & s1 & Hr1 & Hload).
  unfold mbind, M_bind in Hok. rewrite Hr1 in Hok. destruct r as [[]|e]; [|done].
  assert (holds [] s1 /\ SNAPSHOT (instance s1) = Some (encode (serializeSnapshot keys))) as [Hh1 Hsn].
  { destruct (from_bytes _ _); [destruct Hload as [(_ & ? & ?)|[(? & ? & _) _]]|destruct Hload as (? & ? & _)]; done. }
  destruct (scan_over_snapshot path kind v bounds keys s1 Ho Hso Hh1 Hsn) as (out & r & s2 & Hout & Hr2 & Hcase).
  rewrite Hr2 in Hok. cbn in Hok. destruct Hcase as [(Er & _)|[(e & Er & _) _]]; rewrite Er in Hok; [|done].
  apply Ok_inj in Hok as ->. destruct (scan_snapshot path kind v bounds keys Ho Hso) as (out' & Hout' & Hids).
  rewrite Hout in Hout'. apply Ok_inj in Hout' as ->. split; [|exact Hids].
  apply Forall_forall. intros id Hin. apply Hids in Hin. by destruct Hin as (k & _ & _ & ? & _).
Qed.

End Module_.

(** ** A module to run: blocks one after the other, up to a limit *)

Module Bump.

Record allocator := mkAllocator { top : nat; limit : nat; blocks : list (nat * nat) }.

Definition apart (b c : nat * nat) : Prop := fst b + snd b <= fst c \/ fst c + snd c <= fst b.

Fixpoint remove (b : nat * nat) (l : list (nat * nat)) : list (nat * nat) :=
  match l with [] => [] | c :: l => if decide (c = b) then l else c :: remove b l end.

Definition malloc (n : nat) (h : allocator * list N) : option (nat * (allocator * list N)) :=
  let '(a, m) := h in
  if limit a <? top a + n then None
  else Some (top a, (mkAllocator (top a + n) (limit a) ((top a, n) :: blocks a), m ++ replicate (top a + n - length m) 0%N)).

Definition dealloc (p n : nat) (h : allocator * list N) : allocator * list N :=
  let '(a, m) := h in (mkAllocator (top a) (limit a) (remove (p, n) (blocks a)), m).

Record sound (h : allocator * list N) : Prop := {
  sound_top : 0 < top (fst h) <= length (snd h);
  sound_small : (Z.of_nat (length (snd h)) <= 4294967296)%Z /\ (Z.of_nat (limit (fst h)) <= 4294967296)%Z;
  sound_blocks : Forall (fun b => 0 < fst b /\ 0 < snd b /\ fst b + snd b <= top (fst h)) (blocks (fst h));
  sound_apart : ForallOrdPairs apart (blocks (fst h))
}.

Lemma remove_permutation b l : b ∈ l -> l ≡ₚ b :: remove b l.
Proof.
  induction l as [|c l IH]; [by intros ?%elem_of_nil|]. intros Hin. cbn [remove]. destruct (decide (c = b)) as [->|Hne]; [done|].
  apply elem_of_cons in Hin as [?|Hin]; [done|]. rewrite (IH Hin) at 1. apply Permutation_swap.
Qed.

Lemma apart_permutation l l' : l ≡ₚ l' -> ForallOrdPairs apart l -> ForallOrdPairs apart l'.
Proof.
  intros Hp. induction Hp as [|b l l' Hp IH|b c l|l l' l'' _ IH1 _ IH2]; intros Hl; [done| | |by auto].
  - inversion_clear Hl as [|? ? Hb Hr]. constructor; [by rewrite <- Hp|by apply IH].
  - inversion_clear Hl as [|? ? Hb Hr]. inversion_clear Hr as [|? ? Hc Hr']. apply Forall_cons in Hb as [Hbc Hb].
    constructor; [constructor; [|done]|by constructor]. unfold apart in *. tauto.
Qed.

Lemma malloc_ok n h p h' : sound h -> 0 < n -> malloc n h = Some (p, h') ->
  sound h' /\ blocks (fst h') ≡ₚ (p, n) :: blocks (fst h) /\ length (snd h) <= length (snd h') /\
  forall q m, (q, m) ∈ blocks (fst h) -> bytes_at q m (snd h') = bytes_at q m (snd h).
Proof.
  destruct h as [a m]. intros [Ht [Hm Hl] Hb Ha] Hn. unfold malloc. destruct (Nat.ltb_spec (limit a) (top a + n)) as [|Hfit]; [done|].
  intros [= <- <-]. cbn [fst snd] in *. assert (length (m ++ replicate (top a + n - length m) 0%N) = Nat.max (length m) (top a + n)) as El
    by (rewrite length_app, length_replicate; lia).
  split_and!; [split; cbn [fst snd top limit blocks]|done|rewrite El; lia|].
  - rewrite El. lia.
  - rewrite El. lia.
  - constructor; [cbn; lia|]. eapply Forall_impl; [exact Hb|]. intros c. cbn. lia.
  - constructor; [|done]. eapply Forall_impl; [exact Hb|]. intros c Hc. right. cbn in *. lia.
  - intros q k Hin. rewrite Forall_forall in Hb. specialize (Hb _ Hin). cbn in Hb. unfold bytes_at, subarray.
    rewrite drop_app_le by lia. apply take_app_le. rewrite length_drop. lia.
Qed.

Lemma dealloc_ok p n h l : sound h -> blocks (fst h) ≡ₚ (p, n) :: l ->
  sound (dealloc p n h) /\ blocks (fst (dealloc p n h)) ≡ₚ l /\ length (snd (dealloc p n h)) = length (snd h) /\
  forall q m, (q, m) ∈ l -> bytes_at q m (snd (dealloc p n h)) = bytes_at q m (snd h).
Proof.
  destruct h as [a m]. intros [Ht Hm Hb Ha] Hl. cbn [fst snd dealloc blocks] in *.
  assert (remove (p, n) (blocks a) ≡ₚ l) as Hr.
  { apply (Permutation_cons_inv (a := (p, n))). rewrite <- Hl. symmetry. apply remove_permutation. rewrite Hl. by left. }
  split_and!; [split; cbn [fst snd top limit blocks]; try done|done|done|done].
  - rewrite Hr. rewrite Hl in Hb. by apply Forall_inv_tail in Hb.
  - apply (apart_permutation _ _ Hl) in Ha. inversion_clear Ha. by apply (apart_permutation l).
Qed.

#[export] Instance bump : Allocator allocator.
Proof.
  refine {| Scanner.malloc := malloc; Scanner.dealloc := dealloc; live := blocks; Scanner.sound := sound |}.
  - intros [a m] [Ht _ _ _]. cbn in *. lia.
  - by intros [a m] [_ [Hm _] _ _].
  - intros [a m] p n [Ht _ Hb _] Hin. cbn in *. rewrite Forall_forall in Hb. specialize (Hb _ Hin). cbn in Hb. lia.
  - intros [a m] p n q k l [_ _ _ Ha] Hl. apply (apart_permutation _ _ Hl) in Ha. inversion_clear Ha as [|? ? Hb _]. by apply Forall_inv in Hb.
  - apply malloc_ok.
  - apply dealloc_ok.
  - intros a m p n b [Ht Hm Hb Ha] Hin Hle. cbn in *. rewrite Forall_forall in Hb. pose proof (Hb _ Hin) as Hp. cbn in Hp.
    assert (length (splice p b m) = length m) as El by (apply splice_length; lia). split; cbn [fst snd]; rewrite ?El; [exact Ht|exact Hm|by apply Forall_forall|exact Ha].
Defined.

(** An instance whose memory may grow to [limit]. *)
Definition fresh (limit : nat) : guest (A := allocator) := mkGuest (mkAllocator 16 limit [], replicate 16 0%N) None.

(** A parser of ASCII JSON. *)
Definition op_of (name : jstr) : option range_op :=
  if jeqb name (js "$gt") then Some Gt else if jeqb name (js "$gte") then Some Gte
  else if jeqb name (js "$lt") then Some Lt else if jeqb name (js "$lte") then Some Lte else None.
Definition query_of (v : value) : option ScanQuery :=
  match v with
  | VObj [(_, VStr p)] => Some (mkQuery p None)
  | VObj [(_, VStr p); (_, VObj [(_, VStr name); (_, VStr bound)])] => op ← op_of name; Some (mkQuery p (Some (op, bound)))
  | _ => None
  end.
Definition from_json (bytes : list N) : option (list ScanQuery) :=
  if ascii bytes then
    match Json.parse (decode bytes) with
    | Ok (VArr l) => option_map (map utf8) (mapM query_of l)
    | _ => None
    end
  else None.

Lemma encode_ascii_only s : ascii (encode s) = true -> ascii s = true.
Proof.
  induction s as [|c s IH]; [done|]. destruct (decide (c < 128)%N) as [Hc|Hc].
  - rewrite encode_cons_ascii by done. unfold ascii in *. cbn [forallb]. rewrite !andb_true_iff. intros [? ?]. auto.
  - destruct (encode_cons_high c s ltac:(lia)) as (b & rest & -> & Hb). unfold ascii. cbn [forallb]. rewrite andb_true_iff, N.ltb_lt. lia.
Qed.

Lemma escape_ascii_units s : ascii (Json.escape s) = true -> code_units s = true.
Proof.
  assert (forall c, ascii (Json.escape_unit c) = true -> (c < 65536)%N) as Hunit.
  { intros c. unfold Json.escape_unit. repeat (match goal with |- context [(c =? ?k)%N] => destruct (N.eqb_spec c k) as [->|_]; [done|] end).
    destruct (N.ltb_spec c 32); [lia|]. unfold ascii. cbn [forallb]. rewrite andb_true_iff, N.ltb_lt. lia. }
  assert (forall c, is_surrogate c = true -> (c < 65536)%N) as Hsur.
  { intros c. unfold is_surrogate, in_range. rewrite andb_true_iff, !N.leb_le. lia. }
  unfold code_units. induction s as [|c|c d s IH1 IH2] using jstr_ind2; [done| |].
  - cbn [Json.escape forallb]. rewrite andb_true_r, N.ltb_lt. destruct (is_surrogate c) eqn:E; auto.
  - change (Json.escape (c :: d :: s)) with (if is_high c && is_low d then c :: d :: Json.escape s
      else if is_surrogate c then Json.unicode_escape c ++ Json.escape (d :: s) else Json.escape_unit c ++ Json.escape (d :: s)).
    destruct (is_high c && is_low d) eqn:E.
    + unfold ascii. cbn [forallb]. rewrite !andb_true_iff, !N.ltb_lt. intros (Hc & Hd & Hs). split_and!; [lia|lia|by apply IH1].
    + change (forallb (fun c => (c <? 65536)%N) (c :: d :: s)) with ((c <? 65536)%N && forallb (fun c => (c <? 65536)%N) (d :: s)).
      destruct (is_surrogate c) eqn:Es; rewrite ascii_app, !andb_true_iff, N.ltb_lt; intros [Hc Hs]; (split; [auto|by apply IH2]).
Qed.

Lemma ascii_joined sep l : ascii (join_with sep l) = true -> Forall (fun t => ascii t = true) l.
Proof.
  induction l as [|t l IH]; [done|]. destruct l as [|u l]; [cbn [join_with]; by repeat constructor|].
  rewrite join_with_cons, !ascii_app, !andb_true_iff by done. intros (Ht & _ & Hl). constructor; [done|by apply IH].
Qed.

Lemma query_text q : Json.text (query_value q) = js "{" ++ Json.quote (js "prefix") ++ js ":" ++ Json.quote (prefix q) ++
  match range q with
  | Some (op, bound) => js "," ++ Json.quote (js "range") ++ js ":" ++ js "{" ++ Json.quote (js "op") ++ js ":" ++ Json.quote (js (match op with Gt => "$gt" | Gte => "$gte" | Lt => "$lt" | Lte => "$lte" end)) ++
      js "," ++ Json.quote (js "value") ++ js ":" ++ Json.quote bound ++ js "}"
  | None => []
  end ++ js "}".
Proof. destruct q as [p [[op bound]|]]; cbn [query_value prefix range Json.text map fst snd join_with]; rewrite <- ?app_assoc; reflexivity. Qed.

Definition strings (q : ScanQuery) : bool := code_units (prefix q) && match range q with Some (_, bound) => code_units bound | None => true end.

Lemma quote_units s : ascii (Json.quote s) = true -> code_units s = true.
Proof. unfold Json.quote. rewrite !ascii_app, !andb_true_iff. intros (_ & Hs & _). by apply escape_ascii_units. Qed.

Lemma query_strings q : ascii (Json.text (query_value q)) = true -> strings q = true.
Proof.
  rewrite query_text. unfold strings. destruct (range q) as [[op bound]|]; rewrite !ascii_app, !andb_true_iff; intros H; destruct_and!; split; auto using quote_units.
Qed.

Lemma queries_jsonable queries : Forall (fun q => strings q = true) queries -> Json.jsonable (VArr (map query_value queries)) = true.
Proof.
  intros Hq. cbn [Json.jsonable]. induction Hq as [|q queries Hs _ IH]; [done|]. cbn [map forallb]. rewrite IH, andb_true_r.
  unfold strings in Hs. apply andb_true_iff in Hs as [Hp Hr]. destruct q as [p [[op bound]|]]; cbn [prefix range] in *.
  - cbn [query_value prefix range Json.jsonable forallb fst snd]. rewrite Hp, Hr. by destruct op.
  - cbn [query_value prefix range Json.jsonable forallb fst snd]. rewrite Hp. vm_compute. reflexivity.
Qed.

Lemma query_of_value q : query_of (query_value q) = Some q.
Proof. by destruct q as [p [[[| | |] bound]|]]. Qed.

Lemma from_json_reads queries : Forall (fun q => strings q = true) queries -> ascii (query_bytes queries) = true ->
  from_json (query_bytes queries) = Some (map utf8 queries).
Proof.
  intros Hq Ha. unfold from_json. rewrite Ha. unfold query_bytes.
  destruct (Json.store_roundtrip _ (queries_jsonable queries Hq)) as [_ ->].
  assert (mapM query_of (map query_value queries) = Some queries) as ->; [|done].
  clear. induction queries as [|q queries IH]; [done|]. cbn [map mapM]. by rewrite query_of_value, IH.
Qed.

Lemma from_json_right queries r : from_json (query_bytes queries) = Some r -> r = map utf8 queries.
Proof.
  intros Hr. destruct (ascii (query_bytes queries)) eqn:Ha; [|unfold from_json in Hr; by rewrite Ha in Hr].
  assert (Forall (fun q => strings q = true) queries) as Hq; [|rewrite from_json_reads in Hr by done; by injection Hr].
  apply encode_ascii_only in Ha. cbn [Json.text] in Ha. rewrite !ascii_app, !andb_true_iff in Ha. destruct Ha as (_ & Ha & _).
  apply ascii_joined in Ha. rewrite map_map, Forall_fmap in Ha. eapply Forall_impl; [exact Ha|]. intros q. apply query_strings.
Qed.

Lemma escape_ascii s : ascii s = true -> ascii (Json.escape s) = true.
Proof.
  assert (forall c, (c < 128)%N -> ascii (Json.escape_unit c) = true) as Hunit.
  { intros c Hc. unfold Json.escape_unit. repeat (destruct (_ =? _)%N; [done|]). destruct (N.ltb_spec c 32) as [Hlt|_].
    - assert (forallb (fun n => ascii (Json.unicode_escape (N.of_nat n))) (seq 0 32) = true) as Hall by (vm_compute; reflexivity).
      rewrite forallb_forall in Hall. specialize (Hall (N.to_nat c) ltac:(apply in_seq; lia)). by rewrite N2Nat.id in Hall.
    - unfold ascii. cbn [forallb]. rewrite andb_true_r. by apply N.ltb_lt. }
  induction s as [|c s IH]; [done|]. unfold ascii. cbn [forallb]. rewrite andb_true_iff, N.ltb_lt. intros [Hc Hs].
  assert (is_high c = false /\ is_surrogate c = false) as [Eh Es].
  { unfold is_high, is_surrogate, in_range. split; apply andb_false_iff; left; apply N.leb_gt; lia. }
  change (ascii (Json.escape (c :: s)) = true). destruct s as [|d s].
  - cbn [Json.escape]. rewrite Es. by apply Hunit.
  - change (Json.escape (c :: d :: s)) with (if is_high c && is_low d then c :: d :: Json.escape s
      else if is_surrogate c then Json.unicode_escape c ++ Json.escape (d :: s) else Json.escape_unit c ++ Json.escape (d :: s)).
    rewrite Eh, Es. cbn [andb]. by rewrite ascii_app, Hunit, IH.
Qed.

Lemma plain_units s : ascii s = true -> code_units s = true.
Proof. unfold ascii, code_units. rewrite !forallb_forall. intros Ha c Hc. apply Ha in Hc. rewrite N.ltb_lt in *. lia. Qed.

Lemma quote_ascii s : ascii s = true -> ascii (Json.quote s) = true.
Proof. intros Ha. unfold Json.quote. rewrite !ascii_app, escape_ascii by done. done. Qed.

Lemma join_ascii sep l : ascii sep = true -> Forall (fun t => ascii t = true) l -> ascii (join_with sep l) = true.
Proof.
  intros Hs Hl. induction Hl as [|t l Ht Hl IH]; [done|]. destruct l as [|u l]; [done|]. rewrite join_with_cons, !ascii_app, Ht, Hs by done. done.
Qed.

Lemma from_json_plain queries : forallb plain queries = true -> is_Some (from_json (query_bytes queries)).
Proof.
  intros Hp. assert (Forall (fun q => strings q = true /\ ascii (Json.text (query_value q)) = true) queries) as Hq.
  { apply Forall_forall. intros q Hin. rewrite forallb_forall in Hp. apply list_elem_of_In, Hp in Hin. unfold plain in Hin.
    apply andb_true_iff in Hin as [H1 H2]. unfold strings. rewrite query_text. destruct (range q) as [[op bound]|].
    - split; [by rewrite !plain_units|]. rewrite !ascii_app, !quote_ascii by (done || by destruct op). done.
    - split; [by rewrite !plain_units|]. rewrite !ascii_app, !quote_ascii by done. done. }
  assert (ascii (Json.text (VArr (map query_value queries))) = true) as Ha.
  { cbn [Json.text]. rewrite !ascii_app, join_ascii; [done|done|]. rewrite map_map. apply Forall_fmap. eapply Forall_impl; [exact Hq|]. by intros q [_ ?]. }
  exists (map utf8 queries). apply from_json_reads; [eapply Forall_impl; [exact Hq|]; by intros q [? _]|]. unfold query_bytes. by rewrite encode_ascii.
Qed.

(** *** Witnesses *)

Definition some_keys : list jstr :=
  [js "age/n/8000/4VLN5QUCDP0"; js "name/f/Ann/4VLN5QUCDP1"; js "name/f/Anna/4VLN5QUCDP0"; js "name/f/Bob/4VLN5QUCDP2"].
Definition some_bytes : list N := encode (serializeSnapshot some_keys).
Definition loaded : scanner (A := allocator) := snd (loadSnapshot some_bytes (WasmIndexScanner (fresh (200 * 1000)))).

Lemma some_keys_owned : Forall owned some_keys.
Proof.
  assert (forall a id, TTID.is_ttid id = true -> index_key (a ++ 47%N :: id) = true -> owned (a ++ 47%N :: id)) as Ho
    by (intros a id Hid Hk; exists id; split; [done|]; split; [done|by exists a]).
  repeat constructor.
  - exact (Ho (js "age/n/8000") (js "4VLN5QUCDP0") eq_refl eq_refl).
  - exact (Ho (js "name/f/Ann") (js "4VLN5QUCDP1") eq_refl eq_refl).
  - exact (Ho (js "name/f/Anna") (js "4VLN5QUCDP0") eq_refl eq_refl).
  - exact (Ho (js "name/f/Bob") (js "4VLN5QUCDP2") eq_refl eq_refl).
Qed.

Lemma some_keys_sorted : Sorted jle some_keys.
Proof. repeat constructor. Qed.

Lemma fresh_sound limit : (Z.of_nat limit <= 4294967296)%Z -> sound (heap (fresh limit)) /\ holds [] (WasmIndexScanner (fresh limit)).
Proof.
  intros Hl. assert (sound (heap (fresh limit))) as Hs by (split; cbn; [lia|split; [lia|done]|constructor|constructor]).
  split; [exact Hs|]. split; cbn; [exact Hs|done|by left|constructor].
Qed.

Lemma loaded_holds : holds [] loaded /\ SNAPSHOT (instance loaded) = Some some_bytes.
Proof.
  destruct (loadSnapshot_spec from_json some_bytes _ (proj2 (fresh_sound (200 * 1000) ltac:(lia)))) as (r & s' & Hr & Hspec).
  assert (is_ok (fst (loadSnapshot some_bytes (WasmIndexScanner (fresh (200 * 1000))))) = true) as Hok by (vm_compute; reflexivity).
  unfold loaded. rewrite Hr in *. cbn [fst snd] in *.
  destruct (from_bytes some_bytes default_limits); [destruct Hspec as [(_ & ? & ?)|[(e & -> & _) _]]|destruct Hspec as (e & -> & _)]; done.
Qed.

(** There is room for [k] blocks of [B] bytes below the limit. *)
Lemma later_bump h h' : later h h' -> top (fst h') = top (fst h) /\ limit (fst h') = limit (fst h).
Proof. induction 1 as [|h [a m] p n _ IH _|h a m p n b _ IH _ _]; [done|exact IH|exact IH]. Qed.

Lemma room_bump k B h : top (fst h) + k * B <= limit (fst h) -> (Z.of_nat (limit (fst h)) < 2147483648)%Z -> room k B h.
Proof.
  revert h. induction k as [|k IH]; intros h Hl Hlow; [done|]. intros n [a m] [Ht Hlim]%later_bump Hn. cbn [fst] in *.
  cbn [Scanner.malloc bump malloc]. rewrite (proj2 (Nat.ltb_ge _ _)) by lia. eexists _, _. split; [reflexivity|]. split; [lia|].
  apply IH; cbn [fst top limit]; lia.
Qed.

Lemma loaded_room : room 3 (largest (query_bytes [mkQuery (js "name/f/An") None]) (lines_text [js "4VLN5QUCDP1"; js "4VLN5QUCDP0"]) loaded) (heap (instance loaded)).
Proof.
  assert (Nat.leb (top (fst (heap (instance loaded)))) 1000 = true) as Et%Nat.leb_le by (vm_compute; reflexivity).
  assert (Nat.eqb (limit (fst (heap (instance loaded)))) (200 * 1000) = true) as El%Nat.eqb_eq by (vm_compute; reflexivity).
  assert (outputCapacity loaded = 0) as Ec by (vm_compute; reflexivity).
  assert (length (query_bytes [mkQuery (js "name/f/An") None]) = 24) as Eq by (vm_compute; reflexivity).
  assert (length (lines_text [js "4VLN5QUCDP1"; js "4VLN5QUCDP0"]) = 24) as Eo by (vm_compute; reflexivity).
  apply room_bump; rewrite El; [|lia]. unfold largest, INITIAL_OUTPUT_CAPACITY. rewrite Eq, Ec, Eo. lia.
Qed.

Lemma not_beyond : ~ beyond (js "name") (js "f") (js "An") None default_limits [js "4VLN5QUCDP1"; js "4VLN5QUCDP0"].
Proof. unfold beyond. intros [H|[(? & ? & ? & _)|[H|[H|H]]]]; [| done| | |]; vm_compute in H; done. Qed.

(** A query that cannot get its output buffer leaves its input block allocated, once per
    query; closing the scanner does not free it. *)
Theorem failed_query_leaks :
  let scan := scanQueries from_json [mkQuery (js "name/f/An") None] in
  let s1 := snd (scan (WasmIndexScanner (fresh 4096))) in
  let s2 := snd (scan s1) in
  fst (scan (WasmIndexScanner (fresh 4096))) = Throw (no_memory (js "output")) /\
  live (fst (heap (instance s1))) = [(16, 24)] /\ live (fst (heap (instance s2))) = [(40, 24); (16, 24)] /\
  live (fst (heap (instance (snd (close s2))))) = [(40, 24); (16, 24)].
Proof. vm_compute. done. Qed.

End Bump.

#[local] Existing Instance Bump.bump.


Lemma wasm_scanner_honest_witness :
  PrefixIndex.scan_queries (wasm_factory Bump.from_json (Ok ()) (Ok ()) (Bump.fresh (200 * 1000))) Bump.some_bytes (js "name/f/An") None =
    Ok [js "4VLN5QUCDP1"; js "4VLN5QUCDP0"] /\
  scanner_honest (wasm_factory Bump.from_json (Ok ()) (Ok ()) (Bump.fresh (200 * 1000))).
Proof.
  split; [vm_compute; reflexivity|].
  apply (wasm_scanner_honest Bump.from_json Bump.from_json_right Bump.from_json_plain).
  - exact (proj1 (Bump.fresh_sound (200 * 1000) ltac:(lia))).
  - reflexivity.
Defined.

End Scanner.
