(* ===== verification/HostVfs.v ===== *)
(** The host's side of the full engine in WebAssembly: the import table and the batch call of
    [src/browser/host-vfs.mjs], with what [crates/fylo-vfs/src/host.rs] does to call the table
    with buffers of its own.  The linear memory and its allocator are those of [Scanner]; the
    backend ([BridgeFs] offers one) and the machine session are parameters. *)

From stdpp Require Import gmap.
From S2P Require Import Prelude PathUtil JsNum JsValue Utf8 PrefixIndex BridgeFs Scanner.

Module HostVfs.
Import Scanner.

Definition MODULE_ABI_VERSION : Z := 1.
Definition ENOENT : Z := -2.
Definition EIO : Z := -5.
Definition EBADF : Z := -9.
Definition EEXIST : Z := -17.

(** The file operations of a backend; what [readAt] reads goes to the start of the view it is
    given, and [random] fills its view. *)
Class HostBackend (W : Type) := {
  open : jstr -> Z -> M W Z;
  close : Z -> M W ();
  readAt : Z -> Z -> nat -> M W (list N);
  writeAt : Z -> Z -> list N -> M W Z;
  truncate : Z -> Z -> M W ();
  flush : Z -> M W ();
  stat : jstr -> M W BridgeFs.entry;
  mkdir : jstr -> bool -> M W ();
  unlink : jstr -> M W ();
  rmdir : jstr -> bool -> M W ();
  rename : jstr -> jstr -> M W ();
  readDir : jstr -> M W (list jstr);
  readAttrs : jstr -> M W (list N);
  writeAttrs : jstr -> list N -> M W ();
  random : nat -> M W (list N);
  nowUnixMs : M W Z;
  log : jstr -> M W ()
}.

(** The instance's memory, the backend, and what [onError] was told. *)
Record host (A W : Type) := mkHost { heap : A * list N; backend : W; reported : list jstr }.
Arguments mkHost {A W}. Arguments heap {A W}. Arguments backend {A W}. Arguments reported {A W}.

(** *** Views of the memory *)

(** An index of [subarray]: from the end when negative, and within the array. *)
Definition relative_index (len : nat) (z : Z) : nat :=
  if (z <? 0)%Z then Z.to_nat (Z.of_nat len + z) else Nat.min (Z.to_nat z) len.
Definition view_start (m : list N) (pointer : Z) : nat := relative_index (length m) pointer.
Definition view_length (m : list N) (pointer length_ : Z) : nat := relative_index (length m) (pointer + length_) - view_start m pointer.
Definition view_bytes (m : list N) (pointer length_ : Z) : list N := take (view_length m pointer length_) (drop (view_start m pointer) m).

(** [n] bytes of an integer, the lowest first, and back. *)
Fixpoint le_bytes (n : nat) (z : Z) : list N :=
  match n with 0 => [] | S n => Z.to_N (z mod 256) :: le_bytes n (z / 256) end.
Fixpoint le_value (bytes : list N) : Z :=
  match bytes with [] => 0 | b :: r => Z.of_N b + 256 * le_value r end%Z.

Definition offset_error : js_error :=
  {| err_name := js "RangeError"; err_message := js "Offset is outside the bounds of the DataView"; err_code := None |}.
Definition set_error : js_error := {| err_name := js "RangeError"; err_message := js "offset is out of bounds"; err_code := None |}.

Definition errno (e : js_error) : Z :=
  match err_code e with
  | Some code =>
      if jeqb code (js "ENOENT") || jeqb code (js "NotFoundError") then ENOENT
      else if jeqb code (js "EEXIST") then EEXIST
      else if jeqb code (js "EBADF") then EBADF
      else EIO
  | None => EIO
  end.

Definition encodeNames (names : list jstr) : list N := flat_map (fun name => Utf8.encode (name ++ [0%N])) names.

(** [Number(n)] of a 64-bit integer as WebAssembly passes it, and back. *)
Definition i64 (z : Z) : Z := if (z mod 2 ^ 64 <? 2 ^ 63)%Z then (z mod 2 ^ 64)%Z else (z mod 2 ^ 64 - 2 ^ 64)%Z.
Definition number_of (z : Z) : Z := default 0%Z (Num.to_Z (Num.of_Z (i64 z))).

Section Imports.
  Context {A W : Type} `{Allocator A, HostBackend W}.

Abbreviation state := (host A W) (only parsing).

Definition memory (h : state) : list N := snd (heap h).
Definition on_backend {B} (m : M W B) : M state B := fun h => let '(r, w) := m (backend h) in (r, mkHost (heap h) w (reported h)).
Definition set_memory (m : list N) (h : state) : state := mkHost (fst (heap h), m) (backend h) (reported h).
Definition report (message : jstr) (h : state) : state := mkHost (heap h) (backend h) (reported h ++ [message]).

Definition readPath (pointer length_ : Z) : M state jstr := gets (fun h => Utf8.decode (view_bytes (memory h) pointer length_)).

(** [data().setUint32(p, v, true)] and [setBigUint64]. *)
Definition set_bytes (pointer : Z) (bytes : list N) (e : js_error) : M state () :=
  h ← get;
  if (pointer <? 0)%Z || (length (memory h) <? Z.to_nat pointer + length bytes) then throw e
  else modify (set_memory (splice (Z.to_nat pointer) bytes (memory h))).
Definition setUint32 (pointer v : Z) : M state () := set_bytes pointer (le_bytes 4 v) offset_error.
Definition setBigUint64 (pointer v : Z) : M state () := set_bytes pointer (le_bytes 8 v) offset_error.
(** [view().set(bytes, p)] *)
Definition set_view (pointer : Z) (bytes : list N) : M state () := set_bytes pointer bytes set_error.

Definition guard (action : M state ()) : M state Z :=
  try_catch (_ ← action; mret 0%Z) (fun error => _ ← modify (report (err_message error)); mret (errno error)).

(** The functions of [fylo_host], with the arguments the module calls them with. *)
Inductive import :=
| Open (pathPointer pathLength flags handlePointer : Z)
| Close (handle : Z)
| ReadAt (handle offset buffer length_ readPointer : Z)
| WriteAt (handle offset buffer length_ writtenPointer : Z)
| Truncate (handle length_ : Z)
| Flush (handle : Z)
| Stat (pathPointer pathLength out : Z)
| Mkdir (pathPointer pathLength recursive : Z)
| Unlink (pathPointer pathLength : Z)
| Rmdir (pathPointer pathLength recursive : Z)
| Rename (fromPointer fromLength toPointer toLength : Z)
| ReadAttrs (pathPointer pathLength buffer capacity neededPointer : Z)
| WriteAttrs (pathPointer pathLength manifest length_ : Z)
| NowUnixMs (out : Z)
| Random (buffer length_ : Z)
| ReadDir (pathPointer pathLength buffer capacity neededPointer : Z).

(** Report the length, and write the bytes when there is room. *)
Definition answer_sized (bytes : list N) (buffer capacity neededPointer : Z) : M state () :=
  _ ← setUint32 neededPointer (Z.of_nat (length bytes));
  when (Z.of_nat (length bytes) <=? capacity)%Z (set_view buffer bytes).

Definition action (i : import) : M state () :=
  match i with
  | Open pp pl flags hp => path ← readPath pp pl; handle ← on_backend (open path flags); setBigUint64 hp handle
  | Close handle => on_backend (close (number_of handle))
  | ReadAt handle offset buffer length_ rp =>
      h ← get;
      read ← on_backend (readAt (number_of handle) (number_of offset) (view_length (memory h) buffer length_));
      _ ← modify (fun h => set_memory (splice (view_start (memory h) buffer) read (memory h)) h);
      setUint32 rp (Z.of_nat (length read))
  | WriteAt handle offset buffer length_ wp =>
      h ← get;
      written ← on_backend (writeAt (number_of handle) (number_of offset) (view_bytes (memory h) buffer length_));
      setUint32 wp written
  | Truncate handle length_ => on_backend (truncate (number_of handle) (number_of length_))
  | Flush handle => on_backend (flush (number_of handle))
  | Stat pp pl out =>
      path ← readPath pp pl;
      entry ← on_backend (stat path);
      _ ← setUint32 out (BridgeFs.kind entry);
      _ ← setBigUint64 (out + 8) (BridgeFs.len entry);
      setBigUint64 (out + 16) (BridgeFs.modifiedMs entry)
  | Mkdir pp pl recursive => path ← readPath pp pl; on_backend (mkdir path (negb (recursive =? 0)%Z))
  | Unlink pp pl => path ← readPath pp pl; on_backend (unlink path)
  | Rmdir pp pl recursive => path ← readPath pp pl; on_backend (rmdir path (negb (recursive =? 0)%Z))
  | Rename fp fl tp tl => from ← readPath fp fl; to ← readPath tp tl; on_backend (rename from to)
  | ReadAttrs pp pl buffer capacity np =>
      path ← readPath pp pl; manifest ← on_backend (readAttrs path); answer_sized manifest buffer capacity np
  | WriteAttrs pp pl manifest length_ =>
      path ← readPath pp pl; h ← get; on_backend (writeAttrs path (view_bytes (memory h) manifest length_))
  | NowUnixMs out => now ← on_backend nowUnixMs; setBigUint64 out now
  | Random buffer length_ =>
      h ← get;
      bytes ← on_backend (random (view_length (memory h) buffer length_));
      modify (fun h => set_memory (splice (view_start (memory h) buffer) bytes (memory h)) h)
  | ReadDir pp pl buffer capacity np =>
      path ← readPath pp pl; names ← on_backend (readDir path); answer_sized (encodeNames names) buffer capacity np
  end.

Definition host_call (i : import) : M state Z := guard (action i).
(** [log], which is not guarded. *)
Definition host_log (pointer length_ : Z) : M state () := message ← readPath pointer length_; on_backend (log message).

(** *** The engine's calls *)

(** A result of the engine's I/O: a value or an [io::Error]. *)
Inductive io_error := RawOsError (code : Z) | InvalidData.
Definition io (B : Type) : Type := B + io_error.
Definition trap : js_error := {| err_name := js "RuntimeError"; err_message := js "unreachable"; err_code := None |}.

(** [vec![0_u8; n]], and dropping it. *)
Definition vec (n : nat) : M state nat :=
  h ← get;
  match malloc n (heap h) with
  | Some (p, (a, m)) => _ ← modify (fun h => mkHost (a, splice p (replicate n 0%N) m) (backend h) (reported h)); mret p
  | None => throw trap
  end.
Definition drop_vec (p n : nat) : M state () := modify (fun h => mkHost (dealloc p n (heap h)) (backend h) (reported h)).

(** The loop of [host_read_attrs] and [read_dir], with a buffer of [cap] bytes at [bp] and the
    local [needed] at [np]: the bytes read.  The buffer is dropped by whoever is given it. *)
Fixpoint read_loop (fuel : nat) (call : Z -> Z -> Z -> import) (np bp cap : nat) : M state (option (io (list N))) :=
  match fuel with
  | 0 => mret None
  | S fuel =>
      _ ← modify (fun h => set_memory (splice np (le_bytes 4 0) (memory h)) h);
      code ← host_call (call (i32 bp) (i32 cap) (i32 np));
      if negb (code =? 0)%Z then _ ← drop_vec bp cap; mret (Some (inr (RawOsError (- code))))
      else
        h ← get;
        let needed := Z.to_nat (le_value (bytes_at np 4 (memory h))) in
        if cap <? needed then bp' ← vec needed; _ ← drop_vec bp cap; read_loop fuel call np bp' needed
        else _ ← drop_vec bp cap; mret (Some (inl (bytes_at bp needed (memory h))))
  end.

Definition read_sized (fuel : nat) (call : Z -> Z -> Z -> import) (np : nat) : M state (option (io (list N))) :=
  bp ← vec 4096; read_loop fuel call np bp 4096.

(** [host_read_attrs(path)], with the path's bytes at [pp]. *)
Definition host_read_attrs (fuel pp n np : nat) : M state (option (io (list N))) :=
  read_sized fuel (fun buffer capacity needed => ReadAttrs (i32 pp) (i32 n) buffer capacity needed) np.

(** [str::from_utf8] of a name. *)
Definition from_utf8 (name : list N) : option jstr :=
  let text := Utf8.decode_from Utf8.Fresh name in if bool_decide (Utf8.encode text = name) then Some text else None.
Definition split_names (bytes : list N) : option (list jstr) :=
  mapM from_utf8 (filter (fun name => name <> []) (split_on 0 bytes)).
Definition read_dir (fuel pp n np : nat) : M state (option (io (list jstr))) :=
  r ← read_sized fuel (fun buffer capacity needed => ReadDir (i32 pp) (i32 n) buffer capacity needed) np;
  mret ((fun r => match r with
                  | inl bytes => match split_names bytes with Some names => inl names | None => inr InvalidData end
                  | inr e => inr e
                  end) <$> r).

(** *** A batch *)

Section Exec.
  (** [fylo_exec], the machine session of the module, on the pointer and the length. *)
  Context (fylo_exec : Z -> Z -> M state Z).

Definition fylo_alloc (n : nat) : M state Z := if n =? 0 then mret 0%Z else p ← vec n; mret (i32 p).
Definition fylo_free (pointer : Z) (n : nat) : M state () :=
  if (usize pointer =? 0) || (n =? 0) then mret () else drop_vec (usize pointer) n.

Definition bad_abi (version : Z) : js_error := Error (js "unsupported FYLO module ABI: " ++ Num.dec_Z version).
Definition exec (fylo_abi_version : Z) (ndjson : jstr) : M state jstr :=
  _ ← throw_if (negb (fylo_abi_version =? MODULE_ABI_VERSION)%Z) (bad_abi fylo_abi_version);
  let request := Utf8.encode ndjson in
  requestPointer ← fylo_alloc (length request);
  _ ← set_view requestPointer request;
  packed ← fylo_exec requestPointer (Z.of_nat (length request));
  _ ← fylo_free requestPointer (length request);
  if (packed =? 0)%Z then mret []
  else
    let pointer := (i64 packed / 2 ^ 32)%Z in
    let length_ := (packed mod 2 ^ 32)%Z in
    h ← get;
    let response := view_bytes (memory h) pointer length_ in
    _ ← fylo_free pointer (Z.to_nat length_);
    mret (Utf8.decode response).

End Exec.

(** ** The table never throws *)

Lemma reported_on_backend {B} r (m : M W B) : preserves (fun h : state => reported h = r) (on_backend m).
Proof. intros h Hh. unfold on_backend. by destruct (m (backend h)). Qed.
Lemma reported_set r pointer bytes e : preserves (fun h : state => reported h = r) (set_bytes pointer bytes e).
Proof. intros h Hh. unfold set_bytes. run_pure. by destruct (_ || _). Qed.
Lemma reported_path r p n : preserves (fun h : state => reported h = r) (readPath p n).
Proof. apply preserves_gets. Qed.
Lemma reported_get r : preserves (fun h : state => reported h = r) get.
Proof. by intros h Hh. Qed.
Lemma reported_memory r (f : state -> list N) : preserves (fun h : state => reported h = r) (modify (fun h => set_memory (f h) h)).
Proof. by apply preserves_modify. Qed.
#[local] Hint Resolve reported_on_backend reported_set reported_path reported_get reported_memory : fylo.

Lemma reported_action r i : preserves (fun h : state => reported h = r) (action i).
Proof. destruct i; cbn [action]; unfold answer_sized, setUint32, setBigUint64, set_view; repeat first [progress intros | solve [eauto with fylo] | apply preserves_bind | apply preserves_when]. Qed.

Definition an_errno (code : Z) : Prop := code = ENOENT \/ code = EEXIST \/ code = EBADF \/ code = EIO.
Lemma errno_is e : an_errno (errno e).
Proof. unfold errno, an_errno. destruct (err_code e); [|tauto]. repeat destruct (_ || _); try destruct (jeqb _ _); try tauto; destruct (jeqb _ _); tauto. Qed.

(** Whatever the module asks of the host and whatever the backend throws, a function of
    the table returns: zero, or, after telling [onError] the reason once, one of the four
    error numbers.  Nothing is thrown into the module. *)
Theorem every_import_answers i (h : state) : exists code h', host_call i h = (Ok code, h') /\
  (code = 0%Z /\ reported h' = reported h \/ an_errno code /\ exists reason, reported h' = reported h ++ [reason]).
Proof.
  unfold host_call, guard, try_catch. pose proof (reported_action (reported h) i h eq_refl) as Hr. unfold mbind at 1, M_bind at 1.
  destruct (action i h) as [[[]|e] h1]; cbn [snd] in Hr.
  - exists 0%Z, h1. split; [done|by left].
  - eexists _, _. split; [done|]. right. split; [apply errno_is|]. exists (err_message e). cbn. by rewrite Hr.
Qed.

(** ** What is written in memory *)

Lemma le_bytes_length n z : length (le_bytes n z) = n.
Proof. revert z. induction n as [|n IH]; intros z; cbn [le_bytes length]; [done|]. by rewrite IH. Qed.

Lemma le_value_bytes n z : (0 <= z < 256 ^ Z.of_nat n)%Z -> le_value (le_bytes n z) = z.
Proof.
  revert z. induction n as [|n IH]; intros z Hz; [cbn in *; lia|]. cbn [le_bytes le_value].
  rewrite Nat2Z.inj_succ, Z.pow_succ_r in Hz by lia. pose proof (Z.mod_pos_bound z 256 ltac:(lia)).
  rewrite IH; [rewrite Z2N.id by lia; pose proof (Z.div_mod z 256 ltac:(lia)); lia|].
  split; [apply Z.div_pos; lia|apply Z.div_lt_upper_bound; lia].
Qed.

(** The blocks in use are [l], all of them below two gigabytes. *)
Record owns (l : list (nat * nat)) (h : state) : Prop := {
  owns_sound : sound (heap h);
  owns_live : live (fst (heap h)) ≡ₚ l;
  owns_low : Forall (fun b => (Z.of_nat (fst b) < 2147483648)%Z /\ (Z.of_nat (snd b) < 2147483648)%Z) l
}.
Definition unchanged (l : list (nat * nat)) (h h' : state) : Prop :=
  forall q m, (q, m) ∈ l -> bytes_at q m (memory h') = bytes_at q m (memory h).

Lemma owns_inside l h p n : owns l h -> (p, n) ∈ l -> 0 < p /\ 0 < n /\ p + n <= length (memory h) /\ (Z.of_nat p < 2147483648)%Z /\ (Z.of_nat n < 2147483648)%Z.
Proof.
  intros [Hs Hl Hlow] Hin. destruct (live_inside _ p n Hs ltac:(by rewrite Hl)) as (? & ? & ?). rewrite Forall_forall in Hlow. by destruct (Hlow _ Hin).
Qed.

Lemma i32_low p : (Z.of_nat p < 2147483648)%Z -> i32 p = Z.of_nat p.
Proof. intros Hp. unfold i32. by rewrite (proj2 (Z.ltb_lt _ _)). Qed.

Lemma view_block l h p n : owns l h -> (p, n) ∈ l -> view_bytes (memory h) (i32 p) (i32 n) = bytes_at p n (memory h).
Proof.
  intros Ho Hin. destruct (owns_inside l h p n Ho Hin) as (_ & _ & Hle & Hp & Hn). rewrite !i32_low by done.
  unfold view_bytes, view_length, view_start, relative_index, bytes_at, PrefixIndex.subarray.
  rewrite !(proj2 (Z.ltb_ge _ _)) by lia. rewrite !Nat.min_l by lia. f_equal; [lia|]. f_equal. lia.
Qed.

(** Writing a block. *)
Lemma set_block l h p n b e : owns ((p, n) :: l) h -> length b <= n ->
  exists h', set_bytes (i32 p) b e h = (Ok (), h') /\ owns ((p, n) :: l) h' /\ unchanged l h h' /\
    bytes_at p (length b) (memory h') = b /\ backend h' = backend h /\ reported h' = reported h /\ later (heap h) (heap h').
Proof.
  intros Ho Hb. destruct (owns_inside _ h p n Ho ltac:(by left)) as (_ & _ & Hle & Hp & _). rewrite i32_low by done.
  destruct h as [[a m] w r]. destruct Ho as [Hs Hl Hlow]. cbn [heap memory fst snd] in *. unfold memory in *. cbn [heap snd] in *.
  destruct (splice_kept (fun _ => None) a m p n b l Hs Hl Hb) as (Hs' & Hh & Hk). eexists. split.
  { unfold set_bytes. run_pure. unfold memory. cbn [heap snd]. rewrite (proj2 (Z.ltb_ge _ _)) by lia. rewrite (proj2 (Nat.ltb_ge _ _)) by lia. reflexivity. }
  rewrite Nat2Z.id. split_and!; [by split|by intros q k Hin; apply Hk|done|done|done|].
  apply (later_write _ a m p n b); [constructor| |done]. rewrite Hl. by left.
Qed.

Lemma owns_perm l l' h : l ≡ₚ l' -> owns l h -> owns l' h.
Proof. intros Hp [Hs Hl Hlow]. split; [done|by rewrite Hl|by rewrite <- Hp]. Qed.

Lemma unchanged_trans l h1 h2 h3 : unchanged l h1 h2 -> unchanged l h2 h3 -> unchanged l h1 h3.
Proof. intros H1 H2 q k Hin. rewrite (H2 q k Hin). by apply H1. Qed.
Lemma unchanged_sub l l' h h' : l ⊆ l' -> unchanged l' h h' -> unchanged l h h'.
Proof. intros Hl Hu q k Hin. by apply Hu, Hl. Qed.

Lemma replicate_zero_length n : length (replicate n 0%N) <= n.
Proof. by rewrite length_replicate. Qed.

Lemma vec_spec k B n l h : 0 < n <= B -> (Z.of_nat n < 2147483648)%Z -> owns l h -> room (S k) B (heap h) ->
  exists p h', vec n h = (Ok p, h') /\ owns ((p, n) :: l) h' /\ unchanged l h h' /\ backend h' = backend h /\ reported h' = reported h /\ room k B (heap h').
Proof.
  intros Hn Hlow Ho Hroom. destruct h as [[a m] w r]. destruct Ho as [Hs Hl Hb]. cbn [heap] in *. unfold vec. run_pure. cbn [heap].
  destruct (room_malloc k B n _ Hroom Hn) as (p & [a' m'] & Hm & Hp & Hroom'). rewrite Hm.
  destruct (malloc_sound n (a, m) p (a', m') Hs ltac:(lia) Hm) as (Hs' & Hl' & _ & Hk). cbn [fst snd] in *.
  rewrite Hl in Hl'. destruct (splice_kept (fun _ => None) a' m' p n (replicate n 0%N) l Hs' Hl' (replicate_zero_length n)) as (Hs2 & _ & Hk2).
  eexists p, _. split; [reflexivity|]. split_and!; [split; [done|done|by constructor]| |done|done|].
  - intros q j Hin. unfold memory. cbn [heap snd]. rewrite Hk2 by done. apply Hk. by rewrite Hl.
  - cbn [heap]. apply (room_later k B (a', m')); [done|]. apply (later_write _ a' m' p n); [constructor| |apply replicate_zero_length]. rewrite Hl'. by left.
Qed.

Lemma drop_vec_spec p n l h : owns ((p, n) :: l) h ->
  exists h', drop_vec p n h = (Ok (), h') /\ owns l h' /\ unchanged l h h' /\ backend h' = backend h /\ reported h' = reported h /\ later (heap h) (heap h').
Proof.
  intros [Hs Hl Hlow]. destruct (dealloc_sound p n _ _ Hs Hl) as (Hs' & Hl' & _ & Hk). eexists. split; [reflexivity|].
  apply Forall_cons in Hlow as [_ Hlow]. split_and!; [by split|done|done|done|]. cbn [heap]. constructor; [constructor|]. rewrite Hl. by left.
Qed.

(** A guarded answer of [data] to a buffer of [cap] bytes. *)
Lemma sized_spec (read : M state (list N)) data bp cap np l h w' :
  owns ((bp, cap) :: (np, 4) :: l) h -> read h = (Ok data, mkHost (heap h) w' (reported h)) -> (Z.of_nat (length data) < 2147483648)%Z ->
  exists h', guard (x ← read; answer_sized x (i32 bp) (i32 cap) (i32 np)) h = (Ok 0%Z, h') /\
    owns ((bp, cap) :: (np, 4) :: l) h' /\ unchanged l h h' /\ backend h' = w' /\ reported h' = reported h /\
    Z.to_nat (le_value (bytes_at np 4 (memory h'))) = length data /\ (length data <= cap -> bytes_at bp (length data) (memory h') = data) /\
    later (heap h) (heap h').
Proof.
  intros Ho Hread Hd. set (h0 := mkHost (heap h) w' (reported h)) in *. assert (owns ((np, 4) :: (bp, cap) :: l) h0) as Ho0.
  { apply (owns_perm ((bp, cap) :: (np, 4) :: l)); [constructor|by destruct Ho]. }
  destruct (set_block _ h0 np 4 (le_bytes 4 (Z.of_nat (length data))) offset_error Ho0) as (h1 & Hset & Ho1 & Hu1 & Hb1 & Hw1 & Hr1 & Hla1);
    [by rewrite le_bytes_length|]. rewrite le_bytes_length in Hb1.
  assert (Z.to_nat (le_value (bytes_at np 4 (memory h1))) = length data) as Hneeded.
  { rewrite Hb1, le_value_bytes by lia. lia. }
  destruct (owns_inside _ h bp cap Ho ltac:(by left)) as (_ & _ & _ & _ & Hcap).
  unfold guard, try_catch, mbind, M_bind. rewrite Hread. unfold answer_sized, setUint32, mbind, M_bind. rewrite Hset. rewrite (i32_low cap) by done. unfold when.
  destruct (Z.leb_spec (Z.of_nat (length data)) (Z.of_nat cap)) as [Hfit|Hbig].
  - assert (owns ((bp, cap) :: (np, 4) :: l) h1) as Ho1' by (by apply (owns_perm ((np, 4) :: (bp, cap) :: l)); [constructor|]).
    destruct (set_block _ h1 bp cap data set_error Ho1' ltac:(lia)) as (h2 & Hset2 & Ho2 & Hu2 & Hb2 & Hw2 & Hr2 & Hla2). unfold set_view. rewrite Hset2.
    exists h2. split_and!; [done|done| |by rewrite Hw2, Hw1|by rewrite Hr2, Hr1| |done|].
    + apply (unchanged_trans _ h h1); [|eapply unchanged_sub; [|exact Hu2]; set_solver]. intros q k Hin. exact (Hu1 q k ltac:(set_solver)).
    + by rewrite (Hu2 np 4 ltac:(left)).
    + by apply (later_trans _ (heap h1)).
  - exists h1. split_and!; [done|by apply (owns_perm ((np, 4) :: (bp, cap) :: l)); [constructor|]| |by rewrite Hw1|by rewrite Hr1|done|lia|done].
    intros q k Hin. apply Hu1. set_solver.
Qed.

(** A call that, in a backend's state [w], reports [data] and leaves [w']; the path it names is
    in the block [(pp, n)]. *)
Definition reports (call : Z -> Z -> Z -> import) (pp n : nat) (path data : list N) (w w' : W) : Prop :=
  forall bp cap np l h, owns ((bp, cap) :: (np, 4) :: (pp, n) :: l) h -> bytes_at pp n (memory h) = path -> backend h = w ->
  exists h', host_call (call (i32 bp) (i32 cap) (i32 np)) h = (Ok 0%Z, h') /\
    owns ((bp, cap) :: (np, 4) :: (pp, n) :: l) h' /\ unchanged ((pp, n) :: l) h h' /\ backend h' = w' /\ reported h' = reported h /\
    Z.to_nat (le_value (bytes_at np 4 (memory h'))) = length data /\ (length data <= cap -> bytes_at bp (length data) (memory h') = data) /\
    later (heap h) (heap h').

(** What a read gave: the data, in one of the two states of the backend; nothing else changed
    than the local at [np]. *)
Definition read_gave (data : list N) (np : nat) (l : list (nat * nat)) (h : state) (w1 w2 : W) (o : outcome (option (io (list N))) * state) : Prop :=
  fst o = Ok (Some (inl data)) /\ owns ((np, 4) :: l) (snd o) /\ unchanged l h (snd o) /\ (backend (snd o) = w1 \/ backend (snd o) = w2) /\ reported (snd o) = reported h.

Lemma read_loop_step fuel call np bp cap h : read_loop (S fuel) call np bp cap h =
  (_ ← modify (fun h => set_memory (splice np (le_bytes 4 0) (memory h)) h);
   code ← host_call (call (i32 bp) (i32 cap) (i32 np));
   if negb (code =? 0)%Z then _ ← drop_vec bp cap; mret (Some (inr (RawOsError (- code))))
   else
     h ← get;
     let needed := Z.to_nat (le_value (bytes_at np 4 (memory h))) in
     if cap <? needed then bp' ← vec needed; _ ← drop_vec bp cap; read_loop fuel call np bp' needed
     else _ ← drop_vec bp cap; mret (Some (inl (bytes_at bp needed (memory h))))) h.
Proof. done. Qed.

(** One turn: the local is cleared and the call made. *)
Lemma turn_spec call pp n path data w w' bp cap np l h :
  reports call pp n path data w w' -> owns ((bp, cap) :: (np, 4) :: (pp, n) :: l) h -> bytes_at pp n (memory h) = path -> backend h = w ->
  exists h', (_ ← modify (fun h => set_memory (splice np (le_bytes 4 0) (memory h)) h); host_call (call (i32 bp) (i32 cap) (i32 np))) h = (Ok 0%Z, h') /\
    owns ((bp, cap) :: (np, 4) :: (pp, n) :: l) h' /\ unchanged ((pp, n) :: l) h h' /\ backend h' = w' /\ reported h' = reported h /\
    Z.to_nat (le_value (bytes_at np 4 (memory h'))) = length data /\ (length data <= cap -> bytes_at bp (length data) (memory h') = data) /\
    later (heap h) (heap h').
Proof.
  intros Hcall Ho Hp Hw. assert (owns ((np, 4) :: (bp, cap) :: (pp, n) :: l) h) as Ho0 by (eapply owns_perm; [|exact Ho]; constructor).
  destruct h as [[a m] w0 r]. destruct Ho0 as [Hs Hl Hlow]. cbn [heap fst] in *.
  destruct (splice_kept (fun _ => None) a m np 4 (le_bytes 4 0) _ Hs Hl ltac:(by rewrite le_bytes_length)) as (Hs1 & _ & Hk1).
  set (h1 := mkHost (a, splice np (le_bytes 4 0) m) w0 r). assert (owns ((bp, cap) :: (np, 4) :: (pp, n) :: l) h1) as Ho1.
  { destruct Ho as [_ Hl' Hlow']. by split. }
  destruct (Hcall bp cap np l h1 Ho1) as (h' & Hrun & Ho' & Hu' & Hrest); [rewrite <- Hp; apply Hk1; set_solver|done|].
  destruct Hrest as (Hw' & Hr' & Hn' & Hb' & Hla).
  exists h'. rewrite modify_bind. change (set_memory _ _) with h1. split_and!; [done|done| |done|done|done|done|].
  - intros q k Hin. rewrite (Hu' q k Hin). apply Hk1. set_solver.
  - apply (later_trans _ (heap h1)); [|done]. apply (later_write _ a m np 4); [constructor| |by rewrite le_bytes_length]. rewrite Hl. by left.
Qed.

(** A turn with room for the data is the last. *)
Lemma last_turn call pp n path data w w' bp cap np l h fuel :
  reports call pp n path data w w' -> owns ((bp, cap) :: (np, 4) :: (pp, n) :: l) h -> bytes_at pp n (memory h) = path -> backend h = w ->
  length data <= cap ->
  exists h', read_loop (S fuel) call np bp cap h = (Ok (Some (inl data)), h') /\
    owns ((np, 4) :: (pp, n) :: l) h' /\ unchanged ((pp, n) :: l) h h' /\ backend h' = w' /\ reported h' = reported h.
Proof.
  intros Hcall Ho Hp Hw Hfit. destruct (turn_spec call pp n path data w w' bp cap np l h Hcall Ho Hp Hw) as (h2 & Ht & Ho2 & Hu2 & Hw2 & Hr2 & Hn2 & Hb2 & _).
  destruct (drop_vec_spec bp cap _ h2 Ho2) as (h3 & Hdrop & Ho3 & Hu3 & Hw3 & Hr3 & _).
  exists h3. rewrite read_loop_step, modify_bind. rewrite modify_bind in Ht. rewrite (M_bind_ok _ _ _ _ _ Ht). cbn [Z.eqb negb]. rewrite get_bind. cbv zeta.
  rewrite Hn2, (proj2 (Nat.ltb_ge _ _)) by done. rewrite (M_bind_ok _ _ _ _ _ Hdrop), Hb2 by done.
  split_and!; [done|done| |by rewrite Hw3|by rewrite Hr3].
  apply (unchanged_trans _ h h2); [done|]. eapply unchanged_sub; [|exact Hu3]. set_solver.
Qed.

Lemma read_sized_reads call pp n path data w w1 w2 np l h :
  reports call pp n path data w w1 -> reports call pp n path data w1 w2 -> (Z.of_nat (length data) < 2147483648)%Z ->
  owns ((np, 4) :: (pp, n) :: l) h -> bytes_at pp n (memory h) = path -> backend h = w ->
  room 2 (Nat.max 4096 (length data)) (heap h) ->
  read_gave data np ((pp, n) :: l) h w1 w2 (read_sized 2 call np h).
Proof.
  intros Hc1 Hc2 Hd Ho Hp Hw Hroom. unfold read_sized. set (size := 4096).
  destruct (vec_spec 1 (Nat.max size (length data)) size _ h ltac:(unfold size; lia) ltac:(unfold size; lia) Ho Hroom)
    as (bp & h1 & Hv & Ho1 & Hu1 & Hw1 & Hr1 & Hroom1). clear Hroom.
  rewrite (M_bind_ok _ _ _ _ _ Hv). clearbody size. clear Hv.
  assert (bytes_at pp n (memory h1) = path) as Hp1 by (by rewrite (Hu1 pp n ltac:(set_solver))).
  destruct (Nat.ltb_spec size (length data)) as [Hbig|Hfit].
  - destruct (turn_spec call pp n path data w w1 bp size np l h1 Hc1 Ho1 Hp1 ltac:(congruence)) as (h2 & Ht & Ho2 & Hu2 & Hw2 & Hr2 & Hn2 & _ & Hla2).
    rewrite read_loop_step, modify_bind. rewrite modify_bind in Ht. rewrite (M_bind_ok _ _ _ _ _ Ht). cbn [Z.eqb negb]. rewrite get_bind. cbv zeta.
    rewrite Hn2, (proj2 (Nat.ltb_lt _ _)) by done.
    destruct (vec_spec 0 (Nat.max size (length data)) (length data) _ h2 ltac:(lia) Hd Ho2 (room_later _ _ _ _ Hroom1 Hla2))
      as (bp' & h3 & Hv & Ho3 & Hu3 & Hw3 & Hr3 & _).
    rewrite (M_bind_ok _ _ _ _ _ Hv). assert (owns ((bp, size) :: (bp', length data) :: (np, 4) :: (pp, n) :: l) h3) as Ho3'
      by (eapply owns_perm; [|exact Ho3]; constructor).
    destruct (drop_vec_spec bp size _ h3 Ho3') as (h4 & Hdrop & Ho4 & Hu4 & Hw4 & Hr4 & _). rewrite (M_bind_ok _ _ _ _ _ Hdrop).
    assert (bytes_at pp n (memory h4) = path) as Hp4.
    { rewrite (Hu4 pp n ltac:(set_solver)), (Hu3 pp n ltac:(set_solver)), (Hu2 pp n ltac:(set_solver)). done. }
    destruct (last_turn call pp n path data w1 w2 bp' (length data) np l h4 0 Hc2 Ho4 Hp4) as (h5 & Hrun & Ho5 & Hu5 & Hw5 & Hr5); [congruence|done|].
    rewrite Hrun. split_and!; [done|done| |by right|cbn [snd]; congruence]. cbn [snd].
    intros q k Hin. rewrite (Hu5 q k Hin), (Hu4 q k ltac:(set_solver)), (Hu3 q k ltac:(set_solver)), (Hu2 q k Hin). apply Hu1. set_solver.
  - destruct (last_turn call pp n path data w w1 bp size np l h1 1 Hc1 Ho1 Hp1) as (h2 & Hrun & Ho2 & Hu2 & Hw2 & Hr2); [congruence|done|].
    rewrite Hrun. split_and!; [done|done| |by left|cbn [snd]; congruence]. cbn [snd].
    intros q k Hin. rewrite (Hu2 q k Hin). apply Hu1. set_solver.
Qed.

(** ** The two calls that use the loop *)

Definition names_a_file (path : jstr) : Prop := Utf8.code_units path = true /\ Utf8.well_formed path = true /\ head path <> Some 65279%N.

Lemma path_read path pp n l h : names_a_file path -> owns l h -> (pp, n) ∈ l -> bytes_at pp n (memory h) = Utf8.encode path ->
  readPath (i32 pp) (i32 n) h = (Ok path, h).
Proof.
  intros (Hc & Hw & Hb) Ho Hin Hp. unfold readPath, gets. rewrite (view_block l h pp n Ho Hin), Hp. by rewrite Utf8.decode_encode.
Qed.

Lemma guard_at m m' (h : state) : m h = m' h -> guard m h = guard m' h.
Proof. intros E. unfold guard, try_catch, mbind, M_bind. by rewrite E. Qed.

(** A guarded call that names a file, reads it and reports the data. *)
Lemma read_reported (read : jstr -> M state (list N)) path data pp n w w' bp cap np l h :
  names_a_file path -> owns ((bp, cap) :: (np, 4) :: (pp, n) :: l) h -> bytes_at pp n (memory h) = Utf8.encode path ->
  read path h = (Ok data, mkHost (heap h) w' (reported h)) -> backend h = w -> (Z.of_nat (length data) < 2147483648)%Z ->
  exists h', guard (path ← readPath (i32 pp) (i32 n); data ← read path; answer_sized data (i32 bp) (i32 cap) (i32 np)) h = (Ok 0%Z, h') /\
    owns ((bp, cap) :: (np, 4) :: (pp, n) :: l) h' /\ unchanged ((pp, n) :: l) h h' /\ backend h' = w' /\ reported h' = reported h /\
    Z.to_nat (le_value (bytes_at np 4 (memory h'))) = length data /\ (length data <= cap -> bytes_at bp (length data) (memory h') = data) /\
    later (heap h) (heap h').
Proof.
  intros Hpath Ho Hp Hread Hw Hd. destruct (sized_spec (read path) data bp cap np _ h w' Ho Hread Hd) as (h' & Hrun & Hrest).
  exists h'. split; [|exact Hrest]. rewrite <- Hrun. apply guard_at.
  by rewrite (M_bind_ok _ _ _ _ _ (path_read path pp n _ h Hpath Ho ltac:(set_solver) Hp)).
Qed.

Lemma attributes_reported path data pp n w w' : names_a_file path -> readAttrs path w = (Ok data, w') -> (Z.of_nat (length data) < 2147483648)%Z ->
  reports (fun b c d => ReadAttrs (i32 pp) (i32 n) b c d) pp n (Utf8.encode path) data w w'.
Proof.
  intros Hpath Hread Hd bp cap np l h Ho Hp Hw.
  apply (read_reported (fun path => on_backend (readAttrs path)) path data pp n w w' bp cap np l h Hpath Ho Hp); [|done|done].
  unfold on_backend. by rewrite Hw, Hread.
Qed.

Lemma names_reported path names pp n w w' : names_a_file path -> readDir path w = (Ok names, w') -> (Z.of_nat (length (encodeNames names)) < 2147483648)%Z ->
  reports (fun b c d => ReadDir (i32 pp) (i32 n) b c d) pp n (Utf8.encode path) (encodeNames names) w w'.
Proof.
  intros Hpath Hread Hd bp cap np l h Ho Hp Hw.
  destruct (read_reported (fun path => names ← on_backend (readDir path); mret (encodeNames names)) path (encodeNames names) pp n w w' bp cap np l h Hpath Ho Hp) as (h' & Hrun & Hrest);
    [|done|done|].
  { unfold on_backend, mbind, M_bind. by rewrite Hw, Hread. }
  exists h'. split; [|exact Hrest]. rewrite <- Hrun. apply guard_at. cbn [action].
  unfold mbind, M_bind. destruct (readPath _ _ _) as [[a|e] h1]; [|done]. by destruct (on_backend _ _) as [[b|e] h2].
Qed.

(** Names as the engine takes them: Unicode text, not empty, without a NUL. *)
Definition plain_name (name : jstr) : Prop := name <> [] /\ Utf8.code_units name = true /\ Utf8.well_formed name = true /\ 0%N ∉ name.

Lemma code_point_zero s : 0%N ∈ Utf8.code_points s -> 0%N ∈ s.
Proof.
  induction s as [|c|a b r IH1 IH2] using Utf8.jstr_ind2; [done|done|]. rewrite Utf8.code_points_cons2.
  destruct (Utf8.is_high a && Utf8.is_low b) eqn:E; intros [Hz|Hz]%elem_of_cons.
  - unfold Utf8.combine in Hz. lia.
  - do 2 right. by apply IH1.
  - rewrite Hz. by left.
  - right. by apply IH2.
Qed.

Lemma encode_zero s : 0%N ∉ s -> 0%N ∉ Utf8.encode s.
Proof.
  intros Hs Hin. apply Hs, code_point_zero. unfold Utf8.encode in Hin. apply list_elem_of_In, in_flat_map in Hin as (cp & Hcp & Hb).
  apply list_elem_of_In in Hcp, Hb. enough (cp = 0%N) as -> by done.
  destruct (Utf8.is_surrogate cp); unfold Utf8.utf8_bytes in Hb.
  - vm_compute in Hb. set_solver.
  - repeat case_match; rewrite ?elem_of_cons, ?elem_of_nil in Hb; intuition lia.
Qed.

Lemma split_names_encodeNames names : Forall plain_name names -> split_names (encodeNames names) = Some names.
Proof.
  intros Hn. unfold split_names. induction Hn as [|name names (Hne & Hu & Hw & Hz) Hn IH]; [done|]. cbn [encodeNames flat_map].
  assert (Utf8.encode (name ++ [0%N]) = Utf8.encode name ++ [0%N]) as ->.
  { unfold Utf8.encode. by rewrite Utf8.code_points_app, flat_map_app by done. }
  rewrite <- app_assoc. cbn [app]. rewrite split_on_app by (by apply encode_zero). fold (encodeNames names).
  pose proof (Utf8.decode_from_encode name Hu Hw) as Hd. rewrite filter_cons_True.
  - assert (from_utf8 (Utf8.encode name) = Some name) as Hf by (unfold from_utf8; rewrite Hd; by rewrite bool_decide_true).
    cbn [mapM]. rewrite Hf. cbn. by rewrite IH.
  - intros E. rewrite E in Hd. by destruct name.
Qed.

(** C30: the engine reads the attributes the backend holds: with a path, the local and whatever
    else it owns in memory, and room in the allocator for a buffer of the first size and one of
    the data's, two rounds of its loop are enough whatever the size below two gigabytes; nothing
    else it owns changes and the buffers are freed. *)
Theorem attributes_reach_the_engine path data w w1 w2 pp n np l (h : state) :
  names_a_file path -> readAttrs path w = (Ok data, w1) -> readAttrs path w1 = (Ok data, w2) -> (Z.of_nat (length data) < 2147483648)%Z ->
  owns ((np, 4) :: (pp, n) :: l) h -> bytes_at pp n (memory h) = Utf8.encode path -> backend h = w ->
  room 2 (Nat.max 4096 (length data)) (heap h) ->
  read_gave data np ((pp, n) :: l) h w1 w2 (host_read_attrs 2 pp n np h).
Proof.
  intros Hpath H1 H2 Hd Ho Hp Hw Hroom.
  apply (read_sized_reads _ pp n (Utf8.encode path) data w w1 w2 np l h); [by apply attributes_reported..|done|done|done|done|done].
Qed.

(** The engine lists the names the backend lists: NUL-terminated UTF-8 on the host's side,
    split and read back on the engine's, give the same names in the same order, in two rounds
    of the loop at most. *)
Theorem names_reach_the_engine path names w w1 w2 pp n np l (h : state) :
  names_a_file path -> Forall plain_name names -> readDir path w = (Ok names, w1) -> readDir path w1 = (Ok names, w2) ->
  (Z.of_nat (length (encodeNames names)) < 2147483648)%Z ->
  owns ((np, 4) :: (pp, n) :: l) h -> bytes_at pp n (memory h) = Utf8.encode path -> backend h = w ->
  room 2 (Nat.max 4096 (length (encodeNames names))) (heap h) ->
  exists h', read_dir 2 pp n np h = (Ok (Some (inl names)), h') /\ owns ((np, 4) :: (pp, n) :: l) h' /\ (backend h' = w1 \/ backend h' = w2).
Proof.
  intros Hpath Hnames H1 H2 Hd Ho Hp Hw Hroom.
  destruct (read_sized_reads _ pp n (Utf8.encode path) (encodeNames names) w w1 w2 np l h (names_reported path names pp n w w1 Hpath H1 Hd)
    (names_reported path names pp n w1 w2 Hpath H2 Hd) Hd Ho Hp Hw Hroom) as (Hf & Ho' & _ & Hb & _).
  unfold read_dir. destruct (read_sized _ _ _ h) as [r h'] eqn:Hr. cbn [fst snd] in *. subst r. exists h'.
  rewrite (M_bind_ok _ _ _ _ _ Hr). cbn. by rewrite split_names_encodeNames.
Qed.

End Imports.

(** ** At a concrete input *)

Module Toy.
#[local] Existing Instance Bump.bump.

(** A read-only backend: one directory of two names, each file with five thousand bytes of
    attributes; what would change it fails. *)
Definition denied : js_error := {| err_name := js "Error"; err_message := js "denied"; err_code := Some (js "EIO") |}.
Definition names : list jstr := [js "a.txt"; js "b.txt"].
Definition manifest : list N := replicate 5000 120%N.
#[export] Instance toy : HostBackend () := {|
  open := fun _ _ => throw denied; close := fun _ => mret (); readAt := fun _ _ _ => mret []; writeAt := fun _ _ _ => throw denied;
  truncate := fun _ _ => throw denied; flush := fun _ => mret (); stat := fun _ => mret (BridgeFs.mkEntry 1 0 0); mkdir := fun _ _ => throw denied;
  unlink := fun _ => throw denied; rmdir := fun _ _ => throw denied; rename := fun _ _ => throw denied; readDir := fun _ => mret names;
  readAttrs := fun _ => mret manifest; writeAttrs := fun _ _ => throw denied; random := fun n => mret (replicate n 4%N); nowUnixMs := mret 0%Z;
  log := fun _ => mret () |}.

Definition path : jstr := js "docs".
Definition start (limit : nat) : host Bump.allocator () :=
  mkHost (Bump.mkAllocator 28 limit [(20, 4); (24, 4)], replicate 24 0%N ++ js "docs") () [].
Definition ready : host Bump.allocator () := start (200 * 1000).

Lemma start_owns limit : (Z.of_nat limit <= 4294967296)%Z -> owns [(20, 4); (24, 4)] (start limit).
Proof.
  intros Hl. split; [|done|repeat constructor; cbn; lia]. split; cbn; [lia|lia|repeat constructor; cbn; lia|].
  all: repeat constructor; left; cbn; lia.
Qed.
Lemma ready_owns : owns [(20, 4); (24, 4)] ready.
Proof. apply start_owns. lia. Qed.
Lemma path_names : names_a_file path.
Proof. done. Qed.
Lemma names_plain : Forall plain_name names.
Proof. repeat constructor; try done; set_solver. Qed.

Lemma ready_room B : B <= 5000 -> room 2 B (heap ready).
Proof. intros HB. apply Bump.room_bump; unfold ready, start; cbn [heap fst Bump.top Bump.limit]; lia. Qed.
Lemma manifest_length : length manifest = 5000.
Proof. apply length_replicate. Qed.

Example attributes_reach_the_engine_witness : read_gave manifest 20 [(24, 4)] ready () () (host_read_attrs 2 24 4 20 ready).
Proof.
  apply (attributes_reach_the_engine path manifest () () () 24 4 20 [] ready path_names);
    [reflexivity|reflexivity|by rewrite manifest_length|apply ready_owns|reflexivity|reflexivity|].
  apply ready_room. rewrite manifest_length. lia.
Defined.

Example names_reach_the_engine_witness :
  exists h', read_dir 2 24 4 20 ready = (Ok (Some (inl names)), h') /\ owns [(20, 4); (24, 4)] h' /\ (backend h' = () \/ backend h' = ()).
Proof.
  apply (names_reach_the_engine path names () () () 24 4 20 [] ready path_names names_plain);
    [reflexivity|reflexivity|done|apply ready_owns|reflexivity|reflexivity|].
  apply ready_room. vm_compute. lia.
Defined.

(** Two rounds read five thousand bytes here, and one does not. *)
Example two_rounds : fst (host_read_attrs 2 24 4 20 ready) = Ok (Some (inl manifest)) /\ fst (host_read_attrs 1 24 4 20 ready) = Ok None.
Proof. split; vm_compute; reflexivity. Qed.

End Toy.
End HostVfs.
