(* ===== verification/Find.v ===== *)
(** Finding documents: [findDocs] of [src/browser/core/engine.js] through the planner of
    [src/browser/core/query.js] and the prefix index, against the store of [Lifecycle]: a
    query answers with the active documents that match it. *)

From stdpp Require Import gmap.
From S2P Require Import Prelude PathUtil JsNum JsValue Utf8 Json Shard Ttid Codec Filesystem MemFs MemFsLaws.
From S2P Require Import PrefixIndex IndexSearch IndexComplete IndexKeys IndexStore IndexQuery Query Documents Metadata Events Engine Buckets Lifecycle.

Module Find.
Import Codec Documents Engine Buckets Lifecycle.

(** ** Field paths *)

(** The names a field path is made of, by dots or slashes. *)
Definition names_of (field : jstr) : list jstr := split_on Query.c_dot (replace_char Query.c_slash [Query.c_dot] field).

(** The value those names lead to, through objects. *)
Fixpoint follow (v : value) (names : list jstr) : option value :=
  match names with
  | [] => Some v
  | n :: names => match v with VObj o => v' ← alist_get n o; follow v' names | _ => None end
  end.

Definition scalar (v : value) : bool := match v with VArr _ | VObj _ => false | _ => true end.

Lemma follow_value doc field v : follow doc (names_of field) = Some v -> Query.getValueByPath doc field = v.
Proof.
  unfold Query.getValueByPath. fold (names_of field). generalize (names_of field) doc. clear doc field.
  intros names. induction names as [|n names IH]; intros doc; cbn [follow fold_left]; [by intros [= ->]|].
  destruct doc as [| | | | | |o]; try done. cbn [Query.own]. destruct (alist_get n o) as [v'|]; [|done]. apply IH.
Qed.

Lemma leaves_field p o n v' x : alist_get n o = Some v' -> x ∈ Complete.leaves (child_path p n) v' -> x ∈ Complete.leaves p (VObj o).
Proof.
  intros Ho Hx. cbn [Complete.leaves]. induction o as [|[k w] o IH]; [done|]. cbn [alist_get] in Ho. apply elem_of_app.
  destruct (decide (k = n)) as [->|Hne].
  - left. rewrite ?decide_True in Ho by done. injection Ho as ->. exact Hx.
  - right. apply IH. rewrite ?decide_False in Ho by done. exact Ho.
Qed.

(** A value the names lead to is a leaf under their path, and so is an item of an array. *)
Lemma follow_leaf names p doc v raw : follow doc names = Some v ->
  (fold_left child_path names p, raw) ∈ Complete.leaves (fold_left child_path names p) v ->
  (fold_left child_path names p, raw) ∈ Complete.leaves p doc.
Proof.
  revert p doc. induction names as [|n names IH]; intros p doc; cbn [follow fold_left]; [by intros [= ->]|].
  destruct doc as [| | | | | |o]; try done. destruct (alist_get n o) as [v'|] eqn:Ho; [|done]. intros Hf Hin.
  eapply leaves_field; [exact Ho|]. by apply IH.
Qed.

Lemma child_path_join names p : p <> [] -> Forall (fun n => n <> []) names ->
  fold_left child_path names p = join_with [Query.c_slash] (p :: names).
Proof.
  intros Hp Hn. revert p Hp. induction Hn as [|n names Hne _ IH]; intros p Hp; [done|]. cbn [fold_left].
  unfold child_path at 2. rewrite bool_decide_false by done. rewrite IH by (by destruct p).
  destruct names as [|m names].
  - cbn [join_with]. done.
  - rewrite !join_with_cons by done. change (js "/") with [Query.c_slash]. by rewrite <- !app_assoc.
Qed.

Lemma replaced_twice field : replace_char Query.c_dot [Query.c_slash] (replace_char Query.c_slash [Query.c_dot] field) = Query.normalizeFieldPath field.
Proof.
  unfold Query.normalizeFieldPath, replace_char. induction field as [|x field IH]; [done|]. cbn [flat_map].
  rewrite flat_map_app, IH. destruct (N.eqb_spec x Query.c_slash) as [->|Hne]; [done|]. cbn [flat_map]. by rewrite app_nil_r.
Qed.

Lemma replace_joined c d l : Forall (fun a => c ∉ a) l -> replace_char c [d] (join_with [c] l) = join_with [d] l.
Proof.
  assert (forall a, c ∉ a -> replace_char c [d] a = a) as Hid.
  { induction a as [|x a IH]; [done|]. intros [Hx Ha]%not_elem_of_cons. unfold replace_char in *. cbn [flat_map].
    rewrite (proj2 (N.eqb_neq x c)) by congruence. cbn [app]. by rewrite IH. }
  intros Hl. induction Hl as [|a l Ha Hl IH]; [done|]. destruct l as [|b l]; [by apply Hid|].
  rewrite !join_with_cons by done. unfold replace_char in *. rewrite !flat_map_app, IH, Hid by done. cbn [flat_map]. by rewrite N.eqb_refl.
Qed.

Lemma normalize_names field : Query.normalizeFieldPath field = join_with [Query.c_slash] (names_of field).
Proof.
  rewrite <- replaced_twice. unfold names_of. set (s := replace_char Query.c_slash [Query.c_dot] field).
  rewrite <- (join_split Query.c_dot s) at 1. apply replace_joined. apply Forall_forall. intros a Ha. by eapply split_on_elem.
Qed.

Lemma names_path field : Forall (fun n => n <> []) (names_of field) -> fold_left child_path (names_of field) [] = Query.normalizeFieldPath field.
Proof.
  intros Hn. rewrite normalize_names. pose proof (split_on_nonempty Query.c_dot (replace_char Query.c_slash [Query.c_dot] field)) as Hne.
  unfold names_of in *. destruct (split_on _ _) as [|n names]; [done|]. inversion_clear Hn as [|? ? Hn1 Hn2]. cbn [fold_left].
  unfold child_path at 2. rewrite bool_decide_true by done. by apply child_path_join.
Qed.

(** ** What the index serves *)

(** The operators the planner asks the index about, each alone. *)
Definition INDEXED : list jstr := map js ["$eq"; "$gt"; "$gte"; "$lt"; "$lte"; "$like"; "$contains"]%string.

(** The value [v] and the operand's [bound] agree as the index compares them: equal texts
    for equality, ordinary numbers for a range, a short string without a percent sign for a
    pattern without a slash. *)
Definition served (key : jstr) (bound v : value) : Prop :=
  if jeqb key (js "$eq") then scalar v = true /\ to_str bound = to_str v
  else if jeqb key (js "$contains") then exists items item, v = VArr items /\ item ∈ items /\ to_str bound = to_str item
  else if jeqb key (js "$like") then
    exists s pattern, v = VStr s /\ bound = VStr pattern /\ 37%N ∉ s /\ Complete.indexed_string s /\ 47%N ∉ pattern /\ Utf8.well_formed pattern = true
  else scalar v = true /\ Complete.ordinary (to_num v) /\ Complete.ordinary (to_num bound).

Lemma matches_key v operand key : Query.matchesOperand v operand = true -> forall p, (key, p) ∈ Query.predicates v ->
  prop operand key <> VUndef -> p (prop operand key) = true.
Proof.
  unfold Query.matchesOperand. rewrite forallb_forall. intros Hm p Hin Hne. specialize (Hm (key, p) (proj1 (list_elem_of_In _ _) Hin)).
  cbn [fst snd] in Hm. apply orb_true_iff in Hm as [Hm|Hm]; [|done]. by destruct (prop operand key).
Qed.

Lemma prop_one key bound : prop (VObj [(key, bound)]) key = bound.
Proof. cbn [prop alist_get]. by rewrite decide_True. Qed.

Lemma prop_one_inv key bound name : prop (VObj [(key, bound)]) name <> VUndef -> name = key.
Proof. cbn [prop alist_get]. by case_decide. Qed.

#[local] Instance range_op_dec : EqDecision range_op.
Proof. solve_decision. Defined.

Lemma range_op_unique key a b : (key, a) ∈ range_ops -> (key, b) ∈ range_ops -> a = b.
Proof.
  intros Ha Hb. assert (Forall (fun x => Forall (fun y => fst x = fst y -> x = y) range_ops) range_ops) as Hall
    by (apply (bool_decide_unpack _); vm_compute; exact I).
  rewrite Forall_forall in Hall. specialize (Hall _ Hb). rewrite Forall_forall in Hall. by injection (Hall _ Ha eq_refl).
Qed.

Lemma served_holds doc field operand key v : Forall (fun n => n <> []) (names_of field) -> key ∈ INDEXED -> prop operand key <> VUndef ->
  follow doc (names_of field) = Some v -> Query.matchesOperand v operand = true -> served key (prop operand key) v ->
  exists raw, (Query.normalizeFieldPath field, raw) ∈ Complete.leaves [] doc /\ Complete.operand_holds raw (VObj [(key, prop operand key)]).
Proof.
  intros Hn Hkey Hne Hf Hm Hs. set (bound := prop operand key) in *.
  assert (scalar v = true -> (Query.normalizeFieldPath field, v) ∈ Complete.leaves [] doc) as Hscalar.
  { intros Hsc. rewrite <- (names_path field Hn). eapply follow_leaf; [exact Hf|]. destruct v; try done; by left. }
  unfold INDEXED in Hkey. cbn [map] in Hkey.
  assert (forall op, (key, op) ∈ range_ops -> scalar v = true /\ Complete.ordinary (to_num v) /\ Complete.ordinary (to_num bound) ->
    Complete.compares op (to_num v) (to_num bound) = true ->
    exists raw, (Query.normalizeFieldPath field, raw) ∈ Complete.leaves [] doc /\ Complete.range_holds raw (VObj [(key, bound)])) as Hrange.
  { intros op Hop (Hsc & Hv & Hb) Hc. exists v. split; [by apply Hscalar|]. split; [done|]. intros name op' Hop' Hp.
    assert (name = key) as ->.
    { revert Hp. cbn [prop alist_get]. destruct (decide (key = name)) as [->|]; [done|]. by destruct (decide (name = key)). }
    rewrite prop_one. split; [done|]. assert (op' = op) as ->; [|done].
    by apply (range_op_unique key). }
  pose proof (fun p => matches_key v operand key Hm p) as Hp. fold bound in Hp. unfold Query.predicates in Hp.
  repeat (apply elem_of_cons in Hkey as [->|Hkey]; [|]); [..|by apply elem_of_nil in Hkey].
  - destruct Hs as [Hsc Heq]. exists v. split; [by apply Hscalar|]. unfold Complete.operand_holds. rewrite prop_one. by destruct bound.
  - destruct (Hrange Gt ltac:(by left) Hs) as (raw & Hl & Hr); [by apply (Hp (Query.matchesNumber v Gt)); [set_solver|]|]. by exists raw.
  - destruct (Hrange Gte ltac:(set_solver) Hs) as (raw & Hl & Hr); [by apply (Hp (Query.matchesNumber v Gte)); [set_solver|]|]. by exists raw.
  - destruct (Hrange Lt ltac:(set_solver) Hs) as (raw & Hl & Hr); [by apply (Hp (Query.matchesNumber v Lt)); [set_solver|]|]. by exists raw.
  - destruct (Hrange Lte ltac:(set_solver) Hs) as (raw & Hl & Hr); [by apply (Hp (Query.matchesNumber v Lte)); [set_solver|]|]. by exists raw.
  - destruct Hs as (s & pattern & -> & Hb & Hs37 & Hi & H47 & Hw). exists (VStr s). split; [by apply Hscalar|].
    unfold Complete.operand_holds. rewrite prop_one.
    assert (Query.matchesLike s pattern = true) as Hlike.
    { specialize (Hp (fun expected => match expected with VStr pattern => Query.matchesLike s pattern | _ => false end)). rewrite Hb in Hp. apply Hp; [|done]. do 6 right. by left. }
    cbn. rewrite Hb. exists s. by split_and!.
  - destruct Hs as (items & item & -> & Hin & Heq). exists item. split.
    + rewrite <- (names_path field Hn). eapply follow_leaf; [exact Hf|]. cbn [Complete.leaves]. apply list_elem_of_In, in_map_iff. exists item. split; [done|by apply list_elem_of_In].
    + unfold Complete.operand_holds. rewrite prop_one. cbn. by destruct bound.
Qed.

(** Asked about equality or containment, the planner always has a plan. *)
Lemma eq_planned sha256Hex key bound plan : key = js "$eq" \/ key = js "$contains" -> bound <> VUndef ->
  queryPrefixes sha256Hex (VObj [(key, bound)]) = Ok plan -> is_Some plan.
Proof.
  intros Hkey Hb. assert (eq_prefix sha256Hex bound = Ok plan -> is_Some plan) as He.
  { unfold eq_prefix. destruct (queryLookupValue _ _); [|done]. cbn [mbind outcome_bind]. intros E. apply Ok_inj in E as <-. by eexists. }
  unfold queryPrefixes. destruct Hkey as [->| ->]; rewrite prop_one; [by destruct bound|].
  assert (prop (VObj [(js "$contains", bound)]) (js "$eq") = VUndef) as -> by done. by destruct bound.
Qed.

Lemma planned_nonempty sha256Hex operand es : queryPrefixes sha256Hex operand = Ok (Some es) -> es <> [].
Proof.
  assert (forall (m : outcome jstr) k (g : jstr -> jstr), (token ← m; Ok (Some [QueryPrefix k (g token) None])) = Ok (Some es) -> es <> []) as Hone
    by (intros m k g; destruct m; cbn [mbind outcome_bind]; [by intros [= <-]|done]).
  assert (forall v, eq_prefix sha256Hex v = Ok (Some es) -> es <> []) as Heq
    by (intros v; apply (Hone _ (js "eq") (fun token => token ++ js "/"))).
  unfold queryPrefixes. destruct (negb _); [apply Heq|]. destruct (negb _); [apply Heq|].
  destruct (prop operand (js "$like")) as [| | | |pattern| |]; try done.
  - intros E. apply Ok_inj in E. revert E. unfold rangeQueryPrefixes. destruct (range_entries operand range_ops) as [[|e l]|]; [done|by intros [= <-]|done].
  - unfold likeQueryPrefixes. destruct (includes_char 95 pattern); [done|]. destruct (_ =? 0); [apply (Hone _ (js "eq") (fun token => token ++ js "/"))|].
    destruct (_ && _); [apply (Hone _ (js "f") (fun token => token))|]. destruct (_ && _); [apply (Hone _ (js "r") (fun token => token))|].
    unfold containsQueryPrefixes. destruct (_ || _); [done|]. destruct (_ <=? 2); [done|]. destruct (_ <? NGRAM_SIZE); [done|].
    apply (Hone _ (js "g3") (fun token => token ++ js "/")).
Qed.

(** ** Over a core *)

Section Core.
  Context (rr : path) (c : jstr).
  Hypothesis rr_clean : Forall Path.clean rr.
  Hypothesis c_valid : Collection.valid_name c.
  Context {D : Type} `{FilesystemLaws D, Performance D}.
  Context (sha256Hex : jstr -> jstr) (scanners : option PrefixIndex.scanner_factory).
  Hypothesis sha256_uri : forall s, forallb Utf8.uri_char (sha256Hex s) = true.
  Hypothesis honest : forall factory, scanners = Some factory -> Answers.scanner_honest factory.

Abbreviation root := (root_path rr).
Abbreviation represents := (Lifecycle.represents rr c sha256Hex).
#[local] Hint Extern 0 (Query.BrowserPrefixIndexLike _) => exact (Engine.core_candidates sha256Hex scanners root) : typeclass_instances.
Abbreviation candidates := (Engine.core_candidates sha256Hex scanners root).

(** Candidates for the documents of which [P] holds: identifiers of documents, none of
    those missing; [None] stands for all. *)
Definition finds (st : store) (P : object -> Prop) (r : option (list jstr)) : Prop :=
  match r with
  | None => True
  | Some l => (forall id, id ∈ l -> is_Some (active st !! id)) /\ forall id o, active st !! id = Some o -> P o -> id ∈ l
  end.

Lemma finds_intersect st P current next : finds st P current -> finds st P (Some next) -> finds st P (Some (Query.intersectDocIds current next)).
Proof.
  destruct current as [l|]; [|done]. intros [Hl1 Hl2] [Hn1 Hn2]. split; cbn [Query.intersectDocIds].
  - intros id [_ Hin]%list_elem_of_filter. by apply Hl1.
  - intros id o Ho HP. apply list_elem_of_filter. split; [by eapply Hn2|by eapply Hl2].
Qed.

(** One question to the index. *)
Lemma ask_spec s st (P : object -> Prop) field operand key plan : represents s st -> key ∈ INDEXED -> prop operand key <> VUndef ->
  Forall (fun n => n <> []) (names_of field) -> is_ok (encodeFieldPath (Query.normalizeFieldPath field)) = true ->
  queryPrefixes sha256Hex (VObj [(key, prop operand key)]) = Ok plan ->
  (forall id o, active st !! id = Some o -> P o -> exists v, follow (VObj o) (names_of field) = Some v /\
     Query.matchesOperand v operand = true /\ served key (prop operand key) v) ->
  exists r s', candidates c (Query.normalizeFieldPath field) (VObj [(key, prop operand key)]) s = (Ok r, s') /\
    represents s' st /\ core_bus s' = core_bus s /\ finds st P r /\ (is_Some plan -> is_Some r).
Proof.
  intros Hr Hkey Hne Hn He Hplan HP. destruct (encodeFieldPath _) as [path|] eqn:Ep; [|done].
  unfold candidates. destruct plan as [es|].
  - pose proof (planned_nonempty _ _ _ Hplan) as Hes.
    destruct (Answers.candidateDocIds_spec sha256Hex (collectionRoot root) scanners c (home rr c) (collectionRoot_eq rr c rr_clean c_valid)
                (home_clean rr c rr_clean c_valid) honest (core_index s) (active st) _ path _ es (tied_index _ _ _ _ _ _ Hr) Hplan Hes Ep)
      as (ids & i & Hrun & Hi & Hsame & Hids).
    exists (Some ids), (mkCore i (core_bus s)). split; [by apply on_index_ok|]. split; [|split; [done|split; [split|by eexists]]].
    + apply (tied_indexed rr c rr_clean c_valid sha256Hex s st (active st)); [exact Hr|exact Hi|by apply Store.same_tree_outside].
    + intros id (doc & ks & Hd & _)%Hids. by eexists.
    + intros id o Ho HPo. apply Hids. destruct (Store.indexes_docs c (home rr c) sha256Hex _ _ id o (tied_index _ _ _ _ _ _ Hr) Ho) as [ks Hks].
      exists o, ks. split_and!; [done|done|]. destruct (HP id o Ho HPo) as (v & Hf & Hm & Hs).
      destruct (served_holds (VObj o) field operand key v Hn Hkey Hne Hf Hm Hs) as (raw & Hl & Hop).
      eapply Complete.operand_hit; [|exact Hop|exact Hplan]. eapply Complete.entries_keys; [|exact Hl]. by destruct Hks as (_ & ? & _).
  - exists None, s. split; [|split_and!; [done|done|done|by intros []]].
    unfold Engine.core_candidates, on_index, PrefixIndex.candidateDocIds. rewrite Hplan. by destruct s.
Qed.

(** What has to hold of one field of an operation, for the documents of which [P] holds. *)
Record asked (st : store) (P : object -> Prop) (field : jstr) (operand : value) : Prop := {
  asked_names : Forall (fun n => n <> []) (names_of field);
  asked_path : is_ok (encodeFieldPath (Query.normalizeFieldPath field)) = true;
  asked_plan key : key ∈ INDEXED -> prop operand key <> VUndef -> is_ok (queryPrefixes sha256Hex (VObj [(key, prop operand key)])) = true;
  asked_served id o : active st !! id = Some o -> P o -> exists v, follow (VObj o) (names_of field) = Some v /\
    Query.matchesOperand v operand = true /\
    forall key, key ∈ INDEXED -> prop operand key <> VUndef -> served key (prop operand key) v
}.

(** A step of the planner: it changes no document and ends with candidates for [P]. *)
Definition planned (st : store) (P : object -> Prop) (s : core D) (m : M (core D) (option (list jstr))) : Prop :=
  exists r s', m s = (Ok r, s') /\ represents s' st /\ core_bus s' = core_bus s /\ finds st P r.

Lemma ask st P field operand key s : asked st P field operand -> represents s st -> key ∈ INDEXED -> prop operand key <> VUndef ->
  exists r s', candidates c (Query.normalizeFieldPath field) (VObj [(key, prop operand key)]) s = (Ok r, s') /\
    represents s' st /\ core_bus s' = core_bus s /\ finds st P r /\ (key = js "$eq" \/ key = js "$contains" -> is_Some r).
Proof.
  intros [Hn He Hplan Hserved] Hr Hkey Hne. specialize (Hplan key Hkey Hne).
  destruct (queryPrefixes _ _) as [plan|] eqn:Ep; [|done].
  destruct (ask_spec s st P field operand key plan Hr Hkey Hne Hn He Ep) as (r & s' & Hrun & Hr' & Hb & Hf & Hs).
  { intros id o Ho HP. destruct (Hserved id o Ho HP) as (v & Hv & Hm & Hk). exists v. auto. }
  exists r, s'. split_and!; try done. intros Hwhich. apply Hs. by eapply eq_planned.
Qed.

Lemma undef_or v : v = VUndef \/ v <> VUndef.
Proof. destruct v; [by left|by right..]. Qed.

Lemma with_ranges_spec st P field operand keys current s rest : asked st P field operand -> keys ⊆ Query.range_keys ->
  represents s st -> finds st P current ->
  (forall current s1, represents s1 st -> core_bus s1 = core_bus s -> finds st P current -> planned st P s1 (rest current)) ->
  planned st P s (Query.with_ranges c (Query.normalizeFieldPath field) operand keys current rest).
Proof.
  intros Ha Hk Hr Hf Hrest. assert (core_bus s = core_bus s) as Hbus by done. revert Hbus Hr. generalize s at 1 3 4. intros s1 Hbus Hr.
  revert current s1 Hbus Hr Hf. induction keys as [|key keys IH]; intros current s1 Hbus Hr Hf; cbn [Query.with_ranges]; [by apply Hrest|].
  assert (key ∈ INDEXED) as Hkey.
  { assert (key ∈ Query.range_keys) as Hin by (apply Hk; by left). revert Hin. unfold Query.range_keys, INDEXED. set_solver. }
  specialize (IH (fun k Hin => Hk k (list_elem_of_further _ _ _ Hin))).
  destruct (undef_or (prop operand key)) as [E|Hne]; [rewrite E; by apply IH|].
  destruct (ask st P field operand key s1 Ha Hr Hkey Hne) as (r & s2 & Hrun & Hr2 & Hb2 & Hf2 & _).
  assert (planned st P s1 (rangeCandidates ← Query.candidateDocIds c (Query.normalizeFieldPath field) (VObj [(key, prop operand key)]);
    match rangeCandidates with
    | None => mret None
    | Some next => Query.with_ranges c (Query.normalizeFieldPath field) operand keys (Some (Query.intersectDocIds current next)) rest
    end)) as Hgoal.
  { unfold planned. rewrite (M_bind_ok _ _ _ _ _ Hrun). destruct r as [next|]; [|by exists None, s2].
    destruct (IH (Some (Query.intersectDocIds current next)) s2) as (r & s3 & Hrun3 & Hr3 & Hb3 & Hf3); [congruence|done|by apply finds_intersect|].
    exists r, s3. split_and!; [done|done|congruence|done]. }
  destruct (prop operand key); done.
Qed.

Lemma operand_planned st P field operand s : asked st P field operand -> represents s st ->
  planned st P s (Query.candidateDocIdsForOperand c (Query.normalizeFieldPath field) operand).
Proof.
  intros Ha Hr. unfold Query.candidateDocIdsForOperand.
  assert (js "$eq" ∈ INDEXED /\ js "$like" ∈ INDEXED /\ js "$contains" ∈ INDEXED) as (Ieq & Ilike & Icontains) by (unfold INDEXED; set_solver).
  (* a question whose answer is always a list *)
  assert (forall key current s, represents s st -> key ∈ INDEXED -> key = js "$eq" \/ key = js "$contains" -> finds st P current -> prop operand key <> VUndef ->
    planned st P s (found ← Query.candidateDocIds c (Query.normalizeFieldPath field) (VObj [(key, prop operand key)]);
                    mret (Some (Query.intersectDocIds current (default [] found))))) as Hlist.
  { intros key current s0 Hr0 Hkey Hwhich Hf Hne. destruct (ask st P field operand key s0 Ha Hr0 Hkey Hne) as (r & s1 & Hrun & Hr1 & Hb1 & Hf1 & Hs1).
    unfold planned. rewrite (M_bind_ok _ _ _ _ _ Hrun). destruct (Hs1 Hwhich) as [next ->]. exists (Some (Query.intersectDocIds current next)), s1.
    split_and!; [done|done|done|by apply finds_intersect]. }
  assert (planned st P s (match prop operand (js "$eq") with
                  | VUndef => mret None
                  | expected =>
                      found ← Query.candidateDocIds c (Query.normalizeFieldPath field) (VObj [(js "$eq", expected)]);
                      mret (Some (Query.intersectDocIds None (default [] found)))
                  end)) as (r1 & s1 & Hrun1 & Hr1 & Hb1 & Hf1).
  { destruct (undef_or (prop operand (js "$eq"))) as [E|Hne]; [rewrite E; by exists None, s|].
    pose proof (Hlist (js "$eq") None s Hr Ieq (or_introl eq_refl) I Hne) as Hp. by destruct (prop operand (js "$eq")). }
  unfold planned. rewrite (M_bind_ok _ _ _ _ _ Hrun1). clear Hrun1.
  assert (forall current s0, represents s0 st -> finds st P current -> planned st P s0
      (match prop operand (js "$contains") with
       | VUndef => mret current
       | expected =>
           found ← Query.candidateDocIds c (Query.normalizeFieldPath field) (VObj [(js "$contains", expected)]);
           mret (Some (Query.intersectDocIds current (default [] found)))
       end)) as Hcontains.
  { intros current s0 Hr0 Hf0. destruct (undef_or (prop operand (js "$contains"))) as [E|Hne]; [rewrite E; by exists current, s0|].
    pose proof (Hlist (js "$contains") current s0 Hr0 Icontains (or_intror eq_refl) Hf0 Hne) as Hp. by destruct (prop operand (js "$contains")). }
  destruct (with_ranges_spec st P field operand Query.range_keys r1 s1
    (fun candidateIds =>
      let contains (candidateIds : option (list jstr)) :=
        match prop operand (js "$contains") with
        | VUndef => mret candidateIds
        | expected =>
            found ← Query.candidateDocIds c (Query.normalizeFieldPath field) (VObj [(js "$contains", expected)]);
            mret (Some (Query.intersectDocIds candidateIds (default [] found)))
        end in
      match prop operand (js "$like") with
      | VUndef => contains candidateIds
      | pattern =>
          likeCandidates ← Query.candidateDocIds c (Query.normalizeFieldPath field) (VObj [(js "$like", pattern)]);
          match likeCandidates with
          | None => mret None
          | Some next => contains (Some (Query.intersectDocIds candidateIds next))
          end
      end) Ha ltac:(done) Hr1 Hf1) as (r & s2 & Hrun2 & Hr2 & Hb2 & Hf2).
  { intros current s2 Hr2 Hb2 Hf2. destruct (undef_or (prop operand (js "$like"))) as [E|Hne]; [rewrite E; by apply Hcontains|].
    destruct (ask st P field operand (js "$like") s2 Ha Hr2 Ilike Hne) as (r & s3 & Hrun3 & Hr3 & Hb3 & Hf3 & _).
    assert (planned st P s2 (likeCandidates ← Query.candidateDocIds c (Query.normalizeFieldPath field) (VObj [(js "$like", prop operand (js "$like"))]);
      match likeCandidates with
      | None => mret None
      | Some next => match prop operand (js "$contains") with
        | VUndef => mret (Some (Query.intersectDocIds current next))
        | expected =>
            found ← Query.candidateDocIds c (Query.normalizeFieldPath field) (VObj [(js "$contains", expected)]);
            mret (Some (Query.intersectDocIds (Some (Query.intersectDocIds current next)) (default [] found)))
        end
      end)) as Hgoal.
    { unfold planned. rewrite (M_bind_ok _ _ _ _ _ Hrun3). destruct r as [next|]; [|by exists None, s3].
      destruct (Hcontains (Some (Query.intersectDocIds current next)) s3 Hr3 ltac:(by apply finds_intersect)) as (r & s4 & Hrun4 & Hr4 & Hb4 & Hf4).
      exists r, s4. split_and!; [done|done|congruence|done]. }
    destruct (prop operand (js "$like")); done. }
  exists r, s2. split_and!; [exact Hrun2|done|congruence|done].
Qed.

(** A document matches the operation as a whole: each of its fields is truthy and matches. *)
Definition fits (operation : value) (o : object) : Prop := Query.matchesOperation (VObj o) operation = true.

Lemma operation_planned st operation s : represents s st ->
  (forall field operand, (field, operand) ∈ entries operation -> truthy operand = true -> asked st (fits operation) field operand) ->
  planned st (fits operation) s (Query.candidateDocIdsForOperation c operation).
Proof.
  intros Hr Ha. unfold Query.candidateDocIdsForOperation.
  assert (finds st (fits operation) None) as Hf by done. revert Hr Hf. generalize (@None (list jstr)) as current.
  assert (core_bus s = core_bus s) as Hbus by done. revert Hbus. generalize s at 1 3 4. intros s1 Hbus current Hr Hf.
  revert current s1 Hbus Hr Hf. induction (entries operation) as [|[field operand] l IH]; intros current s1 Hbus Hr Hf.
  { exists current, s1. by split_and!. }
  specialize (IH (fun f o Hin => Ha f o (list_elem_of_further _ _ _ Hin))).
  assert (forall current s1, core_bus s1 = core_bus s -> represents s1 st -> finds st (fits operation) current ->
    planned st (fits operation) s1 (fold_m (fun candidateIds fo =>
      if negb (truthy (snd fo)) then mret candidateIds
      else
        fieldCandidates ← Query.candidateDocIdsForOperand c (Query.normalizeFieldPath (fst fo)) (snd fo);
        match fieldCandidates with
        | None => mret candidateIds
        | Some next => mret (Some (Query.intersectDocIds candidateIds next))
        end) l current)) as IH' by exact IH. clear IH.
  cbn [fold_m fst snd]. unfold planned. destruct (truthy operand) eqn:Et; cbn [negb].
  - destruct (operand_planned st (fits operation) field operand s1 (Ha field operand ltac:(by left) Et) Hr) as (r & s2 & Hrun & Hr2 & Hb2 & Hf2).
    destruct r as [next|].
    + destruct (IH' (Some (Query.intersectDocIds current next)) s2) as (r & s3 & Hrun3 & Hr3 & Hb3 & Hf3); [congruence|done|by apply finds_intersect|].
      exists r, s3. split_and!; [|done|congruence|done]. erewrite M_bind_ok; [exact Hrun3|]. by rewrite (M_bind_ok _ _ _ _ _ Hrun).
    + destruct (IH' current s2) as (r & s3 & Hrun3 & Hr3 & Hb3 & Hf3); [congruence|done|done|].
      exists r, s3. split_and!; [|done|congruence|done]. erewrite M_bind_ok; [exact Hrun3|]. by rewrite (M_bind_ok _ _ _ _ _ Hrun).
  - destruct (IH' current s1 Hbus Hr Hf) as (r & s3 & Hrun3 & Hr3 & Hb3 & Hf3). exists r, s3. by split_and!.
Qed.

(** The union of the operations. *)
Lemma elem_of_union l more id : id ∈ Query.set_union l more <-> id ∈ l \/ id ∈ more.
Proof.
  unfold Query.set_union. revert l. induction more as [|x more IH]; intros l; cbn [fold_left]; [rewrite elem_of_nil; tauto|].
  rewrite IH, elem_of_cons. case_bool_decide as Hx; [|rewrite elem_of_app, list_elem_of_singleton; tauto].
  split; [tauto|]. intros [?|[->|?]]; auto.
Qed.
Lemma NoDup_union l more : NoDup l -> NoDup (Query.set_union l more).
Proof.
  unfold Query.set_union. revert l. induction more as [|x more IH]; intros l Hl; cbn [fold_left]; [done|]. apply IH.
  case_bool_decide as Hx; [done|]. apply NoDup_app. split_and!; [done| |apply NoDup_singleton].
  intros y Hy ->%list_elem_of_singleton. by apply Hx.
Qed.

(** Everything a query asks of the index is served. *)
Definition query_served (st : store) (query : value) : Prop :=
  forall operation field operand, operation ∈ Query.ops_of query -> (field, operand) ∈ entries operation -> truthy operand = true ->
    asked st (fits operation) field operand.

(** The documents that match the query, whatever their times. *)
Definition wanted (query : value) (o : object) : Prop :=
  match Query.ops_of query with [] => True | ops => exists operation, operation ∈ ops /\ fits operation o end.

Lemma union_planned st ops union s (P : object -> Prop) : represents s st -> NoDup union ->
  (forall operation field operand, operation ∈ ops -> (field, operand) ∈ entries operation -> truthy operand = true -> asked st (fits operation) field operand) ->
  finds st P (Some union) ->
  exists r s', Query.union_candidates c ops union s = (Ok r, s') /\ represents s' st /\ core_bus s' = core_bus s /\
    finds st (fun o => P o \/ exists operation, operation ∈ ops /\ fits operation o) r /\ forall l, r = Some l -> NoDup l.
Proof.
  revert union s P. induction ops as [|operation ops IH]; intros union s P Hr Hnd Ha Hf; cbn [Query.union_candidates].
  { exists (Some union), s. split_and!; [done|done|done| |by intros ? [= <-]]. destruct Hf as [Hf1 Hf2]. split; [done|].
    intros id o Ho [HP|(x & Hx%elem_of_nil & _)]; [by eapply Hf2|done]. }
  destruct (operation_planned st operation s Hr (fun f o => Ha operation f o ltac:(by left))) as (r & s1 & Hrun & Hr1 & Hb1 & Hf1).
  rewrite (M_bind_ok _ _ _ _ _ Hrun). destruct r as [ids|]; [|by exists None, s1].
  destruct (IH (Query.set_union union ids) s1 (fun o => P o \/ fits operation o)) as (r & s2 & Hrun2 & Hr2 & Hb2 & Hf2 & Hn2); [done|by apply NoDup_union| | |].
  { intros x f o Hx. apply (Ha x f o). by right. }
  { destruct Hf as [HfA HfB], Hf1 as [H1A H1B]. split; [intros id [?|?]%elem_of_union; auto|].
    intros id o Ho [HP|HP]; apply elem_of_union; [left; by eapply HfB|right; by eapply H1B]. }
  exists r, s2. split_and!; [done|done|congruence| |done]. destruct r as [l|]; [|done]. destruct Hf2 as [Hf2A Hf2B]. split; [done|].
  intros id o Ho HP. apply (Hf2B id o Ho). destruct HP as [HP|(x & [->|Hx]%elem_of_cons & Hfits)]; [by left; left|by left; right|right; by exists x].
Qed.

Lemma query_planned st query s : represents s st -> query_served st query ->
  exists r s', Query.candidateDocIdsForQuery c query s = (Ok r, s') /\ represents s' st /\ core_bus s' = core_bus s /\
    finds st (wanted query) r /\ forall l, r = Some l -> NoDup l.
Proof.
  intros Hr Ha. unfold Query.candidateDocIdsForQuery, wanted, query_served in *. destruct (Query.ops_of query) as [|operation ops]; [by exists None, s|].
  destruct (union_planned st (operation :: ops) [] s (fun _ => False) Hr (NoDup_nil_2) Ha) as (r & s' & Hrun & Hr' & Hb & Hf & Hn).
  { split; [by intros id ?%elem_of_nil|done]. }
  exists r, s'. split_and!; [done|done|done| |done]. destruct r as [l|]; [|done]. destruct Hf as [Hf1 Hf2]. split; [done|].
  intros id o Ho Hw. apply (Hf2 id o Ho). by right.
Qed.

(** ** Reading the candidates *)

(** No window on the times of creation and update. *)
Definition timeless (query : value) : bool := negb (truthy (prop query (js "$created"))) && negb (truthy (prop query (js "$updated"))).

Lemma matches_wanted query o ts : timeless query = true -> Query.matchesQuery (VObj o) query ts = true <-> wanted query o.
Proof.
  unfold timeless, Query.matchesQuery, Query.matchesTimestamp, wanted, fits. intros ->. cbn [negb].
  destruct (Query.ops_of query) as [|x ops]; [done|]. rewrite existsb_exists. by setoid_rewrite list_elem_of_In.
Qed.

(** What the loop collects from [ids]. *)
Definition chosen (st : store) (query : value) (ids : list jstr) : list (jstr * object) :=
  omap (fun id => o ← active st !! id;
                  if Query.matchesQuery (VObj o) query (Query.Timestamps Num.zero Num.zero) then Some (id, o) else None) ids.

Lemma elem_of_chosen st query ids id o : timeless query = true ->
  (id, o) ∈ chosen st query ids <-> id ∈ ids /\ active st !! id = Some o /\ wanted query o.
Proof.
  intros Ht. unfold chosen. rewrite list_elem_of_omap. split.
  - intros (x & Hx & Hs). destruct (active st !! x) as [o'|] eqn:E; [|done]. cbn [mbind option_bind] in Hs.
    destruct (Query.matchesQuery _ _ _) eqn:Em; [|done]. injection Hs as -> ->. split_and!; [done|done|by eapply matches_wanted].
  - intros (Hin & Ho & Hw). exists id. split; [done|]. rewrite Ho. cbn [mbind option_bind].
    by rewrite (proj2 (matches_wanted query o _ Ht) Hw).
Qed.

Lemma chosen_ids st query ids : NoDup ids -> NoDup (chosen st query ids).*1.
Proof.
  intros Hn. induction Hn as [|id ids Hni Hn IH]; [constructor|]. unfold chosen in *. cbn [omap list_omap].
  assert (forall x, x ∈ (chosen st query ids).*1 -> x ∈ ids) as Hsub.
  { intros x ([x' o] & -> & Hx)%list_elem_of_fmap. unfold chosen in Hx. apply list_elem_of_omap in Hx as (y & Hy & E).
    destruct (active st !! y); [|done]. cbn [mbind option_bind] in E. destruct (Query.matchesQuery _ _ _); [|done]. by injection E as -> _. }
  destruct (active st !! id) as [o|]; cbn [mbind option_bind]; [|exact IH]. destruct (Query.matchesQuery _ _ _); [|exact IH].
  cbn [fmap list_fmap fst]. constructor; [|exact IH]. intros Hin. by apply Hni, Hsub.
Qed.

Lemma collect_spec st query ids results s : timeless query = true -> represents s st -> (forall id, id ∈ ids -> TTID.is_ttid id = true) ->
  exists k, collect_matching root c query ids results s = (Ok (results ++ take k (chosen st query ids)), s) /\
    (length (chosen st query ids) <= k \/ reached (prop query (js "$limit")) (length (results ++ take k (chosen st query ids))) = true) /\
    k <= length (chosen st query ids) /\ (forall j, 0 < j < k -> reached (prop query (js "$limit")) (length results + j) = false).
Proof.
  intros Ht Hr. revert results. induction ids as [|id ids IH]; intros results Hids; cbn [collect_matching].
  { exists 0. cbn. rewrite app_nil_r. split_and!; [done|left; lia|lia|lia]. }
  destruct (read_tied rr c rr_clean c_valid sha256Hex s st _ id Hr (Hids id ltac:(by left))) as (r & Hrun & Hdata & _).
  rewrite (M_bind_ok _ _ _ _ _ Hrun). specialize (IH (results) (fun x Hx => Hids x (list_elem_of_further _ _ _ Hx))) as IH0.
  assert (chosen st query (id :: ids) = match active st !! id with
    | Some o => if Query.matchesQuery (VObj o) query (Query.Timestamps Num.zero Num.zero) then (id, o) :: chosen st query ids else chosen st query ids
    | None => chosen st query ids end) as ->.
  { unfold chosen. cbn [omap list_omap]. destruct (active st !! id) as [o|]; cbn [mbind option_bind]; [|done]. by destruct (Query.matchesQuery _ _ _). }
  destruct r as [x|]; cbn [fmap option_fmap option_map] in Hdata; rewrite <- Hdata; [|exact IH0].
  assert (Query.matchesQuery (VObj (stored_data x)) query (times_of x) =
          Query.matchesQuery (VObj (stored_data x)) query (Query.Timestamps Num.zero Num.zero)) as ->.
  { apply eq_true_iff_eq. by rewrite !matches_wanted. }
  destruct (Query.matchesQuery _ _ _); [|exact IH0].
  destruct (reached (prop query (js "$limit")) (length (results ++ [(id, stored_data x)]))) eqn:El.
  - exists 1. cbn [take length]. rewrite take_0. split_and!; [done|by right|lia|lia].
  - destruct (IH (results ++ [(id, stored_data x)]) (fun y Hy => Hids y (list_elem_of_further _ _ _ Hy))) as (k & -> & Hk & Hkl & Hbefore). exists (S k).
    cbn [take length]. rewrite <- app_assoc in Hk |- *. split_and!; [done|destruct Hk as [Hk|Hk]; [left; lia|by right]|lia|].
    intros [|[|j]] Hj; [lia|by rewrite length_app in El|]. specialize (Hbefore (S j) ltac:(lia)). rewrite length_app in Hbefore. cbn [length] in Hbefore.
    by replace (length results + S (S j)) with (length results + 1 + S j) by lia.
Qed.

(** What a search collects: a first part of the matching documents among identifiers that are
    those of active documents, all the matching ones included; it stops where its limit says. *)
Lemma docResults_spec st query s : represents s st -> timeless query = true -> query_served st query ->
  exists ids k s1, docResults sha256Hex scanners root c query s = (Ok (take k (chosen st query ids)), s1) /\
    represents s1 st /\ core_bus s1 = core_bus s /\ NoDup ids /\
    (forall id o, active st !! id = Some o -> wanted query o -> id ∈ ids) /\
    (length (chosen st query ids) <= k \/ reached (prop query (js "$limit")) (length (take k (chosen st query ids))) = true) /\
    k <= length (chosen st query ids) /\ (forall j, 0 < j < k -> reached (prop query (js "$limit")) j = false).
Proof.
  intros Hr Ht Hq. unfold docResults. pose proof (require_tied rr c rr_clean c_valid sha256Hex sha256_uri s st _ Hr) as Hreq.
  destruct (query_planned st query s Hr Hq) as (r & s1 & Hrun1 & Hr1 & Hb1 & Hf1 & Hn1).
  pose proof (require_tied rr c rr_clean c_valid sha256Hex sha256_uri s1 st _ Hr1) as Hreq1.
  assert (exists ids, (match r with Some ids => mret ids | None => listQueryableDocIds root c end) s1 = (Ok ids, s1) /\ NoDup ids /\
    (forall id, id ∈ ids -> is_Some (active st !! id)) /\ forall id o, active st !! id = Some o -> wanted query o -> id ∈ ids)
    as (ids & Hids & Hnd & Hact & Hall).
  { destruct r as [ids|]; [exists ids; destruct Hf1; split_and!; auto|].
    destruct (list_active rr c rr_clean c_valid (core_disk s1) st (tied_holds _ _ _ _ _ _ Hr1)) as (l & Hl & Hnd & Hin).
    exists l. split_and!; [|done|intros id; by rewrite Hin|intros id o Ho _; apply Hin; by eexists].
    unfold listQueryableDocIds. run Hreq1. by apply on_fs_read. }
  assert (forall id, id ∈ ids -> TTID.is_ttid id = true) as Htt.
  { intros id [o Ho]%Hact. by destruct (drawer_keys _ _ _ (holds_docs _ _ _ _ (tied_holds _ _ _ _ _ _ Hr1)) id o Ho). }
  destruct (collect_spec st query ids [] s1 Ht Hr1 Htt) as (k & Hrun2 & Hk). cbn [app length Nat.add] in *.
  exists ids, k, s1. split_and!; try done; try apply Hk.
  run Hreq. rewrite (M_bind_ok _ _ _ _ _ Hrun1). by rewrite (M_bind_ok _ _ _ _ _ Hids).
Qed.

(** C3: a query without time windows that the index serves ([query_served]) answers with active
    documents that match it, each once, and with all of them unless it stopped at its limit:
    then it stopped at the first document that reaches it.  The documents and the index stay as
    they are.  It holds whatever the index has in its snapshot, log and caches, with or without
    a scanner.  What the index does not serve, such as a comparison with null that a missing
    field satisfies, is left out: see [missing_field_depends_on_the_plan]. *)
Theorem find_returns_the_matching_documents st query s :
  represents s st -> timeless query = true -> query_served st query ->
  exists results s',
    findDocs sha256Hex scanners root c query s = (Ok (omap (fun doc => Query.processDoc [doc] query) results), s') /\
    represents s' st /\ core_bus s' = core_bus s /\ NoDup results.*1 /\
    (forall id o, (id, o) ∈ results -> active st !! id = Some o /\ wanted query o) /\
    (reached (prop query (js "$limit")) (length results) = true \/
     forall id o, active st !! id = Some o -> wanted query o -> (id, o) ∈ results) /\
    (forall n, 0 < n < length results -> reached (prop query (js "$limit")) n = false).
Proof.
  intros Hr Ht Hq. destruct (docResults_spec st query s Hr Ht Hq) as (ids & k & s1 & Hrun & Hr1 & Hb1 & Hnd & Hall & Hk & Hkl & Hbefore).
  exists (take k (chosen st query ids)), s1. split_and!; [|done|done| | | |].
  - unfold findDocs. rewrite (M_bind_ok _ _ _ _ _ Hrun). by run_pure.
  - rewrite fmap_take. eapply sublist_NoDup; [apply chosen_ids; exact Hnd|]. apply sublist_take.
  - intros id o Hin. assert ((id, o) ∈ chosen st query ids) as Hc%(elem_of_chosen _ _ _ _ _ Ht); [|tauto].
    eapply elem_of_subseteq; [apply subseteq_take|exact Hin].
  - destruct Hk as [Hk|Hk]; [right|by left]. intros id o Ho Hw. rewrite take_ge by done. apply elem_of_chosen; [done|]. split_and!; [by eapply Hall|done|done].
  - intros n Hn. rewrite length_take_le in Hn by done. by apply Hbefore.
Qed.

End Core.

(** ** A query over the people of [Lifecycle] *)

#[local] Existing Instances noon_fs noon_clock noon_laws noon_performance.

Definition an_people : value := VObj [(js "$ops", VArr [VObj [(js "name", VObj [(js "$like", VStr (js "An%"))])]])].

Lemma an_people_served : query_served Complete.length_digest (mkStore {[ann_id := ann]} ∅) an_people.
Proof.
  intros operation field operand Hop Hin _. apply list_elem_of_singleton in Hop as ->. apply list_elem_of_singleton in Hin as [= -> ->]. split.
  - repeat constructor; done.
  - by vm_compute.
  - intros key Hkey ->%prop_one_inv. by vm_compute.
  - intros id o Ho _. cbn [active] in Ho. apply lookup_singleton_Some in Ho as [<- <-]. exists (VStr (js "Ann")). split; [by vm_compute|]. split; [by vm_compute|].
    intros key Hkey ->%prop_one_inv.
    exists (js "Ann"), (js "An%"). split; [done|]. split; [done|]. split; [by apply (bool_decide_unpack _); vm_compute|].
    split; [|split; [by apply (bool_decide_unpack _); vm_compute|by vm_compute]].
    split; [by vm_compute|]. exists (js "Ann"). split; [by vm_compute|]. by apply (bool_decide_unpack _); vm_compute.
Qed.

Lemma find_returns_the_matching_documents_witness :
  exists results s', findDocs Complete.length_digest None (root_path []) people an_people keeper =
      (Ok (omap (fun doc => Query.processDoc [doc] an_people) results), s') /\
    Lifecycle.represents [] people Complete.length_digest s' (mkStore {[ann_id := ann]} ∅) /\ core_bus s' = core_bus keeper /\ NoDup results.*1 /\
    (forall id o, (id, o) ∈ results -> active (mkStore {[ann_id := ann]} ∅) !! id = Some o /\ wanted an_people o) /\
    (reached (prop an_people (js "$limit")) (length results) = true \/
     forall id o, active (mkStore {[ann_id := ann]} ∅) !! id = Some o -> wanted an_people o -> (id, o) ∈ results) /\
    (forall n, 0 < n < length results -> reached (prop an_people (js "$limit")) n = false).
Proof.
  apply (find_returns_the_matching_documents [] people (Forall_nil_2 _) eq_refl Complete.length_digest None Answers.length_digest_uri
           ltac:(done) (mkStore {[ann_id := ann]} ∅) an_people keeper keeper_represented eq_refl an_people_served).
Defined.

(** What the query answers. *)
Example an_people_answer :
  fst (findDocs Complete.length_digest None (root_path []) people an_people keeper) = Ok [VObj [(ann_id, VObj ann)]].
Proof. by vm_compute. Qed.

(** People without an age: alone, and beside an operation the index has no plan for and Ann does
    not match. *)
Definition no_age : object := [(js "age", VObj [(js "$eq", VNull)])].
Definition not_ann : object := [(js "name", VObj [(js "$ne", VStr (js "Ann"))])].
Definition ops (l : list object) : value := VObj [(js "$ops", VArr (map VObj l))].

(** A document without the field matches a query for null, yet the index has no key for it
    and the query does not find it; beside an operation that makes the engine read every
    document, it does. *)
Theorem missing_field_depends_on_the_plan :
  Query.matchesQuery (VObj ann) (ops [no_age]) (Query.Timestamps Num.zero Num.zero) = true /\
  Query.matchesQuery (VObj ann) (ops [not_ann]) (Query.Timestamps Num.zero Num.zero) = false /\
  fst (findDocs Complete.length_digest None (root_path []) people (ops [no_age]) keeper) = Ok [] /\
  fst (findDocs Complete.length_digest None (root_path []) people (ops [no_age; not_ann]) keeper) = Ok [VObj [(ann_id, VObj ann)]].
Proof. split_and!; by vm_compute. Qed.

End Find.
