(* ===== verification/Worm.v ===== *)
(** Collections that are written once: [wormEnabled] in [src/browser/core/engine.js].  Over the
    store of [Lifecycle], whatever is asked of such a collection, writes by query, batches and
    its removal included, a document that was written is read back unchanged. *)

From stdpp Require Import gmap.
From S2P Require Import Prelude PathUtil JsNum JsValue Utf8 Json Shard Ttid Codec Filesystem MemFs MemFsLaws.
From S2P Require Import PrefixIndex IndexSearch IndexComplete IndexKeys IndexStore IndexQuery Plan Query Documents Metadata Events Engine Buckets Lifecycle Find.

Module Worm.
Import Codec Documents Engine Buckets Lifecycle Find.

Section Core.
  Context (rr : path) (c : jstr).
  Hypothesis rr_clean : Forall Path.clean rr.
  Hypothesis c_valid : Collection.validateCollectionName c = Ok ().
  Context {D : Type} `{FilesystemLaws D, Performance D}.
  Context (sha256Hex : jstr -> jstr) (scanners : option PrefixIndex.scanner_factory).
  Hypothesis sha256_uri : forall s, forallb Utf8.uri_char (sha256Hex s) = true.
  Hypothesis honest : forall factory, scanners = Some factory -> Answers.scanner_honest factory.
  Hypothesis clock_prints : forall (d : D) t d', now d = (Ok t, d') -> Json.number_ok (Num.of_Z t) = true.

Abbreviation root := (root_path rr).
Abbreviation represents := (Lifecycle.represents rr c sha256Hex).

(** What is asked of a collection: a call on one document, a batch of documents, the documents
    a query selects patched or deleted, a planned statement, the collection's removal. *)
Inductive demand :=
| Single (r : request)
| Batch (docs : list (jstr * object))
| PatchWhere (update : value)
| DeleteWhere (selection : value)
| Statement (plan : Plan.plan)
| Drop.

Definition nothing {S A} (m : M S A) : M S () := _ ← m; mret ().

Definition run_demand (r : demand) : M (core D) () :=
  match r with
  | Single r => nothing (run_request rr c sha256Hex true r)
  | Batch docs => nothing (batchPutData sha256Hex root true c (map (fun kd => [(fst kd, VObj (snd kd))]) docs))
  | PatchWhere update => nothing (patchDocs sha256Hex scanners root true c update)
  | DeleteWhere selection => nothing (delDocs sha256Hex scanners root true c selection)
  | Statement plan => nothing (executeSqlPlan sha256Hex scanners root true plan)
  | Drop => dropCollection root true c
  end.

(** One demand after the other, whatever they answer. *)
Fixpoint run_demands (rs : list demand) (s : core D) : core D :=
  match rs with [] => s | r :: rest => run_demands rest (snd (run_demand r s)) end.

(** What each leaves in the store: documents that are new. *)
Definition put_new (st : store) (kd : jstr * object) : outcome value * store :=
  let '(o, st', _) := spec_put true (fst kd) (snd kd) st in (o, st').
Fixpoint put_all (docs : list (jstr * object)) (st : store) : store :=
  match docs with
  | [] => st
  | kd :: rest => match put_new st kd with (Ok _, st') => put_all rest st' | (Throw _, st') => st' end
  end.
Definition kept (r : demand) (st : store) : store :=
  match r with Single (Put id o) => snd (put_new st (id, o)) | Batch docs => put_all docs st | _ => st end.

(** The demands considered: documents the index can hold under valid identifiers, queries it serves. *)
Definition writable (kd : jstr * object) : Prop := TTID.is_ttid (fst kd) = true /\ good sha256Hex (fst kd) (snd kd).
Definition searchable (st : store) (query : value) : Prop := timeless query = true /\ query_served sha256Hex st query.
Definition where_of (update : value) : value := match prop update (js "$where") with VUndef | VNull => VObj [] | w => w end.
Definition statement_ok (plan : Plan.plan) (st : store) : Prop :=
  let operation := Plan.plan_operation plan in
  let query := without_collection (Plan.plan_ast plan) in
  to_str (prop (Plan.plan_ast plan) (js "$collection")) = c /\
  (operation = js "DROP" \/ operation = js "UPDATE" /\ searchable st (where_of query) \/ operation = js "DELETE" /\ searchable st query \/
   operation = js "SELECT" /\ includes (js "JOIN") (Plan.plan_sql plan) = false /\ searchable st query).
Definition considered (r : demand) (st : store) : Prop :=
  match r with
  | Single (Put id o) => writable (id, o)
  | Batch docs => Forall writable docs
  | PatchWhere update => searchable st (where_of update)
  | DeleteWhere selection => searchable st selection
  | Statement plan => statement_ok plan st
  | _ => True
  end.
Fixpoint all_considered (rs : list demand) (st : store) : Prop :=
  match rs with [] => True | r :: rest => considered r st /\ all_considered rest (kept r st) end.

(** ** Nothing is lost *)

Lemma snd_nothing {A} (m : M (core D) A) s : snd (nothing m s) = snd (m s).
Proof. unfold nothing, mbind, M_bind. by destruct (m s) as [[a|e] s']. Qed.

Lemma answers_snd {A} (m : M (core D) A) (f : A -> value) s o st notes :
  answers rr c sha256Hex ((f <$> m) s) s (o, st, notes) -> represents (snd (m s)) st.
Proof. unfold fmap, M_fmap, mbind, M_bind. destruct (m s) as [[a|e] s']; cbn; by intros (_ & ? & _). Qed.

Lemma search_keeps st query s : represents s st -> searchable st query ->
  represents (snd (findDocs sha256Hex scanners root c query s)) st.
Proof.
  intros Hr [Ht Hq]. destruct (docResults_spec rr c rr_clean c_valid sha256Hex scanners sha256_uri honest st query s Hr Ht Hq) as (ids & k & s1 & Hrun & Hr1 & _).
  unfold findDocs. by rewrite (M_bind_ok _ _ _ _ _ Hrun).
Qed.

Lemma answers_represents out s o st notes : answers rr c sha256Hex out s (o, st, notes) -> represents (snd out) st.
Proof. destruct out as [r s']. by intros (_ & ? & _). Qed.

(** A computation after a search. *)
Lemma after_search {A} st query (k : list value -> M (core D) A) s : represents s st -> searchable st query ->
  (forall found, preserves (fun s => represents s st) (k found)) -> represents (snd ((findDocs sha256Hex scanners root c query ≫= k) s)) st.
Proof.
  intros Hr Hq Hk. pose proof (search_keeps st query s Hr Hq) as Hs. unfold mbind, M_bind. destruct (findDocs _ _ _ _ _ s) as [[found|e] s1]; [|done].
  by apply Hk.
Qed.

Lemma patch_refused newDoc oldDoc (s : core D) : snd (patchDoc sha256Hex root true c newDoc oldDoc s) = s.
Proof. done. Qed.

Lemma delete_refused id st : preserves (fun s => represents s st) (delDoc sha256Hex root true c id).
Proof.
  intros s Hr. destruct (delete_answers rr c rr_clean c_valid sha256Hex true sha256_uri clock_prints s st id Hr) as [t Ha]. cbn [spec] in Ha.
  by destruct (TTID.is_ttid id); cbn [negb] in Ha; apply answers_snd in Ha.
Qed.

Lemma patch_where_keeps st update s : represents s st -> searchable st (where_of update) ->
  represents (snd (patchDocs sha256Hex scanners root true c update s)) st.
Proof.
  intros Hr Hq. unfold patchDocs. fold (where_of update). apply after_search; [done|done|]. intros found. apply preserves_fold_m. intros count v s1 Hs1.
  destruct v as [| | | | | |[|[id current] o]]; try done. by destruct (_ && _).
Qed.

Lemma delete_where_keeps st selection s : represents s st -> searchable st selection ->
  represents (snd (delDocs sha256Hex scanners root true c selection s)) st.
Proof.
  intros Hr Hq. unfold delDocs. apply after_search; [done|done|]. intros found. apply preserves_fold_m. intros count v.
  destruct v as [| | | | | |o]; try (by intros s1 ?). destruct (List.find TTID.is_ttid (keys o)) as [id|]; [|by intros s1 ?].
  apply preserves_bind; [apply delete_refused|]. by intros a s1 ?.
Qed.

Lemma drop_refused st s id o : represents s st -> active st !! id = Some o -> snd (dropCollection root true c s) = s.
Proof.
  intros Hr Ho. unfold dropCollection, assertCollectionName. rewrite c_valid. run_pure.
  rewrite (M_bind_ok _ _ _ _ _ (require_tied rr c rr_clean c_valid sha256Hex sha256_uri s st _ Hr)).
  destruct (list_active rr c rr_clean c_valid (core_disk s) st (tied_holds _ _ _ _ _ _ Hr)) as (l & Hl & _ & Hin).
  assert (l <> []) as Hne. { intros ->. apply (not_elem_of_nil id). rewrite Hin. by eexists. }
  assert (listDocIds root c s = (Ok l, s)) as Hrun by (by apply on_fs_read).
  unfold mbind at 1, M_bind at 1. rewrite (M_bind_ok _ _ _ _ _ Hrun). cbn. by rewrite bool_decide_false by done.
Qed.

Abbreviation put_one kd := (putData sha256Hex root true c [(fst kd, VObj (snd kd))] None).

Lemma put_keeps kd st s : represents s st -> writable kd ->
  represents (snd (put_one kd s)) (snd (put_new st kd)) /\ is_ok (fst (put_one kd s)) = is_ok (fst (put_new st kd)).
Proof.
  intros Hr [Hid Hg]. pose proof (put_answers rr c rr_clean c_valid sha256Hex true sha256_uri s st (fst kd) (snd kd) Hr Hid Hg) as Ha.
  unfold put_new. destruct (spec_put true (fst kd) (snd kd) st) as [[o st'] notes]. split; [by apply answers_snd in Ha|].
  change (VStr <$> putData sha256Hex root true c [(fst kd, VObj (snd kd))] None) with (VStr <$> put_one kd) in Ha.
  unfold fmap, M_fmap, mbind, M_bind in Ha. destruct (put_one kd s) as [[a|e] s']; destruct Ha as (<- & _); done.
Qed.

Lemma batch_keeps docs : forall ids st s, represents s st -> Forall writable docs ->
  represents (snd (fold_m (fun ids data => id ← putData sha256Hex root true c data None; mret (ids ++ [id])) (map (fun kd => [(fst kd, VObj (snd kd))]) docs) ids s))
    (put_all docs st).
Proof.
  induction docs as [|kd docs IH]; intros ids st s Hr Hd; [done|]. apply Forall_cons in Hd as [Hkd Hd].
  destruct (put_keeps kd st s Hr Hkd) as [Hr1 Hok]. cbn [map fold_m put_all]. unfold mbind, M_bind.
  destruct (put_one kd s) as [[id|e] s1], (put_new st kd) as [[v|e'] st1]; try done. by apply IH.
Qed.

Lemma put_new_keeps st kd id o : active st !! id = Some o -> active (snd (put_new st kd)) !! id = Some o.
Proof.
  intros Ho. unfold put_new, spec_put. case_bool_decide; [done|]. cbn [andb]. case_bool_decide as Hi; [done|]. cbn [snd active].
  rewrite lookup_insert_ne; [done|]. intros <-. apply Hi. by eexists.
Qed.

Lemma kept_keeps r st id o : active st !! id = Some o -> active (kept r st) !! id = Some o.
Proof.
  intros Ho. destruct r as [[i x|i x|i|i|i]|docs|u|q|p|]; cbn [kept]; try done; [by apply put_new_keeps|].
  revert st Ho. induction docs as [|kd docs IH]; intros st Ho; [done|]. cbn [put_all]. pose proof (put_new_keeps st kd id o Ho) as Ho1.
  destruct (put_new st kd) as [[v|e] st1]; [by apply IH|done].
Qed.

Lemma put_new_revivable kd st : revivable sha256Hex st -> revivable sha256Hex (snd (put_new st kd)).
Proof.
  intros Hst. pose proof (spec_put_dead true (fst kd) (snd kd) st) as Hdead. unfold put_new, new_store in *.
  destruct (spec_put true (fst kd) (snd kd) st) as [[v st1] notes]. cbn [fst snd] in *. unfold revivable. by rewrite Hdead.
Qed.

Lemma put_all_revivable docs st : revivable sha256Hex st -> revivable sha256Hex (put_all docs st).
Proof.
  revert st. induction docs as [|kd docs IH]; intros st Hst; [done|]. cbn [put_all]. pose proof (put_new_revivable kd st Hst) as Hst1.
  destruct (put_new st kd) as [[v|e] st1]; [by apply IH|done].
Qed.

Lemma statement_keeps plan st s id o : represents s st -> active st !! id = Some o -> statement_ok plan st ->
  represents (snd (executeSqlPlan sha256Hex scanners root true plan s)) st.
Proof.
  intros Hr Ho [Hc Hop]. unfold executeSqlPlan. rewrite Hc.
  destruct Hop as [->|[[-> Hq]|[[-> Hq]|(-> & Hj & Hq)]]]; cbn [jeqb];
    repeat match goal with |- context [jeqb (js ?a) (js ?b)] => let v := eval vm_compute in (jeqb (js a) (js b)) in change (jeqb (js a) (js b)) with v; cbn match end.
  - pose proof (drop_refused st s id o Hr Ho) as Hd. unfold mbind, M_bind. destruct (dropCollection _ _ _ s) as [[a|e] s']; cbn [snd] in *; by rewrite Hd.
  - pose proof (patch_where_keeps st _ s Hr Hq) as Hp. unfold mbind, M_bind. by destruct (patchDocs _ _ _ _ _ _ s) as [[a|e] s'].
  - pose proof (delete_where_keeps st _ s Hr Hq) as Hp. unfold mbind, M_bind. by destruct (delDocs _ _ _ _ _ _ s) as [[a|e] s'].
  - rewrite Hj. apply after_search; [done|done|]. intros found. by apply preserves_lift.
Qed.

Lemma demand_keeps r st s id o : represents s st -> revivable sha256Hex st -> active st !! id = Some o -> considered r st ->
  represents (snd (run_demand r s)) (kept r st) /\ revivable sha256Hex (kept r st).
Proof.
  intros Hr Hrev Ho Hc. destruct r as [[i x|i x|i|i|i]|docs|u|q|p|]; cbn [run_demand kept considered] in *; rewrite ?snd_nothing.
  - split; [|by apply put_new_revivable]. change (run_request rr c sha256Hex true (Put i x)) with (VStr <$> put_one (i, x)).
    pose proof (put_keeps (i, x) st s Hr Hc) as [Hp _]. unfold fmap, M_fmap, mbind, M_bind. by destruct (put_one (i, x) s) as [[a|e] s'].
  - done.
  - split; [|done]. pose proof (delete_refused i st s Hr) as Hd. cbn [run_request]. unfold fmap, M_fmap, mbind, M_bind. by destruct (delDoc _ _ _ _ _ s) as [[a|e] s'].
  - split; [|done]. pose proof (restore_answers rr c rr_clean c_valid sha256Hex true sha256_uri Num.zero s st i Hr Hrev) as Ha. cbn [spec] in Ha.
    by destruct (TTID.is_ttid i); cbn [negb] in Ha; apply answers_represents in Ha.
  - split; [|done]. pose proof (get_answers rr c rr_clean c_valid sha256Hex true sha256_uri Num.zero s st i Hr) as Ha. cbn [spec run_request] in Ha |- *.
    by destruct (TTID.is_ttid i); cbn [negb] in Ha; apply answers_represents in Ha.
  - split; [|by apply put_all_revivable]. by apply batch_keeps.
  - split; [|done]. by apply patch_where_keeps.
  - split; [|done]. by apply delete_where_keeps.
  - split; [|done]. by apply (statement_keeps p st s id o).
  - split; [|done]. by rewrite (drop_refused st s id o).
Qed.

(** C8: in WORM mode a document that was written stays as it is: whatever is asked of its
    collection afterwards, in any number and order (puts of documents the index can hold under
    valid identifiers, batches of them, patches, deletes, restores and reads; patches and
    deletes by query, and statements, with queries the index serves; the removal of the whole
    collection), it is read back unchanged. *)
Theorem worm_immutable demands s st id o : represents s st -> revivable sha256Hex st -> all_considered demands st -> active st !! id = Some o ->
  fst (run_request rr c sha256Hex true (Get id) (run_demands demands s)) = Ok (VObj [(id, VObj o)]).
Proof.
  revert s st. induction demands as [|r rest IH]; intros s st Hr Hrev Hc Ho; cbn [run_demands].
  - pose proof (get_answers rr c rr_clean c_valid sha256Hex true sha256_uri Num.zero s st id Hr) as Ha. cbn [run_request spec] in Ha |- *.
    destruct (drawer_keys _ _ _ (holds_docs _ _ _ _ (tied_holds _ _ _ _ _ _ Hr)) id o Ho) as [Hid _]. rewrite Hid, Ho in Ha. cbn [negb] in Ha.
    destruct (getDoc_once _ _ _ _ s) as [out s']. by destruct Ha as (-> & _).
  - destruct Hc as [Hc Hrest]. destruct (demand_keeps r st s id o Hr Hrev Ho Hc) as [Hr1 Hrev1].
    apply (IH _ (kept r st)); [done|done|done|by apply kept_keeps].
Qed.

End Core.

(** ** A collection written once *)

#[local] Existing Instances noon_fs noon_clock noon_laws noon_performance.

Definition plan_of (sql : jstr) : Plan.plan := default (Plan.Plan [] [] [] VUndef false false []) (match Plan.prepare (VStr sql) with Ok p => Some p | _ => None end).

Definition the_store : store := mkStore {[ann_id := ann]} ∅.
Definition attempts : list demand :=
  [Single (Put ann_id older); Single (Patch ann_id older); Single (Restore ann_id); Batch [(ann_id, older)];
   PatchWhere (VObj [(js "$where", an_people); (js "$set", VObj older)]); DeleteWhere (VObj []);
   Statement (plan_of (js "DELETE FROM people")); Statement (plan_of (js "DROP COLLECTION people")); Drop].

Lemma all_served (query : value) : Query.ops_of query = [] -> query_served Complete.length_digest the_store query.
Proof. intros Hq operation field operand Hin. rewrite Hq in Hin. by apply elem_of_nil in Hin. Qed.

Lemma older_refused : put_new the_store (ann_id, older) = (Throw worm_update, the_store).
Proof.
  unfold put_new, spec_put. cbn [fst snd]. rewrite bool_decide_false; [|intros [x Hx]; cbn [dead the_store] in Hx; by rewrite lookup_empty in Hx].
  rewrite bool_decide_true; [done|]. exists ann. cbn [active the_store]. by rewrite lookup_singleton_eq.
Qed.

Lemma attempts_considered : all_considered people Complete.length_digest attempts the_store.
Proof.
  cbn [all_considered attempts kept put_all considered]. rewrite older_refused. cbn [snd]. rewrite older_refused.
  split_and!; try exact I.
  - exact older_good.
  - constructor; [exact older_good|constructor].
  - split; [by vm_compute|exact an_people_served].
  - split; [by vm_compute|]. apply all_served. by vm_compute.
  - split; [by vm_compute|]. right. right. left. split; [by vm_compute|]. split; [by vm_compute|]. apply all_served. by vm_compute.
  - split; [by vm_compute|]. left. by vm_compute.
Qed.

Lemma worm_immutable_witness :
  fst (run_request [] people Complete.length_digest true (Get ann_id)
         (run_demands [] people Complete.length_digest None attempts keeper)) = Ok (VObj [(ann_id, VObj ann)]).
Proof.
  apply (worm_immutable [] people (Forall_nil_2 _) eq_refl Complete.length_digest None Answers.length_digest_uri ltac:(done) noon_prints
           attempts keeper the_store ann_id ann keeper_represented).
  - intros id o t Hm. cbn [dead the_store] in Hm. by rewrite lookup_empty in Hm.
  - apply attempts_considered.
  - cbn [active the_store]. by rewrite lookup_singleton_eq.
Defined.

End Worm.
