(* ===== verification/Explorer.v ===== *)
(** The Explorer's own logic, apart from its interface: where it looks for a record
    ([explorer/client/components/explorer/app/sharding.js]), the version history it reads from
    the store that the engine keeps under [.fylo-vcs] ([versioning.js]), and the editing of a
    document's fields as text ([field-model.js]).  The filesystem is an interface. *)

From S2P Require Import Prelude PathUtil JsNum Shard JsValue Utf8 Json Filesystem MemFs.

Module Sharding.

Definition DEFAULT_SHARD_WIDTH : nat := 2.
Definition MAX_SHARD_WIDTH : nat := 4.

Definition bad_width (v : value) : js_error := Error (js "Invalid FYLO shard width: " ++ to_str v).
Definition normalizeWidth (v : value) : outcome nat :=
  match v with
  | VNum n =>
      match Num.to_Z n with
      | Some w => if (w <? 0)%Z || (Z.of_nat MAX_SHARD_WIDTH <? w)%Z then Throw (bad_width v) else Ok (Z.to_nat w)
      | None => Throw (bad_width v)
      end
  | _ => Throw (bad_width v)
  end.

Definition creationSegment (id : jstr) : outcome jstr :=
  let created := hd [] (split_on c_dash id) in
  if bool_decide (created = []) || negb (forallb is_alnum created)
  then Throw (Error (js "Cannot shard a non-identifier: " ++ id))
  else Ok created.

Definition shardOf (id : jstr) (width : value) : outcome jstr :=
  normalized ← normalizeWidth width;
  if normalized =? 0 then Ok []
  else created ← creationSegment id; Ok (pad_start normalized 48 (last_n normalized created)).

Definition legacyShardOf (id : jstr) : outcome jstr := created ← creationSegment id; Ok (take 2 created).

Record layout := mkLayout { width : nat; previousWidths : list nat }.
Definition width_value (w : nat) : value := VNum (Num.of_Z (Z.of_nat w)).

(** [.filter((value, index, all) => value !== width && all.indexOf(value) === index)] *)
Fixpoint other_widths (width : nat) (seen all : list nat) : list nat :=
  match all with
  | [] => []
  | w :: r =>
      let rest := other_widths width (w :: seen) r in
      if negb (w =? width) && negb (bool_decide (w ∈ seen)) then w :: rest else rest
  end.

Definition normalizeShardLayout (descriptor : value) : outcome layout :=
  let source := if is_objectlike descriptor then descriptor else VObj [] in
  let given := prop source (js "shardWidth") in
  width ← normalizeWidth (if is_nullish given then width_value DEFAULT_SHARD_WIDTH else given);
  previous ← match prop source (js "previousShardWidths") with
             | VArr l => previous ← mapM normalizeWidth l; Ok (other_widths width [] previous)
             | _ => Ok []
             end;
  Ok (mkLayout width previous).

(** [if (!candidates.includes(shard)) candidates.push(shard)] *)
Definition include (shard : jstr) (candidates : list jstr) : list jstr :=
  if bool_decide (shard ∈ candidates) then candidates else candidates ++ [shard].
Fixpoint shards_of (id : jstr) (widths : list nat) (candidates : list jstr) : outcome (list jstr) :=
  match widths with
  | [] => Ok candidates
  | w :: r => shard ← shardOf id (width_value w); shards_of id r (include shard candidates)
  end.

Definition shardCandidates (id : jstr) (layout : layout) : outcome (list jstr) :=
  candidates ← shards_of id (width layout :: previousWidths layout) [];
  legacy ← legacyShardOf id;
  Ok (include legacy candidates).

Definition historicalShardCandidates (id : jstr) (layout : layout) : outcome (list jstr) :=
  candidates ← shardCandidates id layout;
  shards_of id (seq 0 (S MAX_SHARD_WIDTH)) candidates.

(** ** The Explorer and the engine *)

Lemma small_width w : w <= MAX_SHARD_WIDTH -> Num.to_Z (Num.of_Z (Z.of_nat w)) = Some (Z.of_nat w).
Proof. unfold MAX_SHARD_WIDTH. intros Hw. do 5 (destruct w as [|w]; [vm_compute; reflexivity|]). lia. Qed.

Lemma width_roundtrip w : w <= MAX_SHARD_WIDTH -> normalizeWidth (width_value w) = Ok w.
Proof.
  intros Hw. unfold normalizeWidth, width_value. rewrite small_width by done. unfold MAX_SHARD_WIDTH in *.
  rewrite !(proj2 (Z.ltb_ge _ _)) by lia. by rewrite Nat2Z.id.
Qed.

(** The engine's widths. *)
Lemma shard_agrees id w : Shard.MIN_SHARD_WIDTH <= w <= Shard.MAX_SHARD_WIDTH ->
  shardOf id (width_value w) = Shard.shardOf id (Num.of_Z (Z.of_nat w)).
Proof.
  intros Hw. unfold shardOf, Shard.shardOf. rewrite width_roundtrip by (unfold MAX_SHARD_WIDTH, Shard.MAX_SHARD_WIDTH in *; lia).
  unfold Shard.assertShardWidth, Shard.MIN_SHARD_WIDTH, Shard.MAX_SHARD_WIDTH in *. rewrite small_width by (unfold MAX_SHARD_WIDTH; lia).
  rewrite !(proj2 (Z.ltb_ge _ _)) by lia. rewrite Nat2Z.id. cbn [mbind outcome_bind orb]. by rewrite (proj2 (Nat.eqb_neq w 0)) by lia.
Qed.

Lemma included s l : s ∈ include s l /\ l ⊆ include s l /\ (NoDup l -> NoDup (include s l)).
Proof.
  unfold include. case_bool_decide as Hin; split_and!; try done; [set_solver..|].
  intros Hl. apply NoDup_app. split_and!; [done|set_solver|apply NoDup_singleton].
Qed.

Lemma shards_of_spec id widths l l' : shards_of id widths l = Ok l' ->
  l ⊆ l' /\ (NoDup l -> NoDup l') /\ forall w, w ∈ widths -> exists s, shardOf id (width_value w) = Ok s /\ s ∈ l'.
Proof.
  revert l. induction widths as [|w widths IH]; intros l; cbn [shards_of].
  - intros [= ->]. split_and!; [done|done|]. by intros w ?%elem_of_nil.
  - destruct (shardOf id (width_value w)) as [s|e] eqn:Hs; [|done]. cbn. intros (Hl & Hn & Hw)%IH.
    destruct (included s l) as (Hin & Hsub & Hd). split_and!; [set_solver|auto|].
    intros w' [->|Hw']%elem_of_cons; [|by apply Hw]. exists s. split; [done|by apply Hl].
Qed.

Lemma shards_of_total id widths l : Shard.identifier id -> Forall (fun w => w <= MAX_SHARD_WIDTH) widths -> exists l', shards_of id widths l = Ok l'.
Proof.
  intros (created & Hc & _) Hw. revert l. induction Hw as [|w widths Hw _ IH]; intros l; cbn [shards_of]; [by eexists|].
  unfold shardOf. rewrite width_roundtrip by done. cbn [mbind outcome_bind]. change creationSegment with Shard.creationSegment. rewrite Hc.
  destruct (w =? 0); cbn [mbind outcome_bind]; apply IH.
Qed.

Definition sane (layout : layout) : Prop := Forall (fun w => w <= MAX_SHARD_WIDTH) (width layout :: previousWidths layout).

Lemma normalizeWidth_small v w : normalizeWidth v = Ok w -> w <= MAX_SHARD_WIDTH.
Proof.
  unfold normalizeWidth. destruct v as [| | |n| | |]; try done. destruct (Num.to_Z n) as [z|]; [|done].
  destruct (Z.ltb_spec z 0), (Z.ltb_spec (Z.of_nat MAX_SHARD_WIDTH) z); cbn [orb]; try done. intros [= <-]. lia.
Qed.

(** Whatever JSON the descriptor is, the layout read from it is one the module handles. *)
Lemma normalizeShardLayout_sane descriptor layout : normalizeShardLayout descriptor = Ok layout -> sane layout.
Proof.
  unfold normalizeShardLayout. set (source := if is_objectlike descriptor then _ else _). clearbody source.
  destruct (normalizeWidth _) as [w|e] eqn:Hw; [|done]. cbn [mbind outcome_bind]. apply normalizeWidth_small in Hw.
  assert (forall l previous, mapM normalizeWidth l = Ok previous -> Forall (fun w => w <= MAX_SHARD_WIDTH) previous) as Hall.
  { induction l as [|v l IH]; intros previous; cbn [mapM]; [intros [= <-]; constructor|].
    destruct (normalizeWidth v) as [n|] eqn:Hn; [|done]. cbn [mbind outcome_bind].
    destruct (mapM normalizeWidth l) as [r|]; [|done]. cbn. intros [= <-]. constructor; [by eapply normalizeWidth_small|by apply IH]. }
  assert (forall all seen, Forall (fun w => w <= MAX_SHARD_WIDTH) all -> Forall (fun w => w <= MAX_SHARD_WIDTH) (other_widths w seen all)) as Hother.
  { intros all seen Ha. revert seen. induction Ha as [|x all Hx _ IH]; intros seen; cbn [other_widths]; [constructor|].
    destruct (_ && _); [constructor|]; auto. }
  destruct (prop source (js "previousShardWidths")) as [| | | | |l|] eqn:Hp; try (intros [= <-]; constructor; [done|constructor]).
  destruct (mapM normalizeWidth l) as [previous|] eqn:Hm; [|done]. cbn [mbind outcome_bind]. intros [= <-].
  constructor; [done|]. eapply Hother, Hall, Hm.
Qed.

Lemma engine_width w n : Shard.assertShardWidth w = Ok n -> Shard.assertShardWidth (Num.of_Z (Z.of_nat n)) = Ok n.
Proof.
  intros [_ Hr]%Shard.assertShardWidth_ok. unfold Shard.assertShardWidth, Shard.MIN_SHARD_WIDTH, Shard.MAX_SHARD_WIDTH in *.
  rewrite small_width by (unfold MAX_SHARD_WIDTH; lia). rewrite !(proj2 (Z.ltb_ge _ _)) by lia. by rewrite Nat2Z.id.
Qed.

(** Wherever the engine may have put a record, under any width it accepts or under the
    layout of earlier releases, the Explorer's reading of the version history looks there,
    whatever layout the collection's descriptor gives, and looks nowhere twice. *)
Theorem history_looks_everywhere id layout : Shard.identifier id -> sane layout ->
  exists l, historicalShardCandidates id layout = Ok l /\ NoDup l /\
    (forall w s, Shard.shardOf id w = Ok s -> s ∈ l) /\ (forall s, Shard.legacyShardOf id = Ok s -> s ∈ l).
Proof.
  intros Hid Hs. unfold historicalShardCandidates, shardCandidates.
  destruct (shards_of_total id _ [] Hid Hs) as [l1 H1]. rewrite H1. cbn [mbind outcome_bind].
  pose proof Hid as (created & Hc & _). assert (legacyShardOf id = Ok (take 2 created)) as Hlegacy
    by (unfold legacyShardOf; change creationSegment with Shard.creationSegment; by rewrite Hc).
  rewrite Hlegacy. cbn [mbind outcome_bind].
  destruct (shards_of_total id (seq 0 (S MAX_SHARD_WIDTH)) (include (take 2 created) l1) Hid) as [l H2];
    [apply Forall_forall; intros w Hw%elem_of_seq; lia|]. exists l. split; [done|].
  apply shards_of_spec in H1 as (_ & Hn1 & _), H2 as (Hsub & Hn2 & Hw). destruct (included (take 2 created) l1) as (Hin & _ & Hd).
  split_and!; [apply Hn2, Hd, Hn1, NoDup_nil_2| |].
  - intros w s Hsh. unfold Shard.shardOf in Hsh. destruct (Shard.assertShardWidth w) as [n|e] eqn:Ha; [|done].
    pose proof Ha as [_ Hr]%Shard.assertShardWidth_ok.
    destruct (Hw n) as (s' & Hs' & Hin'); [apply elem_of_seq; unfold MAX_SHARD_WIDTH, Shard.MAX_SHARD_WIDTH in *; lia|].
    rewrite shard_agrees in Hs' by done. unfold Shard.shardOf in Hs'. rewrite (engine_width w n Ha) in Hs'. congruence.
  - intros s Hleg. unfold Shard.legacyShardOf in Hleg. rewrite Hc in Hleg. injection Hleg as <-. by apply Hsub.
Qed.

(** Without a descriptor, as the engine of the browser leaves its collections, the Explorer
    looks for a record in directories named by two characters, and the engine has put it in
    one named by one: it is not found. *)
Theorem default_layouts_differ id s : Shard.identifier id -> Shard.defaultShardOf id = Ok s ->
  exists l, (layout ← normalizeShardLayout (VObj []); shardCandidates id layout) = Ok l /\ s ∉ l.
Proof.
  intros (created & Hc & Hl) Hs. unfold Shard.MAX_SHARD_WIDTH in Hl.
  unfold Shard.defaultShardOf, Shard.shardOf in Hs. change Shard.DEFAULT_SHARD_WIDTH with 1 in Hs. rewrite (engine_width (Num.of_Z (Z.of_nat 1)) 1) in Hs by (vm_compute; reflexivity).
  cbn [mbind outcome_bind] in Hs. rewrite Hc in Hs. injection Hs as <-.
  assert (normalizeShardLayout (VObj []) = Ok (mkLayout 2 [])) as -> by (vm_compute; reflexivity).
  cbn [mbind outcome_bind]. unfold shardCandidates. cbn [shards_of width previousWidths]. unfold shardOf.
  rewrite width_roundtrip by (unfold MAX_SHARD_WIDTH; lia). cbn [mbind outcome_bind Nat.eqb]. unfold legacyShardOf.
  change creationSegment with Shard.creationSegment. rewrite Hc. cbn [mbind outcome_bind].
  eexists. split; [reflexivity|]. intros Hin.
  assert (length (pad_start 1 48 (last_n 1 created)) = 1) as H1 by (unfold pad_start, last_n; rewrite length_app, length_replicate, length_drop; lia).
  assert (forall x, x ∈ include (take 2 created) (include (pad_start 2 48 (last_n 2 created)) []) -> length x = 2) as H2.
  { unfold include. intros x. repeat case_bool_decide; rewrite ?elem_of_app, ?elem_of_cons, ?elem_of_nil;
      intros Hx; destruct_or?; try done; subst; unfold pad_start, last_n; rewrite ?length_app, ?length_replicate, ?length_drop, ?length_take; lia. }
  apply H2 in Hin. lia.
Qed.

(** At a concrete identifier, for a layout that names widths two, three and zero. *)
Example history_looks_everywhere_witness : exists l, historicalShardCandidates (js "ABCDEFGHIJK") (mkLayout 2 [3; 0]) = Ok l /\ NoDup l /\
    (forall w s, Shard.shardOf (js "ABCDEFGHIJK") w = Ok s -> s ∈ l) /\ (forall s, Shard.legacyShardOf (js "ABCDEFGHIJK") = Ok s -> s ∈ l).
Proof.
  apply history_looks_everywhere; [exists (js "ABCDEFGHIJK"); split; [reflexivity|vm_compute; lia]|repeat constructor; vm_compute; lia].
Defined.

End Sharding.

Module Versioning.

Definition VCS : jstr := js "/.fylo-vcs".

(** [head.match(/refs\/heads\/(.+)/)?.[1]?.trim()] *)
Definition line_end (c : N) : bool := (c =? 10)%N || (c =? 13)%N || (c =? 8232)%N || (c =? 8233)%N.
Fixpoint branch_of (head : jstr) : option jstr :=
  let rest := drop 11 head in
  if starts_with (js "refs/heads/") head && match rest with c :: _ => negb (line_end c) | [] => false end
  then Some (trim (take_while (fun c => negb (line_end c)) rest))
  else match head with _ :: r => branch_of r | [] => None end.

(** [v.k] of a parsed value. *)
Definition member (v : value) (k : string) : outcome value :=
  if is_nullish v then Throw (type_error (js "Cannot read properties of " ++ to_str v)) else Ok (prop v (js k)).
(** [v[0]] of a value that is not nullish. *)
Definition first (v : value) : value :=
  match v with
  | VArr (x :: _) => x
  | VStr (c :: _) => VStr [c]
  | VObj o => default VUndef (alist_get (js "0") o)
  | _ => VUndef
  end.
Definition or_null (v : value) : value := if is_nullish v then VNull else v.
Definition not_a_function (what : string) : js_error := type_error (js what ++ js " is not a function").

Definition vcsObjectPath (hash : value) : outcome jstr :=
  match hash with
  | VStr h => Ok (VCS ++ js "/objects/" ++ take 2 h ++ js "/" ++ drop 2 h)
  | VArr l => Ok (VCS ++ js "/objects/" ++ to_str (VArr (take 2 l)) ++ js "/" ++ to_str (VArr (drop 2 l)))
  | _ => Throw (not_a_function "hash.slice")
  end.

Fixpoint find_named (name : jstr) (entries : list value) : outcome value :=
  match entries with
  | [] => Ok VUndef
  | e :: r => n ← member e "name"; if strict_eq n (VStr name) then Ok e else find_named name r
  end.

Record version := mkVersion { commit : value; hash : value; message : value; at_ : value }.

Section Reading.
  Context {D : Type} `{fs : FyloFilesystem D}.

(** [m.catch(() => a)] *)
Definition or_else {A} (m : M D A) (a : A) : M D A := try_catch m (fun _ => mret a).

Definition vcsNode (hash : value) : M D value :=
  path ← lift (vcsObjectPath hash);
  bytes ← readBytes path;
  node ← lift (Json.parse (Utf8.decode bytes));
  lift (member node "entries").

Definition step (hash : value) (name : jstr) : M D value :=
  entries ← or_else (vcsNode hash) (VArr []);
  match entries with
  | VArr l => e ← lift (find_named name l); mret (if is_nullish e then VNull else or_null (prop e (js "hash")))
  | _ => throw (not_a_function "entries.find")
  end.

Definition vcsBlobHash (rootHash : value) (collection bucket filename : jstr) : M D value :=
  hash ← step rootHash collection;
  hash ← (if truthy hash then step hash (js "active") else mret hash);
  hash ← (if truthy hash then step hash bucket else mret hash);
  if truthy hash then step hash filename else mret VNull.

Fixpoint blob_in (root : value) (collection filename : jstr) (buckets : list jstr) (hash : value) : M D value :=
  match buckets with
  | [] => mret hash
  | bucket :: rest =>
      hash ← vcsBlobHash root collection bucket filename;
      if truthy hash then mret hash else blob_in root collection filename rest hash
  end.

Definition commit_file (commitId : value) (name : string) : jstr := VCS ++ js "/commits/" ++ to_str commitId ++ js "/" ++ js name.

(** The walk from [commitId], with [guard] turns left. *)
Fixpoint walk (guard : nat) (collection filename : jstr) (buckets : list jstr) (commitId last : value) (out : list version) : M D (list version) :=
  match guard with
  | 0 => mret out
  | S guard =>
      if negb (truthy commitId) then mret out
      else
        read ← or_else (text ← readText (commit_file commitId "manifest.json"); Some <$> lift (Json.parse text)) None;
        match read with
        | None => mret out
        | Some manifest =>
            text ← or_else (readText (commit_file commitId "tree.json")) (js "{}");
            tree ← lift (Json.parse text);
            root ← lift (member tree "root");
            hash ← (if truthy root then blob_in root collection filename buckets VNull else mret VNull);
            let fresh := truthy hash && negb (strict_eq hash last) in
            out ← (if fresh then
                     message ← lift (member manifest "message");
                     at_ ← lift (member manifest "createdAt");
                     mret (out ++ [mkVersion commitId hash (if truthy message then message else VStr []) at_])
                   else mret out);
            parents ← lift (member manifest "parents");
            walk guard collection filename buckets (if is_nullish parents then VNull else or_null (first parents))
              (if fresh then hash else last) out
        end
  end.

Definition readVersions (collection id filename : jstr) (shardLayout : value) : M D (list version) :=
  if bool_decide (filename = []) then mret []
  else
    or_else
      (head ← readText (VCS ++ js "/HEAD");
       match branch_of head with
       | None | Some [] => mret []
       | Some branch =>
           text ← readText (VCS ++ js "/refs/heads/" ++ branch ++ js ".json");
           ref ← lift (Json.parse text);
           let commitId := if is_nullish ref then VUndef else prop ref (js "head") in
           layout ← lift (Sharding.normalizeShardLayout shardLayout);
           buckets ← lift (Sharding.historicalShardCandidates id layout);
           walk 2000 collection filename buckets commitId VNull []
       end) [].

(** ** The store the history is read from

    Directories and commits under the names the engine gave them: an entry has a name and
    the name of its object. *)

Record past := mkPast { root : option jstr; parent : option jstr; note : value; time : value }.
Record store := mkStore { trees : list (jstr * list (jstr * jstr)); commits : list (jstr * past) }.

Definition find_entry (name : jstr) (entries : list (jstr * jstr)) : option jstr :=
  snd <$> head (filter (fun e => fst e = name) entries).
Definition entry_of (H : store) (tree name : jstr) : option jstr := alist_get tree (trees H) ≫= find_entry name.
(** What is found by going down from the directory [tree], and the directories gone through. *)
Fixpoint descend (H : store) (tree : jstr) (names : list jstr) : option jstr :=
  match names with [] => Some tree | name :: names => next ← entry_of H tree name; descend H next names end.
Fixpoint passed (H : store) (tree : jstr) (names : list jstr) : list jstr :=
  match names with
  | [] => []
  | name :: names => tree :: match entry_of H tree name with Some next => passed H next names | None => [] end
  end.
Definition file_path (collection bucket filename : jstr) : list jstr := [collection; js "active"; bucket; filename].
(** The file in the first of the buckets that has it. *)
Definition file_at (H : store) (collection filename : jstr) (buckets : list jstr) (c : past) : option jstr :=
  root ← root c; head (omap (fun bucket => descend H root (file_path collection bucket filename)) buckets).

(** The commits from [id] on, by first parents, at most [n] and as far as they are there. *)
Fixpoint chain (H : store) (n : nat) (id : jstr) : list (jstr * past) :=
  match n with
  | 0 => []
  | S n => match alist_get id (commits H) with
           | Some c => (id, c) :: match parent c with Some p => chain H n p | None => [] end
           | None => []
           end
  end.

(** The commits at which the file's content differs from what it is in the next newer commit
    that has it. *)
Fixpoint changes (file : past -> option jstr) (last : option jstr) (l : list (jstr * past)) : list version :=
  match l with
  | [] => []
  | (id, c) :: l =>
      match file c with
      | Some h =>
          if bool_decide (last = Some h) then changes file last l
          else mkVersion (VStr id) (VStr h) (if truthy (note c) then note c else VStr []) (time c) :: changes file (Some h) l
      | None => changes file last l
      end
  end.

Definition text_or_null (o : option jstr) : value := match o with Some s => VStr s | None => VNull end.

Definition is_entry (v : value) (e : jstr * jstr) : Prop :=
  is_nullish v = false /\ prop v (js "name") = VStr (fst e) /\ prop v (js "hash") = VStr (snd e) /\ snd e <> [].
Definition tree_stored (s : D) (tree : jstr * list (jstr * jstr)) : Prop :=
  exists path bytes node l, vcsObjectPath (VStr (fst tree)) = Ok path /\ readBytes path s = (Ok bytes, s) /\
    Json.parse (Utf8.decode bytes) = Ok node /\ member node "entries" = Ok (VArr l) /\ Forall2 is_entry l (snd tree).
Definition commit_stored (s : D) (commit : jstr * past) : Prop :=
  let '(id, c) := commit in
  id <> [] /\ root c <> Some [] /\ parent c <> Some [] /\
  exists text manifest text' tree parents, readText (commit_file (VStr id) "manifest.json") s = (Ok text, s) /\ Json.parse text = Ok manifest /\
    member manifest "message" = Ok (note c) /\ member manifest "createdAt" = Ok (time c) /\ member manifest "parents" = Ok parents /\
    (if is_nullish parents then VNull else or_null (first parents)) = text_or_null (parent c) /\
    readText (commit_file (VStr id) "tree.json") s = (Ok text', s) /\ Json.parse text' = Ok tree /\
    exists r, member tree "root" = Ok r /\ or_null r = text_or_null (root c).

(** The filesystem [s] holds the store; where a directory is looked for that the store does not
    have, nothing can be read, and neither can a parent it does not have. *)
Record stored (H : store) (collection filename : jstr) (buckets : list jstr) (s : D) : Prop := {
  trees_stored : Forall (tree_stored s) (trees H);
  commits_stored : Forall (commit_stored s) (commits H);
  no_tree id c r bucket h : (id, c) ∈ commits H -> root c = Some r -> bucket ∈ buckets ->
    h ∈ passed H r (file_path collection bucket filename) -> alist_get h (trees H) = None ->
    exists path e, vcsObjectPath (VStr h) = Ok path /\ readBytes path s = (Throw e, s);
  no_commit id c p : (id, c) ∈ commits H -> parent c = Some p -> alist_get p (commits H) = None ->
    exists e, readText (commit_file (VStr p) "manifest.json") s = (Throw e, s)
}.

(** ** What is read is the history *)

Definition hash_value (o : option jstr) : value := match o with Some h => VStr h | None => VNull end.

Lemma or_else_ok {A} (m : M D A) a b s s' : m s = (Ok b, s') -> or_else m a s = (Ok b, s').
Proof. intros Hm. unfold or_else, try_catch. by rewrite Hm. Qed.
Lemma or_else_throw {A} (m : M D A) a e s s' : m s = (Throw e, s') -> or_else m a s = (Ok a, s').
Proof. intros Hm. unfold or_else, try_catch. by rewrite Hm. Qed.

Lemma find_named_spec name l es : Forall2 is_entry l es ->
  exists e, find_named name l = Ok e /\ (if is_nullish e then VNull else or_null (prop e (js "hash"))) = text_or_null (find_entry name es).
Proof.
  intros Hl. unfold find_entry. induction Hl as [|v [n h] l es (Hv & Hn & Hh & Hne) _ (e & He & Hr)]; cbn [find_named]; [by eexists|].
  unfold member. rewrite Hv. cbn [mbind outcome_bind fst snd] in *. rewrite Hn. cbn [strict_eq].
  destruct (decide (n = name)) as [->|Hd].
  - rewrite (proj2 (jeqb_true name name)) by done. exists v. split; [done|]. rewrite filter_cons_True by done. by rewrite Hv, Hh.
  - rewrite jeqb_neq by done. rewrite filter_cons_False by done. by exists e.
Qed.

Lemma alist_get_in {A} k (l : list (jstr * A)) v : alist_get k l = Some v -> (k, v) ∈ l.
Proof.
  induction l as [|[k' v'] l IH]; cbn [alist_get]; [done|]. destruct (decide (k = k')) as [->|]; [intros [= ->]; by left|]. intros Hk. right. auto.
Qed.

(** One step down. *)
Lemma step_spec H s tree name : Forall (tree_stored s) (trees H) ->
  (alist_get tree (trees H) = None -> exists path e, vcsObjectPath (VStr tree) = Ok path /\ readBytes path s = (Throw e, s)) ->
  step (VStr tree) name s = (Ok (text_or_null (entry_of H tree name)), s).
Proof.
  intros Hts Hno. unfold step, entry_of. destruct (alist_get tree (trees H)) as [es|] eqn:Ht; cbn [mbind option_bind].
  - apply alist_get_in in Ht. rewrite Forall_forall in Hts. destruct (Hts _ Ht) as (path & bytes & node & l & Hp & Hb & Hj & Hm & Hl).
    cbn [fst snd] in *. destruct (find_named_spec name l es Hl) as (e & He & Hr).
    assert (vcsNode (VStr tree) s = (Ok (VArr l), s)) as Hn.
    { unfold vcsNode. rewrite Hp. run_pure. rewrite (M_bind_ok _ _ _ _ _ Hb), Hj. run_pure. by rewrite Hm. }
    rewrite (M_bind_ok _ _ _ _ _ (or_else_ok _ _ _ _ _ Hn)), He. run_pure. by rewrite Hr.
  - destruct (Hno eq_refl) as (path & e & Hp & Hb).
    assert (vcsNode (VStr tree) s = (Throw e, s)) as Hn by (unfold vcsNode; rewrite Hp; run_pure; by rewrite (M_bind_throw _ _ _ _ _ Hb)).
    by rewrite (M_bind_ok _ _ _ _ _ (or_else_throw _ _ _ _ _ Hn)).
Qed.

Lemma found_nonempty H s tree name h : Forall (tree_stored s) (trees H) -> entry_of H tree name = Some h -> h <> [].
Proof.
  intros Hts. unfold entry_of. destruct (alist_get tree (trees H)) as [es|] eqn:Ht; [|done]. cbn [mbind option_bind]. unfold find_entry.
  intros He. apply fmap_Some in He as ([n h'] & Hh & ->). apply alist_get_in in Ht. rewrite Forall_forall in Hts.
  destruct (Hts _ Ht) as (_ & _ & _ & l & _ & _ & _ & _ & Hl). apply head_Some_elem_of, list_elem_of_filter in Hh as [_ Hin].
  apply list_elem_of_lookup in Hin as [i Hi]. cbn [snd] in Hl. by destruct (Forall2_lookup_r _ _ _ _ _ Hl Hi) as (v & _ & (_ & _ & _ & Hne)).
Qed.

Lemma vcsBlobHash_spec H s r collection bucket filename : Forall (tree_stored s) (trees H) ->
  (forall h, h ∈ passed H r (file_path collection bucket filename) -> alist_get h (trees H) = None ->
     exists path e, vcsObjectPath (VStr h) = Ok path /\ readBytes path s = (Throw e, s)) ->
  vcsBlobHash (VStr r) collection bucket filename s = (Ok (text_or_null (descend H r (file_path collection bucket filename))), s) /\
  forall h, descend H r (file_path collection bucket filename) = Some h -> h <> [].
Proof.
  intros Hts. unfold vcsBlobHash, file_path. set (down := fun h name Hin => step_spec H s h name Hts Hin). cbn [passed descend]. intros Hno.
  rewrite (M_bind_ok _ _ _ _ _ (down r collection (Hno r ltac:(by left)))).
  destruct (entry_of H r collection) as [c|] eqn:Hc; [|done]. assert (truthy (VStr c) = true) as Tc by (pose proof (found_nonempty _ _ _ _ _ Hts Hc); by destruct c).
  cbn [text_or_null]. rewrite Tc. cbn [mbind option_bind passed] in *.
  rewrite (M_bind_ok _ _ _ _ _ (down c (js "active") (Hno c ltac:(set_solver)))).
  destruct (entry_of H c (js "active")) as [a|] eqn:Ha; [|done]. assert (truthy (VStr a) = true) as Ta by (pose proof (found_nonempty _ _ _ _ _ Hts Ha); by destruct a).
  cbn [text_or_null]. rewrite Ta. cbn [mbind option_bind passed] in *.
  rewrite (M_bind_ok _ _ _ _ _ (down a bucket (Hno a ltac:(set_solver)))).
  destruct (entry_of H a bucket) as [b|] eqn:Hb; [|done]. assert (truthy (VStr b) = true) as Tb by (pose proof (found_nonempty _ _ _ _ _ Hts Hb); by destruct b).
  cbn [text_or_null]. rewrite Tb. cbn [mbind option_bind passed] in *. rewrite (down b filename (Hno b ltac:(set_solver))).
  destruct (entry_of H b filename) as [h|] eqn:Hh; [|done]. split; [done|]. intros ? [= <-]. by eapply found_nonempty.
Qed.

(** The file of a commit, in the first bucket that has it. *)
Lemma blob_in_spec H collection filename buckets s r : Forall (tree_stored s) (trees H) ->
  (forall bucket h, bucket ∈ buckets -> h ∈ passed H r (file_path collection bucket filename) -> alist_get h (trees H) = None ->
     exists path e, vcsObjectPath (VStr h) = Ok path /\ readBytes path s = (Throw e, s)) ->
  let found := head (omap (fun bucket => descend H r (file_path collection bucket filename)) buckets) in
  blob_in (VStr r) collection filename buckets VNull s = (Ok (text_or_null found), s) /\ forall h, found = Some h -> h <> [].
Proof.
  intros Hts. induction buckets as [|bucket buckets IH]; intros Hno; [done|]. cbn [blob_in omap list_omap].
  destruct (vcsBlobHash_spec H s r collection bucket filename Hts (fun h => Hno bucket h ltac:(by left))) as [Hrun Hne]. run Hrun.
  destruct (descend H r _) as [h|] eqn:Hd; cbn [text_or_null head].
  - specialize (Hne h eq_refl). destruct h; [done|]. cbn. split; [done|]. by intros ? [= <-].
  - cbn [truthy]. apply IH. intros b h Hb. apply Hno. by right.
Qed.

Lemma file_at_spec H collection filename buckets s id c : stored H collection filename buckets s -> (id, c) ∈ commits H ->
  (if truthy (text_or_null (root c)) then blob_in (text_or_null (root c)) collection filename buckets VNull else mret VNull) s =
    (Ok (text_or_null (file_at H collection filename buckets c)), s) /\
  forall h, file_at H collection filename buckets c = Some h -> h <> [].
Proof.
  intros Hs Hin. unfold file_at. destruct (root c) as [r|] eqn:Hr; [|done]. cbn [text_or_null mbind option_bind].
  destruct (blob_in_spec H collection filename buckets s r (trees_stored _ _ _ _ _ Hs)) as [Hrun Hne].
  { intros bucket h Hb Hh Hn. by apply (no_tree _ _ _ _ _ Hs id c r bucket h). }
  split; [|done]. pose proof (commits_stored _ _ _ _ _ Hs) as Hc. rewrite Forall_forall in Hc. destruct (Hc _ Hin) as (_ & Hroot & _).
  rewrite Hr in Hroot. destruct r; [done|]. exact Hrun.
Qed.

Definition last_value (last : option jstr) : value := text_or_null last.

Lemma walk_spec H collection filename buckets s : stored H collection filename buckets s ->
  forall n id last out, (alist_get id (commits H) = None -> id <> [] /\ exists e, readText (commit_file (VStr id) "manifest.json") s = (Throw e, s)) ->
  walk n collection filename buckets (VStr id) (text_or_null last) out s =
    (Ok (out ++ changes (file_at H collection filename buckets) last (chain H n id)), s).
Proof.
  intros Hs. induction n as [|n IH]; intros id last out Hid; cbn [walk chain changes]; [by rewrite app_nil_r|].
  destruct (alist_get id (commits H)) as [c|] eqn:Hc.
  - apply alist_get_in in Hc. pose proof (commits_stored _ _ _ _ _ Hs) as Hcs. rewrite Forall_forall in Hcs.
    destruct (Hcs _ Hc) as (Hne & _ & Hpne & text & manifest & text' & tree & parents & Hm & Hmp & Hnote & Htime & Hpar & Hparent & Ht & Htp & r & Hroot & Hrv).
    assert (truthy (VStr id) = true) as -> by (by destruct id). cbn [negb].
    assert ((text ← readText (commit_file (VStr id) "manifest.json"); Some <$> lift (Json.parse text)) s = (Ok (Some manifest), s)) as Hread
      by (run Hm; by rewrite Hmp).
    run (or_else_ok _ None _ _ _ Hread). run (or_else_ok _ (js "{}") _ _ _ Ht). rewrite Htp. run_pure. rewrite Hroot. run_pure.
    destruct (file_at_spec H collection filename buckets s id c Hs Hc) as [Hfile Hfne].
    assert ((if truthy r then blob_in r collection filename buckets VNull else mret VNull) s = (Ok (text_or_null (file_at H collection filename buckets c)), s)) as Hfile'.
    { rewrite <- Hfile, <- Hrv. unfold or_null. by destruct r. }
    run Hfile'. rewrite Hnote, Htime, Hpar.
    assert (forall last out, walk n collection filename buckets (text_or_null (parent c)) (text_or_null last) out s =
      (Ok (out ++ changes (file_at H collection filename buckets) last (match parent c with Some p => chain H n p | None => [] end)), s)) as Hnext.
    { intros last' out'. destruct (parent c) as [p|] eqn:Hp; cbn [text_or_null].
      - apply IH. intros Hnone. split; [by intros ->|]. by apply (no_commit _ _ _ _ _ Hs id c p).
      - destruct n; cbn [walk changes]; by rewrite app_nil_r. }
    cbn [changes]. destruct (file_at H collection filename buckets c) as [h|] eqn:Hf; cbn [text_or_null].
    + specialize (Hfne h eq_refl). assert (truthy (VStr h) = true) as -> by (by destruct h). cbn [andb].
      case_bool_decide as Hl.
      * rewrite Hl. cbn [text_or_null strict_eq]. rewrite (proj2 (jeqb_true h h)) by done. cbn [negb]. run_pure. rewrite Hparent. exact (Hnext (Some h) out).
      * assert (strict_eq (VStr h) (text_or_null last) = false) as ->.
        { destruct last as [l|]; [|done]. cbn. apply jeqb_neq. congruence. }
        cbn [negb]. rewrite (M_bind_ok _ _ s s (out ++ [mkVersion (VStr id) (VStr h) (if truthy (note c) then note c else VStr []) (time c)])) by done.
        run_pure. rewrite Hparent. change (VStr h) with (text_or_null (Some h)) at 2. rewrite (Hnext (Some h)). by rewrite <- app_assoc.
    + cbn [truthy andb]. run_pure. rewrite Hparent. apply Hnext.
  - destruct (Hid eq_refl) as [Hne [e He]]. assert (truthy (VStr id) = true) as -> by (by destruct id). cbn [negb].
    assert ((text ← readText (commit_file (VStr id) "manifest.json"); Some <$> lift (Json.parse text)) s = (Throw e, s)) as Hread
      by (by rewrite (M_bind_throw _ _ _ _ _ He)).
    run (or_else_throw _ (@None value) _ _ _ Hread). by rewrite app_nil_r.
Qed.

(** C29: the version list of a document is its history: for each commit of the branch, from the
    newest on by first parents and at most two thousand of them, the file is looked up in the
    first shard directory that has it, and a version is listed where its content is not that
    of the version before.  Nothing is changed by reading, and the walk ends where a commit is
    missing. *)
Theorem versions_are_the_history H collection id filename layout l buckets head branch text ref newest s :
  filename <> [] -> readText (VCS ++ js "/HEAD") s = (Ok head, s) -> branch_of head = Some branch -> branch <> [] ->
  readText (VCS ++ js "/refs/heads/" ++ branch ++ js ".json") s = (Ok text, s) -> Json.parse text = Ok ref ->
  is_nullish ref = false -> prop ref (js "head") = VStr newest -> is_Some (alist_get newest (commits H)) ->
  Sharding.normalizeShardLayout layout = Ok l -> Sharding.historicalShardCandidates id l = Ok buckets ->
  stored H collection filename buckets s ->
  readVersions collection id filename layout s = (Ok (changes (file_at H collection filename buckets) None (chain H 2000 newest)), s).
Proof.
  intros Hf Hhead Hbranch Hne Href Hparse Hnull Hnewest Hsome Hlayout Hbuckets Hs. unfold readVersions. rewrite bool_decide_false by done.
  apply or_else_ok. run Hhead. rewrite Hbranch. destruct branch as [|b branch]; [done|]. run Href. rewrite Hparse. run_pure.
  rewrite Hnull, Hnewest, Hlayout. run_pure. rewrite Hbuckets. run_pure. apply (walk_spec H collection filename buckets s Hs 2000 newest None []).
  intros Hnone. by rewrite Hnone in Hsome; destruct Hsome.
Qed.

End Reading.

(** ** In the memory filesystem *)

Module Toy.

Definition plain (s : string) : jstr := replace_char 39 [34%N] (js s).
Definition noon : nat -> Z := fun _ => 1000%Z.
#[local] Instance noon_fs : FyloFilesystem MemFs.state := MemFs.memory noon.

Definition directory (hash entries : string) : jstr * jstr :=
  (VCS ++ js "/objects/" ++ take 2 (js hash) ++ js "/" ++ drop 2 (js hash), plain "{'entries':[" ++ plain entries ++ plain "]}").
Definition committed (id manifest tree : string) : list (jstr * jstr) :=
  [(commit_file (VStr (js id)) "manifest.json", plain manifest); (commit_file (VStr (js id)) "tree.json", plain tree)].

(** Two commits: the second changes the one document of the collection people. *)
Definition files : list (jstr * jstr) :=
  [(VCS ++ js "/HEAD", js "ref: refs/heads/main"); (VCS ++ js "/refs/heads/main.json", plain "{'head':'c2'}")] ++
  committed "c1" "{'message':'first','createdAt':'then','parents':[]}" "{'root':'r1x'}" ++
  committed "c2" "{'message':'','createdAt':'now','parents':['c1']}" "{'root':'r2x'}" ++
  [directory "r1x" "{'name':'people','hash':'p1x'}"; directory "p1x" "{'name':'active','hash':'a1x'}";
   directory "a1x" "{'name':'K','hash':'b1x'}"; directory "b1x" "{'name':'ABCDEFGHIJK.json','hash':'f1x'}";
   directory "r2x" "{'name':'people','hash':'p2x'}"; directory "p2x" "{'name':'active','hash':'a2x'}";
   directory "a2x" "{'name':'K','hash':'b2x'}"; directory "b2x" "{'name':'ABCDEFGHIJK.json','hash':'f2x'}"].
Definition disk : MemFs.state := snd (MemFs.createMemoryFilesystem noon files).

Definition tree (hash name next : string) : jstr * list (jstr * jstr) := (js hash, [(js name, js next)]).
Definition kept : store :=
  mkStore
    [tree "r1x" "people" "p1x"; tree "p1x" "active" "a1x"; tree "a1x" "K" "b1x"; tree "b1x" "ABCDEFGHIJK.json" "f1x";
     tree "r2x" "people" "p2x"; tree "p2x" "active" "a2x"; tree "a2x" "K" "b2x"; tree "b2x" "ABCDEFGHIJK.json" "f2x"]
    [(js "c1", mkPast (Some (js "r1x")) None (VStr (js "first")) (VStr (js "then")));
     (js "c2", mkPast (Some (js "r2x")) (Some (js "c1")) (VStr []) (VStr (js "now")))].
Definition buckets : list jstr := map js ["JK"; "AB"; ""; "K"; "IJK"; "HIJK"]%string.

Definition result {A} (a : A) (o : outcome A) : A := match o with Ok a => a | Throw _ => a end.

Lemma bytes_read path s : readBytes path s = (fst (readBytes path s), s).
Proof. cbn. unfold MemFs.readBytes. run_pure. by repeat case_match. Qed.
Lemma text_read path s : readText path s = (fst (readText path s), s).
Proof. pose proof (bytes_read path s) as Hb. cbn in *. unfold MemFs.readText, fmap, M_fmap. rewrite Hb. by destruct (fst _). Qed.

Lemma tree_intro s t path bytes node l : vcsObjectPath (VStr (fst t)) = Ok path -> fst (readBytes path s) = Ok bytes ->
  Json.parse (Utf8.decode bytes) = Ok node -> member node "entries" = Ok (VArr l) -> Forall2 is_entry l (snd t) -> tree_stored s t.
Proof. intros H1 H2 H3 H4 H5. exists path, bytes, node, l. split_and!; [done| |done..]. by rewrite bytes_read, H2. Qed.

Lemma commit_intro s id c text manifest text' tree parents r : id <> [] -> root c <> Some [] -> parent c <> Some [] ->
  fst (readText (commit_file (VStr id) "manifest.json") s) = Ok text -> Json.parse text = Ok manifest ->
  member manifest "message" = Ok (note c) -> member manifest "createdAt" = Ok (time c) -> member manifest "parents" = Ok parents ->
  (if is_nullish parents then VNull else or_null (first parents)) = text_or_null (parent c) ->
  fst (readText (commit_file (VStr id) "tree.json") s) = Ok text' -> Json.parse text' = Ok tree -> member tree "root" = Ok r ->
  or_null r = text_or_null (root c) -> commit_stored s (id, c).
Proof.
  intros ??? H1 ????? H2 ???. split_and!; [done|done|done|]. exists text, manifest, text', tree, parents.
  split_and!; [by rewrite text_read, H1|done..|by rewrite text_read, H2|done|by exists r].
Qed.

Lemma trees_kept : Forall (tree_stored disk) (trees kept).
Proof.
  repeat (constructor; [eapply tree_intro; [vm_compute; reflexivity..|repeat constructor; vm_compute; done]|]). constructor.
Qed.
Lemma commits_kept : Forall (commit_stored disk) (commits kept).
Proof.
  repeat (constructor; [eapply commit_intro; [done|done|done|vm_compute; reflexivity..]|]). constructor.
Qed.

(** Every directory looked for is there, and every parent. *)
Lemma all_there : forallb (fun ic => match root (snd ic) with
    | Some r => forallb (fun bucket => forallb (fun h => bool_decide (is_Some (alist_get h (trees kept)))) (passed kept r (file_path (js "people") bucket (js "ABCDEFGHIJK.json")))) buckets
    | None => true end && match parent (snd ic) with Some p => bool_decide (is_Some (alist_get p (commits kept))) | None => true end) (commits kept) = true.
Proof. vm_compute. reflexivity. Qed.

Lemma disk_stored : stored kept (js "people") (js "ABCDEFGHIJK.json") buckets disk.
Proof.
  pose proof all_there as Hall. rewrite forallb_forall in Hall.
  split; [exact trees_kept|exact commits_kept| |].
  - intros id c r bucket h Hin Hr Hb Hh Hn. apply list_elem_of_In in Hin. specialize (Hall _ Hin). cbn [snd] in Hall. rewrite Hr in Hall.
    apply andb_true_iff in Hall as [Hall _]. rewrite forallb_forall in Hall. apply list_elem_of_In in Hb, Hh. specialize (Hall _ Hb).
    rewrite forallb_forall in Hall. specialize (Hall _ Hh). apply bool_decide_eq_true in Hall. rewrite Hn in Hall. by destruct Hall.
  - intros id c p Hin Hp Hn. apply list_elem_of_In in Hin. specialize (Hall _ Hin). cbn [snd] in Hall. rewrite Hp in Hall.
    apply andb_true_iff in Hall as [_ Hall]. apply bool_decide_eq_true in Hall. rewrite Hn in Hall. by destruct Hall.
Qed.

Example versions_are_the_history_witness :
  readVersions (js "people") (js "ABCDEFGHIJK") (js "ABCDEFGHIJK.json") (VObj []) disk =
    (Ok [mkVersion (VStr (js "c2")) (VStr (js "f2x")) (VStr []) (VStr (js "now"));
         mkVersion (VStr (js "c1")) (VStr (js "f1x")) (VStr (js "first")) (VStr (js "then"))], disk).
Proof.
  assert (forall path t, fst (readText path disk) = Ok t -> readText path disk = (Ok t, disk)) as Hread by (intros path t Ht; by rewrite text_read, Ht).
  assert ([mkVersion (VStr (js "c2")) (VStr (js "f2x")) (VStr []) (VStr (js "now"));
           mkVersion (VStr (js "c1")) (VStr (js "f1x")) (VStr (js "first")) (VStr (js "then"))] =
    changes (file_at kept (js "people") (js "ABCDEFGHIJK.json") buckets) None (chain kept 2000 (js "c2"))) as -> by (vm_compute; reflexivity).
  apply (versions_are_the_history kept (js "people") (js "ABCDEFGHIJK") (js "ABCDEFGHIJK.json") (VObj []) (Sharding.mkLayout 2 []) buckets
    (js "ref: refs/heads/main") (js "main") (plain "{'head':'c2'}") (VObj [(js "head", VStr (js "c2"))]) (js "c2") disk).
  - done.
  - apply Hread. vm_compute. reflexivity.
  - vm_compute. reflexivity.
  - done.
  - apply Hread. vm_compute. reflexivity.
  - vm_compute. reflexivity.
  - done.
  - done.
  - vm_compute. eauto.
  - vm_compute. reflexivity.
  - vm_compute. reflexivity.
  - exact disk_stored.
Defined.

End Toy.
End Versioning.

Module Fields.

(** One edit field: its name, its type and the text of its input. *)
Record field := mkField { name : jstr; type : jstr; input : jstr }.

Definition valueType (v : value) : jstr :=
  match v with
  | VNull => js "null"
  | VArr _ => js "array"
  | VUndef => js "undefined"
  | VBool _ => js "boolean"
  | VNum _ => js "number"
  | VStr _ => js "string"
  | VObj _ => js "object"
  end.

Definition fieldValue (v : value) : jstr :=
  let type := valueType v in
  if jeqb type (js "null") then []
  else if jeqb type (js "object") || jeqb type (js "array") then default (js "undefined") (Json.stringify v)
  else to_str v.

Definition defaultRegex (type : jstr) : option jstr :=
  alist_get type
    [(js "string", js "^.*$"); (js "number", js "^-?\d+(\.\d+)?$"); (js "boolean", js "^(true|false)$");
     (js "null", js "^null$"); (js "array", js "^\[.*\]$"); (js "object", js "^\{.*\}$")].

Definition quoted (s : jstr) : jstr := [34%N] ++ s ++ [34%N].
Definition field_error (f : field) (message : jstr) : js_error := Error (js "Field " ++ quoted (name f) ++ js ": " ++ message).

Definition parseField (f : field) : outcome value :=
  if jeqb (type f) (js "number") then
    let n := Num.of_string (input f) in
    if negb (Num.is_finite n) then Throw (field_error f (quoted (input f) ++ js " is not a number")) else Ok (VNum n)
  else if jeqb (type f) (js "boolean") then Ok (VBool (jeqb (input f) (js "true")))
  else if jeqb (type f) (js "null") then Ok VNull
  else if jeqb (type f) (js "array") then
    p ← Json.parse (input f);
    if negb (is_array p) then Throw (field_error f (js "not an array")) else Ok p
  else if jeqb (type f) (js "object") then
    p ← Json.parse (input f);
    match p with VObj _ => Ok p | _ => Throw (field_error f (js "not an object")) end
  else Ok (VStr (input f)).

(** A value shown in the editor and left as it is comes back as it was: its type and its text
    parse to the value, whatever stored value it is. *)
Theorem untouched_field_keeps_its_value k v : Json.jsonable v = true -> parseField (mkField k (valueType v) (fieldValue v)) = Ok v.
Proof.
  intros Hj. assert (forall v, Json.jsonable v = true -> is_objectlike v = true -> Json.parse (default (js "undefined") (Json.stringify v)) = Ok v) as Hparse.
  { intros w Hw Ho. assert (Json.stringify w = Some (Json.text w)) as Hs.
    { unfold Json.stringify. rewrite Json.carried_jsonable by done. by destruct w. }
    rewrite Hs. cbn [default]. pose proof (Json.parse_stringify w _ Hs) as Hp. rewrite Json.carried_jsonable in Hp by done. by apply Hp. }
  destruct v as [| |[]|n|s|l|o]; try done.
  - destruct (Json.number_ok_finite n Hj) as [Hfin _]. cbn [Json.jsonable] in Hj. unfold Json.number_ok in Hj. rewrite !andb_true_iff in Hj.
    destruct Hj as [[_ Ho%bool_decide_eq_true] _].
    transitivity (let n' := Num.of_string (Num.to_string n) in
      if negb (Num.is_finite n') then Throw (field_error (mkField k (js "number") (Num.to_string n)) (quoted (Num.to_string n) ++ js " is not a number")) else Ok (VNum n')); [done|].
    cbv zeta. by rewrite Ho, Hfin.
  - transitivity (p ← Json.parse (default (js "undefined") (Json.stringify (VArr l)));
      if negb (is_array p) then Throw (field_error (mkField k (js "array") (default (js "undefined") (Json.stringify (VArr l)))) (js "not an array")) else Ok p); [done|].
    by rewrite Hparse.
  - transitivity (p ← Json.parse (default (js "undefined") (Json.stringify (VObj o)));
      match p with VObj _ => Ok p | _ => Throw (field_error (mkField k (js "object") (default (js "undefined") (Json.stringify (VObj o)))) (js "not an object")) end); [done|].
    by rewrite Hparse.
Qed.

(** What an edit gives has the type it was given under. *)
Lemma edit_keeps_the_type f v : type f ∈ map js ["null"; "boolean"; "number"; "string"; "array"; "object"]%string ->
  parseField f = Ok v -> valueType v = type f.
Proof.
  unfold parseField. intros Ht. destruct f as [k t i]. cbn [type input name] in *. cbn [map] in Ht.
  rewrite !elem_of_cons, elem_of_nil in Ht. destruct_or! Ht; subst; cbn; try done.
  - by intros [= <-].
  - by intros [= <-].
  - destruct (Num.is_finite _); [|done]. by intros [= <-].
  - by intros [= <-].
  - destruct (Json.parse i) as [[]|]; cbn; try done; by intros [= <-].
  - destruct (Json.parse i) as [[]|]; cbn; try done; by intros [= <-].
Qed.

Example untouched_field_keeps_its_value_witness :
  parseField (mkField (js "tags") (valueType (VArr [VStr (js "a"); VNum (Num.of_Z 3)])) (fieldValue (VArr [VStr (js "a"); VNum (Num.of_Z 3)]))) =
    Ok (VArr [VStr (js "a"); VNum (Num.of_Z 3)]).
Proof. apply untouched_field_keeps_its_value. vm_compute. reflexivity. Defined.

(** An emptied number field is not refused: it is saved as zero. *)
Example emptied_number : parseField (mkField (js "age") (js "number") []) = Ok (VNum Num.zero).
Proof. vm_compute. reflexivity. Qed.

End Fields.
